(* ===== verification/_CoqProject ===== *)
-Q . S2P
Prelude.v
Floats.v
LocalSnapshot.v
Mailbox.v
Messages.v
Cia402.v
Safety.v
St3215Protocol.v
Serial.v
Scheduler.v
St3215Servo.v
Damiao.v
RtLoop.v
Pdo.v
EthercatMailbox.v
EthercatMaster.v
IghBackend.v
CycleAdmission.v
Text.v
Rpc.v
Profile.v
Topics.v
Topology.v
Numbers.v
RobotLoader.v
LoadedProfile.v
PolicyLoader.v
Policy.v
CanBus.v
TransportRuntime.v
CommandIngress.v
DdsEndpoint.v
DdsRobotIo.v
DdsDelivery.v
Daemon.v
DaemonCycle.v
DaemonConfigure.v
DaemonLife.v
LifeFacts.v
DaemonRun.v
DaemonSession.v
DaemonExamples.v
DaemonMain.v
IghExamples.v
HostCli.v
RuntimeHost.v
HostFacts.v
RuntimeDds.v
HostExamples.v
HostMain.v
MainExamples.v
