(* ===== verification/Prelude.v ===== *)
(** * Verification of the embodied policy runtime

    This library models the C++ of the runtime (src/include, src/src and src/apps) and proves what
    makes it correct.  The runtime is two programs.  The robot I/O daemon owns the hardware: it
    drives CiA 402 axes over EtherCAT, ST3215 servos over serial buses and Damiao motors over CAN,
    under a safety supervisor.  The runtime host answers the RPC clients: it reads the feedback of
    the daemon, asks a policy for an action and publishes the commands.  The two meet on DDS topics
    that both derive from one robot profile.

    ** How to read it

    One file models one part, and requires the parts it calls.  A definition carries the name of the
    function or type it translates, and is executable.  State is passed explicitly; a failing
    operation returns [Result] (this file); an operation that can leave the defined behaviour of C++
    (an index past an array, a dangling pointer) returns an option or has an outcome of its own
    for it.  Integers are [Z] with the wrap-around of their width written out ([wrap], [u8] to
    [u64]).  Floating point is IEEE 754 at its three formats (Floats.v), so comparisons with NaN and
    infinities are those of the program.  What the program does not compute itself, the answers of
    the operating system, of the clocks and of the libraries, is an argument or an interface.

    ** The parts and their files

    Shared:
    - Prelude.v: errors and results (common/result.hpp), fixed-width integers, bits, little-endian
      bytes, runs of steps ([star]), and the tactics.
    - Floats.v: the arithmetic of [float], [double] and [long double].
    - Text.v, Numbers.v: character classes, [trim], decimal text, JSON trees, the number parsers of
      the profile loader ([from_chars], [strtod]).
    - Messages.v, Profile.v: the structs of messages.hpp, value_snapshot.hpp, pdo.hpp and
      robot_profile.hpp.
    - LocalSnapshot.v, Mailbox.v: the lock-free hand-offs (local_snapshot.hpp,
      realtime_mailbox.hpp), at the granularity of one atomic access per step.

    Devices (src/src/devices):
    - Cia402.v: [StateMachine] (state_machine.cpp), [Units] (units.hpp), [Axis] (axis.cpp), [Codec]
      (sensor.hpp, actuator.hpp).
    - St3215Protocol.v, St3215Servo.v: packets and stream parser (protocol.cpp); servos, shared bus
      and registry (servo.cpp).
    - Damiao.v: the motor protocol (damiao/protocol.cpp) and the virtual CAN adapter.
    - Rpc.v: the message envelopes and their codec (rpc/codec.cpp).

    Transports (src/src/transport):
    - Serial.v: the serial port (serial_transport.cpp).  CanBus.v: SocketCAN.
    - Pdo.v: process-data fields (backend.hpp), elmo_gold.cpp and ethercat_binding.cpp, and the
      interface [EthercatBackend].  EthercatMailbox.v, EthercatMaster.v, CycleAdmission.v: the
      mailbox, the master and the admission word of master.cpp.  IghBackend.v: the backend over the
      IgH library (igh_backend.cpp); it implements [EthercatBackend] and discharges the laws that
      the theorems of the master ask for.

    The daemon (src/src/robot_io):
    - Safety.v: safety_supervisor.cpp.  RtLoop.v: realtime_loop.cpp.  Scheduler.v:
      transport_scheduler.cpp and the checks of transport_factory.cpp.  TransportRuntime.v:
      transport_runtime.cpp.  Topology.v: topology.cpp.  Topics.v: topic_registry.cpp.
    - CommandIngress.v: the path of a command to the supervisor (daemon.cpp [stage_commands],
      [consume_staged_commands]).  DdsEndpoint.v: daemon_endpoint.cpp.
    - Daemon.v, DaemonCycle.v, DaemonLife.v: [RobotIoDaemon]: members and configuration, the cycle,
      start, run and stop.  DaemonConfigure.v, LifeFacts.v, DaemonRun.v, DaemonSession.v: their
      theorems.  DaemonMain.v: apps/robot_io_daemon_main.cpp.

    Profiles and the host:
    - RobotLoader.v, LoadedProfile.v, PolicyLoader.v: profiles/loader.cpp and what a loaded profile
      guarantees.
    - Policy.v: policy/pipeline.cpp and policy/dummy_policy.cpp.
    - DdsRobotIo.v: runtime/dds_robot_io.cpp.  DdsDelivery.v: what the daemon's endpoint makes of its
      publications, as DDS delivers them.  RuntimeHost.v, HostFacts.v: runtime_host.cpp and its
      theorems over any [RuntimeRobotIo].  RuntimeDds.v: the host over DDS.  HostCli.v, HostMain.v:
      runtime_host_cli.cpp and apps/policy_runtime_host_main.cpp.
    - The files named ...Examples.v, and the modules with such names, hold concrete instances: the
      witnesses of the theorems and the behaviours reported as findings.

    ** How the parts meet

    [SerialLink] (St3215Servo.v) is what a servo bus needs of a serial port; [SerialPortLink] is the
    port of Serial.v as one.  [EthercatBackend] is what the master needs of a backend, implemented by
    IghBackend.v.  [RuntimeRobotIo] is what the host needs of the robot; RuntimeDds.v implements it
    with DdsRobotIo.v.  [JsonText] is the JSON library, [Ecrt] the IgH library.  The daemon contains
    the others as they are: its cycle calls the axes, the buses, the runtimes, the supervisor and the
    master, and the handler that the master calls back is the daemon's own.

    ** What the theorems show

    - Safety of motion: an axis is enabled only through the whole chain, from an accepted command
      over the supervisor and the state machine to the process image ([daemon_enable_sound],
      [supervisor_enable_sound], [axis_enable_sound], [cycle_outputs_gated]); stops are latched, a
      fault is reset only on an edge, a servo bus sends only what is authorised and fresh.
    - Commands: a command is consumed at most once and in order ([command_ingress_sound]), comes
      from a complete epoch of the right session ([dds_commands_authentic], [epoch_batch_complete]),
      and what a request makes the host publish reaches the callbacks of the daemon, once each,
      whenever DDS delivers it with every commit read after the samples of its epoch
      ([request_reaches_daemon]; [DdsDelivery.DdsDeliveryExamples.epoch_lost] is what happens otherwise).
    - The host: what it publishes, in what order, what it answers, that sessions are isolated and
      that it stays in its arrays.
    - Concurrency: the interleaved steps of the lock-free structures are linearizable, the cycle
      admission excludes a cycle on a closed master, and its wait ends.
    - Life cycle: configuration and opening are all or nothing, every stage of a failed start is
      taken down, a session ends once a stop is asked for, after the quick stop of every axis is
      complete or has timed out ([daemon_run_ends]), and each program ends with the code of its cause
      ([daemon_main_ends], [host_main_serves]).  The backend keeps to the protocol of the IgH
      library for a caller that closes it after an activation that failed ([igh_calls_in_order]).
    - Data: codecs round-trip and decode exactly what is valid, loaded profiles satisfy the ranges
      the other parts rely on, topology and topics are what their declarative descriptions say.

    ** Bounds and fuel

    Loops over arrays and lists are structural.  The loops that wait for the world (reads, writes
    and polls of the serial port, the turns of [run], the server loop) recurse on the list of the
    answers the world gives, and a list that runs out means that nothing more happens; theorems
    that a loop ends say how many answers are enough.  The remaining fuel is a size that the
    loop decreases, and the definitions pass it themselves: the bytes of the buffer for the parsers
    ([SerialTransport.extract_loop], [St3215Protocol.drain], [VirtualCan.parse]), the bytes to send
    and the answers still to come for the port, the bits of the flags for [flag_count_loop], the
    mailboxes for [service_mailboxes]; [extract_loop_enough] and [flag_count_loop_enough] show that
    more changes nothing, and the theorems on received streams that nothing is left unparsed.
    Concurrent parts are step relations or step functions over any schedule.  The theorem on reads of
    local snapshots holds as long as fewer than 2^63 values have been published, which the 64-bit
    epoch of the snapshot counts without a repetition.

    ** What is not modelled

    - Libraries: IgH EtherCAT, CycloneDDS and the types generated from idl/, nlohmann-json, ZeroMQ,
      and the operating system are parameters with named hypotheses.  Exceptions that only memory
      exhaustion raises are left out.  Printing a JSON value may throw; the round trips of the codec
      are about the values that JSON can carry ([Rpc.printable]).
    - The memory model: the atomics of LocalSnapshot.v and CycleAdmission.v are sequentially
      consistent, as in the source; the relaxed accesses of Mailbox.v follow x86-64.
    - The wall-clock periods of the workers: any order of their turns is allowed.
    - The Python package (policy_embodied_runtime), its simulations and tests, the C++ tests, the
      qualification tools, the build files and the documents. *)
From Stdlib Require Import ZArith Lia.
From stdpp Require Export base option list strings gmap.

#[global] Open Scope Z_scope.

(** ** Errors and results ([include/policy_runtime/common/result.hpp]) *)

Inductive ErrorCode :=
  | invalid_argument
  | io
  | timeout
  | protocol
  | unavailable
  | internal.

#[export] Instance ErrorCode_eq_dec : EqDecision ErrorCode.
Proof. solve_decision. Defined.

Record Error := mkError { code : ErrorCode; message : string }.

#[export] Instance Error_eq_dec : EqDecision Error.
Proof. solve_decision. Defined.

(** [Result<T>] is a [std::variant<T, Error>]. *)
Inductive Result (A : Type) :=
  | success (value : A)
  | failure (error : Error).
Arguments success {A} value.
Arguments failure {A} error.

Definition has_value {A} (r : Result A) : bool :=
  match r with success _ => true | failure _ => false end.

Definition fail {A} (c : ErrorCode) (m : string) : Result A := failure (mkError c m).

Definition result_code {A} (r : Result A) : option ErrorCode :=
  match r with success _ => None | failure e => Some (code e) end.

#[export] Instance Result_ret : MRet Result := fun A a => success a.
#[export] Instance Result_bind : MBind Result := fun A B f r =>
  match r with success a => f a | failure e => failure e end.
#[export] Instance Result_fmap : FMap Result := fun A B f r =>
  match r with success a => success (f a) | failure e => failure e end.

Lemma result_bind_success {A B} (r : Result A) (f : A -> Result B) b :
  (r ≫= f) = success b <-> exists a, r = success a /\ f a = success b.
Proof.
  destruct r as [a|e]; cbn; split.
  - intros H; eauto.
  - intros [a' [[= ->] H]]; exact H.
  - discriminate.
  - intros [a' [? _]]; discriminate.
Qed.

Lemma result_bind_failure {A B} (r : Result A) (f : A -> Result B) e :
  (r ≫= f) = failure e <->
  r = failure e \/ exists a, r = success a /\ f a = failure e.
Proof.
  destruct r as [a|e']; cbn; split.
  - intros H; right; eauto.
  - intros [H|[a' [[= ->] H]]]; [discriminate | exact H].
  - intros [= ->]; auto.
  - intros [[= ->]|[a' [? _]]]; [reflexivity | discriminate].
Qed.

(** ** Fixed-width integers

    A C++ integer of width [w] is a [Z]; an operation that can wrap writes its
    wrap-around out with these functions. *)
Definition wrap (w z : Z) : Z := z mod 2 ^ w.
Definition wrap_signed (w z : Z) : Z := (z + 2 ^ (w - 1)) mod 2 ^ w - 2 ^ (w - 1).

Abbreviation u8 := (wrap 8).
Abbreviation u16 := (wrap 16).
Abbreviation u32 := (wrap 32).
Abbreviation u64 := (wrap 64).

Definition int8_min : Z := -128.
Definition int8_max : Z := 127.
Definition int16_min : Z := -32768.
Definition int16_max : Z := 32767.
Definition int32_min : Z := -2147483648.
Definition int32_max : Z := 2147483647.
Definition int64_min : Z := -9223372036854775808.
Definition int64_max : Z := 9223372036854775807.
Definition uint16_max : Z := 65535.
Definition uint32_max : Z := 4294967295.
Definition uint64_max : Z := 18446744073709551615.

Definition is_word (w z : Z) : Prop := 0 <= z < 2 ^ w.
Abbreviation is_byte := (is_word 8).
Definition is_int64 (z : Z) : Prop := int64_min <= z <= int64_max.

Lemma wrap_range w z : 0 <= w -> is_word w (wrap w z).
Proof. intros Hw. apply Z.mod_pos_bound, Z.pow_pos_nonneg; lia. Qed.

Lemma wrap_small w z : is_word w z -> wrap w z = z.
Proof. apply Z.mod_small. Qed.

Lemma wrap_idemp w z : wrap w (wrap w z) = wrap w z.
Proof. unfold wrap. apply Zmod_mod. Qed.

Lemma wrap_signed_small w z :
  0 < w -> - 2 ^ (w - 1) <= z < 2 ^ (w - 1) -> wrap_signed w z = z.
Proof.
  intros Hw Hz. unfold wrap_signed.
  assert (2 ^ w = 2 * 2 ^ (w - 1)) as E
    by (rewrite <- Z.pow_succ_r by lia; f_equal; lia).
  rewrite Z.mod_small by lia. lia.
Qed.

Lemma wrap_signed_wrap w z :
  0 < w -> - 2 ^ (w - 1) <= z < 2 ^ (w - 1) -> wrap_signed w (wrap w z) = z.
Proof.
  intros Hw Hz. rewrite <- (wrap_signed_small w z) at 2 by lia.
  unfold wrap_signed, wrap. now rewrite Zplus_mod_idemp_l.
Qed.

Lemma wrap_signed_range w z :
  0 < w -> - 2 ^ (w - 1) <= wrap_signed w z < 2 ^ (w - 1).
Proof.
  intros Hw. unfold wrap_signed.
  assert (2 ^ w = 2 * 2 ^ (w - 1)) as E
    by (rewrite <- Z.pow_succ_r by lia; f_equal; lia).
  pose proof (Z.mod_pos_bound (z + 2 ^ (w - 1)) (2 ^ w)).
  assert (0 < 2 ^ (w - 1)) by (apply Z.pow_pos_nonneg; lia). lia.
Qed.

(** ** Bits and flags *)

Definition has_flag (flags mask : Z) : bool := negb (Z.land flags mask =? 0).

(** [flags &= ~mask] *)
Definition clear_flags (flags mask : Z) : Z := Z.ldiff flags mask.

Lemma testbit_out w z i : is_word w z -> w <= i -> Z.testbit z i = false.
Proof.
  intros Hz Hi. destruct (Z.lt_ge_cases w 0) as [Hw|Hw].
  - unfold is_word in Hz. rewrite Z.pow_neg_r in Hz by lia. lia.
  - rewrite <- (Z.mod_small z (2 ^ w)) by exact Hz.
    apply Z.mod_pow2_bits_high; lia.
Qed.

Lemma is_word_testbit w z :
  0 <= w -> 0 <= z -> (forall i, w <= i -> Z.testbit z i = false) -> is_word w z.
Proof.
  intros Hw Hz Hb. split; [exact Hz|].
  destruct (Z.eq_dec z 0) as [->|Hne]; [apply Z.pow_pos_nonneg; lia|].
  destruct (Z.lt_ge_cases (Z.log2 z) w) as [Hlt|Hge].
  - apply Z.log2_lt_pow2; lia.
  - specialize (Hb (Z.log2 z) Hge). rewrite Z.bit_log2 in Hb by lia. discriminate.
Qed.

Lemma lor_word w a b : 0 <= w -> is_word w a -> is_word w b -> is_word w (Z.lor a b).
Proof.
  intros Hw Ha Hb. apply is_word_testbit; [lia| |].
  - apply Z.lor_nonneg; unfold is_word in *; lia.
  - intros i Hi. rewrite Z.lor_spec, (testbit_out w a), (testbit_out w b) by assumption.
    reflexivity.
Qed.

Lemma land_word_r w a b : 0 <= w -> is_word w b -> is_word w (Z.land a b).
Proof.
  intros Hw Hb. apply is_word_testbit; [lia| |].
  - apply Z.land_nonneg; unfold is_word in *; lia.
  - intros i Hi. rewrite Z.land_spec, (testbit_out w b) by assumption.
    apply andb_false_r.
Qed.

Lemma land_disjoint_shiftl n a b :
  0 <= n -> is_word n a -> Z.land a (Z.shiftl b n) = 0.
Proof.
  intros Hn Ha. apply Z.bits_inj'. intros i Hi.
  rewrite Z.land_spec, Z.shiftl_spec, Z.bits_0 by lia.
  destruct (Z.lt_ge_cases i n).
  - rewrite (Z.testbit_neg_r b) by lia. apply andb_false_r.
  - rewrite (testbit_out n a) by assumption. reflexivity.
Qed.

(** Concatenating bit fields is addition: [lo | hi << n]. *)
Lemma lor_shiftl_add n a b :
  0 <= n -> is_word n a -> Z.lor a (Z.shiftl b n) = a + b * 2 ^ n.
Proof.
  intros Hn Ha. rewrite <- Z.shiftl_mul_pow2 by lia.
  symmetry. rewrite <- Z.lxor_lor by (apply land_disjoint_shiftl; assumption).
  apply Z.add_nocarry_lxor, land_disjoint_shiftl; assumption.
Qed.

Lemma lor_shiftl_add_l n a b :
  0 <= n -> is_word n a -> Z.lor (Z.shiftl b n) a = b * 2 ^ n + a.
Proof. intros Hn Ha. rewrite Z.lor_comm, lor_shiftl_add by assumption. lia. Qed.

(** ** Little-endian byte strings

    [le_encode n v] writes the [n] low bytes of [v], least significant first;
    [le_decode] reads them back. *)
Fixpoint le_encode (n : nat) (v : Z) : list Z :=
  match n with
  | O => []
  | S n => u8 v :: le_encode n (Z.shiftr v 8)
  end.

Fixpoint le_decode (bytes : list Z) : Z :=
  match bytes with
  | [] => 0
  | b :: bytes => Z.lor b (Z.shiftl (le_decode bytes) 8)
  end.

Lemma length_le_encode n v : length (le_encode n v) = n.
Proof. revert v; induction n as [|n IH]; intros v; cbn; [done|]. by rewrite IH. Qed.

Lemma le_encode_bytes n v : Forall is_byte (le_encode n v).
Proof.
  revert v; induction n as [|n IH]; intros v; cbn; constructor; [|apply IH].
  apply wrap_range; lia.
Qed.

Lemma le_decode_word bytes :
  Forall is_byte bytes -> is_word (8 * Z.of_nat (length bytes)) (le_decode bytes).
Proof.
  induction 1 as [|b bytes Hb Hbs IH]; cbn [le_decode length]; [split; cbn; lia|].
  rewrite lor_shiftl_add by (lia || assumption).
  unfold is_word in *. split; [nia|].
  replace (8 * Z.of_nat (S (length bytes))) with (8 + 8 * Z.of_nat (length bytes)) by lia.
  rewrite Z.pow_add_r by lia. nia.
Qed.

Lemma le_decode_encode n v :
  le_decode (le_encode n v) = wrap (8 * Z.of_nat n) v.
Proof.
  revert v; induction n as [|n IH]; intros v; cbn [le_encode le_decode].
  - unfold wrap. cbn. now rewrite Z.mod_1_r.
  - rewrite lor_shiftl_add by (lia || (apply wrap_range; lia)).
    rewrite IH. unfold wrap. rewrite Z.shiftr_div_pow2 by lia.
    replace (8 * Z.of_nat (S n)) with (8 + 8 * Z.of_nat n) by lia.
    rewrite Z.pow_add_r, Z.rem_mul_r by (try apply Z.pow_pos_nonneg; lia).
    lia.
Qed.

Lemma le_encode_decode bytes :
  Forall is_byte bytes -> le_encode (length bytes) (le_decode bytes) = bytes.
Proof.
  induction 1 as [|b bytes Hb Hbs IH]; cbn [le_encode le_decode length]; [done|].
  rewrite lor_shiftl_add by (lia || assumption).
  f_equal.
  - unfold wrap. rewrite Z.mod_add by lia. now apply Z.mod_small.
  - rewrite Z.shiftr_div_pow2, Z.div_add, Z.div_small by (lia || exact Hb).
    rewrite Z.add_0_l. exact IH.
Qed.

(** ** Transition systems *)

Section Star.
Context {S : Type} (step : S -> S -> Prop).

(** Finite sequences of steps, the last step outermost so that invariants are
    proved by induction on the last step. *)
Inductive star (a : S) : S -> Prop :=
  | star_refl : star a a
  | star_step b c : star a b -> step b c -> star a c.

Lemma star_invariant (P : S -> Prop) a :
  P a -> (forall b c, P b -> step b c -> P c) -> forall b, star a b -> P b.
Proof. intros Ha Hs b. induction 1; eauto. Qed.

Lemma star_trans a b c : star a b -> star b c -> star a c.
Proof. induction 2; eauto using star. Qed.
End Star.

(** ** Automation *)

Create HintDb robot.
#[export] Hint Resolve wrap_range wrap_small lor_word land_word_r : robot.
#[export] Hint Resolve le_encode_bytes le_decode_word : robot.
#[export] Hint Constructors star : robot.

Create Rewrite HintDb robot_rw.
#[export] Hint Rewrite length_le_encode wrap_idemp le_decode_encode : robot_rw.

(** Case analysis on every [if] and [match] of the goal, innermost scrutinee
    first, simplifying the equations it leaves. *)
Ltac case_all := repeat (case_match; simplify_eq/=; try done).

(** Evaluate a concrete execution. *)
Ltac run := vm_compute; repeat split; reflexivity.

Ltac b2p :=
  repeat match goal with
  | H : (_ && _)%bool = true |- _ => apply andb_true_iff in H; destruct H
  | H : (_ || _)%bool = false |- _ => apply orb_false_iff in H; destruct H
  | H : negb _ = true |- _ => apply negb_true_iff in H
  | H : negb _ = false |- _ => apply negb_false_iff in H
  | H : (_ <? _) = true |- _ => apply Z.ltb_lt in H
  | H : (_ <? _) = false |- _ => apply Z.ltb_ge in H
  | H : (_ <=? _) = true |- _ => apply Z.leb_le in H
  | H : (_ <=? _) = false |- _ => apply Z.leb_gt in H
  | H : (_ =? _) = true |- _ => apply Z.eqb_eq in H
  | H : (_ =? _) = false |- _ => apply Z.eqb_neq in H
  | H : bool_decide _ = true |- _ => apply bool_decide_eq_true_1 in H
  | H : bool_decide _ = false |- _ => apply bool_decide_eq_false_1 in H
  end.
