(* ===== verification/Floats.v ===== *)
(** * IEEE-754 arithmetic used by the devices

    C++ [float], [double] and (x86-64) [long double] as the axiom-free
    [spec_float] of the standard library at their three formats, with the
    operations of [<cmath>] and [<algorithm>] the sources call: [isfinite],
    [abs], [clamp], [round], [floor], [fmod] and the conversions.  The ordering
    lemmas hold for every [spec_float], so no theorem of the development needs
    the operands to be canonical. *)
From Corelib Require Export SpecFloat.
From S2P Require Import Prelude.

Abbreviation float := spec_float.
Abbreviation double := spec_float.
Abbreviation long_double := spec_float.

Declare Scope fp_scope.
Delimit Scope fp_scope with fp.

(** ** Classification and order *)

Definition is_nan (x : spec_float) : bool :=
  match x with S754_nan => true | _ => false end.

Definition isfinite (x : spec_float) : bool :=
  match x with S754_zero _ | S754_finite _ _ _ => true | _ => false end.

Notation "x <? y" := (SFltb x y) : fp_scope.
Notation "x <=? y" := (SFleb x y) : fp_scope.
Notation "x =? y" := (SFeqb x y) : fp_scope.

(** [std::clamp(v, lo, hi)]. *)
Definition clamp (v lo hi : spec_float) : spec_float :=
  if (v <? lo)%fp then lo else if (hi <? v)%fp then hi else v.

(** The order key of a non-NaN: sign and magnitude class, exponent, mantissa,
    compared lexicographically. *)
Definition key (x : spec_float) : Z * Z * Z :=
  match x with
  | S754_nan => (0, 0, 0)
  | S754_zero _ => (0, 0, 0)
  | S754_infinity s => ((if s then -2 else 2), 0, 0)
  | S754_finite false m e => (1, e, Z.pos m)
  | S754_finite true m e => (-1, - e, Z.neg m)
  end.

Definition key_lt (a b : Z * Z * Z) : Prop :=
  let '(a1, a2, a3) := a in let '(b1, b2, b3) := b in
  a1 < b1 \/ (a1 = b1 /\ (a2 < b2 \/ (a2 = b2 /\ a3 < b3))).

Lemma SFcompare_key x y :
  is_nan x = false -> is_nan y = false ->
  match SFcompare x y with
  | Some Lt => key_lt (key x) (key y)
  | Some Eq => key x = key y
  | Some Gt => key_lt (key y) (key x)
  | None => False
  end.
Proof.
  destruct x as [s1|s1| |s1 m1 e1], y as [s2|s2| |s2 m2 e2]; try discriminate;
    intros _ _; destruct s1, s2; cbn; try (lia || reflexivity).
  all: destruct (Z.compare_spec e1 e2) as [->|?|?]; cbn; try lia.
  all: change (Pos.compare_cont Eq m1 m2) with (m1 ?= m2)%positive;
    destruct (Pos.compare_spec m1 m2) as [->|?|?]; cbn; try (lia || reflexivity).
Qed.

Lemma SFltb_spec x y :
  (x <? y)%fp = true <-> is_nan x = false /\ is_nan y = false /\ key_lt (key x) (key y).
Proof.
  unfold SFltb. destruct (is_nan x) eqn:Hx.
  { destruct x; try discriminate. cbn. split; [discriminate | intros [? _]; discriminate]. }
  destruct (is_nan y) eqn:Hy.
  { destruct y; try discriminate.
    destruct x; cbn; (split; [discriminate | intros (_ & ? & _); discriminate]). }
  pose proof (SFcompare_key x y Hx Hy) as H.
  destruct (SFcompare x y) as [[]|], (key x) as [[]], (key y) as [[]]; cbn in *;
    simplify_eq; split; try (intros; split_and?; done); try discriminate; try lia;
    intros (_ & _ & ?); lia.
Qed.

Lemma SFleb_spec x y :
  (x <=? y)%fp = true <->
  is_nan x = false /\ is_nan y = false /\ ~ key_lt (key y) (key x).
Proof.
  unfold SFleb. destruct (is_nan x) eqn:Hx.
  { destruct x; try discriminate. cbn. split; [discriminate | intros [? _]; discriminate]. }
  destruct (is_nan y) eqn:Hy.
  { destruct y; try discriminate.
    destruct x; cbn; (split; [discriminate | intros (_ & ? & _); discriminate]). }
  pose proof (SFcompare_key x y Hx Hy) as H.
  destruct (SFcompare x y) as [[]|], (key x) as [[]], (key y) as [[]]; cbn in *;
    simplify_eq; split; try (intros; split_and?; (done || lia)); try discriminate;
    intros (_ & _ & ?); lia.
Qed.

Lemma SFltb_false_leb x y :
  is_nan x = false -> is_nan y = false -> (x <? y)%fp = false -> (y <=? x)%fp = true.
Proof.
  intros Hx Hy H. apply SFleb_spec. split_and?; [done..|]. intros K.
  apply not_true_iff_false in H. apply H, SFltb_spec; auto.
Qed.

Lemma SFltb_leb x y : (x <? y)%fp = true -> (x <=? y)%fp = true.
Proof.
  rewrite SFltb_spec, SFleb_spec. intros (? & ? & H); split_and?; [done..|].
  destruct (key x) as [[]], (key y) as [[]]; cbn in *; lia.
Qed.

Lemma SFleb_refl x : is_nan x = false -> (x <=? x)%fp = true.
Proof.
  intros H. apply SFleb_spec. split_and?; [done..|].
  destruct (key x) as [[]]; cbn; lia.
Qed.

Lemma SFleb_trans x y z :
  (x <=? y)%fp = true -> (y <=? z)%fp = true -> (x <=? z)%fp = true.
Proof.
  rewrite !SFleb_spec. intros (? & ? & H1) (_ & ? & H2); split_and?; [done..|].
  destruct (key x) as [[]], (key y) as [[]], (key z) as [[]]; cbn in *; lia.
Qed.

Lemma isfinite_not_nan x : isfinite x = true -> is_nan x = false.
Proof. by destruct x. Qed.

Lemma SFleb_not_nan x y : (x <=? y)%fp = true -> is_nan x = false /\ is_nan y = false.
Proof. rewrite SFleb_spec. tauto. Qed.

#[export] Hint Resolve isfinite_not_nan SFleb_refl SFltb_leb SFltb_false_leb : robot.

(** [clamp] returns one of its arguments, and lands inside an ordered window. *)
Lemma clamp_cases v lo hi : clamp v lo hi = v \/ clamp v lo hi = lo \/ clamp v lo hi = hi.
Proof. unfold clamp. case_all; auto. Qed.

Lemma clamp_bounds v lo hi :
  is_nan v = false -> (lo <=? hi)%fp = true ->
  (lo <=? clamp v lo hi)%fp = true /\ (clamp v lo hi <=? hi)%fp = true.
Proof.
  intros Hv Hb. destruct (SFleb_not_nan _ _ Hb) as [Hl Hh].
  unfold clamp. destruct (v <? lo)%fp eqn:E1; [auto with robot|].
  destruct (hi <? v)%fp eqn:E2; auto with robot.
Qed.

Lemma clamp_inside v lo hi :
  (lo <=? v)%fp = true -> (v <=? hi)%fp = true -> clamp v lo hi = v.
Proof.
  rewrite !SFleb_spec. intros (? & ? & H1) (? & ? & H2). unfold clamp.
  destruct (v <? lo)%fp eqn:E1; [apply SFltb_spec in E1; tauto|].
  destruct (hi <? v)%fp eqn:E2; [apply SFltb_spec in E2; tauto|done].
Qed.

Lemma isfinite_between lo v hi :
  isfinite lo = true -> isfinite hi = true ->
  (lo <=? v)%fp = true -> (v <=? hi)%fp = true -> isfinite v = true.
Proof.
  rewrite !SFleb_spec. intros Hl Hh (_ & Hn & H1) (_ & _ & H2).
  destruct v as [| [] | |]; try done; exfalso.
  - destruct lo as [| |? |[] ]; try discriminate; apply H1; cbn; lia.
  - destruct hi as [| |? |[] ]; try discriminate; apply H2; cbn; lia.
Qed.

Lemma clamp_finite v lo hi :
  isfinite v = true -> isfinite lo = true -> isfinite hi = true ->
  isfinite (clamp v lo hi) = true.
Proof. intros. destruct (clamp_cases v lo hi) as [->|[->| ->]]; done. Qed.

(** ** The three formats

    binary32, binary64 and the 80-bit extended format of x86-64 [long double]
    (64-bit significand, 15-bit exponent). *)
Abbreviation dadd := (SFadd 53 1024).
Abbreviation dsub := (SFsub 53 1024).
Abbreviation dmul := (SFmul 53 1024).
Abbreviation ddiv := (SFdiv 53 1024).
Abbreviation fadd := (SFadd 24 128).
Abbreviation fsub := (SFsub 24 128).
Abbreviation fmul := (SFmul 24 128).
Abbreviation fdiv := (SFdiv 24 128).
Abbreviation ldmul := (SFmul 64 16384).
Abbreviation lddiv := (SFdiv 64 16384).

(** [static_cast] between formats: the value rounded to the target format. *)
Definition convert (prec emax : Z) (x : spec_float) : spec_float :=
  match x with
  | S754_finite s m e => binary_round prec emax s m e
  | _ => x
  end.

(** [static_cast] from an integer type. *)
Definition of_int (prec emax z : Z) : spec_float := binary_normalize prec emax z 0 false.

Abbreviation to_double := (convert 53 1024).
Abbreviation to_long_double := (convert 64 16384).
Abbreviation double_of_int := (of_int 53 1024).
Abbreviation float_of_int := (of_int 24 128).
Abbreviation long_double_of_int := (of_int 64 16384).

Definition fzero : spec_float := S754_zero false.

Definition double_max : spec_float := S754_finite false 9007199254740991 971.

(** [2.0 * std::numbers::pi], [static_cast<double>] of 0x1.921fb54442d18p+2. *)
Definition tau : double := S754_finite false 7074237752028440 (-50).

(** ** Rounding to integers

    [std::round] (half away from zero), [std::trunc] and [std::floor] return a
    floating-point value that is an integer; the model returns the integer.
    Each is total and is only used on finite operands. *)
Definition round_magnitude (m e : Z) : Z :=
  if 0 <=? e then m * 2 ^ e else (m + 2 ^ (- e - 1)) / 2 ^ (- e).

Definition round_int (x : spec_float) : Z :=
  match x with
  | S754_finite s m e => cond_Zopp s (round_magnitude (Z.pos m) e)
  | _ => 0
  end.

Definition trunc_int (x : spec_float) : Z :=
  match x with
  | S754_finite s m e =>
      cond_Zopp s (if 0 <=? e then Z.pos m * 2 ^ e else Z.pos m / 2 ^ (- e))
  | _ => 0
  end.

Definition floor_int (x : spec_float) : Z :=
  match x with
  | S754_finite s m e =>
      let sm := cond_Zopp s (Z.pos m) in
      if 0 <=? e then sm * 2 ^ e else sm / 2 ^ (- e)
  | _ => 0
  end.

(** [std::fmod(x, y)]: the exact remainder, with the sign of [x]. *)
Definition fmod (prec emax : Z) (x y : spec_float) : spec_float :=
  match x, y with
  | S754_nan, _ | _, S754_nan | S754_infinity _, _ | _, S754_zero _ => S754_nan
  | S754_zero _, _ | _, S754_infinity _ => x
  | S754_finite sx mx ex, S754_finite _ my ey =>
      let e := Z.min ex ey in
      match (Z.pos mx * 2 ^ (ex - e)) mod (Z.pos my * 2 ^ (ey - e)) with
      | Z.pos r => binary_round prec emax sx r e
      | _ => S754_zero sx
      end
  end.

Example round_half_up : round_int (S754_finite false 5 (-1)) = 3.
Proof. reflexivity. Qed.
Example round_half_down : round_int (S754_finite true 5 (-1)) = -3.
Proof. reflexivity. Qed.
Example floor_neg : floor_int (S754_finite true 5 (-1)) = -3.
Proof. reflexivity. Qed.
Example fmod_neg : fmod 53 1024 (double_of_int (-7)) (double_of_int 4) = double_of_int (-3).
Proof. reflexivity. Qed.

(** [std::round] is nearest: twice the distance to the argument is at most one
    unit (both scaled by [2 ^ -e]). *)
Lemma round_magnitude_nearest m k :
  0 <= m -> 0 < k ->
  2 * Z.abs (round_magnitude m (- k) * 2 ^ k - m) <= 2 ^ k.
Proof.
  intros Hm Hk. unfold round_magnitude.
  destruct (0 <=? - k) eqn:E; b2p; [lia|].
  rewrite Z.opp_involutive.
  assert (2 ^ k = 2 * 2 ^ (k - 1)) as P by (rewrite <- Z.pow_succ_r by lia; f_equal; lia).
  assert (0 < 2 ^ (k - 1)) by (apply Z.pow_pos_nonneg; lia).
  pose proof (Z.div_mod (m + 2 ^ (k - 1)) (2 ^ k)).
  pose proof (Z.mod_pos_bound (m + 2 ^ (k - 1)) (2 ^ k)). nia.
Qed.

Lemma of_int_not_nan_shape prec emax z :
  of_int prec emax z = match z with
    | Z0 => S754_zero false
    | Z.pos p => binary_round prec emax false p 0
    | Z.neg p => binary_round prec emax true p 0 end.
Proof. by destruct z. Qed.
(** ** Rounding facts *)

Lemma digits2_pos_bound p : 2 ^ (Z.pos (digits2_pos p) - 1) <= Z.pos p < 2 ^ Z.pos (digits2_pos p).
Proof.
  induction p as [p IH|p IH|]; cbn [digits2_pos]; [| |cbn; lia];
    rewrite Pos2Z.inj_succ; unfold Z.succ; rewrite Z.add_simpl_r;
    (replace (Z.pos (digits2_pos p)) with (Z.pos (digits2_pos p) - 1 + 1) at 1 by lia);
    rewrite !Z.pow_add_r by lia; cbn in *; lia.
Qed.

Lemma Zdigits2_bound m : 0 <= m -> 0 <= Zdigits2 m /\ m < 2 ^ Zdigits2 m /\ (0 < m -> 2 ^ (Zdigits2 m - 1) <= m).
Proof.
  destruct m as [|p|p]; [cbn; lia| |lia]. intros _. cbn [Zdigits2].
  pose proof (digits2_pos_bound p). lia.
Qed.

(** [m] has been shifted right by [k] bits: what is left, and whether a one was lost. *)
Definition shifted (exact : Prop) (m k : Z) (r : shr_record) : Prop :=
  0 <= shr_m r /\ exists rest, m = shr_m r * 2 ^ k + rest /\ 0 <= rest < 2 ^ k /\
  (exact -> shr_r r || shr_s r = true -> 0 < rest).

Lemma shifted_step exact m k r : 0 <= k -> shifted exact m k r -> shifted exact m (k + 1) (shr_1 r).
Proof.
  intros Hk (H0 & rest & Hm & Hr & Hi). pose proof (Z.pow_pos_nonneg 2 k ltac:(lia) Hk).
  unfold shifted. rewrite Z.pow_add_r, Z.pow_1_r by lia.
  destruct r as [[|[p|p|]|p] r s]; cbn in *; try lia; (split; [lia|]).
  - exists rest. split; [lia|]. split; [lia|]. exact Hi.
  - exists (2 ^ k + rest). split; [lia|]. split; [lia|]. lia.
  - exists rest. split; [lia|]. split; [lia|]. exact Hi.
  - exists (2 ^ k + rest). split; [lia|]. split; [lia|]. lia.
Qed.

Lemma shifted_iter exact m p : forall k r,
  0 <= k -> shifted exact m k r -> shifted exact m (k + Z.pos p) (SpecFloat.iter_pos shr_1 p r).
Proof.
  induction p as [p IH|p IH|]; intros k r Hk Hs; cbn [SpecFloat.iter_pos].
  - replace (k + Z.pos p~1) with (k + 1 + Z.pos p + Z.pos p) by lia.
    apply IH; [lia|]. apply IH; [lia|]. by apply shifted_step.
  - replace (k + Z.pos p~0) with (k + Z.pos p + Z.pos p) by lia.
    apply IH; [lia|]. by apply IH.
  - by apply shifted_step.
Qed.

Lemma shr_fexp_shifted prec emax m e l :
  0 <= m ->
  let n := Z.max 0 (fexp prec emax (Zdigits2 m + e) - e) in
  let '(r, e') := shr_fexp prec emax m e l in
  e' = e + n /\ 0 <= shr_m r /\ exists rest, m = shr_m r * 2 ^ n + rest /\ 0 <= rest < 2 ^ n /\
  (l = loc_Exact -> shr_r r || shr_s r = true -> 0 < rest).
Proof.
  intros Hm n. unfold shr_fexp, shr.
  assert (shr_m (shr_record_of_loc m l) = m) as Hl by by destruct l as [|[]].
  destruct (fexp prec emax (Zdigits2 m + e) - e) as [|p|p] eqn:E; subst n.
  - rewrite Z.max_l, Z.pow_0_r, Hl by lia. split; [lia|]. split; [lia|]. exists 0.
    split; [lia|]. split; [lia|]. by intros ->.
  - replace (Z.max 0 (Z.pos p)) with (Z.pos p) by lia. split; [lia|].
    destruct (shifted_iter (l = loc_Exact) m p 0 (shr_record_of_loc m l)) as (H0 & rest & H1 & H2 & H3).
    { lia. } { split; [lia|]. exists 0. rewrite Hl. split; [lia|]. split; [lia|]. by intros ->. }
    split; [done|]. exists rest. rewrite Z.add_0_l in *. auto.
  - rewrite Z.max_l, Z.pow_0_r, Hl by lia. split; [lia|]. split; [lia|]. exists 0.
    split; [lia|]. split; [lia|]. by intros ->.
Qed.

(** A rounded result fits the precision. *)
Lemma round_aux_prec prec emax s m e l :
  0 <= m -> 0 < prec ->
  match binary_round_aux prec emax s m e l with
  | S754_finite _ m' _ => Z.pos m' < 2 ^ prec
  | _ => True
  end.
Proof.
  intros Hm Hp. unfold binary_round_aux.
  pose proof (shr_fexp_shifted prec emax m e l Hm) as H1.
  destruct (shr_fexp prec emax m e l) as [r1 e1]. destruct H1 as (_ & Hr1 & _).
  set (m2 := round_nearest_even _ _).
  assert (0 <= m2) as Hm2 by (unfold m2, round_nearest_even; repeat case_match; lia).
  pose proof (shr_fexp_shifted prec emax m2 e1 loc_Exact Hm2) as H2.
  destruct (shr_fexp prec emax m2 e1 loc_Exact) as [r2 e2].
  destruct H2 as (_ & Hr2 & rest & Hrest & Hb & _).
  destruct (shr_m r2) as [|m3|m3] eqn:E3; try done. destruct (_ <=? _); [|done].
  destruct (Zdigits2_bound m2 Hm2) as (Hd & Hlt & _).
  set (n := Z.max 0 _) in *. assert (Zdigits2 m2 <= prec + n) as Hn.
  { unfold n, fexp. lia. }
  assert (m2 < 2 ^ (prec + n)) as Hlt'.
  { eapply Z.lt_le_trans; [exact Hlt|]. apply Z.pow_le_mono_r; lia. }
  rewrite Z.pow_add_r in Hlt' by lia. assert (0 < 2 ^ n) by (apply Z.pow_pos_nonneg; lia). nia.
Qed.

(** Rounding does not pass an integer that the value does not pass, in the range where
    every integer is representable. *)
Lemma round_aux_bound prec emax s m e bound :
  0 < m -> e <= 0 -> fexp prec emax (Zdigits2 m + e) <= 0 -> 0 <= bound ->
  m <= bound * 2 ^ (- e) ->
  match binary_round_aux prec emax s m e loc_Exact with
  | S754_finite _ m' e' => round_magnitude (Z.pos m') e' <= bound
  | _ => True
  end.
Proof.
  intros Hm He Hf Hb Hv. unfold binary_round_aux.
  pose proof (shr_fexp_shifted prec emax m e loc_Exact ltac:(lia)) as H1.
  destruct (shr_fexp prec emax m e loc_Exact) as [r1 e1].
  destruct H1 as (He1 & Hr1 & rest1 & Hm1 & Hb1 & Hi1). specialize (Hi1 eq_refl).
  set (n1 := Z.max 0 _) in *. assert (e1 <= 0 /\ 0 <= n1) as [Hle Hn1] by (unfold n1 in *; lia).
  clearbody n1.
  assert (0 < 2 ^ n1) as Hpn by (apply Z.pow_pos_nonneg; lia).
  assert (bound * 2 ^ (- e) = bound * 2 ^ (- e1) * 2 ^ n1) as Hbe.
  { rewrite <- Z.mul_assoc, <- Z.pow_add_r by lia. do 2 f_equal. lia. }
  rewrite Hbe in Hv. set (m2 := round_nearest_even _ _).
  assert (0 <= m2 <= bound * 2 ^ (- e1)) as Hm2.
  { assert (shr_m r1 <= bound * 2 ^ (- e1)) by nia.
    assert (shr_r r1 || shr_s r1 = true -> shr_m r1 < bound * 2 ^ (- e1)) as Hi
      by (intros Hx; specialize (Hi1 Hx); nia).
    unfold m2. destruct r1 as [M [] []]; cbn in *; try specialize (Hi eq_refl); repeat case_match; lia. }
  pose proof (shr_fexp_shifted prec emax m2 e1 loc_Exact ltac:(lia)) as H2.
  destruct (shr_fexp prec emax m2 e1 loc_Exact) as [r2 e2].
  destruct H2 as (He2 & Hr2 & rest & Hrest & Hrb & _). set (n2 := Z.max 0 _) in *. assert (0 <= n2) as Hn2 by (unfold n2; lia).
  clearbody n2 m2. destruct (shr_m r2) as [|m3|m3] eqn:E3; try done. destruct (_ <=? _); [|done].
  unfold round_magnitude. assert (0 < 2 ^ n2) by (apply Z.pow_pos_nonneg; lia).
  assert (Z.pos m3 * 2 ^ n2 <= bound * 2 ^ (- e1)) as Hfin by nia.
  destruct (Z.leb_spec 0 e2).
  - replace (2 ^ n2) with (2 ^ e2 * 2 ^ (- e1)) in Hfin
      by (rewrite <- Z.pow_add_r by lia; f_equal; lia).
    assert (0 < 2 ^ (- e1)) by (apply Z.pow_pos_nonneg; lia). nia.
  - replace (2 ^ (- e1)) with (2 ^ n2 * 2 ^ (- e2)) in Hfin
      by (rewrite <- Z.pow_add_r by lia; f_equal; lia).
    assert (0 < 2 ^ (- e2 - 1)) by (apply Z.pow_pos_nonneg; lia).
    assert (2 ^ (- e2) = 2 * 2 ^ (- e2 - 1)) as Hp
      by (rewrite <- Z.pow_succ_r by lia; f_equal; lia).
    assert (Z.pos m3 <= bound * 2 ^ (- e2)) by nia.
    apply Z.lt_succ_r, Z.div_lt_upper_bound; [lia|]. lia.
Qed.

Lemma round_aux_sign prec emax s m e l :
  match binary_round_aux prec emax s m e l with S754_finite s' _ _ => s' = s | _ => True end.
Proof.
  unfold binary_round_aux. destruct (shr_fexp _ _ _ _ _) as [r1 e1].
  destruct (shr_fexp _ _ _ _ _) as [r2 e2]. destruct (shr_m r2); try done. by destruct (_ <=? _).
Qed.

Definition fone : float := S754_finite false 8388608 (-23).

(** The mantissa of a binary32 value. *)
Definition fits_binary32 (x : float) : Prop :=
  match x with S754_finite _ m _ => Z.pos m < 2 ^ 24 | _ => True end.

Lemma fdiv_fits x y : fits_binary32 (fdiv x y).
Proof.
  destruct x as [| | |sx mx ex], y as [| | |sy my ey]; try done. unfold SFdiv.
  destruct (SFdiv_core_binary 24 128 (Z.pos mx) ex (Z.pos my) ey) as [[q e] l] eqn:Eq.
  apply (round_aux_prec 24 128 (xorb sx sy) q e l); [|lia].
  unfold SFdiv_core_binary in Eq.
  match type of Eq with context [Z.div_eucl ?a ?b] =>
    pose proof (Z.div_eucl_eq a b ltac:(lia)) as Hd; pose proof (Z_div_pos a b ltac:(lia)) as Hq;
    unfold Z.div in Hq; destruct (Z.div_eucl a b) as [q' r] end.
  injection Eq as <- _ _. apply Hq.
  destruct (_ - _ - _); [lia| |lia]. apply Z.shiftl_nonneg. lia.
Qed.

Lemma clamp_fits v lo hi :
  fits_binary32 v -> fits_binary32 lo -> fits_binary32 hi -> fits_binary32 (clamp v lo hi).
Proof. intros. by destruct (clamp_cases v lo hi) as [->|[->| ->]]. Qed.

(** Scaling a ratio in [0, 1] to a code: [lround(ratio * K)] is a code. *)
Lemma scaled_code_bound c K mk ek :
  fits_binary32 c -> (fzero <=? c)%fp = true -> (c <=? fone)%fp = true ->
  ek <= 0 -> Z.pos mk = K * 2 ^ (- ek) -> 0 < K < 2 ^ 24 ->
  0 <= round_int (fmul c (S754_finite false mk ek)) <= K.
Proof.
  intros Hf H0 H1 He Hk HK. apply SFleb_spec in H0 as (_ & Hn & H0). apply SFleb_spec in H1 as (_ & _ & H1).
  destruct c as [[]|[]| |[] m e]; cbn in H0, H1; try (cbn; lia).
  cbn in Hf. cbn [SFmul xorb].
  assert (e <= -23 /\ Z.pos m <= 2 ^ (- e)) as [Hem Hm].
  { destruct (Z.eq_dec e (-23)) as [->|Hne]; [cbn; lia|]. split; [lia|].
    assert (2 ^ 24 <= 2 ^ (- e)) by (apply Z.pow_le_mono_r; lia). lia. }
  assert (0 < 2 ^ (- e) /\ 0 < 2 ^ (- ek)) as [Hp1 Hp2] by (split; apply Z.pow_pos_nonneg; lia).
  assert (Z.pos (m * mk) <= K * 2 ^ (- (e + ek))) as Hv.
  { rewrite Pos2Z.inj_mul, Hk. replace (- (e + ek)) with (- e + - ek) by lia.
    rewrite Z.pow_add_r by lia. nia. }
  pose proof (round_aux_sign 24 128 false (Z.pos (m * mk)) (e + ek) loc_Exact) as Hs.
  pose proof (round_aux_bound 24 128 false (Z.pos (m * mk)) (e + ek) K ltac:(lia) ltac:(lia)) as Hb.
  destruct (binary_round_aux _ _ _ _ _ _) as [| | |s' m' e']; try (cbn; lia). subst s'.
  cbn [round_int cond_Zopp]. split; [|apply Hb; [|lia|exact Hv]].
  - unfold round_magnitude. destruct (Z.leb_spec 0 e'); [apply Z.mul_nonneg_nonneg; lia|].
    pose proof (Z.pow_nonneg 2 (- e' - 1) ltac:(lia)).
    apply Z.div_pos; [|apply Z.pow_pos_nonneg]; lia.
  - destruct (Zdigits2_bound (Z.pos (m * mk)) ltac:(lia)) as (Hd & _ & Hd').
    specialize (Hd' ltac:(lia)). set (d := Zdigits2 _) in *.
    assert (2 ^ (d - 1) < 2 ^ (24 + - (e + ek))) as Hlt.
    { rewrite (Z.pow_add_r 2 24) by lia. assert (0 < 2 ^ (- (e + ek))) by (apply Z.pow_pos_nonneg; lia). nia. }
    apply Z.pow_lt_mono_r_iff in Hlt; [|lia|lia]. unfold fexp, emin. lia.
Qed.
