(* ===== verification/LocalSnapshot.v ===== *)
(** * Lock-free publication

    [robot_io/daemon/local_snapshot.hpp]: a two-slot sequence lock.  Every access of
    the code is sequentially consistent, so an execution is an interleaving of the
    atomic accesses of the writer and of a reader; each step below is one access.
    Readers do not change the memory, so one reader stands for any number.  [T] is
    its [kWordCount] words, copied by [memcpy].

    [ls_epoch] and the guards are [std::uint64_t]: drawing an epoch wraps around.  The
    properties hold up to 2^63 - 1 publications.

    [ls_log] (the values in the order their epochs were drawn), [ls_completed] (how many
    publications have finished) and the [start] of a reader are ghost: no step reads
    them.  The module [Sequential] is what the rest of the program sees. *)
From S2P Require Export Prelude.

Module LocalSnapshot.

Record Slot := mkSlot { guard : Z; words : list Z }.

(** Where the writer is inside [publish]. *)
Inductive writer :=
  | w_idle
  | w_target (value : list Z) (target : bool)
  | w_epoch (value : list Z) (target : bool) (epoch : Z)
  | w_words (value : list Z) (target : bool) (epoch : Z) (word_index : nat)
  | w_guarded (target : bool).

(** Where the reader is inside [read], with its attempt count. *)
Inductive reader :=
  | r_idle
  | r_attempt (start attempt : nat)
  | r_active (start attempt : nat) (active : bool)
  | r_words (start attempt : nat) (active : bool) (before : Z) (bytes : list Z)
  | r_after (start attempt : nat) (active : bool) (before : Z) (bytes : list Z) (after : Z)
  | r_done (start : nat) (result : option (list Z)).

Record state := mkState {
  ls_slots : bool -> Slot;
  ls_active : option bool;
  ls_epoch : Z;
  ls_log : list (list Z);
  ls_completed : nat;
  ls_writer : writer;
  ls_reader : reader }.

Section Word_count.
Context (kWordCount : nat).

Definition initial : state :=
  mkState (fun _ => mkSlot 0 (replicate kWordCount 0)) None 0 [] 0 w_idle r_idle.

Definition set_slot (slots : bool -> Slot) (i : bool) (s : Slot) : bool -> Slot :=
  fun j => if Bool.eqb i j then s else slots j.

Definition with_writer (s : state) (w : writer) : state :=
  mkState (ls_slots s) (ls_active s) (ls_epoch s) (ls_log s) (ls_completed s) w (ls_reader s).

Definition with_reader (s : state) (r : reader) : state :=
  mkState (ls_slots s) (ls_active s) (ls_epoch s) (ls_log s) (ls_completed s) (ls_writer s) r.

(** One access of [publish]; an idle writer starts publishing [value]. *)
Definition writer_step (value : list Z) (s : state) : state :=
  match ls_writer s with
  | w_idle =>
      let target := match ls_active s with Some active => negb active | None => false end in
      with_writer s (w_target value target)
  | w_target v t =>
      let epoch := u64 (ls_epoch s + 2) in
      mkState (ls_slots s) (ls_active s) epoch (ls_log s ++ [v]) (ls_completed s)
        (w_epoch v t epoch) (ls_reader s)
  | w_epoch v t e =>
      mkState (set_slot (ls_slots s) t (mkSlot (Z.lor e 1) (words (ls_slots s t))))
        (ls_active s) (ls_epoch s) (ls_log s) (ls_completed s) (w_words v t e 0) (ls_reader s)
  | w_words v t e i =>
      match v !! i with
      | Some w =>
          mkState
            (set_slot (ls_slots s) t
               (mkSlot (guard (ls_slots s t)) (<[i := w]> (words (ls_slots s t)))))
            (ls_active s) (ls_epoch s) (ls_log s) (ls_completed s) (w_words v t e (S i))
            (ls_reader s)
      | None =>
          mkState (set_slot (ls_slots s) t (mkSlot e (words (ls_slots s t))))
            (ls_active s) (ls_epoch s) (ls_log s) (ls_completed s) (w_guarded t) (ls_reader s)
      end
  | w_guarded t =>
      mkState (ls_slots s) (Some t) (ls_epoch s) (ls_log s) (length (ls_log s)) w_idle
        (ls_reader s)
  end.

(** One access of [read]; a finished reader becomes idle. *)
Definition reader_step (s : state) : state :=
  with_reader s
    match ls_reader s with
    | r_idle => r_attempt (ls_completed s) 0
    | r_attempt start k =>
        if (k <? 16)%nat
        then
          match ls_active s with
          | None => r_done start None
          | Some active => r_active start k active
          end
        else r_done start None
    | r_active start k a =>
        let before := guard (ls_slots s a) in
        if Z.odd before then r_attempt start (S k) else r_words start k a before []
    | r_words start k a before bytes =>
        if (length bytes <? kWordCount)%nat
        then r_words start k a before
               (bytes ++ [default 0 (words (ls_slots s a) !! length bytes)])
        else r_after start k a before bytes (guard (ls_slots s a))
    | r_after start k a before bytes after =>
        if negb (before =? after) || Z.odd after ||
           negb (bool_decide (ls_active s = Some a))
        then r_attempt start (S k) else r_done start (Some bytes)
    | r_done _ _ => r_idle
    end.

Inductive step (s : state) : state -> Prop :=
  | step_writer value : length value = kWordCount -> step s (writer_step value s)
  | step_reader : step s (reader_step s).

(** ** The invariant *)

(** The publication with epoch [e]. *)
Definition published (s : state) (e : Z) : option (list Z) :=
  ls_log s !! Z.to_nat (e / 2 - 1).

Record slot_ok (s : state) (t : bool) : Prop := {
  so_range : 0 <= guard (ls_slots s t) <= ls_epoch s + 1;
  so_length : length (words (ls_slots s t)) = kWordCount;
  so_value : Z.even (guard (ls_slots s t)) = true -> guard (ls_slots s t) <> 0 ->
    published s (guard (ls_slots s t)) = Some (words (ls_slots s t)) }.

(** A slot nobody writes: an even guard older than [e]. *)
Definition quiet (s : state) (t : bool) (e : Z) : Prop :=
  Z.even (guard (ls_slots s t)) = true /\ guard (ls_slots s t) < e.

Definition writer_ok (s : state) : Prop :=
  match ls_writer s with
  | w_idle =>
      ls_completed s = length (ls_log s) /\ forall t, quiet s t (ls_epoch s + 1)
  | w_target v t =>
      length v = kWordCount /\ ls_active s <> Some t /\
      ls_completed s = length (ls_log s) /\ forall t, quiet s t (ls_epoch s + 1)
  | w_epoch v t e =>
      length v = kWordCount /\ ls_active s <> Some t /\ e = ls_epoch s /\
      published s e = Some v /\ 2 <= e /\ forall t, quiet s t e
  | w_words v t e i =>
      length v = kWordCount /\ ls_active s <> Some t /\ e = ls_epoch s /\
      published s e = Some v /\ 2 <= e /\ quiet s (negb t) e /\
      guard (ls_slots s t) = e + 1 /\ (i <= kWordCount)%nat /\
      take i (words (ls_slots s t)) = take i v
  | w_guarded t =>
      ls_active s <> Some t /\ guard (ls_slots s t) = ls_epoch s /\
      quiet s (negb t) (ls_epoch s) /\ 2 <= ls_epoch s
  end.

Definition in_progress_epoch (s : state) (a : bool) : option Z :=
  match ls_writer s with
  | w_words _ t e _ => if Bool.eqb t a then Some e else None
  | _ => None
  end.

Definition reader_ok (s : state) : Prop :=
  match ls_reader s with
  | r_idle => True
  | r_attempt start _ => (start <= ls_completed s)%nat
  | r_active start _ a =>
      (start <= ls_completed s)%nat /\
      2 * Z.of_nat start <= guard (ls_slots s a) /\ guard (ls_slots s a) <> 0
  | r_words start _ a b bytes =>
      (start <= ls_completed s)%nat /\ Z.even b = true /\ 2 <= b /\ 2 * Z.of_nat start <= b /\ b <= guard (ls_slots s a) /\
      (forall e, in_progress_epoch s a = Some e -> b < e) /\
      (length bytes <= kWordCount)%nat /\
      (guard (ls_slots s a) = b -> bytes = take (length bytes) (words (ls_slots s a)))
  | r_after start _ _ b bytes after =>
      (start <= ls_completed s)%nat /\ 2 <= b /\ 2 * Z.of_nat start <= b /\ (after = b -> published s b = Some bytes)
  | r_done start (Some bytes) =>
      exists j, ls_log s !! j = Some bytes /\ (start <= S j)%nat
  | r_done _ None => True
  end.

Record inv (s : state) : Prop := {
  inv_epoch : ls_epoch s = 2 * Z.of_nat (length (ls_log s));
  inv_slots : forall t, slot_ok s t;
  inv_completed : (ls_completed s <= length (ls_log s))%nat;
  inv_active :
    match ls_active s with
    | Some a => Z.even (guard (ls_slots s a)) = true /\
        guard (ls_slots s a) = 2 * Z.of_nat (ls_completed s) /\ (0 < ls_completed s)%nat
    | None => ls_completed s = O
    end;
  inv_writer : writer_ok s;
  inv_reader : reader_ok s }.

(** ** Preservation *)

Lemma published_mono s s' e v :
  published s e = Some v -> ls_log s `prefix_of` ls_log s' -> published s' e = Some v.
Proof. unfold published. intros H [k ->]. by apply lookup_app_l_Some. Qed.

Lemma set_slot_same slots i x : set_slot slots i x i = x.
Proof. unfold set_slot. by rewrite Bool.eqb_reflx. Qed.

Lemma set_slot_other slots i j x : i <> j -> set_slot slots i x j = slots j.
Proof. intros H. unfold set_slot. by rewrite (proj2 (Bool.eqb_false_iff i j) H). Qed.

Lemma lor_1_even e : Z.even e = true -> Z.lor e 1 = e + 1.
Proof.
  intros [m ->]%Z.even_spec. rewrite Z.lor_comm.
  replace (2 * m) with (Z.shiftl m 1) by (rewrite Z.shiftl_mul_pow2; lia).
  rewrite lor_shiftl_add by (try (split; cbn; lia); lia).
  rewrite Z.shiftl_mul_pow2 by lia. lia.
Qed.

Lemma even_succ_odd e : Z.even e = true -> Z.even (e + 1) = false.
Proof. intros H. by rewrite Z.add_1_r, Z.even_succ, <- Z.negb_even, H. Qed.

Lemma inv_epoch_even s : inv s -> Z.even (ls_epoch s) = true.
Proof. intros H. rewrite (inv_epoch s H), Z.even_mul. done. Qed.

Lemma quiet_negb s t e : (forall t, quiet s t e) -> quiet s (negb t) e.
Proof. auto. Qed.

(** The start of a publication. *)
Lemma step_idle s value :
  inv s -> ls_writer s = w_idle -> length value = kWordCount -> inv (writer_step value s).
Proof.
  intros [He Hs Hc Ha Hw Hr] E Hv. unfold writer_step. rewrite E.
  unfold writer_ok in Hw. rewrite E in Hw. destruct Hw as [Hcl Hq].
  split; [exact He|intros u; destruct (Hs u); by split|exact Hc|exact Ha|..].
  - unfold writer_ok. cbn. split_and!; try done. destruct (ls_active s) as [[]|]; cbn; congruence.
  - revert Hr. unfold reader_ok, in_progress_epoch. cbn. by rewrite E.
Qed.

(** The 64 bits of the epoch and of the guards hold the epoch of every publication so far. *)
Definition in_width (s : state) : Prop := Z.of_nat (length (ls_log s)) < 2 ^ 63.

(** Drawing an epoch, short of a wrap-around. *)
Lemma step_epoch s v t :
  inv s -> ls_writer s = w_target v t ->
  forall value, in_width (writer_step value s) -> inv (writer_step value s).
Proof.
  intros Hi E value. pose proof Hi as [He Hs Hc Ha Hw Hr]. unfold writer_step, in_width. rewrite E.
  cbn [ls_log]. rewrite length_app. cbn [length]. intros Hwidth.
  unfold writer_ok in Hw. rewrite E in Hw. destruct Hw as (Hv & Hat & Hcl & Hq).
  rewrite (wrap_small 64 (ls_epoch s + 2)) by (unfold is_word; lia). cbv zeta.
  set (s' := mkState _ _ _ _ _ _ _).
  assert (forall e w, published s e = Some w -> published s' e = Some w) as Hp
    by (intros e w H; eapply published_mono; [exact H|by exists [v]]).
  split.
  - cbn. rewrite length_app. cbn. lia.
  - intros u. destruct (Hs u) as [H1 H2 H3]. split; cbn; [lia|done|auto].
  - cbn. rewrite length_app. lia.
  - done.
  - unfold writer_ok. cbn. split_and!; try done; [|lia|].
    + unfold published. cbn. replace (Z.to_nat _) with (length (ls_log s)).
      { by rewrite lookup_app_r, Nat.sub_diag. }
      rewrite He. replace (2 * Z.of_nat (length (ls_log s)) + 2) with
        ((Z.of_nat (length (ls_log s)) + 1) * 2) by lia. rewrite Z.div_mul by lia. lia.
    + intros u. destruct (Hq u). unfold quiet in *. cbn. split; [done|lia].
  - revert Hr. unfold reader_ok, in_progress_epoch. rewrite E. cbn.
    destruct (ls_reader s) as [|k1 k2|k1 k2 a|k1 k2 a b bytes|k1 k2 a b bytes after|k1 [bytes|]];
      try done.
    + intros (? & ? & ? & Hx). split_and!; auto.
    + intros (j & Hj & Hk). exists j. split; [|done]. by apply lookup_app_l_Some.
Qed.

(** Making the guard odd. *)
Lemma step_odd s v t e :
  inv s -> ls_writer s = w_epoch v t e -> forall value, inv (writer_step value s).
Proof.
  intros Hi E value. pose proof Hi as [He Hs Hc Ha Hw Hr]. pose proof (inv_epoch_even s Hi) as Hev.
  unfold writer_step. rewrite E.
  unfold writer_ok in Hw. rewrite E in Hw. destruct Hw as (Hv & Hat & -> & Hp & H2 & Hq).
  rewrite lor_1_even by done. split.
  - done.
  - intros u. destruct (Hs u) as [H1 Hl H3]. destruct (decide (t = u)) as [->|Hne].
    + split; cbn; rewrite set_slot_same; cbn; [lia|done|].
      rewrite even_succ_odd by done. discriminate.
    + split; cbn; rewrite set_slot_other by done; [lia|done|]. exact H3.
  - done.
  - cbn. destruct (ls_active s) as [a|]; [|done]. rewrite set_slot_other; [done|congruence].
  - unfold writer_ok. cbn. rewrite set_slot_same. split_and!; try done; try lia.
    unfold quiet. cbn. rewrite set_slot_other by (by destruct t). apply Hq.
  - revert Hr. unfold reader_ok, in_progress_epoch. rewrite E. cbn.
    destruct (ls_reader s) as [|k1 k2|k1 k2 a|k1 k2 a b bytes|k1 k2 a b bytes after|k1 [bytes|]];
      try done.
    + intros (? & H3 & H4). destruct (decide (t = a)) as [->|Hne].
      * rewrite set_slot_same. cbn. destruct (Hq a). split_and!; lia.
      * by rewrite set_slot_other.
    + intros (Hst & Heb & Hb2 & Hb3 & Hb4 & _ & Hlen & Hb5).
      destruct (decide (t = a)) as [->|Hne].
      * rewrite set_slot_same, Bool.eqb_reflx. cbn. destruct (Hq a).
        split_and!; try done; try lia. intros e' [= <-]. lia.
      * rewrite set_slot_other, (proj2 (Bool.eqb_false_iff t a) Hne) by done.
        split_and!; done.
Qed.

(** Storing one word. *)
Lemma step_word s v t e i w :
  inv s -> ls_writer s = w_words v t e i -> v !! i = Some w ->
  forall value, inv (writer_step value s).
Proof.
  intros Hi E Hvi value. pose proof Hi as [He Hs Hc Ha Hw Hr].
  pose proof (inv_epoch_even s Hi) as Hev. unfold writer_step. rewrite E, Hvi.
  unfold writer_ok in Hw. rewrite E in Hw.
  destruct Hw as (Hv & Hat & -> & Hp & H2 & Hq & Hg & Hik & Htk).
  assert (i < kWordCount)%nat as Hi' by (rewrite <- Hv; by eapply lookup_lt_Some).
  split.
  - done.
  - intros u. destruct (Hs u) as [H1 Hl H3]. destruct (decide (t = u)) as [->|Hne].
    + split; cbn; rewrite set_slot_same; cbn; [lia|by rewrite length_insert|].
      rewrite Hg, even_succ_odd by done. discriminate.
    + split; cbn; rewrite set_slot_other by done; [lia|done|]. exact H3.
  - done.
  - cbn. destruct (ls_active s) as [a|]; [|done]. rewrite set_slot_other; [done|congruence].
  - unfold writer_ok. cbn. rewrite set_slot_same. cbn. split_and!; try done; try lia.
    + unfold quiet. cbn. rewrite set_slot_other by (by destruct t). apply Hq.
    + rewrite (take_S_r _ _ w), (take_S_r v _ w) by
        (try apply list_lookup_insert_eq; rewrite ?(so_length _ _ (Hs t)); done).
      by rewrite take_insert_ge, Htk by lia.
  - revert Hr. unfold reader_ok, in_progress_epoch. rewrite E. cbn.
    destruct (ls_reader s) as [|k1 k2|k1 k2 a|k1 k2 a b bytes|k1 k2 a b bytes after|k1 [bytes|]];
      try done.
    + intros (? & H3 & H4). destruct (decide (t = a)) as [->|Hne].
      * rewrite set_slot_same. cbn. auto.
      * by rewrite set_slot_other.
    + intros (Hst & Heb & Hb2 & Hb3 & Hb4 & Hip & Hlen & Hb5).
      destruct (decide (t = a)) as [->|Hne].
      * rewrite set_slot_same in *. cbn. rewrite Bool.eqb_reflx in *.
        specialize (Hip _ eq_refl). split_and!; try done; try lia. intros e' [= <-]. lia.
      * rewrite set_slot_other by done. by split_and!.
Qed.

(** Closing the slot. *)
Lemma step_even s v t e i :
  inv s -> ls_writer s = w_words v t e i -> v !! i = None ->
  forall value, inv (writer_step value s).
Proof.
  intros Hi E Hvi value. pose proof Hi as [He Hs Hc Ha Hw Hr].
  pose proof (inv_epoch_even s Hi) as Hev. unfold writer_step. rewrite E, Hvi.
  unfold writer_ok in Hw. rewrite E in Hw.
  destruct Hw as (Hv & Hat & -> & Hp & H2 & Hq & Hg & Hik & Htk).
  assert (words (ls_slots s t) = v) as Hwv.
  { apply lookup_ge_None in Hvi. pose proof (so_length _ _ (Hs t)).
    rewrite !take_ge in Htk by lia. done. }
  split.
  - done.
  - intros u. destruct (Hs u) as [H1 Hl H3]. destruct (decide (t = u)) as [->|Hne].
    + split; cbn; rewrite set_slot_same; cbn; [lia|done|]. intros _ _. by rewrite Hwv.
    + split; cbn; rewrite set_slot_other by done; [lia|done|]. exact H3.
  - done.
  - cbn. destruct (ls_active s) as [a|]; [|done]. rewrite set_slot_other; [done|congruence].
  - unfold writer_ok. cbn. rewrite set_slot_same. cbn. split_and!; try done; try lia.
    unfold quiet. cbn. rewrite set_slot_other by (by destruct t). apply Hq.
  - revert Hr. unfold reader_ok, in_progress_epoch. rewrite E. cbn.
    destruct (ls_reader s) as [|k1 k2|k1 k2 a|k1 k2 a b bytes|k1 k2 a b bytes after|k1 [bytes|]];
      try done.
    + intros (? & H3 & H4). destruct (decide (t = a)) as [->|Hne].
      * rewrite set_slot_same. cbn. split_and!; lia.
      * by rewrite set_slot_other.
    + intros (Hst & Heb & Hb2 & Hb3 & Hb4 & Hip & Hlen & Hb5).
      destruct (decide (t = a)) as [->|Hne].
      * rewrite set_slot_same in *. cbn. rewrite Bool.eqb_reflx in Hip.
        specialize (Hip _ eq_refl). split_and!; try done; try lia.
      * rewrite set_slot_other by done. by split_and!.
Qed.

(** Activating the slot. *)
Lemma step_activate s t :
  inv s -> ls_writer s = w_guarded t -> forall value, inv (writer_step value s).
Proof.
  intros Hi E value. pose proof Hi as [He Hs Hc Ha Hw Hr].
  pose proof (inv_epoch_even s Hi) as Hev. unfold writer_step. rewrite E.
  unfold writer_ok in Hw. rewrite E in Hw. destruct Hw as (Hat & Hg & Hq & H2).
  split; [exact He|intros u; destruct (Hs u); by split|cbn; lia|..].
  - cbn. rewrite Hg. split_and!; [done|lia|lia].
  - unfold writer_ok. cbn. split; [done|]. intros u. unfold quiet in *. cbn.
    destruct (decide (u = t)) as [->|Hne]; [rewrite Hg; split; [done|lia]|].
    replace u with (negb t) by (by destruct u, t). destruct Hq. split; [done|lia].
  - revert Hr. unfold reader_ok, in_progress_epoch. rewrite E. cbn.
    destruct (ls_reader s) as [|k1 k2|k1 k2 a|k1 k2 a b bytes|k1 k2 a b bytes after|k1 [bytes|]];
      try done.
    + lia.
    + intros (? & ? & ?). split_and!; lia || done.
    + intros (? & ? & ? & ? & ? & ? & ? & ?). split_and!; lia || done.
    + intros (? & ? & ? & ?). split_and!; lia || done.
Qed.

Lemma writer_preserves s value :
  inv s -> length value = kWordCount -> in_width (writer_step value s) ->
  inv (writer_step value s).
Proof.
  intros Hi Hv Hwidth. destruct (ls_writer s) as [|v t|v t e|v t e i|t] eqn:E.
  - by apply step_idle.
  - by eapply step_epoch.
  - by eapply step_odd.
  - destruct (v !! i) as [w|] eqn:Ew; [by eapply step_word|by eapply step_even].
  - by eapply step_activate.
Qed.
(** A reader step only changes the reader. *)
Lemma with_reader_inv s r :
  inv s -> reader_ok (with_reader s r) -> inv (with_reader s r).
Proof.
  intros [He Hs Hc Ha Hw _] Hr.
  split; [exact He|intros u; destruct (Hs u); by split|exact Hc|exact Ha|exact Hw|exact Hr].
Qed.

(** While a slot is being written its guard is odd. *)
Lemma in_progress_odd s a e :
  inv s -> in_progress_epoch s a = Some e -> Z.even (guard (ls_slots s a)) = false.
Proof.
  intros Hi. pose proof (inv_writer s Hi) as Hw. unfold in_progress_epoch, writer_ok in *.
  destruct (ls_writer s) as [|v t|v t e'|v t e' i|t]; try done.
  destruct (Bool.eqb t a) eqn:E; [|done]. apply Bool.eqb_prop in E as ->.
  intros [= ->]. destruct Hw as (_ & _ & -> & _ & _ & _ & -> & _).
  apply even_succ_odd. by apply inv_epoch_even.
Qed.

Lemma reader_preserves s : inv s -> inv (reader_step s).
Proof.
  intros Hi. unfold reader_step. apply with_reader_inv; [exact Hi|].
  pose proof Hi as [He Hs Hc Ha Hw Hr]. unfold reader_ok in *.
  destruct (ls_reader s) as [|st k|st k a|st k a b bytes|st k a b bytes after|st r];
    cbn -[Nat.ltb] in *.
  - done.
  - destruct (k <? 16)%nat; cbn; [|done]. destruct (ls_active s) as [a|]; cbn; [|done].
    destruct Ha as (? & -> & ?). lia.
  - destruct Hr as (Hst & H1 & H2). destruct (Z.odd (guard (ls_slots s a))) eqn:Eo; cbn; [done|].
    assert (Z.even (guard (ls_slots s a)) = true) as Hev by (by rewrite <- Z.negb_odd, Eo).
    pose proof (so_range _ _ (Hs a)). split_and!; try done; try lia.
    + apply Z.even_spec in Hev as [m Hm]. lia.
    + intros e Hip. apply (in_progress_odd s a e Hi) in Hip. congruence.
  - destruct Hr as (Hst & Heb & Hb2 & Hb3 & Hb4 & Hip & Hlen & Hb5).
    destruct (length bytes <? kWordCount)%nat eqn:El.
    + apply Nat.ltb_lt in El. cbn. split_and!; try done.
      * rewrite length_app. cbn. lia.
      * intros Hg. rewrite length_app. cbn. rewrite Nat.add_1_r.
        destruct (lookup_lt_is_Some_2 (words (ls_slots s a)) (length bytes)) as [w Hw'];
          [by rewrite (so_length _ _ (Hs a))|].
        rewrite (take_S_r _ _ w) by done. rewrite Hw'. cbn. f_equal. auto.
    + apply Nat.ltb_ge in El. cbn. split_and!; try done. intros Hg.
      unfold published. cbn. fold (published s b).
      rewrite <- Hg, (so_value _ _ (Hs a)); [|congruence|lia].
      rewrite (Hb5 Hg), take_ge; [done|]. rewrite (so_length _ _ (Hs a)). lia.
  - destruct Hr as (Hst & Hb2 & Hb3 & Hp). destruct (_ || _) eqn:E; cbn; [done|].
    b2p. exists (Z.to_nat (b / 2 - 1)). split; [by apply Hp|].
    assert (Z.of_nat st <= b / 2) by (apply Z.div_le_lower_bound; lia). lia.
  - done.
Qed.

Lemma inv_initial : inv initial.
Proof.
  split; try done.
  - intros t. split; cbn; [lia|apply length_replicate|]. intros _ []. done.
Qed.

(** The log only grows. *)
Lemma in_width_step s s' : step s s' -> in_width s' -> in_width s.
Proof.
  unfold in_width. intros [v Hv|]; [|done]. unfold writer_step.
  destruct (ls_writer s) as [|? ?|? ? ?|v' ? ? i|?]; cbn; try done.
  - rewrite length_app. cbn. lia.
  - by destruct (v' !! i).
Qed.

Lemma step_preserves s s' : inv s -> step s s' -> in_width s' -> inv s'.
Proof. intros Hi [v Hv|] Hw; [by apply writer_preserves|by apply reader_preserves]. Qed.

Lemma reachable_inv s : star step initial s -> in_width s -> inv s.
Proof.
  apply (star_invariant _ (fun s => in_width s -> inv s)); [intros _; exact inv_initial|].
  intros b c Hb Hs Hc. apply (step_preserves b); [|exact Hs|exact Hc].
  apply Hb. by apply (in_width_step b c).
Qed.

(** ** Running one side alone *)

(** The reader copies the remaining words and confirms. *)
Lemma read_words_alone n s start k a b bytes :
  inv s -> ls_reader s = r_words start k a b bytes ->
  guard (ls_slots s a) = b -> ls_active s = Some a -> (length bytes + n = kWordCount)%nat ->
  ls_reader (Nat.iter (n + 2) reader_step s) = r_done start (Some (words (ls_slots s a))).
Proof.
  revert s bytes. induction n as [|n IH]; intros s bytes Hi E Hg Ha Hl;
    (rewrite Nat.add_succ_l, Nat.iter_succ_r || idtac);
    pose proof (inv_reader s Hi) as Hr; unfold reader_ok in Hr; rewrite E in Hr;
    destruct Hr as (Hst & Heb & Hb2 & Hb3 & Hb4 & Hip & Hlen & Hb5).
  - change (Nat.iter (0 + 2) reader_step s) with (reader_step (reader_step s)).
    assert (reader_step s = with_reader s (r_after start k a b bytes (guard (ls_slots s a)))) as ->
      by (unfold reader_step; by rewrite E, (proj2 (Nat.ltb_ge _ _)) by lia).
    unfold reader_step. cbn. rewrite Hg, Z.eqb_refl, Ha, bool_decide_true by done.
    rewrite <- Z.negb_even, Heb. cbn.
    by rewrite (Hb5 Hg), take_ge by (rewrite (so_length _ _ (inv_slots s Hi a)); lia).
  - assert (reader_step s = with_reader s (r_words start k a b
      (bytes ++ [default 0 (words (ls_slots s a) !! length bytes)]))) as Es.
    { unfold reader_step. rewrite E, (proj2 (Nat.ltb_lt _ _)) by lia. done. }
    pose proof (reader_preserves s Hi) as Hi'. rewrite Es in *.
    eapply (IH _ _ Hi'); try done. rewrite length_app. cbn. lia.
Qed.

Definition read_steps : nat := kWordCount + 5.

(** The last value published, when no publication is in progress. *)
Definition current (s : state) : option (list Z) := last (ls_log s).

End Word_count.

(** ** Properties *)

(** C27. No torn and no stale reads: in every interleaving of publications with a
    read, a value the read returns is, word for word, a value that was published, and
    not one older than the last publication that had finished when the read began.
    The epoch and the guards are the 64-bit unsigned words of the code, which wrap
    around; the theorem holds as long as fewer than 2^63 values have been published
    in the life of the snapshot, so that no epoch was drawn twice. *)
Theorem read_linearizable (kWordCount : nat) s start value :
  star (step kWordCount) (initial kWordCount) s -> Z.of_nat (length (ls_log s)) < 2 ^ 63 ->
  ls_reader s = r_done start (Some value) ->
  exists j, ls_log s !! j = Some value /\ (start <= S j)%nat.
Proof.
  intros H Hw E. apply reachable_inv in H; [|exact Hw]. pose proof (inv_reader _ s H) as Hr.
  unfold reader_ok in Hr. by rewrite E in Hr.
Qed.

(** A read that runs alone succeeds at its first attempt, in a number of accesses
    fixed by the payload size, with the current value; before the first publication
    it returns nothing.  So between interferences the snapshot is an optional cell. *)
Theorem read_alone (kWordCount : nat) s :
  star (step kWordCount) (initial kWordCount) s -> Z.of_nat (length (ls_log s)) < 2 ^ 63 ->
  ls_writer s = w_idle -> ls_reader s = r_idle ->
  match current s with
  | Some value =>
      ls_reader (Nat.iter (read_steps kWordCount) (reader_step kWordCount) s) =
        r_done (ls_completed s) (Some value)
  | None =>
      ls_reader (Nat.iter 2 (reader_step kWordCount) s) = r_done (ls_completed s) None
  end.
Proof.
  intros Hreach Hwidth Ew Er. pose proof (reachable_inv _ _ Hreach Hwidth) as H. unfold current, read_steps.
  pose proof (inv_writer _ s H) as Hw. unfold writer_ok in Hw. rewrite Ew in Hw.
  destruct Hw as [Hc _]. pose proof (inv_active _ s H) as Ha.
  assert (reader_step kWordCount s = with_reader s (r_attempt (ls_completed s) 0)) as E1
    by (unfold reader_step; by rewrite Er).
  rewrite last_lookup. destruct (ls_active s) as [a|] eqn:Ea.
  - destruct Ha as (Hev & Hg & Hpos).
    assert (ls_log s !! pred (length (ls_log s)) = Some (words (ls_slots s a))) as Hl.
    { rewrite <- (so_value _ _ _ (inv_slots _ s H a) Hev) by lia. unfold published. f_equal.
      rewrite Hg, Hc, Z.mul_comm, Z.div_mul by lia. lia. }
    rewrite Hl. replace (kWordCount + 5)%nat with (S (S (S (kWordCount + 2)))) by lia.
    rewrite !Nat.iter_succ_r, E1.
    set (s1 := with_reader s (r_attempt (ls_completed s) 0)).
    assert (inv kWordCount s1) as H1
      by (unfold s1; rewrite <- E1; by apply reader_preserves).
    assert (reader_step kWordCount s1 = with_reader s (r_active (ls_completed s) 0 a)) as E2
      by (unfold reader_step, s1; cbn; by rewrite Ea).
    pose proof (reader_preserves _ _ H1) as H2. rewrite E2 in H2 |- *.
    set (s2 := with_reader s (r_active (ls_completed s) 0 a)) in *.
    assert (reader_step kWordCount s2 =
      with_reader s (r_words (ls_completed s) 0 a (guard (ls_slots s a)) [])) as E3
      by (unfold reader_step, s2; cbn; by rewrite <- Z.negb_even, Hev).
    pose proof (reader_preserves _ _ H2) as H3. rewrite E3 in H3 |- *.
    exact (read_words_alone _ kWordCount _ _ _ _ _ _ H3 eq_refl eq_refl Ea ltac:(done)).
  - rewrite Hc in Ha. rewrite (nil_length_inv _ Ha). cbn [lookup list_lookup length pred].
    change (Nat.iter 2 (reader_step kWordCount) s) with
      (reader_step kWordCount (reader_step kWordCount s)). rewrite E1.
    unfold reader_step. cbn. by rewrite Ea.
Qed.

(** ** Sequential use *)

(** What an owner that does not race sees: the last value published, if any. *)
Definition cell (T : Type) : Type := option T.
Definition publish {T} (value : T) (c : cell T) : cell T := Some value.
Definition read {T} (c : cell T) : option T := c.

(** ** Witnesses *)

(** Two words; the second publication overtakes a reader that has copied one word of
    the first, which retries and returns the second. *)
Definition race : state :=
  let w v n s := Nat.iter n (writer_step v) s in
  let r n s := Nat.iter n (reader_step 2) s in
  r 9%nat (w [3; 4] 7%nat (r 4%nat (w [1; 2] 7%nat (initial 2)))).

Lemma writers_reach v n s :
  length v = 2%nat -> star (step 2) (initial 2) s ->
  star (step 2) (initial 2) (Nat.iter n (writer_step v) s).
Proof. intros Hv Hs. induction n; cbn; [done|]. eapply star_step; [eassumption|by constructor]. Qed.

Lemma readers_reach n s :
  star (step 2) (initial 2) s -> star (step 2) (initial 2) (Nat.iter n (reader_step 2) s).
Proof. intros Hs. induction n; cbn; [done|]. eapply star_step; [eassumption|by constructor]. Qed.

Lemma race_reached : star (step 2) (initial 2) race.
Proof.
  unfold race.
  repeat first [apply readers_reach | apply writers_reach; [reflexivity|] | constructor].
Qed.

Lemma read_linearizable_witness : exists j, ls_log race !! j = Some [3; 4] /\ (1 <= S j)%nat.
Proof. apply (read_linearizable 2 race 1 [3; 4] race_reached); vm_compute; reflexivity. Defined.

Lemma read_alone_witness :
  ls_reader (Nat.iter (read_steps 2) (reader_step 2) (reader_step 2 race)) = r_done 2 (Some [3; 4]).
Proof.
  exact (read_alone 2 (reader_step 2 race) (readers_reach 1 race race_reached) eq_refl eq_refl eq_refl).
Defined.

End LocalSnapshot.
