(* ===== verification/Mailbox.v ===== *)
(** * Real-time mailboxes

    [robot_io/dds/realtime_mailbox.hpp]: the single-slot sequence lock
    [AtomicValue], the overwriting [SensorEventQueue], [CommandMailbox] and
    [EthercatEpochMailbox].

    [AtomicValue] uses relaxed byte accesses between release and acquire accesses of
    the version.  The model interleaves the accesses in program order, the moment of
    a store being the one at which it reaches memory: that is what x86-64, the only
    target of the repository, does, because it reorders neither two loads nor two
    stores.  (On a weaker machine the code would also need fences.) *)
From S2P Require Export Prelude.

(** ** [detail::AtomicValue] *)

Module AtomicValue.

(** Where the writer is inside [store], and the reader inside [load]. *)
Inductive writer :=
  | w_idle
  | w_bytes (value : list Z) (next : Z) (index : nat).

Inductive reader :=
  | r_idle
  | r_attempt (start attempt : nat)
  | r_bytes (start attempt : nat) (before : Z) (bytes : list Z)
  | r_after (start attempt : nat) (before : Z) (bytes : list Z) (after : Z)
  | r_done (start : nat) (result : option (list Z)).

(** [av_log] (the values stored, oldest first) and the [start] of a reader (how many
    stores had finished when it began) are ghost. *)
Record state := mkState {
  av_version : Z;
  av_bytes : list Z;
  av_log : list (list Z);
  av_writer : writer;
  av_reader : reader }.

Section Size.
Context (size : nat).

Definition initial : state := mkState 0 (replicate size 0) [] w_idle r_idle.

(** One access of [store]; an idle writer starts storing [value]. *)
Definition writer_step (value : list Z) (s : state) : state :=
  match av_writer s with
  | w_idle =>
      let next := av_version s + 1 in
      mkState next (av_bytes s) (av_log s ++ [value]) (w_bytes value next 0) (av_reader s)
  | w_bytes v next i =>
      match v !! i with
      | Some b =>
          mkState (av_version s) (<[i := b]> (av_bytes s)) (av_log s) (w_bytes v next (S i))
            (av_reader s)
      | None => mkState (next + 1) (av_bytes s) (av_log s) w_idle (av_reader s)
      end
  end.

Definition with_reader (s : state) (r : reader) : state :=
  mkState (av_version s) (av_bytes s) (av_log s) (av_writer s) r.

(** How many stores have finished. *)
Definition finished (s : state) : nat := Z.to_nat (av_version s / 2).

(** One access of [load]. *)
Definition reader_step (s : state) : state :=
  with_reader s
    match av_reader s with
    | r_idle => r_attempt (finished s) 0
    | r_attempt start k =>
        if (k <? 16)%nat
        then
          if Z.odd (av_version s) || (av_version s =? 0) then r_attempt start (S k)
          else r_bytes start k (av_version s) []
        else r_done start None
    | r_bytes start k before bytes =>
        if (length bytes <? size)%nat
        then r_bytes start k before (bytes ++ [default 0 (av_bytes s !! length bytes)])
        else r_after start k before bytes (av_version s)
    | r_after start k before bytes after =>
        if negb (before =? after) || Z.odd after then r_attempt start (S k)
        else r_done start (Some bytes)
    | r_done _ _ => r_idle
    end.

Inductive step (s : state) : state -> Prop :=
  | step_writer value : length value = size -> step s (writer_step value s)
  | step_reader : step s (reader_step s).

(** The value whose version is [v]. *)
Definition stored (s : state) (v : Z) : option (list Z) := av_log s !! Z.to_nat (v / 2 - 1).

Definition writer_ok (s : state) : Prop :=
  match av_writer s with
  | w_idle =>
      av_version s = 2 * Z.of_nat (length (av_log s)) /\
      (av_log s <> [] -> last (av_log s) = Some (av_bytes s))
  | w_bytes v next i =>
      length v = size /\ av_version s = next /\
      next + 1 = 2 * Z.of_nat (length (av_log s)) /\ last (av_log s) = Some v /\
      (i <= size)%nat /\ take i (av_bytes s) = take i v
  end.

Definition reader_ok (s : state) : Prop :=
  match av_reader s with
  | r_idle => True
  | r_attempt start _ => 2 * Z.of_nat start <= av_version s
  | r_bytes start _ b bytes =>
      Z.even b = true /\ 2 <= b /\ 2 * Z.of_nat start <= b /\ b <= av_version s /\
      (length bytes <= size)%nat /\
      (av_version s = b -> bytes = take (length bytes) (av_bytes s))
  | r_after start _ b bytes after =>
      2 <= b /\ 2 * Z.of_nat start <= b /\ b <= av_version s /\
      (after = b -> stored s b = Some bytes)
  | r_done start (Some bytes) => exists j, av_log s !! j = Some bytes /\ (start <= S j)%nat
  | r_done _ None => True
  end.

Record inv (s : state) : Prop := {
  inv_length : length (av_bytes s) = size;
  inv_writer : writer_ok s;
  inv_reader : reader_ok s }.

(** *** Preservation *)

Lemma even_double n : Z.even (2 * n) = true.
Proof. by rewrite Z.even_mul. Qed.

(** An even non-zero version names the bytes in memory. *)
Lemma even_version s :
  inv s -> Z.even (av_version s) = true -> 2 <= av_version s ->
  stored s (av_version s) = Some (av_bytes s).
Proof.
  intros [Hl Hw _] He H2. unfold writer_ok in Hw.
  destruct (av_writer s) as [|v next i].
  - destruct Hw as [Hv Hb]. unfold stored. rewrite Hv in *.
    rewrite Z.mul_comm, Z.div_mul by lia. rewrite <- Hb, last_lookup; [f_equal; lia|].
    intros E. rewrite E in H2. cbn in H2. lia.
  - exfalso. destruct Hw as (_ & Hv & Hn & _). apply Z.even_spec in He as [m Hm]. lia.
Qed.

Lemma stored_mono s s' v x :
  stored s v = Some x -> av_log s `prefix_of` av_log s' -> stored s' v = Some x.
Proof. unfold stored. intros H [k ->]. by apply lookup_app_l_Some. Qed.

Lemma av_writer_preserves s value : inv s -> length value = size -> inv (writer_step value s).
Proof.
  intros [Hl Hw Hr] Hv. unfold writer_step, writer_ok in *.
  destruct (av_writer s) as [|v next i] eqn:Ew.
  - destruct Hw as [Hver _]. split; [done|..].
    + unfold writer_ok. cbn. rewrite length_app. cbn. rewrite last_snoc.
      split_and!; done || lia.
    + unfold reader_ok in *. cbn. destruct (av_reader s) as [|st k|st k b bs|st k b bs af|st [bs|]].
      * done.
      * lia.
      * destruct Hr as (He & H2 & H3 & H4 & H5 & H6). split_and!; try done; lia.
      * destruct Hr as (H2 & H3 & H4 & H5). split_and!; try done; [lia|].
        intros ->. eapply stored_mono; [by apply H5|by exists [value]].
      * destruct Hr as (j & Hj & Hk). exists j. split; [by apply lookup_app_l_Some|done].
      * done.
  - destruct Hw as (Hlv & Hver & Hnext & Hlast & Hi & Ht). destruct (v !! i) as [b|] eqn:Eb.
    + assert (i < size)%nat by (rewrite <- Hlv; by eapply lookup_lt_Some).
      split; [by cbn; rewrite length_insert|..].
      * unfold writer_ok. cbn. split_and!; try done.
        rewrite (take_S_r _ _ b), (take_S_r v _ b) by
          (try apply list_lookup_insert_eq; rewrite ?Hl; done).
        by rewrite take_insert_ge, Ht by lia.
      * unfold reader_ok in *. cbn.
        destruct (av_reader s) as [|st k|st k b' bs|st k b' bs af|st [bs|]]; try done.
        destruct Hr as (He & H2 & H3 & H4 & H5 & H6). split_and!; try done.
        intros Hb. exfalso. apply Z.even_spec in He as [m Hm]. lia.
    + split; [done|..].
      * unfold writer_ok. cbn. split; [done|]. intros _. rewrite Hlast. f_equal.
        apply lookup_ge_None in Eb. rewrite !take_ge in Ht by lia. done.
      * unfold reader_ok in *. cbn.
        destruct (av_reader s) as [|st k|st k b' bs|st k b' bs af|st [bs|]]; try done.
        -- lia.
        -- destruct Hr as (He & H2 & H3 & H4 & H5 & H6). split_and!; try done; lia.
        -- destruct Hr as (H2 & H3 & H4 & H5). split_and!; try done; lia.
Qed.

Lemma av_reader_preserves s : inv s -> inv (reader_step s).
Proof.
  intros Hi. pose proof Hi as [Hl Hw Hr]. split; [done|exact Hw|].
  assert (0 <= av_version s) as Hpos.
  { unfold writer_ok in Hw. destruct (av_writer s); [lia|]. destruct Hw as (_ & ? & ? & E & _).
    destruct (av_log s); [done|]. cbn in *. lia. }
  unfold reader_ok, reader_step in *.
  destruct (av_reader s) as [|st k|st k b bs|st k b bs af|st r]; cbn -[Nat.ltb] in *.
  - unfold finished. rewrite Z2Nat.id by (apply Z.div_pos; lia).
    apply Z.mul_div_le. lia.
  - destruct (k <? 16)%nat; cbn; [|done].
    destruct (_ || _) eqn:E; cbn; [done|]. b2p.
    assert (Z.even (av_version s) = true) as He by (by rewrite <- Z.negb_odd, H).
    split_and!; try done; try lia. apply Z.even_spec in He as [m Hm]. lia.
  - destruct Hr as (He & H2 & H3 & H4 & H5 & H6).
    destruct (length bs <? size)%nat eqn:El; cbn.
    + apply Nat.ltb_lt in El. split_and!; try done.
      * rewrite length_app. cbn. lia.
      * intros Hg. rewrite length_app. cbn. rewrite Nat.add_1_r.
        destruct (lookup_lt_is_Some_2 (av_bytes s) (length bs)) as [w Hw']; [by rewrite Hl|].
        rewrite (take_S_r _ _ w) by done. rewrite Hw'. cbn. f_equal. auto.
    + apply Nat.ltb_ge in El. split_and!; try done. intros Hg.
      change (stored s b = Some bs). rewrite <- Hg.
      rewrite (even_version s Hi) by (congruence || lia).
      rewrite (H6 Hg), take_ge; [done|lia].
  - destruct Hr as (H2 & H3 & H4 & H5). destruct (_ || _) eqn:E; cbn; [lia|]. b2p.
    exists (Z.to_nat (b / 2 - 1)). split; [by apply H5|].
    assert (Z.of_nat st <= b / 2) by (apply Z.div_le_lower_bound; lia). lia.
  - done.
Qed.

Lemma av_inv_initial : inv initial.
Proof. split; [apply length_replicate| |done]. split; [done|]. by intros []. Qed.

Lemma av_reachable_inv s : star step initial s -> inv s.
Proof.
  apply star_invariant; [exact av_inv_initial|].
  intros b c Hb [v Hv|]; [by apply av_writer_preserves|by apply av_reader_preserves].
Qed.
End Size.

(** The mailbox value is never torn nor stale: whatever stores interleave with a
    load, a value it returns was stored, byte for byte, and not before the last
    store that had finished when the load began. *)
Theorem load_linearizable (size : nat) s start value :
  star (step size) (initial size) s -> av_reader s = r_done start (Some value) ->
  exists j, av_log s !! j = Some value /\ (start <= S j)%nat.
Proof.
  intros H E. apply av_reachable_inv in H. pose proof (inv_reader _ s H) as Hr.
  unfold reader_ok in Hr. by rewrite E in Hr.
Qed.

(** Two bytes; the store of the second value is half done when the load starts, so
    the first attempt sees an odd version. *)
Definition half_store : state :=
  let w v n s := Nat.iter n (writer_step v) s in
  let r n s := Nat.iter n (reader_step 2) s in
  r 5%nat (w [3; 4] 2%nat (r 2%nat (w [3; 4] 2%nat (w [1; 2] 4%nat (initial 2))))).

Lemma load_linearizable_witness : exists j, av_log half_store !! j = Some [3; 4] /\ (1 <= S j)%nat.
Proof.
  apply (load_linearizable 2 half_store 1 [3; 4]).
  - unfold half_store.
    cbn [Nat.iter]. repeat first
      [ apply star_refl
      | eapply star_step; [|apply step_reader]
      | eapply star_step; [|apply step_writer; reflexivity] ].
  - vm_compute. reflexivity.
Defined.

End AtomicValue.

(** ** [SensorEventQueue] *)

Module SensorEventQueue.
Section Queue.
Context {T : Type} (Capacity : nat) (Capacity_pos : (0 < Capacity)%nat).

(** Slots hold [StoredEvent]s: a ticket and a value.  The counters are [uint64] and
    never decrease; they are natural numbers here. *)
Record queue := mkQueue {
  q_slots : list (option (nat * T));
  q_published : nat;
  q_consumed : nat;
  q_dropped : nat }.

Definition create : queue := mkQueue (replicate Capacity None) 0 0 0.

(** The three visible effects of [push_realtime]. *)
Definition count_drop (q : queue) : queue :=
  mkQueue (q_slots q) (q_published q) (q_consumed q)
    (if (Capacity <=? q_published q - q_consumed q)%nat then S (q_dropped q) else q_dropped q).

Definition store_event (q : queue) (value : T) : queue :=
  mkQueue (<[(q_published q mod Capacity)%nat := Some (S (q_published q), value)]> (q_slots q))
    (q_published q) (q_consumed q) (q_dropped q).

Definition publish (q : queue) : queue :=
  mkQueue (q_slots q) (S (q_published q)) (q_consumed q) (q_dropped q).

Definition push_realtime (q : queue) (value : T) : queue * bool :=
  (publish (store_event (count_drop q) value), true).

(** The index [pop] goes for, if there is anything to read. *)
Definition pop_index (q : queue) : option nat :=
  if (q_published q <=? q_consumed q)%nat then None
  else
    let oldest :=
      if (Capacity <? q_published q)%nat then (q_published q - Capacity)%nat else O in
    Some (if (q_consumed q <? oldest)%nat then oldest else q_consumed q).

(** Reading the slot of index [c] and, when it still holds that event, consuming it. *)
Definition take_event (q : queue) (c : nat) : queue * option T :=
  match default None (q_slots q !! (c mod Capacity)%nat) with
  | Some (ticket, value) =>
      if Nat.eqb ticket (S c)
      then (mkQueue (q_slots q) (q_published q) (S c) (q_dropped q), Some value)
      else (q, None)
  | None => (q, None)
  end.

Definition pop (q : queue) : queue * option T :=
  match pop_index q with
  | None => (q, None)
  | Some c => take_event q c
  end.

(** *** Sequential behaviour *)

Inductive op := op_push (value : T) | op_pop.

(** Run a sequence, with the values pushed and the values popped. *)
Fixpoint run (q : queue) (ops : list op) : queue * list T * list T :=
  match ops with
  | [] => (q, [], [])
  | op_push v :: ops =>
      let '(q, pushed, popped) := run (push_realtime q v).1 ops in (q, v :: pushed, popped)
  | op_pop :: ops =>
      let '(q', r) := pop q in
      let '(q, pushed, popped) := run q' ops in
      (q, pushed, match r with Some v => v :: popped | None => popped end)
  end.

(** The slots hold the last [Capacity] pushed values. *)
Record seq_inv (q : queue) (log : list T) (delivered : nat) : Prop := {
  si_length : length (q_slots q) = Capacity;
  si_published : q_published q = length log;
  si_order : (q_consumed q <= q_published q)%nat;
  si_slots : forall i v, log !! i = Some v -> (length log - Capacity <= i)%nat ->
    q_slots q !! (i mod Capacity)%nat = Some (Some (S i, v));
  si_count : (delivered + q_dropped q + (q_published q - q_consumed q) `min` Capacity)%nat =
    q_published q }.

Lemma mod_distinct i j :
  (i < j)%nat -> (j < i + Capacity)%nat -> (i mod Capacity)%nat <> (j mod Capacity)%nat.
Proof.
  intros Hij Hj E.
  assert (exists k, j = i + k * Capacity)%nat as [k Hk].
  { exists (j / Capacity - i / Capacity)%nat.
    pose proof (Nat.div_mod_eq i Capacity). pose proof (Nat.div_mod_eq j Capacity).
    assert (i / Capacity <= j / Capacity)%nat by (apply Nat.Div0.div_le_mono; lia). nia. }
  destruct k as [|k]; cbn in Hk; [lia|].
  assert (0 <= k * Capacity)%nat by apply Nat.le_0_l. lia.
Qed.

Lemma push_inv q log d v :
  seq_inv q log d -> seq_inv (push_realtime q v).1 (log ++ [v]) d.
Proof.
  intros [Hl Hp Ho Hs Hc]. split; cbn -[Nat.modulo Nat.leb].
  - by rewrite length_insert.
  - rewrite length_app. cbn. lia.
  - lia.
  - intros i w Hi Hr. rewrite length_app in Hr. cbn in Hr.
    apply lookup_snoc_Some in Hi as [[Hlt Hi]|[-> ->]].
    + rewrite list_lookup_insert_ne; [apply Hs; [done|lia]|].
      rewrite Hp. apply not_eq_sym, mod_distinct; lia.
    + rewrite Hp. apply list_lookup_insert_eq. rewrite Hl. apply Nat.mod_upper_bound. lia.
  - destruct (Capacity <=? q_published q - q_consumed q)%nat eqn:E;
      [apply Nat.leb_le in E|apply Nat.leb_gt in E]; lia.
Qed.

Lemma pop_inv q log d :
  seq_inv q log d ->
  match log !! ((q_consumed q) `max` (length log - Capacity))%nat with
  | Some v => exists q', pop q = (q', Some v) /\ seq_inv q' log (S d) /\
      q_consumed q' = S ((q_consumed q) `max` (length log - Capacity))%nat
  | None => pop q = (q, None) /\ q_consumed q = length log
  end.
Proof.
  intros [Hl Hp Ho Hs Hc]. set (c := ((q_consumed q) `max` (length log - Capacity))%nat).
  assert (pop_index q = if (q_published q <=? q_consumed q)%nat then None else Some c) as Hx.
  { unfold pop_index. destruct (q_published q <=? q_consumed q)%nat eqn:E; [done|]. f_equal.
    destruct (Capacity <? q_published q)%nat eqn:E1;
      [apply Nat.ltb_lt in E1|apply Nat.ltb_ge in E1];
      destruct (q_consumed q <? _)%nat eqn:E2;
      (apply Nat.ltb_lt in E2 || apply Nat.ltb_ge in E2); unfold c; lia. }
  unfold pop. rewrite Hx. destruct (log !! c) as [v|] eqn:Ev.
  - pose proof (lookup_lt_Some _ _ _ Ev). rewrite (proj2 (Nat.leb_gt _ _)) by (unfold c in *; lia).
    unfold take_event. rewrite (Hs c v Ev) by (unfold c; lia). cbn -[Nat.eqb].
    rewrite Nat.eqb_refl. eexists. split_and!; [done| |done].
    split; cbn; try done; unfold c in *; lia.
  - apply lookup_ge_None in Ev. rewrite (proj2 (Nat.leb_le _ _)) by (unfold c in *; lia).
    split; [done|]. unfold c in *. lia.
Qed.

Lemma sq_create_inv : seq_inv create [] 0.
Proof. split; cbn; try done. apply length_replicate. Qed.

Lemma sq_run_inv ops q log d q' pushed popped :
  seq_inv q log d -> run q ops = (q', pushed, popped) ->
  seq_inv q' (log ++ pushed) (d + length popped).
Proof.
  revert q log d q' pushed popped.
  induction ops as [|[v|] ops IH]; intros q log d q' pushed popped Hi H; cbn [run] in H.
  - simplify_eq. by rewrite app_nil_r, Nat.add_0_r.
  - destruct (run _ ops) as [[q1 ps] rs] eqn:E. simplify_eq.
    rewrite cons_middle, (assoc_L (++)). eapply IH; [|exact E]. by apply push_inv.
  - destruct (pop q) as [q1 r] eqn:Ep. destruct (run q1 ops) as [[q2 ps] rs] eqn:E. simplify_eq.
    pose proof (pop_inv q log d Hi) as Hpop. destruct (log !! _) as [w|].
    + destruct Hpop as (q0 & Hq0 & Hi0 & _). rewrite Ep in Hq0. simplify_eq. cbn.
      rewrite Nat.add_succ_r. by apply (IH q0 log (S d) q' pushed rs).
    + destruct Hpop as [Hq0 _]. rewrite Ep in Hq0. simplify_eq. by eapply IH.
Qed.

(** *** Interleaving of the producer and the consumer *)

Inductive producer := p_idle | p_checked (value : T) | p_stored.
Inductive consumer := c_idle | c_loaded (consumed : nat).

(** [cs_log] (values stored, by index) and [cs_popped] (indices and values returned)
    are ghost. *)
Record state := mkState {
  cs_queue : queue;
  cs_producer : producer;
  cs_consumer : consumer;
  cs_log : list T;
  cs_popped : list (nat * T) }.

Definition initial : state := mkState create p_idle c_idle [] [].

Inductive step (s : state) : state -> Prop :=
  | step_check value :
      cs_producer s = p_idle ->
      step s (mkState (count_drop (cs_queue s)) (p_checked value) (cs_consumer s) (cs_log s)
                (cs_popped s))
  | step_store value :
      cs_producer s = p_checked value ->
      step s (mkState (store_event (cs_queue s) value) p_stored (cs_consumer s)
                (cs_log s ++ [value]) (cs_popped s))
  | step_publish :
      cs_producer s = p_stored ->
      step s (mkState (publish (cs_queue s)) p_idle (cs_consumer s) (cs_log s) (cs_popped s))
  | step_empty :
      cs_consumer s = c_idle -> pop_index (cs_queue s) = None ->
      step s s
  | step_load c :
      cs_consumer s = c_idle -> pop_index (cs_queue s) = Some c ->
      step s (mkState (cs_queue s) (cs_producer s) (c_loaded c) (cs_log s) (cs_popped s))
  | step_take c q v :
      cs_consumer s = c_loaded c -> take_event (cs_queue s) c = (q, Some v) ->
      step s (mkState q (cs_producer s) c_idle (cs_log s) (cs_popped s ++ [(c, v)]))
  | step_miss c :
      (* the slot is being written, or already holds a later event *)
      cs_consumer s = c_loaded c ->
      step s (mkState (cs_queue s) (cs_producer s) c_idle (cs_log s) (cs_popped s)).

(** Indices of delivered events increase and stay below [bound]. *)
Fixpoint increasing (xs : list (nat * T)) (bound : nat) : Prop :=
  match xs with
  | [] => True
  | x :: xs => (x.1 < bound)%nat /\ Forall (fun y => (x.1 < y.1)%nat) xs /\ increasing xs bound
  end.

Lemma increasing_snoc xs b c v :
  increasing xs b -> (b <= c)%nat -> increasing (xs ++ [(c, v)]) (S c).
Proof.
  intros H Hb. induction xs as [|x xs IH]; cbn in *; [repeat constructor; lia|].
  destruct H as (H1 & H2 & H3). split_and!; [lia| |by apply IH].
  apply Forall_app. split; [done|]. repeat constructor. cbn. lia.
Qed.

Record conc_inv (s : state) : Prop := {
  ci_slots : forall k t v, q_slots (cs_queue s) !! k = Some (Some (t, v)) ->
    exists i, t = S i /\ cs_log s !! i = Some v;
  ci_log : length (cs_log s) =
    match cs_producer s with
    | p_stored => S (q_published (cs_queue s)) | _ => q_published (cs_queue s) end;
  ci_consumer : match cs_consumer s with
    | c_loaded c => (q_consumed (cs_queue s) <= c)%nat | c_idle => True end;
  ci_values : Forall (fun x => cs_log s !! x.1 = Some x.2) (cs_popped s);
  ci_order : increasing (cs_popped s) (q_consumed (cs_queue s)) }.

Lemma conc_step s s' : conc_inv s -> step s s' -> conc_inv s'.
Proof.
  intros [H1 H2 H3 H4 H5] Hs. destruct Hs as [v E|v E|E|E1 E2|c E1 E2|c q v E1 E2|c E].
  - rewrite E in H2. by split.
  - rewrite E in H2. split; cbn; try done.
    + intros k t w Hk. destruct (decide (k = q_published (cs_queue s) mod Capacity)%nat) as [->|Hne].
      * apply list_lookup_insert_Some in Hk as [(_ & Hx & _)|(Hne & _)]; [|done].
        simplify_eq. exists (q_published (cs_queue s)). split; [done|].
        rewrite <- H2. by rewrite lookup_app_r, Nat.sub_diag.
      * rewrite list_lookup_insert_ne in Hk by done.
        destruct (H1 _ _ _ Hk) as (i & -> & Hi). exists i. split; [done|].
        by apply lookup_app_l_Some.
    + rewrite length_app. cbn. lia.
    + eapply Forall_impl; [exact H4|]. intros x Hx. by apply lookup_app_l_Some.
  - rewrite E in H2. by split.
  - by split.
  - split; try done. cbn. unfold pop_index in E2.
    destruct (_ <=? _)%nat; [done|]. injection E2 as <-.
    destruct (q_consumed (cs_queue s) <? _)%nat eqn:El; [apply Nat.ltb_lt in El|]; lia.
  - unfold take_event in E2.
    destruct (q_slots (cs_queue s) !! (c mod Capacity)%nat) as [[[t w]|]|] eqn:Ek; cbn in E2;
      [|discriminate..].
    destruct (Nat.eqb t (S c)) eqn:Et; [|discriminate]. apply Nat.eqb_eq in Et. simplify_eq.
    rewrite E1 in H3. destruct (H1 _ _ _ Ek) as (i & [= ->] & Hi).
    split; cbn; try done.
    + apply Forall_app. split; [done|]. by repeat constructor.
    + eapply increasing_snoc; [exact H5|lia].
  - by split.
Qed.

Lemma conc_initial : conc_inv initial.
Proof.
  split; cbn; try done. intros k t v Hk. apply lookup_replicate in Hk as [? _]. done.
Qed.

Lemma conc_reachable s : star step initial s -> conc_inv s.
Proof. apply star_invariant; [exact conc_initial|]. intros b c. apply conc_step. Qed.
End Queue.

(** No event is lost unaccounted and the newest are kept: after any sequence of
    pushes and pops, the events pushed are exactly the ones delivered, the ones
    counted as dropped and the ones still waiting (at most the capacity); and the
    next pop returns the oldest event not yet consumed among the last [Capacity],
    or nothing only when all have been consumed. *)
Theorem queue_accounting {T} (Capacity : nat) (ops : list op) q (pushed popped : list T) :
  (0 < Capacity)%nat ->
  run Capacity (create Capacity) ops = (q, pushed, popped) ->
  length pushed =
    (length popped + q_dropped q + (length pushed - q_consumed q) `min` Capacity)%nat /\
  match pushed !! ((q_consumed q) `max` (length pushed - Capacity))%nat with
  | Some v => exists q', pop Capacity q = (q', Some v)
  | None => pop Capacity q = (q, None) /\ q_consumed q = length pushed
  end.
Proof.
  intros Hc H. pose proof (sq_run_inv Capacity Hc _ _ _ _ _ _ _ (sq_create_inv Capacity) H) as Hi.
  cbn in Hi. split.
  - pose proof (si_count _ _ _ _ Hi). pose proof (si_published _ _ _ _ Hi). lia.
  - pose proof (pop_inv Capacity Hc _ _ _ Hi) as Hp.
    destruct (pushed !! _); [|exact Hp]. destruct Hp as (q' & Hq & _). by exists q'.
Qed.

(** However the producer and the consumer interleave, the consumer only ever gets
    events that were pushed, each at most once, in the order they were pushed. *)
Theorem queue_interleaving_safe {T} (Capacity : nat) (s : state (T := T)) :
  (0 < Capacity)%nat -> star (step Capacity) (initial Capacity) s ->
  Forall (fun x => cs_log s !! x.1 = Some x.2) (cs_popped s) /\
  increasing (cs_popped s) (q_consumed (cs_queue s)).
Proof. intros Hc H. destruct (conc_reachable Capacity Hc s H) as [_ _ _ ? ?]. by split. Qed.

Lemma queue_accounting_witness :
  exists q', pop 2 (run 2 (create 2) [op_push 1; op_push 2; op_push 3]).1.1 = (q', Some 2).
Proof.
  exact (proj2 (queue_accounting 2 [op_push 1; op_push 2; op_push 3]
    (run 2 (create 2) [op_push 1; op_push 2; op_push 3]).1.1 [1; 2; 3] []
    ltac:(lia) ltac:(vm_compute; reflexivity))).
Defined.

Lemma queue_interleaving_safe_witness :
  exists s, star (step 2) (initial 2) s /\ cs_popped s = [(0%nat, 7)] /\
    Forall (fun x => cs_log s !! x.1 = Some x.2) (cs_popped s).
Proof.
  assert (exists s, star (step 2) (initial 2) s /\ cs_popped s = [(0%nat, 7)]) as (s & Hs & Hp).
  { eexists. split.
    - eapply star_step; [eapply star_step; [eapply star_step; [eapply star_step;
        [eapply star_step; [apply star_refl|]|]|]|]|].
      + by apply (step_check _ _ 7).
      + by apply step_store.
      + by apply step_publish.
      + by eapply step_load.
      + eapply step_take; [done|]. reflexivity.
    - reflexivity. }
  exists s. split; [exact Hs|]. split; [exact Hp|].
  apply (queue_interleaving_safe 2 s ltac:(lia) Hs).
Defined.

End SensorEventQueue.

(** ** [CommandMailbox] *)

Module CommandMailbox.

(** The value is any type with a [sequence] member. *)
Definition publish {T} (value : T) : option T := Some value.

Definition read_latest {T} (sequence : T -> Z) (slot : option T) (after_sequence : Z) : option T :=
  match slot with
  | None => None
  | Some value => if sequence value <=? after_sequence then None else Some value
  end.

End CommandMailbox.

(** ** [EthercatEpochMailbox] *)

Module EthercatEpochMailbox.
Section Epoch.
Context {T : Type} (zero : T) (MaximumMembers : nat).

Record EthercatEpochBatch := mkBatch {
  eb_epoch : Z;
  eb_count : nat;
  eb_commands : list T }.

Record mailbox := mkMailbox {
  mb_size : nat;
  mb_staging_epoch : Z;
  mb_commands : list T;
  mb_staged : list bool;
  mb_committed : option EthercatEpochBatch }.

Definition create (member_count : nat) : mailbox :=
  mkMailbox (if (member_count <=? MaximumMembers)%nat then member_count else 0) 0
    (replicate MaximumMembers zero) (replicate MaximumMembers false) None.

Definition stage (m : mailbox) (index : nat) (epoch : Z) (command : T) : mailbox * bool :=
  if Nat.eqb (mb_size m) 0 || (mb_size m <=? index)%nat || (epoch =? 0) ||
     (epoch <? mb_staging_epoch m)
  then (m, false)
  else
    let staged :=
      if epoch =? mb_staging_epoch m then mb_staged m else replicate MaximumMembers false in
    (mkMailbox (mb_size m) epoch (<[index := command]> (mb_commands m))
       (<[index := true]> staged) (mb_committed m), true).

Definition commit (m : mailbox) (epoch : Z) : mailbox * bool :=
  if Nat.eqb (mb_size m) 0 || (epoch =? 0) || negb (epoch =? mb_staging_epoch m)
  then (m, false)
  else if forallb (fun i => default false (mb_staged m !! i)) (seq 0 (mb_size m))
  then
    (mkMailbox (mb_size m) (mb_staging_epoch m) (mb_commands m) (replicate MaximumMembers false)
       (Some (mkBatch epoch (mb_size m) (mb_commands m))), true)
  else (m, false).

Definition consume_complete (m : mailbox) (after_epoch : Z) : option EthercatEpochBatch :=
  match mb_committed m with
  | None => None
  | Some batch => if eb_epoch batch <=? after_epoch then None else Some batch
  end.

Inductive op := op_stage (index : nat) (epoch : Z) (command : T) | op_commit (epoch : Z).

Definition step (m : mailbox) (o : op) : mailbox :=
  match o with
  | op_stage index epoch command => (stage m index epoch command).1
  | op_commit epoch => (commit m epoch).1
  end.

(** What a batch owes to the calls [history] that were made. *)
Definition batch_sound (size : nat) (history : list op) (b : EthercatEpochBatch) : Prop :=
  eb_count b = size /\
  forall i, (i < size)%nat -> exists c,
    eb_commands b !! i = Some c /\ op_stage i (eb_epoch b) c ∈ history.

Record inv (size : nat) (history : list op) (m : mailbox) : Prop := {
  mi_size : mb_size m = size;
  mi_bound : (size <= MaximumMembers)%nat;
  mi_commands : length (mb_commands m) = MaximumMembers;
  mi_length : length (mb_staged m) = MaximumMembers;
  mi_staged : forall i, mb_staged m !! i = Some true -> exists c,
    mb_commands m !! i = Some c /\ op_stage i (mb_staging_epoch m) c ∈ history;
  mi_committed : forall b, mb_committed m = Some b ->
    batch_sound size history b /\ eb_epoch b <= mb_staging_epoch m }.

Lemma replicate_not_true n i : replicate n false !! i <> Some true.
Proof. intros H. by apply lookup_replicate in H as [? _]. Qed.

Lemma batch_sound_mono size history o b :
  batch_sound size history b -> batch_sound size (history ++ [o]) b.
Proof.
  intros [H1 H2]. split; [done|]. intros i Hi. destruct (H2 i Hi) as (c & ? & ?).
  exists c. split; [done|]. apply elem_of_app. by left.
Qed.

Lemma step_inv size history m o :
  inv size history m -> inv size (history ++ [o]) (step m o).
Proof.
  intros [H1 H2 H3 H4 H5 H6].
  assert (forall i, mb_staged m !! i = Some true -> exists c,
    mb_commands m !! i = Some c /\ op_stage i (mb_staging_epoch m) c ∈ history ++ [o]) as H5'.
  { intros i Hi. destruct (H5 i Hi) as (c & ? & ?). exists c. split; [done|].
    apply elem_of_app. by left. }
  assert (forall b, mb_committed m = Some b ->
    batch_sound size (history ++ [o]) b /\ eb_epoch b <= mb_staging_epoch m) as H6'.
  { intros b Hb. destruct (H6 b Hb). split; [by apply batch_sound_mono|done]. }
  destruct o as [index epoch command|epoch]; cbn.
  - unfold stage. destruct (_ || _) eqn:E; [by split|].
    repeat (apply orb_false_iff in E as [E ?]). b2p.
    split; cbn; try done.
    + by rewrite length_insert.
    + rewrite length_insert. case_match; [done|apply length_replicate].
    + intros i Hi. destruct (decide (i = index)) as [->|Hne].
      * exists command. rewrite list_lookup_insert_eq.
        -- split; [done|]. apply elem_of_app. right. by apply list_elem_of_singleton.
        -- apply lookup_lt_Some in Hi. rewrite length_insert in Hi. rewrite H3.
           case_match; [lia|]. by rewrite length_replicate in Hi.
      * rewrite list_lookup_insert_ne in Hi by done. rewrite list_lookup_insert_ne by done.
        destruct (epoch =? mb_staging_epoch m) eqn:Ee; b2p; [subst; by apply H5'|].
        by apply replicate_not_true in Hi.
    + intros b Hb. destruct (H6' b Hb). split; [done|lia].
  - unfold commit. destruct (_ || _) eqn:E; [by split|].
    repeat (apply orb_false_iff in E as [E ?]). b2p. subst epoch.
    destruct (forallb _ _) eqn:Ef; [|by split].
    split; cbn; try done.
    + apply length_replicate.
    + intros i Hi. by apply replicate_not_true in Hi.
    + intros b [= <-]. cbn. split; [|lia]. split; [done|]. intros i Hi. cbn.
      rewrite forallb_forall in Ef. specialize (Ef i). rewrite H1, in_seq in Ef.
      specialize (Ef ltac:(lia)). apply H5'. by destruct (mb_staged m !! i) as [[]|].
Qed.

Lemma em_create_inv member_count :
  inv (mb_size (create member_count)) [] (create member_count).
Proof.
  split; cbn; try done; try apply length_replicate.
  - destruct (member_count <=? MaximumMembers)%nat eqn:E; [by apply Nat.leb_le in E|lia].
  - intros i Hi. by apply replicate_not_true in Hi.
Qed.

Lemma em_run_inv ops : forall size history m,
  inv size history m -> inv size (history ++ ops) (fold_left step ops m).
Proof.
  induction ops as [|o ops IH]; intros size history m Hi; cbn; [by rewrite app_nil_r|].
  rewrite cons_middle, (assoc_L (++)). apply IH. by apply step_inv.
Qed.
End Epoch.

(** C28. Epochs are delivered whole: a batch the consumer obtains has a command for
    every member, and each of them was staged for that very epoch, whatever staging
    and commit calls came before; commands of different epochs never mix. *)
Theorem epoch_batch_complete {T} (zero : T) (MaximumMembers member_count : nat)
    (ops : list op) (after_epoch : Z) b :
  let m := fold_left (step MaximumMembers) ops (create zero MaximumMembers member_count) in
  consume_complete m after_epoch = Some b ->
  after_epoch < eb_epoch b /\ eb_count b = mb_size m /\
  forall i, (i < mb_size m)%nat -> exists c,
    eb_commands b !! i = Some c /\ op_stage i (eb_epoch b) c ∈ ops.
Proof.
  intros m H. pose proof (em_run_inv MaximumMembers ops _ _ _
    (em_create_inv zero MaximumMembers member_count)) as Hi.
  fold m in Hi. unfold consume_complete in H.
  destruct (mb_committed m) as [b'|] eqn:Eb; [|done].
  destruct (eb_epoch b' <=? after_epoch) eqn:Ee; [done|]. simplify_eq. b2p.
  destruct (mi_committed _ _ _ _ Hi _ Eb) as [[H1 H2] _].
  rewrite (mi_size _ _ _ _ Hi). by split_and!.
Qed.

Lemma epoch_batch_complete_witness :
  let ops := [op_stage 0 5 10; op_stage 1 5 11; op_commit 5] in
  exists b, consume_complete (fold_left (step 4) ops (create 0 4 2)) 4 = Some b /\
    4 < eb_epoch b.
Proof.
  eexists. split; [vm_compute; reflexivity|].
  eapply (epoch_batch_complete 0 4 2 [op_stage 0 5 10; op_stage 1 5 11; op_commit 5] 4).
  vm_compute. reflexivity.
Defined.

End EthercatEpochMailbox.
