(* ===== verification/Messages.v ===== *)
(** * Data exchanged between the components

    The message structs of [robot_io/daemon/messages.hpp] and
    [value_snapshot.hpp], the PDO staging view of [devices/cia402/pdo.hpp] and
    the static configuration records of [profiles/robot_profile.hpp] and
    [devices/st3215/st3215.hpp].  Times are integers: nanoseconds, or the unit
    the C++ type of the field has. *)
From S2P Require Export Prelude Floats.

(** ** [messages.hpp] *)

Definition kRobotIoMaximumAxes : Z := 12.
Definition kRobotIoMaximumServos : Z := 32.

Record AxisCommand := mkAxisCommand {
  ac_sequence : Z;
  ac_timestamp_ns : Z;
  ac_target : double;
  ac_flags : Z;
  ac_reserved : Z }.

Definition AxisCommand_zero : AxisCommand := mkAxisCommand 0 0 fzero 0 0.

Record AxisFeedback := mkAxisFeedback {
  af_sequence : Z;
  af_timestamp_ns : Z;
  af_position : double;
  af_velocity : double;
  af_effort : double;
  af_status_word : Z;
  af_flags : Z;
  af_mode_display : Z }.

Definition AxisFeedback_zero : AxisFeedback :=
  mkAxisFeedback 0 0 fzero fzero fzero 0 0 0.

Record St3215ServoCommand := mkServoCommand {
  sc_sequence : Z;
  sc_timestamp_ns : Z;
  sc_target_position_rad : double;
  sc_enabled : bool;
  sc_emergency_stop : bool;
  sc_reserved : list Z }.

Definition St3215ServoCommand_zero : St3215ServoCommand :=
  mkServoCommand 0 0 fzero false false (replicate 6 0).

Record St3215ServoFeedback := mkServoFeedback {
  sf_feedback_sequence : Z;
  sf_command_sequence : Z;
  sf_timestamp_ns : Z;
  sf_position_rad : double;
  sf_raw_position : Z;
  sf_flags : Z;
  sf_transport_health : Z;
  sf_status_error : Z;
  sf_timeout_count : Z;
  sf_io_error_count : Z }.

Definition St3215ServoFeedback_zero : St3215ServoFeedback :=
  mkServoFeedback 0 0 0 fzero 0 (Z.shiftl 1 1) 0 0 0 0.

(** ** [value_snapshot.hpp]

    [sn_axes] is the whole fixed-size array; the code only reads its first
    [axis_count] elements, after checking the count against its own. *)
Record Snapshot (T : Type) := mkSnapshot {
  sn_sequence : Z;
  sn_timestamp_ns : Z;
  sn_axis_count : Z;
  sn_axes : list T }.
Arguments mkSnapshot {T}.
Arguments sn_sequence {T}.
Arguments sn_timestamp_ns {T}.
Arguments sn_axis_count {T}.
Arguments sn_axes {T}.

(** ** [devices/cia402/pdo.hpp] *)
Record Cia402PdoView := mkPdo {
  status_word : Z;
  mode_display : Z;
  actual_position : Z;
  actual_velocity : Z;
  actual_torque : Z;
  control_word : Z;
  target_position : Z;
  target_velocity : Z;
  target_torque : Z }.

Definition Cia402PdoView_zero : Cia402PdoView := mkPdo 0 0 0 0 0 0 0 0 0.

(** ** [profiles/robot_profile.hpp] *)
Inductive Cia402Mode := csp | csv | cst.

#[export] Instance Cia402Mode_eq_dec : EqDecision Cia402Mode.
Proof. solve_decision. Defined.

(** [static_cast<std::int8_t>(mode)] *)
Definition mode_value (m : Cia402Mode) : Z :=
  match m with csp => 8 | csv => 9 | cst => 10 end.

Lemma mode_value_inj m1 m2 : mode_value m1 = mode_value m2 -> m1 = m2.
Proof. by destruct m1, m2. Qed.

Record AxisConfig := mkAxisConfig {
  ax_name : string;
  ax_alias : Z;
  ax_position : Z;
  ax_vendor_id : Z;
  ax_product_code : Z;
  ax_revision : Z;
  ax_mode : Cia402Mode;
  ax_scale : double;
  ax_minimum : double;
  ax_maximum : double;
  ax_command_timeout_ms : Z;
  ax_safety_group : string;
  ax_slew_limit : double;
  ax_following_error_limit : double }.

(** ** [devices/st3215/st3215.hpp] *)
Record St3215ServoConfig := mkServoConfig {
  cfg_name : string;
  cfg_device_id : Z;
  cfg_servo_id : Z;
  cfg_max_position_units : Z;
  cfg_speed_units : Z;
  cfg_time_units : Z;
  cfg_feedback_timeout_ms : Z;
  cfg_command_timeout_ns : Z;
  cfg_maximum_command_future_ns : Z }.

(** [profiles::SerialPortConfig] and [profiles::St3215ServoProfile]. *)
Record SerialPortConfig := mkSerialPort {
  sp_path : string;
  sp_baud_rate : Z;
  sp_read_buffer_size : nat;
  sp_maximum_frame_size : nat;
  sp_read_timeout_ms : Z;
  sp_write_timeout_ms : Z;
  sp_service_period_ns : Z }.

Record St3215ServoProfile := mkServoProfile {
  pf_sensor_name : string;
  pf_actuator_name : string;
  pf_serial : SerialPortConfig;
  pf_device_id : Z;
  pf_servo_id : Z;
  pf_max_position_units : Z;
  pf_speed_units : Z;
  pf_time_units : Z;
  pf_feedback_timeout_ms : Z;
  pf_safety_group : string;
  pf_command_timeout_ms : Z;
  pf_maximum_command_future_ms : Z }.

(** ** [transport/transport.hpp] *)
Inductive TransportHealth := healthy | degraded | failed.

#[export] Instance TransportHealth_eq_dec : EqDecision TransportHealth.
Proof. solve_decision. Defined.

Definition transport_health_value (h : TransportHealth) : Z :=
  match h with healthy => 0 | degraded => 1 | failed => 2 end.
