(* ===== verification/Cia402.v ===== *)
(** * CiA 402 drives

    [devices/cia402]: the state machine ([state_machine.cpp]), the unit
    conversions ([units.hpp]), the axis protocol step ([axis.cpp]) and the
    directional sensor and actuator codecs ([sensor.hpp], [actuator.hpp]). *)
From S2P Require Export Messages.

(** ** [state_machine.cpp] *)

Inductive DriveState :=
  | not_ready_to_switch_on
  | switch_on_disabled
  | ready_to_switch_on
  | switched_on
  | operation_enabled
  | quick_stop_active
  | fault_reaction_active
  | fault
  | unknown.

#[export] Instance DriveState_eq_dec : EqDecision DriveState.
Proof. solve_decision. Defined.

Inductive AxisRequest := disable | enable | quick_stop | fault_reset.

#[export] Instance AxisRequest_eq_dec : EqDecision AxisRequest.
Proof. solve_decision. Defined.

Module StateMachine.

(** [Cia402StateMachine::decode] *)
Definition decode (status_word : Z) : DriveState :=
  let a := Z.land status_word 0x4F in
  if a =? 0x00 then not_ready_to_switch_on
  else if a =? 0x40 then switch_on_disabled
  else if a =? 0x0F then fault_reaction_active
  else if a =? 0x08 then fault
  else
    let b := Z.land status_word 0x6F in
    if b =? 0x21 then ready_to_switch_on
    else if b =? 0x23 then switched_on
    else if b =? 0x27 then operation_enabled
    else if b =? 0x07 then quick_stop_active
    else unknown.

(** The member [fault_reset_latched_]. *)
Definition state := bool.
Definition initial : state := false.

(** [Cia402StateMachine::update]: the new latch, the decoded state and the
    control word. *)
Definition update (latched : state) (status_word : Z) (request : AxisRequest)
    : state * (DriveState * Z) :=
  let st := decode status_word in
  let latched := match request with fault_reset => latched | _ => false end in
  match request with
  | disable => (latched, (st, 0))
  | quick_stop =>
      let cw :=
        match st with
        | ready_to_switch_on | switched_on | operation_enabled | quick_stop_active => 0x0002
        | _ => 0
        end in
      (latched, (st, cw))
  | fault_reset =>
      let cw := if negb latched && bool_decide (st = fault) then 0x0080 else 0 in
      (true, (st, cw))
  | enable =>
      let cw :=
        match st with
        | switch_on_disabled => 0x0006
        | ready_to_switch_on => 0x0007
        | switched_on | operation_enabled | quick_stop_active => 0x000F
        | not_ready_to_switch_on | fault_reaction_active | fault | unknown => 0
        end in
      (latched, (st, cw))
  end.

Definition control (r : state * (DriveState * Z)) : Z := r.2.2.

(** A run over a sequence of (status word, request) cycles. *)
Fixpoint run (s : state) (inputs : list (Z * AxisRequest)) : list Z :=
  match inputs with
  | [] => []
  | (sw, rq) :: inputs =>
      let r := update s sw rq in control r :: run r.1 inputs
  end.

(** The control words that power the drive up towards operation. *)
Definition enabling (cw : Z) : Prop := cw = 0x06 \/ cw = 0x07 \/ cw = 0x0F.

#[export] Instance enabling_dec cw : Decision (enabling cw).
Proof. unfold enabling. apply _. Defined.

(** *** Facts *)

Lemma control_range s sw rq :
  let cw := control (update s sw rq) in
  cw = 0 \/ cw = 0x02 \/ cw = 0x80 \/ enabling cw.
Proof.
  unfold enabling. destruct rq; cbn.
  all: try (destruct (decode sw)); try (case_bool_decide); try destruct s; cbn; lia.
Qed.

Lemma control_reset s sw rq :
  control (update s sw rq) = 0x80 <-> s = false /\ rq = fault_reset /\ decode sw = fault.
Proof.
  destruct rq; cbn.
  1-3: split; [destruct (decode sw); discriminate | intros (_ & ? & _); discriminate].
  case_bool_decide; destruct s; cbn; intuition (auto; discriminate).
Qed.

Lemma control_enabling s sw rq :
  enabling (control (update s sw rq)) ->
  rq = enable /\
    (decode sw = switch_on_disabled \/ decode sw = ready_to_switch_on \/
     decode sw = switched_on \/ decode sw = operation_enabled \/
     decode sw = quick_stop_active).
Proof.
  unfold enabling. destruct rq; cbn.
  - lia.
  - destruct (decode sw); intuition (auto; lia).
  - destruct (decode sw); lia.
  - destruct (_ && _); lia.
Qed.

Lemma update_latch s sw rq :
  (update s sw rq).1 = bool_decide (rq = fault_reset).
Proof. by destruct rq. Qed.

Lemma run_lookup s inputs i cw :
  run s inputs !! i = Some cw ->
  exists sw rq, inputs !! i = Some (sw, rq) /\
    cw = control (update (match i with O => s | S j =>
           bool_decide (inputs.*2 !! j = Some fault_reset) end) sw rq).
Proof.
  revert s i. induction inputs as [|[sw rq] inputs IH]; intros s [|i]; try done; cbn.
  - intros [= <-]. eauto.
  - intros H. destruct (IH _ _ H) as (sw' & rq' & Hi & ->).
    exists sw', rq'. split; [done|]. destruct i; cbn; [|done].
    rewrite update_latch. do 2 f_equal. apply bool_decide_ext. naive_solver.
Qed.
End StateMachine.

(** ** [units.hpp] *)

Module Units.

(** [detail::engineering_to_device_units<Integer>]; [lo], [hi] are the limits of
    [Integer].  [std::round] of a 64-bit-significand value is exact, so comparing
    the rounded value with the limits is integer comparison. *)
Definition engineering_to_device_units (lo hi : Z) (value scale : double) : option Z :=
  if negb (isfinite value) || negb (isfinite scale) || (scale <=? fzero)%fp then None
  else
    let scaled := ldmul (to_long_double value) (to_long_double scale) in
    if negb (isfinite scaled) then None
    else
      let rounded := round_int scaled in
      if (rounded <? lo) || (hi <? rounded) then None else Some rounded.

Definition position_to_device_units := engineering_to_device_units int32_min int32_max.
Definition velocity_to_device_units := engineering_to_device_units int32_min int32_max.
Definition torque_to_device_units := engineering_to_device_units int16_min int16_max.

(** [device_units_to_engineering] *)
Definition device_units_to_engineering (value : Z) (scale : double) : option double :=
  if negb (isfinite scale) || (scale <=? fzero)%fp then None
  else
    let converted := lddiv (long_double_of_int value) (to_long_double scale) in
    let limit := to_long_double double_max in
    if negb (isfinite converted) || (converted <? SFopp limit)%fp || (limit <? converted)%fp
    then None
    else
      let result := to_double converted in
      if isfinite result then Some result else None.

Lemma engineering_to_device_units_range lo hi value scale r :
  engineering_to_device_units lo hi value scale = Some r -> lo <= r <= hi.
Proof. unfold engineering_to_device_units. intros H. case_all. b2p. lia. Qed.

Lemma device_units_to_engineering_finite value scale r :
  device_units_to_engineering value scale = Some r -> isfinite r = true.
Proof. unfold device_units_to_engineering. intros H. case_all. Qed.
End Units.
Import Units.

(** ** [axis.hpp], [axis.cpp] *)

Definition kAxisCommandEnable : Z := Z.shiftl 1 0.
Definition kAxisCommandDisable : Z := Z.shiftl 1 1.
Definition kAxisCommandQuickStop : Z := Z.shiftl 1 2.
Definition kAxisCommandFaultReset : Z := Z.shiftl 1 3.

Definition kAxisFeedbackTargetClamped : Z := Z.shiftl 1 0.
Definition kAxisFeedbackSlewLimited : Z := Z.shiftl 1 1.
Definition kAxisFeedbackFollowingError : Z := Z.shiftl 1 2.
Definition kAxisFeedbackModeMismatch : Z := Z.shiftl 1 3.
Definition kAxisFeedbackInvalidCommand : Z := Z.shiftl 1 4.

Definition kKnownCommandFlags : Z :=
  Z.lor (Z.lor (Z.lor kAxisCommandEnable kAxisCommandDisable) kAxisCommandQuickStop)
        kAxisCommandFaultReset.

(** [flag_count]: the loop [while (flags != 0) { count += flags & 1; flags >>= 1; }]
    runs at most once per bit of the 32-bit word, so 32 steps of fuel suffice
    ([flag_count_enough]). *)
Fixpoint flag_count_loop (fuel : nat) (flags count : Z) : Z :=
  match fuel with
  | O => count
  | S fuel =>
      if flags =? 0 then count
      else flag_count_loop fuel (Z.shiftr flags 1) (count + Z.land flags 1)
  end.

Definition flag_count (flags : Z) : Z := flag_count_loop 32 flags 0.

Lemma flag_count_loop_enough fuel flags count :
  is_word (Z.of_nat fuel) flags ->
  forall extra, flag_count_loop (fuel + extra) flags count = flag_count_loop fuel flags count.
Proof.
  revert flags count. induction fuel as [|fuel IH]; intros flags count Hw extra.
  - assert (flags = 0) as -> by (unfold is_word in Hw; cbn in Hw; lia).
    now destruct extra.
  - cbn. destruct (flags =? 0) eqn:E; [done|]. apply IH.
    unfold is_word in *. rewrite Z.shiftr_div_pow2 by lia.
    replace (Z.of_nat (S fuel)) with (1 + Z.of_nat fuel) in Hw by lia.
    rewrite Z.pow_add_r in Hw by lia. cbn in Hw. split.
    + apply Z.div_pos; lia.
    + apply Z.div_lt_upper_bound; cbn; lia.
Qed.

Lemma flag_count_enough flags extra :
  is_word 32 flags -> flag_count_loop (32 + extra) flags 0 = flag_count flags.
Proof. intros H. by apply (flag_count_loop_enough 32). Qed.

(** [requested_action]: the request, and whether the flag word is invalid. *)
Definition requested_action (flags : Z) : AxisRequest * bool :=
  let invalid :=
    negb (Z.ldiff flags kKnownCommandFlags =? 0) ||
    (1 <? flag_count (Z.land flags kKnownCommandFlags)) in
  if invalid then (quick_stop, true)
  else if has_flag flags kAxisCommandQuickStop then (quick_stop, false)
  else if has_flag flags kAxisCommandFaultReset then (fault_reset, false)
  else if has_flag flags kAxisCommandEnable then (enable, false)
  else (disable, false).

Definition valid_positive_limit (value : double) : bool :=
  isfinite value && (fzero <? value)%fp.

(** The states in which following error is supervised. *)
Definition following_error_active (sw : Z) : bool :=
  match StateMachine.decode sw with
  | switched_on | operation_enabled | quick_stop_active => true
  | _ => false
  end.

(** A known single-flag word is one of five values. *)
Lemma requested_action_valid flags rq :
  0 <= flags -> requested_action flags = (rq, false) ->
  (flags = 0 /\ rq = disable) \/ (flags = 1 /\ rq = enable) \/ (flags = 2 /\ rq = disable) \/
  (flags = 4 /\ rq = quick_stop) \/ (flags = 8 /\ rq = fault_reset).
Proof.
  intros Hn. unfold requested_action.
  destruct (negb _ || _) eqn:E; [discriminate|]. b2p.
  change kKnownCommandFlags with (Z.ones 4) in *.
  rewrite Z.ldiff_ones_r in H by lia. rewrite Z.shiftl_mul_pow2, Z.shiftr_div_pow2 in H by lia.
  assert (0 <= flags < 16) as Hr.
  { split; [lia|]. change 16 with (2 ^ 4). apply Z.nle_gt. intros Hge.
    assert (1 <= flags / 2 ^ 4) by (apply Z.div_le_lower_bound; lia). lia. }
  clear H. intros H.
  assert (In flags (map Z.of_nat (seq 0 16))) as Hin.
  { replace flags with (Z.of_nat (Z.to_nat flags)) by lia. apply in_map, in_seq. lia. }
  cbn in Hin. destruct_or! Hin; subst; vm_compute in H, H0; simplify_eq; try lia;
    try discriminate; auto 7; exfalso; apply H0; done.
Qed.


Module Axis.

(** The members of [Cia402Axis]; [last_target_] and [has_last_target_] remember
    the last staged setpoint, the base of the slew-rate limit. *)
Record Axis := mkAxis {
  config : AxisConfig;
  state_machine : StateMachine.state;
  last_target : double;
  has_last_target : bool }.

(** The constructor throws on unsafe limits. *)
Definition create (config : AxisConfig) : Result Axis :=
  if negb (valid_positive_limit (ax_slew_limit config)) ||
     negb (valid_positive_limit (ax_following_error_limit config))
  then fail invalid_argument "CiA 402 safety limits must be finite and positive"
  else success (mkAxis config StateMachine.initial fzero false).

Definition verify_mode (a : Axis) (mode_display : Z) : Result unit :=
  if negb (mode_display =? mode_value (ax_mode (config a)))
  then fail protocol "CiA 402 mode display differs from static configuration"
  else success tt.

Definition actual_setpoint (c : AxisConfig) (pdo : Cia402PdoView) : option double :=
  match ax_mode c with
  | csp => device_units_to_engineering (actual_position pdo) (ax_scale c)
  | csv => device_units_to_engineering (actual_velocity pdo) (ax_scale c)
  | cst => device_units_to_engineering (actual_torque pdo) (ax_scale c)
  end.

(** The view with its three targets replaced. *)
Definition with_targets (pdo : Cia402PdoView) (position velocity torque : Z) : Cia402PdoView :=
  mkPdo (status_word pdo) (mode_display pdo) (actual_position pdo) (actual_velocity pdo)
        (actual_torque pdo) (control_word pdo) position velocity torque.

Definition with_control (pdo : Cia402PdoView) (cw : Z) : Cia402PdoView :=
  mkPdo (status_word pdo) (mode_display pdo) (actual_position pdo) (actual_velocity pdo)
        (actual_torque pdo) cw (target_position pdo) (target_velocity pdo) (target_torque pdo).

Definition stage_setpoint (c : AxisConfig) (value : double) (pdo : Cia402PdoView)
    : Cia402PdoView * bool :=
  let pdo := with_targets pdo 0 0 0 in
  match ax_mode c with
  | csp =>
      match position_to_device_units value (ax_scale c) with
      | None => (pdo, false)
      | Some converted => (with_targets pdo converted 0 0, true)
      end
  | csv =>
      match velocity_to_device_units value (ax_scale c) with
      | None => (pdo, false)
      | Some converted => (with_targets pdo 0 converted 0, true)
      end
  | cst =>
      match torque_to_device_units value (ax_scale c) with
      | None => (pdo, false)
      | Some converted => (with_targets pdo 0 0 converted, true)
      end
  end.

(** The check that guards the enable branch of [cycle]. *)
Definition enable_inputs_invalid (c : AxisConfig) (target : double) : bool :=
  negb (isfinite target) || negb (isfinite (ax_scale c)) || (ax_scale c <=? fzero)%fp ||
  negb (isfinite (ax_minimum c)) || negb (isfinite (ax_maximum c)) ||
  (ax_maximum c <? ax_minimum c)%fp || negb (valid_positive_limit (ax_slew_limit c)) ||
  negb (valid_positive_limit (ax_following_error_limit c)).

(** The target after the position clamp, and after the slew-rate limit. *)
Definition clamped_target (c : AxisConfig) (target : double) : double :=
  clamp target (ax_minimum c) (ax_maximum c).

Definition slew_target (c : AxisConfig) (last staged : double) : double :=
  if isfinite (ax_slew_limit c)
  then clamp staged (dsub last (ax_slew_limit c)) (dadd last (ax_slew_limit c))
  else staged.

(** C++ [!=] on doubles is true when an operand is NaN. *)
Definition double_neq (x y : double) : bool := negb (x =? y)%fp.

Definition following_error (c : AxisConfig) (sw : Z) (staged actual : double) : bool :=
  following_error_active sw && isfinite (ax_following_error_limit c) &&
  (ax_following_error_limit c <? SFabs (dsub staged actual))%fp.

(** The [if (request == AxisRequest::enable)] block of [cycle]: request, staged
    target and feedback flags after it. *)
Definition enable_block (c : AxisConfig) (last : double) (sw : Z) (target actual : double)
    (request : AxisRequest) (flags : Z) : AxisRequest * double * Z :=
  match request with
  | enable =>
      if enable_inputs_invalid c target
      then (quick_stop, actual, Z.lor flags kAxisFeedbackInvalidCommand)
      else
        let staged := clamped_target c target in
        let flags :=
          if double_neq staged target then Z.lor flags kAxisFeedbackTargetClamped else flags in
        let slewed := slew_target c last staged in
        let flags :=
          if isfinite (ax_slew_limit c) && double_neq slewed staged
          then Z.lor flags kAxisFeedbackSlewLimited else flags in
        if following_error c sw slewed actual
        then (quick_stop, actual, Z.lor flags kAxisFeedbackFollowingError)
        else (enable, slewed, flags)
  | _ => (request, actual, flags)
  end.

(** The mode check of [cycle]: a mismatch turns an enable into a quick stop. *)
Definition mode_block (c : AxisConfig) (display : Z) (actual : double)
    (r : AxisRequest * double * Z) : AxisRequest * double * Z :=
  let '(request, staged, flags) := r in
  if negb (display =? mode_value (ax_mode c))
  then
    let flags := Z.lor flags kAxisFeedbackModeMismatch in
    match request with
    | enable => (quick_stop, actual, flags)
    | _ => (request, staged, flags)
    end
  else r.

(** What [cycle] decides before it runs the state machine: the final request, the
    staged target, the feedback flags and the view with its targets staged. *)
Definition decide_cycle (a : Axis) (command : AxisCommand) (pdo : Cia402PdoView)
    : AxisRequest * double * Z * Cia402PdoView :=
  let c := config a in
  let position := device_units_to_engineering (actual_position pdo) (ax_scale c) in
  let velocity := device_units_to_engineering (actual_velocity pdo) (ax_scale c) in
  let effort := device_units_to_engineering (actual_torque pdo) (ax_scale c) in
  let '(request, invalid_flags) := requested_action (ac_flags command) in
  let flags := if invalid_flags then kAxisFeedbackInvalidCommand else 0 in
  let converted_actual := actual_setpoint c pdo in
  let invalid_feedback :=
    negb (bool_decide (is_Some position)) || negb (bool_decide (is_Some velocity)) ||
    negb (bool_decide (is_Some effort)) || negb (bool_decide (is_Some converted_actual)) in
  let flags := if invalid_feedback then Z.lor flags kAxisFeedbackInvalidCommand else flags in
  let request := if invalid_feedback then quick_stop else request in
  let actual := default fzero converted_actual in
  let last := if has_last_target a then last_target a else actual in
  let r := enable_block c last (status_word pdo) (ac_target command) actual request flags in
  let '(request, staged, flags) := mode_block c (mode_display pdo) actual r in
  let '(pdo', staged_ok) := stage_setpoint c staged pdo in
  if staged_ok then (request, staged, flags, pdo')
  else
    (quick_stop, staged, Z.lor flags kAxisFeedbackInvalidCommand,
     (stage_setpoint c fzero pdo').1).

(** [cycle]. *)
Definition cycle (a : Axis) (command : AxisCommand) (pdo : Cia402PdoView)
    : Axis * Cia402PdoView * AxisFeedback :=
  let c := config a in
  let position := device_units_to_engineering (actual_position pdo) (ax_scale c) in
  let velocity := device_units_to_engineering (actual_velocity pdo) (ax_scale c) in
  let effort := device_units_to_engineering (actual_torque pdo) (ax_scale c) in
  let actual := default fzero (actual_setpoint c pdo) in
  let '(request, staged, flags, pdo') := decide_cycle a command pdo in
  let last := match request with enable => staged | _ => actual end in
  let '(sm, (_, cw)) := StateMachine.update (state_machine a) (status_word pdo) request in
  let feedback :=
    mkAxisFeedback (ac_sequence command) (ac_timestamp_ns command) (default fzero position)
      (default fzero velocity) (default fzero effort) (status_word pdo) flags
      (u8 (mode_display pdo)) in
  (mkAxis c sm last true, with_control pdo' cw, feedback).

(** The results of one [cycle]. *)
Definition axis_of (r : Axis * Cia402PdoView * AxisFeedback) : Axis := r.1.1.
Definition pdo_of (r : Axis * Cia402PdoView * AxisFeedback) : Cia402PdoView := r.1.2.
Definition feedback_of (r : Axis * Cia402PdoView * AxisFeedback) : AxisFeedback := r.2.

(** A run of consecutive cycles of one axis. *)
Fixpoint run (a : Axis) (inputs : list (AxisCommand * Cia402PdoView))
    : list (Cia402PdoView * AxisFeedback) :=
  match inputs with
  | [] => []
  | (command, pdo) :: inputs =>
      let r := cycle a command pdo in
      (pdo_of r, feedback_of r) :: run (axis_of r) inputs
  end.

(** *** Facts *)

(** The request the state machine is run with. *)
Definition final_request (a : Axis) (command : AxisCommand) (pdo : Cia402PdoView) : AxisRequest :=
  (decide_cycle a command pdo).1.1.1.

Lemma cycle_control a command pdo :
  control_word (pdo_of (cycle a command pdo)) =
  StateMachine.control
    (StateMachine.update (state_machine a) (status_word pdo) (final_request a command pdo)).
Proof.
  unfold cycle, final_request. destruct (decide_cycle _ _ _) as [[[rq st] fl] pdo']; cbn.
  by destruct (StateMachine.update _ _ _) as [? []].
Qed.

Lemma cycle_latch a command pdo :
  state_machine (axis_of (cycle a command pdo)) =
  bool_decide (final_request a command pdo = fault_reset).
Proof.
  unfold cycle, final_request. destruct (decide_cycle _ _ _) as [[[rq st] fl] pdo']; cbn.
  pose proof (StateMachine.update_latch (state_machine a) (status_word pdo) rq) as H.
  by destruct (StateMachine.update _ _ _) as [? []].
Qed.

Lemma cycle_config a command pdo : config (axis_of (cycle a command pdo)) = config a.
Proof.
  unfold cycle. destruct (decide_cycle _ _ _) as [[[rq st] fl] pdo']; cbn.
  by destruct (StateMachine.update _ _ _) as [? []].
Qed.

(** When [enable_block] lets an enable through. *)
Lemma enable_block_enable c last sw target actual rq flags st flags' :
  enable_block c last sw target actual rq flags = (enable, st, flags') ->
  rq = enable /\ enable_inputs_invalid c target = false /\
  st = slew_target c last (clamped_target c target) /\
  following_error c sw st actual = false.
Proof. unfold enable_block. intros H. destruct rq; simplify_eq. case_all. Qed.

Lemma enable_block_other c last sw target actual rq flags rq' st flags' :
  enable_block c last sw target actual rq flags = (rq', st, flags') ->
  rq' <> enable -> st = actual.
Proof. unfold enable_block. intros H. destruct rq; case_all; congruence. Qed.

Lemma mode_block_enable c d actual r st flags :
  mode_block c d actual r = (enable, st, flags) ->
  d = mode_value (ax_mode c) /\ r = (enable, st, flags).
Proof.
  unfold mode_block. destruct r as [[rq s] f].
  destruct (d =? _) eqn:E; cbn; b2p; [naive_solver|]. destruct rq; naive_solver.
Qed.

Lemma mode_block_other c d actual rq0 st0 flags0 rq st flags :
  mode_block c d actual (rq0, st0, flags0) = (rq, st, flags) ->
  (rq0 <> enable -> st0 = actual) -> rq <> enable -> st = actual.
Proof. unfold mode_block. intros H ? ?. destruct rq0; case_all; auto; congruence. Qed.

(** Everything that holds when the state machine is asked to enable. *)
Lemma decide_cycle_enable a command pdo st flags pdo' :
  decide_cycle a command pdo = (enable, st, flags, pdo') ->
  let c := config a in
  let actual := default fzero (actual_setpoint c pdo) in
  let last := if has_last_target a then last_target a else actual in
  requested_action (ac_flags command) = (enable, false) /\
  is_Some (device_units_to_engineering (actual_position pdo) (ax_scale c)) /\
  is_Some (device_units_to_engineering (actual_velocity pdo) (ax_scale c)) /\
  is_Some (device_units_to_engineering (actual_torque pdo) (ax_scale c)) /\
  enable_inputs_invalid c (ac_target command) = false /\
  mode_display pdo = mode_value (ax_mode c) /\
  st = slew_target c last (clamped_target c (ac_target command)) /\
  following_error c (status_word pdo) st actual = false /\
  stage_setpoint c st pdo = (pdo', true).
Proof.
  unfold decide_cycle. destruct (requested_action _) as [rq bad] eqn:Erq.
  set (c := config a). set (actual := default fzero (actual_setpoint c pdo)).
  set (last := if has_last_target a then _ else _).
  match goal with |- context [if ?b then quick_stop else rq] => destruct b eqn:Einv end.
  - destruct (mode_block _ _ _ _) as [[rq2 st2] fl2] eqn:Em.
    destruct (stage_setpoint c st2 pdo) as [p ok] eqn:Es. destruct ok; [|discriminate].
    intros [= -> -> -> ->]. apply mode_block_enable in Em as [_ Em]. discriminate.
  - destruct (mode_block _ _ _ _) as [[rq2 st2] fl2] eqn:Em.
    destruct (stage_setpoint c st2 pdo) as [p ok] eqn:Es. destruct ok; [|discriminate].
    intros [= -> -> -> ->]. apply mode_block_enable in Em as [Hmode Em].
    apply enable_block_enable in Em as (-> & Hin & Hst & Hfe). b2p.
    destruct bad; [|cbn; tauto].
    exfalso. unfold requested_action in Erq. case_all.
Qed.

(** Away from an enable the drive holds its position: the measured setpoint is
    staged, or zeros when even that does not fit the device. *)
Lemma decide_cycle_other a command pdo rq st flags pdo' :
  decide_cycle a command pdo = (rq, st, flags, pdo') -> rq <> enable ->
  let c := config a in
  let actual := default fzero (actual_setpoint c pdo) in
  (stage_setpoint c actual pdo = (pdo', true)) \/
  (stage_setpoint c st pdo).2 = false /\ rq = quick_stop /\
    pdo' = (stage_setpoint c fzero (stage_setpoint c st pdo).1).1.
Proof.
  unfold decide_cycle. destruct (requested_action _) as [rq0 bad].
  set (c := config a). set (actual := default fzero (actual_setpoint c pdo)).
  set (last := if has_last_target a then _ else _).
  match goal with |- context [enable_block c last ?s ?t actual ?r ?f] =>
    destruct (enable_block c last s t actual r f) as [[rq1 st1] fl1] eqn:Eb end.
  destruct (mode_block _ _ _ _) as [[rq2 st2] fl2] eqn:Em.
  destruct (stage_setpoint c st2 pdo) as [p ok] eqn:Es.
  destruct ok; intros [= <- <- <- <-] Hrq; cbn.
  - left. rewrite <- Es. f_equal.
    eapply eq_sym, mode_block_other; [exact Em| |exact Hrq].
    intros ?. eapply enable_block_other; eauto.
  - right. by rewrite Es.
Qed.

(** The integers a staged view carries fit the device types, and only the field
    of the axis mode is used. *)
Definition targets_ok (c : AxisConfig) (pdo : Cia402PdoView) : Prop :=
  int32_min <= target_position pdo <= int32_max /\
  int32_min <= target_velocity pdo <= int32_max /\
  int16_min <= target_torque pdo <= int16_max /\
  (ax_mode c <> csp -> target_position pdo = 0) /\
  (ax_mode c <> csv -> target_velocity pdo = 0) /\
  (ax_mode c <> cst -> target_torque pdo = 0).

Lemma stage_setpoint_ok c value pdo : targets_ok c (stage_setpoint c value pdo).1.
Proof.
  unfold stage_setpoint, targets_ok.
  destruct (ax_mode c) eqn:E;
    [destruct (position_to_device_units _ _) eqn:H
    |destruct (velocity_to_device_units _ _) eqn:H
    |destruct (torque_to_device_units _ _) eqn:H].
  all: try apply engineering_to_device_units_range in H.
  all: unfold int32_min, int32_max, int16_min, int16_max in *; cbn.
  all: split_and!; (lia || done || congruence).
Qed.

Lemma stage_setpoint_inputs c value pdo :
  let pdo' := (stage_setpoint c value pdo).1 in
  status_word pdo' = status_word pdo /\ mode_display pdo' = mode_display pdo /\
  actual_position pdo' = actual_position pdo /\ actual_velocity pdo' = actual_velocity pdo /\
  actual_torque pdo' = actual_torque pdo.
Proof. unfold stage_setpoint. cbn. case_all; auto. Qed.

(** The requests the state machine is run with along a run. *)
Fixpoint requests (a : Axis) (inputs : list (AxisCommand * Cia402PdoView)) : list AxisRequest :=
  match inputs with
  | [] => []
  | (command, pdo) :: inputs =>
      final_request a command pdo :: requests (axis_of (cycle a command pdo)) inputs
  end.

Lemma pdo_of_cycle_targets a command pdo :
  let p := (decide_cycle a command pdo).2 in
  let q := pdo_of (cycle a command pdo) in
  target_position q = target_position p /\ target_velocity q = target_velocity p /\
  target_torque q = target_torque p.
Proof.
  unfold cycle. destruct (decide_cycle _ _ _) as [[[rq st] fl] pdo']; cbn.
  by destruct (StateMachine.update _ _ _) as [? []].
Qed.

Lemma feedback_of_cycle_flags a command pdo :
  af_flags (feedback_of (cycle a command pdo)) = (decide_cycle a command pdo).1.2.
Proof.
  unfold cycle. destruct (decide_cycle _ _ _) as [[[rq st] fl] pdo']; cbn.
  by destruct (StateMachine.update _ _ _) as [? []].
Qed.

Lemma last_target_cycle a command pdo :
  last_target (axis_of (cycle a command pdo)) =
  match final_request a command pdo with
  | enable => (decide_cycle a command pdo).1.1.2
  | _ => default fzero (actual_setpoint (config a) pdo)
  end.
Proof.
  unfold cycle, final_request. destruct (decide_cycle _ _ _) as [[[rq st] fl] pdo']; cbn.
  by destruct (StateMachine.update _ _ _) as [? []].
Qed.

(** The control words of a run, from its requests. *)
Lemma run_control a inputs i pdo fb :
  run a inputs !! i = Some (pdo, fb) -> control_word pdo = 0x80 ->
  requests a inputs !! i = Some fault_reset /\
  match i with
  | O => state_machine a = false
  | S j => requests a inputs !! j <> Some fault_reset
  end.
Proof.
  revert a i. induction inputs as [|[cmd p] inputs IH]; intros a i; [done|].
  destruct i as [|i]; cbn.
  - intros [= <- <-]. rewrite cycle_control, StateMachine.control_reset.
    intros (? & -> & _). done.
  - intros Hi Hc. destruct (IH _ _ Hi Hc) as [H1 H2]. split; [exact H1|].
    destruct i as [|j]; cbn; [|exact H2].
    rewrite cycle_latch in H2. b2p. congruence.
Qed.

Lemma requests_length a inputs : length (requests a inputs) = length inputs.
Proof. revert a. induction inputs as [|[cmd p] inputs IH]; intros a; cbn; [done|]. by rewrite IH. Qed.

Lemma run_length a inputs : length (run a inputs) = length inputs.
Proof. revert a. induction inputs as [|[cmd p] inputs IH]; intros a; cbn; [done|]. by rewrite IH. Qed.

(** The anomalies that turn an enable into a quick stop. *)
Definition refusal_flags : Z :=
  Z.lor (Z.lor kAxisFeedbackFollowingError kAxisFeedbackModeMismatch)
        kAxisFeedbackInvalidCommand.

Lemma has_flag_lor_r f g m : Z.land g m <> 0 -> has_flag (Z.lor f g) m = true.
Proof.
  intros H. unfold has_flag. apply negb_true_iff, Z.eqb_neq. intros E. apply H.
  rewrite Z.land_lor_distr_l in E. by apply Z.lor_eq_0_iff in E as [_ ?].
Qed.

Lemma has_flag_lor_l f g m : has_flag f m = true -> has_flag (Z.lor f g) m = true.
Proof.
  unfold has_flag. rewrite !negb_true_iff, !Z.eqb_neq, Z.land_lor_distr_l, Z.lor_eq_0_iff.
  tauto.
Qed.

Lemma decide_cycle_refused a command pdo rq st flags pdo' :
  decide_cycle a command pdo = (rq, st, flags, pdo') ->
  requested_action (ac_flags command) = (enable, false) -> rq <> enable ->
  has_flag flags refusal_flags = true.
Proof.
  unfold decide_cycle. intros H Hr Hne. rewrite Hr in H.
  set (c := config a) in *. set (actual := default fzero (actual_setpoint c pdo)) in *.
  set (last := if has_last_target a then _ else _) in *.
  assert (forall f, has_flag (Z.lor f kAxisFeedbackInvalidCommand) refusal_flags = true) as HI
    by (intros; by apply has_flag_lor_r).
  match type of H with context [if ?b then quick_stop else enable] => destruct b end.
  - unfold enable_block, mode_block in H. case_all; eauto using has_flag_lor_l.
    all: apply has_flag_lor_l; by vm_compute.
  - unfold enable_block in H. destruct (enable_inputs_invalid _ _).
    + unfold mode_block in H. case_all; eauto using has_flag_lor_l.
      all: apply has_flag_lor_l, HI.
    + match type of H with context [if following_error _ _ _ _ then (_, _, Z.lor ?x _) else _] =>
        generalize dependent x; intros fl H end.
      destruct (following_error _ _ _ _); unfold mode_block in H; case_all; eauto.
      all: try (by apply has_flag_lor_r); try congruence;
        by apply has_flag_lor_l, has_flag_lor_r.
Qed.

(** *** Properties *)

(** What an enabling control word implies. *)
Lemma cycle_enabling a command pdo :
  0 <= ac_flags command ->
  StateMachine.enabling (control_word (pdo_of (cycle a command pdo))) ->
  let c := config a in
  let actual := default fzero (actual_setpoint c pdo) in
  let last := if has_last_target a then last_target a else actual in
  let staged := slew_target c last (clamped_target c (ac_target command)) in
  let q := pdo_of (cycle a command pdo) in
  ac_flags command = kAxisCommandEnable /\
  mode_display pdo = mode_value (ax_mode c) /\
  is_Some (device_units_to_engineering (actual_position pdo) (ax_scale c)) /\
  is_Some (device_units_to_engineering (actual_velocity pdo) (ax_scale c)) /\
  is_Some (device_units_to_engineering (actual_torque pdo) (ax_scale c)) /\
  enable_inputs_invalid c (ac_target command) = false /\
  following_error c (status_word pdo) staged actual = false /\
  (exists p, stage_setpoint c staged pdo = (p, true) /\
    target_position q = target_position p /\ target_velocity q = target_velocity p /\
    target_torque q = target_torque p) /\
  last_target (axis_of (cycle a command pdo)) = staged.
Proof.
  intros Hf Hen. rewrite cycle_control in Hen.
  apply StateMachine.control_enabling in Hen as [Hrq _].
  pose proof (pdo_of_cycle_targets a command pdo) as Ht.
  pose proof (last_target_cycle a command pdo) as Hl. rewrite Hrq in Hl.
  unfold final_request in Hrq.
  destruct (decide_cycle a command pdo) as [[[rq st] fl] pdo'] eqn:Ed; cbn in *; subst rq.
  destruct (decide_cycle_enable _ _ _ _ _ _ Ed) as (Hr & ? & ? & ? & ? & ? & Hst & ? & Hs).
  rewrite <- Hst. split_and!; try done.
  - apply requested_action_valid in Hr as Hv; [|done]. naive_solver.
  - exists pdo'. split; [exact Hs|]. exact Ht.
Qed.

(** C6. A cycle powers the drive up only under every guard of the code: the
    command word is exactly the enable flag, the mode display is the configured
    mode, the three feedback values convert, the configuration and the target are
    finite and ordered, the following error of the staged target is within its
    limit, and the target put in the PDO is the conversion of the command after
    the position clamp and the slew-rate limit; that staged target becomes the
    base of the next slew-rate limit. *)
Theorem axis_enable_sound a command pdo :
  0 <= ac_flags command ->
  StateMachine.enabling (control_word (pdo_of (cycle a command pdo))) ->
  let c := config a in
  let actual := default fzero (actual_setpoint c pdo) in
  let last := if has_last_target a then last_target a else actual in
  let staged := slew_target c last (clamped_target c (ac_target command)) in
  let q := pdo_of (cycle a command pdo) in
  ac_flags command = kAxisCommandEnable /\
  mode_display pdo = mode_value (ax_mode c) /\
  is_Some (device_units_to_engineering (actual_position pdo) (ax_scale c)) /\
  is_Some (device_units_to_engineering (actual_velocity pdo) (ax_scale c)) /\
  is_Some (device_units_to_engineering (actual_torque pdo) (ax_scale c)) /\
  enable_inputs_invalid c (ac_target command) = false /\
  following_error c (status_word pdo) staged actual = false /\
  (exists p, stage_setpoint c staged pdo = (p, true) /\
    target_position q = target_position p /\ target_velocity q = target_velocity p /\
    target_torque q = target_torque p) /\
  last_target (axis_of (cycle a command pdo)) = staged.
Proof. apply cycle_enabling. Qed.

(** C37. Every view a cycle writes fits its device types: the targets are within
    their integer widths, only the target of the configured mode is set, and the
    control word is one of the six words of the state machine. *)
Theorem axis_output_well_formed a command pdo :
  let q := pdo_of (cycle a command pdo) in
  targets_ok (config a) q /\
  (control_word q = 0 \/ control_word q = 0x02 \/ control_word q = 0x80 \/
   StateMachine.enabling (control_word q)).
Proof.
  cbn. split; [|rewrite cycle_control; apply StateMachine.control_range].
  destruct (pdo_of_cycle_targets a command pdo) as (H1 & H2 & H3).
  unfold targets_ok. rewrite H1, H2, H3.
  destruct (decide_cycle a command pdo) as [[[rq st] fl] pdo'] eqn:Ed; cbn.
  destruct (decide (rq = enable)) as [->|Hne].
  - apply decide_cycle_enable in Ed as (_ & _ & _ & _ & _ & _ & _ & _ & Hs).
    pose proof (stage_setpoint_ok (config a) st pdo) as Hk. by rewrite Hs in Hk.
  - destruct (decide_cycle_other _ _ _ _ _ _ _ Ed Hne) as [Hs|(_ & _ & ->)].
    + pose proof (stage_setpoint_ok (config a) (default fzero (actual_setpoint (config a) pdo)) pdo) as Hk.
      by rewrite Hs in Hk.
    + apply stage_setpoint_ok.
Qed.

(** C22. Fault reset is edge triggered: between two cycles that send the reset
    word 0x80 there is a cycle whose request is not a fault reset. *)
Theorem axis_fault_reset_edge a inputs i j pi pj fi fj :
  (i < j)%nat ->
  run a inputs !! i = Some (pi, fi) -> control_word pi = 0x80 ->
  run a inputs !! j = Some (pj, fj) -> control_word pj = 0x80 ->
  exists k rq, (i < k < j)%nat /\ requests a inputs !! k = Some rq /\ rq <> fault_reset.
Proof.
  intros Hij Hi Hci Hj Hcj.
  destruct (run_control _ _ _ _ _ Hi Hci) as [Hri _].
  destruct (run_control _ _ _ _ _ Hj Hcj) as [Hrj Hprev].
  destruct j as [|k]; [lia|].
  destruct (lookup_lt_is_Some_2 (requests a inputs) k) as [rq Hk].
  { apply lookup_lt_Some in Hrj. lia. }
  exists k, rq. split_and!; [|lia|done|congruence].
  destruct (decide (i = k)) as [->|]; [congruence|lia].
Qed.

(** A cycle that does not enable holds the measured setpoint: it is staged
    (or zeros when it does not fit the device) and it is the new base of the
    slew-rate limit, so the next enable cannot jump from a stale target. *)
Theorem axis_hold a command pdo :
  0 <= ac_flags command -> ac_flags command <> kAxisCommandEnable ->
  let c := config a in
  let actual := default fzero (actual_setpoint c pdo) in
  let q := pdo_of (cycle a command pdo) in
  let held := (stage_setpoint c actual pdo).1 in
  ~ StateMachine.enabling (control_word q) /\
  last_target (axis_of (cycle a command pdo)) = actual /\
  ((target_position q = target_position held /\ target_velocity q = target_velocity held /\
    target_torque q = target_torque held) \/
   (exists staged, q = with_control
      (stage_setpoint c fzero (stage_setpoint c staged pdo).1).1 (control_word q) /\
      (stage_setpoint c staged pdo).2 = false)).
Proof.
  intros Hf Hne. cbn.
  assert (final_request a command pdo <> enable) as Hrq.
  { intros Hrq. unfold final_request in Hrq.
    destruct (decide_cycle a command pdo) as [[[rq st] fl] pdo'] eqn:Ed; cbn in Hrq; subst rq.
    apply decide_cycle_enable in Ed as [Hr _].
    apply requested_action_valid in Hr; [|done]. naive_solver. }
  split_and!.
  - rewrite cycle_control. intros [Hx _]%StateMachine.control_enabling. contradiction.
  - rewrite last_target_cycle. by destruct (final_request a command pdo).
  - destruct (pdo_of_cycle_targets a command pdo) as (H1 & H2 & H3).
    revert Hrq H1 H2 H3. unfold final_request, cycle.
    destruct (decide_cycle a command pdo) as [[[rq st] fl] pdo'] eqn:Ed; cbn. intros Hrq.
    destruct (StateMachine.update _ _ _) as [sm [ds cw]]; cbn.
    destruct (decide_cycle_other _ _ _ _ _ _ _ Ed Hrq) as [Hs|(Hs & -> & ->)].
    + rewrite Hs. auto.
    + intros _ _ _. right. exists st. auto.
Qed.

(** An enable is never refused silently: whenever a valid enable command is
    not carried out, the feedback reports a following error, a mode mismatch or
    an invalid command. *)
Theorem axis_refusal_reported a command pdo :
  requested_action (ac_flags command) = (enable, false) ->
  final_request a command pdo <> enable ->
  has_flag (af_flags (feedback_of (cycle a command pdo))) refusal_flags = true.
Proof.
  intros Hr Hne. rewrite feedback_of_cycle_flags. unfold final_request in Hne.
  destruct (decide_cycle a command pdo) as [[[rq st] fl] pdo'] eqn:Ed; cbn in *.
  eauto using decide_cycle_refused.
Qed.

Lemma double_neq_refl x : is_nan x = false -> double_neq x x = false.
Proof.
  intros H. unfold double_neq, SFeqb. rewrite negb_false_iff.
  pose proof (SFcompare_key x x H H) as Hc.
  destruct (SFcompare x x) as [[]|]; [done| | |done];
    destruct (key x) as [[]]; cbn in Hc; lia.
Qed.

(** C36. In the normal case the axis follows its command exactly: a valid enable
    whose target lies inside the position limits and inside the slew window, with
    convertible feedback, matching mode and no following error, is passed to the
    state machine as an enable, stages the conversion of the very target commanded
    and reports no anomaly flag. *)
Theorem axis_tracks a command pdo p :
  let c := config a in
  let actual := default fzero (actual_setpoint c pdo) in
  let last := if has_last_target a then last_target a else actual in
  let target := ac_target command in
  ac_flags command = kAxisCommandEnable ->
  enable_inputs_invalid c target = false ->
  (ax_minimum c <=? target)%fp = true -> (target <=? ax_maximum c)%fp = true ->
  (dsub last (ax_slew_limit c) <=? target)%fp = true ->
  (target <=? dadd last (ax_slew_limit c))%fp = true ->
  is_Some (device_units_to_engineering (actual_position pdo) (ax_scale c)) ->
  is_Some (device_units_to_engineering (actual_velocity pdo) (ax_scale c)) ->
  is_Some (device_units_to_engineering (actual_torque pdo) (ax_scale c)) ->
  mode_display pdo = mode_value (ax_mode c) ->
  following_error c (status_word pdo) target actual = false ->
  stage_setpoint c target pdo = (p, true) ->
  decide_cycle a command pdo = (enable, target, 0, p) /\
  af_flags (feedback_of (cycle a command pdo)) = 0.
Proof.
  intros c actual last target Hf Hin Hmin Hmax Hlo Hhi Hp Hv Ht Hmode Hfe Hs.
  assert (decide_cycle a command pdo = (enable, target, 0, p)) as E;
    [|split; [exact E|by rewrite feedback_of_cycle_flags, E]].
  assert (is_Some (actual_setpoint c pdo)) as Ha
    by (unfold actual_setpoint; by destruct (ax_mode c)).
  unfold decide_cycle. rewrite Hf. fold c. fold actual. fold last. fold target.
  rewrite !bool_decide_true by done. cbn [negb orb requested_action].
  change (requested_action kAxisCommandEnable) with (enable, false). cbn iota beta.
  destruct (SFleb_not_nan _ _ Hmin) as [_ Hn].
  assert (clamped_target c target = target) as Ec by by apply clamp_inside.
  assert (slew_target c last target = target) as Es
    by (unfold slew_target; case_match; [by apply clamp_inside|done]).
  unfold enable_block. rewrite Hin. cbn zeta. rewrite Ec, Es, (double_neq_refl _ Hn), Hfe.
  rewrite andb_false_r. unfold mode_block. rewrite Hmode, Z.eqb_refl. cbn. by rewrite Hs.
Qed.

End Axis.

(** ** [sensor.hpp], [actuator.hpp]: the directional codecs *)

Module Codec.
Import Axis.

(** [Cia402Sensor::decode] *)
Definition decode (c : AxisConfig) (pdo : Cia402PdoView) (sequence timestamp_ns : Z)
    : AxisFeedback :=
  mkAxisFeedback sequence timestamp_ns
    (default fzero (device_units_to_engineering (actual_position pdo) (ax_scale c)))
    (default fzero (device_units_to_engineering (actual_velocity pdo) (ax_scale c)))
    (default fzero (device_units_to_engineering (actual_torque pdo) (ax_scale c)))
    (status_word pdo) 0 (u8 (mode_display pdo)).

(** [Cia402Actuator::encode_setpoint]: the targets are zeroed first, whatever the
    outcome. *)
Definition encode_setpoint (c : AxisConfig) (command : AxisCommand) (pdo : Cia402PdoView)
    : Cia402PdoView * Result unit :=
  let pdo := with_targets pdo 0 0 0 in
  if negb (isfinite (ac_target command)) || (ax_scale c <=? fzero)%fp
  then (pdo, fail invalid_argument "invalid CiA 402 actuator target")
  else
    match ax_mode c with
    | csp =>
        match position_to_device_units (ac_target command) (ax_scale c) with
        | None => (pdo, fail invalid_argument "invalid CSP target")
        | Some value => (with_targets pdo value 0 0, success tt)
        end
    | csv =>
        match velocity_to_device_units (ac_target command) (ax_scale c) with
        | None => (pdo, fail invalid_argument "invalid CSV target")
        | Some value => (with_targets pdo 0 value 0, success tt)
        end
    | cst =>
        match torque_to_device_units (ac_target command) (ax_scale c) with
        | None => (pdo, fail invalid_argument "invalid CST target")
        | Some value => (with_targets pdo 0 0 value, success tt)
        end
    end.

(** C38. The stateless actuator agrees with the axis: it accepts exactly the
    targets the axis can stage, with the same staged view, and on failure leaves
    all three targets zero. *)
Theorem encode_setpoint_refines_axis c command pdo :
  let r := encode_setpoint c command pdo in
  let s := stage_setpoint c (ac_target command) pdo in
  has_value r.2 = s.2 /\ r.1 = s.1 /\
  (has_value r.2 = false -> r.1 = with_targets pdo 0 0 0).
Proof.
  unfold encode_setpoint, stage_setpoint.
  destruct (negb (isfinite (ac_target command)) || (ax_scale c <=? fzero)%fp) eqn:E.
  - assert (forall lo hi, engineering_to_device_units lo hi (ac_target command) (ax_scale c) = None) as H.
    { intros. unfold engineering_to_device_units.
      destruct (negb (isfinite (ac_target command))), (ax_scale c <=? fzero)%fp; try done.
      by rewrite orb_true_r. }
    unfold position_to_device_units, velocity_to_device_units, torque_to_device_units.
    by destruct (ax_mode c); rewrite H.
  - by destruct (ax_mode c); case_match.
Qed.

End Codec.

(** ** Concrete runs *)

Module Cia402Examples.
Import Axis.

Definition sample_config : AxisConfig :=
  mkAxisConfig "joint" 0 0 0x9a 0x30924 0 csp (double_of_int 1000) (double_of_int (-10))
    (double_of_int 10) 100 "" (double_of_int 2) (double_of_int 5).

(** An axis already at 3 rad, in operation enabled. *)
Definition sample_axis : Axis := mkAxis sample_config false (double_of_int 3) true.
Definition sample_pdo (sw : Z) : Cia402PdoView := mkPdo sw 8 3000 0 0 0 0 0 0.
Definition sample_command (flags target : Z) : AxisCommand :=
  mkAxisCommand 7 1000 (double_of_int target) flags 0.

Lemma axis_enable_sound_witness :
  StateMachine.enabling (control_word (pdo_of (cycle sample_axis (sample_command 1 9) (sample_pdo 0x27)))) /\
  target_position (pdo_of (cycle sample_axis (sample_command 1 9) (sample_pdo 0x27))) = 5000 /\
  last_target (axis_of (cycle sample_axis (sample_command 1 9) (sample_pdo 0x27))) = double_of_int 5.
Proof.
  assert (StateMachine.enabling (control_word
    (pdo_of (cycle sample_axis (sample_command 1 9) (sample_pdo 0x27))))) as H
    by (right; right; vm_compute; reflexivity).
  split; [exact H|]. split; [vm_compute; reflexivity|].
  destruct (axis_enable_sound sample_axis (sample_command 1 9) (sample_pdo 0x27)
    ltac:(cbn; lia) H) as (_ & _ & _ & _ & _ & _ & _ & _ & Hl).
  rewrite Hl. vm_compute. reflexivity.
Defined.

Definition sample_run : list (AxisCommand * Cia402PdoView) :=
  [(sample_command 8 0, sample_pdo 0x08); (sample_command 8 0, sample_pdo 0x08);
   (sample_command 2 0, sample_pdo 0x08); (sample_command 8 0, sample_pdo 0x08)].

Lemma axis_fault_reset_edge_witness :
  (fun r => control_word r.1) <$> run sample_axis sample_run = [0x80; 0; 0; 0x80] /\
  exists k rq, (0 < k < 3)%nat /\
    requests sample_axis sample_run !! k = Some rq /\ rq <> fault_reset.
Proof.
  split; [vm_compute; reflexivity|].
  eapply (axis_fault_reset_edge sample_axis sample_run 0 3);
    [lia | vm_compute; reflexivity | reflexivity | vm_compute; reflexivity | reflexivity].
Defined.

Lemma axis_hold_witness :
  ~ StateMachine.enabling
      (control_word (pdo_of (cycle sample_axis (sample_command 4 9) (sample_pdo 0x27)))).
Proof.
  apply (axis_hold sample_axis (sample_command 4 9) (sample_pdo 0x27)).
  - vm_compute. discriminate.
  - vm_compute. discriminate.
Defined.

Lemma axis_refusal_reported_witness :
  has_flag (af_flags (feedback_of (cycle (mkAxis sample_config false (double_of_int 9) true)
    (sample_command 1 9) (sample_pdo 0x27)))) refusal_flags = true.
Proof.
  apply axis_refusal_reported.
  - vm_compute. reflexivity.
  - vm_compute. discriminate.
Defined.

Lemma axis_tracks_witness :
  af_flags (feedback_of (cycle sample_axis (sample_command 1 4) (sample_pdo 0x27))) = 0.
Proof.
  apply (axis_tracks sample_axis (sample_command 1 4) (sample_pdo 0x27)
    (mkPdo 0x27 8 3000 0 0 0 4000 0 0));
    try (vm_compute; reflexivity); vm_compute; eexists; reflexivity.
Defined.

End Cia402Examples.
