(* ===== verification/Safety.v ===== *)
(** * The safety supervisor

    [robot_io/daemon/safety_supervisor.cpp]: the last authority between the
    commands of the clients and the drives.  The supervisor is a record of its
    members; the fixed arrays are lists of their full length; each operation
    returns the new supervisor.  The two per-axis loops of [evaluate] are maps over
    the axis indices ([assess], [settle]), the group loops between them fold over
    the source axis in index order, because a member marked by an earlier source is
    itself a source later. *)
From S2P Require Export Cia402.
Import Units.

(** ** Data *)

Definition kAxisFeedbackSafetyTimeout : Z := Z.shiftl 1 16.
Definition kAxisFeedbackSafetyWkc : Z := Z.shiftl 1 17.
Definition kAxisFeedbackSafetyLink : Z := Z.shiftl 1 18.
Definition kAxisFeedbackSafetySlave : Z := Z.shiftl 1 19.
Definition kAxisFeedbackSafetyModeMismatch : Z := Z.shiftl 1 20.
Definition kAxisFeedbackSafetyFollowingError : Z := Z.shiftl 1 21.
Definition kAxisFeedbackSafetyInvalidCommand : Z := Z.shiftl 1 22.
Definition kAxisFeedbackSafetyFaultResetLimit : Z := Z.shiftl 1 23.
Definition kAxisFeedbackSafetyGroup : Z := Z.shiftl 1 24.
Definition kAxisFeedbackSafetyShutdown : Z := Z.shiftl 1 25.
Definition kAxisFeedbackSafetyProcessData : Z := Z.shiftl 1 26.
Definition kAxisFeedbackSafetyDriveFault : Z := Z.shiftl 1 27.
Definition kAxisFeedbackSafetySerial : Z := Z.shiftl 1 28.

Record SafetyOptions := mkSafetyOptions {
  so_consecutive_wkc_limit : Z;
  so_maximum_fault_resets : Z;
  so_safe_stop_timeout : Z;
  so_zero_velocity_threshold_counts : Z;
  so_zero_velocity_confirmation_cycles : Z }.

Definition SafetyOptions_default : SafetyOptions := mkSafetyOptions 3 3 250000000 1 1.

Inductive CommandAcceptance := accepted | duplicate | rejected.

#[export] Instance CommandAcceptance_eq_dec : EqDecision CommandAcceptance.
Proof. solve_decision. Defined.

Record SafetyBusState := mkSafetyBusState {
  sb_working_counter : Z;
  sb_expected_working_counter : Z;
  sb_expected_working_counter_known : bool;
  sb_working_counter_complete : bool;
  sb_link_up : bool;
  sb_all_slaves_operational : bool;
  sb_process_data_valid : bool;
  sb_operational_axes_mask : Z;
  sb_external_stop_axes_mask : Z;
  sb_dc_deviation_ns : Z }.

Record SafetyEvaluation := mkSafetyEvaluation {
  se_commands : list AxisCommand;
  se_requests : list AxisRequest;
  se_feedback_flags : list Z;
  se_axis_count : Z;
  se_shutdown_complete : bool }.

Record AxisSafetyConfig := mkAxisSafetyConfig {
  asc_command_timeout_ns : Z;
  asc_mode : Cia402Mode;
  asc_scale : double;
  asc_minimum : double;
  asc_maximum : double;
  asc_slew_limit : double;
  asc_following_error_limit : double;
  asc_group : Z }.

Definition AxisSafetyConfig_zero : AxisSafetyConfig :=
  mkAxisSafetyConfig 0 csp fzero fzero fzero fzero fzero 0.

Inductive StopPhase := running | quick_stopping | disabled.

#[export] Instance StopPhase_eq_dec : EqDecision StopPhase.
Proof. solve_decision. Defined.

Record AxisSafetyState := mkAxisSafetyState {
  ss_phase : StopPhase;
  ss_stop_started_ns : Z;
  ss_zero_velocity_cycles : Z;
  ss_fault_reset_edges : Z;
  ss_stopped_command_sequence : Z;
  ss_last_target : double;
  ss_has_last_target : bool;
  ss_fault_episode_active : bool;
  ss_fault_reset_output_active : bool }.

Definition AxisSafetyState_zero : AxisSafetyState :=
  mkAxisSafetyState running 0 0 0 0 fzero false false false.

Record TargetEvaluation := mkTargetEvaluation {
  te_actual : double;
  te_staged : double;
  te_following_error : bool }.

Record SafetySupervisor := mkSafetySupervisor {
  sv_options : SafetyOptions;
  sv_configs : list AxisSafetyConfig;
  sv_states : list AxisSafetyState;
  sv_commands : list AxisCommand;
  sv_last_requests : list AxisRequest;
  sv_axis_count : nat;
  sv_consecutive_wkc_failures : Z;
  sv_last_command_sequence : Z;
  sv_last_command_timestamp_ns : Z;
  sv_configured : bool;
  sv_has_command : bool;
  sv_commands_valid : bool;
  sv_shutdown_requested : bool;
  sv_shutdown_complete : bool }.

Definition max_axes : nat := Z.to_nat kRobotIoMaximumAxes.

Module Supervisor.

(** The constructor: every member is value-initialised. *)
Definition create (options : SafetyOptions) : SafetySupervisor :=
  mkSafetySupervisor options (replicate max_axes AxisSafetyConfig_zero)
    (replicate max_axes AxisSafetyState_zero) (replicate max_axes AxisCommand_zero)
    (replicate max_axes disable) 0 0 0 0 false false false false false.

(** Array accesses, and the updates of the members an operation writes. *)
Definition config_at (s : SafetySupervisor) (i : nat) : AxisSafetyConfig :=
  default AxisSafetyConfig_zero (sv_configs s !! i).
Definition state_at (s : SafetySupervisor) (i : nat) : AxisSafetyState :=
  default AxisSafetyState_zero (sv_states s !! i).
Definition command_at (s : SafetySupervisor) (i : nat) : AxisCommand :=
  default AxisCommand_zero (sv_commands s !! i).

Definition set_commands_valid (s : SafetySupervisor) (b : bool) : SafetySupervisor :=
  mkSafetySupervisor (sv_options s) (sv_configs s) (sv_states s) (sv_commands s)
    (sv_last_requests s) (sv_axis_count s) (sv_consecutive_wkc_failures s)
    (sv_last_command_sequence s) (sv_last_command_timestamp_ns s) (sv_configured s)
    (sv_has_command s) b (sv_shutdown_requested s) (sv_shutdown_complete s).

(** ** [configure] *)

Definition valid_options (o : SafetyOptions) : bool :=
  (0 <? so_consecutive_wkc_limit o) && (0 <? so_maximum_fault_resets o) &&
  (0 <? so_safe_stop_timeout o) && (0 <=? so_zero_velocity_threshold_counts o) &&
  (0 <? so_zero_velocity_confirmation_cycles o).

Definition axis_limits_invalid (a : AxisConfig) : bool :=
  (ax_command_timeout_ms a <=? 0) || (int64_max / 1000000 <? ax_command_timeout_ms a) ||
  negb (isfinite (ax_scale a)) || (ax_scale a <=? fzero)%fp ||
  negb (isfinite (ax_minimum a)) || negb (isfinite (ax_maximum a)) ||
  (ax_maximum a <? ax_minimum a)%fp ||
  negb (isfinite (ax_slew_limit a)) || (ax_slew_limit a <=? fzero)%fp ||
  negb (isfinite (ax_following_error_limit a)) || (ax_following_error_limit a <=? fzero)%fp.

(** The inner search of the group loop: the group of the first previous axis with
    the same safety group. *)
Fixpoint find_group (name : string) (previous : list (string * Z)) : option Z :=
  match previous with
  | [] => None
  | (n, g) :: previous => if String.eqb n name then Some g else find_group name previous
  end.

(** [(group, next_group)] for one axis; [next_group] is a [uint8]. *)
Definition assign_group (name : string) (previous : list (string * Z)) (next_group : Z) : Z * Z :=
  let group := next_group in
  let next_group := u8 (next_group + 1) in
  if String.eqb name "" then (group, next_group)
  else
    match find_group name previous with
    | Some g => (g, u8 (next_group - 1))
    | None => (group, next_group)
    end.

Definition safety_config (a : AxisConfig) (group : Z) : AxisSafetyConfig :=
  mkAxisSafetyConfig (ax_command_timeout_ms a * 1000000) (ax_mode a) (ax_scale a)
    (ax_minimum a) (ax_maximum a) (ax_slew_limit a) (ax_following_error_limit a) group.

(** The loop over the axes; it stops at the first invalid one, with the configurations
    written so far. *)
Fixpoint configure_loop (axes : list AxisConfig) (i : nat) (previous : list (string * Z))
    (next_group : Z) (configs : list AxisSafetyConfig) (requests : list AxisRequest)
    : list AxisSafetyConfig * list AxisRequest * Result unit :=
  match axes with
  | [] => (configs, requests, success tt)
  | a :: axes =>
      if axis_limits_invalid a
      then (configs, requests, fail invalid_argument "axis has invalid daemon safety limits")
      else
        let '(group, next_group) := assign_group (ax_safety_group a) previous next_group in
        configure_loop axes (S i) (previous ++ [(ax_safety_group a, group)]) next_group
          (<[i := safety_config a group]> configs) (<[i := disable]> requests)
  end.

(** The mode check of the loop cannot fail here: [Cia402Mode] has three values. *)
Definition configure (s : SafetySupervisor) (axes : list AxisConfig)
    : SafetySupervisor * Result unit :=
  if sv_configured s
  then (s, fail invalid_argument "safety supervisor is already configured")
  else if (max_axes <? length axes)%nat || negb (valid_options (sv_options s))
  then (s, fail invalid_argument "invalid axis count or safety options")
  else
    let '(configs, requests, r) :=
      configure_loop axes 0 [] 0 (sv_configs s) (sv_last_requests s) in
    let ok := has_value r in
    (mkSafetySupervisor (sv_options s) configs (sv_states s) (sv_commands s) requests
       (if ok then length axes else sv_axis_count s) (sv_consecutive_wkc_failures s)
       (sv_last_command_sequence s) (sv_last_command_timestamp_ns s)
       (if ok then true else sv_configured s) (sv_has_command s) (sv_commands_valid s)
       (sv_shutdown_requested s) (sv_shutdown_complete s), r).

(** ** [accept_commands] *)

Definition command_equals (lhs rhs : AxisCommand) : bool :=
  (ac_sequence lhs =? ac_sequence rhs) && (ac_timestamp_ns lhs =? ac_timestamp_ns rhs) &&
  (ac_target lhs =? ac_target rhs)%fp && (ac_flags lhs =? ac_flags rhs) &&
  (ac_reserved lhs =? ac_reserved rhs).

Definition valid_command (snapshot : Snapshot AxisCommand) (c : AxisCommand) : bool :=
  (ac_sequence c =? sn_sequence snapshot) && (ac_timestamp_ns c =? sn_timestamp_ns snapshot) &&
  (ac_reserved c =? 0) && isfinite (ac_target c) &&
  (Z.ldiff (ac_flags c) kKnownCommandFlags =? 0) &&
  (flag_count (Z.land (ac_flags c) kKnownCommandFlags) <=? 1).

Definition snapshot_at (snapshot : Snapshot AxisCommand) (i : nat) : AxisCommand :=
  default AxisCommand_zero (sn_axes snapshot !! i).

Definition valid_snapshot (s : SafetySupervisor) (snapshot : Snapshot AxisCommand) (now_ns : Z)
    : bool :=
  sv_configured s && (sn_axis_count snapshot =? Z.of_nat (sv_axis_count s)) &&
  (0 <=? sn_timestamp_ns snapshot) && (sn_timestamp_ns snapshot <=? now_ns) &&
  forallb (fun i => valid_command snapshot (snapshot_at snapshot i)) (seq 0 (sv_axis_count s)).

(** The first [axis_count] commands are copied, the rest of the array is kept. *)
Definition store_commands (s : SafetySupervisor) (snapshot : Snapshot AxisCommand)
    : SafetySupervisor :=
  let n := sv_axis_count s in
  mkSafetySupervisor (sv_options s) (sv_configs s) (sv_states s)
    (map (snapshot_at snapshot) (seq 0 n) ++ drop n (sv_commands s))
    (sv_last_requests s) n (sv_consecutive_wkc_failures s)
    (sn_sequence snapshot) (sn_timestamp_ns snapshot) (sv_configured s) true true
    (sv_shutdown_requested s) (sv_shutdown_complete s).

Definition accept_commands (s : SafetySupervisor) (snapshot : Snapshot AxisCommand) (now_ns : Z)
    : SafetySupervisor * CommandAcceptance :=
  if negb (valid_snapshot s snapshot now_ns) then (set_commands_valid s false, rejected)
  else if sv_has_command s &&
          ((sn_sequence snapshot <? sv_last_command_sequence s) ||
           (sn_timestamp_ns snapshot <? sv_last_command_timestamp_ns s))
  then (set_commands_valid s false, rejected)
  else if sv_has_command s && (sn_sequence snapshot =? sv_last_command_sequence s)
  then
    let same :=
      (sn_timestamp_ns snapshot =? sv_last_command_timestamp_ns s) &&
      forallb (fun i => command_equals (snapshot_at snapshot i) (command_at s i))
        (seq 0 (sv_axis_count s)) in
    if same then (s, duplicate) else (set_commands_valid s false, rejected)
  else (store_commands s snapshot, accepted).

Definition request_shutdown (s : SafetySupervisor) (now_ns : Z) : SafetySupervisor :=
  if sv_shutdown_requested s then s
  else
    mkSafetySupervisor (sv_options s) (sv_configs s) (sv_states s) (sv_commands s)
      (sv_last_requests s) (sv_axis_count s) (sv_consecutive_wkc_failures s)
      (sv_last_command_sequence s) (sv_last_command_timestamp_ns s) (sv_configured s)
      (sv_has_command s) (sv_commands_valid s) true (sv_shutdown_complete s).

Definition request_from_flags (flags : Z) : AxisRequest :=
  if has_flag flags kAxisCommandQuickStop then quick_stop
  else if has_flag flags kAxisCommandFaultReset then fault_reset
  else if has_flag flags kAxisCommandEnable then enable
  else disable.

Definition flags_for_request (r : AxisRequest) : Z :=
  match r with
  | enable => kAxisCommandEnable
  | disable => kAxisCommandDisable
  | quick_stop => kAxisCommandQuickStop
  | fault_reset => kAxisCommandFaultReset
  end.

Definition axis_operational (bus : SafetyBusState) (axis : nat) : bool :=
  sb_all_slaves_operational bus ||
  ((axis <? 16)%nat && has_flag (sb_operational_axes_mask bus) (Z.shiftl 1 (Z.of_nat axis))).

(** ** [evaluate] *)

Definition pdo_at (pdos : list Cia402PdoView) (i : nat) : Cia402PdoView :=
  default Cia402PdoView_zero (pdos !! i).

Definition set_last_target (st : AxisSafetyState) (t : double) (has : bool) : AxisSafetyState :=
  mkAxisSafetyState (ss_phase st) (ss_stop_started_ns st) (ss_zero_velocity_cycles st)
    (ss_fault_reset_edges st) (ss_stopped_command_sequence st) t has
    (ss_fault_episode_active st) (ss_fault_reset_output_active st).

Definition set_fault_episode (st : AxisSafetyState) (active : bool) : AxisSafetyState :=
  mkAxisSafetyState (ss_phase st) (ss_stop_started_ns st) (ss_zero_velocity_cycles st)
    0 (ss_stopped_command_sequence st) (ss_last_target st) (ss_has_last_target st)
    active false.

(** The measured value of the configured mode. *)
Definition safety_actual (c : AxisSafetyConfig) (pdo : Cia402PdoView) : option double :=
  match asc_mode c with
  | csp => device_units_to_engineering (actual_position pdo) (asc_scale c)
  | csv => device_units_to_engineering (actual_velocity pdo) (asc_scale c)
  | cst => device_units_to_engineering (actual_torque pdo) (asc_scale c)
  end.

Definition evaluate_target (c : AxisSafetyConfig) (st : AxisSafetyState) (command : AxisCommand)
    (pdo : Cia402PdoView) : AxisSafetyState * TargetEvaluation :=
  let actual := safety_actual c pdo in
  let measured := default fzero actual in
  let st := if ss_has_last_target st then st else set_last_target st measured true in
  if negb (bool_decide (request_from_flags (ac_flags command) = enable)) ||
     negb (bool_decide (is_Some actual))
  then (st, mkTargetEvaluation measured measured false)
  else
    let staged := clamp (ac_target command) (asc_minimum c) (asc_maximum c) in
    let staged :=
      clamp staged (dsub (ss_last_target st) (asc_slew_limit c))
                   (dadd (ss_last_target st) (asc_slew_limit c)) in
    (st, mkTargetEvaluation measured staged
           (following_error_active (status_word pdo) &&
            (asc_following_error_limit c <? SFabs (dsub staged measured))%fp)).

(** [if (condition) reasons |= mask]. *)
Definition flag_if (condition : bool) (mask reasons : Z) : Z :=
  if condition then Z.lor reasons mask else reasons.

(** The bus-wide facts computed once per evaluation. *)
Definition counter_bad (bus : SafetyBusState) : bool :=
  negb (sb_working_counter_complete bus) ||
  (sb_expected_working_counter_known bus &&
   negb (sb_working_counter bus =? sb_expected_working_counter bus)).

Definition next_wkc_failures (s : SafetySupervisor) (bus : SafetyBusState) : Z :=
  if counter_bad bus
  then
    if sv_consecutive_wkc_failures s <? uint32_max
    then sv_consecutive_wkc_failures s + 1 else sv_consecutive_wkc_failures s
  else 0.

Definition invalid_process_data (bus : SafetyBusState) : bool :=
  negb (sb_process_data_valid bus) && negb (counter_bad bus) && sb_link_up bus.

Definition requested_at (s : SafetySupervisor) (axis : nat) : AxisRequest :=
  if sv_has_command s then request_from_flags (ac_flags (command_at s axis)) else disable.

Definition command_timed_out (s : SafetySupervisor) (axis : nat) (now_ns : Z) : bool :=
  negb (sv_has_command s) || (now_ns <? sv_last_command_timestamp_ns s) ||
  (asc_command_timeout_ns (config_at s axis) <? now_ns - sv_last_command_timestamp_ns s).

Definition drive_fault (d : DriveState) : bool :=
  match d with fault | fault_reaction_active => true | _ => false end.

Definition resettable_fault (d : DriveState) : bool := bool_decide (d = fault).

(** A drive seen out of fault over a sound bus ends its fault episode. *)
Definition fault_clear_observed (bus : SafetyBusState) (axis : nat) (d : DriveState) : bool :=
  negb (drive_fault d) && negb (bool_decide (d = unknown)) && sb_link_up bus &&
  sb_process_data_valid bus && axis_operational bus axis.

Definition track_fault_episode (bus : SafetyBusState) (axis : nat) (d : DriveState)
    (st : AxisSafetyState) : AxisSafetyState :=
  if fault_clear_observed bus axis d then set_fault_episode st false
  else if negb (ss_fault_episode_active st) then set_fault_episode st true
  else st.

Record Assessment := mkAssessment {
  as_state : AxisSafetyState;
  as_target : TargetEvaluation;
  as_reasons : Z;
  as_candidate : bool;
  as_trigger : bool }.

(** One iteration of the first axis loop. *)
Definition assess (s : SafetySupervisor) (bus : SafetyBusState) (pdos : list Cia402PdoView)
    (now_ns wkc_failures : Z) (axis : nat) : Assessment :=
  let c := config_at s axis in
  let pdo := pdo_at pdos axis in
  let request := requested_at s axis in
  let wkc_limit_reached := so_consecutive_wkc_limit (sv_options s) <=? wkc_failures in
  let reasons := 0 in
  let reasons := flag_if (command_timed_out s axis now_ns) kAxisFeedbackSafetyTimeout reasons in
  let reasons := flag_if (negb (sv_commands_valid s)) kAxisFeedbackSafetyInvalidCommand reasons in
  let reasons := flag_if
    (has_flag (sb_external_stop_axes_mask bus) (Z.shiftl 1 (Z.of_nat axis)))
    kAxisFeedbackSafetySerial reasons in
  let reasons := flag_if (negb (sb_link_up bus)) kAxisFeedbackSafetyLink reasons in
  let reasons := flag_if wkc_limit_reached kAxisFeedbackSafetyWkc reasons in
  let reasons := flag_if (invalid_process_data bus) kAxisFeedbackSafetyProcessData reasons in
  let reasons := flag_if (negb (axis_operational bus axis)) kAxisFeedbackSafetySlave reasons in
  let reasons := flag_if (negb (mode_display pdo =? mode_value (asc_mode c)))
    kAxisFeedbackSafetyModeMismatch reasons in
  let '(st, target) := evaluate_target c (state_at s axis) (command_at s axis) pdo in
  let reasons := flag_if (te_following_error target) kAxisFeedbackSafetyFollowingError reasons in
  let d := StateMachine.decode (status_word pdo) in
  let st := track_fault_episode bus axis d st in
  let reset := bool_decide (request = fault_reset) in
  let new_reset_edge := resettable_fault d && reset && negb (ss_fault_reset_output_active st) in
  let reset_budget_available :=
    negb new_reset_edge ||
    (ss_fault_reset_edges st <? so_maximum_fault_resets (sv_options s)) in
  let fault_stop :=
    drive_fault d && (negb (resettable_fault d) || negb reset || negb reset_budget_available) in
  let reasons := flag_if fault_stop kAxisFeedbackSafetyDriveFault reasons in
  let reasons := flag_if (fault_stop && (reset && negb reset_budget_available))
    kAxisFeedbackSafetyFaultResetLimit reasons in
  let reasons := flag_if (sv_shutdown_requested s) kAxisFeedbackSafetyShutdown reasons in
  mkAssessment st target reasons
    (resettable_fault d && reset && reset_budget_available && (reasons =? 0))
    (bool_decide (request = quick_stop) || negb (reasons =? 0)).

(** The group loops mark (trigger, reasons) of every axis. *)
Abbreviation mark := (bool * Z)%type.

Definition group_at (s : SafetySupervisor) (axis : nat) : Z := asc_group (config_at s axis).

(** One source of the first group loop. *)
Definition spread_stop (s : SafetySupervisor) (marks : list mark) (source : nat) : list mark :=
  if (default (false, 0) (marks !! source)).1
  then
    imap (fun member m =>
      if negb (Nat.eqb member source) && (group_at s member =? group_at s source)
      then (true, Z.lor m.2 kAxisFeedbackSafetyGroup) else m) marks
  else marks.

(** One source of the fault-reset loop: it stops the members that are not reset
    candidates themselves. *)
Definition spread_reset (s : SafetySupervisor) (candidates : list bool) (marks : list mark)
    (source : nat) : list mark :=
  if default false (candidates !! source)
  then
    imap (fun member m =>
      if negb (Nat.eqb member source) && negb (default false (candidates !! member)) &&
         (group_at s member =? group_at s source)
      then (true, Z.lor m.2 kAxisFeedbackSafetyGroup) else m) marks
  else marks.

Definition propagate (s : SafetySupervisor) (assessed : list Assessment) : list mark :=
  let axes := seq 0 (length assessed) in
  let marks := map (fun a => (as_trigger a, as_reasons a)) assessed in
  let marks := fold_left (spread_stop s) axes marks in
  fold_left (spread_reset s (map as_candidate assessed)) axes marks.

(** The members of an axis state the last loop writes. *)
Definition set_phase (st : AxisSafetyState) (p : StopPhase) : AxisSafetyState :=
  mkAxisSafetyState p (ss_stop_started_ns st) (ss_zero_velocity_cycles st)
    (ss_fault_reset_edges st) (ss_stopped_command_sequence st) (ss_last_target st)
    (ss_has_last_target st) (ss_fault_episode_active st) (ss_fault_reset_output_active st).

Definition set_zero_cycles (st : AxisSafetyState) (n : Z) : AxisSafetyState :=
  mkAxisSafetyState (ss_phase st) (ss_stop_started_ns st) n
    (ss_fault_reset_edges st) (ss_stopped_command_sequence st) (ss_last_target st)
    (ss_has_last_target st) (ss_fault_episode_active st) (ss_fault_reset_output_active st).

Definition set_reset_output (st : AxisSafetyState) (active : bool) (edges : Z) : AxisSafetyState :=
  mkAxisSafetyState (ss_phase st) (ss_stop_started_ns st) (ss_zero_velocity_cycles st)
    edges (ss_stopped_command_sequence st) (ss_last_target st)
    (ss_has_last_target st) (ss_fault_episode_active st) active.

Definition enter_quick_stop (st : AxisSafetyState) (now_ns sequence : Z) : AxisSafetyState :=
  mkAxisSafetyState quick_stopping now_ns 0
    (ss_fault_reset_edges st) sequence (ss_last_target st)
    (ss_has_last_target st) (ss_fault_episode_active st) (ss_fault_reset_output_active st).

(** The phase changes at the top of the last loop: a trigger stops a running axis,
    a newer enable command without trigger restarts a disabled one. *)
Definition stop_or_restart (s : SafetySupervisor) (now_ns : Z) (triggered : bool)
    (requested : AxisRequest) (st : AxisSafetyState) : AxisSafetyState * bool :=
  let entered := triggered && bool_decide (ss_phase st = running) in
  let st :=
    if entered then enter_quick_stop st now_ns (sv_last_command_sequence s) else st in
  let st :=
    if negb triggered && bool_decide (ss_phase st = disabled) && sv_has_command s &&
       (ss_stopped_command_sequence st <? sv_last_command_sequence s) &&
       bool_decide (requested = enable)
    then set_phase st running else st in
  (st, entered).

(** The quick-stop dwell: disable on confirmed zero velocity or on time-out. *)
Definition dwell (o : SafetyOptions) (now_ns velocity : Z) (entered : bool)
    (st : AxisSafetyState) : AxisSafetyState * AxisRequest :=
  if entered then (st, quick_stop)
  else
    let magnitude := Z.abs velocity in
    let st := set_zero_cycles st
      (if magnitude <=? so_zero_velocity_threshold_counts o
       then u32 (ss_zero_velocity_cycles st + 1) else 0) in
    let confirmed_zero :=
      so_zero_velocity_confirmation_cycles o <=? ss_zero_velocity_cycles st in
    let timed_out :=
      (ss_stop_started_ns st <=? now_ns) &&
      (so_safe_stop_timeout o <=? now_ns - ss_stop_started_ns st) in
    if confirmed_zero || timed_out then (set_phase st disabled, disable) else (st, quick_stop).

(** One iteration of the last axis loop: the new axis state and the decision. *)
Definition settle (s : SafetySupervisor) (pdo : Cia402PdoView) (now_ns : Z) (m : mark)
    (requested : AxisRequest) (st : AxisSafetyState) : AxisSafetyState * AxisRequest :=
  let o := sv_options s in
  let resettable := resettable_fault (StateMachine.decode (status_word pdo)) in
  let reset := resettable && bool_decide (requested = fault_reset) in
  let reset_edge := reset && negb (ss_fault_reset_output_active st) in
  let fault_reset_allowed :=
    reset && (m.2 =? 0) &&
    (negb reset_edge || (ss_fault_reset_edges st <? so_maximum_fault_resets o)) in
  let '(st, entered) := stop_or_restart s now_ns m.1 requested st in
  if fault_reset_allowed
  then
    (set_reset_output st true
       (if reset_edge && (ss_fault_reset_edges st <? uint32_max)
        then ss_fault_reset_edges st + 1 else ss_fault_reset_edges st), fault_reset)
  else
    let st := set_reset_output st false (ss_fault_reset_edges st) in
    match ss_phase st with
    | quick_stopping => dwell o now_ns (actual_velocity pdo) entered st
    | disabled => (st, disable)
    | running =>
        (st, match requested with fault_reset => disable | _ => requested end)
    end.

(** What the last loop leaves for one axis. *)
Record Outcome := mkOutcome {
  oc_state : AxisSafetyState;
  oc_decision : AxisRequest;
  oc_command : AxisCommand;
  oc_flags : Z }.

Definition outcome (s : SafetySupervisor) (pdos : list Cia402PdoView) (now_ns : Z) (axis : nat)
    (a : Assessment) (m : mark) : Outcome :=
  let '(st, decision) :=
    settle s (pdo_at pdos axis) now_ns m (requested_at s axis) (as_state a) in
  let st :=
    set_last_target st
      (match decision with
       | enable => te_staged (as_target a)
       | _ => te_actual (as_target a)
       end) (ss_has_last_target st) in
  mkOutcome st decision
    (mkAxisCommand (sv_last_command_sequence s) (sv_last_command_timestamp_ns s)
       (ac_target (command_at s axis)) (flags_for_request decision) 0)
    m.2.

Definition outcomes (s : SafetySupervisor) (bus : SafetyBusState) (pdos : list Cia402PdoView)
    (now_ns wkc_failures : Z) : list Outcome :=
  let n := sv_axis_count s in
  let assessed := map (assess s bus pdos now_ns wkc_failures) (seq 0 n) in
  let marks := propagate s assessed in
  zip_with (fun axis am => outcome s pdos now_ns axis am.1 am.2) (seq 0 n) (zip assessed marks).

(** A fixed array whose first elements are [xs]. *)
Definition array_of {A} (zero : A) (xs : list A) : list A :=
  xs ++ replicate (max_axes - length xs) zero.

(** The output of an evaluation whose process data does not fit the configuration. *)
Definition refused_evaluation (s : SafetySupervisor) : SafetyEvaluation :=
  let n := sv_axis_count s in
  mkSafetyEvaluation
    (array_of AxisCommand_zero (replicate n (mkAxisCommand 0 0 fzero kAxisCommandQuickStop 0)))
    (array_of disable (replicate n quick_stop))
    (array_of 0 (replicate n kAxisFeedbackSafetyProcessData))
    (Z.of_nat n) false.

Definition evaluate (s : SafetySupervisor) (bus : SafetyBusState) (pdos : list Cia402PdoView)
    (now_ns : Z) : SafetySupervisor * SafetyEvaluation :=
  let n := sv_axis_count s in
  if negb (sv_configured s) || negb (Nat.eqb (length pdos) n)
  then
    (mkSafetySupervisor (sv_options s) (sv_configs s) (sv_states s) (sv_commands s)
       (replicate n quick_stop ++ drop n (sv_last_requests s)) n
       (sv_consecutive_wkc_failures s) (sv_last_command_sequence s)
       (sv_last_command_timestamp_ns s) (sv_configured s) (sv_has_command s)
       (sv_commands_valid s) (sv_shutdown_requested s) (sv_shutdown_complete s),
     refused_evaluation s)
  else
    let failures := next_wkc_failures s bus in
    let outs := outcomes s bus pdos now_ns failures in
    let all_disabled :=
      forallb (fun o => bool_decide (oc_decision o = disable)) outs in
    let complete := sv_shutdown_requested s && all_disabled in
    (mkSafetySupervisor (sv_options s) (sv_configs s)
       (map oc_state outs ++ drop n (sv_states s)) (sv_commands s)
       (map oc_decision outs ++ drop n (sv_last_requests s)) n failures
       (sv_last_command_sequence s) (sv_last_command_timestamp_ns s) (sv_configured s)
       (sv_has_command s) (sv_commands_valid s) (sv_shutdown_requested s) complete,
     mkSafetyEvaluation
       (array_of AxisCommand_zero (map oc_command outs))
       (array_of disable (map oc_decision outs))
       (array_of 0 (map oc_flags outs)) (Z.of_nat n) complete).

Definition axis_request (s : SafetySupervisor) (axis_index : nat) : AxisRequest :=
  if (axis_index <? sv_axis_count s)%nat
  then default disable (sv_last_requests s !! axis_index) else disable.

(** ** Facts: flags and assessments *)

Lemma flag_if_zero b mask r : mask <> 0 -> flag_if b mask r = 0 <-> b = false /\ r = 0.
Proof.
  intros Hm. unfold flag_if. destruct b; [|tauto]. rewrite Z.lor_eq_0_iff.
  split; [intros [_ ?]; contradiction | intros [? _]; discriminate].
Qed.

(** Every condition of the code that stops an axis is absent. *)
Record axis_clear (s : SafetySupervisor) (bus : SafetyBusState) (pdos : list Cia402PdoView)
    (now_ns wkc_failures : Z) (axis : nat) : Prop := {
  clear_fresh : command_timed_out s axis now_ns = false;
  clear_valid : sv_commands_valid s = true;
  clear_external :
    has_flag (sb_external_stop_axes_mask bus) (Z.shiftl 1 (Z.of_nat axis)) = false;
  clear_link : sb_link_up bus = true;
  clear_wkc : wkc_failures < so_consecutive_wkc_limit (sv_options s);
  clear_process_data : invalid_process_data bus = false;
  clear_operational : axis_operational bus axis = true;
  clear_mode : mode_display (pdo_at pdos axis) = mode_value (asc_mode (config_at s axis));
  clear_following :
    te_following_error
      (evaluate_target (config_at s axis) (state_at s axis) (command_at s axis)
         (pdo_at pdos axis)).2 = false;
  clear_fault :
    drive_fault (StateMachine.decode (status_word (pdo_at pdos axis))) = true ->
    resettable_fault (StateMachine.decode (status_word (pdo_at pdos axis))) = true /\
    requested_at s axis = fault_reset;
  clear_shutdown : sv_shutdown_requested s = false }.

Lemma assess_clear s bus pdos now_ns f axis :
  as_reasons (assess s bus pdos now_ns f axis) = 0 -> axis_clear s bus pdos now_ns f axis.
Proof.
  unfold assess.
  destruct (evaluate_target _ _ _ _) as [st target] eqn:Et. cbn [as_reasons].
  rewrite !flag_if_zero by (vm_compute; discriminate).
  intros H. decompose [and] H. clear H. split; try done.
  - by apply negb_false_iff.
  - by apply negb_false_iff.
  - by apply Z.leb_gt.
  - by apply negb_false_iff.
  - by b2p.
  - by rewrite Et.
  - intros Hd. match goal with H : drive_fault _ && _ = false |- _ => rewrite Hd in H; cbn in H end.
    b2p. by split.
Qed.

Lemma assess_trigger s bus pdos now_ns f axis :
  as_trigger (assess s bus pdos now_ns f axis) = false ->
  requested_at s axis <> quick_stop /\ as_reasons (assess s bus pdos now_ns f axis) = 0.
Proof.
  unfold assess. destruct (evaluate_target _ _ _ _) as [st target].
  cbn [as_trigger as_reasons]. intros H. b2p. auto.
Qed.

Lemma assess_candidate s bus pdos now_ns f axis :
  as_candidate (assess s bus pdos now_ns f axis) = true ->
  requested_at s axis = fault_reset /\
  StateMachine.decode (status_word (pdo_at pdos axis)) = fault /\
  as_reasons (assess s bus pdos now_ns f axis) = 0.
Proof.
  unfold assess. destruct (evaluate_target _ _ _ _) as [st target].
  cbn [as_candidate as_reasons]. unfold resettable_fault. intros H. b2p. auto.
Qed.

(** ** Facts: propagation inside a safety group *)

(** [m'] is [m], or [m] stopped by a group peer. *)
Definition mark_le (m m' : mark) : Prop :=
  m' = m \/ (m'.1 = true /\ m'.2 <> 0).

Lemma lor_nonzero_r a b : b <> 0 -> Z.lor a b <> 0.
Proof. rewrite Z.lor_eq_0_iff. tauto. Qed.

Lemma mark_group_le m : mark_le m (true, Z.lor m.2 kAxisFeedbackSafetyGroup).
Proof. right. split; [done|]. apply lor_nonzero_r. vm_compute. discriminate. Qed.

Lemma mark_le_trans m1 m2 m3 : mark_le m1 m2 -> mark_le m2 m3 -> mark_le m1 m3.
Proof. unfold mark_le. intros [->|?] [->|?]; auto. Qed.

Definition marks_le (ms ms' : list mark) : Prop := Forall2 mark_le ms ms'.

Lemma marks_le_refl ms : marks_le ms ms.
Proof. apply Forall_Forall2_diag, Forall_forall. by left. Qed.

Lemma marks_le_trans ms1 ms2 ms3 : marks_le ms1 ms2 -> marks_le ms2 ms3 -> marks_le ms1 ms3.
Proof. apply Forall2_trans. exact mark_le_trans. Qed.

Lemma imap_marks_le (p : nat -> mark -> bool) ms :
  marks_le ms (imap (fun i m => if p i m then (true, Z.lor m.2 kAxisFeedbackSafetyGroup) else m) ms).
Proof.
  revert p. induction ms as [|m ms IH]; intros p; cbn; constructor; [|apply IH].
  case_match; [apply mark_group_le | by left].
Qed.

Lemma spread_stop_le s ms source : marks_le ms (spread_stop s ms source).
Proof.
  unfold spread_stop. case_match; [|apply marks_le_refl].
  apply (imap_marks_le (fun member _ => _ && _)).
Qed.

Lemma spread_reset_le s cs ms source : marks_le ms (spread_reset s cs ms source).
Proof.
  unfold spread_reset. case_match; [|apply marks_le_refl].
  apply (imap_marks_le (fun member _ => _ && _)).
Qed.

Lemma fold_marks_le (f : list mark -> nat -> list mark) :
  (forall ms i, marks_le ms (f ms i)) ->
  forall sources ms, marks_le ms (fold_left f sources ms).
Proof.
  intros Hf sources. induction sources as [|i sources IH]; intros ms; cbn.
  - apply marks_le_refl.
  - eapply marks_le_trans; [apply Hf | apply IH].
Qed.

Lemma marks_le_lookup ms ms' i m :
  marks_le ms ms' -> ms !! i = Some m -> exists m', ms' !! i = Some m' /\ mark_le m m'.
Proof. intros H Hi. by apply (Forall2_lookup_l _ _ _ _ _ H Hi). Qed.

(** A fold over all sources runs the step of any one of them on marks between the
    initial and the final ones. *)
Lemma fold_marks_source (f : list mark -> nat -> list mark) sources ms k :
  (forall ms i, marks_le ms (f ms i)) -> In k sources ->
  exists ms1, marks_le ms ms1 /\ marks_le (f ms1 k) (fold_left f sources ms).
Proof.
  intros Hf. revert ms. induction sources as [|i sources IH]; intros ms; cbn; [done|].
  intros [->|Hk].
  - exists ms. split; [apply marks_le_refl|]. by apply fold_marks_le.
  - destruct (IH (f ms i) Hk) as (ms1 & H1 & H2). exists ms1. split; [|done].
    eapply marks_le_trans; [apply Hf|done].
Qed.

Lemma propagate_le s assessed :
  marks_le (map (fun a => (as_trigger a, as_reasons a)) assessed) (propagate s assessed).
Proof.
  unfold propagate. eapply marks_le_trans.
  - apply fold_marks_le. apply spread_stop_le.
  - apply fold_marks_le. apply spread_reset_le.
Qed.

Lemma propagate_length s assessed : length (propagate s assessed) = length assessed.
Proof.
  rewrite <- (Forall2_length _ _ _ (propagate_le s assessed)). apply length_map.
Qed.

(** A triggered axis stops every member of its group. *)
Lemma propagate_stop s assessed i j a m :
  assessed !! j = Some a -> as_trigger a = true ->
  propagate s assessed !! i = Some m -> group_at s i = group_at s j ->
  m.1 = true /\ (i <> j -> m.2 <> 0).
Proof.
  intros Ha Ht Hm Hg.
  set (ms0 := map (fun a => (as_trigger a, as_reasons a)) assessed).
  assert (ms0 !! j = Some (true, as_reasons a)) as Hj
    by (unfold ms0; rewrite list_lookup_fmap, Ha; cbn; by rewrite Ht).
  assert (j < length assessed)%nat by (by eapply lookup_lt_Some).
  destruct (fold_marks_source (spread_stop s) (seq 0 (length assessed)) ms0 j)
    as (ms1 & H1 & H2); [apply spread_stop_le | apply in_seq; lia |].
  set (ms2 := fold_left (spread_stop s) (seq 0 (length assessed)) ms0) in *.
  assert (marks_le ms2 (propagate s assessed)) as H3
    by (apply fold_marks_le; apply spread_reset_le).
  destruct (marks_le_lookup _ _ _ _ H1 Hj) as (mj & Hmj & Hle).
  assert (mj.1 = true) as Hmjt by (destruct Hle as [->|[? _]]; done).
  assert (length ms1 = length assessed) as Hl1.
  { rewrite <- (Forall2_length _ _ _ H1). unfold ms0. apply length_map. }
  destruct (decide (i = j)) as [->|Hne].
  - split; [|done].
    assert (marks_le ms1 (propagate s assessed)) as H4
      by (eapply marks_le_trans; [apply spread_stop_le|]; eapply marks_le_trans; eassumption).
    destruct (marks_le_lookup _ _ _ _ H4 Hmj) as (m' & Hm' & Hle').
    assert (m' = m) as -> by congruence. destruct Hle' as [->|[? _]]; done.
  - assert (exists m1, spread_stop s ms1 j !! i = Some m1 /\ m1.1 = true /\ m1.2 <> 0)
      as (m1 & Hm1 & Ht1 & Hn1).
    { unfold spread_stop. rewrite Hmj. cbn. rewrite Hmjt.
      destruct (lookup_lt_is_Some_2 ms1 i) as [mi Hmi].
      { rewrite Hl1, <- (propagate_length s). by eapply lookup_lt_Some. }
      exists (true, Z.lor mi.2 kAxisFeedbackSafetyGroup).
      rewrite list_lookup_imap, Hmi. cbn.
      rewrite (proj2 (Nat.eqb_neq i j) Hne), Hg, Z.eqb_refl. cbn.
      split_and!; [done..|]. apply lor_nonzero_r. vm_compute. discriminate. }
    destruct (marks_le_lookup _ _ _ _ (marks_le_trans _ _ _ H2 H3) Hm1) as (m' & Hm' & Hle').
    assert (m' = m) as -> by congruence. destruct Hle' as [->|[??]]; done.
Qed.

(** A reset candidate stops every other member that is not one. *)
Lemma propagate_reset s assessed i j a b m :
  assessed !! j = Some a -> as_candidate a = true ->
  assessed !! i = Some b -> as_candidate b = false ->
  propagate s assessed !! i = Some m -> group_at s i = group_at s j ->
  m.1 = true /\ m.2 <> 0.
Proof.
  intros Ha Hc Hb Hcb Hm Hg.
  set (cs := map as_candidate assessed).
  assert (cs !! j = Some true) as Hj by (unfold cs; by rewrite list_lookup_fmap, Ha, <- Hc).
  assert (cs !! i = Some false) as Hi by (unfold cs; by rewrite list_lookup_fmap, Hb, <- Hcb).
  assert (i <> j) as Hne by congruence.
  assert (j < length assessed)%nat by (by eapply lookup_lt_Some).
  unfold propagate in Hm. fold cs in Hm.
  set (ms2 := fold_left (spread_stop s) _ _) in Hm.
  destruct (fold_marks_source (spread_reset s cs) (seq 0 (length assessed)) ms2 j)
    as (ms1 & H1 & H2); [apply spread_reset_le | apply in_seq; lia |].
  assert (length ms1 = length assessed) as Hl1.
  { rewrite <- (Forall2_length _ _ _ H1).
    unfold ms2. rewrite <- (Forall2_length _ _ _ (fold_marks_le _ (spread_stop_le s) _ _)).
    apply length_map. }
  destruct (lookup_lt_is_Some_2 ms1 i) as [mi Hmi].
  { rewrite Hl1. by eapply lookup_lt_Some. }
  assert (spread_reset s cs ms1 j !! i = Some (true, Z.lor mi.2 kAxisFeedbackSafetyGroup)) as Hm1.
  { unfold spread_reset. rewrite Hj. cbn.
    rewrite list_lookup_imap, Hmi. cbn.
    by rewrite (proj2 (Nat.eqb_neq i j) Hne), Hi, Hg, Z.eqb_refl. }
  destruct (marks_le_lookup _ _ _ _ H2 Hm1) as (m' & Hm' & Hle').
  assert (m' = m) as -> by congruence. destruct Hle' as [Heq|Hmm]; [subst m|exact Hmm]. split; [done|].
  apply lor_nonzero_r. vm_compute. discriminate.
Qed.

(** ** Facts: outcomes *)

Lemma outcomes_lookup s bus pdos now_ns f i o :
  outcomes s bus pdos now_ns f !! i = Some o ->
  (i < sv_axis_count s)%nat /\
  exists m,
    propagate s (map (assess s bus pdos now_ns f) (seq 0 (sv_axis_count s))) !! i = Some m /\
    o = outcome s pdos now_ns i (assess s bus pdos now_ns f i) m.
Proof.
  unfold outcomes. rewrite lookup_zip_with_Some.
  intros (axis & [a m] & -> & Hs & Hz). apply lookup_seq in Hs as [-> Hi].
  split; [exact Hi|]. rewrite lookup_zip_Some in Hz. destruct Hz as [Ha Hm].
  exists m. split; [exact Hm|].
  rewrite list_lookup_fmap, lookup_seq_lt in Ha by exact Hi. by simplify_eq/=.
Qed.

Lemma outcomes_length s bus pdos now_ns f :
  length (outcomes s bus pdos now_ns f) = sv_axis_count s.
Proof.
  unfold outcomes. rewrite length_zip_with, length_zip, propagate_length, length_map, length_seq.
  lia.
Qed.

Lemma assessed_lookup s bus pdos now_ns f i :
  (i < sv_axis_count s)%nat ->
  map (assess s bus pdos now_ns f) (seq 0 (sv_axis_count s)) !! i =
  Some (assess s bus pdos now_ns f i).
Proof. intros Hi. by rewrite list_lookup_fmap, lookup_seq_lt. Qed.

Lemma array_of_lookup {A} (zero : A) xs i x :
  (i < length xs)%nat -> array_of zero xs !! i = Some x <-> xs !! i = Some x.
Proof. intros Hi. unfold array_of. by rewrite lookup_app_l. Qed.

(** The decision of [settle]. *)
Lemma settle_enable s pdo now_ns m rq st st' :
  settle s pdo now_ns m rq st = (st', enable) ->
  rq = enable /\ m.1 = false /\ ss_phase st' = running.
Proof.
  unfold settle, stop_or_restart, dwell. destruct m as [t r]; cbn [fst snd].
  destruct t; cbn [negb andb]; intros H; case_all.
  all: b2p; try (by destruct rq); case_all; try (by destruct rq).
  all: repeat match goal with H : context [bool_decide _] |- _ => case_bool_decide end.
  all: simplify_eq/=; congruence.
Qed.

Lemma assess_fault_candidate s bus pdos now_ns f axis :
  as_reasons (assess s bus pdos now_ns f axis) = 0 ->
  drive_fault (StateMachine.decode (status_word (pdo_at pdos axis))) = true ->
  as_candidate (assess s bus pdos now_ns f axis) = true.
Proof.
  unfold assess. destruct (evaluate_target _ _ _ _) as [st target].
  cbn [as_reasons as_candidate]. intros H Hd.
  rewrite (proj2 (Z.eqb_eq _ _) H), andb_true_r.
  rewrite !flag_if_zero in H by (vm_compute; discriminate). rewrite Hd in H.
  destruct H as (_ & _ & H & _). cbn in H.
  apply orb_false_iff in H as [[H1 H2]%orb_false_iff H3].
  apply negb_false_iff in H1, H2, H3. by rewrite H3, H1, H2.
Qed.

Lemma evaluate_requests s bus pdos now_ns i rq :
  se_requests (evaluate s bus pdos now_ns).2 !! i = Some rq -> rq = enable \/ rq = fault_reset ->
  sv_configured s = true /\ length pdos = sv_axis_count s /\
  exists o, outcomes s bus pdos now_ns (next_wkc_failures s bus) !! i = Some o /\
    oc_decision o = rq.
Proof.
  unfold evaluate. destruct (negb (sv_configured s) || _) eqn:E; cbn.
  - intros H Hrq. exfalso. apply list_elem_of_lookup_2 in H.
    unfold array_of in H. rewrite elem_of_app, !elem_of_replicate in H.
    destruct H as [[-> _]|[-> _]]; destruct Hrq; discriminate.
  - intros H Hrq. b2p.
    match goal with H : (length pdos =? _)%nat = true |- _ => apply Nat.eqb_eq in H end.
    split_and!; [done..|]. unfold array_of in H. apply lookup_app_Some in H as [H|[_ H]].
    + rewrite list_lookup_fmap, fmap_Some in H. naive_solver.
    + apply lookup_replicate in H as [-> _]. destruct Hrq; discriminate.
Qed.

(** ** Facts: the state after an evaluation *)

Definition evaluable (s : SafetySupervisor) (pdos : list Cia402PdoView) : bool :=
  sv_configured s && Nat.eqb (length pdos) (sv_axis_count s).

Lemma evaluable_spec s pdos :
  negb (sv_configured s) || negb (Nat.eqb (length pdos) (sv_axis_count s)) =
  negb (evaluable s pdos).
Proof. unfold evaluable. by rewrite negb_andb. Qed.

Lemma evaluate_state_at s bus pdos now_ns i :
  (i < sv_axis_count s)%nat ->
  let s' := (evaluate s bus pdos now_ns).1 in
  if evaluable s pdos
  then
    exists m,
      propagate s (map (assess s bus pdos now_ns (next_wkc_failures s bus))
        (seq 0 (sv_axis_count s))) !! i = Some m /\
      let o := outcome s pdos now_ns i (assess s bus pdos now_ns (next_wkc_failures s bus) i) m in
      state_at s' i = oc_state o /\ axis_request s' i = oc_decision o
  else state_at s' i = state_at s i /\ axis_request s' i = quick_stop.
Proof.
  intros Hi. unfold evaluate. rewrite evaluable_spec. destruct (evaluable s pdos); cbn [negb].
  - set (f := next_wkc_failures s bus).
    destruct (lookup_lt_is_Some_2 (outcomes s bus pdos now_ns f) i) as [o Ho];
      [by rewrite outcomes_length|].
    destruct (outcomes_lookup _ _ _ _ _ _ _ Ho) as (_ & m & Hm & Heq).
    exists m. split; [exact Hm|]. unfold state_at, axis_request. cbn -[Nat.ltb].
    rewrite !lookup_app_l by (by rewrite length_map, outcomes_length).
    rewrite !list_lookup_fmap, Ho, (proj2 (Nat.ltb_lt _ _) Hi). cbn. by rewrite Heq.
  - unfold state_at, axis_request. cbn -[Nat.ltb]. split; [done|].
    rewrite (proj2 (Nat.ltb_lt _ _) Hi), lookup_app_l by (by rewrite length_replicate).
    by rewrite lookup_replicate_2.
Qed.

Lemma evaluate_frame s bus pdos now_ns :
  let s' := (evaluate s bus pdos now_ns).1 in
  sv_options s' = sv_options s /\ sv_configs s' = sv_configs s /\
  sv_axis_count s' = sv_axis_count s /\ sv_configured s' = sv_configured s /\
  sv_last_command_sequence s' = sv_last_command_sequence s /\
  sv_last_command_timestamp_ns s' = sv_last_command_timestamp_ns s /\
  sv_has_command s' = sv_has_command s /\ sv_commands s' = sv_commands s /\
  sv_shutdown_requested s' = sv_shutdown_requested s.
Proof. unfold evaluate. cbn. by case_match. Qed.

(** [assess] only touches the target and fault-episode members of the state. *)
Lemma assess_state s bus pdos now_ns f axis :
  let st := state_at s axis in
  let st' := as_state (assess s bus pdos now_ns f axis) in
  ss_phase st' = ss_phase st /\ ss_stop_started_ns st' = ss_stop_started_ns st /\
  ss_zero_velocity_cycles st' = ss_zero_velocity_cycles st /\
  ss_stopped_command_sequence st' = ss_stopped_command_sequence st.
Proof.
  unfold assess, evaluate_target, track_fault_episode, set_fault_episode, set_last_target.
  cbn zeta. repeat case_match; simplify_eq/=; auto.
Qed.

(** A stopped axis stays stopped, or restarts for a newer enable command. *)
Lemma settle_stopped s pdo now_ns m rq st st' d :
  settle s pdo now_ns m rq st = (st', d) -> ss_phase st <> running ->
  (ss_phase st' <> running /\ d <> enable /\
   ss_stopped_command_sequence st' = ss_stopped_command_sequence st) \/
  (m.1 = false /\ rq = enable /\
   ss_stopped_command_sequence st < sv_last_command_sequence s).
Proof.
  unfold settle, stop_or_restart, dwell. intros H Hp.
  destruct (bool_decide (ss_phase st = running)) eqn:E1; [b2p; contradiction|].
  rewrite andb_false_r in H.
  destruct (negb m.1 && bool_decide (ss_phase st = disabled) && sv_has_command s &&
    (ss_stopped_command_sequence st <? sv_last_command_sequence s) &&
    bool_decide (rq = enable)) eqn:E2.
  - right. b2p. auto.
  - left. case_all; split_and!; cbn in *; congruence.
Qed.

(** A triggered axis does not run. *)
Lemma settle_triggered s pdo now_ns m rq st st' d :
  settle s pdo now_ns m rq st = (st', d) -> m.1 = true ->
  ss_phase st' <> running /\ d <> enable.
Proof.
  unfold settle, stop_or_restart, dwell. intros H Hm. rewrite Hm in H. cbn [negb andb] in H.
  destruct (bool_decide (ss_phase st = running)) eqn:E1; b2p; case_all; split; cbn in *; congruence.
Qed.

(** ** Runs of the supervisor *)

(** The calls the daemon makes after configuration. *)
Inductive op :=
  | op_accept (snapshot : Snapshot AxisCommand) (now_ns : Z)
  | op_shutdown (now_ns : Z)
  | op_evaluate (bus : SafetyBusState) (pdos : list Cia402PdoView) (now_ns : Z).

Definition step (s : SafetySupervisor) (o : op) : SafetySupervisor :=
  match o with
  | op_accept snapshot now_ns => (accept_commands s snapshot now_ns).1
  | op_shutdown now_ns => request_shutdown s now_ns
  | op_evaluate bus pdos now_ns => (evaluate s bus pdos now_ns).1
  end.

Definition run_ops (s : SafetySupervisor) (ops : list op) : SafetySupervisor :=
  fold_left step ops s.

(** Sequence numbers are unsigned. *)
Definition op_ok (o : op) : Prop :=
  match o with op_accept snapshot _ => 0 <= sn_sequence snapshot | _ => True end.

Definition phase_at (s : SafetySupervisor) (i : nat) : StopPhase := ss_phase (state_at s i).

Record wf (s : SafetySupervisor) : Prop := {
  wf_no_command : sv_has_command s = false -> sv_last_command_sequence s = 0;
  wf_sequence : 0 <= sv_last_command_sequence s;
  wf_stopped : forall i, (i < sv_axis_count s)%nat ->
    phase_at s i <> running -> axis_request s i <> enable }.

Lemma accept_frame s snapshot now_ns :
  let s' := (accept_commands s snapshot now_ns).1 in
  sv_options s' = sv_options s /\ sv_configs s' = sv_configs s /\
  sv_states s' = sv_states s /\ sv_last_requests s' = sv_last_requests s /\
  sv_axis_count s' = sv_axis_count s /\ sv_configured s' = sv_configured s /\
  sv_shutdown_requested s' = sv_shutdown_requested s.
Proof. unfold accept_commands. cbn. repeat case_match; auto 10. Qed.

Lemma accept_sequence s snapshot now_ns :
  wf s -> 0 <= sn_sequence snapshot ->
  let s' := (accept_commands s snapshot now_ns).1 in
  sv_last_command_sequence s <= sv_last_command_sequence s' /\
  (sv_has_command s' = false -> sv_last_command_sequence s' = 0).
Proof.
  intros [Hn Hs _] H0. unfold accept_commands.
  destruct (negb (valid_snapshot s snapshot now_ns)); [split; [cbn; lia|exact Hn]|].
  destruct (sv_has_command s) eqn:Eh; cbn [andb].
  - destruct (_ || _) eqn:E; [split; [cbn; lia|cbn; congruence]|]. b2p.
    destruct (sn_sequence snapshot =? _) eqn:E2.
    + case_match; split; cbn; try lia; congruence.
    + split; cbn; [lia|discriminate].
  - rewrite Hn by done. split; cbn; [lia|discriminate].
Qed.

Lemma step_frame s o :
  sv_axis_count (step s o) = sv_axis_count s /\ sv_configured (step s o) = sv_configured s /\
  sv_options (step s o) = sv_options s /\ sv_configs (step s o) = sv_configs s.
Proof.
  destruct o as [sn t|t|bus pdos t]; cbn.
  - pose proof (accept_frame s sn t) as H. cbn in H. tauto.
  - unfold request_shutdown. by case_match.
  - pose proof (evaluate_frame s bus pdos t) as H. cbn in H. tauto.
Qed.

Lemma step_sequence s o :
  wf s -> op_ok o -> sv_last_command_sequence s <= sv_last_command_sequence (step s o).
Proof.
  intros Hw Ho. destruct o as [sn t|t|bus pdos t]; cbn.
  - by apply accept_sequence.
  - unfold request_shutdown. case_match; cbn; lia.
  - pose proof (evaluate_frame s bus pdos t) as H. cbn in H.
    destruct H as (_ & _ & _ & _ & -> & _). lia.
Qed.

(** What an evaluation does to a stopped or stopping axis. *)
Lemma evaluate_phase s bus pdos now_ns i :
  (i < sv_axis_count s)%nat ->
  let s' := (evaluate s bus pdos now_ns).1 in
  (phase_at s' i <> running -> axis_request s' i <> enable) /\
  (phase_at s i <> running ->
   (phase_at s' i <> running /\
    ss_stopped_command_sequence (state_at s' i) = ss_stopped_command_sequence (state_at s i)) \/
   ss_stopped_command_sequence (state_at s i) < sv_last_command_sequence s).
Proof.
  intros Hi s'. pose proof (evaluate_state_at s bus pdos now_ns i Hi) as H. cbn in H. fold s' in H.
  unfold phase_at. destruct (evaluable s pdos).
  - destruct H as (m & _ & Hst & Hrq). rewrite Hst, Hrq. unfold outcome.
    set (a := assess s bus pdos now_ns (next_wkc_failures s bus) i).
    destruct (settle _ _ _ _ _ _) as [st d] eqn:Es. cbn.
    pose proof (assess_state s bus pdos now_ns (next_wkc_failures s bus) i) as Ha.
    cbn in Ha. fold a in Ha. destruct Ha as (Hp & _ & _ & Hq). split.
    + intros Hne Hd. subst d. by apply settle_enable in Es as (_ & _ & ?).
    + rewrite <- Hp, <- Hq. intros Hne.
      destruct (settle_stopped _ _ _ _ _ _ _ _ Es Hne) as [(?&?&?)|(?&?&?)]; auto.
  - destruct H as [-> ->]. auto.
Qed.

Lemma step_wf s o : wf s -> op_ok o -> wf (step s o).
Proof.
  intros Hw Ho. pose proof (step_sequence s o Hw Ho) as Hmono.
  pose proof (step_frame s o) as [Hn _]. destruct Hw as [H1 H2 H3].
  destruct o as [sn t|t|bus pdos t].
  - pose proof (accept_sequence s sn t ltac:(by split) Ho) as Hq.
    pose proof (accept_frame s sn t) as Hf.
    split; [apply Hq|lia|]. intros i Hi. rewrite Hn in Hi.
    unfold phase_at, state_at, axis_request. rewrite Hn. cbn [step].
    replace (sv_states (accept_commands s sn t).1) with (sv_states s) by (symmetry; apply Hf).
    replace (sv_last_requests (accept_commands s sn t).1) with (sv_last_requests s)
      by (symmetry; apply Hf).
    by apply H3.
  - cbn. unfold request_shutdown. case_match; by split.
  - pose proof (evaluate_frame s bus pdos t) as Hf. cbn in Hf.
    split; [|cbn in *; lia|].
    + cbn. destruct Hf as (_ & _ & _ & _ & -> & _ & -> & _). exact H1.
    + intros i Hi. rewrite Hn in Hi. by apply evaluate_phase.
Qed.

Lemma run_ops_wf s ops : wf s -> Forall op_ok ops -> wf (run_ops s ops).
Proof.
  intros Hw Ho. revert s Hw. induction Ho as [|o ops Ho Hos IH]; intros s Hw; [done|].
  cbn. apply IH. by apply step_wf.
Qed.

Lemma run_ops_sequence s ops :
  wf s -> Forall op_ok ops ->
  sv_last_command_sequence s <= sv_last_command_sequence (run_ops s ops).
Proof.
  intros Hw Ho. revert s Hw. induction Ho as [|o ops Ho Hos IH]; intros s Hw; cbn; [lia|].
  etrans; [by apply step_sequence|]. apply IH. by apply step_wf.
Qed.

Lemma step_stopped s o i :
  wf s -> op_ok o -> (i < sv_axis_count s)%nat -> phase_at s i <> running ->
  sv_last_command_sequence (step s o) <= ss_stopped_command_sequence (state_at s i) ->
  phase_at (step s o) i <> running /\
  ss_stopped_command_sequence (state_at (step s o) i) =
    ss_stopped_command_sequence (state_at s i).
Proof.
  intros Hw Ho Hi Hp Hs. pose proof (step_sequence s o Hw Ho) as Hmono.
  destruct o as [sn t|t|bus pdos t]; cbn [step] in *.
  - unfold phase_at, state_at in *.
    replace (sv_states (accept_commands s sn t).1) with (sv_states s)
      by (symmetry; apply accept_frame). done.
  - unfold request_shutdown. by case_match.
  - destruct (evaluate_phase s bus pdos t i Hi) as [_ H]. specialize (H Hp).
    destruct H as [H|H]; [exact H|lia].
Qed.

(** ** Facts: shutdown *)

Lemma assess_shutdown s bus pdos now_ns f axis :
  sv_shutdown_requested s = true ->
  as_reasons (assess s bus pdos now_ns f axis) <> 0 /\
  as_trigger (assess s bus pdos now_ns f axis) = true.
Proof.
  intros Hs. assert (as_reasons (assess s bus pdos now_ns f axis) <> 0) as Hr.
  { intros H. apply assess_clear in H as []. congruence. }
  split; [exact Hr|].
  destruct (as_trigger _) eqn:E; [done|]. apply assess_trigger in E as [_ E]. contradiction.
Qed.

Lemma propagate_own s bus pdos now_ns f i m :
  propagate s (map (assess s bus pdos now_ns f) (seq 0 (sv_axis_count s))) !! i = Some m ->
  (i < sv_axis_count s)%nat ->
  mark_le (as_trigger (assess s bus pdos now_ns f i), as_reasons (assess s bus pdos now_ns f i)) m.
Proof.
  intros Hm Hi.
  destruct (marks_le_lookup _ _ i
    (as_trigger (assess s bus pdos now_ns f i), as_reasons (assess s bus pdos now_ns f i))
    (propagate_le s (map (assess s bus pdos now_ns f) (seq 0 (sv_axis_count s)))))
    as (m' & Hm' & Hle).
  { by rewrite list_lookup_fmap, assessed_lookup. }
  by assert (m' = m) as -> by congruence.
Qed.

Lemma settle_stopping s pdo now_ns m rq st st' d :
  settle s pdo now_ns m rq st = (st', d) -> m.1 = true -> m.2 <> 0 ->
  (ss_phase st' = disabled /\ d = disable) \/
  (ss_phase st' = quick_stopping /\ d = quick_stop /\
   ((ss_phase st = running /\ ss_stop_started_ns st' = now_ns) \/
    (ss_phase st = quick_stopping /\ ss_stop_started_ns st' = ss_stop_started_ns st /\
     (ss_stop_started_ns st <= now_ns ->
      now_ns < ss_stop_started_ns st + so_safe_stop_timeout (sv_options s))))).
Proof.
  unfold settle, stop_or_restart, dwell. intros H Hm Hz. rewrite Hm in H. cbn [negb andb] in H.
  rewrite (proj2 (Z.eqb_neq _ _) Hz), andb_false_r in H. cbn [andb] in H.
  case_bool_decide as Hrun; cbn in H; [simplify_eq/=; right; auto|].
  destruct (ss_phase st) eqn:Ep; cbn in H; [done| |].
  - case_match eqn:E; simplify_eq/=; [by left|]. right. split_and!; try done. right.
    split_and!; try done. intros Hle. b2p.
    match goal with H : _ && _ = false |- _ => apply andb_false_iff in H as [?|?] end; b2p; lia.
  - simplify_eq/=. by left.
Qed.

Lemma evaluate_shutdown s bus pdos now_ns i :
  sv_shutdown_requested s = true -> evaluable s pdos = true -> (i < sv_axis_count s)%nat ->
  let s' := (evaluate s bus pdos now_ns).1 in
  (phase_at s' i = disabled /\ axis_request s' i = disable) \/
  (phase_at s' i = quick_stopping /\ axis_request s' i = quick_stop /\
   ((phase_at s i = running /\ ss_stop_started_ns (state_at s' i) = now_ns) \/
    (phase_at s i = quick_stopping /\
     ss_stop_started_ns (state_at s' i) = ss_stop_started_ns (state_at s i) /\
     (ss_stop_started_ns (state_at s i) <= now_ns ->
      now_ns < ss_stop_started_ns (state_at s i) + so_safe_stop_timeout (sv_options s))))).
Proof.
  intros Hs He Hi s'. pose proof (evaluate_state_at s bus pdos now_ns i Hi) as H. cbn in H.
  fold s' in H. rewrite He in H. destruct H as (m & Hm & Hst & Hrq).
  unfold phase_at. rewrite Hst, Hrq. unfold outcome.
  set (f := next_wkc_failures s bus) in *.
  pose proof (assess_state s bus pdos now_ns f i) as Ha. cbn in Ha.
  destruct Ha as (Hp & Hstart & _). rewrite <- Hp, <- Hstart.
  destruct (assess_shutdown s bus pdos now_ns f i Hs) as [Hr Ht].
  pose proof (propagate_own s bus pdos now_ns f i m Hm Hi) as Hle. rewrite Ht in Hle.
  assert (m.1 = true /\ m.2 <> 0) as [Hm1 Hm2] by (destruct Hle as [->|?]; [by split|done]).
  destruct (settle _ _ _ _ _ _) as [st d] eqn:Es. cbn.
  by apply settle_stopping in Es.
Qed.

(** A stop that goes on has started in this evaluation, or went on before. *)
Lemma settle_started s pdo now_ns m rq st st' d :
  settle s pdo now_ns m rq st = (st', d) -> ss_phase st' = quick_stopping ->
  ss_stop_started_ns st' = now_ns \/
  (ss_phase st = quick_stopping /\ ss_stop_started_ns st' = ss_stop_started_ns st).
Proof.
  unfold settle, stop_or_restart, dwell. intros H Hq. case_all.
  all: b2p; case_all; simplify_eq/=; auto; congruence.
Qed.

Lemma evaluate_started s bus pdos now_ns i :
  (i < sv_axis_count s)%nat ->
  let s' := (evaluate s bus pdos now_ns).1 in
  phase_at s' i = quick_stopping ->
  ss_stop_started_ns (state_at s' i) = now_ns \/
  (phase_at s i = quick_stopping /\
   ss_stop_started_ns (state_at s' i) = ss_stop_started_ns (state_at s i)).
Proof.
  intros Hi s'. pose proof (evaluate_state_at s bus pdos now_ns i Hi) as H. cbn in H. fold s' in H.
  destruct (evaluable s pdos) eqn:He.
  - destruct H as (m & Hm & Hst & _). unfold phase_at. rewrite Hst. unfold outcome.
    set (f := next_wkc_failures s bus) in *.
    pose proof (assess_state s bus pdos now_ns f i) as Ha. cbn in Ha.
    destruct Ha as (Hp & Hstart & _). rewrite <- Hp, <- Hstart.
    destruct (settle _ _ _ _ _ _) as [st d] eqn:Es. cbn. by eapply settle_started.
  - unfold phase_at. destruct H as [-> _]. by right.
Qed.

Lemma evaluate_output s bus pdos now_ns i :
  evaluable s pdos = true -> (i < sv_axis_count s)%nat ->
  let r := evaluate s bus pdos now_ns in
  se_requests r.2 !! i = Some (axis_request r.1 i).
Proof.
  intros He Hi. unfold evaluate. rewrite evaluable_spec, He. cbn -[Nat.ltb].
  unfold axis_request. cbn -[Nat.ltb]. rewrite (proj2 (Nat.ltb_lt _ _) Hi).
  assert (i < length (map oc_decision (outcomes s bus pdos now_ns (next_wkc_failures s bus))))%nat
    as Hl by by rewrite length_map, outcomes_length.
  apply array_of_lookup; [exact Hl|]. rewrite lookup_app_l by exact Hl.
  by destruct (lookup_lt_is_Some_2 _ _ Hl) as [x ->].
Qed.

Lemma evaluate_complete s bus pdos now_ns :
  sv_shutdown_requested s = true -> evaluable s pdos = true ->
  let r := evaluate s bus pdos now_ns in
  (forall i, (i < sv_axis_count s)%nat -> axis_request r.1 i = disable) ->
  se_shutdown_complete r.2 = true.
Proof.
  intros Hs He. unfold evaluate. rewrite evaluable_spec, He. cbn -[axis_request]. intros H.
  rewrite Hs. cbn [andb]. apply forallb_forall. intros o Ho.
  apply list_elem_of_In, list_elem_of_lookup_1 in Ho as [i Ho].
  assert (i < sv_axis_count s)%nat as Hi.
  { rewrite <- (outcomes_length s bus pdos now_ns (next_wkc_failures s bus)).
    by eapply lookup_lt_Some. }
  specialize (H i Hi). unfold axis_request in H. cbn -[Nat.ltb] in H.
  rewrite (proj2 (Nat.ltb_lt _ _) Hi) in H.
  rewrite lookup_app_l, list_lookup_fmap, Ho in H by (by rewrite length_map, outcomes_length).
  cbn in H. by apply bool_decide_eq_true.
Qed.

(** A shutdown is complete once every axis is disabled. *)
Lemma evaluate_completed s bus pdos now_ns :
  let r := evaluate s bus pdos now_ns in
  se_shutdown_complete r.2 = true ->
  evaluable s pdos = true /\
  forall i, (i < sv_axis_count s)%nat ->
    phase_at r.1 i = disabled /\ se_requests r.2 !! i = Some disable.
Proof.
  cbv zeta. intros H. assert (evaluable s pdos = true) as He.
  { revert H. unfold evaluate. rewrite evaluable_spec. by destruct (evaluable s pdos). }
  split; [exact He|]. intros i Hi. pose proof H as Hc. unfold evaluate in Hc.
  rewrite evaluable_spec, He in Hc. cbn in Hc. apply andb_true_iff in Hc as [Hs Hall].
  assert (axis_request (evaluate s bus pdos now_ns).1 i = disable) as Hr.
  { unfold evaluate. rewrite evaluable_spec, He. unfold axis_request. cbn -[Nat.ltb].
    rewrite (proj2 (Nat.ltb_lt _ _) Hi).
    destruct (lookup_lt_is_Some_2 (outcomes s bus pdos now_ns (next_wkc_failures s bus)) i) as [o Ho];
      [by rewrite outcomes_length|].
    rewrite lookup_app_l, list_lookup_fmap, Ho by (by rewrite length_map, outcomes_length). cbn.
    rewrite forallb_forall in Hall. apply (bool_decide_eq_true_1 (oc_decision o = disable)), Hall.
    apply list_elem_of_In. by eapply list_elem_of_lookup_2. }
  pose proof (evaluate_output s bus pdos now_ns i He Hi) as Ho. cbv zeta in Ho. rewrite Hr in Ho.
  split; [|exact Ho].
  destruct (evaluate_shutdown s bus pdos now_ns i Hs He Hi) as [[Hp _]|(_ & Hq & _)]; [exact Hp|congruence].
Qed.

(** ** Facts: the fault-reset budget *)

Lemma stop_or_restart_fault s now_ns t rq st :
  let x := (stop_or_restart s now_ns t rq st).1 in
  ss_fault_episode_active x = ss_fault_episode_active st /\
  ss_fault_reset_edges x = ss_fault_reset_edges st.
Proof. unfold stop_or_restart. cbn. repeat case_match; done. Qed.

Lemma settle_fault_reset s pdo now_ns m rq st st' d :
  settle s pdo now_ns m rq st = (st', d) -> so_maximum_fault_resets (sv_options s) <= uint32_max ->
  ss_fault_episode_active st' = ss_fault_episode_active st /\
  ss_fault_reset_output_active st' = bool_decide (d = fault_reset) /\
  (d = fault_reset ->
     StateMachine.decode (status_word pdo) = fault /\ rq = fault_reset /\ m.2 = 0) /\
  if bool_decide (d = fault_reset) && negb (ss_fault_reset_output_active st)
  then
    ss_fault_reset_edges st < so_maximum_fault_resets (sv_options s) /\
    ss_fault_reset_edges st' = ss_fault_reset_edges st + 1
  else ss_fault_reset_edges st' = ss_fault_reset_edges st.
Proof.
  unfold settle, dwell, resettable_fault. intros H Hmax.
  pose proof (stop_or_restart_fault s now_ns m.1 rq st) as Hx. cbn zeta in Hx.
  destruct (stop_or_restart s now_ns m.1 rq st) as [x entered]. cbn [fst] in Hx.
  destruct Hx as [Hx1 Hx2].
  match type of H with context [if ?b then (set_reset_output _ true _, _) else _] =>
    destruct b eqn:Ea end.
  - b2p. rewrite (bool_decide_true (StateMachine.decode (status_word pdo) = fault)) in H by done.
    rewrite (bool_decide_true (rq = fault_reset)) in * by done. simplify_eq/=.
    cbn.
    split_and!; try done; try (by intros _; split_and!).
    destruct (ss_fault_reset_output_active st); cbn in *; [done|].
    rewrite (bool_decide_true (StateMachine.decode (status_word pdo) = fault)) in * by done.
    cbn in *. b2p. split; [done|].
    rewrite Hx2. rewrite (proj2 (Z.ltb_lt _ _)) by lia. done.
  - assert (d <> fault_reset /\ ss_fault_episode_active st' = ss_fault_episode_active st /\
      ss_fault_reset_output_active st' = false /\
      ss_fault_reset_edges st' = ss_fault_reset_edges st) as (Hd & H1 & H2 & H3).
    { case_all; split_and!; cbn; congruence. }
    rewrite (bool_decide_false _ Hd). cbn. split_and!; try done.
Qed.

(** The fault-episode members after [assess], while the fault is not seen cleared. *)
Lemma assess_fault_episode s bus pdos now_ns f i :
  fault_clear_observed bus i (StateMachine.decode (status_word (pdo_at pdos i))) = false ->
  let st := state_at s i in
  let st' := as_state (assess s bus pdos now_ns f i) in
  ss_fault_episode_active st' = true /\
  ss_fault_reset_edges st' = (if ss_fault_episode_active st then ss_fault_reset_edges st else 0) /\
  ss_fault_reset_output_active st' =
    (ss_fault_episode_active st && ss_fault_reset_output_active st).
Proof.
  intros Hc. unfold assess, evaluate_target, track_fault_episode, set_last_target.
  cbn zeta. rewrite Hc.
  destruct (ss_fault_episode_active (state_at s i)) eqn:E;
    repeat case_match; simplify_eq/=; b2p; split_and!; congruence.
Qed.

(** The request log and the fault-reset members of one axis agree. *)
Definition reset_inv (s : SafetySupervisor) (i : nat) : Prop :=
  ss_fault_reset_output_active (state_at s i) = bool_decide (axis_request s i = fault_reset) /\
  (axis_request s i = fault_reset -> ss_fault_episode_active (state_at s i) = true).

Definition resets_used (s : SafetySupervisor) (i : nat) : Z :=
  if ss_fault_episode_active (state_at s i) then ss_fault_reset_edges (state_at s i) else 0.

(** A rising edge of the fault-reset request of axis [i] between two states. *)
Definition rising (s s' : SafetySupervisor) (i : nat) : bool :=
  bool_decide (axis_request s' i = fault_reset) && negb (bool_decide (axis_request s i = fault_reset)).

Lemma evaluate_reset s bus pdos now_ns i :
  evaluable s pdos = true -> (i < sv_axis_count s)%nat -> reset_inv s i ->
  so_maximum_fault_resets (sv_options s) <= uint32_max ->
  fault_clear_observed bus i (StateMachine.decode (status_word (pdo_at pdos i))) = false ->
  let s' := (evaluate s bus pdos now_ns).1 in
  reset_inv s' i /\
  resets_used s' i = resets_used s i + Z.b2z (rising s s' i) /\
  (rising s s' i = true -> resets_used s i < so_maximum_fault_resets (sv_options s)).
Proof.
  intros He Hi [Hinv Hep] Hmax Hc s'.
  pose proof (evaluate_state_at s bus pdos now_ns i Hi) as H. cbn zeta in H. fold s' in H.
  rewrite He in H. destruct H as (m & _ & Hst & Hrq).
  unfold reset_inv, resets_used, rising. rewrite Hst, Hrq. unfold outcome.
  pose proof (assess_fault_episode s bus pdos now_ns (next_wkc_failures s bus) i Hc) as Ha.
  cbn zeta in Ha. set (a := assess _ _ _ _ _ _) in *. destruct Ha as (Ha1 & Ha2 & Ha3).
  destruct (settle _ _ _ _ _ _) as [st d] eqn:Es. cbn.
  apply settle_fault_reset in Es as (H1 & H2 & _ & H3); [|done].
  rewrite H1, H2, Ha1. split; [done|].
  rewrite Ha3, Ha2 in H3. rewrite Hinv in H3.
  assert (ss_fault_episode_active (state_at s i) && bool_decide (axis_request s i = fault_reset) =
    bool_decide (axis_request s i = fault_reset)) as E.
  { destruct (bool_decide_reflect (axis_request s i = fault_reset)) as [Ex|_];
    [by rewrite (Hep Ex)|apply andb_false_r]. }
  rewrite E in H3. destruct (bool_decide (d = fault_reset) && _); cbn.
  - destruct H3 as [? ->]. done.
  - rewrite H3. split; [lia|discriminate].
Qed.

(** The rising edges of the fault-reset request of axis [i] over a run of evaluations. *)
Fixpoint count_rising (s : SafetySupervisor)
    (evals : list (SafetyBusState * list Cia402PdoView * Z)) (i : nat) : Z :=
  match evals with
  | [] => 0
  | (bus, pdos, now_ns) :: evals =>
      let s' := (evaluate s bus pdos now_ns).1 in
      Z.b2z (rising s s' i) + count_rising s' evals i
  end.

(** ** Facts: safety groups *)

(** The group numbers the loop of [configure] hands out. *)
Fixpoint groups_of (names : list string) (previous : list (string * Z)) (next_group : Z)
    : list (string * Z) :=
  match names with
  | [] => previous
  | name :: names =>
      let '(group, next_group) := assign_group name previous next_group in
      groups_of names (previous ++ [(name, group)]) next_group
  end.

(** Two entries share a group exactly when they are the same axis or carry the same
    non-empty name; the numbers in use are below [next]. *)
Record groups_inv (ps : list (string * Z)) (next : Z) : Prop := {
  gi_next : 0 <= next <= Z.of_nat (length ps);
  gi_range : forall i n g, ps !! i = Some (n, g) -> 0 <= g < next;
  gi_same : forall i j n m g h, ps !! i = Some (n, g) -> ps !! j = Some (m, h) ->
    g = h <-> i = j \/ (n = m /\ n <> EmptyString) }.

Lemma find_group_spec name ps :
  match find_group name ps with
  | Some g => exists i, ps !! i = Some (name, g)
  | None => forall i g, ps !! i <> Some (name, g)
  end.
Proof.
  induction ps as [|[n g] ps IH]; cbn; [intros [|]; discriminate|].
  destruct (String.eqb_spec n name) as [->|Hn]; [by exists O|].
  destruct (find_group name ps) as [g'|].
  - destruct IH as [i Hi]. by exists (S i).
  - intros [|i] g'; cbn; [congruence|apply IH].
Qed.

(** Extending the table by a number shared with the entries of the same name. *)
Lemma groups_inv_snoc ps next next' name g :
  groups_inv ps next -> next <= next' <= Z.of_nat (S (length ps)) -> 0 <= g < next' ->
  (forall j m h, ps !! j = Some (m, h) -> h = g <-> (m = name /\ m <> EmptyString)) ->
  groups_inv (ps ++ [(name, g)]) next'.
Proof.
  intros [H1 H2 H3] Hn Hg Hnew. split.
  - rewrite length_app. cbn. lia.
  - intros i n h. rewrite lookup_snoc_Some. intros [[Hi Hl]|[-> [= <- <-]]]; [|lia].
    specialize (H2 _ _ _ Hl). lia.
  - intros i j n m h k. rewrite !lookup_snoc_Some.
    intros [[Hi Hl]|[-> [= <- <-]]] [[Hj Hk]|[-> [= <- <-]]].
    + by eapply H3.
    + rewrite (Hnew _ _ _ Hl). split; [tauto|]. intros [?|?]; [lia|tauto].
    + rewrite (eq_comm g), (Hnew _ _ _ Hk). split; [|intros [?|[<- ?]]; [lia|done]].
      intros [-> ?]; by right.
    + tauto.
Qed.

Lemma assign_group_inv ps next name g next' :
  groups_inv ps next -> (length ps < max_axes)%nat ->
  assign_group name ps next = (g, next') -> groups_inv (ps ++ [(name, g)]) next'.
Proof.
  intros Hi Hl. pose proof (gi_next _ _ Hi) as Hn.
  assert (0 <= next < 12) as Hb by (change max_axes with 12%nat in Hl; lia).
  unfold assign_group. rewrite !wrap_small by (unfold is_word; cbn; lia).
  assert (groups_inv (ps ++ [(name, next)]) (next + 1) <->
    forall j m h, ps !! j = Some (m, h) -> (m = name /\ m <> EmptyString) -> False) as Hfresh.
  { split.
    - intros [_ _ Hs] j m h Hj [-> Hne].
      assert (h = next) as ->.
      { apply (Hs j (length ps) name name); [by apply lookup_app_l_Some| |by right].
        apply lookup_snoc_Some. by right. }
      pose proof (gi_range _ _ Hi _ _ _ Hj). lia.
    - intros Hf. apply (groups_inv_snoc ps next); [done|lia|lia|].
      intros j m h Hj. split; [intros ->|intros Hm; destruct (Hf _ _ _ Hj Hm)].
      pose proof (gi_range _ _ Hi _ _ _ Hj). lia. }
  destruct (String.eqb_spec name "") as [->|Hne].
  - intros [= <- <-]. apply Hfresh. intros j m h _ [-> ?]. done.
  - pose proof (find_group_spec name ps) as Hf. destruct (find_group name ps) as [g0|].
    + intros [= <- <-]. destruct Hf as [i0 Hi0].
      replace (next + 1 - 1) with next by lia.
      pose proof (gi_range _ _ Hi _ _ _ Hi0).
      apply (groups_inv_snoc ps next); [done|lia|lia|]. intros j m h Hj.
      rewrite (gi_same _ _ Hi _ _ _ _ _ _ Hj Hi0). split; [|tauto].
      intros [->|?]; [|done]. rewrite Hi0 in Hj. by simplify_eq.
    + intros [= <- <-]. apply Hfresh. intros j m h Hj [-> _]. by apply (Hf j h).
Qed.

Lemma groups_of_inv names ps next :
  groups_inv ps next -> (length ps + length names <= max_axes)%nat ->
  exists next', groups_inv (groups_of names ps next) next'.
Proof.
  revert ps next. induction names as [|name names IH]; intros ps next Hi Hl; cbn in *.
  - by exists next.
  - destruct (assign_group name ps next) as [g next'] eqn:E.
    apply (IH _ next'); [|rewrite length_app; cbn; lia].
    eapply assign_group_inv; eauto. lia.
Qed.

Lemma groups_of_prefix names ps next i x :
  ps !! i = Some x -> groups_of names ps next !! i = Some x.
Proof.
  revert ps next. induction names as [|name names IH]; intros ps next Hi; cbn; [done|].
  destruct (assign_group _ _ _) as [g next']. apply IH. by apply lookup_app_l_Some.
Qed.

(** On success the loop writes the configuration of every axis with its group. *)
Lemma configure_loop_ok axes i ps next configs requests configs' requests' :
  configure_loop axes i ps next configs requests = (configs', requests', success tt) ->
  length ps = i -> (i + length axes <= length configs)%nat ->
  (forall k, (k < i)%nat -> configs' !! k = configs !! k) /\
  forall j a, axes !! j = Some a ->
    exists g, groups_of (map ax_safety_group axes) ps next !! (i + j)%nat =
        Some (ax_safety_group a, g) /\
      configs' !! (i + j)%nat = Some (safety_config a g) /\ axis_limits_invalid a = false.
Proof.
  revert i ps next configs requests.
  induction axes as [|a axes IH]; intros i ps next configs requests H Hl Hlen; cbn in *.
  - simplify_eq. by split.
  - destruct (axis_limits_invalid a) eqn:Ev; [discriminate|].
    destruct (assign_group _ _ _) as [g next'] eqn:Eg.
    apply IH in H as [Hbefore Hafter]; [|rewrite length_app; cbn; lia|rewrite length_insert; lia].
    split.
    + intros k Hk. rewrite Hbefore by lia. apply list_lookup_insert_ne. lia.
    + intros [|j] b Hj; cbn in Hj.
      * simplify_eq. exists g. rewrite Nat.add_0_r. split_and!; [|..|done].
        -- apply groups_of_prefix. rewrite lookup_app_r, Nat.sub_diag by lia. done.
        -- rewrite Hbefore by lia. apply list_lookup_insert_eq. lia.
      * destruct (Hafter j b Hj) as (h & ? & ? & ?). exists h.
        replace (i + S j)%nat with (S i + j)%nat by lia. done.
Qed.

(** *** Properties *)

(** An axis is commanded to enable only when its command asks for it and every axis of its group
    is clear. *)
Lemma evaluate_enable s bus pdos now_ns i :
  se_requests (evaluate s bus pdos now_ns).2 !! i = Some enable ->
  (i < sv_axis_count s)%nat /\ requested_at s i = enable /\
  forall j, (j < sv_axis_count s)%nat -> group_at s j = group_at s i ->
    requested_at s j <> quick_stop /\
    axis_clear s bus pdos now_ns (next_wkc_failures s bus) j /\
    drive_fault (StateMachine.decode (status_word (pdo_at pdos j))) = false.
Proof.
  intros H. apply evaluate_requests in H as (Hc & Hl & o & Ho & Hd); [|auto].
  apply outcomes_lookup in Ho as (Hi & m & Hm & ->).
  unfold outcome in Hd. destruct (settle _ _ _ _ _ _) as [st d] eqn:Es. cbn in Hd. subst d.
  apply settle_enable in Es as (Hrq & Hmt & _).
  split; [exact Hi|]. split; [exact Hrq|]. intros j Hj Hg.
  set (f := next_wkc_failures s bus) in *.
  assert (as_trigger (assess s bus pdos now_ns f j) = false) as Ht.
  { destruct (as_trigger _) eqn:Et; [|done].
    destruct (propagate_stop _ _ _ _ _ _ (assessed_lookup s bus pdos now_ns f j Hj) Et Hm
      (eq_sym Hg)). congruence. }
  apply assess_trigger in Ht as [Hq Hr].
  split; [exact Hq|]. split; [by apply assess_clear|].
  destruct (drive_fault _) eqn:Ef; [|done]. exfalso.
  assert (as_candidate (assess s bus pdos now_ns f i) = false) as Hnc.
  { destruct (as_candidate _) eqn:Ec; [|done]. apply assess_candidate in Ec as [Ec _]. congruence. }
  destruct (propagate_reset _ _ i j _ _ _ (assessed_lookup s bus pdos now_ns f j Hj)
    (assess_fault_candidate _ _ _ _ _ _ Hr Ef) (assessed_lookup s bus pdos now_ns f i Hi)
    Hnc Hm (eq_sym Hg)). congruence.
Qed.

(** C3. The supervisor lets an axis run only when its whole safety group is sound:
    the axis itself is commanded to enable, and every axis of its group has a fresh
    and valid command that is not a quick stop, no external stop, a link, a working
    counter within its limit, valid process data, an operational slave, the
    configured mode, no following error and a drive out of fault, and no shutdown
    was requested. *)
Theorem supervisor_enable_sound s bus pdos now_ns i :
  se_requests (evaluate s bus pdos now_ns).2 !! i = Some enable ->
  (i < sv_axis_count s)%nat /\ requested_at s i = enable /\
  forall j, (j < sv_axis_count s)%nat -> group_at s j = group_at s i ->
    requested_at s j <> quick_stop /\
    axis_clear s bus pdos now_ns (next_wkc_failures s bus) j /\
    drive_fault (StateMachine.decode (status_word (pdo_at pdos j))) = false.
Proof. apply evaluate_enable. Qed.

(** C8. A stop latches: once an axis has been stopped, whatever commands arrive,
    whatever the bus does and however often it is evaluated, it is not enabled
    again before a command snapshot with a higher sequence number than the one it
    was stopped under has been accepted. *)
Theorem supervisor_stop_latched s ops i :
  wf s -> Forall op_ok ops -> (i < sv_axis_count s)%nat -> phase_at s i <> running ->
  sv_last_command_sequence (run_ops s ops) <= ss_stopped_command_sequence (state_at s i) ->
  phase_at (run_ops s ops) i <> running /\ axis_request (run_ops s ops) i <> enable.
Proof.
  intros Hw Ho. revert s Hw. induction Ho as [|o ops Ho Hos IH]; intros s Hw Hi Hp Hs; cbn in *.
  - split; [exact Hp|]. by apply (wf_stopped s Hw).
  - pose proof (step_wf s o Hw Ho) as Hw'.
    pose proof (run_ops_sequence (step s o) ops Hw' Hos) as Hm.
    destruct (step_stopped s o i Hw Ho Hi Hp) as [Hp' Hq]; [unfold run_ops in Hm; lia|].
    apply IH; try done.
    + by rewrite (proj1 (step_frame s o)).
    + rewrite Hq. exact Hs.
Qed.

(** Shutdown terminates: once it is requested every evaluation asks each drive
    only for a quick stop or for disable, and an evaluation that happens at least
    the stop time-out after another one finds every axis disabled and reports the
    shutdown complete, whatever the bus and the drives do meanwhile. *)
Theorem supervisor_shutdown_completes s bus1 bus2 pdos1 pdos2 t1 t2 :
  sv_shutdown_requested s = true ->
  evaluable s pdos1 = true -> length pdos2 = length pdos1 ->
  (forall i, (i < sv_axis_count s)%nat -> phase_at s i = quick_stopping ->
     ss_stop_started_ns (state_at s i) <= t1) ->
  t1 + so_safe_stop_timeout (sv_options s) <= t2 -> t1 <= t2 ->
  let s1 := (evaluate s bus1 pdos1 t1).1 in
  let r2 := evaluate s1 bus2 pdos2 t2 in
  (forall i, (i < sv_axis_count s)%nat ->
     (axis_request s1 i = quick_stop \/ axis_request s1 i = disable) /\
     se_requests r2.2 !! i = Some disable) /\
  se_shutdown_complete r2.2 = true.
Proof.
  intros Hs He Hl Hstart Ht Hle s1 r2.
  pose proof (evaluate_frame s bus1 pdos1 t1) as Hf. cbn in Hf. fold s1 in Hf.
  destruct Hf as (Ho & _ & Hn & Hc & _ & _ & _ & _ & Hs1). rewrite Hs in Hs1.
  assert (evaluable s1 pdos2 = true) as He2.
  { revert He. unfold evaluable. by rewrite Hc, Hn, Hl. }
  assert (forall i, (i < sv_axis_count s)%nat -> axis_request r2.1 i = disable) as Hd.
  { intros i Hi. assert (i < sv_axis_count s1)%nat as Hi1 by (by rewrite Hn).
    pose proof (evaluate_shutdown s bus1 pdos1 t1 i Hs He Hi) as A1. cbn zeta in A1. fold s1 in A1.
    pose proof (evaluate_shutdown s1 bus2 pdos2 t2 i Hs1 He2 Hi1) as A2. rewrite Ho in A2.
    cbn zeta in A2.
    destruct A2 as [[_ A2]|(_ & _ & [[Hp2 _]|(Hp2 & _ & A2)])]; [exact A2|..]; exfalso.
    - destruct A1 as [[Hp1 _]|[Hp1 _]]; congruence.
    - destruct A1 as [[Hp1 _]|(_ & _ & [[_ Hq]|(Hq & Hq2 & _)])]; [congruence|lia|].
      specialize (Hstart i Hi Hq). lia. }
  split; [|by apply evaluate_complete; [..|rewrite Hn]].
  intros i Hi. split.
  - destruct (evaluate_shutdown s bus1 pdos1 t1 i Hs He Hi) as [[_ H]|(_ & H & _)]; auto.
  - rewrite <- (Hd i Hi). apply evaluate_output; [exact He2|by rewrite Hn].
Qed.

(** The three answers to a command snapshot: an accepted one is well formed,
    newer than the last accepted one and becomes the current command; a duplicate
    repeats the current one and changes nothing; a rejected one invalidates the
    commands (so the next evaluation stops every axis) and leaves everything else
    in place. *)
Theorem accept_commands_spec s snapshot now_ns :
  let '(s', answer) := accept_commands s snapshot now_ns in
  match answer with
  | accepted =>
      valid_snapshot s snapshot now_ns = true /\
      (sv_has_command s = true ->
       sv_last_command_sequence s < sn_sequence snapshot /\
       sv_last_command_timestamp_ns s <= sn_timestamp_ns snapshot) /\
      s' = store_commands s snapshot /\
      (forall i, (i < sv_axis_count s)%nat -> command_at s' i = snapshot_at snapshot i)
  | duplicate =>
      s' = s /\ sn_sequence snapshot = sv_last_command_sequence s /\
      forall i, (i < sv_axis_count s)%nat ->
        command_equals (snapshot_at snapshot i) (command_at s i) = true
  | rejected => s' = set_commands_valid s false
  end.
Proof.
  unfold accept_commands. destruct (valid_snapshot s snapshot now_ns); cbn [negb]; [|done].
  assert (forall i, (i < sv_axis_count s)%nat ->
    command_at (store_commands s snapshot) i = snapshot_at snapshot i) as Hstore.
  { intros i Hi. unfold command_at, store_commands. cbn.
    rewrite lookup_app_l by (by rewrite length_map, length_seq).
    by rewrite list_lookup_fmap, lookup_seq_lt. }
  destruct (sv_has_command s); cbn [andb];
    [|split_and!; [done | discriminate | done | exact Hstore]].
  destruct (_ || _) eqn:E1; [done|]. destruct (_ =? _) eqn:E2.
  - destruct (_ && _) eqn:E3; [|done]. b2p. split_and!; try done.
    intros i Hi.
    match goal with H : forallb _ _ = true |- _ => rewrite forallb_forall in H; apply H end.
    apply in_seq. lia.
  - b2p. split_and!; try done; intros _; lia.
Qed.

(** The fault-reset budget: while the fault of a drive is not seen cleared, a
    client that keeps asking for resets obtains at most the configured number of
    reset pulses (rising edges of the fault-reset request), counting those already
    spent in the episode. *)
Theorem supervisor_reset_budget s evals i :
  (i < sv_axis_count s)%nat -> reset_inv s i ->
  so_maximum_fault_resets (sv_options s) <= uint32_max ->
  resets_used s i <= so_maximum_fault_resets (sv_options s) ->
  Forall (fun '(bus, pdos, _) =>
    evaluable s pdos = true /\
    fault_clear_observed bus i (StateMachine.decode (status_word (pdo_at pdos i))) = false) evals ->
  resets_used s i + count_rising s evals i <= so_maximum_fault_resets (sv_options s).
Proof.
  intros Hi Hinv Hmax Hu Hall. revert s Hi Hinv Hmax Hu Hall.
  induction evals as [|[[bus pdos] t] evals IH]; intros s Hi Hinv Hmax Hu Hall; cbn; [lia|].
  apply Forall_cons in Hall as [[He Hc] Hall].
  destruct (evaluate_reset s bus pdos t i He Hi Hinv Hmax Hc) as (Hinv' & Hu' & Hr).
  pose proof (evaluate_frame s bus pdos t) as Hf. cbn in Hf.
  set (s' := (evaluate s bus pdos t).1) in *.
  destruct Hf as (Ho & _ & Hn & Hcf & _).
  assert (resets_used s' i + count_rising s' evals i <= so_maximum_fault_resets (sv_options s'))
    as IH'.
  { apply IH; rewrite ?Ho, ?Hn; try done.
    - destruct (rising s s' i); cbn [Z.b2z] in *; [specialize (Hr eq_refl)|]; lia.
    - eapply Forall_impl; [exact Hall|]. intros [[b p] ?]. unfold evaluable. by rewrite Hcf, Hn. }
  rewrite Ho in IH'. lia.
Qed.

(** A successful configuration groups the axes exactly as the profile names
    them: two different axes share a group if and only if they carry the same
    non-empty safety group, whatever the order and the number of groups; and every
    axis has valid limits. *)
Theorem configure_groups s axes s' :
  length (sv_configs s) = max_axes ->
  configure s axes = (s', success tt) ->
  sv_axis_count s' = length axes /\
  (forall i a, axes !! i = Some a ->
     axis_limits_invalid a = false /\ config_at s' i = safety_config a (group_at s' i)) /\
  forall i j a b, axes !! i = Some a -> axes !! j = Some b ->
    group_at s' i = group_at s' j <->
    i = j \/ (ax_safety_group a = ax_safety_group b /\ ax_safety_group a <> EmptyString).
Proof.
  intros Hlen. unfold configure. destruct (sv_configured s); [discriminate|].
  destruct (_ || _) eqn:E; [discriminate|]. b2p.
  match goal with H : (max_axes <? _)%nat = false |- _ => apply Nat.ltb_ge in H end.
  destruct (configure_loop _ _ _ _ _ _) as [[configs requests] r] eqn:El.
  intros [= <- ->]. cbn [has_value].
  apply configure_loop_ok in El as [_ Hok]; [|done|cbn; lia].
  destruct (groups_of_inv (map ax_safety_group axes) [] 0) as [next Hinv];
    [split; [cbn; lia|by intros [|]..]|cbn; rewrite length_map; lia|].
  unfold group_at, config_at. cbn. split_and!; [done|..].
  - intros i a Ha. destruct (Hok i a Ha) as (g & _ & Hc & Hv). cbn in Hc. by rewrite Hc.
  - intros i j a b Ha Hb.
    destruct (Hok i a Ha) as (g & Hg & Hc & _), (Hok j b Hb) as (h & Hh & Hd & _).
    cbn in *. rewrite Hc, Hd. cbn. by apply (gi_same _ _ Hinv).
Qed.

(** The supervisor and the axis compute the same motion: with the same
    remembered target, an enable command is given the same measured value, the same
    clamped and slew-limited target and the same following-error verdict by the
    supervisor as by the axis, so the supervisor never lets through an enable that
    the axis then stops for following error. *)
Theorem evaluate_target_agrees_with_axis (c : AxisConfig) g st last command pdo :
  ac_flags command = kAxisCommandEnable ->
  Axis.enable_inputs_invalid c (ac_target command) = false ->
  is_Some (Axis.actual_setpoint c pdo) ->
  last = (if ss_has_last_target st then ss_last_target st
          else default fzero (Axis.actual_setpoint c pdo)) ->
  let t := (evaluate_target (safety_config c g) st command pdo).2 in
  let actual := default fzero (Axis.actual_setpoint c pdo) in
  te_actual t = actual /\
  te_staged t = Axis.slew_target c last (Axis.clamped_target c (ac_target command)) /\
  te_following_error t = Axis.following_error c (status_word pdo) (te_staged t) actual /\
  (te_following_error t = false -> exists flags,
     Axis.enable_block c last (status_word pdo) (ac_target command) actual enable 0 =
       (enable, te_staged t, flags)).
Proof.
  intros Hf Hin Ha Hlast. cbn zeta.
  assert (isfinite (ax_slew_limit c) = true /\ isfinite (ax_following_error_limit c) = true)
    as [Hs Hfe].
  { revert Hin. unfold Axis.enable_inputs_invalid, valid_positive_limit. intros Hin. b2p. auto. }
  assert (forall p, safety_actual (safety_config c g) p = Axis.actual_setpoint c p) as Hact
    by done.
  unfold evaluate_target. rewrite Hf, Hact.
  change (request_from_flags kAxisCommandEnable) with enable.
  rewrite !bool_decide_true by done. cbn [negb orb].
  assert (forall st', (if ss_has_last_target st then st
     else set_last_target st (default fzero (Axis.actual_setpoint c pdo)) true) = st' ->
     ss_last_target st' = last) as Hst.
  { intros st' <-. rewrite Hlast. by case_match. }
  rewrite (Hst _ eq_refl). cbn [snd te_actual te_staged te_following_error].
  assert (clamp (clamp (ac_target command) (asc_minimum (safety_config c g))
       (asc_maximum (safety_config c g)))
     (dsub last (asc_slew_limit (safety_config c g)))
     (dadd last (asc_slew_limit (safety_config c g))) =
   Axis.slew_target c last (Axis.clamped_target c (ac_target command))) as Hcl.
  { unfold Axis.slew_target, Axis.clamped_target. by rewrite Hs. }
  rewrite Hcl. unfold Axis.following_error. rewrite Hfe, andb_true_r.
  split_and!; [done..|]. intros Hno.
  assert (Axis.following_error c (status_word pdo)
    (Axis.slew_target c last (Axis.clamped_target c (ac_target command)))
    (default fzero (Axis.actual_setpoint c pdo)) = false) as Hno'
    by (unfold Axis.following_error; rewrite Hfe, andb_true_r; exact Hno).
  unfold Axis.enable_block. rewrite Hin. cbn zeta. rewrite Hno'. eauto.
Qed.

(** When a fault reset is passed on, and what becomes of one that is not. *)
Lemma settle_reset_exact s pdo now_ns m rq st st' d :
  settle s pdo now_ns m rq st = (st', d) ->
  (d = fault_reset <->
     rq = fault_reset /\ StateMachine.decode (status_word pdo) = fault /\ m.2 = 0 /\
     (ss_fault_reset_output_active st = true \/
      ss_fault_reset_edges st < so_maximum_fault_resets (sv_options s))) /\
  (rq = fault_reset -> d <> fault_reset ->
     (d = quick_stop /\ ss_phase st' = quick_stopping) \/
     (d = disable /\ ss_phase st' <> quick_stopping)).
Proof.
  unfold settle, dwell, resettable_fault. intros H.
  destruct (stop_or_restart s now_ns m.1 rq st) as [x entered].
  match type of H with context [if ?b then (set_reset_output _ true _, _) else _] =>
    destruct b eqn:Ea end.
  - simplify_eq/=. split; [|done]. split; [intros _|done].
    apply andb_true_iff in Ea as [[[Hf Hr]%andb_true_iff Hm]%andb_true_iff Hb].
    rewrite Hf, Hr in Hb. cbn in Hb. b2p. split_and!; try done.
    destruct (ss_fault_reset_output_active st); [by left|]. cbn in Hb. b2p. by right.
  - assert (d <> fault_reset) as Hd by (case_all; congruence). split.
    + split; [done|]. intros (-> & Hf & Hm & Hb). exfalso.
      rewrite (bool_decide_true (StateMachine.decode _ = fault)),
        (bool_decide_true (fault_reset = fault_reset)), (proj2 (Z.eqb_eq _ _) Hm) in Ea by done.
      cbn in Ea. destruct (ss_fault_reset_output_active st); cbn in Ea; [done|]. b2p.
      destruct Hb as [Hb|Hb]; [done|lia].
    + intros -> _. case_all; first [by left|right; split; [done|cbn; congruence]].
Qed.

(** A requested reset without budget is a safety reason of its axis. *)
Lemma assess_reset_budget s bus pdos now_ns f axis :
  let a := assess s bus pdos now_ns f axis in
  as_reasons a = 0 -> requested_at s axis = fault_reset ->
  StateMachine.decode (status_word (pdo_at pdos axis)) = fault ->
  ss_fault_reset_output_active (as_state a) = true \/
  ss_fault_reset_edges (as_state a) < so_maximum_fault_resets (sv_options s).
Proof.
  cbn zeta. unfold assess. destruct (evaluate_target _ _ _ _) as [st target].
  cbn [as_reasons as_state]. intros H Hrq Hd. set (x := track_fault_episode _ _ _ _) in *.
  rewrite !flag_if_zero in H by (vm_compute; discriminate).
  destruct H as (_ & _ & H & _). rewrite Hd, Hrq in H. cbn in H.
  destruct (ss_fault_reset_output_active x); [by left|]. cbn in H.
  apply negb_false_iff, Z.ltb_lt in H. by right.
Qed.

Lemma evaluate_flags s bus pdos now_ns i m :
  evaluable s pdos = true -> (i < sv_axis_count s)%nat ->
  propagate s (map (assess s bus pdos now_ns (next_wkc_failures s bus))
    (seq 0 (sv_axis_count s))) !! i = Some m ->
  se_feedback_flags (evaluate s bus pdos now_ns).2 !! i = Some m.2.
Proof.
  intros He Hi Hm. unfold evaluate. rewrite evaluable_spec, He. cbn [negb snd se_feedback_flags].
  destruct (lookup_lt_is_Some_2 (outcomes s bus pdos now_ns (next_wkc_failures s bus)) i)
    as [o Ho]; [by rewrite outcomes_length|].
  apply array_of_lookup; [by rewrite length_map, outcomes_length|].
  rewrite list_lookup_fmap, Ho. cbn. f_equal.
  apply outcomes_lookup in Ho as (_ & m' & Hm' & ->). assert (m' = m) as -> by congruence.
  unfold outcome. by destruct (settle _ _ _ _ _ _).
Qed.

(** C39. What becomes of a fault reset.  For every axis of an evaluation the supervisor
    outputs a decision and the safety flags.  The decision is a fault reset exactly when the
    command requests one, the drive is in Fault and the axis reports no safety reason; then
    every stopping condition of the code is absent.  Otherwise a requested reset becomes a
    quick stop while the axis goes on stopping, and a disable in every other phase: it never
    enables.  The output latch that makes the next reset an edge is set exactly when the
    reset word is emitted. *)
Theorem supervisor_fault_reset_sound s bus pdos now_ns i :
  so_maximum_fault_resets (sv_options s) <= uint32_max ->
  evaluable s pdos = true -> (i < sv_axis_count s)%nat ->
  let r := evaluate s bus pdos now_ns in
  exists decision flags,
    se_requests r.2 !! i = Some decision /\ se_feedback_flags r.2 !! i = Some flags /\
    (decision = fault_reset <->
       requested_at s i = fault_reset /\
       StateMachine.decode (status_word (pdo_at pdos i)) = fault /\ flags = 0) /\
    (decision = fault_reset -> axis_clear s bus pdos now_ns (next_wkc_failures s bus) i) /\
    (requested_at s i = fault_reset -> decision <> fault_reset ->
       decision = if bool_decide (phase_at r.1 i = quick_stopping) then quick_stop else disable) /\
    ss_fault_reset_output_active (state_at r.1 i) = bool_decide (decision = fault_reset).
Proof.
  intros Hmax He Hi r. pose proof (evaluate_state_at s bus pdos now_ns i Hi) as H. cbn in H.
  rewrite He in H. destruct H as (m & Hm & Hst & Hrq). fold r in Hst, Hrq.
  exists (axis_request r.1 i), m.2.
  split; [by apply evaluate_output|]. split; [by apply evaluate_flags|].
  unfold phase_at. rewrite Hst, Hrq. unfold outcome.
  destruct (settle _ _ _ _ _ _) as [st d] eqn:Es. cbn [oc_decision oc_state].
  pose proof (settle_reset_exact _ _ _ _ _ _ _ _ Es) as [Hexact Helse].
  apply settle_fault_reset in Es as (_ & Hout & Hf & _); [|exact Hmax].
  assert (m.2 = 0 -> as_reasons (assess s bus pdos now_ns (next_wkc_failures s bus) i) = 0)
    as Hown by (intros H0; by destruct (propagate_own _ _ _ _ _ _ _ Hm Hi) as [->|[_ ?]]).
  split_and!.
  - rewrite Hexact. split; [tauto|]. intros (Hr & Hd & Hz). split_and!; try done.
    apply assess_reset_budget; auto.
  - intros Hd. apply assess_clear. apply Hown. by destruct (Hf Hd) as (_ & _ & ?).
  - intros Hr Hd. cbn. destruct (Helse Hr Hd) as [[-> Hp]|[-> Hp]].
    + by rewrite bool_decide_true.
    + by rewrite bool_decide_false.
  - exact Hout.
Qed.

(** A freshly configured supervisor satisfies the invariants the theorems start from. *)
Lemma configured_wf o axes s :
  configure (create o) axes = (s, success tt) ->
  wf s /\ forall i, (i < sv_axis_count s)%nat -> reset_inv s i /\ resets_used s i = 0.
Proof.
  unfold configure. cbn [create sv_configured].
  destruct (_ || _); [discriminate|].
  destruct (configure_loop _ _ _ _ _ _) as [[configs requests] r] eqn:El. intros [= <- ->].
  assert (forall i, state_at (create o) i = AxisSafetyState_zero) as Hz.
  { intros i. unfold state_at. cbn [create sv_states].
    destruct (replicate max_axes AxisSafetyState_zero !! i) eqn:E; [|done].
    by apply lookup_replicate in E as [-> _]. }
  assert (forall axes i ps next cs rs cs' rs' r, Forall (eq disable) rs ->
    configure_loop axes i ps next cs rs = (cs', rs', r) -> Forall (eq disable) rs') as Hr.
  { clear. intros axes. induction axes as [|a axes IH]; intros * Hr H; cbn in H.
    - by simplify_eq.
    - destruct (axis_limits_invalid a); [by simplify_eq|].
      destruct (assign_group _ _ _). eapply IH; [|exact H]. by apply Forall_insert. }
  apply Hr in El; [|by apply Forall_replicate].
  assert (forall j, default disable (requests !! j) = disable) as Hd.
  { intros j. destruct (requests !! j) eqn:E; [|done].
    symmetry. by apply (Forall_lookup_1 _ _ _ _ El E). }
  split; [split; cbn; try done; try lia|].
  - intros i _ Hp. exfalso. apply Hp. unfold phase_at. change (ss_phase (state_at (create o) i) = running).
    by rewrite Hz.
  - intros i Hi. unfold reset_inv, resets_used, axis_request.
    replace (state_at _ i) with AxisSafetyState_zero by (symmetry; apply (Hz i)).
    cbn -[Nat.ltb]. rewrite Hd. destruct (_ <? _)%nat; split_and!; done.
Qed.

End Supervisor.

(** ** Concrete runs *)

Module SafetyExamples.
Import Supervisor.

Definition arm_axis : AxisConfig :=
  mkAxisConfig "joint" 0 0 0x9a 0x30924 0 csp (double_of_int 1000) (double_of_int (-10))
    (double_of_int 10) 100 "arm" (double_of_int 2) (double_of_int 5).

Definition arm : SafetySupervisor :=
  (configure (create SafetyOptions_default) [arm_axis; arm_axis]).1.

Definition arm_bus (link : bool) : SafetyBusState :=
  mkSafetyBusState 3 3 true true link true true 0 0 0.

Definition arm_pdo (sw : Z) : Cia402PdoView := mkPdo sw 8 3000 0 0 0 0 0 0.

Definition arm_command (sequence flags : Z) : AxisCommand :=
  mkAxisCommand sequence 1000 (double_of_int 4) flags 0.

Definition arm_snapshot (sequence flags : Z) : Snapshot AxisCommand :=
  mkSnapshot sequence 1000 2 [arm_command sequence flags; arm_command sequence flags].

Definition commanded (sequence flags : Z) : SafetySupervisor :=
  (accept_commands arm (arm_snapshot sequence flags) 1000).1.

Lemma arm_configured : configure (create SafetyOptions_default) [arm_axis; arm_axis] = (arm, success tt).
Proof. vm_compute. reflexivity. Qed.

Lemma supervisor_enable_sound_witness :
  requested_at (commanded 1 1) 0 = enable /\
  drive_fault (StateMachine.decode 0x27) = false.
Proof.
  destruct (supervisor_enable_sound (commanded 1 1) (arm_bus true)
    [arm_pdo 0x27; arm_pdo 0x27] 2000 0 ltac:(vm_compute; reflexivity)) as (Hi & Hr & Hg).
  split; [exact Hr|]. apply (Hg 1%nat); vm_compute; [repeat constructor|reflexivity].
Defined.

(** The link drops, comes back, and the client keeps repeating its command. *)
Definition link_drop : list op :=
  [op_evaluate (arm_bus true) [arm_pdo 0x27; arm_pdo 0x27] 3000;
   op_accept (arm_snapshot 1 1) 4000;
   op_evaluate (arm_bus true) [arm_pdo 0x27; arm_pdo 0x27] 5000].

Definition dropped : SafetySupervisor :=
  (evaluate (commanded 1 1) (arm_bus false) [arm_pdo 0x27; arm_pdo 0x27] 2000).1.

Lemma dropped_wf : wf dropped.
Proof.
  apply (run_ops_wf arm
    [op_accept (arm_snapshot 1 1) 1000;
     op_evaluate (arm_bus false) [arm_pdo 0x27; arm_pdo 0x27] 2000]).
  - apply (configured_wf _ _ _ arm_configured).
  - repeat constructor. cbn. lia.
Qed.

Lemma supervisor_stop_latched_witness : axis_request (run_ops dropped link_drop) 0 <> enable.
Proof.
  apply (supervisor_stop_latched dropped link_drop 0).
  - exact dropped_wf.
  - repeat constructor. cbn. lia.
  - vm_compute. repeat constructor.
  - vm_compute. discriminate.
  - vm_compute. discriminate.
Defined.

Lemma supervisor_shutdown_completes_witness :
  let s := request_shutdown (commanded 1 1) 1500 in
  let s1 := (evaluate s (arm_bus true) [arm_pdo 0x27; arm_pdo 0x27] 2000).1 in
  se_shutdown_complete
    (evaluate s1 (arm_bus false) [arm_pdo 0x23; arm_pdo 0x23] 250002000).2 = true.
Proof.
  apply supervisor_shutdown_completes; try (vm_compute; reflexivity); try (vm_compute; discriminate).
  intros [|[|i]] Hi; vm_compute; [discriminate..|]. vm_compute in Hi. lia.
Defined.

Definition fault_evals : list (SafetyBusState * list Cia402PdoView * Z) :=
  [(arm_bus true, [arm_pdo 0x08; arm_pdo 0x08], 2000);
   (arm_bus true, [arm_pdo 0x08; arm_pdo 0x08], 3000)].

Lemma supervisor_reset_budget_witness :
  count_rising (commanded 1 8) fault_evals 0 = 1 /\
  resets_used (commanded 1 8) 0 + count_rising (commanded 1 8) fault_evals 0 <= 3.
Proof.
  split; [vm_compute; reflexivity|].
  apply (supervisor_reset_budget (commanded 1 8) fault_evals 0).
  - vm_compute. repeat constructor.
  - split; vm_compute; [reflexivity|discriminate].
  - vm_compute. discriminate.
  - vm_compute. discriminate.
  - repeat constructor.
Defined.

(** Two faulted axes; then the same request while the drives quick stop out of Fault. *)
Lemma supervisor_fault_reset_sound_witness :
  (exists flags,
    se_feedback_flags (evaluate (commanded 1 8) (arm_bus true) [arm_pdo 0x08; arm_pdo 0x08] 2000).2 !! 0%nat =
      Some flags /\ flags = 0) /\
  phase_at (evaluate (commanded 1 8) (arm_bus true) [arm_pdo 0x27; arm_pdo 0x27] 2000).1 0 <>
    quick_stopping.
Proof.
  split.
  - destruct (supervisor_fault_reset_sound (commanded 1 8) (arm_bus true)
      [arm_pdo 0x08; arm_pdo 0x08] 2000 0) as (d & f & Hd & Hf & [Hiff _] & _);
      [vm_compute; discriminate | vm_compute; reflexivity | vm_compute; lia |].
    exists f. split; [exact Hf|]. apply Hiff. vm_compute in Hd. congruence.
  - vm_compute. discriminate.
Defined.

Lemma configure_groups_witness : group_at arm 0 = group_at arm 1.
Proof.
  destruct (configure_groups (create SafetyOptions_default) [arm_axis; arm_axis] arm
    ltac:(vm_compute; reflexivity) arm_configured) as (_ & _ & H).
  apply (H 0%nat 1%nat arm_axis arm_axis); [done|done|].
  right. split; [reflexivity|discriminate].
Defined.

Lemma evaluate_target_agrees_with_axis_witness :
  te_following_error (evaluate_target (safety_config arm_axis 0) AxisSafetyState_zero
    (arm_command 1 1) (arm_pdo 0x27)).2 = false.
Proof.
  destruct (evaluate_target_agrees_with_axis arm_axis 0 AxisSafetyState_zero (double_of_int 3)
    (arm_command 1 1) (arm_pdo 0x27)) as (_ & _ & -> & _);
    try (vm_compute; reflexivity). vm_compute. eexists. reflexivity.
Defined.

End SafetyExamples.
