(* ===== verification/St3215Protocol.v ===== *)
(** * The ST3215 servo protocol

    [devices/st3215/protocol.cpp]: packets
    [FF FF id length instruction parameters checksum], the resynchronising stream
    parser and the position conversions.  A byte is a [Z] in [0, 256); the parser's
    buffer is the list of its [size_] live bytes. *)
From S2P Require Export Messages.

(** ** Packets *)

Abbreviation Bytes := (list Z).

Definition kHeaderByte : Z := 0xff.
Definition kSt3215BroadcastId : Z := 0xfe.
Definition kSt3215MaximumParameters : nat := 253.
Definition kSt3215MaximumFrameSize : nat := 259.

Inductive St3215Instruction :=
  | ping | read_data | write_data | reg_write | action | recovery | reset | sync_read
  | sync_write.

Definition instruction_value (i : St3215Instruction) : Z :=
  match i with
  | ping => 0x01 | read_data => 0x02 | write_data => 0x03 | reg_write => 0x04
  | action => 0x05 | recovery => 0x06 | reset => 0x0a | sync_read => 0x82
  | sync_write => 0x83
  end.

Inductive St3215Register := goal_position | present_position.

Definition register_value (r : St3215Register) : Z :=
  match r with goal_position => 0x2a | present_position => 0x38 end.

Record St3215Packet := mkPacket {
  pk_device_id : Z;
  pk_instruction_or_status : Z;
  pk_parameters : Bytes }.

Record St3215Status := mkStatus {
  st_device_id : Z;
  st_error : Z;
  st_parameters : Bytes }.

(** The sum of the bytes. *)
Definition sum (bytes : Bytes) : Z := foldr Z.add 0 bytes.

(** [~total & 0xff]. *)
Definition checksum (device_id length instruction_or_status : Z) (parameters : Bytes) : Z :=
  u8 (Z.lnot (device_id + length + instruction_or_status + sum parameters)).

Definition encode_packet (device_id instruction_or_status : Z) (parameters : Bytes)
    : Result Bytes :=
  if (kSt3215MaximumParameters <? List.length parameters)%nat
  then fail invalid_argument "too many ST3215 parameters"
  else
    let length := u8 (Z.of_nat (List.length parameters) + 2) in
    success ([kHeaderByte; kHeaderByte; device_id; length; instruction_or_status] ++
      parameters ++ [checksum device_id length instruction_or_status parameters]).

(** [require_encoded]: an empty vector when the packet cannot be encoded. *)
Definition require_encoded (device_id instruction_or_status : Z) (parameters : Bytes) : Bytes :=
  match encode_packet device_id instruction_or_status parameters with
  | success encoded => encoded
  | failure _ => []
  end.

Definition ping_command (device_id : Z) : Bytes :=
  require_encoded device_id (instruction_value ping) [].

Definition read_data_command (device_id : Z) (address : St3215Register) (length : Z) : Bytes :=
  require_encoded device_id (instruction_value read_data) [register_value address; length].

Definition write_data_command (device_id : Z) (address : St3215Register) (data : Bytes) : Bytes :=
  if (kSt3215MaximumParameters <? List.length data + 1)%nat then []
  else require_encoded device_id (instruction_value write_data) (register_value address :: data).

(** [append_u16]: low byte first. *)
Definition append_u16 (output : Bytes) (value : Z) : Bytes :=
  output ++ [Z.land value 0xff; Z.land (Z.shiftr value 8) 0xff].

Definition goal_position_command (device_id position_units time_units speed_units : Z) : Bytes :=
  write_data_command device_id goal_position
    (append_u16 (append_u16 (append_u16 [] position_units) time_units) speed_units).

Definition read_present_position_command (device_id : Z) : Bytes :=
  read_data_command device_id present_position 2.

Definition status_packet (device_id error : Z) (parameters : Bytes) : Bytes :=
  require_encoded device_id error parameters.

Definition byte_at (bytes : Bytes) (i : nat) : Z := default 0 (bytes !! i).

Definition decode_packet (packet : Bytes) : Result St3215Packet :=
  if (List.length packet <? 6)%nat then fail protocol "ST3215 packet is too short"
  else if negb (byte_at packet 0 =? kHeaderByte) || negb (byte_at packet 1 =? kHeaderByte)
  then fail protocol "invalid ST3215 packet header"
  else
    let length := byte_at packet 3 in
    if (length <? 2) || negb (length + 4 =? Z.of_nat (List.length packet))
    then fail protocol "invalid ST3215 packet length"
    else
      let device_id := byte_at packet 2 in
      let instruction_or_status := byte_at packet 4 in
      let parameters := take (List.length packet - 6) (drop 5 packet) in
      let expected := checksum device_id length instruction_or_status parameters in
      if negb (byte_at packet (List.length packet - 1) =? expected)
      then fail protocol "invalid ST3215 checksum"
      else success (mkPacket device_id instruction_or_status parameters).

Definition parse_status (packet : Bytes) : Result St3215Status :=
  match decode_packet packet with
  | failure e => failure e
  | success decoded =>
      success (mkStatus (pk_device_id decoded) (pk_instruction_or_status decoded)
                 (pk_parameters decoded))
  end.

(** ** The stream parser *)

Definition kCapacity : nat := 2 * kSt3215MaximumFrameSize.

(** [St3215StreamParser::append]: an overflow empties the buffer. *)
Definition append (buffer data : Bytes) : Bytes * Result unit :=
  if (kCapacity - length buffer <? length data)%nat
  then ([], fail protocol "ST3215 stream buffer capacity exceeded")
  else (buffer ++ data, success tt).

Definition discard_prefix (count : nat) (buffer : Bytes) : Bytes := drop count buffer.

(** The header search of [next]: everything before the first [FF FF] goes, but the
    last byte, which may be the first half of a header, always stays. *)
Fixpoint skip_to_header (buffer : Bytes) : Bytes :=
  match buffer with
  | a :: ((b :: _) as rest) =>
      if (a =? kHeaderByte) && (b =? kHeaderByte) then buffer else skip_to_header rest
  | _ => buffer
  end.

Definition next (buffer : Bytes) : Bytes * Result (option St3215Packet) :=
  let buffer := skip_to_header buffer in
  if (length buffer <? 4)%nat then (buffer, success None)
  else
    let len := byte_at buffer 3 in
    if len <? 2
    then (discard_prefix 2 buffer, fail protocol "invalid ST3215 packet length")
    else
      let frame_size := Z.to_nat (len + 4) in
      if (kSt3215MaximumFrameSize <? frame_size)%nat
      then (discard_prefix 2 buffer, fail protocol "ST3215 frame exceeds maximum size")
      else if (length buffer <? frame_size)%nat then (buffer, success None)
      else
        (discard_prefix frame_size buffer,
         match decode_packet (take frame_size buffer) with
         | failure e => failure e
         | success packet => success (Some packet)
         end).

(** ** Numbers *)

Definition read_st3215_u16_le (data : Bytes) : Result Z :=
  if (length data <? 2)%nat then fail protocol "expected at least two ST3215 bytes"
  else success (u16 (Z.lor (byte_at data 0) (Z.shiftl (byte_at data 1) 8))).

(** [std::numbers::pi]; [tau] is twice it, exactly. *)
Definition pi : double := S754_finite false 7074237752028440 (-51).

(** Round half to even on a non-negative value: [floor] and the exact fractional
    part. *)
Definition radians_to_position_units (position_rad : double) (max_position_units : Z)
    : Result Z :=
  if negb (isfinite position_rad) || (max_position_units =? 0)
  then fail invalid_argument "invalid ST3215 position conversion"
  else
    let wrapped := fmod 53 1024 position_rad tau in
    let wrapped := if (wrapped <? fzero)%fp then dadd wrapped tau else wrapped in
    let scaled := dmul (ddiv wrapped tau) (double_of_int max_position_units) in
    let integral := double_of_int (floor_int scaled) in
    let fractional := dsub scaled integral in
    let half := S754_finite false 4503599627370496 (-53) in
    let rounded :=
      if (half <? fractional)%fp ||
         ((fractional =? half)%fp && negb (u64 (trunc_int integral) mod 2 =? 0))
      then dadd integral (double_of_int 1) else integral in
    let rounded := clamp rounded fzero (double_of_int max_position_units) in
    success (u16 (trunc_int rounded)).

Definition position_units_to_radians (position_units max_position_units : Z) : Result double :=
  if max_position_units =? 0 then fail invalid_argument "invalid ST3215 position conversion"
  else
    success (dmul (dmul (ddiv (double_of_int position_units) (double_of_int max_position_units))
                        (double_of_int 2)) pi).

Example half_turn : radians_to_position_units pi 4095 = success 2048.
Proof. vm_compute. reflexivity. Qed.
Example goal_bytes :
  goal_position_command 1 2048 0 1000 =
  [0xff; 0xff; 1; 9; 3; 0x2a; 0; 8; 0; 0; 0xe8; 3; 0xd5].
Proof. vm_compute. reflexivity. Qed.

(** ** Facts: packets *)

Lemma sum_app xs ys : sum (xs ++ ys) = sum xs + sum ys.
Proof. unfold sum. induction xs as [|x xs IH]; cbn; [done|]. fold (sum ys) in *. lia. Qed.

Lemma encode_packet_shape d i ps :
  (length ps <= kSt3215MaximumParameters)%nat ->
  encode_packet d i ps =
    success ([kHeaderByte; kHeaderByte; d; Z.of_nat (length ps) + 2; i] ++ ps ++
      [checksum d (Z.of_nat (length ps) + 2) i ps]).
Proof.
  intros Hl. unfold encode_packet. rewrite (proj2 (Nat.ltb_ge _ _) Hl).
  rewrite wrap_small; [done|].
  unfold is_word, kSt3215MaximumParameters in *. cbn [Z.pow Z.pow_pos Pos.iter]. lia.
Qed.

Lemma byte_at_app_last xs x : byte_at (xs ++ [x]) (length (xs ++ [x]) - 1) = x.
Proof.
  unfold byte_at. rewrite length_app. cbn. replace (length xs + 1 - 1)%nat with (length xs) by lia.
  by rewrite lookup_app_r, Nat.sub_diag.
Qed.

(** The decoder on a list that starts with the five header fields. *)
Lemma decode_packet_shape d l i ps c :
  decode_packet ([kHeaderByte; kHeaderByte; d; l; i] ++ ps ++ [c]) =
  if (l <? 2) || negb (l =? Z.of_nat (length ps) + 2)
  then fail protocol "invalid ST3215 packet length"
  else if negb (c =? checksum d l i ps) then fail protocol "invalid ST3215 checksum"
  else success (mkPacket d i ps).
Proof.
  unfold decode_packet.
  assert (length ([kHeaderByte; kHeaderByte; d; l; i] ++ ps ++ [c]) = (length ps + 6)%nat) as Hl
    by (rewrite !length_app; cbn; lia).
  rewrite Hl, (proj2 (Nat.ltb_ge _ _)) by lia.
  replace (length ps + 6 - 1)%nat with
    (length (([kHeaderByte; kHeaderByte; d; l; i] ++ ps) ++ [c]) - 1)%nat
    by (rewrite <- (assoc_L (++)), Hl; lia).
  rewrite (assoc_L (++)), byte_at_app_last, <- (assoc_L (++)).
  cbn [app byte_at]. unfold byte_at. cbn [lookup list_lookup default]. unfold id.
  change (drop 5 (kHeaderByte :: kHeaderByte :: d :: l :: i :: ps ++ [c])) with (ps ++ [c]).
  replace (length ps + 6 - 6)%nat with (length ps) by lia. rewrite take_app_length.
  rewrite Z.eqb_refl. cbn [negb orb].
  replace (l + 4 =? Z.of_nat (length ps + 6)) with (l =? Z.of_nat (length ps) + 2); [done|].
  destruct (Z.eqb_spec l (Z.of_nat (length ps) + 2)), (Z.eqb_spec (l + 4) (Z.of_nat (length ps + 6)));
    lia || done.
Qed.

Lemma list_ends (p : Bytes) :
  (6 <= length p)%nat -> exists a b d l i ps c, p = [a; b; d; l; i] ++ ps ++ [c].
Proof.
  intros H. destruct p as [|a [|b [|d [|l [|i [|x p]]]]]]; cbn in H; try lia.
  destruct (exists_last (l := x :: p)) as (ps & c & ->); [done|].
  exists a, b, d, l, i, ps, c. done.
Qed.

(** What a decoded packet looked like. *)
Lemma decode_packet_inv p k :
  decode_packet p = success k ->
  p = [kHeaderByte; kHeaderByte; pk_device_id k; Z.of_nat (length (pk_parameters k)) + 2;
       pk_instruction_or_status k] ++ pk_parameters k ++
      [checksum (pk_device_id k) (Z.of_nat (length (pk_parameters k)) + 2)
         (pk_instruction_or_status k) (pk_parameters k)].
Proof.
  intros H. destruct (le_lt_dec 6 (length p)) as [Hl|Hl].
  2: { unfold decode_packet in H. rewrite (proj2 (Nat.ltb_lt _ _) Hl) in H. discriminate. }
  destruct (list_ends p Hl) as (a & b & d & l & i & ps & c & ->).
  assert (a = kHeaderByte /\ b = kHeaderByte) as [-> ->].
  { unfold decode_packet in H. rewrite (proj2 (Nat.ltb_ge _ _) Hl) in H.
    unfold byte_at in H. cbn [app lookup list_lookup default] in H. unfold id in H.
    destruct (negb (a =? kHeaderByte) || negb (b =? kHeaderByte)) eqn:E; [discriminate|].
    b2p. auto. }
  rewrite decode_packet_shape in H.
  destruct ((l <? 2) || negb (l =? Z.of_nat (length ps) + 2)) eqn:E1; [discriminate|].
  destruct (negb (c =? checksum d l i ps)) eqn:E2; [discriminate|]. b2p. by simplify_eq/=.
Qed.

(** ** Facts: the stream parser *)

Definition frame_of (k : St3215Packet) : Bytes :=
  [kHeaderByte; kHeaderByte; pk_device_id k; Z.of_nat (length (pk_parameters k)) + 2;
   pk_instruction_or_status k] ++ pk_parameters k ++
  [checksum (pk_device_id k) (Z.of_nat (length (pk_parameters k)) + 2)
     (pk_instruction_or_status k) (pk_parameters k)].

Lemma length_frame_of k : length (frame_of k) = (length (pk_parameters k) + 6)%nat.
Proof. unfold frame_of. rewrite !length_app. cbn. lia. Qed.

Lemma skip_to_header_cons a b rest :
  skip_to_header (a :: b :: rest) =
  if (a =? kHeaderByte) && (b =? kHeaderByte) then a :: b :: rest
  else skip_to_header (b :: rest).
Proof. done. Qed.

Lemma skip_to_header_suffix buffer : exists garbage, buffer = garbage ++ skip_to_header buffer.
Proof.
  induction buffer as [|a [|b rest] IH]; [by exists []..|].
  rewrite skip_to_header_cons. destruct (_ && _); [by exists []|].
  destruct IH as [g Hg]. exists (a :: g). cbn [app]. by rewrite <- Hg.
Qed.

Lemma skip_to_header_length buffer : (length (skip_to_header buffer) <= length buffer)%nat.
Proof.
  destruct (skip_to_header_suffix buffer) as [g Hg]. rewrite Hg at 2.
  rewrite length_app. lia.
Qed.

Lemma skip_to_header_here rest :
  skip_to_header (kHeaderByte :: kHeaderByte :: rest) = kHeaderByte :: kHeaderByte :: rest.
Proof. done. Qed.

(** No [FF FF] inside [garbage] or across its end. *)
Fixpoint no_header (garbage : Bytes) (following : Z) : Prop :=
  match garbage with
  | [] => True
  | a :: rest =>
      ~ (a = kHeaderByte /\ match rest with [] => following | b :: _ => b end = kHeaderByte) /\
      no_header rest following
  end.

Lemma skip_to_header_garbage garbage x rest :
  no_header garbage x -> skip_to_header (garbage ++ x :: rest) = skip_to_header (x :: rest).
Proof.
  induction garbage as [|a g IH]; intros H; [done|]. cbn in H. destruct H as [Hn Hg].
  destruct g as [|b g]; cbn [app] in *.
  - rewrite skip_to_header_cons.
    destruct (_ && _) eqn:E; [|done]. b2p. tauto.
  - rewrite skip_to_header_cons.
    destruct (_ && _) eqn:E; [b2p; tauto|]. by apply IH.
Qed.

(** A packet that the wire can carry. *)
Definition wire_packet (k : St3215Packet) : Prop :=
  (length (pk_parameters k) <= kSt3215MaximumParameters)%nat.

Lemma next_frame k rest :
  wire_packet k -> next (frame_of k ++ rest) = (rest, success (Some k)).
Proof.
  intros Hk. unfold wire_packet, kSt3215MaximumParameters in Hk.
  unfold next. assert (skip_to_header (frame_of k ++ rest) = frame_of k ++ rest) as ->
    by apply skip_to_header_here.
  rewrite length_app, length_frame_of, (proj2 (Nat.ltb_ge _ _)) by lia.
  assert (byte_at (frame_of k ++ rest) 3 = Z.of_nat (length (pk_parameters k)) + 2) as -> by done.
  rewrite (proj2 (Z.ltb_ge _ _)) by lia.
  replace (Z.to_nat (Z.of_nat (length (pk_parameters k)) + 2 + 4)) with (length (frame_of k))
    by (rewrite length_frame_of; lia).
  rewrite length_frame_of at 1. unfold kSt3215MaximumFrameSize.
  rewrite (proj2 (Nat.ltb_ge _ _)) by lia.
  rewrite length_frame_of at 1. rewrite (proj2 (Nat.ltb_ge _ _)) by lia.
  unfold discard_prefix. rewrite drop_app_length, take_app_length.
  unfold frame_of at 1. rewrite decode_packet_shape, Z.eqb_refl.
  rewrite (proj2 (Z.ltb_ge _ _)) by lia. cbn. rewrite Z.eqb_refl. by destruct k.
Qed.

(** An incomplete frame stays in the buffer untouched. *)
Lemma next_incomplete k part missing :
  wire_packet k -> frame_of k = part ++ missing -> missing <> [] ->
  next part = (part, success None).
Proof.
  intros Hk Hf Hm. unfold wire_packet, kSt3215MaximumParameters in Hk.
  assert (length part < length (frame_of k))%nat as Hl.
  { rewrite Hf, length_app. destruct missing; [done|]. cbn. lia. }
  assert (skip_to_header part = part) as Hs.
  { destruct part as [|a [|b part]]; [done..|]. cbn in Hf. simplify_eq. done. }
  unfold next. rewrite Hs. destruct (length part <? 4)%nat eqn:E4; [done|].
  apply Nat.ltb_ge in E4.
  assert (byte_at part 3 = Z.of_nat (length (pk_parameters k)) + 2) as ->.
  { do 4 (destruct part as [|? part]; [cbn in E4; lia|]). cbn in Hf. by simplify_eq. }
  rewrite (proj2 (Z.ltb_ge _ _)) by lia.
  replace (Z.to_nat (Z.of_nat (length (pk_parameters k)) + 2 + 4)) with (length (frame_of k))
    by (rewrite length_frame_of; lia).
  rewrite length_frame_of at 1. unfold kSt3215MaximumFrameSize.
  rewrite (proj2 (Nat.ltb_ge _ _)) by lia.
  by rewrite (proj2 (Nat.ltb_lt _ _) Hl).
Qed.

(** The whole of a frame, its checksum included, adds up to 255 modulo 256. *)
Lemma frame_sum d l i ps c :
  c = checksum d l i ps ->
  (sum (d :: l :: i :: ps ++ [c])) mod 256 = 255.
Proof.
  intros ->. change (sum (d :: l :: i :: ps ++ [checksum d l i ps])) with
    (d + (l + (i + sum (ps ++ [checksum d l i ps])))).
  rewrite sum_app. cbn [sum foldr]. unfold checksum, wrap, Z.lnot.
  change (2 ^ 8) with 256. set (t := d + l + i + sum ps).
  replace (d + (l + (i + (sum ps + (Z.pred (- t) mod 256 + 0))))) with
    (t + Z.pred (- t) mod 256) by (unfold t; lia).
  rewrite Zplus_mod_idemp_r. replace (t + Z.pred (- t)) with (-1) by lia. done.
Qed.

Lemma sum_cons x xs : sum (x :: xs) = x + sum xs.
Proof. done. Qed.

Lemma sum_insert xs j x y :
  xs !! j = Some y -> sum (<[j := x]> xs) = sum xs + (x - y).
Proof.
  revert j. induction xs as [|z xs IH]; intros [|j] H; try discriminate.
  - injection H as ->. change (<[0%nat := x]> (y :: xs)) with (x :: xs). rewrite !sum_cons. lia.
  - change (<[S j := x]> (z :: xs)) with (z :: <[j := x]> xs). rewrite !sum_cons, (IH j H). lia.
Qed.

Lemma decode_packet_sum p k :
  decode_packet p = success k ->
  exists body, p = kHeaderByte :: kHeaderByte :: body /\ sum body mod 256 = 255.
Proof.
  intros H%decode_packet_inv.
  eexists. split; [exact H|]. by apply (frame_sum _ _ _ (pk_parameters k)).
Qed.

(** ** Packet theorems *)

(** Packets round trip: whatever the device, the instruction and up to 253
    parameters are, the encoder produces a frame of six more bytes, at most 259,
    and the decoder gives the packet back; more parameters are refused. *)
Theorem packet_roundtrip d i ps :
  match encode_packet d i ps with
  | success bytes =>
      decode_packet bytes = success (mkPacket d i ps) /\
      length bytes = (length ps + 6)%nat /\ (length bytes <= kSt3215MaximumFrameSize)%nat
  | failure e => code e = invalid_argument /\ (kSt3215MaximumParameters < length ps)%nat
  end.
Proof.
  destruct (le_lt_dec (length ps) kSt3215MaximumParameters) as [Hl|Hl].
  - rewrite encode_packet_shape by exact Hl. rewrite decode_packet_shape, Z.eqb_refl.
    rewrite (proj2 (Z.ltb_ge _ _)) by lia. cbn [negb orb]. rewrite Z.eqb_refl.
    unfold kSt3215MaximumParameters, kSt3215MaximumFrameSize in *.
    split_and!; [done|rewrite !length_app; cbn; lia..].
  - unfold encode_packet. by rewrite (proj2 (Nat.ltb_lt _ _) Hl).
Qed.

(** The decoder accepts only canonical frames: a byte string it accepts is the
    encoding of the packet it returns. *)
Theorem decode_packet_canonical p k :
  Forall is_byte p -> decode_packet p = success k ->
  encode_packet (pk_device_id k) (pk_instruction_or_status k) (pk_parameters k) = success p.
Proof.
  intros Hb H%decode_packet_inv. rewrite encode_packet_shape; [by rewrite <- H|].
  rewrite H in Hb. cbn [app] in Hb. do 3 apply Forall_cons_1, proj2 in Hb.
  apply Forall_cons_1, proj1 in Hb.
  unfold is_word, kSt3215MaximumParameters in *. change (2 ^ 8) with 256 in Hb. lia.
Qed.

(** Every single-byte corruption is detected: changing any one byte of a valid
    frame, header, length and checksum included, makes the decoder fail. *)
Theorem corruption_detected p k j x :
  Forall is_byte p -> decode_packet p = success k ->
  (j < length p)%nat -> is_byte x -> p !! j <> Some x ->
  has_value (decode_packet (<[j := x]> p)) = false.
Proof.
  intros Hb Hk Hj Hx Hne.
  destruct (decode_packet (<[j := x]> p)) as [k'|] eqn:Hk'; [|done]. exfalso.
  destruct (decode_packet_sum _ _ Hk) as (body & -> & Hs).
  destruct (decode_packet_sum _ _ Hk') as (body' & Hp' & Hs').
  destruct j as [|[|j]]; [by injection Hp' as -> _; apply Hne..|].
  change (kHeaderByte :: kHeaderByte :: <[j := x]> body = kHeaderByte :: kHeaderByte :: body') in Hp'.
  injection Hp' as <-. change (body !! j <> Some x) in Hne.
  cbn in Hj. destruct (lookup_lt_is_Some_2 body j) as [y Hy]; [lia|].
  rewrite Hy in Hne. rewrite (sum_insert _ _ _ _ Hy) in Hs'.
  assert (is_byte y) as Hyb.
  { do 2 apply Forall_cons_1, proj2 in Hb. by apply (Forall_lookup_1 _ _ _ _ Hb Hy). }
  unfold is_word in *. change (2 ^ 8) with 256 in *.
  assert ((x - y) mod 256 = 0) as Hd.
  { replace (x - y) with (sum body + (x - y) - sum body) by lia.
    rewrite Zminus_mod, Hs, Hs'. done. }
  apply Z.mod_divide in Hd as [q Hq]; [|lia].
  assert (q = 0) by lia. assert (x = y) by lia. congruence.
Qed.

(** ** Stream theorems *)

(** The parser resynchronises: noise that holds no header is skipped and the
    frame behind it is returned, leaving what follows in the buffer. *)
Theorem next_resynchronises garbage k rest :
  wire_packet k -> no_header garbage kHeaderByte ->
  next (garbage ++ frame_of k ++ rest) = (rest, success (Some k)).
Proof.
  intros Hk Hg. rewrite <- (next_frame k rest Hk).
  unfold next. change (frame_of k ++ rest) with (kHeaderByte :: drop 1 (frame_of k ++ rest)).
  by rewrite skip_to_header_garbage.
Qed.

(** The parser cannot stall or overflow: a call never grows the buffer, an error
    or a packet consumes at least two bytes, and when it asks for more bytes it
    holds less than one maximal frame, so an append of up to a maximal frame always
    fits. *)
Theorem next_progress buffer :
  let '(rest, r) := next buffer in
  (length rest <= length buffer)%nat /\
  match r with
  | success None => (length rest < kSt3215MaximumFrameSize)%nat
  | _ => (length rest + 2 <= length buffer)%nat
  end.
Proof.
  pose proof (skip_to_header_length buffer) as Hs. unfold next.
  set (b := skip_to_header buffer) in *. unfold discard_prefix.
  destruct (length b <? 4)%nat eqn:E1.
  { apply Nat.ltb_lt in E1. unfold kSt3215MaximumFrameSize. lia. }
  apply Nat.ltb_ge in E1. destruct (byte_at b 3 <? 2) eqn:E2.
  { rewrite length_drop. cbn. lia. }
  b2p. destruct (kSt3215MaximumFrameSize <? _)%nat eqn:E3.
  { rewrite length_drop. cbn. lia. }
  apply Nat.ltb_ge in E3. destruct (length b <? _)%nat eqn:E4.
  { apply Nat.ltb_lt in E4. lia. }
  apply Nat.ltb_ge in E4. rewrite length_drop.
  split; [lia|]. destruct (decode_packet _); lia.
Qed.

(** Take every packet the buffer holds; [next_progress] bounds the number of calls by
    the buffer length. *)
Fixpoint drain (fuel : nat) (buffer : Bytes) : list St3215Packet * Bytes :=
  match fuel with
  | O => ([], buffer)
  | S fuel =>
      match next buffer with
      | (rest, success (Some k)) => let '(ks, rest) := drain fuel rest in (k :: ks, rest)
      | (rest, _) => ([], rest)
      end
  end.

(** Append each chunk as it arrives and take the packets it completes. *)
Fixpoint receive (buffer : Bytes) (chunks : list Bytes) : list St3215Packet * Bytes :=
  match chunks with
  | [] => ([], buffer)
  | chunk :: chunks =>
      let buffer := (append buffer chunk).1 in
      let '(ks, buffer) := drain (S (length buffer)) buffer in
      let '(ks', buffer) := receive buffer chunks in (ks ++ ks', buffer)
  end.

Definition stream (ks : list St3215Packet) : Bytes := concat (map frame_of ks).

(** A drained buffer holds less than the first frame still expected. *)
Definition drained (ks : list St3215Packet) (buffer : Bytes) : Prop :=
  match ks with
  | [] => buffer = []
  | k :: _ => (length buffer < length (frame_of k))%nat
  end.

Lemma wire_frame_length k :
  wire_packet k -> (length (frame_of k) <= kSt3215MaximumFrameSize)%nat.
Proof.
  rewrite length_frame_of. unfold wire_packet, kSt3215MaximumParameters, kSt3215MaximumFrameSize.
  lia.
Qed.

Lemma drained_bound ks buffer :
  Forall wire_packet ks -> drained ks buffer ->
  (length buffer < kSt3215MaximumFrameSize)%nat.
Proof.
  destruct 1 as [|k ks Hk _]; cbn -[frame_of].
  - intros ->. unfold kSt3215MaximumFrameSize. cbn. lia.
  - pose proof (wire_frame_length k Hk). lia.
Qed.

Lemma drain_stream ks buffer future fuel :
  Forall wire_packet ks -> buffer ++ future = stream ks -> (length buffer < fuel)%nat ->
  exists ks1 ks2 rest,
    drain fuel buffer = (ks1, rest) /\ ks = ks1 ++ ks2 /\ rest ++ future = stream ks2 /\
    drained ks2 rest.
Proof.
  intros Hw. revert buffer fuel. induction Hw as [|k ks Hk Hks IH]; intros buffer fuel Hs Hf.
  - apply app_nil in Hs as [-> ->]. exists [], [], [].
    by destruct fuel.
  - destruct fuel as [|fuel]; [lia|]. cbn [stream map concat] in Hs. fold (stream ks) in Hs.
    destruct (le_lt_dec (length (frame_of k)) (length buffer)) as [Hl|Hl].
    + assert (exists rest, buffer = frame_of k ++ rest) as [rest ->].
      { exists (drop (length (frame_of k)) buffer).
        rewrite <- (take_drop (length (frame_of k)) buffer) at 1. f_equal.
        rewrite <- (take_app_le buffer future) by lia. rewrite Hs. apply take_app_length. }
      rewrite <- (assoc_L (++)) in Hs. apply app_inv_head in Hs.
      destruct (IH rest fuel Hs) as (ks1 & ks2 & rest' & Hd & -> & Hr & Hlr).
      { rewrite length_app, length_frame_of in Hf. lia. }
      exists (k :: ks1), ks2, rest'. cbn [drain]. rewrite next_frame by done. by rewrite Hd.
    + assert (frame_of k = buffer ++ drop (length buffer) (frame_of k)) as Hb.
      { rewrite <- (take_drop (length buffer) (frame_of k)) at 1. f_equal.
        rewrite <- (take_app_le (frame_of k) (stream ks)) by lia. rewrite <- Hs.
        apply take_app_length. }
      exists [], (k :: ks), buffer. cbn [drain].
      rewrite (next_incomplete k buffer _ Hk Hb).
      2: { intros He. rewrite He, app_nil_r in Hb. rewrite Hb in Hl. lia. }
      by split_and!.
Qed.

Lemma receive_from buffer ks chunks :
  Forall wire_packet ks -> drained ks buffer ->
  Forall (fun c => (length c <= kSt3215MaximumFrameSize)%nat) chunks ->
  buffer ++ concat chunks = stream ks ->
  receive buffer chunks = (ks, []).
Proof.
  intros Hw Hb Hc. revert buffer ks Hw Hb.
  induction Hc as [|c chunks Hcl Hc IH]; intros buffer ks Hw Hb Hs; cbn [receive].
  - cbn [concat] in Hs. rewrite app_nil_r in Hs. subst buffer.
    destruct ks as [|k ks]; [done|]. exfalso.
    unfold drained, stream in Hb. cbn [map concat] in Hb. rewrite length_app in Hb. lia.
  - cbn [concat] in Hs. rewrite (assoc_L (++)) in Hs.
    pose proof (drained_bound _ _ Hw Hb).
    unfold append. rewrite (proj2 (Nat.ltb_ge _ _)) by (unfold kCapacity; lia). cbn [fst].
    destruct (drain_stream ks (buffer ++ c) (concat chunks) (S (length (buffer ++ c))) Hw Hs)
      as (ks1 & ks2 & rest & Hd & -> & Hr & Hl); [lia|].
    rewrite Hd. cbn iota beta. apply Forall_app in Hw as [_ Hw2].
    by rewrite (IH rest ks2 Hw2 Hl Hr).
Qed.

(** Framing is independent of how the bytes arrive: the wire bytes of any
    sequence of packets, cut into chunks of at most one maximal frame in any way,
    give back exactly those packets, in order, with nothing left over. *)
Theorem receive_stream ks chunks :
  Forall wire_packet ks ->
  Forall (fun c => (length c <= kSt3215MaximumFrameSize)%nat) chunks ->
  concat chunks = stream ks ->
  receive [] chunks = (ks, []).
Proof.
  intros Hw Hc Hs. apply receive_from; [done| |done..].
  destruct ks; [done|]. unfold drained. rewrite length_frame_of. cbn. lia.
Qed.

(** ** Position conversions *)

Definition position_roundtrips (u : Z) : bool :=
  match position_units_to_radians u 4095 with
  | success r =>
      match radians_to_position_units r 4095 with success v => v =? u | failure _ => false end
  | failure _ => false
  end.

Lemma positions_roundtrip :
  forallb (fun n => position_roundtrips (Z.of_nat n)) (seq 0 4095) = true.
Proof. vm_compute. reflexivity. Qed.

(** For the servo's default range of 4095 units, converting a position to
    radians in binary64 and back, through the [fmod], the division and the
    round-half-even of the code, returns every position below the full turn. *)
Theorem position_roundtrip u :
  0 <= u < 4095 ->
  exists r, position_units_to_radians u 4095 = success r /\
    radians_to_position_units r 4095 = success u.
Proof.
  intros Hu. pose proof positions_roundtrip as H. rewrite forallb_forall in H.
  specialize (H (Z.to_nat u)). rewrite in_seq, Z2Nat.id in H by lia.
  specialize (H ltac:(lia)). unfold position_roundtrips in H.
  destruct (position_units_to_radians u 4095) as [r|]; [|done]. exists r. split; [done|].
  destruct (radians_to_position_units r 4095); [|done]. b2p. by subst.
Qed.

(** The full turn itself comes back as zero. *)
Example full_turn_wraps :
  match position_units_to_radians 4095 4095 with
  | success r => radians_to_position_units r 4095 = success 0
  | failure _ => False
  end.
Proof. vm_compute. reflexivity. Qed.

(** ** Witnesses *)

Definition sample_packet : St3215Packet := mkPacket 1 0 [0x18; 0x05].

Lemma decode_packet_canonical_witness :
  encode_packet 1 0 [0x18; 0x05] = success [0xff; 0xff; 1; 4; 0; 0x18; 5; 0xdd].
Proof.
  apply (decode_packet_canonical _ sample_packet).
  - repeat constructor; cbn; lia.
  - vm_compute. reflexivity.
Defined.

Lemma corruption_detected_witness :
  has_value (decode_packet (<[5%nat := 0x19]> [0xff; 0xff; 1; 4; 0; 0x18; 5; 0xdd])) = false.
Proof.
  apply (corruption_detected _ sample_packet).
  - repeat constructor; cbn; lia.
  - vm_compute. reflexivity.
  - cbn. lia.
  - split; cbn; lia.
  - cbn. congruence.
Defined.

Lemma next_resynchronises_witness :
  next ([7; 0xff; 9] ++ frame_of sample_packet ++ [0xff]) = ([0xff], success (Some sample_packet)).
Proof.
  apply next_resynchronises.
  - vm_compute. repeat constructor.
  - cbn. split_and!; try done; intros [? ?]; discriminate.
Defined.

Lemma receive_stream_witness :
  receive [] [[0xff]; [0xff; 1; 4; 0; 0x18; 5]; [0xdd]] = ([sample_packet], []).
Proof.
  apply receive_stream.
  - repeat constructor.
  - repeat constructor.
  - vm_compute. reflexivity.
Defined.

Lemma position_roundtrip_witness :
  exists r, position_units_to_radians 1024 4095 = success r /\
    radians_to_position_units r 4095 = success 1024.
Proof. apply position_roundtrip. lia. Defined.
