(* ===== verification/Serial.v ===== *)
(** * The serial transport

    [transport/serial/serial_transport.cpp]: queues, framing, bounded reads and
    writes, error publication and the life cycle of the port.

    The operating system is an explicit environment ([World]): for each system call
    the list of outcomes it will give, in order.  The list of a poll says when the
    deadline has passed; a list that is exhausted stands for "nothing more happens
    before the deadline" (a write would block, a poll times out).  Every loop of the
    code consumes an outcome per turn, so the length of the lists bounds it. *)
From S2P Require Export St3215Protocol.

(** ** Data *)

Definition kMaximumFrameStorage : nat := 259.
Definition kMaximumReadBuffer : nat := 4096.
Definition kQueueCapacity : nat := 64.
Definition kMaximumIoTimeout : Z := 100.

Record SerialConfig := mkSerialConfig {
  sr_path : string;
  sr_baud_rate : Z;
  sr_read_buffer_size : nat;
  sr_maximum_frame_size : nat;
  sr_read_timeout_ms : Z;
  sr_write_timeout_ms : Z }.

Inductive SerialError := e_none | e_timeout | e_framing | e_io | e_closed | e_queue_full | e_internal.

#[export] Instance SerialError_eq_dec : EqDecision SerialError.
Proof. solve_decision. Defined.

Record Frame := mkFrame { fr_channel : Z; fr_data : Bytes }.

Definition Frame_zero : Frame := mkFrame 0 [].

(** [serial_speed]: the supported baud rates (Linux defines all of them). *)
Definition serial_speed (baud_rate : Z) : option Z :=
  if existsb (Z.eqb baud_rate)
       [9600; 19200; 38400; 57600; 115200; 230400; 460800; 500000; 576000; 921600; 1000000;
        1152000; 2000000]
  then Some baud_rate else None.

(** ** The environment *)

Inductive write_result := wr_written (count : nat) | wr_eintr | wr_again | wr_error.

Record revents := mkRevents {
  rv_in : bool; rv_err : bool; rv_hup : bool; rv_nval : bool }.

Inductive poll_result :=
  | pl_expired (* the deadline has passed before the poll *)
  | pl_eintr
  | pl_timeout
  | pl_error
  | pl_ready (port wake : revents).

Inductive read_result := rd_bytes (bytes : Bytes) | rd_eintr | rd_again | rd_error.

(** [wd_sent] is what the port has put on the wire. *)
Record World := mkWorld {
  wd_writes : list write_result;
  wd_polls : list poll_result;
  wd_reads : list read_result;
  wd_sent : Bytes }.

Definition next_write (w : World) : World * write_result :=
  match wd_writes w with
  | [] => (w, wr_again)
  | r :: rs => (mkWorld rs (wd_polls w) (wd_reads w) (wd_sent w), r)
  end.

Definition next_poll (w : World) : World * poll_result :=
  match wd_polls w with
  | [] => (w, pl_expired)
  | r :: rs => (mkWorld (wd_writes w) rs (wd_reads w) (wd_sent w), r)
  end.

Definition next_read (w : World) : World * read_result :=
  match wd_reads w with
  | [] => (w, rd_again)
  | r :: rs => (mkWorld (wd_writes w) (wd_polls w) rs (wd_sent w), r)
  end.

Definition send (w : World) (bytes : Bytes) : World :=
  mkWorld (wd_writes w) (wd_polls w) (wd_reads w) (wd_sent w ++ bytes).

Definition world_size (w : World) : nat :=
  length (wd_writes w) + length (wd_polls w) + length (wd_reads w).

(** ** The fixed-size queues *)

Module Ring.

#[local] Arguments Nat.modulo : simpl never.

Record ring := mkRing { rg_queue : list Frame; rg_head : nat; rg_size : nat }.

Definition empty : ring := mkRing (replicate kQueueCapacity Frame_zero) 0 0.

Definition push (r : ring) (frame : Frame) : ring * bool :=
  let capacity := length (rg_queue r) in
  if (capacity <=? rg_size r)%nat then (r, false)
  else
    (mkRing (<[((rg_head r + rg_size r) mod capacity)%nat := frame]> (rg_queue r)) (rg_head r)
       (S (rg_size r)), true).

Definition pop (r : ring) : ring * option Frame :=
  if Nat.eqb (rg_size r) 0 then (r, None)
  else
    (mkRing (rg_queue r) ((rg_head r + 1) mod length (rg_queue r)) (rg_size r - 1),
     rg_queue r !! rg_head r).

Definition front (r : ring) : option Frame :=
  if Nat.eqb (rg_size r) 0 then None else rg_queue r !! rg_head r.

(** The abstraction: the frames in queue order. *)
Definition contents (r : ring) : list Frame :=
  map (fun i => default Frame_zero (rg_queue r !! ((rg_head r + i) mod length (rg_queue r))%nat))
      (seq 0 (rg_size r)).

Record ring_ok (r : ring) : Prop := {
  ro_capacity : length (rg_queue r) = kQueueCapacity;
  ro_head : (rg_head r < kQueueCapacity)%nat;
  ro_size : (rg_size r <= kQueueCapacity)%nat }.

Lemma ring_mod_distinct h i j :
  (i < j)%nat -> (j < kQueueCapacity)%nat ->
  ((h + i) mod kQueueCapacity)%nat <> ((h + j) mod kQueueCapacity)%nat.
Proof.
  unfold kQueueCapacity. intros Hij Hj E.
  pose proof (Nat.div_mod_eq (h + i) 64). pose proof (Nat.div_mod_eq (h + j) 64). lia.
Qed.

Lemma contents_lookup r i :
  (i < rg_size r)%nat ->
  contents r !! i =
    Some (default Frame_zero (rg_queue r !! ((rg_head r + i) mod length (rg_queue r))%nat)).
Proof. intros Hi. unfold contents. by rewrite list_lookup_fmap, lookup_seq_lt. Qed.

Lemma contents_length r : length (contents r) = rg_size r.
Proof. unfold contents. by rewrite length_map, length_seq. Qed.

Lemma push_contents r f :
  ring_ok r ->
  let '(r', ok) := push r f in
  ring_ok r' /\ ok = (length (contents r) <? kQueueCapacity)%nat /\
  contents r' = if ok then contents r ++ [f] else contents r.
Proof.
  intros [Hc Hh Hs]. unfold push. rewrite Hc, contents_length.
  destruct (kQueueCapacity <=? rg_size r)%nat eqn:E.
  - apply Nat.leb_le in E. rewrite (proj2 (Nat.ltb_ge _ _)) by lia. by repeat split.
  - apply Nat.leb_gt in E. rewrite (proj2 (Nat.ltb_lt _ _)) by lia. split_and!; [|done|].
    + split; cbn; rewrite ?length_insert; done || lia.
    + unfold contents at 1. cbn [rg_size rg_queue rg_head]. rewrite seq_S, map_app. f_equal.
      * apply map_ext_in. intros i Hi%in_seq. rewrite length_insert, Hc.
        rewrite list_lookup_insert_ne; [done|]. apply not_eq_sym, ring_mod_distinct; lia.
      * cbn. rewrite length_insert, Hc. rewrite list_lookup_insert_eq; [done|].
        rewrite Hc. apply Nat.mod_upper_bound. unfold kQueueCapacity. lia.
Qed.

Lemma pop_contents r :
  ring_ok r ->
  let '(r', f) := pop r in
  ring_ok r' /\ f = head (contents r) /\ contents r' = tail (contents r).
Proof.
  intros [Hc Hh Hs]. unfold pop. destruct (rg_size r) as [|n] eqn:E; cbn [Nat.eqb].
  - split; [by split; rewrite ?E|]. unfold contents. by rewrite E.
  - split; [split; cbn; try done; [|lia]|].
    { rewrite Hc. apply Nat.mod_upper_bound. unfold kQueueCapacity. lia. }
    unfold contents. rewrite E. cbn [seq map head tail rg_size rg_queue rg_head].
    rewrite Hc, Nat.add_0_r, Nat.mod_small by done. split.
    + destruct (lookup_lt_is_Some_2 (rg_queue r) (rg_head r)) as [f ->]; [lia|done].
    + rewrite Nat.sub_1_r. cbn [pred]. rewrite <- seq_shift, map_map.
      apply map_ext_in. intros i Hi.
      rewrite Nat.Div0.add_mod_idemp_l by (unfold kQueueCapacity; lia).
      do 3 f_equal. lia.
Qed.

Lemma empty_ok : ring_ok empty.
Proof. split; cbn; unfold kQueueCapacity; lia || done. Qed.

End Ring.

(** ** [SerialTransport] *)

Module SerialTransport.

Record Serial := mkSerial {
  sl_config : SerialConfig;
  sl_tx : Ring.ring;
  sl_rx : Ring.ring;
  sl_stream : Bytes;
  sl_opened : bool;
  sl_health : TransportHealth;
  sl_last_error : SerialError;
  sl_timeout_count : Z;
  sl_io_error_count : Z;
  sl_world : World }.

Definition create (config : SerialConfig) (world : World) : Serial :=
  mkSerial config Ring.empty Ring.empty [] false failed e_closed 0 0 world.

Definition set_world (s : Serial) (w : World) : Serial :=
  mkSerial (sl_config s) (sl_tx s) (sl_rx s) (sl_stream s) (sl_opened s) (sl_health s)
    (sl_last_error s) (sl_timeout_count s) (sl_io_error_count s) w.
Definition set_stream (s : Serial) (bytes : Bytes) : Serial :=
  mkSerial (sl_config s) (sl_tx s) (sl_rx s) bytes (sl_opened s) (sl_health s)
    (sl_last_error s) (sl_timeout_count s) (sl_io_error_count s) (sl_world s).
Definition set_tx (s : Serial) (r : Ring.ring) : Serial :=
  mkSerial (sl_config s) r (sl_rx s) (sl_stream s) (sl_opened s) (sl_health s)
    (sl_last_error s) (sl_timeout_count s) (sl_io_error_count s) (sl_world s).
Definition set_rx (s : Serial) (r : Ring.ring) : Serial :=
  mkSerial (sl_config s) (sl_tx s) r (sl_stream s) (sl_opened s) (sl_health s)
    (sl_last_error s) (sl_timeout_count s) (sl_io_error_count s) (sl_world s).
Definition set_error (s : Serial) (e : SerialError) (h : TransportHealth) : Serial :=
  mkSerial (sl_config s) (sl_tx s) (sl_rx s) (sl_stream s) (sl_opened s) h
    e (sl_timeout_count s) (sl_io_error_count s) (sl_world s).

(** The inner [EINTR] loop around every poll. *)
Fixpoint poll_loop (polls : list poll_result) : list poll_result * poll_result :=
  match polls with
  | [] => ([], pl_expired)
  | pl_eintr :: polls => poll_loop polls
  | p :: polls => (polls, p)
  end.

Definition poll (w : World) : World * poll_result :=
  let '(polls, p) := poll_loop (wd_polls w) in
  (mkWorld (wd_writes w) polls (wd_reads w) (wd_sent w), p).

Definition wake_requested (r : revents) : bool := rv_in r || rv_err r || rv_hup r || rv_nval r.

(** [write_all]: [data] is what is left of the frame; the deadline of a zero time-out
    has always passed. *)
Fixpoint write_loop (fuel : nat) (timeout_ms : Z) (data : Bytes) (w : World)
    : World * SerialError :=
  match data, fuel with
  | [], _ => (w, e_none)
  | _, O => (w, e_timeout)
  | _, S fuel =>
      let wait w :=
        if timeout_ms <=? 0 then (w, e_timeout)
        else
          let '(w, p) := poll w in
          match p with
          | pl_expired | pl_timeout | pl_eintr => (w, e_timeout)
          | pl_error => (w, e_io)
          | pl_ready port wake =>
              if rv_err port || rv_hup port || rv_nval port then (w, e_io)
              else if wake_requested wake then (w, e_closed)
              else write_loop fuel timeout_ms data w
          end in
      let '(w, r) := next_write w in
      match r with
      | wr_written count =>
          let count := Nat.min count (length data) in
          if (0 <? count)%nat
          then write_loop fuel timeout_ms (drop count data) (send w (take count data))
          else wait w
      | wr_eintr => write_loop fuel timeout_ms data w
      | wr_again => wait w
      | wr_error => (w, e_io)
      end
  end.

Definition write_all (s : Serial) (frame : Frame) : Serial * SerialError :=
  let '(w, e) :=
    write_loop (length (fr_data frame) + world_size (sl_world s) + 1)
      (sr_write_timeout_ms (sl_config s)) (fr_data frame) (sl_world s) in
  (set_world s w, e).

(** [extract_frame]: the header search is the one of the stream parser; a bad length
    skips the header and tries again, two bytes further, so the length of the stream
    is enough fuel ([extract_frame_enough]). *)
Fixpoint extract_loop (fuel maximum_frame_size : nat) (stream : Bytes) (saw_framing_error : bool)
    : Bytes * option Frame * bool :=
  let stream := skip_to_header stream in
  if (length stream <? 4)%nat then (stream, None, saw_framing_error)
  else
    let len := byte_at stream 3 in
    let frame_size := Z.to_nat (len + 4) in
    if (len <? 2) || (maximum_frame_size <? frame_size)%nat ||
       (kMaximumFrameStorage <? frame_size)%nat
    then
      match fuel with
      | O => (drop 2 stream, None, true)
      | S fuel => extract_loop fuel maximum_frame_size (drop 2 stream) true
      end
    else if (length stream <? frame_size)%nat then (stream, None, saw_framing_error)
    else (drop frame_size stream, Some (mkFrame 0 (take frame_size stream)), saw_framing_error).

Definition extract_frame (maximum_frame_size : nat) (stream : Bytes) (saw : bool)
    : Bytes * option Frame * bool :=
  extract_loop (length stream) maximum_frame_size stream saw.

Definition maximum_frame_size (s : Serial) : nat := sr_maximum_frame_size (sl_config s).
Definition kStreamCapacity : nat := 2 * kMaximumFrameStorage.

(** Queue an extracted frame. *)
Definition deliver (s : Serial) (frame : Frame) : Serial * SerialError :=
  let '(rx, ok) := Ring.push (sl_rx s) frame in
  (set_rx s rx, if ok then e_none else e_queue_full).

Definition no_data (saw_framing_error : bool) : SerialError :=
  if saw_framing_error then e_framing else e_timeout.

(** The loop of [receive_one]; a non-blocking call polls at least once and stops at
    the first turn that brings no frame. *)
Fixpoint receive_loop (fuel : nat) (nonblocking polled saw : bool) (s : Serial)
    : Serial * SerialError :=
  match fuel with
  | O => (s, no_data saw)
  | S fuel =>
      if nonblocking && polled then (s, no_data saw)
      else
        let '(w, p) := poll (sl_world s) in
        let s := set_world s w in
        match p with
        | pl_expired | pl_timeout | pl_eintr => (s, no_data saw)
        | pl_error => (s, e_io)
        | pl_ready port wake =>
            if wake_requested wake then (s, e_closed)
            else if rv_err port || rv_nval port then (s, e_io)
            else if negb (rv_in port || rv_hup port)
            then receive_loop fuel nonblocking true saw s
            else
              let '(w, r) := next_read (sl_world s) in
              let s := set_world s w in
              match r with
              | rd_eintr | rd_again => receive_loop fuel nonblocking true saw s
              | rd_error => (s, e_io)
              | rd_bytes bytes =>
                  let incoming :=
                    take (Nat.min (sr_read_buffer_size (sl_config s)) kMaximumReadBuffer) bytes in
                  if Nat.eqb (length incoming) 0 then (s, e_io)
                  else
                    let overflow :=
                      (kStreamCapacity - length (sl_stream s) <? length incoming)%nat in
                    let stream := if overflow then [] else sl_stream s in
                    let saw := saw || overflow in
                    if overflow && (kStreamCapacity <? length incoming)%nat
                    then receive_loop fuel nonblocking true saw (set_stream s [])
                    else
                      let '(stream, frame, saw) :=
                        extract_frame (maximum_frame_size s) (stream ++ incoming) saw in
                      let s := set_stream s stream in
                      match frame with
                      | Some frame => deliver s frame
                      | None => receive_loop fuel nonblocking true saw s
                      end
              end
        end
  end.

Definition receive_one (s : Serial) (timeout_ms : Z) : Serial * SerialError :=
  let '(stream, frame, saw) := extract_frame (maximum_frame_size s) (sl_stream s) false in
  let s := set_stream s stream in
  match frame with
  | Some frame => deliver s frame
  | None =>
      receive_loop (S (length (wd_polls (sl_world s)))) (timeout_ms =? 0) false saw s
  end.

(** [tcflush] discards what the port has received. *)
Definition resynchronize_after_timeout (s : Serial) : Serial :=
  let '(s, _) := receive_one s (sr_read_timeout_ms (sl_config s)) in
  set_rx (set_stream s []) (Ring.mkRing (Ring.rg_queue (sl_rx s)) 0 0).

Definition publish_error (s : Serial) (error : SerialError) : Serial :=
  match error with
  | e_none => set_error s error healthy
  | e_timeout =>
      mkSerial (sl_config s) (sl_tx s) (sl_rx s) (sl_stream s) (sl_opened s) degraded error
        (u64 (sl_timeout_count s + 1)) (sl_io_error_count s) (sl_world s)
  | e_framing | e_queue_full => set_error s error degraded
  | e_io | e_closed | e_internal =>
      mkSerial (sl_config s) (sl_tx s) (sl_rx s) (sl_stream s) (sl_opened s) failed error
        (sl_timeout_count s) (u64 (sl_io_error_count s + 1)) (sl_world s)
  end.

Definition publish_unless_timeout (s : Serial) (error : SerialError) : Serial :=
  match error with e_timeout => s | _ => publish_error s error end.

Definition receive_once (s : Serial) : Serial :=
  if negb (sl_opened s) then publish_error s e_closed
  else let '(s, e) := receive_one s 0 in publish_unless_timeout s e.

Definition cycle (s : Serial) : Serial :=
  if negb (sl_opened s) then publish_error s e_closed
  else
    let s :=
      if (0 <? sr_read_timeout_ms (sl_config s)) && bool_decide (sl_last_error s = e_timeout)
      then let s := resynchronize_after_timeout s in set_error s e_none (sl_health s)
      else s in
    let '(tx, outgoing) := Ring.pop (sl_tx s) in
    let s := set_tx s tx in
    match outgoing with
    | None => let '(s, e) := receive_one s 0 in publish_unless_timeout s e
    | Some frame =>
        let '(s, write_error) := write_all s frame in
        if negb (bool_decide (write_error = e_none)) then publish_error s write_error
        else let '(s, e) := receive_one s (sr_read_timeout_ms (sl_config s)) in publish_error s e
    end.

Definition write (s : Serial) (channel : Z) (data : Bytes) : Serial * Result unit :=
  if negb (sl_opened s) then (s, fail unavailable "serial port is closed")
  else if Nat.eqb (length data) 0 || (maximum_frame_size s <? length data)%nat ||
          (kMaximumFrameStorage <? length data)%nat
  then (s, fail invalid_argument "invalid serial frame size")
  else
    let '(tx, ok) := Ring.push (sl_tx s) (mkFrame channel data) in
    if ok then (set_tx s tx, success tt)
    else (set_error s e_queue_full degraded, fail unavailable "serial transmit queue is full").

(** [read] into a buffer of [capacity] bytes. *)
Definition read (s : Serial) (channel : Z) (capacity : nat) : Serial * Result Bytes :=
  if negb (sl_opened s) then (s, fail unavailable "serial port is closed")
  else
    match Ring.front (sl_rx s) with
    | None =>
        (s, if bool_decide (sl_last_error s = e_timeout)
            then fail timeout "serial response timed out"
            else fail unavailable "no serial frame is available")
    | Some frame =>
        if negb (fr_channel frame =? channel)
        then (s, fail unavailable "no serial frame for channel")
        else if (capacity <? length (fr_data frame))%nat
        then (s, fail invalid_argument "serial receive buffer is too small")
        else (set_rx s (Ring.pop (sl_rx s)).1, success (fr_data frame))
    end.

(** ** Opening and closing

    The host: the identities in the process-wide [open_ports] set, the number of open
    descriptors, and whether the terminal settings of the port have been replaced. *)
Abbreviation PortIdentity := (Z * Z * Z)%type.

Record Host := mkHost {
  ho_open_ports : gset PortIdentity;
  ho_descriptors : Z;
  ho_termios_changed : bool }.

(** What the system calls of [open] answer. *)
Record OpenOutcome := mkOpenOutcome {
  oo_open : option ErrorCode;
  oo_exclusive : bool;
  oo_fstat : option PortIdentity;
  oo_getattr : bool;
  oo_configure : bool;
  oo_eventfd : bool }.

(** The life-cycle members: [fd >= 0], the claimed port identity and the saved terminal
    settings. *)
Record Port := mkPort {
  po_serial : Serial;
  po_fd : bool;
  po_identity : option PortIdentity;
  po_original_termios : option bool }.

Definition config_invalid (c : SerialConfig) : bool :=
  String.eqb (sr_path c) "" || bool_decide (serial_speed (sr_baud_rate c) = None) ||
  Nat.eqb (sr_read_buffer_size c) 0 || (kMaximumReadBuffer <? sr_read_buffer_size c)%nat ||
  (sr_maximum_frame_size c <? 6)%nat || (kMaximumFrameStorage <? sr_maximum_frame_size c)%nat ||
  (sr_read_timeout_ms c <? 0) || (sr_write_timeout_ms c <? 0) ||
  (kMaximumIoTimeout <? sr_read_timeout_ms c) || (kMaximumIoTimeout <? sr_write_timeout_ms c).

Definition add_descriptors (h : Host) (n : Z) : Host :=
  mkHost (ho_open_ports h) (ho_descriptors h + n) (ho_termios_changed h).
Definition set_ports (h : Host) (ports : gset PortIdentity) : Host :=
  mkHost ports (ho_descriptors h) (ho_termios_changed h).
Definition set_termios (h : Host) (changed : bool) : Host :=
  mkHost (ho_open_ports h) (ho_descriptors h) changed.

Definition opened_serial (s : Serial) : Serial :=
  mkSerial (sl_config s) (Ring.mkRing (Ring.rg_queue (sl_tx s)) 0 0)
    (Ring.mkRing (Ring.rg_queue (sl_rx s)) 0 0) [] true healthy e_none (sl_timeout_count s)
    (sl_io_error_count s) (sl_world s).

(** [open]; [before] is the terminal state the port had. *)
Definition open (p : Port) (h : Host) (o : OpenOutcome) : Port * Host * Result unit :=
  if sl_opened (po_serial p) then (p, h, success tt)
  else if config_invalid (sl_config (po_serial p))
  then (p, h, fail invalid_argument "invalid serial configuration")
  else
    match oo_open o with
    | Some unavailable => (p, h, fail unavailable "serial port is already open exclusively")
    | Some _ => (p, h, fail io "open serial port")
    | None =>
        let h := add_descriptors h 1 in
        if negb (oo_exclusive o)
        then (p, add_descriptors h (-1), fail unavailable "claim serial port exclusively")
        else
          match oo_fstat o with
          | None => (p, add_descriptors h (-1), fail io "fstat serial port")
          | Some port_identity =>
              if bool_decide (port_identity ∈ ho_open_ports h)
              then (p, add_descriptors h (-1),
                    fail unavailable "serial port is already open in this process")
              else
                let h := set_ports h ({[port_identity]} ∪ ho_open_ports h) in
                let release h := add_descriptors (set_ports h (ho_open_ports h ∖ {[port_identity]})) (-1) in
                if negb (oo_getattr o)
                then (p, release h, fail io "tcgetattr serial port")
                else
                  let before := ho_termios_changed h in
                  let h := set_termios h true in
                  if negb (oo_configure o)
                  then (p, release (set_termios h before), fail io "configure serial port")
                  else if negb (oo_eventfd o)
                  then (p, release (set_termios h before), fail io "create serial stop wakeup")
                  else
                    (mkPort (opened_serial (po_serial p)) true (Some port_identity) (Some before),
                     add_descriptors h 1, success tt)
          end
    end.

Definition closed_serial (s : Serial) : Serial :=
  mkSerial (sl_config s) (sl_tx s) (sl_rx s) (sl_stream s) false failed e_closed
    (sl_timeout_count s) (sl_io_error_count s) (sl_world s).

(** [close]: terminal settings, descriptor, identity and wake descriptor, in that order. *)
Definition close (p : Port) (h : Host) : Port * Host :=
  if negb (sl_opened (po_serial p)) && negb (po_fd p) then (p, h)
  else
    let h :=
      if po_fd p then
        let h :=
          match po_original_termios p with
          | Some original => set_termios h original
          | None => h
          end in
        add_descriptors h (-1)
      else h in
    let h :=
      match po_identity p with
      | Some port_identity => set_ports h (ho_open_ports h ∖ {[port_identity]})
      | None => h
      end in
    let h := if po_fd p then add_descriptors h (-1) else h in
    (mkPort (closed_serial (po_serial p)) false None None, h).

(** ** Facts *)

(** More fuel does not change the extraction. *)
Lemma extract_loop_enough fuel max stream saw extra :
  (length stream <= fuel)%nat ->
  extract_loop (fuel + extra) max stream saw = extract_loop fuel max stream saw.
Proof.
  revert stream saw. induction fuel as [|fuel IH]; intros stream saw Hl.
  - destruct stream; [|cbn in Hl; lia]. by destruct extra.
  - cbn [Nat.add extract_loop]. pose proof (skip_to_header_length stream).
    destruct (length (skip_to_header stream) <? 4)%nat eqn:E; [done|].
    apply Nat.ltb_ge in E. case_match; [|done].
    apply IH. rewrite length_drop. lia.
Qed.

(** A frame as the transport recognises it. *)
Definition framed (max : nat) (bytes : Bytes) : Prop :=
  (4 <= length bytes <= max)%nat /\ (length bytes <= kMaximumFrameStorage)%nat /\
  Z.of_nat (length bytes) = byte_at bytes 3 + 4 /\ 2 <= byte_at bytes 3.

Lemma extract_loop_sound fuel max stream saw :
  let '(rest, frame, _) := extract_loop fuel max stream saw in
  exists garbage,
    match frame with
    | Some f => stream = garbage ++ fr_data f ++ rest /\ framed max (fr_data f)
    | None => stream = garbage ++ rest
    end.
Proof.
  revert stream saw. induction fuel as [|fuel IH]; intros stream saw; cbn [extract_loop];
    destruct (skip_to_header_suffix stream) as [g Hg];
    (destruct (length (skip_to_header stream) <? 4)%nat eqn:E4;
      [by exists g|apply Nat.ltb_ge in E4]);
    set (b := skip_to_header stream) in *;
    (destruct ((byte_at b 3 <? 2) || (max <? Z.to_nat (byte_at b 3 + 4))%nat ||
       (kMaximumFrameStorage <? Z.to_nat (byte_at b 3 + 4))%nat) eqn:E).
  1: { exists (g ++ take 2 b). rewrite <- (assoc_L (++)), take_drop. exact Hg. }
  2: { specialize (IH (drop 2 b) true). destruct (extract_loop _ _ _ _) as [[rest f] s'].
       destruct IH as [g' Hg']. exists (g ++ take 2 b ++ g').
       assert (stream = g ++ take 2 b ++ drop 2 b) as Hst by (by rewrite take_drop).
       destruct f as [f|]; [destruct Hg' as [Hg' Hf]; split; [|exact Hf]|];
         by rewrite Hst, Hg', <- !(assoc_L (++)). }
  all: destruct (length b <? Z.to_nat (byte_at b 3 + 4))%nat eqn:El; [by exists g|].
  all: apply Nat.ltb_ge in El; apply orb_false_iff in E as [[E1 E2]%orb_false_iff E3].
  all: apply Z.ltb_ge in E1; apply Nat.ltb_ge in E2, E3.
  all: exists g; cbn [fr_data]; rewrite take_drop; split; [exact Hg|].
  all: assert (length (take (Z.to_nat (byte_at b 3 + 4)) b) = Z.to_nat (byte_at b 3 + 4)) as Hl
    by (rewrite length_take; lia).
  all: assert (3 < Z.to_nat (byte_at b 3 + 4))%nat as H3 by lia.
  all: assert (byte_at (take (Z.to_nat (byte_at b 3 + 4)) b) 3 = byte_at b 3) as Hb
    by (unfold byte_at at 1; by rewrite lookup_take_lt).
  all: unfold framed; rewrite Hl, Hb; lia.
Qed.

(** A frame of the protocol at the front of the stream comes out as it is. *)
Lemma extract_frame_packet max k rest saw :
  wire_packet k -> (length (frame_of k) <= max)%nat ->
  extract_frame max (frame_of k ++ rest) saw = (rest, Some (mkFrame 0 (frame_of k)), saw).
Proof.
  intros Hk Hm. pose proof (wire_frame_length k Hk) as Hl.
  unfold extract_frame. destruct (length (frame_of k ++ rest)) as [|fuel] eqn:El.
  { rewrite length_app, length_frame_of in El. lia. }
  assert (skip_to_header (frame_of k ++ rest) = frame_of k ++ rest) as Hs
    by apply skip_to_header_here.
  assert (byte_at (frame_of k ++ rest) 3 = Z.of_nat (length (pk_parameters k)) + 2) as Hb by done.
  cbn [extract_loop]. rewrite Hs, Hb.
  replace (Z.to_nat (Z.of_nat (length (pk_parameters k)) + 2 + 4)) with (length (frame_of k))
    by (rewrite length_frame_of; lia).
  rewrite (proj2 (Nat.ltb_ge (length (frame_of k ++ rest)) 4))
    by (rewrite length_app, length_frame_of; lia).
  rewrite (proj2 (Z.ltb_ge _ _)) by lia.
  unfold kSt3215MaximumFrameSize, kMaximumFrameStorage in *.
  rewrite !(proj2 (Nat.ltb_ge _ _)) by (rewrite ?length_app; lia). cbn [orb].
  by rewrite drop_app_length, take_app_length.
Qed.

(** An incomplete frame waits. *)
Lemma extract_frame_incomplete max k part missing saw :
  wire_packet k -> (length (frame_of k) <= max)%nat ->
  frame_of k = part ++ missing -> missing <> [] ->
  extract_frame max part saw = (part, None, saw).
Proof.
  intros Hk Hm Hf Hne. pose proof (wire_frame_length k Hk) as Hl.
  assert (length part < length (frame_of k))%nat as Hlt.
  { rewrite Hf, length_app. destruct missing; [done|]. cbn. lia. }
  assert (skip_to_header part = part) as Hs.
  { destruct part as [|a [|b part]]; [done..|]. cbn in Hf. by simplify_eq. }
  unfold extract_frame. destruct (length part) as [|fuel] eqn:El.
  { by destruct part. }
  cbn [extract_loop]. rewrite Hs, El. destruct (S fuel <? 4)%nat eqn:E4; [done|].
  apply Nat.ltb_ge in E4.
  assert (byte_at part 3 = Z.of_nat (length (pk_parameters k)) + 2) as ->.
  { do 4 (destruct part as [|? part]; [cbn in El; lia|]). cbn in Hf. by simplify_eq. }
  replace (Z.to_nat (Z.of_nat (length (pk_parameters k)) + 2 + 4)) with (length (frame_of k))
    by (rewrite length_frame_of; lia).
  rewrite (proj2 (Z.ltb_ge _ _)) by lia.
  unfold kSt3215MaximumFrameSize, kMaximumFrameStorage in *.
  rewrite !(proj2 (Nat.ltb_ge _ _)) by lia. cbn [orb].
  by rewrite (proj2 (Nat.ltb_lt _ _)) by lia.
Qed.

(** What a write puts on the wire. *)
Lemma write_loop_sent fuel timeout_ms data w :
  let '(w', e) := write_loop fuel timeout_ms data w in
  exists k, wd_sent w' = wd_sent w ++ take k data /\ (e = e_none -> take k data = data).
Proof.
  revert data w. induction fuel as [|fuel IH]; intros data w; destruct data as [|x data];
    cbn [write_loop].
  1-3: exists O; rewrite take_0, app_nil_r; split; done.
  assert (forall w0, wd_sent (next_write w0).1 = wd_sent w0) as Hnw
    by (intros w0; unfold next_write; by case_match).
  assert (forall w0, wd_sent (poll w0).1 = wd_sent w0) as Hpl
    by (intros w0; unfold poll; by destruct (poll_loop _)).
  assert (forall w0 e, wd_sent w0 = wd_sent w -> e <> e_none -> exists k,
    wd_sent w0 = wd_sent w ++ take k (x :: data) /\ (e = e_none -> take k (x :: data) = x :: data))
    as Hstop.
  { intros w0 e H0 He. exists O. rewrite take_0, app_nil_r. split; [done|]. intros ->. done. }
  specialize (Hnw w). destruct (next_write w) as [w1 r]. cbn [fst] in Hnw.
  set (wait := if timeout_ms <=? 0 then _ else _).
  assert (let '(w', e) := wait in exists k,
    wd_sent w' = wd_sent w ++ take k (x :: data) /\ (e = e_none -> take k (x :: data) = x :: data))
    as Hwait.
  { unfold wait. destruct (timeout_ms <=? 0); [by apply Hstop|].
    specialize (Hpl w1). destruct (poll w1) as [w2 p]. cbn [fst] in Hpl.
    assert (wd_sent w2 = wd_sent w) as H2 by congruence.
    destruct p as [| | | |port wake]; try by apply Hstop.
    destruct (_ || _); [by apply Hstop|]. destruct (wake_requested _); [by apply Hstop|].
    specialize (IH (x :: data) w2). destruct (write_loop _ _ _ w2) as [w3 e].
    by rewrite H2 in IH. }
  destruct r as [count| | |]; [|..].
  - destruct (0 <? _)%nat eqn:E; [|exact Hwait].
    set (n := Nat.min count (length (x :: data))) in *.
    specialize (IH (drop n (x :: data)) (send w1 (take n (x :: data)))).
    destruct (write_loop _ _ _ _) as [w3 e]. destruct IH as (k & Hk & He).
    exists (n + k)%nat. cbn [send wd_sent] in Hk. rewrite Hnw, <- (assoc_L (++)) in Hk.
    rewrite <- take_take_drop. split; [exact Hk|]. intros Hn. rewrite (He Hn). apply take_drop.
  - specialize (IH (x :: data) w1). destruct (write_loop _ _ _ w1) as [w3 e].
    by rewrite Hnw in IH.
  - exact Hwait.
  - by apply Hstop.
Qed.

(** The bytes the port will still give, for reads that fit the read buffer. *)
Definition read_bytes (r : read_result) : Bytes :=
  match r with rd_bytes bytes => bytes | _ => [] end.

Definition pending (w : World) : Bytes := concat (map read_bytes (wd_reads w)).

Definition reads_fit (c : SerialConfig) (w : World) : Prop :=
  Forall (fun r => (length (read_bytes r) <= Nat.min (sr_read_buffer_size c) kMaximumReadBuffer)%nat)
    (wd_reads w).

(** Wire packets the configuration accepts. *)
Definition fits (max : nat) (k : St3215Packet) : Prop :=
  wire_packet k /\ (length (frame_of k) <= max)%nat.

(** Extraction from the beginning of a stream of packets. *)
Lemma extract_frame_stream max ks buffer future saw :
  Forall (fits max) ks -> buffer ++ future = stream ks ->
  (exists k ks' rest, ks = k :: ks' /\
     extract_frame max buffer saw = (rest, Some (mkFrame 0 (frame_of k)), saw) /\
     rest ++ future = stream ks') \/
  (extract_frame max buffer saw = (buffer, None, saw) /\ drained ks buffer).
Proof.
  intros Hw Hs. destruct Hw as [|k ks [Hk Hm] Hks].
  - right. apply app_nil in Hs as [-> ->]. split; [done|done].
  - cbn [stream map concat] in Hs. fold (stream ks) in Hs.
    destruct (le_lt_dec (length (frame_of k)) (length buffer)) as [Hl|Hl].
    + left. exists k, ks, (drop (length (frame_of k)) buffer).
      assert (buffer = frame_of k ++ drop (length (frame_of k)) buffer) as Hb.
      { rewrite <- (take_drop (length (frame_of k)) buffer) at 1. f_equal.
        rewrite <- (take_app_le buffer future) by lia. rewrite Hs. apply take_app_length. }
      split; [done|]. split; [rewrite Hb at 1; by apply extract_frame_packet|].
      rewrite Hb, <- (assoc_L (++)) in Hs. by apply app_inv_head in Hs.
    + right. split; [|exact Hl].
      assert (frame_of k = buffer ++ drop (length buffer) (frame_of k)) as Hb.
      { rewrite <- (take_drop (length buffer) (frame_of k)) at 1. f_equal.
        rewrite <- (take_app_le (frame_of k) (stream ks)) by lia. rewrite <- Hs.
        apply take_app_length. }
      eapply extract_frame_incomplete; [done|done|exact Hb|].
      intros He. rewrite He, app_nil_r in Hb. rewrite Hb in Hl. lia.
Qed.

Lemma fits_wire max ks : Forall (fits max) ks -> Forall wire_packet ks.
Proof. intros H. eapply Forall_impl; [exact H|]. by intros k []. Qed.

(** What one reception does to a stream of packets. *)
Definition received (s s' : Serial) (e : SerialError) (ks : list St3215Packet) : Prop :=
  match e with
  | e_none => exists k ks', ks = k :: ks' /\
      Ring.contents (sl_rx s') = Ring.contents (sl_rx s) ++ [mkFrame 0 (frame_of k)] /\
      sl_stream s' ++ pending (sl_world s') = stream ks'
  | e_queue_full => exists k ks', ks = k :: ks' /\
      length (Ring.contents (sl_rx s)) = kQueueCapacity /\
      Ring.contents (sl_rx s') = Ring.contents (sl_rx s) /\
      sl_stream s' ++ pending (sl_world s') = stream ks'
  | e_framing => False
  | _ =>
      Ring.contents (sl_rx s') = Ring.contents (sl_rx s) /\
      sl_stream s' ++ pending (sl_world s') = stream ks
  end.

Lemma deliver_received s s0 k ks' rest :
  Ring.ring_ok (sl_rx s) -> sl_rx s = sl_rx s0 ->
  rest ++ pending (sl_world s) = stream ks' ->
  let '(s', e) := deliver (set_stream s rest) (mkFrame 0 (frame_of k)) in
  received s0 s' e (k :: ks').
Proof.
  intros Hr He Hs. unfold deliver. cbn [set_stream sl_rx].
  pose proof (Ring.push_contents (sl_rx s) (mkFrame 0 (frame_of k)) Hr) as Hp.
  destruct (Ring.push _ _) as [rx ok]. destruct Hp as (_ & -> & Hc). rewrite He in *.
  destruct (_ <? _)%nat eqn:E; cbn.
  - exists k, ks'. by split_and!.
  - apply Nat.ltb_ge in E. exists k, ks'. split_and!; [done| |done..].
    rewrite Ring.contents_length in *. pose proof (Ring.ro_size _ Hr). lia.
Qed.

Lemma receive_loop_stream fuel nonblocking polled s ks :
  Ring.ring_ok (sl_rx s) -> Forall (fits (maximum_frame_size s)) ks ->
  reads_fit (sl_config s) (sl_world s) ->
  (sr_read_buffer_size (sl_config s) <= kMaximumFrameStorage)%nat ->
  sl_stream s ++ pending (sl_world s) = stream ks -> drained ks (sl_stream s) ->
  let '(s', e) := receive_loop fuel nonblocking polled false s in received s s' e ks.
Proof.
  revert polled s. induction fuel as [|fuel IH]; intros polled s Hr Hks Hfit Hbuf Hs Hd; [done|].
  cbn [receive_loop]. destruct (nonblocking && polled); [done|].
  unfold poll. destruct (poll_loop (wd_polls (sl_world s))) as [polls p].
  set (w1 := mkWorld _ _ _ _). set (s1 := set_world s w1).
  destruct p as [| | | |port wake]; try done.
  destruct (wake_requested wake); [done|]. destruct (_ || _); [done|].
  destruct (negb _).
  { specialize (IH true s1 Hr Hks Hfit Hbuf Hs Hd). destruct (receive_loop _ _ _ _ _) as [s' e].
    exact IH. }
  unfold next_read. cbn [s1 set_world sl_world w1 wd_reads].
  unfold pending, reads_fit in Hs, Hfit. destruct (wd_reads (sl_world s)) as [|r reads] eqn:Er.
  { pose proof (IH true (set_world s1 w1) Hr Hks Hfit Hbuf Hs Hd) as Hgoal.
    destruct (receive_loop _ _ _ _ _) as [s' e]. exact Hgoal. }
  apply Forall_cons in Hfit as [Hf1 Hfit]. cbn [map concat] in Hs.
  set (w2 := mkWorld _ _ reads _). set (s2 := set_world s1 w2).
  assert (sl_rx s2 = sl_rx s) as Hrx by done.
  destruct r as [bytes| | |]; cbn [read_bytes app] in Hs.
  - cbn [read_bytes] in Hf1. cbn [s2 s1 set_world sl_config sl_stream].
    rewrite (take_ge bytes) by done.
    destruct (Nat.eqb (length bytes) 0) eqn:E0.
    { apply Nat.eqb_eq in E0. apply nil_length_inv in E0 as ->. done. }
    pose proof (drained_bound _ _ (fits_wire _ _ Hks) Hd) as Hlen.
    unfold kStreamCapacity. unfold kMaximumFrameStorage, kSt3215MaximumFrameSize in *.
    rewrite (proj2 (Nat.ltb_ge _ _)) by lia. cbn [andb orb].
    rewrite (assoc_L (++)) in Hs.
    destruct (extract_frame_stream (maximum_frame_size s) ks (sl_stream s ++ bytes)
      (concat (map read_bytes reads)) false Hks Hs)
      as [(k & ks' & rest & -> & Hx & Hrest)|(Hx & Hd')];
      change (maximum_frame_size s2) with (maximum_frame_size s); rewrite Hx.
    + by apply (deliver_received s2 s).
    + specialize (IH true (set_stream s2 (sl_stream s ++ bytes)) Hr Hks Hfit Hbuf Hs Hd').
      destruct (receive_loop _ _ _ _ _) as [s' e]. exact IH.
  - specialize (IH true s2 Hr Hks Hfit Hbuf Hs Hd). destruct (receive_loop _ _ _ _ _) as [s' e].
    exact IH.
  - specialize (IH true s2 Hr Hks Hfit Hbuf Hs Hd). destruct (receive_loop _ _ _ _ _) as [s' e].
    exact IH.
  - done.
Qed.

(** What every reception keeps: the wire, the transmit queue, the configuration, the
    fit of the reads to come and the shape of the receive queue. *)
Definition quiet (s s' : Serial) : Prop :=
  wd_sent (sl_world s') = wd_sent (sl_world s) /\ sl_tx s' = sl_tx s /\
  sl_config s' = sl_config s /\
  (reads_fit (sl_config s) (sl_world s) -> reads_fit (sl_config s) (sl_world s')) /\
  (Ring.ring_ok (sl_rx s) -> Ring.ring_ok (sl_rx s')).

Lemma quiet_trans s1 s2 s3 : quiet s1 s2 -> quiet s2 s3 -> quiet s1 s3.
Proof.
  unfold quiet. intros (H1 & H2 & H3 & H4 & H5) (J1 & J2 & J3 & J4 & J5).
  rewrite H3 in J4. split_and!; try congruence; auto.
Qed.

Lemma quiet_stream s bytes : quiet s (set_stream s bytes).
Proof. by split_and!. Qed.

Lemma quiet_poll s : quiet s (set_world s (poll (sl_world s)).1).
Proof. unfold poll. destruct (poll_loop _). by split_and!. Qed.

Lemma quiet_read s : quiet s (set_world s (next_read (sl_world s)).1).
Proof.
  unfold next_read. destruct (wd_reads _) as [|r rs] eqn:E; split_and!; try done.
  cbn. unfold reads_fit. rewrite E. by intros [_ H]%Forall_cons.
Qed.

Lemma deliver_quiet s f : quiet s (deliver s f).1.
Proof.
  unfold deliver. pose proof (Ring.push_contents (sl_rx s) f) as H.
  destruct (Ring.push _ _) as [rx ok]. split_and!; try done. intros Hr. by apply H.
Qed.

Lemma receive_loop_quiet fuel nb polled saw s : quiet s (receive_loop fuel nb polled saw s).1.
Proof.
  revert polled saw s. induction fuel as [|fuel IH]; intros polled saw s; [by split_and!|].
  cbn [receive_loop]. destruct (nb && polled); [by split_and!|].
  pose proof (quiet_poll s) as Hp. destruct (poll _) as [w p]. cbn [fst] in Hp.
  destruct p as [| | | |port wake]; try exact Hp.
  destruct (wake_requested wake); [exact Hp|]. destruct (_ || _); [exact Hp|].
  destruct (negb _); [eapply quiet_trans; [exact Hp|apply IH]|].
  pose proof (quiet_trans _ _ _ Hp (quiet_read (set_world s w))) as Hq.
  destruct (next_read _) as [w' r]. cbn [fst] in Hq.
  destruct r as [bytes| | |]; try exact Hq; try (eapply quiet_trans; [exact Hq|apply IH]).
  destruct (Nat.eqb _ _); [exact Hq|].
  destruct (_ && _).
  { eapply quiet_trans; [exact Hq|]. eapply quiet_trans; [apply quiet_stream|apply IH]. }
  destruct (extract_frame _ _ _) as [[rest [f|]] saw'];
    (eapply quiet_trans; [exact Hq|]; eapply quiet_trans; [apply (quiet_stream _ rest)|]).
  - apply deliver_quiet.
  - apply IH.
Qed.

Lemma receive_one_quiet s t : quiet s (receive_one s t).1.
Proof.
  unfold receive_one. destruct (extract_frame _ _ _) as [[rest [f|]] saw];
    (eapply quiet_trans; [apply (quiet_stream _ rest)|]).
  - apply deliver_quiet.
  - apply receive_loop_quiet.
Qed.

(** The health an error implies. *)
Definition consistent (s : Serial) : Prop :=
  (sl_health s = failed <->
   sl_last_error s = e_io \/ sl_last_error s = e_closed \/ sl_last_error s = e_internal) /\
  (sl_health s = healthy -> sl_last_error s = e_none).

Lemma publish_error_consistent s e : consistent (publish_error s e).
Proof. unfold consistent. destruct e; cbn; split; try split; intuition (try discriminate); auto. Qed.

(** The transfers leave the published error and health alone. *)
Definition same_status (s s' : Serial) : Prop :=
  sl_health s' = sl_health s /\ sl_last_error s' = sl_last_error s /\
  sl_opened s' = sl_opened s /\ sl_config s' = sl_config s.

Lemma deliver_status s f : same_status s (deliver s f).1.
Proof. unfold deliver. by destruct (Ring.push _ _). Qed.

Lemma receive_loop_status fuel nb polled saw s : same_status s (receive_loop fuel nb polled saw s).1.
Proof.
  revert polled saw s. induction fuel as [|fuel IH]; intros polled saw s; [done|].
  cbn [receive_loop]. destruct (nb && polled); [done|]. unfold poll.
  destruct (poll_loop _) as [polls p]. destruct p as [| | | |port wake]; try done.
  destruct (wake_requested wake); [done|]. destruct (_ || _); [done|].
  destruct (negb _); [by apply (IH true saw (set_world s _))|].
  unfold next_read. destruct (wd_reads _) as [|[bytes| | |] reads];
    try done; try by apply (IH true saw (set_world (set_world s _) _)).
  destruct (Nat.eqb _ _); [done|]. destruct (_ && _).
  { by apply (IH true _ (set_stream (set_world (set_world s _) _) [])). }
  destruct (extract_frame _ _ _) as [[rest [f|]] saw'].
  - by apply (deliver_status (set_stream (set_world (set_world s _) _) rest)).
  - by apply (IH true saw' (set_stream (set_world (set_world s _) _) rest)).
Qed.

Lemma receive_one_status s t : same_status s (receive_one s t).1.
Proof.
  unfold receive_one. destruct (extract_frame _ _ _) as [[rest [f|]] saw].
  - apply (deliver_status (set_stream s rest)).
  - apply (receive_loop_status _ _ _ _ (set_stream s rest)).
Qed.

Lemma write_all_status s f : same_status s (write_all s f).1.
Proof. unfold write_all. by destruct (write_loop _ _ _ _). Qed.

Lemma consistent_status s s' : same_status s s' -> consistent s -> consistent s'.
Proof. unfold same_status, consistent. intros (-> & -> & _) H. exact H. Qed.

Lemma publish_unless_timeout_consistent s e : consistent s -> consistent (publish_unless_timeout s e).
Proof. destruct e; cbn [publish_unless_timeout]; auto using publish_error_consistent. Qed.

(** The receive side: the queue, the stream buffer and the frames queued. *)
Definition rx_ok (s : Serial) : Prop :=
  Ring.ring_ok (sl_rx s) /\ (length (sl_stream s) <= kStreamCapacity)%nat /\
  Forall (fun f => framed (maximum_frame_size s) (fr_data f)) (Ring.contents (sl_rx s)).

Lemma deliver_ok s f :
  rx_ok s -> framed (maximum_frame_size s) (fr_data f) -> rx_ok (deliver s f).1.
Proof.
  intros (Hr & Hs & Hf) H. unfold deliver.
  pose proof (Ring.push_contents (sl_rx s) f Hr) as Hp. destruct (Ring.push _ _) as [rx ok].
  destruct Hp as (Hr' & _ & Hc). split_and!; [done|done|]. cbn [fst set_rx sl_rx]. rewrite Hc.
  destruct ok; [|done]. apply Forall_app. split; [exact Hf|by apply Forall_singleton].
Qed.

Lemma extract_frame_ok s saw bytes :
  rx_ok s -> (length bytes <= kStreamCapacity)%nat ->
  let '(rest, frame, _) := extract_frame (maximum_frame_size s) bytes saw in
  rx_ok (set_stream s rest) /\
  match frame with Some f => framed (maximum_frame_size s) (fr_data f) | None => True end.
Proof.
  intros (Hr & _ & Hf) Hl. unfold extract_frame.
  pose proof (extract_loop_sound (length bytes) (maximum_frame_size s) bytes saw) as H.
  destruct (extract_loop _ _ _ _) as [[rest [f|]] saw']; destruct H as [g H].
  - destruct H as [Hb Hfr]. split; [|exact Hfr]. split_and!; try done. cbn [set_stream sl_stream].
    rewrite Hb, !length_app in Hl. lia.
  - split; [|done]. split_and!; try done. cbn [set_stream sl_stream]. rewrite H, !length_app in Hl. lia.
Qed.

Lemma receive_loop_ok fuel nb polled saw s : rx_ok s -> rx_ok (receive_loop fuel nb polled saw s).1.
Proof.
  revert polled saw s. induction fuel as [|fuel IH]; intros polled saw s Hok; [done|].
  cbn [receive_loop]. destruct (nb && polled); [done|].
  destruct (poll _) as [w p]. destruct p as [| | | |port wake]; try exact Hok.
  destruct (wake_requested wake); [exact Hok|]. destruct (_ || _); [exact Hok|].
  destruct (negb _); [by apply IH|]. destruct (next_read _) as [w' r].
  destruct r as [bytes| | |]; try exact Hok; try by apply IH.
  destruct (Nat.eqb _ _); [exact Hok|]. set (s2 := set_world (set_world s w) w').
  change (rx_ok s2) in Hok. clearbody s2. set (incoming := take _ bytes).
  destruct (kStreamCapacity - length (sl_stream s2) <? length incoming)%nat eqn:E1; cbn [andb].
  - destruct (kStreamCapacity <? length incoming)%nat eqn:E2.
    { apply IH. destruct Hok as (? & ? & ?). split_and!; try done. cbn [set_stream sl_stream length]. lia. }
    apply Nat.ltb_ge in E2. cbn [app].
    pose proof (extract_frame_ok s2 (saw || true) incoming Hok E2) as H.
    destruct (extract_frame _ _ _) as [[rest [f|]] saw']; destruct H as [H1 H2];
      [by apply deliver_ok|by apply IH].
  - apply Nat.ltb_ge in E1.
    assert (length (sl_stream s2 ++ incoming) <= kStreamCapacity)%nat as Hl.
    { rewrite length_app. destruct Hok as (_ & ? & _). lia. }
    pose proof (extract_frame_ok s2 (saw || false) _ Hok Hl) as H.
    destruct (extract_frame _ _ _) as [[rest [f|]] saw']; destruct H as [H1 H2];
      [by apply deliver_ok|by apply IH].
Qed.

Lemma receive_one_ok s t : rx_ok s -> rx_ok (receive_one s t).1.
Proof.
  intros Hok. unfold receive_one.
  pose proof (extract_frame_ok s false (sl_stream s) Hok (proj1 (proj2 Hok))) as H.
  destruct (extract_frame _ _ _) as [[rest [f|]] saw]; destruct H as [H1 H2];
    [by apply deliver_ok|by apply receive_loop_ok].
Qed.

(** ** The invariant of the transport *)

Definition outgoing_ok (c : SerialConfig) (f : Frame) : Prop :=
  (1 <= length (fr_data f) <= sr_maximum_frame_size c)%nat /\
  (length (fr_data f) <= kMaximumFrameStorage)%nat.

Record serial_ok (s : Serial) : Prop := {
  so_tx : Ring.ring_ok (sl_tx s);
  so_tx_frames : Forall (outgoing_ok (sl_config s)) (Ring.contents (sl_tx s));
  so_rx : rx_ok s;
  so_status : consistent s }.

Lemma create_ok c w : serial_ok (create c w).
Proof.
  split; cbn; [apply Ring.empty_ok|constructor| |].
  - split_and!; [apply Ring.empty_ok|cbn; lia|constructor].
  - split; cbn; [tauto|done].
Qed.

(** A step that only receives, and then publishes. *)
Lemma publish_error_ok s e : serial_ok s -> serial_ok (publish_error s e).
Proof.
  intros [H1 H2 H3 H4]. pose proof (publish_error_consistent s e) as Hc.
  destruct e; by split.
Qed.

Lemma publish_unless_timeout_ok s e : serial_ok s -> serial_ok (publish_unless_timeout s e).
Proof. destruct e; cbn [publish_unless_timeout]; auto using publish_error_ok. Qed.

Lemma receive_one_serial_ok s t : serial_ok s -> serial_ok (receive_one s t).1.
Proof.
  intros [H1 H2 H3 H4]. destruct (receive_one_quiet s t) as (_ & Ht & Hc & _ & _).
  split; [by rewrite Ht|by rewrite Ht, Hc|by apply receive_one_ok|].
  eapply consistent_status; [apply receive_one_status|done].
Qed.

Lemma rx_cleared s :
  rx_ok s -> rx_ok (set_rx (set_stream s []) (Ring.mkRing (Ring.rg_queue (sl_rx s)) 0 0)).
Proof.
  intros ([] & ? & ?). split_and!; [|cbn; lia|constructor].
  split; cbn; try done; unfold kQueueCapacity; lia.
Qed.

Lemma cycle_serial_ok s : serial_ok s -> serial_ok (cycle s).
Proof.
  intros Hok. unfold cycle. destruct (negb (sl_opened s)); [by apply publish_error_ok|].
  match goal with |- context [Ring.pop (sl_tx ?x)] => set (s1 := x) end.
  assert (serial_ok s1) as H1.
  { unfold s1. destruct (_ && _) eqn:E; [|done]. apply andb_true_iff in E as [_ E%bool_decide_eq_true].
    unfold resynchronize_after_timeout.
    pose proof (receive_one_serial_ok s (sr_read_timeout_ms (sl_config s)) Hok) as H.
    pose proof (receive_one_status s (sr_read_timeout_ms (sl_config s))) as (Hh & Hl & _).
    destruct (receive_one _ _) as [s' e]. cbn [fst] in H, Hh, Hl.
    destruct H as [A1 A2 A3 [A4 A5]]. split; [done|done|by apply rx_cleared|].
    split; cbn; [|done]. rewrite A4, Hl, E. split; intros [|[|]]; done. }
  clearbody s1. clear Hok. destruct H1 as [H1 H2 H3 H4].
  pose proof (Ring.pop_contents (sl_tx s1) H1) as Hp. destruct (Ring.pop (sl_tx s1)) as [tx out].
  destruct Hp as (Hr & Ho & Hc).
  assert (serial_ok (set_tx s1 tx)) as Hs2.
  { split; try done. cbn. rewrite Hc. destruct (Ring.contents (sl_tx s1)); [done|].
    by apply Forall_cons in H2 as []. }
  destruct out as [f|].
  - unfold write_all. destruct (write_loop _ _ _ _) as [w e].
    assert (serial_ok (set_world (set_tx s1 tx) w)) as Hs3 by (by destruct Hs2).
    destruct (negb _); [by apply publish_error_ok|].
    pose proof (receive_one_serial_ok _ (sr_read_timeout_ms (sl_config (set_world (set_tx s1 tx) w))) Hs3) as H.
    destruct (receive_one _ _) as [s' e']. by apply publish_error_ok.
  - pose proof (receive_one_serial_ok _ 0 Hs2) as H. destruct (receive_one _ _) as [s' e'].
    by apply publish_unless_timeout_ok.
Qed.

Lemma receive_once_serial_ok s : serial_ok s -> serial_ok (receive_once s).
Proof.
  intros H. unfold receive_once. destruct (negb _); [by apply publish_error_ok|].
  pose proof (receive_one_serial_ok s 0 H) as H'. destruct (receive_one _ _) as [s' e'].
  by apply publish_unless_timeout_ok.
Qed.

Lemma write_serial_ok s channel data : serial_ok s -> serial_ok (write s channel data).1.
Proof.
  intros [H1 H2 H3 [H4 H5]]. unfold write. destruct (negb _); [done|].
  destruct (_ || _) eqn:E; [done|]. apply orb_false_iff in E as [[E1 E2]%orb_false_iff E3].
  apply Nat.eqb_neq in E1. apply Nat.ltb_ge in E2, E3.
  pose proof (Ring.push_contents (sl_tx s) (mkFrame channel data) H1) as Hp.
  destruct (Ring.push _ _) as [tx ok]. destruct Hp as (Hr & _ & Hc). destruct ok.
  - split; cbn; try done. rewrite Hc. apply Forall_app. split; [done|]. constructor; [|done].
    split; [|done]. cbn. unfold maximum_frame_size in E2. lia.
  - split; cbn; try done. split; cbn; [|done]. split; [done|]. intros [|[|]]; done.
Qed.

Lemma read_serial_ok s channel capacity : serial_ok s -> serial_ok (read s channel capacity).1.
Proof.
  intros Hok. unfold read. destruct (negb _); [done|]. destruct (Ring.front _) as [f|]; [|done].
  destruct (negb _); [done|]. destruct (_ <? _)%nat; [done|].
  destruct Hok as [H1 H2 (R1 & R2 & R3) H4].
  pose proof (Ring.pop_contents (sl_rx s) R1) as Hp. destruct (Ring.pop (sl_rx s)) as [rx out].
  destruct Hp as (Hr & _ & Hc). split; try done. split_and!; try done. cbn. rewrite Hc.
  destruct (Ring.contents (sl_rx s)); [done|]. by apply Forall_cons in R3 as [].
Qed.

End SerialTransport.

(** ** Runs of a port

    The operations a client calls, and the environment, which may change at any time. *)

Module SerialRuns.

Import SerialTransport.

Inductive step : Port * Host -> Port * Host -> Prop :=
  | st_open p h o : step (p, h) (open p h o).1
  | st_close p h : step (p, h) (close p h)
  | st_cycle p h : step (p, h) (mkPort (cycle (po_serial p)) (po_fd p) (po_identity p) (po_original_termios p), h)
  | st_receive p h : step (p, h) (mkPort (receive_once (po_serial p)) (po_fd p) (po_identity p) (po_original_termios p), h)
  | st_write p h channel data :
      step (p, h) (mkPort (write (po_serial p) channel data).1 (po_fd p) (po_identity p) (po_original_termios p), h)
  | st_read p h channel capacity :
      step (p, h) (mkPort (read (po_serial p) channel capacity).1 (po_fd p) (po_identity p) (po_original_termios p), h)
  | st_world p h w :
      step (p, h) (mkPort (set_world (po_serial p) w) (po_fd p) (po_identity p) (po_original_termios p), h).

Definition created (c : SerialConfig) (w : World) : Port := mkPort (create c w) false None None.

(** What the port holds of the host [h0] it started from. *)
Definition holds (h0 : Host) (p : Port) (h : Host) : Prop :=
  po_fd p = sl_opened (po_serial p) /\
  ho_descriptors h = ho_descriptors h0 + (if sl_opened (po_serial p) then 2 else 0) /\
  match po_identity p with
  | Some port => sl_opened (po_serial p) = true /\ port ∉ ho_open_ports h0 /\
      ho_open_ports h = {[port]} ∪ ho_open_ports h0 /\
      po_original_termios p = Some (ho_termios_changed h0)
  | None => sl_opened (po_serial p) = false /\ h = h0
  end.

Lemma opened_serial_ok s : serial_ok s -> serial_ok (opened_serial s).
Proof.
  intros [[T1 T2 T3] H2 ([R1 R2 R3] & R4 & R5) H4].
  split; [| | |by split; cbn; [|done]; split; [|intros [|[|]]]].
  - split; cbn; try done; unfold kQueueCapacity; lia.
  - constructor.
  - split_and!; [split; cbn; try done; unfold kQueueCapacity; lia|cbn; lia|constructor].
Qed.

Lemma closed_serial_ok s : serial_ok s -> serial_ok (closed_serial s).
Proof. intros [H1 H2 H3 H4]. split; try done. split; cbn; [tauto|done]. Qed.

(** An open that fails undoes everything it did. *)
Lemma open_failure_undone p h o :
  sl_opened (po_serial p) = false ->
  (open p h o).2 <> success tt -> (open p h o).1 = (p, h).
Proof.
  intros Hc. unfold open. rewrite Hc. destruct (config_invalid _); [done|].
  destruct (oo_open o) as [[]|]; try done.
  assert (add_descriptors (add_descriptors h 1) (-1) = h) as Hd.
  { destruct h. unfold add_descriptors. cbn. f_equal. lia. }
  destruct (negb _); [cbn; by rewrite Hd|]. destruct (oo_fstat o) as [id|]; [|cbn; by rewrite Hd].
  destruct (bool_decide _) eqn:E; [cbn; by rewrite Hd|]. apply bool_decide_eq_false in E.
  assert (({[id]} ∪ ho_open_ports h) ∖ {[id]} = ho_open_ports h) as Hp.
  { cbn in E. set_solver. }
  destruct h as [ports fds termios]. unfold add_descriptors, set_ports, set_termios in *. cbn in *.
  repeat (case_match; cbn; rewrite ?Hp, ?Z.add_simpl_r; try done);
    intros _; do 2 f_equal; lia.
Qed.

Lemma open_holds h0 p h o : holds h0 p h -> holds h0 (open p h o).1.1 (open p h o).1.2.
Proof.
  intros (Hf & Hd & Hi). destruct (sl_opened (po_serial p)) eqn:Eo.
  { unfold open. rewrite Eo. cbn. unfold holds. by rewrite Eo. }
  destruct (po_identity p) eqn:Ei; [destruct Hi; done|]. destruct Hi as [_ ->].
  destruct (open p h0 o).2 as [[]|] eqn:Er.
  2: { rewrite open_failure_undone; [|done|by rewrite Er]. unfold holds. cbn. by rewrite Ei, Eo. }
  revert Er. unfold open. rewrite Eo.
  destruct (config_invalid _); [done|]. destruct (oo_open o) as [[]|]; try done.
  destruct (negb _); [done|]. destruct (oo_fstat o) as [id|]; [|done].
  destruct (bool_decide _) eqn:E; [done|]. apply bool_decide_eq_false in E. cbn in E.
  do 3 (destruct (negb _); [done|]). intros _. unfold holds. cbn. split_and!; try done. lia.
Qed.

Lemma close_holds h0 p h : holds h0 p h -> holds h0 (close p h).1 (close p h).2.
Proof.
  intros (Hf & Hd & Hi). unfold close. rewrite Hf. destruct (sl_opened (po_serial p)) eqn:Eo; cbn.
  - destruct (po_identity p) as [port|]; [|destruct Hi; done].
    destruct Hi as (_ & Hn & Hi & ->).
    assert (({[port]} ∪ ho_open_ports h0) ∖ {[port]} = ho_open_ports h0) as Hp by set_solver.
    unfold holds. destruct h as [ports fds termios], h0 as [ports0 fds0 termios0].
    unfold add_descriptors, set_ports, set_termios. cbn in *. subst ports. rewrite Hp.
    split_and!; try done; [lia|]. f_equal. lia.
  - unfold holds. rewrite Eo. split_and!; try done.
Qed.

Lemma same_holds h0 p h s' :
  sl_opened s' = sl_opened (po_serial p) -> holds h0 p h ->
  holds h0 (mkPort s' (po_fd p) (po_identity p) (po_original_termios p)) h.
Proof. unfold holds. cbn. by intros ->. Qed.

Lemma publish_opened s e : sl_opened (publish_error s e) = sl_opened s.
Proof. by destruct e. Qed.

Lemma publish_unless_timeout_opened s e : sl_opened (publish_unless_timeout s e) = sl_opened s.
Proof. by destruct e. Qed.

Lemma receive_one_opened s t : sl_opened (receive_one s t).1 = sl_opened s.
Proof. apply receive_one_status. Qed.

Lemma receive_once_opened s : sl_opened (receive_once s) = sl_opened s.
Proof.
  unfold receive_once. destruct (negb _); [apply publish_opened|].
  pose proof (receive_one_opened s 0) as H. destruct (receive_one _ _).
  by rewrite publish_unless_timeout_opened.
Qed.

Lemma cycle_opened s : sl_opened (cycle s) = sl_opened s.
Proof.
  unfold cycle. destruct (negb _); [apply publish_opened|].
  match goal with |- context [Ring.pop (sl_tx ?x)] => set (s1 := x) end.
  assert (sl_opened s1 = sl_opened s) as <-.
  { unfold s1, resynchronize_after_timeout. destruct (_ && _); [|done].
    pose proof (receive_one_opened s (sr_read_timeout_ms (sl_config s))) as H.
    by destruct (receive_one _ _). }
  clearbody s1. destruct (Ring.pop _) as [tx [f|]].
  - unfold write_all. destruct (write_loop _ _ _ _) as [w e].
    destruct (negb _); [by rewrite publish_opened|].
    match goal with |- context [receive_one ?x ?t] => pose proof (receive_one_opened x t) as H end.
    destruct (receive_one _ _). by rewrite publish_opened.
  - pose proof (receive_one_opened (set_tx s1 tx) 0) as H. destruct (receive_one _ _).
    by rewrite publish_unless_timeout_opened.
Qed.

Lemma write_opened s channel data : sl_opened (write s channel data).1 = sl_opened s.
Proof.
  unfold write. repeat case_match; simplify_eq/=; try done.
Qed.

Lemma read_opened s channel capacity : sl_opened (read s channel capacity).1 = sl_opened s.
Proof. unfold read. by repeat case_match. Qed.

(** On every run of a serial port from its creation, in any environment and with any
    interleaving of opens, closes, cycles, receptions, writes and reads, the queues are
    well formed, everything queued for transmission is a frame of the configured size,
    everything queued for the client is a complete frame of the protocol's shape, the
    stream buffer stays within its 518 bytes, the published error and health agree, and the
    port owns exactly the two descriptors and the one process-wide port identity that an
    open port needs; when it is closed the host, the terminal settings included, is as the
    port found it. *)
Theorem serial_run_invariant c w h0 p h :
  rtc step (created c w, h0) (p, h) -> serial_ok (po_serial p) /\ holds h0 p h.
Proof.
  intros Hrun. change (serial_ok (po_serial (p, h).1) /\ holds h0 (p, h).1 (p, h).2).
  revert Hrun. generalize (p, h). clear p h. apply rtc_ind_r.
  - split; [apply create_ok|]. by split_and!; cbn; [|lia|].
  - intros y z _ Hst [H1 H2]. destruct Hst as [q k o|q k|q k|q k|q k ch data|q k ch cap|q k w'];
      cbn in H1, H2 |- *; (split; [|try apply same_holds; try done]).
    + unfold open. repeat case_match; cbn; try done; by apply opened_serial_ok.
    + by apply open_holds.
    + unfold close. destruct (_ && _); [done|]. by apply closed_serial_ok.
    + by apply close_holds.
    + by apply cycle_serial_ok.
    + apply cycle_opened.
    + by apply receive_once_serial_ok.
    + apply receive_once_opened.
    + by apply write_serial_ok.
    + apply write_opened.
    + by apply read_serial_ok.
    + apply read_opened.
    + by destruct H1.
Qed.

(** C26. A reception never loses, duplicates, reorders or alters a frame, for a read buffer of
    at most 259 bytes (the storage of one frame; the default of the profiles is 256).  When what the port has buffered and will still deliver is a
    sequence of packets of the protocol, none longer than the maximum frame size, cut into
    reads anywhere and of any size the read buffer allows, the call either queues exactly the
    first packet of the sequence and leaves the rest of it to come, or queues nothing and
    leaves the sequence as it was; only a full queue drops the first packet, and that is
    reported.  The situation holds again after the call, so the statement applies to every
    later reception.  Larger read buffers, which profiles may set up to 4096 bytes, are excluded:
    there a read can overflow the stream and drop packets (SerialExamples.large_read_drops). *)
Theorem serial_reception s t ks :
  Ring.ring_ok (sl_rx s) -> Forall (fits (maximum_frame_size s)) ks ->
  reads_fit (sl_config s) (sl_world s) ->
  (sr_read_buffer_size (sl_config s) <= kMaximumFrameStorage)%nat ->
  sl_stream s ++ pending (sl_world s) = stream ks ->
  let '(s', e) := receive_one s t in
  received s s' e ks /\ Ring.ring_ok (sl_rx s') /\ reads_fit (sl_config s') (sl_world s') /\
  sl_config s' = sl_config s /\ wd_sent (sl_world s') = wd_sent (sl_world s).
Proof.
  intros Hr Hks Hfit Hbuf Hs.
  assert (let '(s', e) := receive_one s t in received s s' e ks) as H.
  { unfold receive_one.
    destruct (extract_frame_stream (maximum_frame_size s) ks (sl_stream s)
      (pending (sl_world s)) false Hks Hs) as [(k & ks' & rest & -> & -> & Hrest)|(-> & Hd)].
    - by apply deliver_received.
    - pose proof (receive_loop_stream (S (length (wd_polls (sl_world (set_stream s (sl_stream s))))))
        (t =? 0) false (set_stream s (sl_stream s)) ks Hr Hks Hfit Hbuf Hs Hd) as H.
      destruct (receive_loop _ _ _ _ _) as [s' e]. exact H. }
  pose proof (receive_one_quiet s t) as (Q1 & Q2 & Q3 & Q4 & Q5).
  destruct (receive_one s t) as [s' e]. cbn [fst] in *. split; [exact H|]. rewrite Q3. auto.
Qed.

Lemma publish_world s e : sl_world (publish_error s e) = sl_world s.
Proof. by destruct e. Qed.

Lemma publish_tx s e : sl_tx (publish_error s e) = sl_tx s.
Proof. by destruct e. Qed.

Lemma publish_last_error s e : sl_last_error (publish_error s e) = e.
Proof. by destruct e. Qed.

Lemma publish_unless_timeout_keeps s e :
  sl_world (publish_unless_timeout s e) = sl_world s /\
  sl_tx (publish_unless_timeout s e) = sl_tx s.
Proof. by destruct e. Qed.

(** What one cycle does to the transmit queue and the wire. *)
Lemma cycle_sends s :
  sl_opened s = true -> Ring.ring_ok (sl_tx s) ->
  let s' := cycle s in
  Ring.ring_ok (sl_tx s') /\ Ring.contents (sl_tx s') = tail (Ring.contents (sl_tx s)) /\
  match Ring.contents (sl_tx s) with
  | [] => wd_sent (sl_world s') = wd_sent (sl_world s)
  | f :: _ => exists k,
      wd_sent (sl_world s') = wd_sent (sl_world s) ++ take k (fr_data f) /\
      (sl_last_error s' = e_none -> take k (fr_data f) = fr_data f)
  end.
Proof.
  intros Ho Hr. cbv zeta. unfold cycle. rewrite Ho. cbn [negb].
  match goal with |- context [Ring.pop (sl_tx ?x)] => set (s1 := x) end.
  assert (sl_tx s1 = sl_tx s /\ wd_sent (sl_world s1) = wd_sent (sl_world s)) as [Ht1 Hw1].
  { unfold s1, resynchronize_after_timeout. destruct (_ && _); [|done].
    pose proof (receive_one_quiet s (sr_read_timeout_ms (sl_config s))) as (Q1 & Q2 & _).
    by destruct (receive_one _ _). }
  rewrite <- Ht1, <- Hw1. rewrite <- Ht1 in Hr. clearbody s1. clear Ht1 Hw1.
  pose proof (Ring.pop_contents (sl_tx s1) Hr) as Hp. destruct (Ring.pop (sl_tx s1)) as [tx out].
  destruct Hp as (Hr' & Hout & Hc). subst out.
  destruct (Ring.contents (sl_tx s1)) as [|f fs]; cbn [head tail] in *.
  - pose proof (receive_one_quiet (set_tx s1 tx) 0) as (Q1 & Q2 & _).
    destruct (receive_one _ _) as [s2 e]. cbn [fst] in *.
    destruct (publish_unless_timeout_keeps s2 e) as [-> ->]. by rewrite Q1, Q2.
  - unfold write_all.
    match goal with |- context [write_loop ?a ?b ?c ?d] =>
      pose proof (write_loop_sent a b c d) as Hw; destruct (write_loop a b c d) as [w e] end.
    destruct Hw as (k & Hk & He). destruct (negb _) eqn:En.
    + rewrite publish_world, publish_tx, publish_last_error. split_and!; [done..|]. by exists k.
    + apply negb_false_iff, bool_decide_eq_true in En.
      match goal with |- context [receive_one ?x ?t] =>
        pose proof (receive_one_quiet x t) as (Q1 & Q2 & _); destruct (receive_one x t) as [s2 e2] end.
      cbn [fst] in *. rewrite publish_world, publish_tx, Q1, Q2. split_and!; [done..|].
      exists k. split; [exact Hk|]. auto.
Qed.

(** One cycle of an open port is one transaction: with nothing queued nothing is
    transmitted; otherwise exactly the first queued frame leaves the queue, the wire gets a
    prefix of that frame and nothing else (whatever partial writes, interruptions, stalls and
    errors the system calls return), and the cycle ends without an error only if it got the
    whole frame. *)
Theorem serial_cycle_transaction s :
  sl_opened s = true -> Ring.ring_ok (sl_tx s) ->
  let s' := cycle s in
  Ring.ring_ok (sl_tx s') /\ Ring.contents (sl_tx s') = tail (Ring.contents (sl_tx s)) /\
  match Ring.contents (sl_tx s) with
  | [] => wd_sent (sl_world s') = wd_sent (sl_world s)
  | f :: _ => exists k,
      wd_sent (sl_world s') = wd_sent (sl_world s) ++ take k (fr_data f) /\
      (sl_last_error s' = e_none -> take k (fr_data f) = fr_data f)
  end.
Proof. apply cycle_sends. Qed.

End SerialRuns.

(** ** Witnesses *)

Module SerialExamples.

Import SerialTransport SerialRuns.

Definition config : SerialConfig := mkSerialConfig "/dev/ttyUSB0" 1000000 64 64 5 5.

Definition ready : poll_result := pl_ready (mkRevents true false false false) (mkRevents false false false false).

(** The answer to a ping, split in two reads, with the start of the next frame. *)
Definition status : St3215Packet := mkPacket 3 0 [].
Definition answer : Bytes := frame_of status.

Definition world : World :=
  mkWorld [wr_written 4; wr_eintr; wr_written 9] [ready; pl_eintr; ready]
    [rd_bytes (take 3 answer); rd_bytes (drop 3 answer ++ take 2 answer); rd_bytes (drop 2 answer)] [].

Definition port : Port * Host := (created config world, mkHost ∅ 7 false).

Definition outcome : OpenOutcome := mkOpenOutcome None true (Some (1, 2, 3)) true true true.

Definition started : Port * Host := (open port.1 port.2 outcome).1.

Definition queued : Port * Host :=
  (mkPort (write (po_serial started.1) 0 answer).1 (po_fd started.1) (po_identity started.1) (po_original_termios started.1), started.2).

Definition cycled : Port * Host :=
  (mkPort (cycle (po_serial queued.1)) (po_fd queued.1) (po_identity queued.1) (po_original_termios queued.1), queued.2).

Example cycled_state :
  wd_sent (sl_world (po_serial cycled.1)) = answer /\
  Ring.contents (sl_rx (po_serial cycled.1)) = [mkFrame 0 answer] /\
  sl_stream (po_serial cycled.1) = take 2 answer /\ sl_health (po_serial cycled.1) = healthy /\
  ho_descriptors cycled.2 = 9.
Proof. by vm_compute. Qed.

Lemma serial_run_invariant_witness :
  rtc step port cycled /\ serial_ok (po_serial cycled.1).
Proof.
  assert (rtc step port cycled) as Hrun.
  { eapply rtc_l; [apply (st_open port.1 port.2 outcome)|].
    eapply rtc_l; [apply (st_write started.1 started.2 0 answer)|].
    eapply rtc_l; [apply (st_cycle queued.1 queued.2)|]. apply rtc_refl. }
  split; [exact Hrun|]. rewrite (surjective_pairing cycled) in Hrun.
  apply (serial_run_invariant config world (mkHost ∅ 7 false) cycled.1 cycled.2 Hrun).
Defined.

Lemma serial_reception_witness :
  exists s ks, Forall (fits (maximum_frame_size s)) ks /\ ks <> [] /\
  (receive_one s 5).2 = e_none /\
  let '(s', e) := receive_one s 5 in
  received s s' e ks /\ Ring.ring_ok (sl_rx s') /\ reads_fit (sl_config s') (sl_world s') /\
  sl_config s' = sl_config s /\ wd_sent (sl_world s') = wd_sent (sl_world s).
Proof.
  exists (opened_serial (po_serial started.1)), [status; status].
  assert (Forall (fits 64) [status; status]) as Hf.
  { assert (fits 64 status); [|by repeat constructor].
    split; [unfold wire_packet|]; vm_compute; lia. }
  split; [exact Hf|]. split; [done|]. split; [by vm_compute|].
  apply serial_reception; try done.
  - split; vm_compute; lia || done.
  - repeat constructor; vm_compute; lia.
  - vm_compute; lia.
Defined.

(** A read buffer of 1024 bytes: 90 good packets that arrive in one read are all dropped. *)
Example large_read_drops :
  let c := mkSerialConfig "/dev/ttyUSB0" 1000000 1024 259 5 5 in
  let w := mkWorld [] [ready] [rd_bytes (concat (replicate 90 answer))] [] in
  let s := po_serial (open (created c w) (mkHost ∅ 7 false) outcome).1.1 in
  sl_opened s = true /\
  (receive_one s 5).2 = e_framing /\ sl_stream (receive_one s 5).1 = [] /\
  Ring.contents (sl_rx (receive_one s 5).1) = [] /\ wd_reads (sl_world (receive_one s 5).1) = [].
Proof. by vm_compute. Qed.

Lemma serial_cycle_transaction_witness :
  sl_opened (po_serial queued.1) = true /\
  Ring.contents (sl_tx (cycle (po_serial queued.1))) = [].
Proof.
  split; [by vm_compute|].
  assert (Ring.ring_ok (sl_tx (po_serial queued.1))) as Hr by (split; vm_compute; lia || done).
  exact (proj1 (proj2 (serial_cycle_transaction (po_serial queued.1) eq_refl Hr))).
Defined.

End SerialExamples.
