(* ===== verification/Scheduler.v ===== *)
(** * Transport scheduling and construction

    [robot_io/daemon/transport_scheduler.cpp]: which executor a registered transport
    belongs to; and the checks of [robot_io/daemon/transport_factory.cpp].  A transport
    is named by its address. *)
From S2P Require Export Serial.

(** ** [TransportScheduler] *)

Module TransportScheduler.

Inductive SchedulingClass :=
  | hard_realtime_periodic | soft_realtime_periodic | blocking_event_driven | asynchronous.

#[export] Instance SchedulingClass_eq_dec : EqDecision SchedulingClass.
Proof. solve_decision. Defined.

Inductive ExecutorId := hard_realtime | soft_realtime | blocking_event | asynchronous_executor.

Definition executor_for (scheduling_class : SchedulingClass) : ExecutorId :=
  match scheduling_class with
  | hard_realtime_periodic => hard_realtime
  | soft_realtime_periodic => soft_realtime
  | blocking_event_driven => blocking_event
  | asynchronous => asynchronous_executor
  end.

Abbreviation assignments := (gmap Z ExecutorId).

Definition add (m : assignments) (transport : Z) (scheduling_class : SchedulingClass)
    : assignments * Result unit :=
  match m !! transport with
  | Some _ => (m, fail invalid_argument "transport is already registered")
  | None => (<[transport := executor_for scheduling_class]> m, success tt)
  end.

Definition remove (m : assignments) (transport : Z) : assignments * Result unit :=
  match m !! transport with
  | None => (m, fail invalid_argument "transport is not registered")
  | Some _ => (delete transport m, success tt)
  end.

Definition executor_id (m : assignments) (transport : Z) : option ExecutorId := m !! transport.

(** A registration that succeeds is undone by the removal. *)
Lemma remove_add m transport cls m' :
  add m transport cls = (m', success tt) -> remove m' transport = (m, success tt).
Proof.
  unfold add, remove. destruct (m !! transport) eqn:E; [done|]. intros [= <-].
  by rewrite lookup_insert_eq, delete_insert_eq, delete_id.
Qed.

Lemma add_failure m transport cls m' e : add m transport cls = (m', failure e) -> m' = m.
Proof. unfold add. destruct (m !! transport); [|done]. by intros [= <- _]. Qed.

End TransportScheduler.

(** ** [TransportFactory] *)

Module TransportFactory.

Inductive PhysicalTransportKind := ethercat | socketcan | usb_can | serial.

#[export] Instance PhysicalTransportKind_eq_dec : EqDecision PhysicalTransportKind.
Proof. solve_decision. Defined.

Record PhysicalTransportKey := mkPhysicalTransportKey {
  ptk_kind : PhysicalTransportKind;
  ptk_path : string }.

Definition validate (key : PhysicalTransportKey) : Result unit :=
  if String.eqb (ptk_path key) ""
  then fail invalid_argument "physical transport path must not be empty"
  else
    match ptk_kind key with
    | socketcan | ethercat => success tt
    | _ => fail invalid_argument "physical transport kind is not implemented by the factory"
    end.

(** [create_serial]: the configuration the new transport gets. *)
Definition create_serial (config : SerialConfig) : Result SerialConfig :=
  if String.eqb (sr_path config) "" || (sr_baud_rate config =? 0) ||
     Nat.eqb (sr_maximum_frame_size config) 0
  then fail invalid_argument "serial transport requires path, baud rate, and frame size"
  else success config.

End TransportFactory.
