(* ===== verification/St3215Servo.v ===== *)
(** * The ST3215 servo bus

    [devices/st3215/servo.cpp]: the command and feedback cells of one servo
    ([St3215Servo]), the shared half-duplex bus ([St3215Bus]) and the registry
    ([St3215DeviceRegistry]); the directional codecs of [sensor.hpp] and
    [actuator.hpp].

    The code shares a servo between its bus and the registry by [shared_ptr]; here the
    servos are one store, a list, and buses refer to them by index.  The serial port is
    an interface ([SerialLink]); [Serial.v]'s transport implements it.  The clock reading
    of each operation is an argument. *)
From S2P Require Export LocalSnapshot Scheduler.

(** ** Flags and data *)

Definition kSt3215FeedbackValid : Z := Z.shiftl 1 0.
Definition kSt3215FeedbackStale : Z := Z.shiftl 1 1.
Definition kSt3215FeedbackTimeout : Z := Z.shiftl 1 2.
Definition kSt3215FeedbackIo : Z := Z.shiftl 1 3.
Definition kSt3215FeedbackProtocol : Z := Z.shiftl 1 4.
Definition kSt3215FeedbackDeviceError : Z := Z.shiftl 1 5.
Definition kSt3215FeedbackDisabled : Z := Z.shiftl 1 6.

Definition kMaximumSt3215Servos : nat := 32.

Inductive St3215CommandAcceptance := accepted | duplicate | rejected.

#[export] Instance St3215CommandAcceptance_eq_dec : EqDecision St3215CommandAcceptance.
Proof. solve_decision. Defined.

Definition same_command (left right : St3215ServoCommand) : bool :=
  (sc_sequence left =? sc_sequence right) &&
  (sc_timestamp_ns left =? sc_timestamp_ns right) &&
  (sc_target_position_rad left =? sc_target_position_rad right)%fp &&
  Bool.eqb (sc_enabled left) (sc_enabled right) &&
  Bool.eqb (sc_emergency_stop left) (sc_emergency_stop right) &&
  bool_decide (sc_reserved left = sc_reserved right).

Definition error_flag (c : ErrorCode) : Z :=
  match c with
  | timeout => kSt3215FeedbackTimeout
  | protocol | invalid_argument => kSt3215FeedbackProtocol
  | io | unavailable | internal => kSt3215FeedbackIo
  end.

Definition set_flags (v : St3215ServoFeedback) (flags : Z) : St3215ServoFeedback :=
  mkServoFeedback (sf_feedback_sequence v) (sf_command_sequence v) (sf_timestamp_ns v)
    (sf_position_rad v) (sf_raw_position v) flags (sf_transport_health v) (sf_status_error v)
    (sf_timeout_count v) (sf_io_error_count v).

(** ** [St3215Servo] *)

Module Servo.

Record StagedCommand := mkStaged { sg_publication : Z; sg_command : St3215ServoCommand }.

Record St3215Servo := mkServo {
  sv_config : St3215ServoConfig;
  sv_commands : LocalSnapshot.cell StagedCommand;
  sv_feedback : LocalSnapshot.cell St3215ServoFeedback;
  sv_command_gate : bool;
  sv_next_publication : Z;
  sv_last_command_sequence : Z;
  sv_last_command_timestamp_ns : Z;
  sv_last_command : St3215ServoCommand;
  sv_has_command : bool }.

Definition create (config : St3215ServoConfig) : St3215Servo :=
  mkServo config None (LocalSnapshot.publish St3215ServoFeedback_zero None) false 0 0 0
    St3215ServoCommand_zero false.

Definition set_gate (s : St3215Servo) (gate : bool) : St3215Servo :=
  mkServo (sv_config s) (sv_commands s) (sv_feedback s) gate (sv_next_publication s)
    (sv_last_command_sequence s) (sv_last_command_timestamp_ns s) (sv_last_command s)
    (sv_has_command s).

(** [test_and_set]: the gate is held afterwards in any case. *)
Definition try_lock_command (s : St3215Servo) : St3215Servo * bool :=
  (set_gate s true, negb (sv_command_gate s)).

Definition unlock_command (s : St3215Servo) : St3215Servo := set_gate s false.

Definition inspect_command (s : St3215Servo) (command : St3215ServoCommand) (now_ns : Z)
    : St3215CommandAcceptance :=
  if (sc_timestamp_ns command <? 0) || negb (isfinite (sc_target_position_rad command)) ||
     existsb (fun value => negb (value =? 0)) (sc_reserved command)
  then rejected
  else if (0 <? cfg_command_timeout_ns (sv_config s)) &&
     ((now_ns + cfg_maximum_command_future_ns (sv_config s) <? sc_timestamp_ns command) ||
      (cfg_command_timeout_ns (sv_config s) <? now_ns - sc_timestamp_ns command))
  then rejected
  else if sv_has_command s &&
     ((sc_sequence command <? sv_last_command_sequence s) ||
      (sc_timestamp_ns command <? sv_last_command_timestamp_ns s))
  then rejected
  else if sv_has_command s && (sc_sequence command =? sv_last_command_sequence s)
  then if same_command command (sv_last_command s) then duplicate else rejected
  else accepted.

Definition commit_command (s : St3215Servo) (command : St3215ServoCommand) : St3215Servo :=
  let publication := u64 (sv_next_publication s + 1) in
  mkServo (sv_config s) (LocalSnapshot.publish (mkStaged publication command) (sv_commands s))
    (sv_feedback s) (sv_command_gate s) publication (sc_sequence command)
    (sc_timestamp_ns command) command true.

Definition stage_command (s : St3215Servo) (command : St3215ServoCommand) (now_ns : Z)
    : St3215Servo * St3215CommandAcceptance :=
  let '(s, locked) := try_lock_command s in
  if negb locked then (s, rejected)
  else
    let acceptance := inspect_command s command now_ns in
    let s := if bool_decide (acceptance = accepted) then commit_command s command else s in
    (unlock_command s, acceptance).

Definition feedback (s : St3215Servo) (now_ns : Z) : St3215ServoFeedback :=
  let value := default St3215ServoFeedback_zero (LocalSnapshot.read (sv_feedback s)) in
  if (0 <? now_ns) && (0 <? cfg_feedback_timeout_ms (sv_config s)) &&
     ((sf_timestamp_ns value <=? 0) || (now_ns <? sf_timestamp_ns value) ||
      (cfg_feedback_timeout_ms (sv_config s) * 1000000 <? now_ns - sf_timestamp_ns value))
  then
    set_flags value
      (clear_flags (Z.lor (sf_flags value) kSt3215FeedbackStale) kSt3215FeedbackValid)
  else value.

Definition read_staged (s : St3215Servo) (consumed_publication : Z) : option StagedCommand :=
  match LocalSnapshot.read (sv_commands s) with
  | None => None
  | Some staged => if sg_publication staged =? consumed_publication then None else Some staged
  end.

Definition publish_feedback (s : St3215Servo) (value : St3215ServoFeedback) : St3215Servo :=
  mkServo (sv_config s) (sv_commands s) (LocalSnapshot.publish value (sv_feedback s))
    (sv_command_gate s) (sv_next_publication s) (sv_last_command_sequence s)
    (sv_last_command_timestamp_ns s) (sv_last_command s) (sv_has_command s).

End Servo.

(** ** The directional codecs *)

Module ServoCodec.

Definition decode (config : St3215ServoConfig) (status : St3215Status)
    (timestamp_ns command_sequence : Z) : Result St3215ServoFeedback :=
  let flags := if st_error status =? 0 then kSt3215FeedbackValid else kSt3215FeedbackDeviceError in
  let value :=
    mkServoFeedback 1 command_sequence timestamp_ns fzero 0 flags 0 (st_error status) 0 0 in
  if negb (st_device_id status =? cfg_device_id config)
  then fail protocol "ST3215 response device ID does not match sensor"
  else if (2 <=? length (st_parameters status))%nat
  then
    match read_st3215_u16_le (st_parameters status) with
    | failure e => failure e
    | success raw =>
        match position_units_to_radians raw (cfg_max_position_units config) with
        | failure e => failure e
        | success radians =>
            success (mkServoFeedback 1 command_sequence timestamp_ns radians raw flags 0
                       (st_error status) 0 0)
        end
    end
  else success value.

Definition encode (config : St3215ServoConfig) (command : St3215ServoCommand) : Result Bytes :=
  if negb (sc_enabled command) || sc_emergency_stop command
  then success (read_present_position_command (cfg_device_id config))
  else
    match radians_to_position_units (sc_target_position_rad command) (cfg_max_position_units config) with
    | failure e => failure e
    | success position =>
        success (goal_position_command (cfg_device_id config) position (cfg_time_units config)
                   (cfg_speed_units config))
    end.

End ServoCodec.

(** ** The serial port, as the bus sees it *)

Class SerialLink (L : Type) := {
  link_create : SerialConfig -> L;
  link_open : L -> L * Result unit;
  link_close : L -> L;
  link_read : L -> nat -> L * Result Bytes;
  link_write : L -> Bytes -> L * Result unit;
  link_cycle : L -> L;
  link_health : L -> TransportHealth;
  link_timeout_count : L -> Z;
  link_io_error_count : L -> Z }.

(** What the bus relies on: [link_idle] is an open port with nothing queued, and the
    wire only gets a prefix of the one frame a write and its cycle carry. *)
Class SerialLinkLaws (L : Type) `{SerialLink L} := {
  link_wire : L -> Bytes;
  link_idle : L -> Prop;
  link_read_wire l n : link_wire (link_read l n).1 = link_wire l;
  link_read_idle l n : link_idle l -> link_idle (link_read l n).1;
  link_write_failure l bytes l' e :
    link_idle l -> link_write l bytes = (l', failure e) ->
    link_wire l' = link_wire l /\ link_idle l';
  link_write_success l bytes l' u :
    link_idle l -> link_write l bytes = (l', success u) ->
    link_idle (link_cycle l') /\
    exists k, link_wire (link_cycle l') = link_wire l ++ take k bytes }.

(** ** [St3215Bus] *)

Module Bus.

Import Servo.

Record ServoRuntime := mkServoRuntime {
  rt_servo : nat; (* index in the servo store *)
  rt_consumed_publication : Z;
  rt_feedback_sequence : Z;
  rt_goal_sequence : Z;
  rt_goal_dispatched : bool;
  rt_last_response_ns : Z;
  rt_command : St3215ServoCommand;
  rt_has_command : bool;
  rt_command_timed_out : bool }.

Definition new_runtime (servo : nat) : ServoRuntime :=
  mkServoRuntime servo 0 0 0 false 0 St3215ServoCommand_zero false false.

Section Bus.
Context {L : Type} `{SerialLink L}.

Record St3215Bus := mkBus {
  bs_transport : L;
  bs_address : Z; (* of the transport, for the scheduler *)
  bs_service_period_ns : Z;
  bs_servos : list ServoRuntime;
  bs_scheduler : option Z; (* the address of the scheduler *)
  bs_running : bool;
  bs_health : TransportHealth;
  bs_cycle_sequence : Z;
  bs_cursor : nat;
  bs_pending_index : nat;
  bs_dispatched : bool;
  bs_started_ns : Z;
  bs_fault_latched : bool }.

Definition create (transport : L) (address service_period_ns : Z) : St3215Bus :=
  mkBus transport address service_period_ns [] None false failed 0 0 0 false 0 false.

Definition health (b : St3215Bus) : TransportHealth :=
  if bs_fault_latched b then failed else bs_health b.

(** A bus and the servos it shares. *)
Record state := mkState { s_bus : St3215Bus; s_servos : list St3215Servo }.

Definition with_transport (b : St3215Bus) (l : L) : St3215Bus :=
  mkBus l (bs_address b) (bs_service_period_ns b) (bs_servos b) (bs_scheduler b) (bs_running b)
    (bs_health b) (bs_cycle_sequence b) (bs_cursor b) (bs_pending_index b) (bs_dispatched b)
    (bs_started_ns b) (bs_fault_latched b).
Definition with_servos (b : St3215Bus) (servos : list ServoRuntime) : St3215Bus :=
  mkBus (bs_transport b) (bs_address b) (bs_service_period_ns b) servos (bs_scheduler b)
    (bs_running b) (bs_health b) (bs_cycle_sequence b) (bs_cursor b) (bs_pending_index b)
    (bs_dispatched b) (bs_started_ns b) (bs_fault_latched b).
Definition with_life (b : St3215Bus) (scheduler : option Z) (running : bool)
    (h : TransportHealth) (started_ns : Z) : St3215Bus :=
  mkBus (bs_transport b) (bs_address b) (bs_service_period_ns b) (bs_servos b) scheduler
    running h (bs_cycle_sequence b) (bs_cursor b) (bs_pending_index b) (bs_dispatched b)
    started_ns (bs_fault_latched b).
Definition with_fault (b : St3215Bus) (h : TransportHealth) (latched : bool) : St3215Bus :=
  mkBus (bs_transport b) (bs_address b) (bs_service_period_ns b) (bs_servos b) (bs_scheduler b)
    (bs_running b) h (bs_cycle_sequence b) (bs_cursor b) (bs_pending_index b) (bs_dispatched b)
    (bs_started_ns b) latched.
Definition with_cursor (b : St3215Bus) (cursor : nat) : St3215Bus :=
  mkBus (bs_transport b) (bs_address b) (bs_service_period_ns b) (bs_servos b) (bs_scheduler b)
    (bs_running b) (bs_health b) (bs_cycle_sequence b) cursor (bs_pending_index b)
    (bs_dispatched b) (bs_started_ns b) (bs_fault_latched b).
Definition with_pending (b : St3215Bus) (pending : nat) (dispatched : bool) : St3215Bus :=
  mkBus (bs_transport b) (bs_address b) (bs_service_period_ns b) (bs_servos b) (bs_scheduler b)
    (bs_running b) (bs_health b) (bs_cycle_sequence b) (bs_cursor b) pending dispatched
    (bs_started_ns b) (bs_fault_latched b).
Definition with_cycle_sequence (b : St3215Bus) (sequence : Z) : St3215Bus :=
  mkBus (bs_transport b) (bs_address b) (bs_service_period_ns b) (bs_servos b) (bs_scheduler b)
    (bs_running b) (bs_health b) sequence (bs_cursor b) (bs_pending_index b) (bs_dispatched b)
    (bs_started_ns b) (bs_fault_latched b).

Definition set_runtime (b : St3215Bus) (i : nat) (r : ServoRuntime) : St3215Bus :=
  with_servos b (<[i := r]> (bs_servos b)).

(** *** Construction and life cycle *)

Definition same_servo (a b : St3215Servo) : bool :=
  (cfg_device_id (sv_config a) =? cfg_device_id (sv_config b)) ||
  String.eqb (cfg_name (sv_config a)) (cfg_name (sv_config b)).

(** [add_servo] of the servo at index [servo] of the store. *)
Definition add_servo (b : St3215Bus) (store : list St3215Servo) (servo : nat)
    : St3215Bus * Result unit :=
  match store !! servo with
  | None => (b, fail invalid_argument "invalid ST3215 servo configuration")
  | Some s =>
      let c := sv_config s in
      if bs_running b || String.eqb (cfg_name c) "" || (cfg_device_id c =? kSt3215BroadcastId) ||
         (cfg_max_position_units c =? 0) || (cfg_feedback_timeout_ms c <=? 0) ||
         (int64_max / 1000000 <? cfg_feedback_timeout_ms c)
      then (b, fail invalid_argument "invalid ST3215 servo configuration")
      else if existsb (fun r => match store !! rt_servo r with
                                | Some existing => same_servo existing s
                                | None => false
                                end) (bs_servos b)
      then (b, fail invalid_argument "duplicate ST3215 servo on shared bus")
      else (with_servos b (bs_servos b ++ [new_runtime servo]), success tt)
  end.

(** [start]; [lock_free] is the platform's answer about the snapshots. *)
Definition start (lock_free : bool) (scheduler : Z) (now_ns : Z) (b : St3215Bus)
    (m : TransportScheduler.assignments)
    : St3215Bus * TransportScheduler.assignments * Result unit :=
  if bs_running b || Nat.eqb (length (bs_servos b)) 0 || (bs_service_period_ns b <=? 0) ||
     (1000000000 <? bs_service_period_ns b)
  then (b, m, fail invalid_argument "ST3215 bus is not startable")
  else if negb lock_free then (b, m, fail unavailable "ST3215 snapshots are not lock-free")
  else
    match TransportScheduler.add m (bs_address b) TransportScheduler.blocking_event_driven with
    | (m, failure e) => (b, m, failure e)
    | (m, success _) =>
        match link_open (bs_transport b) with
        | (l, failure e) =>
            (with_transport b l, (TransportScheduler.remove m (bs_address b)).1, failure e)
        | (l, success _) =>
            (with_life (with_transport b l) (Some scheduler) true healthy now_ns, m, success tt)
        end
    end.

(** [stop()]. *)
Definition stop (b : St3215Bus) (m : TransportScheduler.assignments)
    : St3215Bus * TransportScheduler.assignments :=
  if negb (bs_running b) && bool_decide (bs_scheduler b = None) then (b, m)
  else
    let m :=
      match bs_scheduler b with
      | Some _ => (TransportScheduler.remove m (bs_address b)).1
      | None => m
      end in
    (with_life (with_transport b (link_close (bs_transport b))) None false failed (bs_started_ns b), m).

(** [stop(scheduler)]: another scheduler's bus is left alone. *)
Definition stop_with (scheduler : Z) (b : St3215Bus) (m : TransportScheduler.assignments)
    : St3215Bus * TransportScheduler.assignments :=
  match bs_scheduler b with
  | Some other => if other =? scheduler then stop b m else (b, m)
  | None => stop b m
  end.

(** *** One service step *)

Definition refresh_staged (servo : St3215Servo) (r : ServoRuntime) (now_ns : Z) : ServoRuntime :=
  let r :=
    match read_staged servo (rt_consumed_publication r) with
    | Some staged =>
        mkServoRuntime (rt_servo r) (sg_publication staged) (rt_feedback_sequence r)
          (rt_goal_sequence r) (rt_goal_dispatched r) (rt_last_response_ns r)
          (sg_command staged) true false
    | None => r
    end in
  let timeout := cfg_command_timeout_ns (sv_config servo) in
  let c := rt_command r in
  if rt_has_command r && (0 <? timeout) &&
     ((now_ns <? sc_timestamp_ns c) || (timeout <? now_ns - sc_timestamp_ns c))
  then
    mkServoRuntime (rt_servo r) (rt_consumed_publication r) (rt_feedback_sequence r)
      (rt_goal_sequence r) (rt_goal_dispatched r) (rt_last_response_ns r)
      (mkServoCommand (sc_sequence c) (sc_timestamp_ns c) (sc_target_position_rad c) false
         (sc_emergency_stop c) (sc_reserved c)) false true
  else r.

Definition next_feedback_sequence (r : ServoRuntime) : ServoRuntime :=
  mkServoRuntime (rt_servo r) (rt_consumed_publication r) (u64 (rt_feedback_sequence r + 1))
    (rt_goal_sequence r) (rt_goal_dispatched r) (rt_last_response_ns r) (rt_command r)
    (rt_has_command r) (rt_command_timed_out r).

Definition command_sequence (r : ServoRuntime) : Z :=
  if rt_has_command r then sc_sequence (rt_command r) else 0.

(** [failed_feedback], without its store to [health_]. *)
Definition failed_feedback (l : L) (servo : St3215Servo) (r : ServoRuntime) (flags now_ns : Z)
    : ServoRuntime * St3215ServoFeedback :=
  let value := Servo.feedback servo 0 in
  let r := next_feedback_sequence r in
  (r, mkServoFeedback (rt_feedback_sequence r) (command_sequence r) now_ns
        (sf_position_rad value) (sf_raw_position value)
        (Z.lor (clear_flags (sf_flags value) kSt3215FeedbackValid)
               (Z.lor kSt3215FeedbackStale flags))
        (transport_health_value (link_health l)) (sf_status_error value)
        (link_timeout_count l) (link_io_error_count l)).

Definition consume_response (l : L) (servo : St3215Servo) (r : ServoRuntime) (now_ns : Z)
    : L * ServoRuntime * Result St3215ServoFeedback :=
  match link_read l kSt3215MaximumFrameSize with
  | (l, failure e) => (l, r, failure e)
  | (l, success received) =>
      match parse_status received with
      | failure e => (l, r, failure e)
      | success status =>
          if negb (st_device_id status =? cfg_device_id (sv_config servo))
          then (l, r, fail protocol "ST3215 response device ID does not match request")
          else
            let value := Servo.feedback servo 0 in
            let r := next_feedback_sequence r in
            let answer radians raw :=
              mkServoFeedback (rt_feedback_sequence r) (command_sequence r) now_ns radians raw
                (if st_error status =? 0 then kSt3215FeedbackValid
                 else Z.lor kSt3215FeedbackStale kSt3215FeedbackDeviceError)
                (transport_health_value (link_health l)) (st_error status)
                (link_timeout_count l) (link_io_error_count l) in
            if (st_error status =? 0) && (2 <=? length (st_parameters status))%nat
            then
              match read_st3215_u16_le (st_parameters status) with
              | failure e => (l, r, failure e)
              | success raw =>
                  match position_units_to_radians raw (cfg_max_position_units (sv_config servo)) with
                  | failure e => (l, r, failure e)
                  | success radians => (l, r, success (answer radians raw))
                  end
              end
            else (l, r, success (answer (sf_position_rad value) (sf_raw_position value)))
      end
  end.

(** [send_request]'s frame, and the goal bookkeeping it does. *)
Definition command_active (r : ServoRuntime) : bool :=
  rt_has_command r && sc_enabled (rt_command r) && negb (sc_emergency_stop (rt_command r)).

Definition request (servo : St3215Servo) (r : ServoRuntime) : ServoRuntime * Result Bytes :=
  let c := sv_config servo in
  if command_active r &&
     (negb (rt_goal_dispatched r) || negb (rt_goal_sequence r =? sc_sequence (rt_command r)))
  then
    match radians_to_position_units (sc_target_position_rad (rt_command r)) (cfg_max_position_units c) with
    | failure e => (r, failure e)
    | success position =>
        (mkServoRuntime (rt_servo r) (rt_consumed_publication r) (rt_feedback_sequence r)
           (sc_sequence (rt_command r)) true (rt_last_response_ns r) (rt_command r)
           (rt_has_command r) (rt_command_timed_out r),
         success (goal_position_command (cfg_device_id c) position (cfg_time_units c)
                    (cfg_speed_units c)))
    end
  else (r, success (read_present_position_command (cfg_device_id c))).

Definition send_request (l : L) (servo : St3215Servo) (r : ServoRuntime)
    : L * ServoRuntime * Result unit :=
  match request servo r with
  | (r, failure e) => (l, r, failure e)
  | (r, success bytes) =>
      match link_write l bytes with
      | (l, failure e) => (l, r, failure e)
      | (l, success _) => (link_cycle l, r, success tt)
      end
  end.

(** [fault_latched_ = true], then the failed feedback of runtime [i] is published and
    the bus takes the health of the transport. *)
Definition latch (s : state) (i : nat) (servo : St3215Servo) (r : ServoRuntime) (flags now_ns : Z)
    : state :=
  let b := s_bus s in
  let '(r, value) := failed_feedback (bs_transport b) servo r flags now_ns in
  mkState (set_runtime (with_fault b (link_health (bs_transport b)) true) i r)
    (<[rt_servo r := publish_feedback servo value]> (s_servos s)).

Definition poll_response (s : state) (i : nat) (now_ns : Z) : state :=
  match bs_servos (s_bus s) !! i with
  | None => s
  | Some r =>
      match s_servos s !! rt_servo r with
      | None => s
      | Some servo =>
          let r := refresh_staged servo r now_ns in
          let '(l, r, response) := consume_response (bs_transport (s_bus s)) servo r now_ns in
          let b := set_runtime (with_transport (s_bus s) l) i r in
          let s := mkState b (s_servos s) in
          match response with
          | success value =>
              let value :=
                if rt_command_timed_out r then
                  mkServoFeedback (sf_feedback_sequence value) (sc_sequence (rt_command r))
                    (sf_timestamp_ns value) (sf_position_rad value) (sf_raw_position value)
                    (Z.lor (clear_flags (sf_flags value) kSt3215FeedbackValid)
                           (Z.lor kSt3215FeedbackStale kSt3215FeedbackTimeout))
                    (sf_transport_health value) (sf_status_error value) (sf_timeout_count value)
                    (sf_io_error_count value)
                else value in
              let value :=
                if command_active r then value
                else set_flags value (Z.lor (sf_flags value) kSt3215FeedbackDisabled) in
              let r :=
                mkServoRuntime (rt_servo r) (rt_consumed_publication r) (rt_feedback_sequence r)
                  (rt_goal_sequence r) (rt_goal_dispatched r) now_ns (rt_command r)
                  (rt_has_command r) (rt_command_timed_out r) in
              mkState (set_runtime b i r)
                (<[rt_servo r := publish_feedback servo value]> (s_servos s))
          | failure e =>
              if negb (bool_decide (code e = timeout))
              then latch s i servo r (error_flag (code e)) now_ns
              else
                let reference := Z.max (rt_last_response_ns r) (bs_started_ns b) in
                if cfg_feedback_timeout_ms (sv_config servo) * 1000000 <? now_ns - reference
                then latch s i servo r kSt3215FeedbackTimeout now_ns
                else s
          end
      end
  end.

(** [refresh_staged] and [dispatch_request] of the servo at the cursor. *)
Definition dispatch (s : state) (i : nat) (now_ns : Z) : state :=
  match bs_servos (s_bus s) !! i with
  | None => s
  | Some r =>
      match s_servos s !! rt_servo r with
      | None => s
      | Some servo =>
          let r := refresh_staged servo r now_ns in
          let '(l, r, sent) := send_request (bs_transport (s_bus s)) servo r in
          let s := mkState (set_runtime (with_transport (s_bus s) l) i r) (s_servos s) in
          match sent with
          | failure e => latch s i servo r (error_flag (code e)) now_ns
          | success _ => s
          end
      end
  end.

(** Publish the failed feedback of the servo at the cursor of a latched bus. *)
Definition report_latched (s : state) (now_ns : Z) : state :=
  match bs_servos (s_bus s) !! bs_cursor (s_bus s) with
  | None => s
  | Some r =>
      match s_servos s !! rt_servo r with
      | None => s
      | Some servo => latch s (bs_cursor (s_bus s)) servo r kSt3215FeedbackIo now_ns
      end
  end.

Definition with_bus (s : state) (b : St3215Bus) : state := mkState b (s_servos s).

(** [cycle].  The handler's [catch] is for exceptions of the port, which reports every
    failure it has by value. *)
Definition cycle (s : state) (now_ns : Z) : state :=
  let b := s_bus s in
  if negb (bs_running b) || Nat.eqb (length (bs_servos b)) 0 then s
  else
    let s := with_bus s (with_cycle_sequence b (u64 (bs_cycle_sequence b + 1))) in
    if bs_fault_latched b then report_latched s now_ns
    else
      let s := if bs_dispatched b then poll_response s (bs_pending_index b) now_ns else s in
      if bs_fault_latched (s_bus s) then s
      else
        let b := s_bus s in
        let cursor :=
          if bs_dispatched b then ((bs_pending_index b + 1) mod length (bs_servos b))%nat else 0%nat in
        let s := dispatch (with_bus s (with_cursor b cursor)) cursor now_ns in
        with_bus s (with_pending (s_bus s) cursor true).

End Bus.
End Bus.

(** ** [St3215DeviceRegistry] *)

Module Registry.

Import Servo.

Record St3215RegistrySafetySnapshot := mkSafetySnapshot {
  ss_servo_count : Z;
  ss_fault_count : Z;
  ss_fault_mask : Z;
  ss_aggregate_flags : Z;
  ss_flags : list Z }.

Section Registry.
Context {L : Type} `{SerialLink L}.

Record BusEntry := mkBusEntry { be_serial : SerialPortConfig; be_bus : Bus.St3215Bus (L := L) }.

Record St3215DeviceRegistry := mkRegistry {
  rg_buses : list BusEntry;
  rg_servos : list St3215Servo;
  rg_safety_groups : list string;
  rg_scheduler : option Z;
  rg_configured : bool;
  rg_running : bool }.

Definition create : St3215DeviceRegistry := mkRegistry [] [] [] None false false.

(** The port a profile asks for, without its deadlines. *)
Definition nonblocking (serial : SerialPortConfig) : SerialPortConfig :=
  mkSerialPort (sp_path serial) (sp_baud_rate serial) (sp_read_buffer_size serial)
    (sp_maximum_frame_size serial) 0 0 (sp_service_period_ns serial).

Definition serial_config (serial : SerialPortConfig) : SerialConfig :=
  mkSerialConfig (sp_path serial) (sp_baud_rate serial) (sp_read_buffer_size serial)
    (sp_maximum_frame_size serial) (sp_read_timeout_ms serial) (sp_write_timeout_ms serial).

Definition servo_config (profile : St3215ServoProfile) : St3215ServoConfig :=
  mkServoConfig (pf_sensor_name profile) (pf_device_id profile) (pf_servo_id profile)
    (pf_max_position_units profile) (pf_speed_units profile) (pf_time_units profile)
    (pf_feedback_timeout_ms profile) (pf_command_timeout_ms profile * 1000000)
    (pf_maximum_command_future_ms profile * 1000000).

Definition consistent_port (a b : SerialPortConfig) : bool :=
  (sp_baud_rate a =? sp_baud_rate b) && Nat.eqb (sp_read_buffer_size a) (sp_read_buffer_size b) &&
  Nat.eqb (sp_maximum_frame_size a) (sp_maximum_frame_size b) &&
  (sp_service_period_ns a =? sp_service_period_ns b).

Definition find_bus (path : string) (buses : list BusEntry) : option nat :=
  fst <$> list_find (fun entry => sp_path (be_serial entry) = path) buses.

(** [address k] is the address of the transport of the [k]-th bus. *)
Context (address : nat -> Z).

(** The bus of a profile's port, created when the path is new. *)
Definition bus_for (profile : St3215ServoProfile) (buses : list BusEntry)
    : Result (nat * list BusEntry) :=
  let serial := nonblocking (pf_serial profile) in
  match find_bus (sp_path (pf_serial profile)) buses with
  | None =>
      match TransportFactory.create_serial (serial_config serial) with
      | failure e => failure e
      | success config =>
          success (length buses,
            buses ++ [mkBusEntry serial
              (Bus.create (link_create config) (address (length buses))
                 (sp_service_period_ns (pf_serial profile)))])
      end
  | Some i =>
      match buses !! i with
      | Some entry =>
          if consistent_port (be_serial entry) serial then success (i, buses)
          else fail invalid_argument "inconsistent ST3215 registry serial configuration"
      | None => fail internal ""
      end
  end.

Fixpoint configure_loop (profiles : list St3215ServoProfile) (buses : list BusEntry)
    (servos : list St3215Servo) (groups : list string)
    : Result (list BusEntry * list St3215Servo * list string) :=
  match profiles with
  | [] => success (buses, servos, groups)
  | profile :: profiles =>
      match bus_for profile buses with
      | failure e => failure e
      | success (i, buses) =>
          let servos := servos ++ [Servo.create (servo_config profile)] in
          match buses !! i with
          | None => fail internal ""
          | Some entry =>
              match Bus.add_servo (be_bus entry) servos (length servos - 1) with
              | (_, failure e) => failure e
              | (bus, success _) =>
                  configure_loop profiles (<[i := mkBusEntry (be_serial entry) bus]> buses)
                    servos (groups ++ [pf_safety_group profile])
              end
          end
      end
  end.

Definition configure (g : St3215DeviceRegistry) (profiles : list St3215ServoProfile)
    : St3215DeviceRegistry * Result unit :=
  if rg_configured g || rg_running g || (kMaximumSt3215Servos <? length profiles)%nat
  then (g, fail invalid_argument "ST3215 device registry is already configured or oversized")
  else
    match configure_loop profiles [] [] [] with
    | failure e => (g, failure e)
    | success (buses, servos, groups) =>
        (mkRegistry buses servos groups (rg_scheduler g) true (rg_running g), success tt)
    end.

Definition set_bus (entry : BusEntry) (bus : Bus.St3215Bus) : BusEntry :=
  mkBusEntry (be_serial entry) bus.

(** Stop the buses of a list, the last first. *)
Fixpoint stop_all (scheduler : option Z) (buses : list BusEntry)
    (m : TransportScheduler.assignments) : list BusEntry * TransportScheduler.assignments :=
  match buses with
  | [] => ([], m)
  | entry :: buses =>
      let '(buses, m) := stop_all scheduler buses m in
      let '(bus, m) :=
        match scheduler with
        | Some scheduler => Bus.stop_with scheduler (be_bus entry) m
        | None => Bus.stop (be_bus entry) m
        end in
      (set_bus entry bus :: buses, m)
  end.

(** Start the buses in order; [started] is the prefix already started, which a failure
    stops in reverse. *)
Fixpoint start_loop (lock_free : bool) (scheduler now_ns : Z) (started buses : list BusEntry)
    (m : TransportScheduler.assignments)
    : list BusEntry * TransportScheduler.assignments * Result unit :=
  match buses with
  | [] => (started, m, success tt)
  | entry :: buses =>
      match Bus.start lock_free scheduler now_ns (be_bus entry) m with
      | (bus, m, success _) =>
          start_loop lock_free scheduler now_ns (started ++ [set_bus entry bus]) buses m
      | (bus, m, failure e) =>
          let '(started, m) := stop_all (Some scheduler) started m in
          (started ++ set_bus entry bus :: buses, m, failure e)
      end
  end.

Definition start (lock_free : bool) (scheduler now_ns : Z) (g : St3215DeviceRegistry)
    (m : TransportScheduler.assignments)
    : St3215DeviceRegistry * TransportScheduler.assignments * Result unit :=
  if negb (rg_configured g) || rg_running g || negb (bool_decide (rg_scheduler g = None))
  then (g, m, fail invalid_argument "ST3215 registry is not startable")
  else
    let '(buses, m, r) := start_loop lock_free scheduler now_ns [] (rg_buses g) m in
    match r with
    | failure e =>
        (mkRegistry buses (rg_servos g) (rg_safety_groups g) (rg_scheduler g) (rg_configured g)
           (rg_running g), m, failure e)
    | success _ =>
        (mkRegistry buses (rg_servos g) (rg_safety_groups g) (Some scheduler) (rg_configured g)
           true, m, success tt)
    end.

Definition stop (g : St3215DeviceRegistry) (m : TransportScheduler.assignments)
    : St3215DeviceRegistry * TransportScheduler.assignments :=
  let '(buses, m) := stop_all (rg_scheduler g) (rg_buses g) m in
  (mkRegistry buses (rg_servos g) (rg_safety_groups g) None (rg_configured g) false, m).

Definition stop_with (scheduler : Z) (g : St3215DeviceRegistry)
    (m : TransportScheduler.assignments)
    : St3215DeviceRegistry * TransportScheduler.assignments :=
  match rg_scheduler g with
  | Some other => if other =? scheduler then stop g m else (g, m)
  | None => stop g m
  end.

(** One step of every bus, in order, on the shared servos; bus [i] reads the clock
    [clock i]. *)
Fixpoint cycle_loop (buses : list BusEntry) (servos : list St3215Servo) (clock : nat -> Z)
    : list BusEntry * list St3215Servo :=
  match buses with
  | [] => ([], servos)
  | entry :: buses =>
      let s := Bus.cycle (Bus.mkState (be_bus entry) servos) (clock 0%nat) in
      let '(buses, servos) := cycle_loop buses (Bus.s_servos s) (fun i => clock (S i)) in
      (set_bus entry (Bus.s_bus s) :: buses, servos)
  end.

Definition set_servos (g : St3215DeviceRegistry) (servos : list St3215Servo) : St3215DeviceRegistry :=
  mkRegistry (rg_buses g) servos (rg_safety_groups g) (rg_scheduler g) (rg_configured g)
    (rg_running g).

Definition cycle (g : St3215DeviceRegistry) (clock : nat -> Z) : St3215DeviceRegistry :=
  if negb (rg_running g) then g
  else
    let '(buses, servos) := cycle_loop (rg_buses g) (rg_servos g) clock in
    mkRegistry buses servos (rg_safety_groups g) (rg_scheduler g) (rg_configured g) (rg_running g).

Definition stage_command (g : St3215DeviceRegistry) (index : nat) (command : St3215ServoCommand)
    (now_ns : Z) : St3215DeviceRegistry * St3215CommandAcceptance :=
  match rg_servos g !! index with
  | None => (g, rejected)
  | Some servo =>
      let '(servo, acceptance) := Servo.stage_command servo command now_ns in
      (set_servos g (<[index := servo]> (rg_servos g)), acceptance)
  end.

(** Lock the gates in order; [None] when one of them is held, the ones taken so far
    having been released. *)
Fixpoint lock_all (servos : list St3215Servo) : list St3215Servo * bool :=
  match servos with
  | [] => ([], true)
  | servo :: servos =>
      let '(locked_servo, locked) := try_lock_command servo in
      if negb locked then (locked_servo :: servos, false)
      else
        let '(rest, ok) := lock_all servos in
        ((if ok then locked_servo else unlock_command locked_servo) :: rest, ok)
  end.

Definition inspect_all (servos : list St3215Servo) (commands : list St3215ServoCommand) (now_ns : Z)
    : list St3215CommandAcceptance :=
  zip_with (fun servo command => inspect_command servo command now_ns) servos commands.

Definition stage_commands (g : St3215DeviceRegistry) (snapshot : Snapshot St3215ServoCommand)
    (now_ns : Z) : St3215DeviceRegistry * St3215CommandAcceptance :=
  let servos := rg_servos g in
  if negb (sn_axis_count snapshot =? Z.of_nat (length servos)) || Nat.eqb (length servos) 0 ||
     (sn_timestamp_ns snapshot <? 0) || (now_ns <? sn_timestamp_ns snapshot)
  then (g, rejected)
  else
    let commands := take (length servos) (sn_axes snapshot) in
    if existsb (fun command => negb (sc_sequence command =? sn_sequence snapshot) ||
                               negb (sc_timestamp_ns command =? sn_timestamp_ns snapshot)) commands
    then (g, rejected)
    else
      let '(servos, locked) := lock_all servos in
      if negb locked then (set_servos g servos, rejected)
      else
        match inspect_all servos commands now_ns with
        | [] => (set_servos g servos, rejected)
        | first :: others =>
            let uniform :=
              fold_left (fun uniform a => uniform && bool_decide (a = first)) others
                (negb (bool_decide (first = rejected))) in
            let servos :=
              if uniform && bool_decide (first = accepted)
              then zip_with commit_command servos commands else servos in
            (set_servos g (map unlock_command servos), if uniform then first else rejected)
        end.

Definition feedback (g : St3215DeviceRegistry) (index : nat) (now_ns : Z) : St3215ServoFeedback :=
  match rg_servos g !! index with
  | None => St3215ServoFeedback_zero
  | Some servo => Servo.feedback servo now_ns
  end.

Definition kFaultFlags : Z :=
  Z.lor kSt3215FeedbackStale (Z.lor kSt3215FeedbackTimeout
    (Z.lor kSt3215FeedbackIo (Z.lor kSt3215FeedbackProtocol kSt3215FeedbackDeviceError))).

Fixpoint safety_loop (servos : list St3215Servo) (index : nat) (now_ns : Z)
    (snapshot : St3215RegistrySafetySnapshot) : St3215RegistrySafetySnapshot :=
  match servos with
  | [] => snapshot
  | servo :: servos =>
      let flags := sf_flags (Servo.feedback servo now_ns) in
      let fault := has_flag flags kFaultFlags in
      safety_loop servos (S index) now_ns
        (mkSafetySnapshot (ss_servo_count snapshot)
           (if fault then u32 (ss_fault_count snapshot + 1) else ss_fault_count snapshot)
           (if fault then Z.lor (ss_fault_mask snapshot) (u32 (Z.shiftl 1 (Z.of_nat index)))
            else ss_fault_mask snapshot)
           (Z.lor (ss_aggregate_flags snapshot) flags)
           (<[index := flags]> (ss_flags snapshot)))
  end.

Definition safety_snapshot (g : St3215DeviceRegistry) (now_ns : Z) : St3215RegistrySafetySnapshot :=
  safety_loop (rg_servos g) 0 now_ns
    (mkSafetySnapshot (u32 (Z.of_nat (length (rg_servos g)))) 0 0 0
       (replicate kMaximumSt3215Servos 0)).

Definition servo_count (g : St3215DeviceRegistry) : nat := length (rg_servos g).
Definition bus_count (g : St3215DeviceRegistry) : nat := length (rg_buses g).

Definition atomics_are_lock_free (lock_free : bool) (g : St3215DeviceRegistry) : bool :=
  lock_free && forallb (fun _ => lock_free) (rg_servos g).

End Registry.
End Registry.

(** ** The serial transport is such a port *)

Module SerialPortLink.

Import SerialTransport SerialRuns.

(** A port, its host, and what the system calls of the next open will answer. *)
Record PortLink := mkPortLink { pl_port : Port; pl_host : Host; pl_outcome : OpenOutcome }.

Definition on_serial (l : PortLink) (s : Serial) : PortLink :=
  let p := pl_port l in
  mkPortLink (mkPort s (po_fd p) (po_identity p) (po_original_termios p)) (pl_host l) (pl_outcome l).

Section Environment.

(** The environment of the port of a configuration. *)
Context (environment : SerialConfig -> World) (host : Host) (outcome : SerialConfig -> OpenOutcome).

#[export] Instance port_link : SerialLink PortLink := {
  link_create c := mkPortLink (created c (environment c)) host (outcome c);
  link_open l :=
    let '(p, h, r) := SerialTransport.open (pl_port l) (pl_host l) (pl_outcome l) in
    (mkPortLink p h (pl_outcome l), r);
  link_close l :=
    let '(p, h) := SerialTransport.close (pl_port l) (pl_host l) in
    mkPortLink p h (pl_outcome l);
  link_read l capacity :=
    let '(s, r) := SerialTransport.read (po_serial (pl_port l)) 0 capacity in (on_serial l s, r);
  link_write l bytes :=
    let '(s, r) := SerialTransport.write (po_serial (pl_port l)) 0 bytes in (on_serial l s, r);
  link_cycle l := on_serial l (SerialTransport.cycle (po_serial (pl_port l)));
  link_health l := sl_health (po_serial (pl_port l));
  link_timeout_count l := sl_timeout_count (po_serial (pl_port l));
  link_io_error_count l := sl_io_error_count (po_serial (pl_port l)) }.

Definition wire (l : PortLink) : Bytes := wd_sent (sl_world (po_serial (pl_port l))).

Definition idle (l : PortLink) : Prop :=
  let s := po_serial (pl_port l) in
  sl_opened s = true /\ Ring.ring_ok (sl_tx s) /\ Ring.contents (sl_tx s) = [].

Lemma read_keeps_tx s channel capacity :
  sl_tx (SerialTransport.read s channel capacity).1 = sl_tx s /\
  sl_world (SerialTransport.read s channel capacity).1 = sl_world s.
Proof. unfold SerialTransport.read. by repeat case_match. Qed.

#[export] Instance port_link_laws : SerialLinkLaws PortLink.
Proof.
  refine {| link_wire := wire; link_idle := idle |}.
  - intros l n. cbn. destruct (read_keeps_tx (po_serial (pl_port l)) 0 n) as [_ Hw].
    destruct (SerialTransport.read _ _ _). unfold wire. cbn in *. by rewrite Hw.
  - intros l n (Ho & Hr & Hc). cbn. pose proof (read_opened (po_serial (pl_port l)) 0 n) as Ho'.
    destruct (read_keeps_tx (po_serial (pl_port l)) 0 n) as [Ht _].
    destruct (SerialTransport.read _ _ _). unfold idle. cbn in *. by rewrite Ht, Ho'.
  - intros l bytes l' e (Ho & Hr & Hc). cbn. unfold SerialTransport.write. rewrite Ho. cbn [negb].
    destruct (_ || _); [by intros [= <- _]|]. destruct (Ring.push _ _) as [tx []]; [done|].
    intros [= <- _]. done.
  - intros l bytes l' u (Ho & Hr & Hc). cbn. unfold SerialTransport.write. rewrite Ho. cbn [negb].
    destruct (_ || _); [done|].
    pose proof (Ring.push_contents (sl_tx (po_serial (pl_port l))) (mkFrame 0 bytes) Hr) as Hp.
    destruct (Ring.push _ _) as [tx []]; [|done]. destruct Hp as (Hr' & _ & Hp).
    intros [= <- _]. rewrite Hc in Hp. cbn [app] in Hp.
    set (s := set_tx (po_serial (pl_port l)) tx).
    pose proof (cycle_sends s Ho Hr') as Hs. cbv zeta in Hs.
    assert (sl_tx s = tx) as Et by done. rewrite Et, Hp in Hs. destruct Hs as (Hr2 & Hc' & k & Hk & _).
    split; [|by exists k]. unfold idle, on_serial. cbn.
    rewrite cycle_opened. by split_and!.
Defined.

End Environment.
End SerialPortLink.

(** ** Commands *)

Module ServoFacts.

Import Servo.

(** Commands offered one by one, each with the clock reading of its call. *)
Fixpoint stage_all (s : St3215Servo) (offers : list (St3215ServoCommand * Z))
    : St3215Servo * list St3215ServoCommand :=
  match offers with
  | [] => (s, [])
  | (c, now_ns) :: offers =>
      let '(s, a) := stage_command s c now_ns in
      let '(s, taken) := stage_all s offers in
      (s, if bool_decide (a = accepted) then c :: taken else taken)
  end.

(** Increasing sequences, non-decreasing time stamps, from the last command of [s] on. *)
Fixpoint ordered (previous : option St3215ServoCommand) (taken : list St3215ServoCommand) : Prop :=
  match taken with
  | [] => True
  | c :: taken =>
      0 <= sc_timestamp_ns c /\ isfinite (sc_target_position_rad c) = true /\
      match previous with
      | Some p => sc_sequence p < sc_sequence c /\ sc_timestamp_ns p <= sc_timestamp_ns c
      | None => True
      end /\ ordered (Some c) taken
  end.

(** The remembered command and the published one agree. *)
Definition remembers (s : St3215Servo) : Prop :=
  sv_command_gate s = false /\
  match LocalSnapshot.read (sv_commands s) with
  | None => sv_has_command s = false
  | Some staged =>
      sv_has_command s = true /\ sg_command staged = sv_last_command s /\
      sv_last_command_sequence s = sc_sequence (sv_last_command s) /\
      sv_last_command_timestamp_ns s = sc_timestamp_ns (sv_last_command s)
  end.

Definition latest (s : St3215Servo) : option St3215ServoCommand :=
  sg_command <$> LocalSnapshot.read (sv_commands s).

Lemma inspect_accepted s c now_ns :
  inspect_command s c now_ns = accepted ->
  0 <= sc_timestamp_ns c /\ isfinite (sc_target_position_rad c) = true /\
  (0 < cfg_command_timeout_ns (sv_config s) ->
   now_ns - cfg_command_timeout_ns (sv_config s) <= sc_timestamp_ns c <=
   now_ns + cfg_maximum_command_future_ns (sv_config s)) /\
  (sv_has_command s = true ->
   sv_last_command_sequence s < sc_sequence c /\
   sv_last_command_timestamp_ns s <= sc_timestamp_ns c).
Proof.
  unfold inspect_command. intros H.
  repeat match type of H with
  | (if ?b then _ else _) = _ => destruct b eqn:?; try discriminate
  end.
  all: b2p; split_and!; try done; [lia|intros Hh; rewrite Hh in *; lia].
Qed.

Lemma inspect_gate s gate c now_ns :
  inspect_command (set_gate s gate) c now_ns = inspect_command s c now_ns.
Proof. done. Qed.

Lemma set_gate_same s : sv_command_gate s = false -> set_gate s false = s.
Proof. destruct s. unfold set_gate. cbn. by intros ->. Qed.

Lemma stage_command_spec s c now_ns :
  sv_command_gate s = false ->
  stage_command s c now_ns =
    (if bool_decide (inspect_command s c now_ns = accepted) then commit_command s c else s,
     inspect_command s c now_ns).
Proof.
  intros Hg. unfold stage_command, try_lock_command. rewrite Hg. cbn [negb].
  rewrite inspect_gate. destruct (bool_decide _).
  - f_equal. unfold unlock_command, commit_command, set_gate. cbn. by rewrite Hg.
  - f_equal. unfold unlock_command. destruct s. cbn in Hg. by subst.
Qed.

Lemma commit_remembers s c :
  remembers s -> remembers (commit_command s c) /\ latest (commit_command s c) = Some c.
Proof. intros [Hg _]. by split_and!. Qed.

Lemma create_remembers config : remembers (create config).
Proof. by split. Qed.

Lemma stage_all_ordered offers : forall s,
  remembers s ->
  ordered (latest s) (stage_all s offers).2 /\ remembers (stage_all s offers).1 /\
  latest (stage_all s offers).1 =
    match last (stage_all s offers).2 with Some c => Some c | None => latest s end.
Proof.
  induction offers as [|[c now_ns] offers IH]; intros s Hr; [done|].
  cbn [stage_all]. rewrite stage_command_spec by apply Hr.
  destruct (bool_decide_reflect (inspect_command s c now_ns = accepted)) as [Ha|Ha].
  - destruct (commit_remembers s c Hr) as [Hr' Hl].
    specialize (IH _ Hr'). rewrite Hl in IH.
    destruct (stage_all _ offers) as [s' taken]. cbn [fst snd] in *.
    destruct IH as (Ho & Hs & Hlast). split_and!; [|done|].
    + destruct (inspect_accepted _ _ _ Ha) as (H1 & H2 & _ & H4). split_and!; try done.
      destruct Hr as [_ Hr]. unfold latest. destruct (LocalSnapshot.read _) as [staged|]; [|done].
      destruct Hr as (Hh & Hc & Hq & Ht). cbn. rewrite Hc. specialize (H4 Hh). lia.
    + rewrite Hlast. rewrite last_cons. by destruct (last taken).
  - specialize (IH _ Hr). by destruct (stage_all _ offers) as [s' taken].
Qed.

(** Whatever commands are offered to a servo, at whatever times, the ones it takes carry
    finite targets, have strictly increasing sequence numbers and non-decreasing time stamps,
    and what the bus will read is the last command taken, and nothing when none was. *)
Theorem servo_commands_ordered config offers :
  let '(s, taken) := stage_all (create config) offers in
  ordered None taken /\ latest s = last taken.
Proof.
  pose proof (stage_all_ordered offers (create config) (create_remembers config)) as H.
  destruct (stage_all _ _) as [s taken]. destruct H as (Ho & _ & Hl). cbn [fst snd] in *.
  split; [done|]. rewrite Hl. by destruct (last taken).
Qed.

End ServoFacts.

(** ** The registry *)

Module RegistryFacts.

Import Servo Registry ServoFacts.

Section Facts.
Context {L : Type} `{SerialLink L}.

Definition gates_free (servos : list St3215Servo) : Prop :=
  Forall (fun s => sv_command_gate s = false) servos.

Lemma lock_all_spec servos :
  (lock_all servos = (map (fun s => set_gate s true) servos, true) /\ gates_free servos) \/
  (lock_all servos = (servos, false) /\ ~ gates_free servos).
Proof.
  induction servos as [|s servos IH]; [left; split; [done|constructor]|].
  cbn [lock_all try_lock_command]. unfold try_lock_command.
  destruct (sv_command_gate s) eqn:Eg; cbn [negb].
  - right. split; [|intros Hf; apply Forall_cons in Hf as [Hf _]; congruence].
    do 2 f_equal. destruct s. cbn in Eg. by subst.
  - destruct IH as [[-> IH]|[-> IH]].
    + left. split; [done|]. by constructor.
    + right. split; [|intros Hf; by apply Forall_cons in Hf as [_ Hf]].
      do 2 f_equal. unfold unlock_command. destruct s. cbn in Eg. by subst.
Qed.

Lemma uniform_fold (first : St3215CommandAcceptance) others start :
  fold_left (fun uniform a => uniform && bool_decide (a = first)) others start =
  start && forallb (fun a => bool_decide (a = first)) others.
Proof.
  revert start. induction others as [|a others IH]; intros start; cbn.
  - by rewrite andb_true_r.
  - by rewrite IH, andb_assoc.
Qed.

Lemma unlock_locked servos :
  gates_free servos -> map unlock_command (map (fun s => set_gate s true) servos) = servos.
Proof.
  induction 1 as [|s servos Hg Hs IH]; [done|]. cbn. f_equal; [|exact IH].
  unfold unlock_command. destruct s. cbn in Hg. by subst.
Qed.

Lemma unlock_committed servos commands :
  gates_free servos ->
  map unlock_command (zip_with commit_command (map (fun s => set_gate s true) servos) commands) =
  zip_with commit_command servos commands.
Proof.
  intros Hf. revert commands. induction Hf as [|s servos Hg Hs IH]; intros [|c commands]; try done.
  cbn. f_equal; [|apply IH]. unfold unlock_command, commit_command, set_gate. cbn. by rewrite Hg.
Qed.

Lemma inspect_all_locked servos commands now_ns :
  inspect_all (map (fun s => set_gate s true) servos) commands now_ns =
  inspect_all servos commands now_ns.
Proof.
  unfold inspect_all. revert commands. induction servos as [|s servos IH]; intros [|c commands]; try done.
  cbn. by rewrite IH.
Qed.

Lemma unlock_locked_if (b : bool) servos commands :
  gates_free servos ->
  map unlock_command
    (if b then zip_with commit_command (map (fun s => set_gate s true) servos) commands
     else map (fun s => set_gate s true) servos) =
  if b then zip_with commit_command servos commands else servos.
Proof. intros Hf. destruct b; [by apply unlock_committed|by apply unlock_locked]. Qed.

(** What a batch must satisfy to reach the servos. *)
Definition batch_ok (g : St3215DeviceRegistry (L := L)) (snapshot : Snapshot St3215ServoCommand)
    (now_ns : Z) : Prop :=
  sn_axis_count snapshot = Z.of_nat (length (rg_servos g)) /\ rg_servos g <> [] /\
  0 <= sn_timestamp_ns snapshot <= now_ns /\
  Forall (fun c => sc_sequence c = sn_sequence snapshot /\
                   sc_timestamp_ns c = sn_timestamp_ns snapshot)
    (take (length (rg_servos g)) (sn_axes snapshot)) /\
  gates_free (rg_servos g) /\
  Forall (eq accepted)
    (inspect_all (rg_servos g) (take (length (rg_servos g)) (sn_axes snapshot)) now_ns).

Lemma set_servos_same (g : St3215DeviceRegistry (L := L)) : set_servos g (rg_servos g) = g.
Proof. by destruct g. Qed.

Lemma stamps_agree snapshot commands :
  existsb (fun command => negb (sc_sequence command =? sn_sequence snapshot) ||
    negb (sc_timestamp_ns command =? sn_timestamp_ns (T := St3215ServoCommand) snapshot)) commands = false <->
  Forall (fun c => sc_sequence c = sn_sequence snapshot /\
                   sc_timestamp_ns c = sn_timestamp_ns snapshot) commands.
Proof.
  induction commands as [|c commands IH]; cbn; [by split; constructor|].
  rewrite orb_false_iff, orb_false_iff, !negb_false_iff, !Z.eqb_eq, Forall_cons, IH. tauto.
Qed.

(** A batch of servo commands is taken by every servo or by none: it is accepted exactly
    when it has a command per servo, carries one sequence number and one time stamp that is
    not in the future, no servo is being written, and every servo accepts its command; then
    each servo takes its own command, and otherwise no servo is changed at all, not even the
    gates that were tried. *)
Theorem stage_commands_atomic g snapshot now_ns :
  (length (rg_servos g) <= length (sn_axes snapshot))%nat ->
  let '(g', a) := stage_commands (L := L) g snapshot now_ns in
  (a = accepted <-> batch_ok g snapshot now_ns) /\
  g' = if bool_decide (a = accepted)
       then set_servos g
              (zip_with commit_command (rg_servos g)
                 (take (length (rg_servos g)) (sn_axes snapshot)))
       else g.
Proof.
  intros Hlen. unfold stage_commands, batch_ok. set (servos := rg_servos g).
  set (commands := take (length servos) (sn_axes snapshot)).
  assert (length commands = length servos) as Hc by (apply length_take_le; exact Hlen).
  destruct (_ || _ || _ || _) eqn:E1.
  { split; [|done]. split; [done|]. intros (H1 & H2 & H3 & _).
    apply orb_true_iff in E1 as [[[E|E]%orb_true_iff|E]%orb_true_iff|E].
    - apply negb_true_iff, Z.eqb_neq in E. done.
    - apply Nat.eqb_eq in E. by apply nil_length_inv in E.
    - apply Z.ltb_lt in E. lia.
    - apply Z.ltb_lt in E. lia. }
  b2p. destruct (existsb _ commands) eqn:E2.
  { split; [|done]. split; [done|]. intros (_ & _ & _ & Hs & _).
    apply stamps_agree in Hs. congruence. }
  apply stamps_agree in E2.
  destruct (lock_all_spec servos) as [[-> Hf]|[-> Hf]]; cbn [negb].
  2: { split; [|by rewrite bool_decide_false by done; apply set_servos_same].
       split; [done|]. by intros (_ & _ & _ & _ & Hg & _). }
  rewrite inspect_all_locked.
  assert (length (inspect_all servos commands now_ns) = length servos) as Hi.
  { unfold inspect_all. rewrite length_zip_with. lia. }
  assert (servos <> []) as Hne by (intros Heq; rewrite Heq in *; done).
  destruct (inspect_all servos commands now_ns) as [|first others] eqn:Ei.
  { destruct servos; done. }
  rewrite uniform_fold. rewrite unlock_locked_if by done.
  destruct (negb (bool_decide (first = rejected)) && _) eqn:Eu.
  - apply andb_true_iff in Eu as [En Eo]. cbn [andb]. split.
    + split; [|intros (_ & _ & _ & _ & _ & Hx); by apply Forall_cons in Hx as [<- _]].
      intros ->. split_and!; try done. constructor; [done|].
      apply Forall_forall. intros a Ha%list_elem_of_In. rewrite forallb_forall in Eo.
      specialize (Eo a Ha). by apply bool_decide_eq_true in Eo.
    + destruct (bool_decide (first = accepted)); [done|]. apply set_servos_same.
  - cbn [andb]. split; [|by rewrite bool_decide_false by done; apply set_servos_same].
    split; [done|]. intros (_ & _ & _ & _ & _ & Hx). apply Forall_cons in Hx as [<- Hx].
    cbn in Eu. apply not_true_iff_false in Eu. destruct Eu. apply forallb_forall.
    intros a Ha%list_elem_of_In. rewrite Forall_forall in Hx.
    apply bool_decide_eq_true. symmetry. by apply Hx.
Qed.

(** *** The safety snapshot *)

Definition faulty (now_ns : Z) (servo : St3215Servo) : bool :=
  has_flag (sf_flags (Servo.feedback servo now_ns)) kFaultFlags.

Lemma bit_of_word i j :
  (i < 32)%nat -> Z.testbit (u32 (Z.shiftl 1 (Z.of_nat i))) (Z.of_nat j) = bool_decide (i = j).
Proof.
  intros Hi. rewrite Z.shiftl_1_l, wrap_small.
  - rewrite Z.pow2_bits_eqb by lia. apply eq_bool_prop_intro. rewrite bool_decide_spec.
    rewrite Is_true_true, Z.eqb_eq. lia.
  - split; [lia|]. apply Z.pow_lt_mono_r; lia.
Qed.

Lemma safety_loop_spec now_ns servos : forall index snapshot,
  (index + length servos <= kMaximumSt3215Servos)%nat ->
  length (ss_flags snapshot) = kMaximumSt3215Servos ->
  0 <= ss_fault_count snapshot <= Z.of_nat index ->
  let result := safety_loop servos index now_ns snapshot in
  (forall j, (j < index)%nat -> ss_flags result !! j = ss_flags snapshot !! j) /\
  (forall j servo, servos !! j = Some servo ->
     ss_flags result !! (index + j)%nat = Some (sf_flags (Servo.feedback servo now_ns))) /\
  (forall j, Z.testbit (ss_fault_mask result) (Z.of_nat j) =
     Z.testbit (ss_fault_mask snapshot) (Z.of_nat j) ||
     match servos !! (j - index)%nat with
     | Some servo => (index <=? j)%nat && faulty now_ns servo
     | None => false
     end) /\
  ss_fault_count result =
    ss_fault_count snapshot + Z.of_nat (length (filter (fun s => faulty now_ns s = true) servos)) /\
  ss_servo_count result = ss_servo_count snapshot.
Proof.
  unfold kMaximumSt3215Servos. induction servos as [|servo servos IH]; intros index snapshot Hl Hf Hc.
  { cbn. split_and!; try done; [|lia]. intros j. by rewrite orb_false_r. }
  cbn [safety_loop length] in *. set (flags := sf_flags (Servo.feedback servo now_ns)).
  match goal with |- context [safety_loop servos (S index) now_ns ?x] => set (next := x) end.
  assert (ss_fault_count next =
    ss_fault_count snapshot + (if faulty now_ns servo then 1 else 0)) as Hn.
  { cbn. unfold faulty. fold flags. destruct (has_flag flags kFaultFlags); [|lia].
    apply wrap_small. unfold is_word. lia. }
  destruct (IH (S index) next) as (H1 & H2 & H3 & H4 & H5).
  { lia. }
  { cbn. by rewrite length_insert. }
  { rewrite Hn. destruct (faulty _ _); lia. }
  cbv zeta in *. split_and!; try done.
  - intros j Hj. rewrite H1 by lia. cbn. by rewrite list_lookup_insert_ne by lia.
  - intros [|j] s Hs.
    + injection Hs as <-. rewrite Nat.add_0_r, H1 by lia. cbn.
      rewrite list_lookup_insert_eq by lia. done.
    + rewrite <- Nat.add_succ_comm. by apply H2.
  - intros j. rewrite H3. cbn [next ss_fault_mask].
    change (has_flag flags kFaultFlags) with (faulty now_ns servo).
    assert (Z.testbit (if faulty now_ns servo
        then Z.lor (ss_fault_mask snapshot) (u32 (Z.shiftl 1 (Z.of_nat index)))
        else ss_fault_mask snapshot) (Z.of_nat j) =
      Z.testbit (ss_fault_mask snapshot) (Z.of_nat j) ||
      (bool_decide (index = j) && faulty now_ns servo)) as ->.
    { destruct (faulty now_ns servo).
      - rewrite Z.lor_spec, bit_of_word by lia. by rewrite andb_true_r.
      - by rewrite andb_false_r, orb_false_r. }
    rewrite <- orb_assoc. f_equal.
    destruct (lt_eq_lt_dec j index) as [[Hj|Hj]|Hj].
    + rewrite bool_decide_false by lia.
      rewrite (proj2 (Nat.leb_gt (S index) j)), (proj2 (Nat.leb_gt index j)) by lia.
      by destruct (servos !! _), ((servo :: servos) !! _).
    + subst j. rewrite bool_decide_true, Nat.sub_diag, Nat.leb_refl by done.
      rewrite (proj2 (Nat.leb_gt (S index) index)) by lia. cbn. destruct (servos !! _); cbn; by rewrite ?orb_false_r.
    + rewrite bool_decide_false by lia.
      replace (j - index)%nat with (S (j - S index)) by lia. cbn [lookup list_lookup].
      rewrite (proj2 (Nat.leb_le (S index) j)), (proj2 (Nat.leb_le index j)) by lia. done.
  - rewrite H4, Hn. rewrite filter_cons. destruct (decide _) as [E|E]; [rewrite E|].
    + cbn [length]. lia.
    + apply not_true_is_false in E. rewrite E. lia.
Qed.

Lemma feedback_fresh servo now_ns :
  0 < now_ns -> 0 < cfg_feedback_timeout_ms (sv_config servo) ->
  has_flag (sf_flags (Servo.feedback servo now_ns)) kSt3215FeedbackStale = false ->
  0 < sf_timestamp_ns (Servo.feedback servo now_ns) <= now_ns /\
  now_ns - sf_timestamp_ns (Servo.feedback servo now_ns) <=
    cfg_feedback_timeout_ms (sv_config servo) * 1000000.
Proof.
  intros Hn Ht. unfold Servo.feedback. set (value := default _ _).
  rewrite (proj2 (Z.ltb_lt _ _) Hn), (proj2 (Z.ltb_lt _ _) Ht). cbn [andb].
  destruct (_ || _ || _) eqn:E.
  - intros Hs. exfalso. revert Hs. cbn [set_flags sf_flags]. unfold has_flag, clear_flags.
    rewrite negb_false_iff, Z.eqb_eq. intros Hs. apply (f_equal (fun z => Z.testbit z 1)) in Hs.
    rewrite Z.land_spec, Z.ldiff_spec, Z.lor_spec in Hs.
    change (Z.testbit kSt3215FeedbackStale 1) with true in Hs.
    change (Z.testbit kSt3215FeedbackValid 1) with false in Hs.
    rewrite orb_true_r in Hs. discriminate.
  - intros _. b2p. lia.
Qed.

Lemma no_fault_no_stale flags :
  has_flag flags kFaultFlags = false -> has_flag flags kSt3215FeedbackStale = false.
Proof.
  unfold has_flag. rewrite !negb_false_iff, !Z.eqb_eq. intros Hf. apply Z.bits_inj'. intros i Hi.
  apply (f_equal (fun z => Z.testbit z i)) in Hf. rewrite Z.land_spec, Z.bits_0 in *.
  destruct (Z.testbit flags i); [|done]. cbn [andb] in *.
  destruct (Z.eq_dec i 1) as [->|Hne]; [discriminate|].
  change kSt3215FeedbackStale with (2 ^ 1). apply Z.pow2_bits_false. lia.
Qed.

(** The safety snapshot tells the truth about every servo: its flags word is the servo's
    own feedback at that time, its bit in the fault mask is set exactly when those flags hold
    a fault, the fault count is the number of faulty servos, and a servo whose bit is clear
    has answered within its feedback time-out. *)
Theorem safety_snapshot_sound g now_ns :
  (length (rg_servos g) <= kMaximumSt3215Servos)%nat ->
  let snapshot := safety_snapshot (L := L) g now_ns in
  ss_servo_count snapshot = Z.of_nat (length (rg_servos g)) /\
  ss_fault_count snapshot =
    Z.of_nat (length (filter (fun s => faulty now_ns s = true) (rg_servos g))) /\
  forall i servo, rg_servos g !! i = Some servo ->
    let value := Servo.feedback servo now_ns in
    ss_flags snapshot !! i = Some (sf_flags value) /\
    Z.testbit (ss_fault_mask snapshot) (Z.of_nat i) = has_flag (sf_flags value) kFaultFlags /\
    (0 < now_ns -> 0 < cfg_feedback_timeout_ms (sv_config servo) ->
     Z.testbit (ss_fault_mask snapshot) (Z.of_nat i) = false ->
     0 < sf_timestamp_ns value <= now_ns /\
     now_ns - sf_timestamp_ns value <= cfg_feedback_timeout_ms (sv_config servo) * 1000000).
Proof.
  intros Hl. unfold safety_snapshot. cbv zeta.
  match goal with |- context [safety_loop _ _ _ ?x] =>
    destruct (safety_loop_spec now_ns (rg_servos g) 0 x) as (_ & H2 & H3 & H4 & H5);
      [exact Hl|reflexivity|cbn; lia|] end.
  cbv zeta in *. rewrite H4, H5. split_and!.
  - cbn. apply wrap_small. unfold is_word, kMaximumSt3215Servos in *. lia.
  - done.
  - intros i servo Hi. specialize (H2 _ _ Hi). specialize (H3 i).
    rewrite Nat.sub_0_r, Hi in H3. cbn [ss_fault_mask] in H3. rewrite Z.bits_0 in H3.
    cbn [orb andb Nat.leb] in H3.
    rewrite H3. split_and!; [done|done|]. intros Hn Ht Hf.
    by apply feedback_fresh, no_fault_no_stale.
Qed.

(** *** Starting and stopping *)

Definition idle_bus (entry : BusEntry (L := L)) : Prop :=
  Bus.bs_running (be_bus entry) = false /\ Bus.bs_scheduler (be_bus entry) = None.

Definition live_bus (scheduler : Z) (entry : BusEntry (L := L)) : Prop :=
  Bus.bs_running (be_bus entry) = true /\ Bus.bs_scheduler (be_bus entry) = Some scheduler.

Lemma bus_start_effect lock_free scheduler now_ns entry m :
  idle_bus entry ->
  let '(bus, m', r) := Bus.start lock_free scheduler now_ns (be_bus entry) m in
  match r with
  | success _ =>
      live_bus scheduler (set_bus entry bus) /\
      (TransportScheduler.remove m' (Bus.bs_address bus)).1 = m
  | failure _ => idle_bus (set_bus entry bus) /\ m' = m
  end.
Proof.
  intros [Hr Hs]. unfold Bus.start. rewrite Hr. cbn [orb].
  destruct (_ || _ || _); [done|]. destruct (negb lock_free); [done|].
  destruct (TransportScheduler.add _ _ _) as [m' [[]|e]] eqn:Ea.
  - pose proof (TransportScheduler.remove_add _ _ _ _ Ea) as Hm.
    destruct (link_open _) as [l [u|e]]; cbn; rewrite Hm; [done|]. by split.
  - apply TransportScheduler.add_failure in Ea as ->. done.
Qed.

Lemma bus_stop_effect scheduler entry m :
  live_bus scheduler entry ->
  let '(bus, m') := Bus.stop_with scheduler (be_bus entry) m in
  idle_bus (set_bus entry bus) /\
  m' = (TransportScheduler.remove m (Bus.bs_address (be_bus entry))).1.
Proof.
  intros [Hr Hs]. unfold Bus.stop_with. rewrite Hs, Z.eqb_refl. unfold Bus.stop.
  rewrite Hr, Hs. cbn. done.
Qed.

Lemma stop_all_snoc scheduler started entry m :
  stop_all (Some scheduler) (started ++ [entry]) m =
  let '(bus, m) := Bus.stop_with scheduler (be_bus entry) m in
  let '(started, m) := stop_all (Some scheduler) started m in
  (started ++ [set_bus entry bus], m).
Proof.
  induction started as [|e started IH]; cbn [app stop_all].
  - by destruct (Bus.stop_with _ _ _).
  - rewrite IH. destruct (Bus.stop_with scheduler (be_bus entry) m) as [bus m1].
    destruct (stop_all (Some scheduler) started m1) as [st m2].
    by destruct (Bus.stop_with scheduler (be_bus e) m2).
Qed.

(** [started] are live buses whose stop brings the assignments back to [m0]. *)
Definition undoable (scheduler : Z) (m0 : TransportScheduler.assignments)
    (started : list (BusEntry (L := L))) (m : TransportScheduler.assignments) : Prop :=
  Forall (live_bus scheduler) started /\
  let '(stopped, m') := stop_all (Some scheduler) started m in
  m' = m0 /\ Forall idle_bus stopped.

Lemma start_loop_spec lock_free scheduler now_ns m0 buses : forall started m,
  Forall idle_bus buses -> undoable scheduler m0 started m ->
  let '(buses', m', r) := start_loop lock_free scheduler now_ns started buses m in
  match r with
  | success _ => undoable scheduler m0 buses' m'
  | failure _ => m' = m0 /\ Forall idle_bus buses'
  end.
Proof.
  induction buses as [|entry buses IH]; intros started m Hi Hu; [exact Hu|].
  apply Forall_cons in Hi as [He Hi]. cbn [start_loop].
  pose proof (bus_start_effect lock_free scheduler now_ns entry m He) as Hs.
  destruct (Bus.start _ _ _ _ _) as [[bus m1] [[]|e]].
  - destruct Hs as [Hlive Hm]. apply IH; [done|]. destruct Hu as [Hl Hu]. split.
    + apply Forall_app. split; [done|]. by apply Forall_singleton.
    + rewrite stop_all_snoc.
      pose proof (bus_stop_effect scheduler (set_bus entry bus) m1 Hlive) as Hst.
      destruct (Bus.stop_with _ _ _) as [bus' m2]. destruct Hst as [Hid ->].
      cbn [set_bus be_bus]. rewrite Hm. destruct (stop_all _ started m) as [st m3].
      destruct Hu as [-> Hst]. split; [done|]. apply Forall_app. split; [done|].
      by apply Forall_singleton.
  - destruct Hs as [Hid ->]. destruct Hu as [Hl Hu].
    destruct (stop_all (Some scheduler) started m) as [st m2]. destruct Hu as [-> Hst].
    split; [done|]. apply Forall_app. split; [done|]. by constructor.
Qed.

(** Starting a registry whose buses are stopped starts all of them or none: when it
    fails, at whatever bus and for whatever reason, every bus is stopped and the scheduler's
    registrations are exactly what they were; when it succeeds every bus runs, and stopping
    the registry stops them all and gives the registrations back. *)
Theorem registry_start_all_or_nothing lock_free scheduler now_ns g m :
  Forall idle_bus (rg_buses g) -> rg_running g = false ->
  let '(g', m', r) := Registry.start (L := L) lock_free scheduler now_ns g m in
  match r with
  | failure _ => m' = m /\ Forall idle_bus (rg_buses g') /\ rg_running g' = false
  | success _ =>
      Forall (live_bus scheduler) (rg_buses g') /\ rg_running g' = true /\
      let '(g'', m'') := Registry.stop g' m' in
      m'' = m /\ Forall idle_bus (rg_buses g'') /\ rg_running g'' = false
  end.
Proof.
  intros Hi Hr. unfold Registry.start.
  destruct (negb (rg_configured g) || rg_running g || _); [by split_and!|].
  assert (undoable scheduler m [] m) as Hu by (split; [constructor|split; [done|constructor]]).
  pose proof (start_loop_spec lock_free scheduler now_ns m (rg_buses g) [] m Hi Hu) as Hs.
  destruct (start_loop _ _ _ _ _ _) as [[buses m'] [[]|e]].
  - destruct Hs as [Hl Hs]. cbn [rg_buses rg_running]. split; [done|]. split; [done|].
    unfold Registry.stop. cbn [rg_scheduler rg_buses].
    destruct (stop_all _ _ _) as [stopped m'']. destruct Hs. by split_and!.
  - destruct Hs as [-> Hs]. by split_and!.
Qed.

End Facts.
End RegistryFacts.

(** ** The bus *)

Module BusFacts.

Import Servo Bus ServoFacts.

Section Facts.
Context {L : Type} `{SerialLinkLaws L}.

(** What a publication of feedback leaves alone. *)
Definition command_view (s : St3215Servo) :=
  (sv_config s, sv_commands s, sv_next_publication s).

Definition same_commands (a b : list St3215Servo) : Prop := map command_view a = map command_view b.

Lemma same_commands_lookup a b i servo :
  same_commands a b -> a !! i = Some servo ->
  exists servo', b !! i = Some servo' /\ command_view servo = command_view servo'.
Proof.
  unfold same_commands. intros E Hi.
  assert (map command_view a !! i = map command_view b !! i) as El by (by rewrite E).
  rewrite !list_lookup_fmap, Hi in El. destruct (b !! i) as [s'|]; [|done].
  injection El as ?. exists s'. split; [done|]. unfold command_view. by f_equal; [f_equal|].
Qed.

Lemma same_commands_publish store i servo value :
  store !! i = Some servo -> same_commands store (<[i := publish_feedback servo value]> store).
Proof.
  unfold same_commands. revert i. induction store as [|s store IH]; intros [|i] Hi; try done.
  - by injection Hi as ->.
  - cbn. f_equal. by apply IH.
Qed.

(** A runtime that holds a command holds the latest one of its servo, unless a newer one
    waits to be read. *)
Definition runtime_ok (store : list St3215Servo) (r : ServoRuntime) : Prop :=
  exists servo, store !! rt_servo r = Some servo /\
  rt_consumed_publication r <= sv_next_publication servo /\
  match LocalSnapshot.read (sv_commands servo) with
  | None => rt_has_command r = false
  | Some staged =>
      sg_publication staged = sv_next_publication servo /\
      (rt_consumed_publication r = sv_next_publication servo -> rt_has_command r = true ->
       rt_command r = sg_command staged)
  end.

Definition fresh (servo : St3215Servo) (c : St3215ServoCommand) (now_ns : Z) : Prop :=
  0 < cfg_command_timeout_ns (sv_config servo) ->
  sc_timestamp_ns c <= now_ns <= sc_timestamp_ns c + cfg_command_timeout_ns (sv_config servo).

Lemma runtime_ok_same store store' r :
  same_commands store store' -> runtime_ok store r -> runtime_ok store' r.
Proof.
  intros Hs (servo & Hi & Hr). destruct (same_commands_lookup _ _ _ _ Hs Hi) as (servo' & Hi' & Hv).
  exists servo'. unfold command_view in Hv. injection Hv as _ <- <-. auto.
Qed.

Lemma refresh_staged_ok store servo r now_ns :
  store !! rt_servo r = Some servo -> runtime_ok store r ->
  let r' := refresh_staged servo r now_ns in
  runtime_ok store r' /\ rt_servo r' = rt_servo r /\
  (rt_has_command r' = true ->
   latest servo = Some (rt_command r') /\ fresh servo (rt_command r') now_ns).
Proof.
  intros Hi (servo' & Hi' & Hp & Hc). assert (servo' = servo) as -> by congruence. clear Hi'.
  unfold refresh_staged. set (r1 := match read_staged _ _ with Some _ => _ | None => r end).
  assert (rt_servo r1 = rt_servo r /\ runtime_ok store r1 /\
    (rt_has_command r1 = true -> latest servo = Some (rt_command r1))) as (Hs1 & Hok1 & Hl1).
  { unfold r1, read_staged, latest. destruct (LocalSnapshot.read (sv_commands servo)) as [staged|] eqn:Er.
    - destruct Hc as [Hpub Hc]. destruct (Z.eqb_spec (sg_publication staged) (rt_consumed_publication r)).
      + split_and!; [done|exists servo; by rewrite Er|]. intros Hh. cbn. rewrite Hc; congruence.
      + split_and!; [done| |done]. exists servo. rewrite Er. cbn. by split_and!; [|lia| |].
    - split_and!; [done|exists servo; by rewrite Er|]. congruence. }
  cbv zeta. clearbody r1. destruct (_ && _ && _) eqn:E; cbn [rt_servo rt_has_command].
  - split_and!; [|done|done]. destruct Hok1 as (s1 & Hi1 & Hp1 & Hc1). exists s1.
    split; [done|]. split; [done|]. 
    destruct (LocalSnapshot.read (sv_commands s1)); [|reflexivity].
    destruct Hc1 as [Hc1 _]. split; [exact Hc1|]. intros _ Hf. discriminate Hf.
  - split_and!; [done|done|]. intros Hh. split; [by apply Hl1|]. intros Ht.
    rewrite Hh in E. rewrite (proj2 (Z.ltb_lt _ _) Ht) in E. cbn [andb] in E. b2p. lia.
Qed.

Record state_ok (s : state (L := L)) : Prop := {
  ok_idle : link_idle (bs_transport (s_bus s));
  ok_runtimes : Forall (runtime_ok (s_servos s)) (bs_servos (s_bus s));
  ok_pending : bs_dispatched (s_bus s) = true ->
    (bs_pending_index (s_bus s) < length (bs_servos (s_bus s)))%nat }.

(** The servos of the store that are on the bus. *)
Definition members (b : St3215Bus (L := L)) : list nat := map rt_servo (bs_servos b).

Lemma members_insert (l : list ServoRuntime) i r r0 :
  l !! i = Some r0 -> rt_servo r = rt_servo r0 -> map rt_servo (<[i := r]> l) = map rt_servo l.
Proof.
  revert i. induction l as [|x l IH]; intros [|i] Hi Hr; try done; cbn.
  - injection Hi as ->. by rewrite Hr.
  - by rewrite IH.
Qed.

Lemma members_length (b b' : St3215Bus (L := L)) :
  members b' = members b -> length (bs_servos b') = length (bs_servos b).
Proof. intros E%(f_equal length). unfold members in E. by rewrite !length_map in E. Qed.

(** What a part of a cycle keeps. *)
Record keeps (s s' : state (L := L)) : Prop := {
  kp_commands : same_commands (s_servos s) (s_servos s');
  kp_members : members (s_bus s') = members (s_bus s);
  kp_running : bs_running (s_bus s') = bs_running (s_bus s);
  kp_cursor : bs_cursor (s_bus s') = bs_cursor (s_bus s);
  kp_pending : bs_pending_index (s_bus s') = bs_pending_index (s_bus s);
  kp_dispatched : bs_dispatched (s_bus s') = bs_dispatched (s_bus s);
  kp_latched : bs_fault_latched (s_bus s) = true -> bs_fault_latched (s_bus s') = true }.

Lemma keeps_refl s : keeps s s.
Proof. by split. Qed.

Lemma keeps_trans s1 s2 s3 : keeps s1 s2 -> keeps s2 s3 -> keeps s1 s3.
Proof.
  intros [A1 A2 A3 A4 A5 A6 A7] [B1 B2 B3 B4 B5 B6 B7]. unfold same_commands in *.
  split; unfold same_commands; try congruence. auto.
Qed.

Lemma state_ok_keeps s s' :
  state_ok s -> keeps s s' -> link_idle (bs_transport (s_bus s')) ->
  Forall (runtime_ok (s_servos s)) (bs_servos (s_bus s')) -> state_ok s'.
Proof.
  intros [H1 H2 H3] [K1 K2 K3 K4 K5 K6 K7] Hl Hr. split; [done| |].
  - eapply Forall_impl; [exact Hr|]. intros r. by apply runtime_ok_same.
  - rewrite K5, K6, (members_length _ _ K2). exact H3.
Qed.

(** Runtimes that agree on what [runtime_ok] looks at. *)
Definition same_command_state (a b : ServoRuntime) : Prop :=
  rt_servo a = rt_servo b /\ rt_consumed_publication a = rt_consumed_publication b /\
  rt_command a = rt_command b /\ rt_has_command a = rt_has_command b.

Lemma runtime_ok_agree store a b : same_command_state a b -> runtime_ok store a -> runtime_ok store b.
Proof. unfold same_command_state, runtime_ok. by intros (-> & -> & -> & ->). Qed.

(** Storing a runtime, the port and the latch back. *)
Lemma store_runtime s i r r0 l (b : St3215Bus (L := L)) :
  bs_servos (s_bus s) !! i = Some r0 -> rt_servo r = rt_servo r0 ->
  state_ok s -> b = set_runtime (with_transport (s_bus s) l) i r ->
  link_idle l -> runtime_ok (s_servos s) r ->
  state_ok (mkState b (s_servos s)) /\ keeps s (mkState b (s_servos s)).
Proof.
  intros Hi Hs Hok -> Hl Hr.
  assert (keeps s (mkState (set_runtime (with_transport (s_bus s) l) i r) (s_servos s))) as Hk.
  { split; try done. by eapply members_insert. }
  split; [|exact Hk]. eapply state_ok_keeps; [exact Hok|exact Hk|exact Hl|].
  cbn. apply Forall_insert; [apply Hok|done].
Qed.

Lemma latch_ok s i servo r r0 flags now_ns :
  bs_servos (s_bus s) !! i = Some r0 -> rt_servo r = rt_servo r0 ->
  state_ok s -> s_servos s !! rt_servo r = Some servo -> runtime_ok (s_servos s) r ->
  let s' := latch s i servo r flags now_ns in
  state_ok s' /\ keeps s s' /\ bs_fault_latched (s_bus s') = true /\
  bs_transport (s_bus s') = bs_transport (s_bus s).
Proof.
  intros Hr0 Hs0 Hok Hi Hr. unfold latch, failed_feedback. cbv zeta.
  match goal with |- state_ok ?x /\ _ => set (s' := x) end.
  assert (keeps s s') as Hk.
  { split; try done; [by apply same_commands_publish|by eapply members_insert]. }
  split_and!; [|exact Hk|done|done].
  eapply state_ok_keeps; [exact Hok|exact Hk|exact (ok_idle _ Hok)|].
  cbn. apply Forall_insert; [apply Hok|].
  eapply runtime_ok_agree; [|exact Hr]. done.
Qed.

Lemma consume_response_ok l servo r now_ns :
  link_idle l ->
  let '(l', r', _) := consume_response l servo r now_ns in
  link_idle l' /\ link_wire l' = link_wire l /\ same_command_state r r'.
Proof.
  intros Hl. unfold consume_response.
  pose proof (link_read_idle l kSt3215MaximumFrameSize Hl) as Hi.
  pose proof (link_read_wire l kSt3215MaximumFrameSize) as Hw.
  destruct (link_read _ _) as [l' [received|e]]; cbn [fst] in *; [|by split_and!].
  destruct (parse_status received) as [status|]; [|by split_and!].
  destruct (negb _); [by split_and!|]. destruct (_ && _)%bool; [|by split_and!].
  destruct (read_st3215_u16_le _) as [raw|]; [|by split_and!].
  destruct (position_units_to_radians _ _); by split_and!.
Qed.

Lemma poll_response_ok s i now_ns :
  state_ok s ->
  let s' := poll_response s i now_ns in
  state_ok s' /\ keeps s s' /\ link_wire (bs_transport (s_bus s')) = link_wire (bs_transport (s_bus s)).
Proof.
  intros Hok. unfold poll_response. cbv zeta.
  destruct (bs_servos (s_bus s) !! i) as [r|] eqn:Er; [|split_and!; [done|apply keeps_refl|done]].
  destruct (s_servos s !! rt_servo r) as [servo|] eqn:Es; [|split_and!; [done|apply keeps_refl|done]].
  pose proof (Forall_lookup_1 _ _ _ _ (ok_runtimes _ Hok) Er) as Hr.
  destruct (refresh_staged_ok _ _ _ now_ns Es Hr) as (Hr1 & Hs1 & _).
  set (r1 := refresh_staged servo r now_ns) in *. clearbody r1.
  pose proof (consume_response_ok (bs_transport (s_bus s)) servo r1 now_ns (ok_idle _ Hok)) as Hc.
  destruct (consume_response _ _ _ _) as [[l r2] response]. destruct Hc as (Hl & Hw & Ha).
  assert (runtime_ok (s_servos s) r2) as Hr2 by (eapply runtime_ok_agree; eassumption).
  assert (rt_servo r2 = rt_servo r) as Hs2 by (destruct Ha as [<- _]; exact Hs1).
  destruct (store_runtime s i r2 r l _ Er Hs2 Hok eq_refl Hl Hr2) as [Hok2 Hk2].
  assert (bs_servos (s_bus (mkState (set_runtime (with_transport (s_bus s) l) i r2) (s_servos s))) !! i =
    Some r2) as Er2 by (apply list_lookup_insert_eq; by eapply lookup_lt_Some).
  destruct response as [value|e].
  - match goal with |- state_ok ?x /\ _ => set (s' := x) end.
    assert (keeps s s') as Hk.
    { split; try done.
      - apply same_commands_publish. by rewrite Hs2.
      - unfold members, s'. cbn. rewrite (members_insert _ _ _ _ Er2) by done.
        by apply (members_insert _ _ _ _ Er). }
    split_and!; [|exact Hk|exact Hw].
    eapply state_ok_keeps; [exact Hok|exact Hk|exact Hl|]. unfold s'. cbn.
    apply Forall_insert; [apply Forall_insert; [apply Hok|done]|].
    eapply runtime_ok_agree; [|exact Hr2]. done.
  - assert (forall flags,
      let s' := latch (mkState (set_runtime (with_transport (s_bus s) l) i r2) (s_servos s)) i servo r2
        flags now_ns in
      state_ok s' /\ keeps s s' /\
      link_wire (bs_transport (s_bus s')) = link_wire (bs_transport (s_bus s))) as Hlatch.
    { intros flags.
      destruct (latch_ok _ i servo r2 _ flags now_ns Er2 eq_refl Hok2) as (H1 & H2 & _ & H4).
      - cbn. by rewrite Hs2.
      - exact Hr2.
      - cbv zeta. split_and!; [exact H1|by eapply keeps_trans|]. rewrite H4. exact Hw. }
    destruct (negb _); [apply Hlatch|]. destruct (_ <? _); [apply Hlatch|]. by split_and!.
Qed.

(** The frames a bus with these servos of the store may send: a position request to one of them,
    or the goal of the latest command of that servo, which is enabled, not an emergency stop, and
    fresh. *)
Definition authorised (on_bus : list nat) (store : list St3215Servo) (now_ns : Z) (bytes : Bytes)
    : Prop :=
  exists i servo, i ∈ on_bus /\ store !! i = Some servo /\
  let config := sv_config servo in
  (bytes = read_present_position_command (cfg_device_id config) \/
   exists c position, latest servo = Some c /\ sc_enabled c = true /\
     sc_emergency_stop c = false /\ fresh servo c now_ns /\
     radians_to_position_units (sc_target_position_rad c) (cfg_max_position_units config) =
       success position /\
     bytes = goal_position_command (cfg_device_id config) position (cfg_time_units config)
               (cfg_speed_units config)).

Lemma request_ok on_bus store servo r now_ns :
  rt_servo r ∈ on_bus -> store !! rt_servo r = Some servo ->
  (rt_has_command r = true -> latest servo = Some (rt_command r) /\ fresh servo (rt_command r) now_ns) ->
  let '(r', result) := request servo r in
  same_command_state r r' /\
  match result with success bytes => authorised on_bus store now_ns bytes | failure _ => True end.
Proof.
  intros Hon Hi Hc. unfold request. destruct (command_active r) eqn:Ea; cbn [andb].
  2: { split; [done|]. exists (rt_servo r), servo. do 2 (split; [done|]). by left. }
  unfold command_active in Ea. apply andb_true_iff in Ea as [[Hh He]%andb_true_iff Hs].
  destruct (_ || _)%bool.
  2: { split; [done|]. exists (rt_servo r), servo. do 2 (split; [done|]). by left. }
  destruct (radians_to_position_units _ _) as [position|] eqn:Ep; [|done].
  split; [done|]. exists (rt_servo r), servo. do 2 (split; [done|]). right.
  destruct (Hc Hh) as [Hl Hf]. exists (rt_command r), position.
  apply negb_true_iff in Hs. by split_and!.
Qed.

(** What a part of a cycle puts on the wire. *)
Definition transmits (s s' : state (L := L)) (now_ns : Z) : Prop :=
  exists bytes k,
    link_wire (bs_transport (s_bus s')) = link_wire (bs_transport (s_bus s)) ++ take k bytes /\
    (bytes = [] \/ authorised (members (s_bus s)) (s_servos s) now_ns bytes).

Lemma transmits_nothing s s' now_ns :
  link_wire (bs_transport (s_bus s')) = link_wire (bs_transport (s_bus s)) -> transmits s s' now_ns.
Proof. intros Hw. exists [], O. split; [by rewrite app_nil_r|by left]. Qed.

Lemma dispatch_ok s i now_ns :
  state_ok s ->
  let s' := dispatch s i now_ns in state_ok s' /\ keeps s s' /\ transmits s s' now_ns.
Proof.
  intros Hok. unfold dispatch. cbv zeta.
  destruct (bs_servos (s_bus s) !! i) as [r|] eqn:Er;
    [|split_and!; [done|apply keeps_refl|by apply transmits_nothing]].
  destruct (s_servos s !! rt_servo r) as [servo|] eqn:Es;
    [|split_and!; [done|apply keeps_refl|by apply transmits_nothing]].
  pose proof (Forall_lookup_1 _ _ _ _ (ok_runtimes _ Hok) Er) as Hr.
  destruct (refresh_staged_ok _ _ _ now_ns Es Hr) as (Hr1 & Hs1 & Hc1).
  set (r1 := refresh_staged servo r now_ns) in *. clearbody r1. rewrite <- Hs1 in Es.
  assert (rt_servo r1 ∈ members (s_bus s)) as Hon.
  { rewrite Hs1. apply list_elem_of_fmap. exists r. split; [done|]. by eapply list_elem_of_lookup_2. }
  pose proof (request_ok _ (s_servos s) servo r1 now_ns Hon Es Hc1) as Hq.
  unfold send_request. destruct (request servo r1) as [r2 [bytes|e]]; destruct Hq as [Ha Hq];
    (assert (runtime_ok (s_servos s) r2) as Hr2 by (eapply runtime_ok_agree; eassumption));
    (assert (rt_servo r2 = rt_servo r) as Hs2 by (destruct Ha as [<- _]; exact Hs1));
    (assert (forall l, bs_servos (s_bus (mkState (set_runtime (with_transport (s_bus s) l) i r2)
       (s_servos s))) !! i = Some r2) as Er2 by (intros l; apply list_lookup_insert_eq; by eapply lookup_lt_Some)).
  2: { destruct (store_runtime s i r2 r _ _ Er Hs2 Hok eq_refl (ok_idle _ Hok) Hr2) as [Hok2 Hk2].
       destruct (latch_ok _ i servo r2 r2 (error_flag (code e)) now_ns
         (Er2 _) eq_refl Hok2) as (H1 & H2 & _ & H4);
         [by rewrite Hs2, <- Hs1|exact Hr2|].
       split_and!; [exact H1|by eapply keeps_trans|]. apply transmits_nothing. by rewrite H4. }
  destruct (link_write (bs_transport (s_bus s)) bytes) as [l [u|e]] eqn:Ew.
  - destruct (link_write_success _ _ _ _ (ok_idle _ Hok) Ew) as [Hl [k Hk]].
    destruct (store_runtime s i r2 r _ _ Er Hs2 Hok eq_refl Hl Hr2) as [Hok2 Hk2].
    split_and!; [exact Hok2|exact Hk2|]. exists bytes, k. split; [exact Hk|by right].
  - destruct (link_write_failure _ _ _ _ (ok_idle _ Hok) Ew) as [Hw Hl].
    destruct (store_runtime s i r2 r _ _ Er Hs2 Hok eq_refl Hl Hr2) as [Hok2 Hk2].
    destruct (latch_ok _ i servo r2 r2 (error_flag (code e)) now_ns
      (Er2 _) eq_refl Hok2) as (H1 & H2 & _ & H4);
      [by rewrite Hs2, <- Hs1|exact Hr2|].
    split_and!; [exact H1|by eapply keeps_trans|]. apply transmits_nothing. by rewrite H4.
Qed.

Lemma authorised_same on_bus store store' now_ns bytes :
  same_commands store' store -> authorised on_bus store now_ns bytes ->
  authorised on_bus store' now_ns bytes.
Proof.
  intros Hs (i & servo & Hon & Hi & Ha).
  destruct (same_commands_lookup _ _ _ _ (eq_sym Hs) Hi) as (servo' & Hi' & Hv).
  exists i, servo'. do 2 (split; [done|]). unfold command_view in Hv. injection Hv as Hc Hm _.
  unfold latest, fresh in *. by rewrite <- Hc, <- Hm.
Qed.

Lemma cycle_ok s now_ns :
  state_ok s ->
  let s' := cycle s now_ns in
  state_ok s' /\ same_commands (s_servos s) (s_servos s') /\ transmits s s' now_ns /\
  members (s_bus s') = members (s_bus s) /\
  bs_running (s_bus s') = bs_running (s_bus s) /\
  (bs_fault_latched (s_bus s) = true ->
   bs_fault_latched (s_bus s') = true /\ bs_transport (s_bus s') = bs_transport (s_bus s)) /\
  (bs_running (s_bus s) = true -> bs_dispatched (s_bus s) = true ->
   bs_fault_latched (s_bus s') = true \/
   bs_dispatched (s_bus s') = true /\
   bs_pending_index (s_bus s') =
     ((bs_pending_index (s_bus s) + 1) mod length (bs_servos (s_bus s)))%nat).
Proof.
  intros Hok. unfold cycle. cbv zeta.
  destruct (negb (bs_running (s_bus s)) || _) eqn:E0.
  { split_and!; try done; [by apply transmits_nothing|].
    intros Hr Hd. rewrite Hr in E0. cbn in E0. apply Nat.eqb_eq in E0.
    pose proof (ok_pending _ Hok Hd). lia. }
  apply orb_false_iff in E0 as [_ En%Nat.eqb_neq].
  set (s1 := with_bus s (with_cycle_sequence (s_bus s) _)).
  assert (state_ok s1) as Hok1 by (destruct Hok; by split).
  assert (keeps s s1) as Hk1 by by split.
  assert (bs_transport (s_bus s1) = bs_transport (s_bus s)) as Ht1 by done.
  assert (s_servos s1 = s_servos s) as Hs1 by done.
  assert (bs_fault_latched (s_bus s1) = bs_fault_latched (s_bus s)) as Hf1 by done.
  clearbody s1. destruct (bs_fault_latched (s_bus s)) eqn:Ef.
  - (* latched *)
    assert (state_ok (report_latched s1 now_ns) /\ keeps s1 (report_latched s1 now_ns) /\
      bs_transport (s_bus (report_latched s1 now_ns)) = bs_transport (s_bus s1)) as (H1 & H2 & H3).
    { unfold report_latched. destruct (_ !! _) as [r|] eqn:Er; [|by split_and!; [|apply keeps_refl|]].
      destruct (s_servos s1 !! rt_servo r) as [servo|] eqn:Es; [|by split_and!; [|apply keeps_refl|]].
      pose proof (Forall_lookup_1 _ _ _ _ (ok_runtimes _ Hok1) Er) as Hr.
      by destruct (latch_ok s1 (bs_cursor (s_bus s1)) servo r r kSt3215FeedbackIo now_ns Er eq_refl Hok1 Es Hr)
        as (? & ? & _ & ?). }
    pose proof (keeps_trans _ _ _ Hk1 H2) as [K1 K2 K3 K4 K5 K6 K7]. rewrite Ef in K7.
    split_and!; try done; [apply transmits_nothing; by rewrite H3, Ht1| |]; rewrite ?H3; auto.
  - set (s2 := if bs_dispatched (s_bus s) then poll_response s1 _ now_ns else s1).
    assert (state_ok s2 /\ keeps s1 s2 /\
      link_wire (bs_transport (s_bus s2)) = link_wire (bs_transport (s_bus s1))) as (Hok2 & Hk2 & Hw2).
    { unfold s2. destruct (bs_dispatched (s_bus s)); [by apply poll_response_ok|].
      by split_and!; [|apply keeps_refl|]. }
    clearbody s2. pose proof (keeps_trans _ _ _ Hk1 Hk2) as Hk.
    destruct (bs_fault_latched (s_bus s2)) eqn:Ef2.
    { destruct Hk as [K1 K2 K3 K4 K5 K6 K7]. split_and!; try done; [|auto].
      apply transmits_nothing. by rewrite Hw2, Ht1. }
    set (cursor := if bs_dispatched (s_bus s2) then _ else O).
    set (s3 := with_bus s2 (with_cursor (s_bus s2) cursor)).
    assert (state_ok s3) as Hok3 by (destruct Hok2; by split).
    destruct (dispatch_ok s3 cursor now_ns Hok3) as (Hok4 & Hk4 & bytes & k & Hw4 & Ha4).
    set (s4 := dispatch s3 cursor now_ns) in *. clearbody s4.
    destruct Hk as [K1 K2 K3 K4 K5 K6 K7], Hk4 as [J1 J2 J3 J4 J5 J6 J7].
    cbn [s3 with_bus s_bus s_servos with_cursor bs_servos bs_running bs_pending_index bs_dispatched
      bs_transport bs_fault_latched] in *.
    assert (cursor < length (bs_servos (s_bus s)))%nat as Hcur.
    { unfold cursor. rewrite (members_length _ _ K2). destruct (bs_dispatched _); [|lia].
      apply Nat.mod_upper_bound. lia. }
    split_and!.
    + destruct Hok4 as [A1 A2 A3]. split; [done|done|]. intros _. cbn.
      rewrite (members_length _ _ J2). cbn. by rewrite (members_length _ _ K2).
    + unfold same_commands in *. cbn. congruence.
    + exists bytes, k. cbn. rewrite Hw4, Hw2, Ht1. split; [done|].
      destruct Ha4 as [->|Ha4]; [by left|]. right. rewrite <- K2. by eapply authorised_same.
    + rewrite <- K2. exact J2.
    + cbn. by rewrite J3, K3.
    + done.
    + intros _ Hd. right. cbn. split; [done|]. unfold cursor.
      by rewrite K6, Hd, K5, (members_length _ _ K2).
Qed.

(** *** Runs: service steps interleaved with commands for the servos *)

Inductive bus_step : state (L := L) -> state (L := L) -> Prop :=
  | step_cycle s now_ns : bus_step s (Bus.cycle s now_ns)
  | step_stage s j servo c now_ns :
      s_servos s !! j = Some servo -> 0 <= sv_next_publication servo < uint64_max ->
      bus_step s
        (mkState (s_bus s) (<[j := (stage_command servo c now_ns).1]> (s_servos s))).

Lemma stage_runtime_ok store j servo c now_ns r :
  store !! j = Some servo -> 0 <= sv_next_publication servo < uint64_max ->
  runtime_ok store r -> runtime_ok (<[j := (stage_command servo c now_ns).1]> store) r.
Proof.
  intros Hj Hn (s0 & Hi & Hp & Hc).
  unfold runtime_ok. destruct (Nat.eq_dec j (rt_servo r)) as [E|Hne]; [subst j|].
  2: { exists s0. by rewrite list_lookup_insert_ne. }
  assert (s0 = servo) as -> by congruence.
  eexists. rewrite list_lookup_insert_eq by (eapply lookup_lt_Some, Hj). split; [done|].
  unfold stage_command, try_lock_command. destruct (sv_command_gate servo); cbn [negb fst].
  { split; [done|]. exact Hc. }
  destruct (bool_decide _); [|split; [done|exact Hc]].
  cbn. unfold uint64_max in Hn.
  rewrite wrap_small by (unfold is_word; lia). split_and!; [lia|done|lia].
Qed.

Lemma bus_step_ok s s' : state_ok s -> bus_step s s' -> state_ok s'.
Proof.
  intros Hok Hst. destruct Hst as [s now_ns|s j servo c now_ns Hj Hn].
  - by apply cycle_ok.
  - destruct Hok as [H1 H2 H3]. split; [done| |done]. cbn.
    eapply Forall_impl; [exact H2|]. intros r. by apply stage_runtime_ok.
Qed.

Lemma bus_step_members s s' : state_ok s -> bus_step s s' -> members (s_bus s') = members (s_bus s).
Proof. intros Hok Hst. destruct Hst as [s now_ns|]; [by apply cycle_ok|done]. Qed.

(** C14. At any moment of any run of a servo bus, whatever commands are staged, whatever the
    port answers and however late, a service step transmits at most one frame, and that frame
    is addressed to a servo of this very bus (the servos of a run are those of its start): a
    position request, or the goal position of the latest command taken for that servo, which is
    enabled, is not an emergency stop and is within its time-out at that moment.  A stale,
    disabled or superseded command never moves a servo.  A bus that has latched a fault stays
    latched and does not touch the port any more. *)
Theorem bus_transmits_authorised s0 s now_ns :
  state_ok s0 -> rtc bus_step s0 s ->
  let s' := Bus.cycle s now_ns in
  members (s_bus s) = members (s_bus s0) /\ transmits s s' now_ns /\
  (bs_fault_latched (s_bus s) = true ->
   bs_fault_latched (s_bus s') = true /\ bs_transport (s_bus s') = bs_transport (s_bus s)).
Proof.
  intros Hok Hrun. assert (state_ok s /\ members (s_bus s) = members (s_bus s0)) as [Hs Hm].
  { revert Hok. induction Hrun as [|a b c Hab _ IH]; [done|]. intros Ha.
    destruct (IH (bus_step_ok a b Ha Hab)) as [Hc Hm]. split; [exact Hc|].
    rewrite Hm. by apply bus_step_members. }
  pose proof (cycle_ok s now_ns Hs) as (_ & _ & Ht & _ & _ & Hl & _). by split_and!.
Qed.

Definition cycles (s : state (L := L)) (clocks : list Z) : state (L := L) :=
  fold_left Bus.cycle clocks s.

(** A bus that does not latch a fault serves its servos in turn: after [k] service steps
    the servo being served is [k] places further around the bus, so any [n] consecutive steps
    serve each of its [n] servos exactly once. *)
Theorem bus_round_robin s clocks :
  state_ok s -> bs_running (s_bus s) = true -> bs_dispatched (s_bus s) = true ->
  let s' := cycles s clocks in
  bs_fault_latched (s_bus s') = false ->
  bs_pending_index (s_bus s') =
    ((bs_pending_index (s_bus s) + length clocks) mod length (bs_servos (s_bus s)))%nat.
Proof.
  revert s. induction clocks as [|now_ns clocks IH]; intros s Hok Hr Hd; cbv zeta.
  { intros _. cbn. rewrite Nat.add_0_r, Nat.mod_small; [done|]. by apply ok_pending. }
  cbn [cycles fold_left length]. fold (cycles (Bus.cycle s now_ns) clocks).
  pose proof (ok_pending _ Hok Hd) as Hlt.
  pose proof (cycle_ok s now_ns Hok) as (Hok' & _ & _ & Hlen & Hrun & _ & Hnext).
  destruct (Hnext Hr Hd) as [Hl|[Hd' Hp]].
  - intros Hf. exfalso. revert Hf Hl Hok'. generalize (Bus.cycle s now_ns). clear.
    induction clocks as [|t clocks IH]; intros s Hf Hl Hok; cbn in Hf; [congruence|].
    pose proof (cycle_ok s t Hok) as (Hok' & _ & _ & _ & _ & Hla & _).
    destruct (Hla Hl) as [Hl' _]. by apply (IH (Bus.cycle s t)).
  - intros Hf. rewrite (IH (Bus.cycle s now_ns)); [|done|congruence|done|done].
    rewrite (members_length _ _ Hlen), Hp. rewrite Nat.Div0.add_mod_idemp_l. f_equal. lia.
Qed.

End Facts.
End BusFacts.

(** ** Witnesses *)

Module ServoExamples.

Import Servo Bus Registry ServoFacts RegistryFacts BusFacts SerialTransport SerialPortLink.

Definition serial : SerialPortConfig := mkSerialPort "/dev/ttyUSB0" 1000000 64 64 20 20 1000000.

Definition profile (name : string) (id : Z) : St3215ServoProfile :=
  mkServoProfile name name serial id 1 4095 1000 0 250 "arm" 250 50.

(** A port whose receptions see the answers of [ids], in order; the first reception sees
    nothing, so each answer comes one service period late. *)
Definition position_answer (id : Z) : Bytes := status_packet id 0 [0; 8].

Definition late_world (ids : list Z) : World :=
  mkWorld (replicate 8 (wr_written 64))
    (pl_timeout :: map (fun _ => pl_ready (mkRevents true false false false)
                                   (mkRevents false false false false)) ids)
    (map (fun id => rd_bytes (position_answer id)) ids) [].

Definition outcome : OpenOutcome := mkOpenOutcome None true (Some (1, 2, 3)) true true true.

Definition host : Host := mkHost ∅ 3 false.

(** A registry of the servos [ids] on one such port, started at time 1. *)
Definition arm (ids : list Z) : St3215DeviceRegistry (L := PortLink) :=
  let link := port_link (fun _ => late_world ids) host (fun _ => outcome) in
  let g := (configure (H := link) Z.of_nat Registry.create
              (map (fun id => profile (if id =? 1 then "left" else "right") id) ids)).1 in
  (Registry.start (H := link) true 77 1 g ∅).1.1.

#[local] Existing Instance port_link.
#[local] Instance any_link : SerialLink PortLink :=
  port_link (fun _ => late_world []) host (fun _ => outcome).

Definition bus_of (g : St3215DeviceRegistry (L := PortLink)) : state (L := PortLink) :=
  match rg_buses g with
  | entry :: _ => mkState (be_bus entry) (rg_servos g)
  | [] => mkState (Bus.create (link_create (mkSerialConfig "" 0 0 0 0 0)) 0 0) []
  end.

Definition goal_command : St3215ServoCommand := mkServoCommand 1 1000 pi true false (replicate 6 0).

(** One servo: a command is staged and the first service step sends its goal. *)
Definition one_servo : state (L := PortLink) :=
  bus_of (Registry.stage_command (arm [1]) 0 goal_command 1000).1.

Example one_servo_goal :
  wire (bs_transport (s_bus (Bus.cycle one_servo 2000))) = goal_position_command 1 2048 0 1000.
Proof. by vm_compute. Qed.

(** With two servos and answers one period late, the answer of the first servo is read while
    the second is being served: the third step latches a fault. *)
Example late_answer_latches :
  let s := cycles (bus_of (arm [1; 2])) [2000; 1002000; 2002000] in
  bs_fault_latched (s_bus (cycles (bus_of (arm [1; 2])) [2000; 1002000])) = false /\
  bs_fault_latched (s_bus s) = true /\ Bus.health (s_bus s) = failed.
Proof. by vm_compute. Qed.

#[local] Instance any_laws : SerialLinkLaws PortLink := port_link_laws _ _ _.

Lemma idle_at (l : PortLink) :
  sl_opened (po_serial (pl_port l)) = true -> Ring.ring_ok (sl_tx (po_serial (pl_port l))) ->
  Ring.contents (sl_tx (po_serial (pl_port l))) = [] -> link_idle l.
Proof. intros H1 H2 H3. exact (conj H1 (conj H2 H3)). Qed.

Lemma one_servo_ok : state_ok one_servo.
Proof.
  split.
  - apply idle_at; [done|split; vm_compute; lia || done|done].
  - apply Forall_singleton. eexists. split; [reflexivity|]. vm_compute. by split_and!.
  - done.
Qed.

Lemma bus_transmits_authorised_witness :
  rtc bus_step one_servo (Bus.cycle one_servo 2000) /\
  transmits (Bus.cycle one_servo 2000) (Bus.cycle (Bus.cycle one_servo 2000) 1002000) 1002000.
Proof.
  assert (rtc bus_step one_servo (Bus.cycle one_servo 2000)) as Hrun
    by (eapply rtc_l; [constructor|apply rtc_refl]).
  split; [exact Hrun|].
  exact (proj1 (proj2
    (bus_transmits_authorised one_servo (Bus.cycle one_servo 2000) 1002000 one_servo_ok Hrun))).
Defined.

Definition two_servos : state (L := PortLink) := Bus.cycle (bus_of (arm [1; 2])) 2000.

Lemma two_servos_ok : state_ok two_servos.
Proof.
  apply cycle_ok. split.
  - apply idle_at; [done|split; vm_compute; lia || done|done].
  - repeat constructor; eexists; (split; [reflexivity|]); vm_compute; by split_and!.
  - done.
Qed.

Lemma bus_round_robin_witness :
  bs_fault_latched (s_bus (cycles two_servos [1002000])) = false /\
  bs_pending_index (s_bus (cycles two_servos [1002000])) = 1%nat.
Proof.
  assert (bs_fault_latched (s_bus (cycles two_servos [1002000])) = false) as Hf by by vm_compute.
  split; [exact Hf|].
  exact (bus_round_robin two_servos [1002000] two_servos_ok eq_refl eq_refl Hf).
Defined.

Definition batch : Snapshot St3215ServoCommand :=
  mkSnapshot 1 1000 2 (goal_command :: goal_command :: replicate 30 St3215ServoCommand_zero).

Lemma stage_commands_atomic_witness :
  (stage_commands (arm [1; 2]) batch 2000).2 = accepted /\
  batch_ok (arm [1; 2]) batch 2000.
Proof.
  assert ((stage_commands (arm [1; 2]) batch 2000).2 = accepted) as Ha by by vm_compute.
  split; [exact Ha|].
  assert (length (rg_servos (arm [1; 2]%Z)) <= length (sn_axes batch))%nat as Hl by (vm_compute; lia).
  pose proof (stage_commands_atomic (arm [1; 2]) batch 2000 Hl) as H.
  destruct (stage_commands _ _ _) as [g' a]. exact (proj1 (proj1 H) Ha).
Defined.

Lemma safety_snapshot_sound_witness :
  ss_servo_count (safety_snapshot (arm [1; 2]) 5000) = 2.
Proof.
  assert (length (rg_servos (arm [1; 2]%Z)) <= kMaximumSt3215Servos)%nat as Hl by (vm_compute; lia).
  exact (proj1 (safety_snapshot_sound (arm [1; 2]%Z) 5000 Hl)).
Defined.

Definition stopped_arm : St3215DeviceRegistry (L := PortLink) :=
  (configure Z.of_nat Registry.create [profile "left" 1; profile "right" 2]).1.

Lemma registry_start_all_or_nothing_witness :
  (Registry.start true 77 1 stopped_arm ∅).2 = success tt /\
  (Registry.stop (Registry.start true 77 1 stopped_arm ∅).1.1
     (Registry.start true 77 1 stopped_arm ∅).1.2).2 = ∅.
Proof.
  assert ((Registry.start true 77 1 stopped_arm ∅).2 = success tt) as Hs by by vm_compute.
  split; [exact Hs|].
  assert (Forall idle_bus (rg_buses stopped_arm)) as Hi by (vm_compute; repeat constructor).
  pose proof (registry_start_all_or_nothing true 77 1 stopped_arm ∅ Hi eq_refl) as H.
  destruct (Registry.start _ _ _ _ _) as [[g' m'] r]. cbn [fst snd] in *. rewrite Hs in H.
  destruct H as (_ & _ & H). destruct (Registry.stop g' m') as [g'' m'']. exact (proj1 H).
Defined.

End ServoExamples.
