(* ===== verification/Damiao.v ===== *)
(** * Damiao motors and the virtual CAN adapter

    [devices/damiao/protocol.cpp]: the MIT command frame, the control frames and the
    feedback frame; the directional devices of [sensor.hpp] and [actuator.hpp]; and
    [transport/serial/virtual_can_transport.cpp]: CAN frames over a byte stream.

    [std::lround] of a non-finite value is unspecified; the model takes 0.  It can only
    happen when a limit is so large that the range overflows binary32. *)
From S2P Require Export Scheduler.

(** ** Data *)

Record DamiaoLimits := mkLimits {
  dl_position_max : float;
  dl_velocity_max : float;
  dl_torque_max : float }.

Record DamiaoMitCommand := mkMitCommand {
  dm_position : float;
  dm_velocity : float;
  dm_kp : float;
  dm_kd : float;
  dm_torque : float }.

Record DamiaoFeedback := mkDamiaoFeedback {
  df_motor_id : Z;
  df_error_code : Z;
  df_position : float;
  df_velocity : float;
  df_torque : float;
  df_mos_temperature_c : Z;
  df_rotor_temperature_c : Z }.

Inductive DamiaoControl := enable | disable | zero_position.

Definition control_value (c : DamiaoControl) : Z :=
  match c with enable => 0xFC | disable => 0xFD | zero_position => 0xFE end.

Record DamiaoConfig := mkDamiaoConfig { dc_motor_id : Z; dc_limits : DamiaoLimits }.

(** [devices/device.hpp]; [df_bytes] is the part of the buffer that has been written. *)
Record DeviceFrame := mkDeviceFrame {
  fr_sequence : Z;
  fr_address : Z;
  fr_size : Z;
  fr_bytes : Bytes }.

(** ** [DamiaoProtocol] *)

Module DamiaoProtocol.

Definition clamp_code (value min_value max_value : float) (max_code : Z) : Z :=
  let ratio := fdiv (fsub value min_value) (fsub max_value min_value) in
  let scaled := fmul (clamp ratio fzero fone) (float_of_int max_code) in
  u16 (round_int scaled).

Definition decode_code (code max_code : Z) (min_value max_value : float) : float :=
  fadd min_value
    (fmul (fdiv (float_of_int code) (float_of_int max_code)) (fsub max_value min_value)).

Definition finite_and_in_range (value min_value max_value : float) : bool :=
  isfinite value && (min_value <=? value)%fp && (value <=? max_value)%fp.

Definition positive_limits (limits : DamiaoLimits) : bool :=
  (fzero <? dl_position_max limits)%fp && (fzero <? dl_velocity_max limits)%fp &&
  (fzero <? dl_torque_max limits)%fp.

Definition mit_in_range (command : DamiaoMitCommand) (limits : DamiaoLimits) : bool :=
  positive_limits limits &&
  finite_and_in_range (dm_position command) (SFopp (dl_position_max limits)) (dl_position_max limits) &&
  finite_and_in_range (dm_velocity command) (SFopp (dl_velocity_max limits)) (dl_velocity_max limits) &&
  finite_and_in_range (dm_torque command) (SFopp (dl_torque_max limits)) (dl_torque_max limits) &&
  finite_and_in_range (dm_kp command) fzero (float_of_int 500) &&
  finite_and_in_range (dm_kd command) fzero (float_of_int 5).

Record mit_codes := mkMitCodes { mc_p : Z; mc_v : Z; mc_kp : Z; mc_kd : Z; mc_t : Z }.

Definition codes_of (command : DamiaoMitCommand) (limits : DamiaoLimits) : mit_codes :=
  mkMitCodes
    (clamp_code (dm_position command) (SFopp (dl_position_max limits)) (dl_position_max limits) 0xFFFF)
    (clamp_code (dm_velocity command) (SFopp (dl_velocity_max limits)) (dl_velocity_max limits) 0x0FFF)
    (clamp_code (dm_kp command) fzero (float_of_int 500) 0x0FFF)
    (clamp_code (dm_kd command) fzero (float_of_int 5) 0x0FFF)
    (clamp_code (dm_torque command) (SFopp (dl_torque_max limits)) (dl_torque_max limits) 0x0FFF).

Definition pack (c : mit_codes) : Bytes :=
  [u8 (Z.shiftr (mc_p c) 8);
   u8 (Z.land (mc_p c) 0xFF);
   u8 (Z.shiftr (mc_v c) 4);
   u8 (Z.lor (Z.shiftl (Z.land (mc_v c) 0x0F) 4) (Z.shiftr (mc_kp c) 8));
   u8 (Z.land (mc_kp c) 0xFF);
   u8 (Z.shiftr (mc_kd c) 4);
   u8 (Z.lor (Z.shiftl (Z.land (mc_kd c) 0x0F) 4) (Z.shiftr (mc_t c) 8));
   u8 (Z.land (mc_t c) 0xFF)].

Definition encode_mit (command : DamiaoMitCommand) (limits : DamiaoLimits) : Result Bytes :=
  if negb (mit_in_range command limits)
  then fail invalid_argument "MIT command is outside configured limits"
  else success (pack (codes_of command limits)).

Definition encode_control (control : DamiaoControl) : Bytes :=
  replicate 7 0xFF ++ [control_value control].

Definition decode_feedback (can_id : Z) (frame : Bytes) (length : Z) (limits : DamiaoLimits)
    : Result DamiaoFeedback :=
  if (0x7FF <? can_id) || negb (length =? 8) || negb (positive_limits limits)
  then fail invalid_argument "invalid CAN feedback frame"
  else
    let byte := byte_at frame in
    let position := Z.lor (Z.shiftl (byte 1%nat) 8) (byte 2%nat) in
    let velocity := Z.lor (Z.shiftl (byte 3%nat) 4) (Z.shiftr (byte 4%nat) 4) in
    let torque := Z.lor (Z.shiftl (Z.land (byte 4%nat) 0x0F) 8) (byte 5%nat) in
    success (mkDamiaoFeedback (Z.land (byte 0%nat) 0x0F) (Z.shiftr (byte 0%nat) 4)
      (decode_code position 0xFFFF (SFopp (dl_position_max limits)) (dl_position_max limits))
      (decode_code velocity 0x0FFF (SFopp (dl_velocity_max limits)) (dl_velocity_max limits))
      (decode_code torque 0x0FFF (SFopp (dl_torque_max limits)) (dl_torque_max limits))
      (wrap_signed 8 (byte 6%nat)) (wrap_signed 8 (byte 7%nat))).

(** *** Facts *)

Lemma code_bound value lo hi K mk ek :
  float_of_int K = S754_finite false mk ek -> ek <= 0 -> Z.pos mk = K * 2 ^ (- ek) ->
  0 < K <= 0xFFFF -> 0 <= clamp_code value lo hi K <= K.
Proof.
  intros Hk He Hm HK. unfold clamp_code. rewrite Hk.
  set (ratio := fdiv _ _). set (c := clamp ratio fzero fone).
  assert (0 <= round_int (fmul c (S754_finite false mk ek)) <= K) as Hb.
  { destruct (is_nan ratio) eqn:En.
    - assert (c = S754_nan) as -> by (unfold c; destruct ratio; done). cbn. lia.
    - destruct (clamp_bounds ratio fzero fone En eq_refl) as [H0 H1].
      apply scaled_code_bound; try done; [|lia].
      by apply clamp_fits; [apply fdiv_fits| |]. }
  rewrite wrap_small; [exact Hb|]. unfold is_word. lia.
Qed.

(** The width of every field. *)
Definition codes_ok (c : mit_codes) : Prop :=
  is_word 16 (mc_p c) /\ is_word 12 (mc_v c) /\ is_word 12 (mc_kp c) /\ is_word 12 (mc_kd c) /\
  is_word 12 (mc_t c).

Lemma codes_of_ok command limits : codes_ok (codes_of command limits).
Proof.
  unfold codes_ok, is_word. cbn [mc_p mc_v mc_kp mc_kd mc_t codes_of].
  assert (forall v lo hi, 0 <= clamp_code v lo hi 0xFFFF <= 0xFFFF) as H16
    by (intros; by eapply code_bound).
  assert (forall v lo hi, 0 <= clamp_code v lo hi 0x0FFF <= 0x0FFF) as H12
    by (intros; by eapply code_bound).
  split_and!; first [eapply Z.le_lt_trans; [apply H16|lia] | eapply Z.le_lt_trans; [apply H12|lia]
    | apply H16 | apply H12].
Qed.

(** The receiver's reading of a MIT frame. *)
Definition unpack (frame : Bytes) : mit_codes :=
  let byte := byte_at frame in
  mkMitCodes
    (Z.lor (Z.shiftl (byte 0%nat) 8) (byte 1%nat))
    (Z.lor (Z.shiftl (byte 2%nat) 4) (Z.shiftr (byte 3%nat) 4))
    (Z.lor (Z.shiftl (Z.land (byte 3%nat) 0x0F) 8) (byte 4%nat))
    (Z.lor (Z.shiftl (byte 5%nat) 4) (Z.shiftr (byte 6%nat) 4))
    (Z.lor (Z.shiftl (Z.land (byte 6%nat) 0x0F) 8) (byte 7%nat)).

(** Shifts and masks as divisions. *)
Lemma land_mask z n : 0 <= n -> Z.land z (Z.ones n) = z mod 2 ^ n.
Proof. apply Z.land_ones. Qed.

Lemma high_low_byte z : 0 <= z < 2 ^ 16 ->
  Z.lor (Z.shiftl (u8 (Z.shiftr z 8)) 8) (u8 (Z.land z 0xFF)) = z.
Proof.
  intros Hz. change 0xFF with (Z.ones 8). rewrite land_mask, Z.shiftr_div_pow2 by lia.
  rewrite wrap_small by (unfold is_word; split; [apply Z.div_pos; lia|apply Z.div_lt_upper_bound; lia]).
  rewrite wrap_idemp || idtac. unfold wrap. rewrite Z.mod_mod by lia.
  rewrite lor_shiftl_add_l; [|lia|apply Z.mod_pos_bound; lia].
  pose proof (Z.div_mod z (2 ^ 8) ltac:(lia)). lia.
Qed.

(** Two 12-bit codes share three bytes: eight bits, four and four, eight. *)
Lemma shared_byte a b :
  is_word 12 a -> is_word 12 b ->
  u8 (Z.lor (Z.shiftl (Z.land a 0x0F) 4) (Z.shiftr b 8)) = (a mod 16) * 16 + b / 256.
Proof.
  unfold is_word. intros Ha Hb. change 0x0F with (Z.ones 4).
  rewrite land_mask, Z.shiftr_div_pow2 by lia.
  assert (0 <= b / 2 ^ 8 < 2 ^ 4) as Hd
    by (split; [apply Z.div_pos; lia|apply Z.div_lt_upper_bound; lia]).
  rewrite lor_shiftl_add_l by (lia || exact Hd).
  change (2 ^ 8) with 256 in *. change (2 ^ 4) with 16 in *.
  pose proof (Z.mod_pos_bound a 16 ltac:(lia)). apply wrap_small. unfold is_word. lia.
Qed.

Lemma unpack_pack c : codes_ok c -> unpack (pack c) = c.
Proof.
  destruct c as [p v kp kd t]. unfold codes_ok. cbn [mc_p mc_v mc_kp mc_kd mc_t].
  intros (Hp & Hv & Hkp & Hkd & Ht). unfold unpack, pack.
  cbn [byte_at lookup list_lookup default mc_p mc_v mc_kp mc_kd mc_t]. unfold byte_at.
  cbn [lookup list_lookup default]. unfold id. rewrite high_low_byte by exact Hp.
  rewrite !shared_byte by assumption. change 0x0F with (Z.ones 4). change 0xFF with (Z.ones 8).
  rewrite !land_mask, !Z.shiftr_div_pow2 by lia. unfold is_word in *.
  assert (forall z, 0 <= z < 2 ^ 12 -> u8 (z / 2 ^ 4) = z / 16) as Hhigh.
  { intros z Hz. apply wrap_small. unfold is_word.
    split; [apply Z.div_pos; lia|apply Z.div_lt_upper_bound; lia]. }
  assert (forall a, u8 (a mod 2 ^ 8) = a mod 256) as Hlow
    by (intros a; unfold wrap; by rewrite Z.mod_mod).
  rewrite !Hhigh, !Hlow by assumption.
  assert (forall a b, 0 <= b < 2 ^ 12 -> (a mod 16 * 16 + b / 256) / 2 ^ 4 = a mod 16 /\
    (a mod 16 * 16 + b / 256) mod 2 ^ 4 = b / 256) as Hsh.
  { intros a b Hb. assert (0 <= b / 256 < 16)
      by (split; [apply Z.div_pos; lia|apply Z.div_lt_upper_bound; lia]).
    change (2 ^ 4) with 16. split; symmetry.
    - apply (Z.div_unique _ 16 _ (b / 256)); lia.
    - apply (Z.mod_unique _ 16 (a mod 16)); lia. }
  destruct (Hsh v kp Hkp) as [-> ->], (Hsh kd t Ht) as [-> ->].
  rewrite !lor_shiftl_add_l; try lia; try (apply Z.mod_pos_bound; lia).
  pose proof (Z.div_mod v 16 ltac:(lia)). pose proof (Z.div_mod kp 256 ltac:(lia)).
  pose proof (Z.div_mod kd 16 ltac:(lia)). pose proof (Z.div_mod t 256 ltac:(lia)).
  f_equal; lia.
Qed.

Lemma pack_bytes c : length (pack c) = 8%nat /\ Forall is_byte (pack c).
Proof. split; [done|]. unfold pack. repeat constructor; try apply wrap_range; lia. Qed.

(** A command inside its limits becomes an 8-byte frame from which a receiver reads back
    exactly the five codes, each within the width of its field; a command outside them, a NaN
    or an infinity included, is refused. *)
Theorem mit_frame_exact command limits :
  match encode_mit command limits with
  | success frame =>
      mit_in_range command limits = true /\ length frame = 8%nat /\ Forall is_byte frame /\
      unpack frame = codes_of command limits /\ codes_ok (codes_of command limits)
  | failure e => mit_in_range command limits = false /\ code e = invalid_argument
  end.
Proof.
  unfold encode_mit. destruct (mit_in_range command limits); cbn [negb]; [|done].
  pose proof (codes_of_ok command limits) as Hc. destruct (pack_bytes (codes_of command limits)).
  split_and!; try done. by apply unpack_pack.
Qed.

(** The frames of commands and the control frames are not disjoint: a command is encoded
    as a control frame exactly when position, velocity and both gains are at their largest
    codes and the torque code is 0xF00 plus the control byte. *)
Theorem mit_frame_is_control_frame command limits control :
  encode_mit command limits = success (encode_control control) <->
  mit_in_range command limits = true /\
  codes_of command limits = mkMitCodes 0xFFFF 0xFFF 0xFFF 0xFFF (0xF00 + control_value control).
Proof.
  unfold encode_mit. destruct (mit_in_range command limits); cbn [negb]; [|by split; [|intros []]].
  pose proof (codes_of_ok command limits) as Hc. split.
  - intros Hf. split; [done|].
    pose proof (f_equal (fun r => match r with success b => b | failure _ => [] end) Hf) as Hp.
    cbn beta iota in Hp.
    rewrite <- (unpack_pack _ Hc), Hp. by destruct control.
  - intros [_ ->]. by destruct control.
Qed.

(** The feedback frame a motor sends for a state given by codes. *)
Definition feedback_frame (motor_id error_code position velocity torque mos rotor : Z) : Bytes :=
  [motor_id + error_code * 16; position / 256; position mod 256; velocity / 16;
   velocity mod 16 * 16 + torque / 256; torque mod 256; u8 mos; u8 rotor].

(** Every field of a feedback frame is decoded from its own bits: the identifiers and
    temperatures exactly, the three quantities as the decoding of their own code. *)
Theorem decode_feedback_fields can_id limits motor_id error_code position velocity torque mos rotor :
  0 <= can_id <= 0x7FF -> positive_limits limits = true ->
  is_word 4 motor_id -> is_word 4 error_code -> is_word 16 position -> is_word 12 velocity ->
  is_word 12 torque -> int8_min <= mos <= int8_max -> int8_min <= rotor <= int8_max ->
  decode_feedback can_id
    (feedback_frame motor_id error_code position velocity torque mos rotor) 8 limits =
  success (mkDamiaoFeedback motor_id error_code
    (decode_code position 0xFFFF (SFopp (dl_position_max limits)) (dl_position_max limits))
    (decode_code velocity 0x0FFF (SFopp (dl_velocity_max limits)) (dl_velocity_max limits))
    (decode_code torque 0x0FFF (SFopp (dl_torque_max limits)) (dl_torque_max limits)) mos rotor).
Proof.
  intros Hc Hl Hm He Hp Hv Ht Hmos Hrotor. unfold decode_feedback.
  rewrite (proj2 (Z.ltb_ge _ _)) by lia. rewrite Hl. cbn [negb orb Z.eqb Pos.eqb].
  unfold feedback_frame, byte_at. cbn [lookup list_lookup default]. unfold id, is_word in *.
  change 0x0F with (Z.ones 4). rewrite !land_mask, !Z.shiftr_div_pow2 by lia.
  change (2 ^ 4) with 16 in *. change (2 ^ 8) with 256 in *.
  unfold int8_min, int8_max in *. rewrite !wrap_signed_wrap by (cbn; lia).
  assert (forall z m, 0 < m -> 0 <= z mod m < m) as Hmod by (intros; by apply Z.mod_pos_bound).
  assert ((motor_id + error_code * 16) mod 16 = motor_id) as ->
    by (symmetry; apply (Z.mod_unique _ 16 error_code); lia).
  assert ((motor_id + error_code * 16) / 16 = error_code) as ->
    by (symmetry; apply (Z.div_unique _ 16 _ motor_id); lia).
  assert (0 <= torque / 256 < 16)
    by (split; [apply Z.div_pos; lia|apply Z.div_lt_upper_bound; lia]).
  assert ((velocity mod 16 * 16 + torque / 256) / 16 = velocity mod 16) as ->
    by (symmetry; apply (Z.div_unique _ 16 _ (torque / 256)); lia).
  assert ((velocity mod 16 * 16 + torque / 256) mod 16 = torque / 256) as ->
    by (symmetry; apply (Z.mod_unique _ 16 (velocity mod 16)); lia).
  rewrite !lor_shiftl_add_l by first [lia | apply Hmod; lia].
  replace (position / 256 * 2 ^ 8 + position mod 256) with position
    by (pose proof (Z.div_mod position 256 ltac:(lia)); lia).
  replace (velocity / 16 * 2 ^ 4 + velocity mod 16) with velocity
    by (pose proof (Z.div_mod velocity 16 ltac:(lia)); lia).
  replace (torque / 256 * 2 ^ 8 + torque mod 256) with torque
    by (pose proof (Z.div_mod torque 256 ltac:(lia)); lia).
  done.
Qed.

(** The limits of a DM4310 motor, and a command at the edge of them that a motor takes for
    "set the zero position here". *)
Definition dm4310 : DamiaoLimits :=
  mkLimits (S754_finite false 13107200 (-20)) (float_of_int 30) (float_of_int 10).

Definition edge_command : DamiaoMitCommand :=
  mkMitCommand (S754_finite false 13107200 (-20)) (float_of_int 30) (float_of_int 500)
    (float_of_int 5) (decode_code 0xFFE 0xFFF (SFopp (float_of_int 10)) (float_of_int 10)).

Lemma edge_command_zeroes : encode_mit edge_command dm4310 = success (encode_control zero_position).
Proof. by vm_compute. Qed.

Lemma decode_feedback_fields_witness :
  decode_feedback 0x11 (feedback_frame 1 1 32768 2048 2047 30 (-5)) 8 dm4310 =
  success (mkDamiaoFeedback 1 1
    (decode_code 32768 0xFFFF (SFopp (dl_position_max dm4310)) (dl_position_max dm4310))
    (decode_code 2048 0x0FFF (SFopp (dl_velocity_max dm4310)) (dl_velocity_max dm4310))
    (decode_code 2047 0x0FFF (SFopp (dl_torque_max dm4310)) (dl_torque_max dm4310)) 30 (-5)).
Proof. apply decode_feedback_fields; try (unfold is_word, int8_min, int8_max; lia). reflexivity. Defined.

End DamiaoProtocol.

(** ** The directional devices *)

Module DamiaoDevice.

Import DamiaoProtocol.

Definition accepts (config : DamiaoConfig) (frame : DeviceFrame) : bool :=
  (fr_address frame =? dc_motor_id config) && (fr_size frame =? 8).

Definition decode (config : DamiaoConfig) (frame : DeviceFrame) : Result DamiaoFeedback :=
  if negb (accepts config frame) then fail protocol "Damiao sensor frame does not match motor"
  else decode_feedback (fr_address frame) (fr_bytes frame) (fr_size frame) (dc_limits config).

Record DamiaoActuator := mkActuator {
  da_config : DamiaoConfig;
  da_command : DamiaoMitCommand;
  da_enabled : bool;
  da_zero_requested : bool }.

Definition create (config : DamiaoConfig) : DamiaoActuator :=
  mkActuator config (mkMitCommand fzero fzero fzero fzero fzero) false false.

Definition set_enabled (a : DamiaoActuator) (enabled : bool) : DamiaoActuator :=
  mkActuator (da_config a) (da_command a) enabled (da_zero_requested a).
Definition set_zero_position (a : DamiaoActuator) (requested : bool) : DamiaoActuator :=
  mkActuator (da_config a) (da_command a) (da_enabled a) requested.
Definition set_command (a : DamiaoActuator) (command : DamiaoMitCommand) : DamiaoActuator :=
  mkActuator (da_config a) command (da_enabled a) (da_zero_requested a).

Definition device_frame (config : DamiaoConfig) (payload : Bytes) : DeviceFrame :=
  mkDeviceFrame 0 (dc_motor_id config) 8 payload.

Definition encode_frame (a : DamiaoActuator) : Result DeviceFrame :=
  if da_zero_requested a then success (device_frame (da_config a) (encode_control zero_position))
  else if negb (da_enabled a) then success (device_frame (da_config a) (encode_control disable))
  else
    match encode_mit (da_command a) (dc_limits (da_config a)) with
    | failure e => failure e
    | success encoded => success (device_frame (da_config a) encoded)
    end.

Definition encode_enable (a : DamiaoActuator) : Result DeviceFrame :=
  success (device_frame (da_config a) (encode_control enable)).

End DamiaoDevice.

(** ** [VirtualCanTransport] *)

Module VirtualCan.

Record CanFrame := mkCanFrame { cf_id : Z; cf_data : Bytes; cf_dlc : nat }.

Definition kHeader : Z := 0xAA.
Definition kHeaderSize : nat := 6.
Definition kEncodedFrameSize : nat := 7 + 8.

Definition checksum (bytes : Bytes) : Z := Z.land (sum bytes) 0xFF.

(** The bytes [send_frame] writes. *)
Definition encode (frame : CanFrame) : Bytes :=
  let body :=
    [kHeader] ++ map (fun i => Z.land (Z.shiftr (cf_id frame) (8 * Z.of_nat i)) 0xFF) (seq 0 4) ++
    [Z.of_nat (cf_dlc frame)] ++ take (cf_dlc frame) (cf_data frame) in
  body ++ [checksum body].

(** [send_frame]; [written] is what [write] returns, [None] for an error. *)
Definition send_frame (valid_fd : bool) (frame : CanFrame) (written : option nat) : Result unit :=
  if negb valid_fd || (0x1FFFFFFF <? cf_id frame) || (8 <? cf_dlc frame)%nat
  then fail invalid_argument "invalid CAN frame"
  else
    match written with
    | None => fail io "virtual CAN write"
    | Some n =>
        if negb (Nat.eqb n (length (encode frame))) then fail io "virtual CAN short write"
        else success tt
    end.

Definition parse_one (buffer : Bytes) (dlc : nat) : CanFrame :=
  mkCanFrame
    (fold_left Z.lor (map (fun i => Z.shiftl (byte_at buffer (1 + i)) (8 * Z.of_nat i)) (seq 0 4)) 0)
    (take dlc (drop kHeaderSize buffer) ++ replicate (8 - dlc) 0) dlc.

(** The parsing loop on the bytes not consumed yet; every turn consumes at least seven
    bytes, so the length of the buffer is enough fuel.  Only the first frame is kept. *)
Fixpoint parse (fuel : nat) (buffer : Bytes) (frame : option CanFrame)
    : Result (Bytes * option CanFrame) :=
  if (length buffer <? kHeaderSize + 1)%nat then success (buffer, frame)
  else
    match fuel with
    | O => success (buffer, frame)
    | S fuel =>
        let dlc := Z.to_nat (byte_at buffer 5) in
        if negb (byte_at buffer 0 =? kHeader) || (8 <? dlc)%nat
        then fail protocol "malformed virtual CAN frame"
        else
          let size := (kHeaderSize + dlc + 1)%nat in
          if (length buffer <? size)%nat then success (buffer, frame)
          else if negb (checksum (take (size - 1) buffer) =? byte_at buffer (size - 1))
          then fail protocol "virtual CAN checksum mismatch"
          else
            parse fuel (drop size buffer)
              (match frame with Some _ => frame | None => Some (parse_one buffer dlc) end)
    end.

(** [receive_frame] on the retained bytes; [received] is what [read] returns, at most the
    room left. *)
Definition receive_frame (valid_fd : bool) (buffer : Bytes) (received : option Bytes)
    : Bytes * Result (option CanFrame) :=
  if negb valid_fd then (buffer, fail invalid_argument "invalid virtual CAN descriptor")
  else if Nat.eqb (length buffer) kEncodedFrameSize
  then (buffer, fail protocol "virtual CAN frame overflow")
  else
    match received with
    | None => (buffer, fail io "virtual CAN read")
    | Some bytes =>
        let buffer := buffer ++ take (kEncodedFrameSize - length buffer) bytes in
        match parse (length buffer) buffer None with
        | failure e => (buffer, failure e)
        | success (rest, frame) => (rest, success frame)
        end
    end.

(** *** Facts *)

Definition can_frame_ok (f : CanFrame) : Prop :=
  0 <= cf_id f <= 0x1FFFFFFF /\ (cf_dlc f <= 8)%nat /\ Forall is_byte (cf_data f) /\
  length (cf_data f) = 8%nat /\ drop (cf_dlc f) (cf_data f) = replicate (8 - cf_dlc f) 0.

Definition body (f : CanFrame) : Bytes :=
  kHeader :: le_encode 4 (cf_id f) ++ Z.of_nat (cf_dlc f) :: take (cf_dlc f) (cf_data f).

Lemma encode_body f : encode f = body f ++ [checksum (body f)].
Proof.
  unfold encode.
  assert (map (fun i => Z.land (Z.shiftr (cf_id f) (8 * Z.of_nat i)) 0xFF) (seq 0 4) =
    le_encode 4 (cf_id f)) as ->; [|done].
  cbn [seq map le_encode]. rewrite !Z.shiftr_shiftr by lia. change 0xFF with (Z.ones 8).
  rewrite !Z.land_ones by lia. rewrite Z.shiftr_0_r. done.
Qed.

Lemma length_body f : can_frame_ok f -> length (body f) = (6 + cf_dlc f)%nat.
Proof.
  intros (_ & Hd & _ & Hl & _). unfold body. cbn [length].
  rewrite length_app, length_le_encode. cbn [length]. rewrite length_take. lia.
Qed.

Lemma length_encode f : can_frame_ok f -> length (encode f) = (7 + cf_dlc f)%nat.
Proof. intros Hf. rewrite encode_body, length_app, length_body by done. cbn. lia. Qed.

Lemma byte_at_prefix (p rest : Bytes) i : (i < length p)%nat -> byte_at p i = byte_at (p ++ rest) i.
Proof. intros Hi. unfold byte_at. by rewrite lookup_app_l. Qed.

(** The two bytes the parser looks at first. *)
Lemma encode_head f :
  byte_at (encode f) 0 = kHeader /\ byte_at (encode f) 5 = Z.of_nat (cf_dlc f).
Proof. rewrite encode_body. by split. Qed.

Lemma parse_prefix fuel p rest f :
  can_frame_ok f -> p ++ rest = encode f -> rest <> [] -> parse fuel p None = success (p, None).
Proof.
  intros Hf Hp Hr. destruct fuel as [|fuel]; cbn [parse];
    (destruct (length p <? kHeaderSize + 1)%nat eqn:El; [done|]); [done|].
  apply Nat.ltb_ge in El. unfold kHeaderSize in *.
  destruct (encode_head f) as [H0 H5]. rewrite <- Hp in H0, H5.
  rewrite <- byte_at_prefix in H0, H5 by lia. rewrite H0, H5, Z.eqb_refl, Nat2Z.id. cbn [negb orb].
  pose proof (length_encode f Hf) as Hlen. rewrite <- Hp, length_app in Hlen.
  destruct Hf as (_ & Hd & _). rewrite (proj2 (Nat.ltb_ge _ _)) by lia.
  rewrite (proj2 (Nat.ltb_lt (length p) _)); [done|].
  destruct rest; [done|]. cbn in Hlen. lia.
Qed.

Lemma le_decode_lors a b c d :
  fold_left Z.lor
    [Z.shiftl a (8 * Z.of_nat 0); Z.shiftl b (8 * Z.of_nat 1); Z.shiftl c (8 * Z.of_nat 2);
     Z.shiftl d (8 * Z.of_nat 3)] 0 =
  le_decode [a; b; c; d].
Proof.
  cbn [fold_left le_decode]. rewrite !Z.shiftl_lor, !Z.shiftl_shiftl by lia.
  rewrite Z.shiftl_0_l, Z.lor_0_r, Z.lor_0_l, Z.shiftl_0_r, !Z.lor_assoc. done.
Qed.

Lemma parse_one_encode f : can_frame_ok f -> parse_one (encode f) (cf_dlc f) = f.
Proof.
  intros (Hid & Hd & Hb & Hl & Hz). destruct f as [id data dlc]. cbn [cf_id cf_data cf_dlc] in *.
  unfold parse_one. rewrite encode_body. unfold body. cbn [cf_id cf_data cf_dlc].
  pose proof (le_decode_encode 4 id) as Hle. cbn [le_encode] in *.
  f_equal.
  - cbn [seq map]. unfold byte_at. cbn [Nat.add app lookup list_lookup default]. unfold Datatypes.id.
    rewrite le_decode_lors, Hle. apply wrap_small. unfold is_word. cbn. lia.
  - unfold kHeaderSize. cbn [le_encode app drop]. rewrite drop_0, take_app_le by (rewrite length_take; lia).
    rewrite firstn_firstn, Nat.min_id. rewrite <- Hz. apply take_drop.
Qed.

Lemma parse_complete fuel f :
  can_frame_ok f -> parse (S fuel) (encode f) None = success ([], Some f).
Proof.
  intros Hf. pose proof (length_encode f Hf) as Hlen. cbn [parse].
  rewrite Hlen. unfold kHeaderSize. rewrite (proj2 (Nat.ltb_ge _ _)) by lia.
  destruct (encode_head f) as [-> ->]. rewrite Z.eqb_refl, Nat2Z.id. cbn [negb orb].
  pose proof Hf as (_ & Hd & _). rewrite (proj2 (Nat.ltb_ge _ _)) by lia.
  rewrite (proj2 (Nat.ltb_ge _ _)) by lia.
  assert (checksum (take (6 + cf_dlc f + 1 - 1) (encode f)) = byte_at (encode f) (6 + cf_dlc f + 1 - 1))
    as ->.
  { rewrite encode_body. replace (6 + cf_dlc f + 1 - 1)%nat with (length (body f))
      by (rewrite length_body by done; lia).
    rewrite take_app_length. unfold byte_at. by rewrite list_lookup_middle. }
  rewrite Z.eqb_refl, parse_one_encode by done. cbn [negb].
  rewrite drop_ge by lia. by destruct fuel.
Qed.

(** A CAN frame sent through the adapter is received as it was, however the serial line
    cuts it into reads: a read that completes it returns exactly the frame and leaves nothing
    behind, and every read before that returns nothing and keeps the bytes. *)
Theorem virtual_can_roundtrip f buffer bytes rest :
  can_frame_ok f -> buffer ++ bytes ++ rest = encode f -> bytes ++ rest <> [] ->
  receive_frame true buffer (Some bytes) =
    if Nat.eqb (length rest) 0 then ([], success (Some f)) else (buffer ++ bytes, success None).
Proof.
  intros Hf Hs Hne. unfold receive_frame. cbn [negb].
  pose proof (length_encode f Hf) as Hlen. pose proof Hf as (_ & Hd & _).
  rewrite <- Hs, !length_app in Hlen.
  assert (1 <= length (bytes ++ rest))%nat as H1 by (destruct (bytes ++ rest); [done|cbn; lia]).
  rewrite length_app in H1. unfold kEncodedFrameSize.
  rewrite (proj2 (Nat.eqb_neq _ _)) by lia. rewrite take_ge by lia.
  destruct rest as [|x rest]; cbn [length Nat.eqb].
  - rewrite app_nil_r in Hs. rewrite Hs.
    destruct (length (encode f)) as [|n] eqn:En; [rewrite length_encode in En by done; lia|].
    by rewrite parse_complete.
  - rewrite (parse_prefix _ (buffer ++ bytes) (x :: rest) f); [done|done| |done].
    by rewrite <- (assoc_L (++)).
Qed.

Fixpoint receive_all (buffer : Bytes) (reads : list (option Bytes))
    : list (Result (option CanFrame)) :=
  match reads with
  | [] => []
  | received :: reads =>
      let '(buffer, r) := receive_frame true buffer received in r :: receive_all buffer reads
  end.

(** The adapter does not resynchronise: once seven bytes are buffered that do not start
    with the header byte, every later reception fails, whatever arrives. *)
Theorem virtual_can_stuck buffer reads :
  (7 <= length buffer)%nat -> byte_at buffer 0 <> kHeader ->
  Forall (fun r => has_value r = false) (receive_all buffer reads).
Proof.
  revert buffer. induction reads as [|received reads IH]; intros buffer Hl Hb; [constructor|].
  cbn [receive_all]. unfold receive_frame. cbn [negb].
  destruct (Nat.eqb _ _); [by constructor; [|apply IH]|].
  destruct received as [bytes|]; [|by constructor; [|apply IH]].
  set (more := take _ bytes).
  assert (7 <= length (buffer ++ more))%nat as Hl' by (rewrite length_app; lia).
  assert (byte_at (buffer ++ more) 0 <> kHeader) as Hb' by (rewrite <- byte_at_prefix by lia; done).
  assert (parse (length (buffer ++ more)) (buffer ++ more) None =
    fail protocol "malformed virtual CAN frame") as ->.
  { destruct (length (buffer ++ more)) as [|n] eqn:En; [lia|]. cbn [parse].
    rewrite En. unfold kHeaderSize. rewrite (proj2 (Nat.ltb_ge _ _)) by lia.
    by rewrite (proj2 (Z.eqb_neq _ _)) by done. }
  constructor; [done|]. by apply IH.
Qed.

Definition ping : CanFrame := mkCanFrame 0x123 (replicate 8 0) 0.
Definition pong : CanFrame := mkCanFrame 0x124 (replicate 8 0) 0.

(** Two short frames in one read: the second is consumed and lost. *)
Lemma second_frame_lost :
  receive_frame true [] (Some (encode ping ++ encode pong)) = ([], success (Some ping)).
Proof. by vm_compute. Qed.

Lemma virtual_can_roundtrip_witness :
  receive_frame true (take 3 (encode ping)) (Some (drop 3 (encode ping))) =
    ([], success (Some ping)).
Proof.
  assert (can_frame_ok ping) as Hp
    by (split_and!; try done; try (vm_compute; congruence); cbn; try lia; repeat constructor; done).
  exact (virtual_can_roundtrip ping (take 3 (encode ping)) (drop 3 (encode ping)) [] Hp eq_refl
    ltac:(discriminate)).
Defined.

Lemma virtual_can_stuck_witness :
  Forall (fun r => has_value r = false) (receive_all (replicate 7 0) [Some (encode ping)]).
Proof. apply virtual_can_stuck; [vm_compute; lia|discriminate]. Defined.

End VirtualCan.
