(* ===== verification/RtLoop.v ===== *)
(** * The real-time loop

    [robot_io/daemon/realtime_loop.cpp]: absolute-deadline scheduling with skipped releases
    ([RealtimeLoop]) and the preparation of the calling thread ([LinuxRealtimeSystem]).

    Clock readings, the results of the absolute sleep and those of the system calls are
    arguments, in the order of the calls.  [sched_get_priority_min/max(SCHED_FIFO)] are 1
    and 99 on Linux. *)
From S2P Require Export Messages.

Definition kNanosecondsPerSecond : Z := 1000000000.
Definition sched_fifo_min : Z := 1.
Definition sched_fifo_max : Z := 99.
Definition CPU_SETSIZE : Z := 1024.

(** ** Helpers *)

(** Seconds and nanoseconds of an absolute time. *)
Definition to_timespec (absolute_ns : Z) : Z * Z :=
  let absolute_ns := if absolute_ns <? 0 then 0 else absolute_ns in
  (Z.quot absolute_ns kNanosecondsPerSecond, Z.rem absolute_ns kNanosecondsPerSecond).

Definition now_ns (clock_gettime : option (Z * Z)) : Z :=
  match clock_gettime with
  | None => 0
  | Some (tv_sec, tv_nsec) => tv_sec * kNanosecondsPerSecond + tv_nsec
  end.

Definition contains (pattern text : string) : bool :=
  match String.index 0 pattern text with Some _ => true | None => false end.

Definition contains_preempt_rt (text : string) : bool :=
  contains "PREEMPT_RT" text || contains "PREEMPT RT" text.

Definition saturating_add (value increment : Z) : Z :=
  if (0 <? increment) && (int64_max - increment <? value) then int64_max else value + increment.

(** The compare-and-swap loop of [update_maximum], which nothing races with here. *)
Definition update_maximum (maximum value : Z) : Z := if maximum <? value then value else maximum.

(** ** [LinuxRealtimeSystem] *)

Module RealtimeSystem.

(** What the calling thread and the process have. *)
Record thread := mkThread {
  th_affinity : gset Z;
  th_policy : Z;
  th_priority : Z;
  th_memory_locked : bool }.

Definition SCHED_FIFO : Z := 1.

Record LinuxRealtimeSystem := mkSystem {
  ls_original_affinity : gset Z;
  ls_original_sched_policy : Z;
  ls_original_sched_parameter : Z;
  ls_thread_state_captured : bool;
  ls_memory_locked : bool }.

Definition initial : LinuxRealtimeSystem := mkSystem ∅ 0 0 false false.

(** [sys_kernel_realtime]: the first byte read from [/sys/kernel/realtime], if any;
    [uname]: the release and version strings. *)
Definition preempt_rt_kernel (sys_kernel_realtime : option Ascii.ascii)
    (uname : option (string * string)) : bool :=
  match sys_kernel_realtime with
  | Some c => Ascii.eqb c (Ascii.ascii_of_N 49) (* '1' *)
  | None =>
      match uname with
      | Some (release, version) => contains_preempt_rt release || contains_preempt_rt version
      | None => false
      end
  end.

Definition capture_current_thread_state (affinity_ok param_ok : bool) (s : LinuxRealtimeSystem)
    (t : thread) : LinuxRealtimeSystem * bool :=
  if ls_thread_state_captured s then (s, false)
  else if negb affinity_ok then (s, false)
  else
    let s := mkSystem (th_affinity t) (ls_original_sched_policy s) (ls_original_sched_parameter s)
               false (ls_memory_locked s) in
    if negb param_ok then (s, false)
    else (mkSystem (ls_original_affinity s) (th_policy t) (th_priority t) true (ls_memory_locked s), true).

Definition lock_process_memory (ok : bool) (s : LinuxRealtimeSystem) (t : thread)
    : LinuxRealtimeSystem * thread * bool :=
  (mkSystem (ls_original_affinity s) (ls_original_sched_policy s) (ls_original_sched_parameter s)
     (ls_thread_state_captured s) ok,
   if ok then mkThread (th_affinity t) (th_policy t) (th_priority t) true else t, ok).

Definition pin_current_thread (ok : bool) (cpu : Z) (t : thread) : thread * bool :=
  if (cpu <? 0) || (CPU_SETSIZE <=? cpu) then (t, false)
  else if ok then (mkThread {[cpu]} (th_policy t) (th_priority t) (th_memory_locked t), true)
  else (t, false).

Definition set_current_thread_fifo (ok : bool) (priority : Z) (t : thread) : thread * bool :=
  if (priority <? sched_fifo_min) || (sched_fifo_max <? priority) then (t, false)
  else if ok then (mkThread (th_affinity t) SCHED_FIFO priority (th_memory_locked t), true)
  else (t, false).

(** The two calls that restore the thread; their results are ignored. *)
Definition restore_current_thread_state (param_ok affinity_ok : bool) (s : LinuxRealtimeSystem)
    (t : thread) : LinuxRealtimeSystem * thread :=
  if negb (ls_thread_state_captured s) then (s, t)
  else
    let t :=
      if param_ok
      then mkThread (th_affinity t) (ls_original_sched_policy s) (ls_original_sched_parameter s)
             (th_memory_locked t)
      else t in
    let t :=
      if affinity_ok
      then mkThread (ls_original_affinity s) (th_policy t) (th_priority t) (th_memory_locked t)
      else t in
    (mkSystem (ls_original_affinity s) (ls_original_sched_policy s) (ls_original_sched_parameter s)
       false (ls_memory_locked s), t).

(** [munlockall] cannot fail for a process that locked its memory. *)
Definition unlock_process_memory (s : LinuxRealtimeSystem) (t : thread)
    : LinuxRealtimeSystem * thread :=
  if ls_memory_locked s then
    (mkSystem (ls_original_affinity s) (ls_original_sched_policy s) (ls_original_sched_parameter s)
       (ls_thread_state_captured s) false,
     mkThread (th_affinity t) (th_policy t) (th_priority t) false)
  else (s, t).

End RealtimeSystem.

(** ** [RealtimeLoop] *)

Module RealtimeLoop.

Import RealtimeSystem.

Record RealtimeLoopConfig := mkLoopConfig { lc_period_ns : Z; lc_cpu : Z; lc_priority : Z }.

Record RealtimeSetupStatus := mkSetupStatus {
  rs_thread_state_captured : bool;
  rs_preempt_rt : bool;
  rs_memory_locked : bool;
  rs_affinity_set : bool;
  rs_sched_fifo : bool;
  rs_realtime_guarantee : bool }.

Record RealtimeLoopMetrics := mkMetrics {
  rm_cycle_count : Z;
  rm_deadline_misses : Z;
  rm_skipped_releases : Z;
  rm_sleep_failures : Z;
  rm_actual_period_ns : Z;
  rm_wake_latency_ns : Z;
  rm_maximum_wake_latency_ns : Z;
  rm_execution_time_ns : Z;
  rm_maximum_execution_time_ns : Z }.

Definition metrics_zero : RealtimeLoopMetrics := mkMetrics 0 0 0 0 0 0 0 0 0.

Record CycleContext := mkContext {
  cx_sequence : Z;
  cx_scheduled_start_ns : Z;
  cx_period_ns : Z }.

Record loop := mkLoop {
  rl_config : RealtimeLoopConfig;
  rl_metrics : RealtimeLoopMetrics;
  rl_next_deadline_ns : Z;
  rl_previous_start_ns : Z;
  rl_current_start_ns : Z;
  rl_schedule_started : bool;
  rl_setup_active : bool;
  rl_captured_thread_state : bool;
  rl_locked_memory : bool }.

Definition create (config : RealtimeLoopConfig) : loop :=
  mkLoop config metrics_zero 0 0 0 false false false false.

Definition validate_config (l : loop) : Result unit :=
  let c := rl_config l in
  if (lc_period_ns c <=? 0) || (lc_cpu c <? 0) || (lc_priority c <? sched_fifo_min) ||
     (sched_fifo_max <? lc_priority c)
  then fail invalid_argument "invalid real-time loop configuration"
  else success tt.

Definition reset_schedule (l : loop) : loop :=
  mkLoop (rl_config l) metrics_zero 0 0 0 false (rl_setup_active l) (rl_captured_thread_state l)
    (rl_locked_memory l).

Definition with_setup (l : loop) (active captured locked : bool) : loop :=
  mkLoop (rl_config l) (rl_metrics l) (rl_next_deadline_ns l) (rl_previous_start_ns l)
    (rl_current_start_ns l) (rl_schedule_started l) active captured locked.

(** The answers of the system calls of [prepare] and [release]. *)
Record Outcomes := mkOutcomes {
  oc_get_affinity : bool;
  oc_get_param : bool;
  oc_sys_kernel_realtime : option Ascii.ascii;
  oc_uname : option (string * string);
  oc_lock_memory : bool;
  oc_set_affinity : bool;
  oc_set_fifo : bool;
  oc_restore_param : bool;
  oc_restore_affinity : bool }.

Definition release (o : Outcomes) (l : loop) (s : LinuxRealtimeSystem) (t : thread)
    : loop * LinuxRealtimeSystem * thread :=
  let '(s, t) :=
    if rl_captured_thread_state l
    then restore_current_thread_state (oc_restore_param o) (oc_restore_affinity o) s t
    else (s, t) in
  let '(s, t) := if rl_locked_memory l then unlock_process_memory s t else (s, t) in
  (with_setup l false false false, s, t).

Definition prepare (o : Outcomes) (l : loop) (s : LinuxRealtimeSystem) (t : thread)
    : loop * LinuxRealtimeSystem * thread * Result RealtimeSetupStatus :=
  match validate_config l with
  | failure e => (l, s, t, failure e)
  | success _ =>
      if rl_setup_active l || rl_captured_thread_state l || rl_locked_memory l
      then (l, s, t, fail invalid_argument "real-time loop setup is already active")
      else
        let c := rl_config l in
        let '(s, captured) :=
          capture_current_thread_state (oc_get_affinity o) (oc_get_param o) s t in
        let preempt_rt := preempt_rt_kernel (oc_sys_kernel_realtime o) (oc_uname o) in
        let '(s, t, memory_locked, affinity_set, sched_fifo) :=
          if captured then
            let '(s, t, memory_locked) := lock_process_memory (oc_lock_memory o) s t in
            let '(t, affinity_set) := pin_current_thread (oc_set_affinity o) (lc_cpu c) t in
            let '(t, sched_fifo) := set_current_thread_fifo (oc_set_fifo o) (lc_priority c) t in
            (s, t, memory_locked, affinity_set, sched_fifo)
          else (s, t, false, false, false) in
        let guarantee := captured && preempt_rt && memory_locked && affinity_set && sched_fifo in
        let status :=
          mkSetupStatus captured preempt_rt memory_locked affinity_set sched_fifo guarantee in
        let l := reset_schedule (with_setup l guarantee captured memory_locked) in
        if negb guarantee
        then let '(l, s, t) := release o l s t in (l, s, t, success status)
        else (l, s, t, success status)
  end.

(** *** Waiting *)

(** The deadline of the next release and the releases skipped to reach it. *)
Definition next_release (l : loop) (now : Z) : Z * Z :=
  let period := lc_period_ns (rl_config l) in
  let deadline :=
    if rl_schedule_started l then saturating_add (rl_next_deadline_ns l) period
    else saturating_add now period in
  if deadline <=? now then
    let behind := now - deadline in
    let skipped := u64 (Z.quot behind period + 1) in
    let maximum_increment := Z.quot (int64_max - deadline) period in
    let increment_periods := Z.min skipped maximum_increment in
    (deadline + increment_periods * period, skipped)
  else (deadline, 0).

Definition add_skipped (m : RealtimeLoopMetrics) (skipped : Z) : RealtimeLoopMetrics :=
  mkMetrics (rm_cycle_count m) (rm_deadline_misses m) (u64 (rm_skipped_releases m + skipped))
    (rm_sleep_failures m) (rm_actual_period_ns m) (rm_wake_latency_ns m)
    (rm_maximum_wake_latency_ns m) (rm_execution_time_ns m) (rm_maximum_execution_time_ns m).

(** The context and the sleep error. *)
Definition RealtimeWaitResult : Type := CycleContext * Z.

(** [wait_next]: [now] is the clock before the sleep, [sleep_error] what the sleep returns
    once it is not interrupted, [started] the clock after it. *)
Definition wait_next (l : loop) (now sleep_error started : Z) : loop * RealtimeWaitResult :=
  let '(deadline, skipped) := next_release l now in
  let m := add_skipped (rl_metrics l) skipped in
  let period := lc_period_ns (rl_config l) in
  let context := mkContext (u64 (rm_cycle_count m + 1)) deadline period in
  if negb (sleep_error =? 0) then
    (mkLoop (rl_config l)
       (mkMetrics (rm_cycle_count m) (rm_deadline_misses m) (rm_skipped_releases m)
          (u64 (rm_sleep_failures m + 1)) (rm_actual_period_ns m) (rm_wake_latency_ns m)
          (rm_maximum_wake_latency_ns m) (rm_execution_time_ns m) (rm_maximum_execution_time_ns m))
       deadline (rl_previous_start_ns l) (rl_current_start_ns l) true (rl_setup_active l)
       (rl_captured_thread_state l) (rl_locked_memory l),
     (context, sleep_error))
  else
    let actual_period :=
      if negb (rm_cycle_count m =? 0) then started - rl_previous_start_ns l
      else rm_actual_period_ns m in
    let wake_latency := if deadline <? started then started - deadline else 0 in
    (mkLoop (rl_config l)
       (mkMetrics (u64 (rm_cycle_count m + 1)) (rm_deadline_misses m) (rm_skipped_releases m)
          (rm_sleep_failures m) actual_period wake_latency
          (update_maximum (rm_maximum_wake_latency_ns m) wake_latency) (rm_execution_time_ns m)
          (rm_maximum_execution_time_ns m))
       deadline started started true (rl_setup_active l) (rl_captured_thread_state l)
       (rl_locked_memory l),
     (context, 0)).

Definition observe_finish (l : loop) (finish_ns : Z) : loop :=
  if negb (rl_schedule_started l) then l
  else
    let m := rl_metrics l in
    let period := lc_period_ns (rl_config l) in
    let execution_time :=
      if rl_current_start_ns l <? finish_ns then finish_ns - rl_current_start_ns l else 0 in
    let next_release := saturating_add (rl_next_deadline_ns l) period in
    let misses :=
      if next_release <? finish_ns then u64 (Z.quot (finish_ns - next_release) period + 1) else 0 in
    mkLoop (rl_config l)
      (mkMetrics (rm_cycle_count m) (u64 (rm_deadline_misses m + misses)) (rm_skipped_releases m)
         (rm_sleep_failures m) (rm_actual_period_ns m) (rm_wake_latency_ns m)
         (rm_maximum_wake_latency_ns m) execution_time
         (update_maximum (rm_maximum_execution_time_ns m) execution_time))
      (rl_next_deadline_ns l) (rl_previous_start_ns l) (rl_current_start_ns l)
      (rl_schedule_started l) (rl_setup_active l) (rl_captured_thread_state l) (rl_locked_memory l).

(** ** Facts *)

Lemma saturating_add_small a b : 0 < b -> a + b <= int64_max -> saturating_add a b = a + b.
Proof.
  intros Hb Ha. unfold saturating_add. rewrite (proj2 (Z.ltb_lt _ _) Hb).
  by rewrite (proj2 (Z.ltb_ge _ _)) by lia.
Qed.

(** The arithmetic stays inside [int64]. *)
Lemma next_release_bounds l now :
  0 < lc_period_ns (rl_config l) -> 0 <= rl_next_deadline_ns l <= int64_max ->
  0 <= now <= int64_max ->
  0 <= (next_release l now).1 <= int64_max.
Proof.
  intros Hp Hd Hn. unfold next_release. set (period := lc_period_ns _) in *.
  set (deadline := if rl_schedule_started l then _ else _).
  assert (0 <= deadline <= int64_max) as Hr.
  { assert (forall v, 0 <= v <= int64_max -> 0 <= saturating_add v period <= int64_max) as Hs.
    { intros v Hv. unfold saturating_add. destruct (_ && _) eqn:E; [unfold int64_max; lia|].
      rewrite (proj2 (Z.ltb_lt _ _) Hp) in E. cbn [andb] in E. b2p. lia. }
    unfold deadline. destruct (rl_schedule_started l); by apply Hs. }
  clearbody deadline. destruct (deadline <=? now) eqn:E; cbn [fst]; [|lia].
  set (increment := Z.min _ _).
  assert (0 <= increment <= Z.quot (int64_max - deadline) period) as Hi.
  { assert (0 <= u64 (Z.quot (now - deadline) period + 1)) by (apply wrap_range; lia).
    assert (0 <= Z.quot (int64_max - deadline) period) by (apply Z.quot_pos; lia).
    unfold increment. lia. }
  pose proof (Z.mul_quot_le (int64_max - deadline) period ltac:(lia) ltac:(lia)). nia.
Qed.

(** A release is a whole number of periods after the last one, the first that is still to
    come, and every period it passes over is counted. *)
Lemma next_release_phase l now :
  0 < lc_period_ns (rl_config l) -> rl_schedule_started l = true ->
  0 <= rl_next_deadline_ns l <= now -> now + lc_period_ns (rl_config l) <= int64_max ->
  let period := lc_period_ns (rl_config l) in
  let '(deadline, skipped) := next_release l now in
  0 <= skipped /\ deadline = rl_next_deadline_ns l + (skipped + 1) * period /\
  now < deadline <= now + period.
Proof.
  intros Hp Hs Hd Hn. cbv zeta. unfold next_release. rewrite Hs.
  set (period := lc_period_ns _) in *. set (d := rl_next_deadline_ns l) in *.
  rewrite saturating_add_small by lia.
  destruct (Z.leb_spec (d + period) now); [|lia].
  rewrite !Z.quot_div_nonneg by lia.
  set (q := (now - (d + period)) / period).
  pose proof (Z.div_mod (now - (d + period)) period ltac:(lia)) as Hq. fold q in Hq.
  pose proof (Z.mod_pos_bound (now - (d + period)) period Hp).
  assert (0 <= q) by (apply Z.div_pos; lia).
  assert (q <= int64_max) by (unfold int64_max in *; nia).
  rewrite wrap_small by (unfold is_word, int64_max in *; lia).
  rewrite Z.min_l; [nia|]. apply Z.div_le_lower_bound; [lia|]. nia.
Qed.

(** Waits that succeed, each called after the previous deadline. *)
Fixpoint wait_all (l : loop) (waits : list (Z * Z)) : loop :=
  match waits with
  | [] => l
  | (now, started) :: waits => wait_all (wait_next l now 0 started).1 waits
  end.

Fixpoint paced (l : loop) (waits : list (Z * Z)) : Prop :=
  match waits with
  | [] => True
  | (now, started) :: waits =>
      rl_next_deadline_ns l <= now /\ now + lc_period_ns (rl_config l) <= int64_max /\
      paced (wait_next l now 0 started).1 waits
  end.

Lemma wait_next_state l now started :
  let '(deadline, skipped) := next_release l now in
  let l' := (wait_next l now 0 started).1 in
  rl_config l' = rl_config l /\ rl_schedule_started l' = true /\
  rl_next_deadline_ns l' = deadline /\
  rm_skipped_releases (rl_metrics l') = u64 (rm_skipped_releases (rl_metrics l) + skipped) /\
  rm_cycle_count (rl_metrics l') = u64 (rm_cycle_count (rl_metrics l) + 1).
Proof. unfold wait_next. by destruct (next_release l now). Qed.

(** The loop does not drift and loses no period: after any number of waits, however late
    each was called, the deadline has advanced by a whole number of periods, exactly one for
    each cycle run and one for each release counted as skipped. *)
Theorem realtime_loop_no_drift waits : forall l,
  0 < lc_period_ns (rl_config l) -> rl_schedule_started l = true ->
  0 <= rl_next_deadline_ns l -> paced l waits ->
  is_word 64 (rm_skipped_releases (rl_metrics l)) -> is_word 64 (rm_cycle_count (rl_metrics l)) ->
  let l' := wait_all l waits in
  exists skipped, 0 <= skipped /\
  rl_next_deadline_ns l' =
    rl_next_deadline_ns l +
      (Z.of_nat (length waits) + skipped) * lc_period_ns (rl_config l) /\
  rm_skipped_releases (rl_metrics l') = u64 (rm_skipped_releases (rl_metrics l) + skipped) /\
  rm_cycle_count (rl_metrics l') = u64 (rm_cycle_count (rl_metrics l) + Z.of_nat (length waits)).
Proof.
  induction waits as [|[now started] waits IH]; intros l Hp Hs Hd Hpaced Hw1 Hw2; cbv zeta.
  { exists 0. cbn [wait_all length]. rewrite !Z.add_0_r, !wrap_small by done. by split_and!. }
  destruct Hpaced as (Hnow & Hmax & Hpaced).
  pose proof (next_release_phase l now Hp Hs ltac:(lia) Hmax) as Hr.
  pose proof (wait_next_state l now started) as Hst. cbv zeta in *.
  destruct (next_release l now) as [deadline skipped].
  destruct Hr as (Hsk & Hdl & Hlt), Hst as (Hc & Hs' & Hd' & Hm & Hn).
  cbn [wait_all]. set (l1 := (wait_next l now 0 started).1) in *.
  destruct (IH l1) as (skipped' & H0 & H1 & H2 & H3);
    [by rewrite Hc|done|lia|done|rewrite Hm; apply wrap_range; lia|rewrite Hn; apply wrap_range; lia|].
  rewrite Hc, Hd', Hdl in H1. rewrite Hm in H2. rewrite Hn in H3.
  exists (skipped + skipped'). cbn [length]. split_and!; [lia|rewrite H1; lia| |].
  - rewrite H2. unfold wrap. rewrite Zplus_mod_idemp_l. f_equal. lia.
  - rewrite H3. unfold wrap. rewrite Zplus_mod_idemp_l. f_equal. lia.
Qed.

(** C40. No wait ever sets a deadline outside [int64], whatever the clock says and however far
    behind the loop is: the additions saturate. *)
Theorem realtime_loop_deadline_bounds l now sleep_error started :
  0 < lc_period_ns (rl_config l) -> 0 <= rl_next_deadline_ns l <= int64_max ->
  0 <= now <= int64_max ->
  0 <= rl_next_deadline_ns (wait_next l now sleep_error started).1 <= int64_max.
Proof.
  intros Hp Hd Hn. pose proof (next_release_bounds l now Hp Hd Hn) as H. unfold wait_next.
  destruct (next_release l now) as [deadline skipped]. by destruct (negb _).
Qed.

(** The finish of a cycle after the next release is a deadline miss for every release it has
    passed. *)
Lemma observe_finish_misses l finish_ns :
  0 < lc_period_ns (rl_config l) -> rl_schedule_started l = true ->
  0 <= rl_next_deadline_ns l -> finish_ns <= int64_max ->
  rl_next_deadline_ns l + lc_period_ns (rl_config l) < finish_ns ->
  rm_deadline_misses (rl_metrics (observe_finish l finish_ns)) =
    u64 (rm_deadline_misses (rl_metrics l) +
      (finish_ns - rl_next_deadline_ns l) / lc_period_ns (rl_config l)).
Proof.
  intros Hp Hs Hd Hf Hlt. unfold observe_finish. rewrite Hs. cbn [negb rl_metrics rm_deadline_misses].
  set (period := lc_period_ns _) in *. set (d := rl_next_deadline_ns l) in *.
  rewrite saturating_add_small by lia. rewrite (proj2 (Z.ltb_lt _ _) Hlt).
  rewrite Z.quot_div_nonneg by lia.
  replace (finish_ns - d) with (finish_ns - (d + period) + 1 * period) by lia.
  rewrite Z.div_add by lia.
  assert (0 <= (finish_ns - (d + period)) / period <= int64_max).
  { split; [apply Z.div_pos; lia|]. apply Z.div_le_upper_bound; [lia|]. nia. }
  rewrite (wrap_small 64 (_ / _ + 1)) by (unfold is_word, int64_max in *; lia). done.
Qed.

(** ** Preparing the thread *)

Definition untouched (s : LinuxRealtimeSystem) (t : thread) : Prop :=
  ls_thread_state_captured s = false /\ ls_memory_locked s = false /\ th_memory_locked t = false.

(** C30. Preparing the thread for real time gives the whole guarantee or nothing.  Assumed:
    at the start nothing is captured and the process memory is not locked (releasing unlocks
    it outright, whoever locked it), and the two system calls that set back the captured
    scheduling parameters and affinity succeed.  Then either the kernel is PREEMPT_RT, memory
    is locked and the thread runs under SCHED_FIFO at the configured priority pinned to the
    configured processor, or the thread and the process are left exactly as they were.  In
    the first case releasing the loop brings back exactly what was there. *)
Theorem prepare_all_or_nothing o l s t :
  untouched s t -> oc_restore_param o = true -> oc_restore_affinity o = true ->
  let '(l', s', t', r) := prepare o l s t in
  match r with
  | failure _ => (l', s', t') = (l, s, t)
  | success status =>
      if rs_realtime_guarantee status then
        preempt_rt_kernel (oc_sys_kernel_realtime o) (oc_uname o) = true /\
        rl_setup_active l' = true /\
        t' = mkThread {[lc_cpu (rl_config l)]} SCHED_FIFO (lc_priority (rl_config l)) true /\
        let '(l'', s'', t'') := release o l' s' t' in
        t'' = t /\ untouched s'' t'' /\ rl_setup_active l'' = false
      else t' = t /\ untouched s' t' /\ rl_setup_active l' = false
  end.
Proof.
  intros (Hc & Hm & Ht) Hrp Hra. unfold prepare. destruct (validate_config l) as [u|e]; [|done].
  destruct (rl_setup_active l || rl_captured_thread_state l || rl_locked_memory l) eqn:El; [done|].
  b2p. destruct s as [oa op opar cap mem], t as [ta tp tpar tm]. cbn in Hc, Hm, Ht. subst cap mem tm.
  unfold capture_current_thread_state. cbn [ls_thread_state_captured].
  destruct (oc_get_affinity o); cbn [negb]; [|by split_and!].
  destruct (oc_get_param o); cbn [negb]; [|by split_and!].
  unfold lock_process_memory, pin_current_thread, set_current_thread_fifo.
  destruct (oc_lock_memory o), (_ || _), (oc_set_affinity o), (_ || _), (oc_set_fifo o),
    (preempt_rt_kernel _ _) eqn:Ek; cbn; unfold release, restore_current_thread_state,
    unlock_process_memory; cbn; rewrite ?Hrp, ?Hra; cbn; by split_and!.
Qed.

End RealtimeLoop.

(** ** Witnesses *)

Module RtLoopExamples.

Import RealtimeSystem RealtimeLoop.

Definition config : RealtimeLoopConfig := mkLoopConfig 1000000 2 80.

(** A loop whose first wait has been served on time. *)
Definition running : loop := (wait_next (create config) 5000000 0 6000010).1.

(** The second wait comes two and a half periods late. *)
Lemma realtime_loop_no_drift_witness :
  rl_next_deadline_ns running = 6000000 /\
  exists skipped, 0 <= skipped /\
  rl_next_deadline_ns (wait_all running [(8500000, 9000001); (9400000, 10000020)]) =
    6000000 + (2 + skipped) * 1000000 /\
  rm_skipped_releases (rl_metrics (wait_all running [(8500000, 9000001); (9400000, 10000020)])) =
    u64 (0 + skipped) /\
  rm_cycle_count (rl_metrics (wait_all running [(8500000, 9000001); (9400000, 10000020)])) =
    u64 (1 + 2).
Proof.
  split; [by vm_compute|].
  apply (realtime_loop_no_drift [(8500000, 9000001); (9400000, 10000020)] running);
    try (vm_compute; intuition congruence); by vm_compute.
Defined.

Lemma realtime_loop_deadline_bounds_witness :
  0 <= rl_next_deadline_ns (wait_next running int64_max 0 0).1 <= int64_max.
Proof. apply realtime_loop_deadline_bounds; vm_compute; intuition congruence. Defined.

Definition granted : Outcomes :=
  mkOutcomes true true None (Some ("6.1.0-rt", "#1 SMP PREEMPT_RT Debian")) true true true true true.

Definition thread_before : thread := mkThread {[0; 1; 2; 3]} 0 0 false.

Lemma prepare_all_or_nothing_witness :
  (prepare granted (create config) RealtimeSystem.initial thread_before).1.2 =
    mkThread {[2]} SCHED_FIFO 80 true.
Proof.
  assert (untouched RealtimeSystem.initial thread_before) as Hu by done.
  assert (match (prepare granted (create config) RealtimeSystem.initial thread_before).2 with
          | success status => rs_realtime_guarantee status
          | failure _ => false
          end = true) as Hg by by vm_compute.
  pose proof (prepare_all_or_nothing granted (create config) RealtimeSystem.initial thread_before
    Hu eq_refl eq_refl) as H.
  destruct (prepare _ _ _ _) as [[[l' s'] t'] [status|]]; [|discriminate].
  cbn [snd] in Hg. rewrite Hg in H. exact (proj1 (proj2 (proj2 H))).
Defined.

End RtLoopExamples.
