(* ===== verification/Pdo.v ===== *)
(** * Process data of a CiA 402 drive on EtherCAT

    The typed process-image fields of [transport/ethercat/backend.hpp], the device
    description of [devices/cia402/elmo_gold.cpp] and the binding of
    [devices/cia402/ethercat_binding.cpp].  The EtherCAT backend, a class with several
    implementations, is an interface ([EthercatBackend]). *)
From S2P Require Export Messages.

Abbreviation Bytes := (list Z).

(** ** Addresses and locations *)

Record ObjectAddress := mkObject { ob_index : Z; ob_subindex : Z }.

#[export] Instance ObjectAddress_eq_dec : EqDecision ObjectAddress.
Proof. solve_decision. Defined.

Record EthercatSlaveAddress := mkSlave { es_alias : Z; es_position : Z }.

#[export] Instance EthercatSlaveAddress_eq_dec : EqDecision EthercatSlaveAddress.
Proof. solve_decision. Defined.

Record EthercatDeviceIdentity := mkIdentity {
  ei_vendor_id : Z;
  ei_product_code : Z;
  ei_revision : Z }.

Record PdoFieldLocation := mkLocation {
  lo_byte_offset : nat;
  lo_bit_position : Z;
  lo_bit_length : Z }.

(** ** [TypedPdoField<T>]

    [T] is given by its size in bytes and its signedness. *)

Module PdoField.

Record TypedPdoField := mkField {
  pf_size : nat;
  pf_signed : bool;
  pf_location : PdoFieldLocation;
  pf_bound : bool }.

Definition unbound (size : nat) (signed : bool) : TypedPdoField :=
  mkField size signed (mkLocation 0 0 0) false.

Definition bits (f : TypedPdoField) : Z := 8 * Z.of_nat (pf_size f).

Definition bind (f : TypedPdoField) (location : PdoFieldLocation) : Result TypedPdoField :=
  if pf_bound f then fail invalid_argument "PDO field is already bound"
  else if negb (lo_bit_position location =? 0) || negb (lo_bit_length location =? u8 (bits f))
  then fail invalid_argument "PDO field alignment or width is incompatible"
  else success (mkField (pf_size f) (pf_signed f) location true).

Definition contains (f : TypedPdoField) (image_size : nat) : bool :=
  pf_bound f && (lo_byte_offset (pf_location f) <=? image_size)%nat &&
  (pf_size f <=? image_size - lo_byte_offset (pf_location f))%nat.

(** The bytes of the field in the image. *)
Definition slice (f : TypedPdoField) (image : Bytes) : Bytes :=
  take (pf_size f) (drop (lo_byte_offset (pf_location f)) image).

Definition read (f : TypedPdoField) (image : Bytes) : option Z :=
  if negb (contains f (length image)) then None
  else
    let wire_value := le_decode (slice f image) in
    Some (if pf_signed f then wrap_signed (bits f) wire_value else wire_value).

(** Store the bytes of the field. *)
Definition splice (f : TypedPdoField) (image bytes : Bytes) : Bytes :=
  take (lo_byte_offset (pf_location f)) image ++ bytes ++
  drop (lo_byte_offset (pf_location f) + pf_size f) image.

Definition write (f : TypedPdoField) (image : Bytes) (value : Z) : Bytes * bool :=
  if negb (contains f (length image)) then (image, false)
  else (splice f image (le_encode (pf_size f) value), true).

(** *** Facts *)

(** A field that lies inside an image of [size] bytes. *)
Definition inside (f : TypedPdoField) (size : nat) : Prop :=
  pf_bound f = true /\ (0 < pf_size f)%nat /\ (lo_byte_offset (pf_location f) + pf_size f <= size)%nat.

Definition disjoint_fields (f g : TypedPdoField) : Prop :=
  (lo_byte_offset (pf_location f) + pf_size f <= lo_byte_offset (pf_location g))%nat \/
  (lo_byte_offset (pf_location g) + pf_size g <= lo_byte_offset (pf_location f))%nat.

(** The values of the field's type. *)
Definition in_type (f : TypedPdoField) (value : Z) : Prop :=
  if pf_signed f then - 2 ^ (bits f - 1) <= value < 2 ^ (bits f - 1) else is_word (bits f) value.

Lemma contains_inside f size : (0 < pf_size f)%nat -> contains f size = true <-> inside f size.
Proof.
  intros Hs. unfold contains, inside. rewrite !andb_true_iff, !Nat.leb_le.
  destruct (pf_bound f); split; intros; split_and!; try tauto; try lia; intuition lia.
Qed.

Lemma inside_contains f size : inside f size -> contains f size = true.
Proof. intros Hi. apply contains_inside; [apply Hi|exact Hi]. Qed.

Lemma write_inside f image value :
  inside f (length image) -> write f image value = (splice f image (le_encode (pf_size f) value), true).
Proof. intros Hi. unfold write. by rewrite inside_contains. Qed.

Lemma length_splice f image bytes :
  inside f (length image) -> length bytes = pf_size f -> length (splice f image bytes) = length image.
Proof.
  intros (_ & _ & Hi) Hb. unfold splice. rewrite !length_app, length_take, length_drop. lia.
Qed.

Lemma slice_splice f image bytes :
  inside f (length image) -> length bytes = pf_size f -> slice f (splice f image bytes) = bytes.
Proof.
  intros (_ & _ & Hi) Hb. unfold slice, splice.
  rewrite drop_app_length' by (rewrite length_take; lia).
  by rewrite <- Hb, take_app_length.
Qed.

Lemma slice_splice_other f g image bytes :
  inside f (length image) -> inside g (length image) -> length bytes = pf_size f ->
  disjoint_fields f g -> slice g (splice f image bytes) = slice g image.
Proof.
  intros (_ & _ & Hf) (_ & _ & Hg) Hb Hd. unfold slice, splice.
  set (o := lo_byte_offset (pf_location f)) in *. set (p := lo_byte_offset (pf_location g)) in *.
  apply list_eq. intros i. destruct (le_lt_dec (pf_size g) i) as [Hi|Hi].
  { by rewrite !lookup_take_ge by lia. }
  rewrite !lookup_take_lt, !lookup_drop by lia. unfold disjoint_fields in Hd. fold o p in Hd.
  destruct Hd as [Hd|Hd].
  - rewrite lookup_app_r by (rewrite length_take; lia).
    rewrite lookup_app_r by (rewrite length_take; lia).
    rewrite lookup_drop, length_take. f_equal. lia.
  - rewrite lookup_app_l by (rewrite length_take; lia). by rewrite lookup_take_lt by lia.
Qed.

Lemma read_inside f image :
  inside f (length image) ->
  read f image =
    Some (if pf_signed f then wrap_signed (bits f) (le_decode (slice f image))
          else le_decode (slice f image)).
Proof. intros Hi. unfold read. by rewrite inside_contains. Qed.

Lemma read_write_same f image value :
  inside f (length image) -> in_type f value ->
  read f (write f image value).1 = Some value.
Proof.
  intros Hi Ht. rewrite write_inside by done. cbn [fst].
  rewrite read_inside by (by rewrite length_splice by (done || apply length_le_encode)).
  rewrite slice_splice by (done || apply length_le_encode).
  rewrite le_decode_encode. fold (bits f). unfold in_type in Ht.
  assert (0 < bits f) by (unfold bits; destruct Hi as (_ & ? & _); lia).
  destruct (pf_signed f); [by rewrite wrap_signed_wrap|by rewrite wrap_small].
Qed.

Lemma read_write_other f g image value :
  inside f (length image) -> inside g (length image) -> disjoint_fields f g ->
  read g (write f image value).1 = read g image.
Proof.
  intros Hf Hg Hd. rewrite write_inside by done. cbn [fst].
  pose proof (length_splice f image (le_encode (pf_size f) value) Hf (length_le_encode _ _)) as Hl.
  rewrite !read_inside by (by rewrite ?Hl).
  by rewrite slice_splice_other by (done || apply length_le_encode).
Qed.

Lemma in_type_zero f : (0 < pf_size f)%nat -> in_type f 0.
Proof.
  intros Hs. assert (0 < bits f) by (unfold bits; lia). unfold in_type, is_word.
  assert (0 < 2 ^ (bits f - 1)) by (apply Z.pow_pos_nonneg; lia).
  assert (0 < 2 ^ bits f) by (apply Z.pow_pos_nonneg; lia).
  destruct (pf_signed f); lia.
Qed.

Lemma write_outside f image value i :
  (i < lo_byte_offset (pf_location f) \/ lo_byte_offset (pf_location f) + pf_size f <= i)%nat ->
  inside f (length image) -> (write f image value).1 !! i = image !! i.
Proof.
  intros Hi Hf. rewrite write_inside by done. cbn [fst]. destruct Hf as (_ & _ & Hf).
  unfold splice. destruct Hi as [Hi|Hi].
  - rewrite lookup_app_l by (rewrite length_take; lia). by rewrite lookup_take_lt by lia.
  - rewrite lookup_app_r by (rewrite length_take; lia).
    rewrite lookup_app_r by (rewrite length_take, length_le_encode; lia).
    rewrite lookup_drop, length_take, length_le_encode. f_equal. lia.
Qed.

Lemma bind_success f location f' :
  bind f location = success f' ->
  pf_bound f = false /\ f' = mkField (pf_size f) (pf_signed f) location true /\
  lo_bit_position location = 0 /\ lo_bit_length location = u8 (bits f).
Proof.
  unfold bind. destruct (pf_bound f) eqn:?; [done|].
  destruct (lo_bit_position location =? 0) eqn:E1, (lo_bit_length location =? u8 (bits f)) eqn:E2;
    cbn; try done.
  apply Z.eqb_eq in E1, E2. intros [= <-]. auto.
Qed.

Lemma length_write f image value : length (write f image value).1 = length image.
Proof.
  unfold write. destruct (contains f (length image)) eqn:E; [|done]. cbn.
  unfold contains in E. apply andb_true_iff in E as [[_ E1]%andb_true_iff E2].
  apply Nat.leb_le in E1, E2. unfold splice.
  rewrite !length_app, length_take, length_drop, length_le_encode. lia.
Qed.

End PdoField.

(** ** The Elmo Gold drive *)

Module ElmoGold.

Record PdoEntryDefinition := mkEntry { pe_address : ObjectAddress; pe_bit_length : Z }.

#[export] Instance PdoEntryDefinition_eq_dec : EqDecision PdoEntryDefinition.
Proof. solve_decision. Defined.

Record PdoDefinition := mkPdoDefinition { pd_index : Z; pd_entries : list PdoEntryDefinition }.

Inductive PdoDirection := output | input.

#[export] Instance PdoDirection_eq_dec : EqDecision PdoDirection.
Proof. solve_decision. Defined.

Inductive WatchdogMode := device_default | disabled | enabled.

Record SyncManagerDescription := mkSyncManager {
  sm_index : Z;
  sm_minimum_size : Z;
  sm_maximum_size : Z;
  sm_default_size : Z;
  sm_start_address : Z;
  sm_control_byte : Z;
  sm_enabled : bool;
  sm_watchdog : WatchdogMode;
  sm_direction : PdoDirection }.

Record SdoDownloadRequest := mkSdo { sdo_address : ObjectAddress; sdo_data : Bytes }.

Definition vendor_id : Z := 0x0000009A.
Definition product_code : Z := 0x00030924.
Definition revision : Z := 0x00010420.
Definition assign_activate : Z := 0x0300.
Definition sync0_cycle_ns : Z := 1000000.

Definition entry (index subindex bit_length : Z) : PdoEntryDefinition :=
  mkEntry (mkObject index subindex) bit_length.

Definition kCspPdo : PdoDefinition :=
  mkPdoDefinition 0x1600 [entry 0x607A 0 32; entry 0x60FE 1 32; entry 0x6040 0 16].
Definition kCsvPdo : PdoDefinition :=
  mkPdoDefinition 0x1601 [entry 0x60FF 0 32; entry 0x6040 0 16].
Definition kCstPdo : PdoDefinition :=
  mkPdoDefinition 0x1602 [entry 0x6071 0 16; entry 0x6040 0 16].

Definition rx_pdo (mode : Cia402Mode) : Z :=
  match mode with csp => 0x1600 | csv => 0x1601 | cst => 0x1602 end.

Definition rx_pdo_definition (mode : Cia402Mode) : PdoDefinition :=
  match mode with csp => kCspPdo | csv => kCsvPdo | cst => kCstPdo end.

Definition feedback_pdos : list PdoDefinition :=
  [mkPdoDefinition 0x1A02
     [entry 0x6064 0 32; entry 0x6077 0 16; entry 0x6041 0 16; entry 0x6061 0 8; entry 0x0000 0 8];
   mkPdoDefinition 0x1A11 [entry 0x606C 0 32]].

Definition sync_managers : list SyncManagerDescription :=
  [mkSyncManager 0 0x008C 0x008C 0x008C 0x1800 0x26 true device_default output;
   mkSyncManager 1 0x008C 0x008C 0x008C 0x1900 0x22 true device_default input;
   mkSyncManager 2 0 0x0020 0x0020 0x1100 0x64 true device_default output;
   mkSyncManager 3 0 0x0020 0x0020 0x1180 0x20 true device_default input].

Definition startup_sdos (mode : Cia402Mode) : list SdoDownloadRequest :=
  [mkSdo (mkObject 0x6060 0) [mode_value mode]; mkSdo (mkObject 0x60C2 1) [0x02]].

(** The bits of a PDO. *)
Definition pdo_bits (p : PdoDefinition) : Z := foldr Z.add 0 (map pe_bit_length (pd_entries p)).

End ElmoGold.

(** ** The backend, as the master sees it *)

Record DistributedClockConfiguration := mkDc {
  dc_assign_activate : Z;
  dc_sync0_cycle_ns : Z;
  dc_sync0_shift_ns : Z }.

Record EthercatSlaveConfiguration := mkSlaveConfiguration {
  sl_address : EthercatSlaveAddress;
  sl_identity : EthercatDeviceIdentity;
  sl_rx_pdo : ElmoGold.PdoDefinition;
  sl_tx_pdos : list ElmoGold.PdoDefinition;
  sl_dc : DistributedClockConfiguration;
  sl_startup_sdos : list ElmoGold.SdoDownloadRequest }.

Record DomainHealth := mkDomainHealth {
  dh_working_counter : Z;
  dh_expected_working_counter : option Z;
  dh_working_counter_complete : bool;
  dh_link_up : bool;
  dh_all_slaves_operational : bool;
  dh_dc_deviation_ns : Z;
  dh_operational_axes_mask : Z }.

Inductive SdoTransferState := pending | completed | sdo_state_failed.

#[export] Instance SdoTransferState_eq_dec : EqDecision SdoTransferState.
Proof. solve_decision. Defined.

Inductive SdoFailureReason :=
  | none | backend_exception | endpoint_unavailable | unsupported_download_size
  | exact_size_request_unavailable | object_selection_failed | download_schedule_failed
  | conflicting_request | invalid_upload_capacity | upload_schedule_failed
  | upload_capacity_exceeded | transfer_failed | unknown_request_state.

Record SdoTransferProgress := mkProgress {
  sp_state : SdoTransferState;
  sp_error_code : ErrorCode;
  sp_failure_reason : SdoFailureReason;
  sp_uploaded_size : nat }.

(** A transfer step that throws answers [None]; an upload also writes into its destination. *)
Class EthercatBackend (B : Type) := {
  be_initialize : B -> B * Result unit;
  be_configure_slave : B -> EthercatSlaveConfiguration -> B * Result unit;
  be_bind_pdo_entry : B -> EthercatSlaveAddress -> ObjectAddress -> Z -> B * Result PdoFieldLocation;
  be_activate : B -> B * Result unit;
  be_deactivate : B -> B;
  be_receive : B -> B;
  be_process_domain : B -> B;
  be_process_image : B -> Bytes;
  be_set_process_image : B -> Bytes -> B;
  be_queue_domain : B -> B;
  be_send : B -> B;
  be_domain_health : B -> DomainHealth;
  be_progress_download_sdo : B -> EthercatSlaveAddress -> ElmoGold.SdoDownloadRequest ->
    B * option SdoTransferProgress;
  be_progress_upload_sdo : B -> EthercatSlaveAddress -> ObjectAddress -> Bytes ->
    B * Bytes * option SdoTransferProgress;
  be_progress_cancel_sdo : B -> EthercatSlaveAddress -> B * option SdoTransferProgress }.

(** ** [Cia402EthercatBinding] *)

Module Binding.

Import PdoField ElmoGold.

Record EthercatAxisConfiguration := mkAxisConfiguration {
  ec_axis : AxisConfig;
  ec_startup_parameters : list SdoDownloadRequest }.

Record Cia402PdoHandles := mkHandles {
  h_status_word : TypedPdoField;
  h_mode_display : TypedPdoField;
  h_actual_position : TypedPdoField;
  h_actual_velocity : TypedPdoField;
  h_actual_torque : TypedPdoField;
  h_control_word : TypedPdoField;
  h_target_position : TypedPdoField;
  h_target_velocity : TypedPdoField;
  h_target_torque : TypedPdoField }.

Definition uint16_field : TypedPdoField := unbound 2 false.
Definition int8_field : TypedPdoField := unbound 1 true.
Definition int16_field : TypedPdoField := unbound 2 true.
Definition int32_field : TypedPdoField := unbound 4 true.

Definition handles_unbound : Cia402PdoHandles :=
  mkHandles uint16_field int8_field int32_field int32_field int16_field uint16_field
    int32_field int32_field int16_field.

Section Backend.
Context {B : Type} `{EthercatBackend B}.

Definition bind_input (backend : B) (slave : EthercatSlaveAddress) (address : ObjectAddress)
    (bits : Z) (field : TypedPdoField) : B * Result TypedPdoField :=
  match be_bind_pdo_entry backend slave address bits with
  | (backend, failure e) => (backend, failure e)
  | (backend, success location) => (backend, bind field location)
  end.

(** Bind the objects of a list in order, stopping at the first failure. *)
Fixpoint bind_all (backend : B) (slave : EthercatSlaveAddress)
    (objects : list (ObjectAddress * Z * TypedPdoField)) : B * Result (list TypedPdoField) :=
  match objects with
  | [] => (backend, success [])
  | (address, bits, field) :: objects =>
      match bind_input backend slave address bits field with
      | (backend, failure e) => (backend, failure e)
      | (backend, success field) =>
          match bind_all backend slave objects with
          | (backend, failure e) => (backend, failure e)
          | (backend, success fields) => (backend, success (field :: fields))
          end
      end
  end.

(** The objects every mode binds, and the target of a mode. *)
Definition common_objects : list (ObjectAddress * Z * TypedPdoField) :=
  [(mkObject 0x6041 0, 16, uint16_field); (mkObject 0x6061 0, 8, int8_field);
   (mkObject 0x6064 0, 32, int32_field); (mkObject 0x606C 0, 32, int32_field);
   (mkObject 0x6077 0, 16, int16_field); (mkObject 0x6040 0, 16, uint16_field)].

Definition target_object (mode : Cia402Mode) : ObjectAddress * Z * TypedPdoField :=
  match mode with
  | csp => (mkObject 0x607A 0, 32, int32_field)
  | csv => (mkObject 0x60FF 0, 32, int32_field)
  | cst => (mkObject 0x6071 0, 16, int16_field)
  end.

Definition slave_configuration (c : EthercatAxisConfiguration) : EthercatSlaveConfiguration :=
  let axis := ec_axis c in
  mkSlaveConfiguration (mkSlave (ax_alias axis) (ax_position axis))
    (mkIdentity (ax_vendor_id axis) (ax_product_code axis) (ax_revision axis))
    (rx_pdo_definition (ax_mode axis)) feedback_pdos
    (mkDc assign_activate sync0_cycle_ns 0)
    (startup_sdos (ax_mode axis) ++ ec_startup_parameters c).

Definition configure_axis (backend : B) (c : EthercatAxisConfiguration)
    : B * Result Cia402PdoHandles :=
  let axis := ec_axis c in
  let slave := mkSlave (ax_alias axis) (ax_position axis) in
  match be_configure_slave backend (slave_configuration c) with
  | (backend, failure e) => (backend, failure e)
  | (backend, success _) =>
      match bind_all backend slave (common_objects ++ [target_object (ax_mode axis)]) with
      | (backend, success [status; mode; position; velocity; torque; control; target]) =>
          (backend, success (mkHandles status mode position velocity torque control
             (if bool_decide (ax_mode axis = csp) then target else int32_field)
             (if bool_decide (ax_mode axis = csv) then target else int32_field)
             (if bool_decide (ax_mode axis = cst) then target else int16_field)))
      | (backend, success _) => (backend, fail internal "unreachable static CiA 402 mode")
      | (backend, failure e) => (backend, failure e)
      end
  end.

End Backend.

Definition read_inputs (handles : Cia402PdoHandles) (image : Bytes) (pdo : Cia402PdoView)
    : Cia402PdoView * bool :=
  match read (h_status_word handles) image, read (h_mode_display handles) image,
        read (h_actual_position handles) image, read (h_actual_velocity handles) image,
        read (h_actual_torque handles) image with
  | Some status, Some mode, Some position, Some velocity, Some torque =>
      (mkPdo status mode position velocity torque (control_word pdo) (target_position pdo)
         (target_velocity pdo) (target_torque pdo), true)
  | _, _, _, _, _ => (pdo, false)
  end.

(** The target field of a mode and its value. *)
Definition target_field (handles : Cia402PdoHandles) (mode : Cia402Mode) : TypedPdoField :=
  match mode with
  | csp => h_target_position handles
  | csv => h_target_velocity handles
  | cst => h_target_torque handles
  end.

Definition target_value (pdo : Cia402PdoView) (mode : Cia402Mode) : Z :=
  match mode with
  | csp => target_position pdo
  | csv => target_velocity pdo
  | cst => target_torque pdo
  end.

Definition write_outputs (handles : Cia402PdoHandles) (image : Bytes) (pdo : Cia402PdoView)
    (mode : Cia402Mode) (enabled : bool) : Bytes * bool :=
  let '(image, control_written) :=
    write (h_control_word handles) image (if enabled then control_word pdo else 0) in
  let '(image, target_written) :=
    write (target_field handles mode) image (if enabled then target_value pdo mode else 0) in
  (image, target_written && control_written).

(** *** Facts *)

(** The fields a mode uses. *)
Definition mode_fields (handles : Cia402PdoHandles) (mode : Cia402Mode) : list TypedPdoField :=
  [h_status_word handles; h_mode_display handles; h_actual_position handles;
   h_actual_velocity handles; h_actual_torque handles; h_control_word handles;
   target_field handles mode].

(** Bound handles of a process image of [size] bytes: each field has its type and lies inside the
    image, and no two overlap. *)
Record handles_bound (handles : Cia402PdoHandles) (mode : Cia402Mode) (size : nat) : Prop := {
  hb_inside : Forall (fun f => inside f size) (mode_fields handles mode);
  hb_disjoint : forall i j f g, i <> j -> mode_fields handles mode !! i = Some f ->
    mode_fields handles mode !! j = Some g -> disjoint_fields f g;
  hb_types : map (fun f => (pf_size f, pf_signed f)) (mode_fields handles mode) =
    map (fun o => (pf_size o.2, pf_signed o.2)) (common_objects ++ [target_object mode]) }.

Section Written.
Context (handles : Cia402PdoHandles) (mode : Cia402Mode) (image : Bytes) (pdo : Cia402PdoView).
Context (Hb : handles_bound handles mode (length image)).

Let control := h_control_word handles.
Let target := target_field handles mode.

Lemma control_inside : inside control (length image).
Proof. pose proof (hb_inside _ _ _ Hb) as Hi. by apply (Forall_lookup_1 _ _ 5%nat) with (x := control) in Hi. Qed.

Lemma target_inside : inside target (length image).
Proof. pose proof (hb_inside _ _ _ Hb) as Hi. by apply (Forall_lookup_1 _ _ 6%nat) with (x := target) in Hi. Qed.

Lemma written_image enabled :
  write_outputs handles image pdo mode enabled =
    ((write target (write control image (if enabled then control_word pdo else 0)).1
       (if enabled then target_value pdo mode else 0)).1, true).
Proof.
  unfold write_outputs. fold control target.
  rewrite (write_inside control) by apply control_inside. cbn [fst].
  rewrite (write_inside target); [done|].
  rewrite length_splice by (apply control_inside || apply length_le_encode). apply target_inside.
Qed.

Lemma input_untouched i f enabled :
  (i < 5)%nat -> mode_fields handles mode !! i = Some f ->
  read f (write_outputs handles image pdo mode enabled).1 = read f image.
Proof.
  intros Hi Hf. rewrite written_image. cbn [fst].
  pose proof (Forall_lookup_1 _ _ _ _ (hb_inside _ _ _ Hb) Hf) as Hin.
  rewrite !read_write_other; rewrite ?length_write; auto using control_inside, target_inside.
  - apply (hb_disjoint _ _ _ Hb 5 i); [lia|done|done].
  - apply (hb_disjoint _ _ _ Hb 6 i); [lia|done|done].
Qed.

Lemma written_fields enabled :
  in_type control (control_word pdo) -> in_type target (target_value pdo mode) ->
  read control (write_outputs handles image pdo mode enabled).1 =
    Some (if enabled then control_word pdo else 0) /\
  read target (write_outputs handles image pdo mode enabled).1 =
    Some (if enabled then target_value pdo mode else 0).
Proof.
  intros Hc Ht. rewrite written_image. cbn [fst].
  assert (forall f v, in_type f v -> inside f (length image) -> in_type f (if enabled then v else 0))
    as Hz by (intros f v Hv (_ & Hs & _); destruct enabled; [exact Hv|by apply in_type_zero]).
  pose proof control_inside as Hci. pose proof target_inside as Hti. split.
  - rewrite read_write_other; rewrite ?length_write; auto using read_write_same.
    apply (hb_disjoint _ _ _ Hb 6 5); done.
  - apply read_write_same; rewrite ?length_write; auto.
Qed.

End Written.

(** The fields that binding a list of objects in order yields: each has its object's type, and the
    location the backend answered, which has the type's width and is byte-aligned. *)
Inductive binds {B : Type} `{EthercatBackend B} (slave : EthercatSlaveAddress)
    : B -> list (ObjectAddress * Z * TypedPdoField) -> B -> list TypedPdoField -> Prop :=
  | binds_nil backend : binds slave backend [] backend []
  | binds_cons backend backend' backend'' address width field location objects fields :
      be_bind_pdo_entry backend slave address width = (backend', success location) ->
      lo_bit_position location = 0 -> lo_bit_length location = u8 (bits field) ->
      binds slave backend' objects backend'' fields ->
      binds slave backend ((address, width, field) :: objects) backend''
        (mkField (pf_size field) (pf_signed field) location true :: fields).

Lemma objects_mapped mode :
  Forall (fun o => mkEntry o.1.1 o.1.2 ∈
                      pd_entries (rx_pdo_definition mode) ++ mjoin (map pd_entries feedback_pdos) /\
                   o.1.2 = bits o.2) (common_objects ++ [target_object mode]).
Proof. destruct mode; apply (bool_decide_unpack _); by vm_compute. Qed.

Section Configure.
Context {B : Type} `{EthercatBackend B}.

Lemma bind_all_binds slave objects backend backend' fields :
  bind_all backend slave objects = (backend', success fields) ->
  binds slave backend objects backend' fields.
Proof.
  revert backend fields. induction objects as [|[[address width] field] objects IH];
    intros backend fields; cbn [bind_all]; [intros [= <- <-]; constructor|].
  unfold bind_input. destruct (be_bind_pdo_entry backend slave address width) as [b1 [location|e]] eqn:E;
    [|done].
  destruct (bind field location) as [field'|e] eqn:Eb; [|done].
  apply bind_success in Eb as (_ & -> & Hp & Hl).
  destruct (bind_all b1 slave objects) as [b2 [fields'|e]] eqn:Ea; [|done]. intros [= <- <-].
  econstructor; eauto.
Qed.

Lemma binds_types slave backend objects backend' fields :
  binds slave backend objects backend' fields ->
  map (fun f => (pf_size f, pf_signed f)) fields = map (fun o => (pf_size o.2, pf_signed o.2)) objects.
Proof. induction 1; cbn; [done|]. by f_equal. Qed.

Lemma bind_all_failure slave objects backend backend' e :
  bind_all backend slave objects = (backend', failure e) ->
  exists done backend1 fields address width field,
    objects = done ++ (address, width, field) :: drop (S (length done)) objects /\
    binds slave backend done backend1 fields /\
    bind_input backend1 slave address width field = (backend', failure e).
Proof.
  revert backend. induction objects as [|[[address width] field] objects IH];
    intros backend; cbn [bind_all]; [done|].
  destruct (bind_input backend slave address width field) as [b1 [f|e']] eqn:E.
  - destruct (bind_all b1 slave objects) as [b2 [fields|e']] eqn:Ea; [done|]. intros [= -> ->].
    destruct (IH _ Ea) as (before & b3 & fields & a' & w' & f' & Ho & Hd & Hf).
    unfold bind_input in E.
    destruct (be_bind_pdo_entry backend slave address width) as [b4 [location|e'']] eqn:El; [|done].
    injection E as -> E. apply bind_success in E as (_ & -> & Hp & Hl).
    exists ((address, width, field) :: before), b3, (mkField (pf_size field) (pf_signed field) location true :: fields),
      a', w', f'.
    split_and!; [cbn; by f_equal|by econstructor|done].
  - intros [= -> ->]. exists [], backend, [], address, width, field.
    split_and!; [done|constructor|done].
Qed.

(** Configuring an axis.  The backend first gets the axis' slave configuration, whose process
    data maps every object the axis then binds, at the width of its field; on success the seven
    objects were bound in order to the handles, at the locations the backend answered, and the
    targets of the other modes stay unbound; a failure is the first one met, of the slave's
    configuration or of one binding. *)
Theorem configure_axis_sound (backend : B) c :
  let slave := sl_address (slave_configuration c) in
  let mode := ax_mode (ec_axis c) in
  let objects := common_objects ++ [target_object mode] in
  Forall (fun o => mkEntry o.1.1 o.1.2 ∈
                      pd_entries (sl_rx_pdo (slave_configuration c)) ++
                       mjoin (map pd_entries (sl_tx_pdos (slave_configuration c))) /\
                   o.1.2 = bits o.2) objects /\
  match configure_axis backend c with
  | (backend', success handles) =>
      exists backend0,
        be_configure_slave backend (slave_configuration c) = (backend0, success tt) /\
        binds slave backend0 objects backend' (mode_fields handles mode) /\
        (forall other, other <> mode -> pf_bound (target_field handles other) = false)
  | (backend', failure e) =>
      be_configure_slave backend (slave_configuration c) = (backend', failure e) \/
      exists backend0 before backend1 fields address width field,
        be_configure_slave backend (slave_configuration c) = (backend0, success tt) /\
        objects = before ++ (address, width, field) :: drop (S (length before)) objects /\
        binds slave backend0 before backend1 fields /\
        bind_input backend1 slave address width field = (backend', failure e)
  end.
Proof.
  split; [apply objects_mapped|].
  unfold configure_axis.
  destruct (be_configure_slave backend (slave_configuration c)) as [b0 [[]|e]] eqn:Ec; [|by left].
  change (mkSlave (ax_alias (ec_axis c)) (ax_position (ec_axis c))) with (sl_address (slave_configuration c)).
  destruct (bind_all b0 _ _) as [b1 [fields|e]] eqn:Ea; [|right].
  2: { apply bind_all_failure in Ea as (before & b2 & fields & a & w & f & Ho & Hd & Hf).
       exists b0, before, b2, fields, a, w, f. auto. }
  pose proof (bind_all_binds _ _ _ _ _ Ea) as Hb.
  pose proof (f_equal length (binds_types _ _ _ _ _ Hb)) as Hl. rewrite !length_map in Hl.
  repeat (destruct fields as [|? fields]; try (cbn in Hl; discriminate)).
  exists b0. split; [done|].
  destruct (ax_mode (ec_axis c)); (split; [exact Hb|intros []; done]).
Qed.

End Configure.

(** *** A concrete image

    The process data of one drive in position mode, laid out as the mapping lists it. *)
Definition field_at (size : nat) (signed : bool) (offset : nat) : TypedPdoField :=
  mkField size signed (mkLocation offset 0 (8 * Z.of_nat size)) true.

Definition example_handles : Cia402PdoHandles :=
  mkHandles (field_at 2 false 16) (field_at 1 true 18) (field_at 4 true 10) (field_at 4 true 20)
    (field_at 2 true 14) (field_at 2 false 8) (field_at 4 true 0) int32_field int16_field.

Definition example_image : Bytes := map Z.of_nat (seq 0 24).

Lemma example_handles_bound : handles_bound example_handles csp (length example_image).
Proof.
  split.
  - repeat constructor; cbn; lia.
  - intros i j f g Hij Hf Hg.
    do 7 (destruct i as [|i]; [injection Hf as <-; do 7 (destruct j as [|j];
      [injection Hg as <-; first [done|vm_compute; lia]|]); done|]). done.
  - done.
Qed.

(** The outputs of an axis are exact.  With bound handles, [write_outputs] succeeds, the image
    keeps its size, the control word and the mode's target read back as the axis staged them
    (zeros when outputs are disabled), the five inputs read as before, and every byte outside
    the two output fields is unchanged. *)
Theorem pdo_outputs_exact handles mode image pdo enabled :
  handles_bound handles mode (length image) ->
  in_type (h_control_word handles) (control_word pdo) ->
  in_type (target_field handles mode) (target_value pdo mode) ->
  let '(image', written) := write_outputs handles image pdo mode enabled in
  written = true /\ length image' = length image /\
  read (h_control_word handles) image' = Some (if enabled then control_word pdo else 0) /\
  read (target_field handles mode) image' = Some (if enabled then target_value pdo mode else 0) /\
  (forall view, read_inputs handles image' view = read_inputs handles image view) /\
  (forall i, Forall (fun f => (i < lo_byte_offset (pf_location f) \/
                              lo_byte_offset (pf_location f) + pf_size f <= i)%nat)
              [h_control_word handles; target_field handles mode] ->
             image' !! i = image !! i).
Proof.
  intros Hb Hc Ht. destruct (write_outputs handles image pdo mode enabled) as [image' written] eqn:E.
  pose proof (written_image handles mode image pdo Hb enabled) as W. rewrite E in W.
  injection W as -> ->.
  pose proof (written_fields handles mode image pdo Hb enabled Hc Ht) as [Hwc Hwt].
  rewrite E in Hwc, Hwt.
  split_and!; [done|by rewrite !length_write|exact Hwc|exact Hwt| |].
  - intros view. pose proof (fun i f => input_untouched handles mode image pdo Hb i f enabled) as Hu.
    rewrite E in Hu. cbn [fst] in Hu. unfold read_inputs.
    by rewrite !(Hu 0%nat), !(Hu 1%nat), !(Hu 2%nat), !(Hu 3%nat), !(Hu 4%nat) by (lia || reflexivity).
  - intros i [Hi1 [Hi2 _]%Forall_cons]%Forall_cons.
    pose proof (control_inside handles mode image Hb). pose proof (target_inside handles mode image Hb).
    rewrite !write_outside; rewrite ?length_write; auto.
Qed.

Lemma pdo_outputs_exact_witness :
  write_outputs example_handles example_image (mkPdo 0 0 0 0 0 0x000F (-2) 0 0) csp true =
    ([254; 255; 255; 255; 4; 5; 6; 7; 15; 0; 10; 11; 12; 13; 14; 15; 16; 17; 18; 19; 20; 21; 22; 23], true) /\
  length (write_outputs example_handles example_image (mkPdo 0 0 0 0 0 0x000F (-2) 0 0) csp true).1 = 24%nat.
Proof.
  split; [by vm_compute|].
  refine (proj1 (proj2 (pdo_outputs_exact example_handles csp example_image
    (mkPdo 0 0 0 0 0 0x000F (-2) 0 0) true example_handles_bound _ _))); vm_compute; intuition done.
Defined.

End Binding.
