(* ===== verification/EthercatMailbox.v ===== *)
(** * The EtherCAT mailbox

    [EthercatMailbox] of [transport/ethercat/master.cpp]: acyclic SDO requests, queued by clients,
    staged one at a time by a worker and transferred by the owner of the bus, one bounded step
    per cycle.  Module [SdoMailbox] has each operation as one step; Module [MailboxRace] has the
    atomic accesses of the operations as interleaved steps. *)
From Stdlib Require Import Sorted.
From S2P Require Export Pdo.
Import ElmoGold.

Module SdoMailbox.

(** ** Data *)

Inductive RequestPhase := queued | staged | active | terminalizing | phase_completed | phase_failed.

#[export] Instance RequestPhase_eq_dec : EqDecision RequestPhase.
Proof. solve_decision. Defined.

Inductive FailureKind := no_failure | closed | backend_failure.

#[export] Instance FailureKind_eq_dec : EqDecision FailureKind.
Proof. solve_decision. Defined.

Record Request := mkRequest {
  rq_generation : Z;
  rq_upload : bool;
  rq_transfer : SdoDownloadRequest;
  rq_phase : RequestPhase;
  rq_failure_kind : FailureKind;
  rq_backend_error_code : ErrorCode;
  rq_backend_failure_reason : SdoFailureReason;
  rq_uploaded_size : nat }.

Definition with_phase (r : Request) (phase : RequestPhase) : Request :=
  mkRequest (rq_generation r) (rq_upload r) (rq_transfer r) phase (rq_failure_kind r)
    (rq_backend_error_code r) (rq_backend_failure_reason r) (rq_uploaded_size r).

Definition with_data (r : Request) (data : Bytes) : Request :=
  mkRequest (rq_generation r) (rq_upload r) (mkSdo (sdo_address (rq_transfer r)) data) (rq_phase r)
    (rq_failure_kind r) (rq_backend_error_code r) (rq_backend_failure_reason r) (rq_uploaded_size r).

Definition complete (r : Request) (uploaded_size : nat) : Request :=
  mkRequest (rq_generation r) (rq_upload r) (rq_transfer r) phase_completed (rq_failure_kind r)
    (rq_backend_error_code r) (rq_backend_failure_reason r) uploaded_size.

Definition fail_closed (r : Request) : Request :=
  mkRequest (rq_generation r) (rq_upload r) (rq_transfer r) phase_failed closed
    (rq_backend_error_code r) (rq_backend_failure_reason r) (rq_uploaded_size r).

Definition fail_backend (r : Request) (error_code : ErrorCode) (reason : SdoFailureReason) : Request :=
  mkRequest (rq_generation r) (rq_upload r) (rq_transfer r) phase_failed backend_failure
    error_code reason (rq_uploaded_size r).

(** The [std::map] of the requests is the list of its entries in the order of their ids; the
    pointer to the staged request is its id (no entry is ever erased). *)
Record EthercatMailbox := mkMailbox {
  mb_slave : EthercatSlaveAddress;
  mb_requests : list (Z * Request);
  mb_staged_request : option Z;
  mb_next_request_id : Z;
  mb_open_generation : Z;
  mb_cancel_requested_generation : Z;
  mb_health : TransportHealth }.

Definition create (slave : EthercatSlaveAddress) : EthercatMailbox :=
  mkMailbox slave [] None 1 0 0 failed.

Definition with_requests (m : EthercatMailbox) (requests : list (Z * Request)) : EthercatMailbox :=
  mkMailbox (mb_slave m) requests (mb_staged_request m) (mb_next_request_id m)
    (mb_open_generation m) (mb_cancel_requested_generation m) (mb_health m).

Definition with_staged (m : EthercatMailbox) (staged : option Z) : EthercatMailbox :=
  mkMailbox (mb_slave m) (mb_requests m) staged (mb_next_request_id m)
    (mb_open_generation m) (mb_cancel_requested_generation m) (mb_health m).

Definition with_open (m : EthercatMailbox) (generation : Z) : EthercatMailbox :=
  mkMailbox (mb_slave m) (mb_requests m) (mb_staged_request m) (mb_next_request_id m)
    generation (mb_cancel_requested_generation m) (mb_health m).

Definition with_cancel (m : EthercatMailbox) (generation : Z) : EthercatMailbox :=
  mkMailbox (mb_slave m) (mb_requests m) (mb_staged_request m) (mb_next_request_id m)
    (mb_open_generation m) generation (mb_health m).

Definition with_health (m : EthercatMailbox) (h : TransportHealth) : EthercatMailbox :=
  mkMailbox (mb_slave m) (mb_requests m) (mb_staged_request m) (mb_next_request_id m)
    (mb_open_generation m) (mb_cancel_requested_generation m) h.

Definition kMaximumSdoUploadBytes : nat := 4096.
#[local] Arguments kMaximumSdoUploadBytes : simpl never.

(** The objects that fix the mode and the cycle time. *)
Definition static_mode_object (address : ObjectAddress) : bool :=
  (ob_index address =? 0x6060) || (ob_index address =? 0x60C2).

Definition sdo_failure_message (reason : SdoFailureReason) : string :=
  match reason with
  | none => "EtherCAT SDO transfer failed"
  | backend_exception => "EtherCAT SDO backend raised an exception"
  | endpoint_unavailable => "EtherCAT SDO endpoint is unavailable"
  | unsupported_download_size => "EtherCAT SDO download size is unsupported"
  | exact_size_request_unavailable => "EtherCAT exact-size SDO request is unavailable"
  | object_selection_failed => "EtherCAT SDO object selection failed"
  | download_schedule_failed => "EtherCAT SDO download scheduling failed"
  | conflicting_request => "A different EtherCAT SDO request is active"
  | invalid_upload_capacity => "EtherCAT SDO upload capacity is invalid"
  | upload_schedule_failed => "EtherCAT SDO upload scheduling failed"
  | upload_capacity_exceeded => "EtherCAT SDO upload exceeded its capacity"
  | transfer_failed => "EtherCAT SDO transfer failed"
  | unknown_request_state => "EtherCAT SDO request entered an unknown state"
  end.

(** ** The map of the requests *)

Fixpoint lookup (id : Z) (requests : list (Z * Request)) : option Request :=
  match requests with
  | [] => None
  | (id', r) :: requests => if id' =? id then Some r else lookup id requests
  end.

(** [try_emplace], with the entry in its place; [None] when the id is taken. *)
Fixpoint emplace (id : Z) (r : Request) (requests : list (Z * Request)) : option (list (Z * Request)) :=
  match requests with
  | [] => Some [(id, r)]
  | (id', r') :: rest =>
      if id <? id' then Some ((id, r) :: requests)
      else if id =? id' then None
      else match emplace id r rest with Some rest => Some ((id', r') :: rest) | None => None end
  end.

(** Store into the entry of an id. *)
Definition update (id : Z) (f : Request -> Request) (requests : list (Z * Request))
    : list (Z * Request) :=
  map (fun entry => if entry.1 =? id then (entry.1, f entry.2) else entry) requests.

(** ** Operations

    [active_generation] is the generation of the parent, which the master owns; [has_backend] is
    [backend_ != nullptr]. *)

Definition open (has_backend : bool) (active_generation : Z) (m : EthercatMailbox)
    : EthercatMailbox * Result unit :=
  if negb has_backend then (m, fail unavailable "EtherCAT mailbox has no backend")
  else if active_generation =? 0 then (m, fail unavailable "EtherCAT mailbox parent is closed")
  else if negb (mb_open_generation m =? 0) then
    (m, fail invalid_argument "EtherCAT mailbox is already open")
  else if negb (mb_cancel_requested_generation m =? 0) || bool_decide (mb_staged_request m <> None)
  then (m, fail unavailable "EtherCAT mailbox cancellation is awaiting an owner cycle")
  else (with_health (with_open m active_generation) healthy, success tt).

(** In the phase [terminalizing] the caller waits for the thread that is in it; no operation
    leaves that phase behind (see [MailboxRace] for the wait). *)
Definition fail_request (r : Request) : Request :=
  match rq_phase r with
  | phase_completed | phase_failed | terminalizing => r
  | queued | staged | active => fail_closed r
  end.

Definition close_generation (m : EthercatMailbox) (generation : Z) (request_cancel : bool)
    : EthercatMailbox :=
  let m := with_requests m
    (map (fun entry => if rq_generation entry.2 =? generation
                       then (entry.1, fail_request entry.2) else entry) (mb_requests m)) in
  if request_cancel then with_cancel m generation else m.

Definition close (m : EthercatMailbox) : EthercatMailbox :=
  let generation := mb_open_generation m in
  let m := with_open m 0 in
  let m := if negb (generation =? 0) then close_generation m generation true else m in
  with_health m failed.

Definition enqueue (active_generation : Z) (m : EthercatMailbox) (upload : bool)
    (address : ObjectAddress) (data : Bytes) : EthercatMailbox * Result Z :=
  let generation := mb_open_generation m in
  if (generation =? 0) || negb (active_generation =? generation) then
    (m, fail unavailable "EtherCAT mailbox is closed")
  else if (ob_index address =? 0) || (negb upload && bool_decide (data = [])) then
    (m, fail invalid_argument "invalid EtherCAT mailbox request")
  else if negb upload && static_mode_object address then
    (m, fail invalid_argument "runtime writes to static CiA 402 mode objects are forbidden")
  else
    let request_id := mb_next_request_id m in
    let m := mkMailbox (mb_slave m) (mb_requests m) (mb_staged_request m) (u64 (request_id + 1))
      (mb_open_generation m) (mb_cancel_requested_generation m) (mb_health m) in
    let r := mkRequest generation upload
      (mkSdo address (if upload then repeat 0 kMaximumSdoUploadBytes else data))
      queued no_failure io none 0 in
    match emplace request_id r (mb_requests m) with
    | None => (m, fail internal "EtherCAT mailbox request ID collision")
    | Some requests => (with_requests m requests, success request_id)
    end.

Definition queue_download (active_generation : Z) (m : EthercatMailbox) (address : ObjectAddress)
    (data : Bytes) : EthercatMailbox * Result Z := enqueue active_generation m false address data.

Definition queue_upload (active_generation : Z) (m : EthercatMailbox) (address : ObjectAddress)
    : EthercatMailbox * Result Z := enqueue active_generation m true address [].

Inductive MailboxRequestState := state_queued | state_completed | state_failed.

Record MailboxRequestStatus := mkStatus {
  ms_state : MailboxRequestState;
  ms_error : option Error;
  ms_uploaded_bytes : Bytes }.

Definition request_error (r : Request) : Error :=
  if bool_decide (rq_failure_kind r = backend_failure)
  then mkError (rq_backend_error_code r) (sdo_failure_message (rq_backend_failure_reason r))
  else mkError unavailable "EtherCAT mailbox closed before completion".

Definition mailbox_status (m : EthercatMailbox) (request_id : Z) : option MailboxRequestStatus :=
  match lookup request_id (mb_requests m) with
  | None => None
  | Some r =>
      let size := Nat.min (rq_uploaded_size r) (length (sdo_data (rq_transfer r))) in
      Some
        (match rq_phase r with
         | phase_completed =>
             mkStatus state_completed None
               (if rq_upload r then take size (sdo_data (rq_transfer r)) else [])
         | phase_failed => mkStatus state_failed (Some (request_error r)) []
         | terminalizing =>
             if negb (mb_open_generation m =? rq_generation r)
             then mkStatus state_failed (Some (request_error r)) []
             else mkStatus state_queued None []
         | queued | staged | active => mkStatus state_queued None []
         end)
  end.

(** The first queued request of a generation. *)
Fixpoint find_queued (generation : Z) (requests : list (Z * Request)) : option Z :=
  match requests with
  | [] => None
  | (id, r) :: requests =>
      if (rq_generation r =? generation) && bool_decide (rq_phase r = queued) then Some id
      else find_queued generation requests
  end.

Definition stage_one (active_generation : Z) (m : EthercatMailbox) : EthercatMailbox :=
  if bool_decide (mb_staged_request m <> None) then m
  else
    let generation := mb_open_generation m in
    if (generation =? 0) || negb (active_generation =? generation) then m
    else
      match find_queued generation (mb_requests m) with
      | None => m
      | Some id =>
          with_staged (with_requests m (update id (fun r => with_phase r staged) (mb_requests m)))
            (Some id)
      end.

Definition cycle (active_generation : Z) (m : EthercatMailbox) : EthercatMailbox :=
  let generation := mb_open_generation m in
  if (generation =? 0) || negb (active_generation =? generation) then with_health m failed
  else stage_one active_generation m.

Definition open_for_parent (m : EthercatMailbox) (parent_generation : Z)
    : EthercatMailbox * Result unit :=
  if (parent_generation =? 0) || negb (mb_open_generation m =? 0) ||
     negb (mb_cancel_requested_generation m =? 0) || bool_decide (mb_staged_request m <> None)
  then (m, fail unavailable "EtherCAT mailbox has stale lifecycle state")
  else (with_health (with_open m parent_generation) healthy, success tt).

Definition close_for_parent (m : EthercatMailbox) (parent_generation : Z) : EthercatMailbox :=
  let m := if mb_open_generation m =? parent_generation then with_open m 0 else m in
  with_health (close_generation m parent_generation false) failed.

Definition reset_after_parent_deactivate (m : EthercatMailbox) : EthercatMailbox :=
  with_health (with_open (with_cancel (with_staged m None) 0) 0) failed.

Section Backend.
Context {B : Type} `{EthercatBackend B}.

(** One bounded step of the transfer of a request; an exception is a failure. *)
Definition progress_transfer (backend : B) (slave : EthercatSlaveAddress) (r : Request)
    : B * Request * SdoTransferProgress :=
  let failed_progress := mkProgress sdo_state_failed internal backend_exception 0 in
  if rq_upload r then
    let '(backend, data, progress) :=
      be_progress_upload_sdo backend slave (sdo_address (rq_transfer r)) (sdo_data (rq_transfer r)) in
    (backend, with_data r data, default failed_progress progress)
  else
    let '(backend, progress) := be_progress_download_sdo backend slave (rq_transfer r) in
    (backend, r, default failed_progress progress).

(** The terminal phase of a request, and the health of the mailbox with it. *)
Definition terminalize (still_current : bool) (progress : SdoTransferProgress) (r : Request)
    : Request * TransportHealth :=
  if bool_decide (sp_state progress = completed) && still_current &&
     (negb (rq_upload r) || (sp_uploaded_size progress <=? length (sdo_data (rq_transfer r)))%nat)
  then (complete r (sp_uploaded_size progress), healthy)
  else if still_current
  then (fail_backend r (sp_error_code progress) (sp_failure_reason progress), degraded)
  else (fail_closed r, failed).

Definition cancel_step (backend : B) (m : EthercatMailbox) : B * EthercatMailbox :=
  match be_progress_cancel_sdo backend (mb_slave m) with
  | (backend, None) => (backend, with_health m degraded)
  | (backend, Some cancellation) =>
      let m := if bool_decide (sp_state cancellation = completed)
               then with_cancel (with_staged m None) 0 else m in
      let m := if bool_decide (sp_state cancellation = sdo_state_failed)
               then with_health m failed else m in
      (backend, m)
  end.

Definition transfer_step (backend : B) (active_generation parent_generation : Z)
    (m : EthercatMailbox) (id : Z) (r : Request) : B * EthercatMailbox :=
  let '(backend, r, progress) := progress_transfer backend (mb_slave m) r in
  let store := fun r m => with_requests m (update id (fun _ => r) (mb_requests m)) in
  if bool_decide (sp_state progress = pending) then (backend, store r m)
  else
    let still_current := (active_generation =? parent_generation) &&
                         (mb_open_generation m =? parent_generation) in
    let '(r, h) := terminalize still_current progress r in
    (backend, with_staged (with_health (store r m) h) None).

Definition owner_step (backend : B) (active_generation parent_generation : Z)
    (m : EthercatMailbox) : B * EthercatMailbox * bool :=
  if negb (mb_cancel_requested_generation m =? 0) then (cancel_step backend m, true)
  else
    match mb_staged_request m with
    | None => (backend, m, false)
    | Some id =>
        match lookup id (mb_requests m) with
        | None => (backend, m, false)
        | Some r =>
            if negb (rq_generation r =? parent_generation) ||
               negb (active_generation =? parent_generation) ||
               negb (mb_open_generation m =? parent_generation)
            then (backend, m, false)
            else
              match rq_phase r with
              | staged | active =>
                  (transfer_step backend active_generation parent_generation m id
                     (with_phase r active), true)
              | _ => (backend, m, false)
              end
        end
    end.

End Backend.

(** ** The map of the requests *)

Lemma lookup_update id f id' requests :
  lookup id' (update id f requests) =
    if id' =? id then option_map f (lookup id' requests) else lookup id' requests.
Proof.
  unfold update. induction requests as [|[k r] requests IH]; cbn; [by destruct (id' =? id)|].
  destruct (Z.eqb_spec k id) as [->|Hk]; cbn; rewrite IH.
  - destruct (Z.eqb_spec id id') as [->|Hi]; [by rewrite Z.eqb_refl|].
    by rewrite (proj2 (Z.eqb_neq id' id)) by lia.
  - destruct (Z.eqb_spec k id') as [->|Hi]; [|done]. by rewrite (proj2 (Z.eqb_neq id' id)).
Qed.

Definition sorted_keys (requests : list (Z * Request)) : Prop :=
  StronglySorted Z.lt (map fst requests).

Lemma lookup_below id requests :
  Forall (fun k => id < k) (map fst requests) -> lookup id requests = None.
Proof.
  induction requests as [|[k r] requests IH]; cbn; [done|].
  intros [Hk Hr]%Forall_cons. rewrite (proj2 (Z.eqb_neq k id)) by lia. auto.
Qed.

Lemma emplace_keys id r requests requests' k :
  emplace id r requests = Some requests' -> Forall (fun i => k < i) (map fst requests) -> k < id ->
  Forall (fun i => k < i) (map fst requests').
Proof.
  revert requests'. induction requests as [|[k' r'] requests IH]; intros requests'; cbn.
  { intros [= <-] _ Hk. by constructor. }
  destruct (id <? k') eqn:E1; [intros [= <-] Hf Hk; by constructor|].
  destruct (id =? k') eqn:E2; [done|].
  destruct (emplace id r requests) eqn:E3; [|done].
  intros [= <-] [Hf1 Hf2]%Forall_cons Hk. constructor; [done|]. by eapply IH.
Qed.

Lemma sorted_emplace id r requests requests' :
  emplace id r requests = Some requests' -> sorted_keys requests -> sorted_keys requests'.
Proof.
  unfold sorted_keys. revert requests'.
  induction requests as [|[k' r'] requests IH]; intros requests'; cbn.
  { intros [= <-] _. repeat constructor. }
  destruct (id <? k') eqn:E1.
  { intros [= <-] Hs. apply Z.ltb_lt in E1. inversion Hs as [|? ? Hs1 Hs2]; subst.
    cbn. constructor; [done|]. constructor; [done|]. eapply Forall_impl; [exact Hs2|]. cbn; lia. }
  destruct (id =? k') eqn:E2; [done|]. apply Z.ltb_ge in E1. apply Z.eqb_neq in E2.
  destruct (emplace id r requests) eqn:E3; [|done].
  intros [= <-] Hs. inversion Hs as [|? ? Hs1 Hs2]; subst. cbn. constructor; [by apply IH|].
  eapply emplace_keys; [done|done|lia].
Qed.

Lemma lookup_emplace id r requests requests' id' :
  emplace id r requests = Some requests' ->
  lookup id' requests' = if id' =? id then Some r else lookup id' requests.
Proof.
  revert requests'. induction requests as [|[k r'] requests IH]; intros requests'; cbn.
  { intros [= <-]. cbn. by rewrite (Z.eqb_sym id' id). }
  destruct (id <? k) eqn:E1.
  { intros [= <-]. cbn. rewrite (Z.eqb_sym id' id). apply Z.ltb_lt in E1.
    by destruct (Z.eqb_spec id id'). }
  destruct (Z.eqb_spec id k) as [|Hk]; [done|].
  destruct (emplace id r requests) as [rest|] eqn:E3; [|done]. intros [= <-]. cbn.
  rewrite (IH _ eq_refl). destruct (Z.eqb_spec k id') as [->|]; [|done].
  by rewrite (proj2 (Z.eqb_neq id' id)) by lia.
Qed.

Lemma emplace_fresh id r requests requests' :
  sorted_keys requests -> emplace id r requests = Some requests' -> lookup id requests = None.
Proof.
  unfold sorted_keys. revert requests'.
  induction requests as [|[k r'] requests IH]; intros requests' Hs; cbn; [done|].
  inversion Hs as [|? ? Hs1 Hs2]; subst.
  destruct (id <? k) eqn:E1.
  { intros _. apply Z.ltb_lt in E1. rewrite (proj2 (Z.eqb_neq k id)) by lia. apply lookup_below.
    eapply Forall_impl; [exact Hs2|]. cbn; lia. }
  destruct (Z.eqb_spec id k) as [|Hk]; [done|].
  destruct (emplace id r requests) as [rest|] eqn:E3; [|done]. intros _.
  rewrite (proj2 (Z.eqb_neq k id)) by lia. eauto.
Qed.

Lemma keys_map (f : Z * Request -> Z * Request) requests :
  (forall entry, (f entry).1 = entry.1) -> map fst (map f requests) = map fst requests.
Proof. intros Hf. rewrite map_map. by apply map_ext. Qed.

Lemma keys_update id f requests : map fst (update id f requests) = map fst requests.
Proof. apply keys_map. intros [k r]; cbn. by destruct (k =? id). Qed.

Lemma lookup_close generation id requests :
  lookup id (map (fun entry => if rq_generation entry.2 =? generation
                       then (entry.1, fail_request entry.2) else entry) requests) =
  option_map (fun r => if rq_generation r =? generation then fail_request r else r)
    (lookup id requests).
Proof.
  induction requests as [|[k r] requests IH]; cbn; [done|].
  destruct (rq_generation r =? generation) eqn:E; cbn; destruct (k =? id); cbn; rewrite ?E; auto.
Qed.

Lemma find_queued_spec generation requests id :
  sorted_keys requests -> find_queued generation requests = Some id ->
  exists r, lookup id requests = Some r /\ rq_generation r = generation /\ rq_phase r = queued.
Proof.
  unfold sorted_keys. induction requests as [|[k r] requests IH]; cbn; [done|].
  intros Hs. inversion Hs as [|? ? Hs1 Hs2]; subst.
  destruct (_ && _) eqn:E.
  - intros [= ->]. rewrite Z.eqb_refl. apply andb_true_iff in E as [E1 E2].
    apply Z.eqb_eq in E1. apply bool_decide_eq_true in E2. eauto.
  - intros Hf. destruct (IH Hs1 Hf) as (r' & Hl & Hr). exists r'. split; [|done].
    destruct (Z.eqb_spec k id) as [->|]; [|done].
    rewrite lookup_below in Hl by done. done.
Qed.

Lemma find_queued_exists generation requests id r :
  lookup id requests = Some r -> rq_generation r = generation -> rq_phase r = queued ->
  exists id', find_queued generation requests = Some id'.
Proof.
  induction requests as [|[k r'] requests IH]; cbn; [done|].
  destruct (_ && _) eqn:E; [eauto|].
  destruct (Z.eqb_spec k id) as [->|]; [|done].
  intros [= ->] Hg Hq. by rewrite Hg, Hq, Z.eqb_refl in E.
Qed.

(** ** The invariant *)

Definition terminal (r : Request) : Prop := rq_phase r = phase_completed \/ rq_phase r = phase_failed.

Record mailbox_inv (active_generation : Z) (m : EthercatMailbox) : Prop := {
  mi_sorted : sorted_keys (mb_requests m);
  (* a live request belongs to the open generation, and no thread is inside a terminal transition *)
  mi_live : forall id r, lookup id (mb_requests m) = Some r ->
    terminal r \/
    (rq_phase r <> terminalizing /\ rq_generation r = mb_open_generation m /\ mb_open_generation m <> 0);
  (* at most one request is with the owner *)
  mi_staged : forall id r, lookup id (mb_requests m) = Some r ->
    rq_phase r = staged \/ rq_phase r = active -> mb_staged_request m = Some id;
  (* the staged request is live, or its cancellation is pending *)
  mi_pointer : forall id, mb_staged_request m = Some id ->
    exists r, lookup id (mb_requests m) = Some r /\
      (rq_phase r = staged \/ rq_phase r = active \/
       rq_phase r = phase_failed /\ mb_cancel_requested_generation m <> 0);
  mi_open : mb_open_generation m <> 0 ->
    mb_cancel_requested_generation m = 0 /\ mb_open_generation m = active_generation }.

(** A request that reached a terminal phase never changes again. *)
Definition keeps (m m' : EthercatMailbox) : Prop :=
  forall id r, lookup id (mb_requests m) = Some r -> terminal r -> lookup id (mb_requests m') = Some r.

Definition preserves (active active' : Z) (m m' : EthercatMailbox) : Prop :=
  mailbox_inv active m -> mailbox_inv active' m' /\ keeps m m'.

Lemma keeps_same m m' : mb_requests m' = mb_requests m -> keeps m m'.
Proof. intros He id r. by rewrite He. Qed.

Lemma terminal_fail r : terminal r -> fail_request r = r.
Proof. unfold terminal, fail_request. by intros [-> | ->]. Qed.

Lemma fail_request_terminal r : rq_phase r <> terminalizing -> terminal (fail_request r).
Proof. unfold terminal, fail_request. destruct (rq_phase r) eqn:E; cbn; tauto. Qed.

Lemma fail_request_phase r :
  rq_phase (fail_request r) = staged \/ rq_phase (fail_request r) = active -> False.
Proof. unfold fail_request. destruct (rq_phase r) eqn:E; cbn; rewrite ?E; intuition done. Qed.

(** Opening: nothing is staged and no cancellation is pending. *)
Lemma opened active m generation :
  mb_open_generation m = 0 -> mb_cancel_requested_generation m = 0 -> mb_staged_request m = None ->
  preserves active generation m (with_health (with_open m generation) healthy).
Proof.
  intros Ho Hc Hs []. split; [|by apply keeps_same].
  split; cbn; auto; try congruence.
  intros id r Hl. destruct (mi_live0 id r Hl) as [|(? & ? & ?)]; [by left|congruence].
Qed.

Lemma open_preserves has_backend active m :
  preserves active active m (open has_backend active m).1.
Proof.
  unfold open. repeat case_match; try (intros Hi; split; [exact Hi|by apply keeps_same]).
  apply opened.
  - by destruct (mb_open_generation m =? 0) eqn:E; [apply Z.eqb_eq in E|].
  - by destruct (mb_cancel_requested_generation m =? 0) eqn:E; [apply Z.eqb_eq in E|].
  - apply orb_false_iff in H2 as [_ H2]. apply bool_decide_eq_false in H2. by apply dec_stable in H2.
Qed.

(** Closing the open generation, with or without a request to the owner to cancel. *)
Lemma closed_all active active' m generation cancel h :
  mb_open_generation m = 0 \/ mb_open_generation m = generation ->
  (cancel = true -> generation <> 0) -> cancel = true \/ mb_staged_request m = None ->
  preserves active active' m (with_health (close_generation (with_open m 0) generation cancel) h).
Proof.
  intros Hg Hc Hst [Hsorted Hlive Hstaged Hpointer Hopen].
  assert (forall id r, lookup id (mb_requests m) = Some r ->
    terminal (if rq_generation r =? generation then fail_request r else r)) as Ht.
  { intros id r Hl. destruct (Hlive id r Hl) as [Ht|(Hp & Hr & Ho)].
    - rewrite terminal_fail by done. by destruct (_ =? _).
    - replace generation with (rq_generation r) by lia. rewrite Z.eqb_refl.
      by apply fail_request_terminal. }
  split.
  - split; unfold close_generation; destruct cancel; cbn; try done.
    1, 2: unfold sorted_keys; rewrite keys_map; [done|intros [k r]; cbn; by destruct (_ =? _)].
    all: rewrite ?lookup_close.
    1, 2: intros id r; rewrite lookup_close;
      destruct (lookup id (mb_requests m)) as [r0|] eqn:El; [cbn|done]; intros [= <-]; left; eauto.
    1, 2: intros id r; rewrite lookup_close;
      destruct (lookup id (mb_requests m)) as [r0|] eqn:El; [cbn|done]; intros [= <-] Hp;
      exfalso; specialize (Ht _ _ El); destruct Hp as [Hp|Hp], Ht as [Ht|Ht]; congruence.
    + intros id Hs. destruct (Hpointer id Hs) as (r & Hl & Hp). rewrite lookup_close, Hl. cbn.
      eexists. split; [done|]. right; right. split; [|by auto].
      specialize (Ht _ _ Hl). unfold fail_request in *.
      destruct Hp as [Hp|[Hp|[Hp _]]]; rewrite Hp in *; destruct (_ =? _); cbn in *; try done;
        destruct Ht; congruence.
    + destruct Hst as [|Hst]; [done|]. intros id. by rewrite Hst.
  - intros id r Hl Hr. cbn. unfold close_generation.
    destruct cancel; cbn; rewrite lookup_close, Hl; cbn; rewrite terminal_fail by done;
      by destruct (_ =? _).
Qed.

Lemma close_preserves active m : preserves active active m (close m).
Proof.
  unfold close. destruct (Z.eqb_spec (mb_open_generation m) 0) as [E|E]; cbn.
  - intros []. split; [|by apply keeps_same]. split; cbn; auto; try done.
    intros id r Hl. rewrite E in mi_live0. destruct (mi_live0 id r Hl) as [|(? & ? & ?)]; [by left|done].
  - apply (closed_all active active m (mb_open_generation m) true failed); auto.
Qed.

(** A fresh live request. *)
Lemma inserted active m r requests :
  rq_generation r = mb_open_generation m -> mb_open_generation m <> 0 -> rq_phase r = queued ->
  emplace (mb_next_request_id m) r (mb_requests m) = Some requests ->
  preserves active active m
    (mkMailbox (mb_slave m) requests (mb_staged_request m) (u64 (mb_next_request_id m + 1))
      (mb_open_generation m) (mb_cancel_requested_generation m) (mb_health m)).
Proof.
  intros Hg Ho Hq He [Hsorted Hlive Hstaged Hpointer Hopen].
  pose proof (emplace_fresh _ _ _ _ Hsorted He) as Hf.
  pose proof (fun id => lookup_emplace _ _ _ _ id He) as Hl.
  split; [split; cbn; auto|].
  - by eapply sorted_emplace.
  - intros id r'. rewrite Hl. destruct (Z.eqb_spec id (mb_next_request_id m)); [|by apply Hlive].
    intros [= <-]. right. by rewrite Hq.
  - intros id r'. rewrite Hl. destruct (Z.eqb_spec id (mb_next_request_id m)); [|by apply Hstaged].
    intros [= <-]. rewrite Hq. intuition done.
  - intros id Hs. destruct (Hpointer id Hs) as (r' & Hlr & Hp). exists r'. split; [|done].
    rewrite Hl. destruct (Z.eqb_spec id (mb_next_request_id m)) as [->|]; congruence.
  - intros id r' Hlr _. cbn. rewrite Hl.
    destruct (Z.eqb_spec id (mb_next_request_id m)) as [->|]; congruence.
Qed.

Lemma enqueue_preserves active m upload address data :
  preserves active active m (enqueue active m upload address data).1.
Proof.
  unfold enqueue. destruct (_ || _) eqn:E1; [intros Hi; split; [exact Hi|by apply keeps_same]|].
  destruct (_ || _) eqn:E2 in |- *; [intros Hi; split; [exact Hi|by apply keeps_same]|].
  destruct (_ && _) in |- *; [intros Hi; split; [exact Hi|by apply keeps_same]|].
  cbn [mb_requests mb_slave mb_staged_request mb_next_request_id mb_open_generation
       mb_cancel_requested_generation mb_health].
  destruct (emplace _ _ _) as [requests|] eqn:Ee; cbn [fst].
  - apply orb_false_iff in E1 as [E1 _]. apply Z.eqb_neq in E1.
    refine (inserted active m _ requests _ _ _ Ee); done.
  - intros Hi. split; [split; cbn; apply Hi|by apply keeps_same].
Qed.

Lemma with_health_preserves active m h : preserves active active m (with_health m h).
Proof. intros []. split; [by split|by apply keeps_same]. Qed.

Lemma stage_one_preserves active m : preserves active active m (stage_one active m).
Proof.
  unfold stage_one. repeat case_match; try (intros Hi; split; [exact Hi|by apply keeps_same]).
  apply bool_decide_eq_false, dec_stable in H. apply orb_false_iff in H0 as [H0 _].
  apply Z.eqb_neq in H0. intros [Hsorted Hlive Hstaged Hpointer Hopen].
  destruct (find_queued_spec _ _ _ Hsorted H1) as (q & Hq & Hg & Hp).
  split; [split; cbn; auto|].
  - unfold sorted_keys. by rewrite keys_update.
  - intros id r. rewrite lookup_update.
    destruct (Z.eqb_spec id z) as [->|]; [|by apply Hlive]. rewrite Hq. intros [= <-]. right. cbn. done.
  - intros id r. rewrite lookup_update. destruct (Z.eqb_spec id z) as [->|]; [done|].
    intros Hl Hr. by rewrite (Hstaged _ _ Hl Hr) in H.
  - intros id [= <-]. rewrite lookup_update, Z.eqb_refl, Hq. eexists. split; [done|]. by left.
  - intros id r Hl Hr. cbn. rewrite lookup_update. destruct (Z.eqb_spec id z) as [->|]; [|done].
    destruct Hr; congruence.
Qed.

Lemma cycle_preserves active m : preserves active active m (cycle active m).
Proof.
  unfold cycle. destruct (_ || _); [apply with_health_preserves|apply stage_one_preserves].
Qed.

Lemma open_for_parent_preserves active m generation :
  match open_for_parent m generation with
  | (m', success _) => preserves active generation m m'
  | (m', failure _) => m' = m
  end.
Proof.
  unfold open_for_parent. destruct (_ || _ || _ || _) eqn:E; [done|].
  apply orb_false_iff in E as [[[_ E1]%orb_false_iff E2]%orb_false_iff E3].
  apply negb_false_iff, Z.eqb_eq in E1, E2. apply bool_decide_eq_false, dec_stable in E3.
  by apply opened.
Qed.

(** The parent closes its mailbox, deactivates the backend, and resets the mailbox. *)
Lemma parent_close_preserves active m generation :
  generation <> 0 -> mb_open_generation m = 0 \/ mb_open_generation m = generation ->
  preserves active 0 m (reset_after_parent_deactivate (close_for_parent m generation)).
Proof.
  intros H0 Hg Hi. destruct (closed_all active 0 m generation true failed) as [Hc Hk]; auto.
  assert (mb_requests (reset_after_parent_deactivate (close_for_parent m generation)) =
    mb_requests (with_health (close_generation (with_open m 0) generation true) failed)) as E
    by (unfold close_for_parent; by destruct (_ =? _)).
  split; [|intros id r; rewrite E; apply Hk].
  destruct Hc as [Hsorted Hlive Hstaged Hpointer Hopen]. rewrite <- E in *.
  split; [done| | |done|done].
  - intros id r Hl. destruct (Hlive id r Hl) as [|(? & ? & ?)]; [by left|done].
  - intros id r Hl Hr. destruct (Hlive id r Hl) as [[Ht|Ht]|(? & ? & ?)]; [| |done];
      destruct Hr; congruence.
Qed.

(** Storing the staged request back, still with the owner or terminal. *)
Lemma staged_stored active m id r0 r staged_after h :
  mb_staged_request m = Some id -> lookup id (mb_requests m) = Some r0 ->
  mb_cancel_requested_generation m = 0 -> rq_generation r = rq_generation r0 ->
  (rq_phase r = SdoMailbox.active /\ staged_after = Some id) \/ (terminal r /\ staged_after = None) ->
  preserves active active m
    (with_staged (with_health (with_requests m (update id (fun _ => r) (mb_requests m))) h)
       staged_after).
Proof.
  intros Hs Hl0 Hc Hg Hr [Hsorted Hlive Hstaged Hpointer Hopen].
  destruct (Hpointer id Hs) as (r1 & Hl1 & Hp). rewrite Hl0 in Hl1. injection Hl1 as <-.
  assert (rq_phase r0 = staged \/ rq_phase r0 = SdoMailbox.active) as Hp0 by (intuition done).
  split; [split; cbn; auto|].
  - unfold sorted_keys. by rewrite keys_update.
  - intros id' r'. rewrite lookup_update. destruct (Z.eqb_spec id' id) as [->|]; [|by apply Hlive].
    rewrite Hl0. intros [= <-]. destruct Hr as [[Hr _]|[Hr _]]; [right|by left].
    destruct (Hlive id r0 Hl0) as [[Ht|Ht]|(_ & Hg' & Ho)].
    1, 2: destruct Hp0; congruence. rewrite Hr, Hg. done.
  - intros id' r'. rewrite lookup_update. destruct (Z.eqb_spec id' id) as [->|Hn].
    + rewrite Hl0. intros [= <-] Hp1. destruct Hr as [[_ Hr]|[Ht _]]; [done|].
      destruct Ht, Hp1; congruence.
    + intros Hl' Hp'. pose proof (Hstaged _ _ Hl' Hp'). congruence.
  - intros id' Hs'. destruct Hr as [[Hr ->]|[_ ->]]; [|done]. injection Hs' as <-.
    rewrite lookup_update, Z.eqb_refl, Hl0. cbn. eauto.
  - intros id' r' Hl' Ht. cbn. rewrite lookup_update.
    destruct (Z.eqb_spec id' id) as [->|]; [|done]. destruct Ht, Hp0; congruence.
Qed.

Lemma with_health_same m : with_health m (mb_health m) = m.
Proof. by destruct m. Qed.

Lemma with_staged_same m : with_staged m (mb_staged_request m) = m.
Proof. by destruct m. Qed.

Section Owner.
Context {B : Type} `{EthercatBackend B}.

Lemma cancel_step_preserves (backend : B) active m :
  mb_cancel_requested_generation m <> 0 -> preserves active active m (cancel_step backend m).2.
Proof.
  unfold cancel_step. intros Hc. destruct (be_progress_cancel_sdo backend (mb_slave m)) as [b [p|]];
    [|apply with_health_preserves]. cbn [snd].
  intros [Hsorted Hlive Hstaged Hpointer Hopen].
  assert (mb_open_generation m = 0) as Ho.
  { destruct (Z.eq_dec (mb_open_generation m) 0) as [|Hn]; [done|]. by destruct (Hopen Hn). }
  split; [|apply keeps_same; by repeat case_bool_decide].
  assert (forall id r, lookup id (mb_requests m) = Some r -> terminal r) as Ht.
  { intros id r Hl. destruct (Hlive id r Hl) as [|(_ & _ & ?)]; done. }
  assert (forall id r, lookup id (mb_requests m) = Some r ->
    rq_phase r = staged \/ rq_phase r = SdoMailbox.active -> False) as Hn.
  { intros id r Hl Hp. destruct (Ht _ _ Hl), Hp; congruence. }
  do 2 case_bool_decide; split; cbn; auto; try done; intros ? ? Hl Hp; by destruct (Hn _ _ Hl Hp).
Qed.

Lemma progress_transfer_request (backend : B) slave r :
  let '(_, r', _) := progress_transfer backend slave r in
  rq_phase r' = rq_phase r /\ rq_generation r' = rq_generation r /\ rq_upload r' = rq_upload r.
Proof.
  unfold progress_transfer. destruct (rq_upload r) eqn:E.
  - by destruct (be_progress_upload_sdo _ _ _ _) as [[? ?] ?].
  - by destruct (be_progress_download_sdo _ _ _) as [? ?].
Qed.

Lemma terminalize_request current progress r :
  terminal (terminalize current progress r).1 /\
  rq_generation (terminalize current progress r).1 = rq_generation r.
Proof. unfold terminalize, terminal. destruct (_ && _ && _); [|destruct current]; cbn; auto. Qed.

Lemma owner_step_preserves (backend : B) active parent m :
  preserves active active m (owner_step backend active parent m).1.2.
Proof.
  unfold owner_step. destruct (Z.eqb_spec (mb_cancel_requested_generation m) 0) as [Hc|Hc]; cbn [negb].
  2: { pose proof (cancel_step_preserves backend active m Hc) as Hp. by destruct (cancel_step backend m). }
  assert (preserves active active m m) as Hid by (intros Hi; split; [exact Hi|by apply keeps_same]).
  destruct (mb_staged_request m) as [id|] eqn:Es; [|done].
  destruct (lookup id (mb_requests m)) as [r0|] eqn:El; [|done].
  destruct (_ || _ || _); [done|].
  destruct (rq_phase r0) eqn:Ep; try done; unfold transfer_step.
  1, 2: pose proof (progress_transfer_request backend (mb_slave m) (with_phase r0 SdoMailbox.active)) as Hr;
    destruct (progress_transfer _ _ _) as [[b r] p]; destruct Hr as (Hr1 & Hr2 & _); cbn in Hr1, Hr2;
    destruct (bool_decide (sp_state p = pending)); cbn [fst snd].
  1, 3: rewrite <- (with_staged_same (with_requests _ _)), <- (with_health_same (with_requests _ _));
    eapply staged_stored; eauto; by left.
  all: pose proof (terminalize_request ((active =? parent) && (mb_open_generation m =? parent)) p r) as Ht;
    destruct (terminalize _ p r) as [r' h]; destruct Ht as [Ht1 Ht2]; cbn [fst snd] in *;
    eapply staged_stored; eauto; rewrite Ht2, Hr2; done.
Qed.

End Owner.

(** ** Runs

    A mailbox with its backend and its parent.  The parent opens it with a new generation, and
    closes it by clearing its generation, closing the mailbox, deactivating the backend and
    resetting the mailbox; it lets the owner step only while it is open. *)

Inductive Op :=
  | op_open | op_close | op_download (address : ObjectAddress) (data : Bytes)
  | op_upload (address : ObjectAddress) | op_cycle | op_owner
  | op_parent_open (generation : Z) | op_parent_close.

Record System (B : Type) := mkSystem {
  sys_backend : B;
  sys_generation : Z;
  sys_mailbox : EthercatMailbox }.
Arguments mkSystem {B}.
Arguments sys_backend {B}.
Arguments sys_generation {B}.
Arguments sys_mailbox {B}.

Definition apply_op {B} `{EthercatBackend B} (s : System B) (op : Op) : System B :=
  let b := sys_backend s in let g := sys_generation s in let m := sys_mailbox s in
  match op with
  | op_open => mkSystem b g (open true g m).1
  | op_close => mkSystem b g (close m)
  | op_download address data => mkSystem b g (queue_download g m address data).1
  | op_upload address => mkSystem b g (queue_upload g m address).1
  | op_cycle => mkSystem b g (cycle g m)
  | op_owner =>
      if g =? 0 then s
      else let '(b, m, _) := owner_step b g g m in mkSystem b g m
  | op_parent_open generation =>
      if negb (g =? 0) then s
      else
        match open_for_parent m generation with
        | (m, success _) => mkSystem b generation m
        | (m, failure _) => s
        end
  | op_parent_close =>
      if g =? 0 then s
      else mkSystem (be_deactivate b) 0 (reset_after_parent_deactivate (close_for_parent m g))
  end.

Definition run_ops {B} `{EthercatBackend B} (s : System B) (ops : list Op) : System B :=
  fold_left apply_op ops s.

(** *** What the backend sees

    [Logged B] records the transfer steps of a backend, newest first. *)

Definition Transfer : Type := bool * ObjectAddress * Bytes.

Inductive SdoEvent :=
  | transfer_event (transfer : Transfer) (progress : option SdoTransferProgress)
  | cancel_event (progress : option SdoTransferProgress)
  | deactivate_event.

Definition Logged (B : Type) : Type := B * list SdoEvent.

#[export] Instance LoggedBackend {B} `{EthercatBackend B} : EthercatBackend (Logged B) := {|
  be_initialize b := let '(b1, r) := be_initialize b.1 in ((b1, b.2), r);
  be_configure_slave b c := let '(b1, r) := be_configure_slave b.1 c in ((b1, b.2), r);
  be_bind_pdo_entry b s a n := let '(b1, r) := be_bind_pdo_entry b.1 s a n in ((b1, b.2), r);
  be_activate b := let '(b1, r) := be_activate b.1 in ((b1, b.2), r);
  be_deactivate b := (be_deactivate b.1, deactivate_event :: b.2);
  be_receive b := (be_receive b.1, b.2);
  be_process_domain b := (be_process_domain b.1, b.2);
  be_process_image b := be_process_image b.1;
  be_set_process_image b i := (be_set_process_image b.1 i, b.2);
  be_queue_domain b := (be_queue_domain b.1, b.2);
  be_send b := (be_send b.1, b.2);
  be_domain_health b := be_domain_health b.1;
  be_progress_download_sdo b s q :=
    let '(b1, p) := be_progress_download_sdo b.1 s q in
    ((b1, transfer_event (false, sdo_address q, sdo_data q) p :: b.2), p);
  be_progress_upload_sdo b s a d :=
    let '(b1, d, p) := be_progress_upload_sdo b.1 s a d in
    ((b1, transfer_event (true, a, []) p :: b.2), d, p);
  be_progress_cancel_sdo b s :=
    let '(b1, p) := be_progress_cancel_sdo b.1 s in ((b1, cancel_event p :: b.2), p) |}.

Definition is_pending (progress : option SdoTransferProgress) : bool :=
  match progress with Some p => bool_decide (sp_state p = pending) | None => false end.

(** The transfer a log leaves unfinished: its last step was pending, and it was not cancelled. *)
Fixpoint in_progress (log : list SdoEvent) : option Transfer :=
  match log with
  | [] => None
  | transfer_event t p :: _ => if is_pending p then Some t else None
  | cancel_event p :: log =>
      match p with
      | Some p => if bool_decide (sp_state p = completed) then None else in_progress log
      | None => in_progress log
      end
  | deactivate_event :: _ => None
  end.

(** No step of one transfer comes while another one is unfinished. *)
Fixpoint exclusive (log : list SdoEvent) : Prop :=
  match log with
  | [] => True
  | transfer_event t _ :: log => exclusive log /\ (in_progress log = None \/ in_progress log = Some t)
  | _ :: log => exclusive log
  end.

Definition transfer_of (r : Request) : Transfer :=
  (rq_upload r, sdo_address (rq_transfer r), if rq_upload r then [] else sdo_data (rq_transfer r)).

(** The staged request, and what every request transfers, are kept. *)
Definition carries (m m' : EthercatMailbox) : Prop :=
  (forall id, mb_staged_request m = Some id -> mb_staged_request m' = Some id) /\
  (forall id r, lookup id (mb_requests m) = Some r ->
     exists r', lookup id (mb_requests m') = Some r' /\ transfer_of r' = transfer_of r).

Lemma carries_same m m' :
  mb_staged_request m' = mb_staged_request m -> mb_requests m' = mb_requests m -> carries m m'.
Proof. intros Hs Hr. split; [by rewrite Hs|]. rewrite Hr. eauto. Qed.

Lemma carries_close_generation m generation cancel : carries m (close_generation m generation cancel).
Proof.
  split; [by destruct cancel|]. intros id r Hl.
  exists (if rq_generation r =? generation then fail_request r else r). split.
  - unfold close_generation. by destruct cancel; cbn; rewrite lookup_close, Hl.
  - destruct (_ =? _); [|done]. unfold fail_request. by destruct (rq_phase r).
Qed.

Lemma carries_trans m m' m'' : carries m m' -> carries m' m'' -> carries m m''.
Proof.
  intros [Hs Hr] [Hs' Hr']. split; [auto|]. intros id r Hl.
  destruct (Hr id r Hl) as (r' & Hl' & Ht). destruct (Hr' id r' Hl') as (r'' & Hl'' & Ht').
  exists r''. by rewrite Ht'.
Qed.

Lemma carries_close m : carries m (close m).
Proof.
  unfold close. destruct (negb _); [|by apply carries_same].
  apply (carries_trans _ (with_open m 0)); [by apply carries_same|].
  apply (carries_trans _ (close_generation (with_open m 0) (mb_open_generation m) true));
    [apply carries_close_generation|by apply carries_same].
Qed.

Lemma carries_enqueue active m upload address data :
  mailbox_inv active m -> carries m (enqueue active m upload address data).1.
Proof.
  intros Hi. unfold enqueue.
  destruct (_ || _); [by apply carries_same|]. destruct (_ || _); [by apply carries_same|].
  destruct (_ && _); [by apply carries_same|].
  cbn [mb_requests mb_slave mb_staged_request mb_next_request_id mb_open_generation
       mb_cancel_requested_generation mb_health].
  destruct (emplace _ _ _) as [requests|] eqn:E; [|by apply carries_same]. split; [done|].
  intros id r Hl. exists r. cbn. rewrite (lookup_emplace _ _ _ _ _ E).
  pose proof (emplace_fresh _ _ _ _ (mi_sorted _ _ Hi) E).
  destruct (Z.eqb_spec id (mb_next_request_id m)) as [->|]; [congruence|done].
Qed.

Lemma carries_cycle active m : carries m (cycle active m).
Proof.
  unfold cycle, stage_one. destruct (_ || _); [by apply carries_same|].
  case_bool_decide as Hs; [by apply carries_same|].
  destruct (find_queued _ _) as [id|]; [|by apply carries_same].
  split; [by rewrite Hs|]. intros id' r Hl. cbn. rewrite lookup_update, Hl.
  destruct (id' =? id); eexists; by split.
Qed.

(** *** The log of a run *)

Record log_inv (m : EthercatMailbox) (log : list SdoEvent) : Prop := {
  li_exclusive : exclusive log;
  li_staged : forall t, in_progress log = Some t ->
    exists id r, mb_staged_request m = Some id /\ lookup id (mb_requests m) = Some r /\
      transfer_of r = t }.

Lemma log_inv_carries m m' log : carries m m' -> log_inv m log -> log_inv m' log.
Proof.
  intros [Hs Hr] [He Hp]. split; [done|]. intros t Ht.
  destruct (Hp t Ht) as (id & r & Hi & Hl & <-). destruct (Hr id r Hl) as (r' & ? & ?). eauto 6.
Qed.

Section Log.
Context {B : Type} `{EthercatBackend B}.

Lemma cancel_step_log (backend : Logged B) m :
  log_inv m backend.2 -> log_inv (cancel_step backend m).2 (cancel_step backend m).1.2.
Proof.
  intros [He Hp]. unfold cancel_step. cbn.
  destruct (be_progress_cancel_sdo backend.1 (mb_slave m)) as [b [p|]]; cbn.
  - split; cbn; [done|]. destruct (bool_decide (sp_state p = completed)) eqn:E; [done|].
    intros t Ht. destruct (Hp t Ht) as (id & r & ?). exists id, r.
    by destruct (bool_decide (sp_state p = sdo_state_failed)).
  - by split.
Qed.

Lemma transfer_step_log (backend : Logged B) active parent m id r0 r :
  mailbox_inv active m -> mb_staged_request m = Some id -> lookup id (mb_requests m) = Some r0 ->
  transfer_of r = transfer_of r0 -> log_inv m backend.2 ->
  log_inv (transfer_step backend active parent m id r).2
    (transfer_step backend active parent m id r).1.2.
Proof.
  intros Hi Hs Hl Hr [He Hp]. unfold transfer_step.
  assert (in_progress backend.2 = None \/ in_progress backend.2 = Some (transfer_of r)) as Hx.
  { destruct (in_progress backend.2) as [t|]; [right|by left].
    destruct (Hp t eq_refl) as (id' & r' & Hs' & Hl' & <-). congruence. }
  unfold progress_transfer. unfold transfer_of in Hx, Hr. destruct (rq_upload r) eqn:Eu; cbn.
  - destruct (be_progress_upload_sdo _ _ _ _) as [[b data] p]. cbn.
    destruct (bool_decide (sp_state (default _ p) = pending)) eqn:Ep; cbn.
    + split; cbn; [done|]. intros t Ht. exists id. eexists. split; [done|].
      rewrite lookup_update, Z.eqb_refl, Hl. split; [done|].
      unfold transfer_of; cbn. rewrite Eu. by destruct (is_pending p); simplify_eq.
    + destruct (terminalize _ _ _) as [r' h]. split; cbn; [done|].
      destruct p as [p|]; cbn in *; [by rewrite Ep|done].
  - destruct (be_progress_download_sdo _ _ _) as [b p]. cbn.
    destruct (bool_decide (sp_state (default _ p) = pending)) eqn:Ep; cbn.
    + split; cbn; [done|]. intros t Ht. exists id, r. split; [done|].
      rewrite lookup_update, Z.eqb_refl, Hl. split; [done|].
      unfold transfer_of. rewrite Eu. by destruct (is_pending p); simplify_eq.
    + destruct (terminalize _ _ _) as [r' h]. split; cbn; [done|].
      destruct p as [p|]; cbn in *; [by rewrite Ep|done].
Qed.

Lemma owner_step_log (backend : Logged B) active parent m :
  mailbox_inv active m -> log_inv m backend.2 ->
  log_inv (owner_step backend active parent m).1.2 (owner_step backend active parent m).1.1.2.
Proof.
  intros Hi Hg. unfold owner_step. destruct (negb (_ =? 0)).
  { pose proof (cancel_step_log backend m Hg). by destruct (cancel_step backend m). }
  destruct (mb_staged_request m) as [id|] eqn:Es; [|done].
  destruct (lookup id (mb_requests m)) as [r0|] eqn:El; [|done].
  destruct (_ || _ || _); [done|].
  pose proof (transfer_step_log backend active parent m id r0 (with_phase r0 SdoMailbox.active)
    Hi Es El eq_refl Hg).
  destruct (rq_phase r0); try done; by destruct (transfer_step _ _ _ _ _ _).
Qed.

Lemma apply_op_log (s : System (Logged B)) op :
  mailbox_inv (sys_generation s) (sys_mailbox s) -> log_inv (sys_mailbox s) (sys_backend s).2 ->
  log_inv (sys_mailbox (apply_op s op)) (sys_backend (apply_op s op)).2.
Proof.
  destruct s as [b g m]. cbn. intros Hi Hg. destruct op; cbn.
  - eapply log_inv_carries; [|exact Hg]. unfold open. cbn. by repeat case_match; apply carries_same.
  - eapply log_inv_carries; [apply carries_close|done].
  - eapply log_inv_carries; [by eapply carries_enqueue|done].
  - eapply log_inv_carries; [by eapply carries_enqueue|done].
  - eapply log_inv_carries; [apply carries_cycle|done].
  - destruct (g =? 0); [done|]. pose proof (owner_step_log b g g m Hi Hg).
    by destruct (owner_step b g g m) as [[b' m'] ?].
  - destruct (negb (g =? 0)); [done|]. unfold open_for_parent.
    destruct (_ || _ || _ || _); [done|]. eapply log_inv_carries; [|done]. by apply carries_same.
  - destruct (g =? 0); [done|]. split; cbn; [apply Hg|done].
Qed.

End Log.

Lemma apply_op_inv {B} `{EthercatBackend B} (s : System B) op :
  mailbox_inv (sys_generation s) (sys_mailbox s) ->
  mailbox_inv (sys_generation (apply_op s op)) (sys_mailbox (apply_op s op)) /\
  keeps (sys_mailbox s) (sys_mailbox (apply_op s op)).
Proof.
  destruct s as [b g m]. cbn. intros Hi.
  assert (mailbox_inv g m /\ keeps m m) as Hsame by (split; [done|by apply keeps_same]).
  destruct op; cbn.
  - exact (open_preserves true g m Hi).
  - exact (close_preserves g m Hi).
  - exact (enqueue_preserves g m false address data Hi).
  - exact (enqueue_preserves g m true address [] Hi).
  - exact (cycle_preserves g m Hi).
  - destruct (g =? 0); [done|]. pose proof (owner_step_preserves b g g m Hi).
    by destruct (owner_step b g g m) as [[b' m'] ?].
  - destruct (negb (g =? 0)); [done|].
    pose proof (open_for_parent_preserves g m generation) as Ho.
    by destruct (open_for_parent m generation) as [m' [|]]; [apply Ho|].
  - destruct (Z.eqb_spec g 0) as [|H0]; [done|]. cbn [sys_mailbox sys_generation].
    refine (parent_close_preserves g m g H0 _ Hi).
    destruct (Z.eq_dec (mb_open_generation m) 0) as [|Hn]; [by left|right]. by apply (mi_open _ _ Hi).
Qed.

Lemma run_ops_inv {B} `{EthercatBackend B} (s : System B) ops :
  mailbox_inv (sys_generation s) (sys_mailbox s) ->
  mailbox_inv (sys_generation (run_ops s ops)) (sys_mailbox (run_ops s ops)) /\
  keeps (sys_mailbox s) (sys_mailbox (run_ops s ops)).
Proof.
  revert s. induction ops as [|op ops IH]; intros s Hi; cbn; [split; [done|by apply keeps_same]|].
  destruct (apply_op_inv s op Hi) as (Hi' & Hk). destruct (IH (apply_op s op) Hi') as (Hi'' & Hk').
  split; [done|]. intros id r Hl Ht. by apply Hk'; [apply Hk|].
Qed.

Lemma run_ops_log {B} `{EthercatBackend B} (s : System (Logged B)) ops :
  mailbox_inv (sys_generation s) (sys_mailbox s) -> log_inv (sys_mailbox s) (sys_backend s).2 ->
  log_inv (sys_mailbox (run_ops s ops)) (sys_backend (run_ops s ops)).2.
Proof.
  revert s. induction ops as [|op ops IH]; intros s Hi Hg; cbn; [done|].
  apply IH; [by apply apply_op_inv|by apply apply_op_log].
Qed.

Lemma create_inv slave : mailbox_inv 0 (create slave) /\ log_inv (create slave) [].
Proof. split; split; try done. constructor. Qed.

Definition created {B} (backend : B) (slave : EthercatSlaveAddress) : System B :=
  mkSystem backend 0 (create slave).

(** C15. The backend sees one transfer at a time.  For every backend and every sequence of
    operations of the clients, the worker, the owner and the parent on a new mailbox, no step of a
    transfer reaches the backend while the last answer to another transfer was "pending", unless
    its cancellation completed or the backend was deactivated in between. *)
Theorem mailbox_transfers_exclusive {B} `{EthercatBackend B} (backend : B) slave ops :
  exclusive (sys_backend (run_ops (created (backend, []) slave) ops : System (Logged B))).2.
Proof.
  destruct (create_inv slave) as [Hi Hg].
  exact (li_exclusive _ _ (run_ops_log (created (backend, []) slave) ops Hi Hg)).
Qed.

(** A result is final.  Once the status of a request is completed or failed, no later
    operation changes it: neither its state, nor its error, nor its uploaded bytes; and
    [terminalizing], the phase a closing thread waits on, is never seen between operations. *)
Theorem mailbox_status_final {B} `{EthercatBackend B} (backend : B) slave ops ops' id status :
  let s := run_ops (created backend slave) ops in
  (forall r, lookup id (mb_requests (sys_mailbox s)) = Some r -> rq_phase r <> terminalizing) /\
  (mailbox_status (sys_mailbox s) id = Some status -> ms_state status <> state_queued ->
   mailbox_status (sys_mailbox (run_ops s ops')) id = Some status).
Proof.
  destruct (create_inv slave) as [Hi _].
  destruct (run_ops_inv (created backend slave) ops Hi) as [Hi' _]. cbn.
  set (s := run_ops (created backend slave) ops) in *. split.
  - intros r Hl. by destruct (mi_live _ _ Hi' id r Hl) as [[-> | ->]|(? & _)].
  - unfold mailbox_status at 1. destruct (lookup id (mb_requests (sys_mailbox s))) as [r|] eqn:El; [|done].
    intros Hst Hq. assert (terminal r) as Ht.
    { destruct (mi_live _ _ Hi' id r El) as [Ht|(Hp & _)]; [done|]. injection Hst as <-.
      unfold terminal. destruct (rq_phase r); cbn in Hq; try done; auto. }
    destruct (run_ops_inv s ops' Hi') as [_ Hk]. unfold mailbox_status. rewrite (Hk _ _ El Ht).
    destruct Ht as [E|E]; rewrite E in Hst |- *; exact Hst.
Qed.

(** *** A request is carried to its end *)

(** The backend finishes the transfer of a request in [n] steps, with a last answer. *)
Inductive finishes {B} `{EthercatBackend B} (slave : EthercatSlaveAddress)
    : B -> Request -> nat -> B -> Request -> SdoTransferProgress -> Prop :=
  | finishes_now backend r backend' r' progress :
      progress_transfer backend slave r = (backend', r', progress) -> sp_state progress <> pending ->
      finishes slave backend r 1 backend' r' progress
  | finishes_later backend r backend1 r1 progress1 n backend' r' progress :
      progress_transfer backend slave r = (backend1, r1, progress1) -> sp_state progress1 = pending ->
      finishes slave backend1 r1 n backend' r' progress ->
      finishes slave backend r (S n) backend' r' progress.

#[local] Arguments update : simpl never.

Section Finish.
Context {B : Type} `{EthercatBackend B}.

Lemma owner_step_transfers (b : B) g m id r0 :
  mb_open_generation m = g -> mb_cancel_requested_generation m = 0 ->
  mb_staged_request m = Some id -> lookup id (mb_requests m) = Some r0 ->
  rq_phase r0 = staged \/ rq_phase r0 = active -> rq_generation r0 = g ->
  owner_step b g g m = (transfer_step b g g m id (with_phase r0 active), true).
Proof.
  intros Ho Hc Hs Hl Hp Hg. unfold owner_step. rewrite Hc, Hs, Hl, Hg, Ho, !Z.eqb_refl. cbn.
  by destruct Hp as [-> | ->].
Qed.

Lemma run_owner_S (s : System B) n :
  run_ops s (repeat op_owner (S n)) = run_ops (apply_op s op_owner) (repeat op_owner n).
Proof. done. Qed.

Lemma owner_finishes slave (b : B) r n b' r' progress :
  finishes slave b r n b' r' progress ->
  forall g m id r0, g <> 0 -> mb_slave m = slave -> mb_open_generation m = g ->
  mb_cancel_requested_generation m = 0 -> mb_staged_request m = Some id ->
  lookup id (mb_requests m) = Some r0 -> with_phase r0 active = r ->
  rq_phase r0 = staged \/ rq_phase r0 = active -> rq_generation r0 = g ->
  let s := run_ops (mkSystem b g m) (repeat op_owner n) in
  sys_backend s = b' /\ mb_staged_request (sys_mailbox s) = None /\
  lookup id (mb_requests (sys_mailbox s)) = Some (terminalize true progress r').1.
Proof.
  induction 1 as [b r b' r' p Hpr Hn|b r b1 r1 p1 n b' r' p Hpr Hpend Hf IH];
    intros g m id r0 Hg Hsl Ho Hc Hs Hl Hr Hp Hgen; rewrite run_owner_S;
    cbn [apply_op sys_backend sys_generation sys_mailbox];
    rewrite (proj2 (Z.eqb_neq g 0)) by done;
    rewrite (owner_step_transfers b g m id r0) by done; unfold transfer_step;
    rewrite Hsl, Hr, Hpr.
  - rewrite bool_decide_eq_false_2 by done. rewrite Ho, !Z.eqb_refl. cbn [andb].
    destruct (terminalize true p r') as [r'' h] eqn:Et. cbn.
    by rewrite lookup_update, Z.eqb_refl, Hl.
  - rewrite bool_decide_eq_true_2 by done.
    pose proof (progress_transfer_request b slave r) as Hk. rewrite Hpr, <- Hr in Hk.
    destruct Hk as (Hk1 & Hk2 & _). cbn in Hk1, Hk2.
    apply (IH g (with_requests m (update id (fun _ => r1) (mb_requests m))) id r1); auto.
    + cbn. by rewrite lookup_update, Z.eqb_refl, Hl.
    + destruct r1; cbn in *. by subst.
    + congruence.
Qed.

Lemma finishes_upload slave (b : B) r n b' r' progress :
  finishes slave b r n b' r' progress -> rq_upload r' = rq_upload r /\ sp_state progress <> pending.
Proof.
  induction 1 as [b r b' r' p Hpr Hn|b r b1 r1 p1 n b' r' p Hpr Hpend Hf IH];
    pose proof (progress_transfer_request b slave r) as Hk; rewrite Hpr in Hk;
    destruct Hk as (_ & _ & Hk); [done|]. destruct IH. split; [congruence|done].
Qed.

Lemma find_queued_emplace g id r requests requests' :
  find_queued g requests = None -> emplace id r requests = Some requests' ->
  rq_generation r = g -> rq_phase r = queued -> find_queued g requests' = Some id.
Proof.
  intros Hf He Hg Hq. assert (Hr : (rq_generation r =? g) && bool_decide (rq_phase r = queued) = true)
    by (by rewrite Hg, Hq, Z.eqb_refl).
  revert requests' Hf He. induction requests as [|[k r0] requests IH]; intros requests'; cbn.
  { intros _ [= <-]. cbn. by rewrite Hr. }
  destruct ((rq_generation r0 =? g) && bool_decide (rq_phase r0 = queued)) eqn:E; [done|]. intros Hf.
  destruct (id <? k); [intros [= <-]; cbn; by rewrite Hr|].
  destruct (id =? k); [done|].
  destruct (emplace id r requests) as [rest|]; [|done]. intros [= <-]. cbn. rewrite E. auto.
Qed.

(** What queueing a request leaves. *)
Lemma enqueue_success g m upload address data m' id :
  mailbox_inv g m -> g <> 0 -> mb_open_generation m = g -> mb_staged_request m = None ->
  find_queued g (mb_requests m) = None ->
  enqueue g m upload address data = (m', success id) ->
  mb_slave m' = mb_slave m /\ mb_open_generation m' = g /\
  mb_cancel_requested_generation m' = 0 /\ mb_staged_request m' = None /\
  find_queued g (mb_requests m') = Some id /\
  exists r, lookup id (mb_requests m') = Some r /\ rq_phase r = queued /\
    rq_generation r = g /\ rq_upload r = upload.
Proof.
  intros Hi Hg Ho Hs Hf. unfold enqueue.
  destruct (_ || _); [done|]. destruct (_ || _); [done|]. destruct (_ && _); [done|].
  cbn [mb_requests mb_slave mb_staged_request mb_next_request_id mb_open_generation
       mb_cancel_requested_generation mb_health].
  destruct (emplace _ _ _) as [requests|] eqn:E; [|done]. intros [= <- <-].
  cbn -[Z.add]. split_and!; try done.
  - apply (mi_open _ _ Hi). congruence.
  - by eapply find_queued_emplace.
  - rewrite (lookup_emplace _ _ _ _ _ E), Z.eqb_refl. eexists. split; [done|]. done.
Qed.

(** A request is carried to its end.  In an open mailbox with nothing queued or staged, a
    request the client queued is staged by the worker's next cycle, and when the backend finishes
    its transfer in [n] bounded steps, [n] steps of the owner give its status the backend's last
    answer: completed, with the bytes of an upload, or failed, with the backend's error; and the
    mailbox is free for the next request. *)
Theorem mailbox_request_completes (b b' : B) g m upload address data m' id n r r' progress :
  mailbox_inv g m -> g <> 0 -> mb_open_generation m = g -> mb_staged_request m = None ->
  find_queued g (mb_requests m) = None ->
  enqueue g m upload address data = (m', success id) ->
  lookup id (mb_requests m') = Some r ->
  finishes (mb_slave m) b (with_phase r active) n b' r' progress ->
  let s := run_ops (mkSystem b g m') (op_cycle :: repeat op_owner n) in
  mailbox_status m' id = Some (mkStatus state_queued None []) /\
  sys_backend s = b' /\ mb_staged_request (sys_mailbox s) = None /\
  mailbox_status (sys_mailbox s) id =
    Some (if bool_decide (sp_state progress = completed) &&
             (negb upload || (sp_uploaded_size progress <=? length (sdo_data (rq_transfer r')))%nat)
          then mkStatus state_completed None
                 (if upload then take (sp_uploaded_size progress) (sdo_data (rq_transfer r')) else [])
          else mkStatus state_failed
                 (Some (mkError (sp_error_code progress)
                          (sdo_failure_message (sp_failure_reason progress)))) []).
Proof.
  intros Hi Hg Ho Hs Hf He Hl Hfin.
  destruct (enqueue_success _ _ _ _ _ _ _ Hi Hg Ho Hs Hf He)
    as (Hsl' & Ho' & Hc' & Hs' & Hf' & r0 & Hl0 & Hq & Hgen & Hup).
  rewrite Hl in Hl0. injection Hl0 as <-.
  assert (cycle g m' = with_staged (with_requests m' (update id (fun r => with_phase r staged)
    (mb_requests m'))) (Some id)) as Ec.
  { unfold cycle, stage_one. rewrite Hs', Ho', Z.eqb_refl, Hf', (proj2 (Z.eqb_neq g 0)) by done. done. }
  change (run_ops (mkSystem b g m') (op_cycle :: repeat op_owner n))
    with (run_ops (mkSystem b g (cycle g m')) (repeat op_owner n)). rewrite Ec.
  destruct (owner_finishes (mb_slave m) b (with_phase r active) n b' r' progress Hfin g
    (with_staged (with_requests m' (update id (fun r => with_phase r staged) (mb_requests m'))) (Some id))
    id (with_phase r staged)) as (Hb & Hst & Hlk); auto.
  { cbn. by rewrite lookup_update, Z.eqb_refl, Hl. }
  split_and!; [unfold mailbox_status; by rewrite Hl, Hq|done|done|].
  destruct (finishes_upload _ _ _ _ _ _ _ Hfin) as [Hu _]. cbn in Hu. rewrite Hup in Hu.
  unfold mailbox_status. rewrite Hlk. unfold terminalize.
  rewrite andb_true_r, Hu. destruct (_ && _) eqn:E; cbn; [|done].
  rewrite Hu. destruct upload; [|done]. apply andb_true_iff in E as [_ E]. cbn in E.
  apply Nat.leb_le in E. by rewrite Nat.min_l.
Qed.

End Finish.

End SdoMailbox.

(** ** A concrete run *)

Module MailboxExamples.

Import SdoMailbox.

(** A backend that answers its transfer steps from a script, and uploads the byte 42. *)
Definition Script : Type := list (option SdoTransferProgress).

Definition next_answer (s : Script) : Script * option SdoTransferProgress :=
  match s with [] => ([], None) | p :: s => (s, p) end.

#[export] Instance ScriptBackend : EthercatBackend Script := {|
  be_initialize s := (s, success tt);
  be_configure_slave s _ := (s, success tt);
  be_bind_pdo_entry s _ _ bits := (s, success (mkLocation 0 0 bits));
  be_activate s := (s, success tt);
  be_deactivate s := s;
  be_receive s := s;
  be_process_domain s := s;
  be_process_image s := [];
  be_set_process_image s _ := s;
  be_queue_domain s := s;
  be_send s := s;
  be_domain_health s := mkDomainHealth 0 None true true true 0 0;
  be_progress_download_sdo s _ _ := next_answer s;
  be_progress_upload_sdo s _ _ data := let '(s, p) := next_answer s in (s, 42 :: drop 1 data, p);
  be_progress_cancel_sdo s _ := next_answer s |}.

Definition pending_answer : SdoTransferProgress := mkProgress pending io none 0.
Definition completed_answer (n : nat) : SdoTransferProgress := mkProgress completed io none n.

Definition script : Script :=
  [Some pending_answer; Some pending_answer; Some (completed_answer 1)].

Definition slave : EthercatSlaveAddress := mkSlave 0 1.
Definition upload_ops : list Op :=
  [op_parent_open 7; op_upload (mkObject 0x1018 1); op_cycle; op_owner; op_owner; op_owner].

Definition opened_mailbox : EthercatMailbox :=
  sys_mailbox (run_ops (created script slave) [op_parent_open 7]).

Example upload_completes :
  mailbox_status (sys_mailbox (run_ops (created script slave) upload_ops)) 1 =
    Some (mkStatus state_completed None [42]).
Proof. by vm_compute. Qed.

(** A client that closes the mailbox during a transfer: the owner cancels it, and only then can the
    mailbox be opened again. *)
Example close_cancels :
  let s := run_ops (created [Some pending_answer; Some (completed_answer 0)] slave)
    [op_parent_open 7; op_upload (mkObject 0x1018 1); op_cycle; op_owner; op_close] in
  mailbox_status (sys_mailbox s) 1 =
    Some (mkStatus state_failed (Some (mkError unavailable "EtherCAT mailbox closed before completion")) []) /\
  has_value (open true 7 (sys_mailbox s)).2 = false /\
  has_value (open true 7 (sys_mailbox (apply_op s op_owner))).2 = true.
Proof. by vm_compute. Qed.

Lemma mailbox_status_final_witness :
  mailbox_status (sys_mailbox (run_ops (run_ops (created script slave) upload_ops) [op_close; op_open])) 1 =
    Some (mkStatus state_completed None [42]).
Proof.
  apply (proj2 (mailbox_status_final script slave upload_ops [op_close; op_open] 1
    (mkStatus state_completed None [42]))); by vm_compute.
Defined.

Definition queued_mailbox : EthercatMailbox * Result Z :=
  enqueue 7 opened_mailbox true (mkObject 0x1018 1) [].

Definition queued_request : Request :=
  mkRequest 7 true (mkSdo (mkObject 0x1018 1) (repeat 0 kMaximumSdoUploadBytes)) queued no_failure io none 0.

Definition uploaded_request : Request :=
  with_data (with_phase queued_request active) (42 :: repeat 0 (kMaximumSdoUploadBytes - 1)).

Lemma script_finishes :
  finishes slave script (with_phase queued_request active) 3 [] uploaded_request (completed_answer 1).
Proof.
  eapply finishes_later; [by vm_compute|done|]. eapply finishes_later; [by vm_compute|done|].
  apply finishes_now; [by vm_compute|done].
Qed.

Lemma opened_inv : mailbox_inv 7 opened_mailbox.
Proof. split; try done. constructor. Qed.

Lemma mailbox_request_completes_witness :
  mailbox_status (sys_mailbox (run_ops (mkSystem script 7 queued_mailbox.1) [op_cycle; op_owner; op_owner; op_owner])) 1 =
    Some (mkStatus state_completed None [42]).
Proof.
  refine (proj2 (proj2 (proj2 (mailbox_request_completes script [] 7 opened_mailbox true
    (mkObject 0x1018 1) [] queued_mailbox.1 1 3 queued_request uploaded_request (completed_answer 1)
    opened_inv _ _ _ _ _ _ script_finishes)))); by vm_compute.
Defined.

End MailboxExamples.
