(* ===== verification/EthercatMaster.v ===== *)
(** * The EtherCAT master

    [EthercatMaster] of [transport/ethercat/master.cpp]: configuration and life cycle, the cyclic
    exchange of process data with its handlers, and the process-image fields.  The master's
    atomic admission word is a field of the state here, where each operation is one step;
    its interleavings are in [CycleAdmission]. *)
From S2P Require Export EthercatMailbox Scheduler.
Import PdoField ElmoGold Binding.

Module Master.

Import SdoMailbox (EthercatMailbox, create, open_for_parent, close_for_parent,
  reset_after_parent_deactivate, owner_step, static_mode_object, mb_slave, mb_requests,
  mb_open_generation, mb_cancel_requested_generation, mb_staged_request, mailbox_inv).

(** ** Data *)

Definition kMaximumAxes : nat := 12.

Record CyclicField := mkCyclicField { cf_id : Z; cf_size_bytes : Z }.

Record EthercatProcessImageField := mkImageField {
  if_slave : EthercatSlaveAddress;
  if_address : ObjectAddress;
  if_direction : PdoDirection;
  if_bit_length : Z;
  if_id : Z;
  if_location : PdoFieldLocation;
  if_bound : bool }.

(** The bits of the admission word: the gate and the number of cycles inside. *)
Definition kCycleOpenBit : Z := 2 ^ 63.
Definition kCycleCountMask : Z := kCycleOpenBit - 1.

Definition gate_open (admission : Z) : bool := negb (Z.land admission kCycleOpenBit =? 0).

Definition admission_successor (observed : Z) : option Z :=
  let count := Z.land observed kCycleCountMask in
  if (Z.land observed kCycleOpenBit =? 0) || (count =? kCycleCountMask) then None
  else Some (observed + 1).

(** The configuration, without and with duplicate addresses. *)
Definition valid_static_mode (mode : Cia402Mode) : bool :=
  match mode with csp | csv | cst => true end.

Fixpoint validate_axes (addresses : list EthercatSlaveAddress) (axes : list EthercatAxisConfiguration)
    : Result unit :=
  match axes with
  | [] => success tt
  | configuration :: axes =>
      let axis := ec_axis configuration in
      let address := mkSlave (ax_alias axis) (ax_position axis) in
      if negb (ax_vendor_id axis =? vendor_id) || negb (ax_product_code axis =? product_code) ||
         negb (ax_revision axis =? revision)
      then fail invalid_argument "axis identity is not the supported Elmo Gold ESI"
      else if negb (valid_static_mode (ax_mode axis))
      then fail invalid_argument "axis has an unknown static CiA 402 mode"
      else if bool_decide (address ∈ addresses)
      then fail invalid_argument "duplicate EtherCAT slave address"
      else if existsb (fun p => bool_decide (sdo_data p = []) || static_mode_object (sdo_address p))
                (ec_startup_parameters configuration)
      then fail invalid_argument "startup parameter is empty or overrides the static mode/cycle time"
      else validate_axes (address :: addresses) axes
  end.

Definition healthy_domain (health : DomainHealth) : bool :=
  let expected_matches :=
    match dh_expected_working_counter health with
    | None => true
    | Some expected => dh_working_counter health =? expected
    end in
  dh_link_up health && dh_working_counter_complete health &&
  dh_all_slaves_operational health && expected_matches.

(** ** The master

    [W] is the state of everything the handlers' contexts point to; a context is named by its
    address. *)
Section Master.
Context {B : Type} `{EthercatBackend B} {W : Type}.

Abbreviation ProcessImageHandler := (Z -> W -> Bytes -> DomainHealth -> bool -> W * Bytes).
Abbreviation CycleHandler := (Z -> W -> list Cia402PdoView -> W * list Cia402PdoView).
Abbreviation SupervisedCycleHandler :=
  (Z -> W -> list Cia402PdoView -> DomainHealth -> bool -> W * list Cia402PdoView).

Record Handlers := mkHandlers {
  hd_cycle : option CycleHandler;
  hd_process_image : option ProcessImageHandler;
  hd_process_image_context : Z;
  hd_supervised : option SupervisedCycleHandler;
  hd_context : Z }.

(** [em_active_generation] is the [OwnerLifecycle] shared with the mailboxes. *)
Record EthercatMaster := mkMaster {
  em_backend : option B;
  em_active_generation : Z;
  em_axes : list EthercatAxisConfiguration;
  em_pdo_views : list Cia402PdoView;
  em_pdo_handles : list Cia402PdoHandles;
  em_mailboxes : list EthercatMailbox;
  em_registered_inputs : list CyclicField;
  em_registered_outputs : list CyclicField;
  em_fields : list EthercatProcessImageField;
  em_handlers : Handlers;
  em_admission : Z;
  em_health : TransportHealth;
  em_generation : Z;
  em_next_generation : Z;
  em_mailbox_cursor : nat }.

Definition no_handlers : Handlers := mkHandlers None None 0 None 0.

Definition construct (backend : option B) (axes : list EthercatAxisConfiguration) : EthercatMaster :=
  mkMaster backend 0 axes (map (fun _ => Cia402PdoView_zero) axes) []
    (map (fun c => create (mkSlave (ax_alias (ec_axis c)) (ax_position (ec_axis c)))) axes)
    [] [] [] no_handlers 0 failed 0 1 0.

Definition with_backend (m : EthercatMaster) (b : B) : EthercatMaster :=
  mkMaster (Some b) (em_active_generation m) (em_axes m) (em_pdo_views m) (em_pdo_handles m)
    (em_mailboxes m) (em_registered_inputs m) (em_registered_outputs m) (em_fields m)
    (em_handlers m) (em_admission m) (em_health m) (em_generation m) (em_next_generation m)
    (em_mailbox_cursor m).

Definition with_active (m : EthercatMaster) (active : Z) : EthercatMaster :=
  mkMaster (em_backend m) active (em_axes m) (em_pdo_views m) (em_pdo_handles m)
    (em_mailboxes m) (em_registered_inputs m) (em_registered_outputs m) (em_fields m)
    (em_handlers m) (em_admission m) (em_health m) (em_generation m) (em_next_generation m)
    (em_mailbox_cursor m).

Definition with_pdo (m : EthercatMaster) (views : list Cia402PdoView)
    (handles : list Cia402PdoHandles) : EthercatMaster :=
  mkMaster (em_backend m) (em_active_generation m) (em_axes m) views handles
    (em_mailboxes m) (em_registered_inputs m) (em_registered_outputs m) (em_fields m)
    (em_handlers m) (em_admission m) (em_health m) (em_generation m) (em_next_generation m)
    (em_mailbox_cursor m).

Definition with_mailboxes (m : EthercatMaster) (mailboxes : list EthercatMailbox) : EthercatMaster :=
  mkMaster (em_backend m) (em_active_generation m) (em_axes m) (em_pdo_views m) (em_pdo_handles m)
    mailboxes (em_registered_inputs m) (em_registered_outputs m) (em_fields m)
    (em_handlers m) (em_admission m) (em_health m) (em_generation m) (em_next_generation m)
    (em_mailbox_cursor m).

Definition with_registered (m : EthercatMaster) (inputs outputs : list CyclicField) : EthercatMaster :=
  mkMaster (em_backend m) (em_active_generation m) (em_axes m) (em_pdo_views m) (em_pdo_handles m)
    (em_mailboxes m) inputs outputs (em_fields m)
    (em_handlers m) (em_admission m) (em_health m) (em_generation m) (em_next_generation m)
    (em_mailbox_cursor m).

Definition with_fields (m : EthercatMaster) (fields : list EthercatProcessImageField) : EthercatMaster :=
  mkMaster (em_backend m) (em_active_generation m) (em_axes m) (em_pdo_views m) (em_pdo_handles m)
    (em_mailboxes m) (em_registered_inputs m) (em_registered_outputs m) fields
    (em_handlers m) (em_admission m) (em_health m) (em_generation m) (em_next_generation m)
    (em_mailbox_cursor m).

Definition with_handlers (m : EthercatMaster) (handlers : Handlers) : EthercatMaster :=
  mkMaster (em_backend m) (em_active_generation m) (em_axes m) (em_pdo_views m) (em_pdo_handles m)
    (em_mailboxes m) (em_registered_inputs m) (em_registered_outputs m) (em_fields m)
    handlers (em_admission m) (em_health m) (em_generation m) (em_next_generation m)
    (em_mailbox_cursor m).

Definition with_admission (m : EthercatMaster) (admission : Z) : EthercatMaster :=
  mkMaster (em_backend m) (em_active_generation m) (em_axes m) (em_pdo_views m) (em_pdo_handles m)
    (em_mailboxes m) (em_registered_inputs m) (em_registered_outputs m) (em_fields m)
    (em_handlers m) admission (em_health m) (em_generation m) (em_next_generation m)
    (em_mailbox_cursor m).

Definition with_health (m : EthercatMaster) (h : TransportHealth) : EthercatMaster :=
  mkMaster (em_backend m) (em_active_generation m) (em_axes m) (em_pdo_views m) (em_pdo_handles m)
    (em_mailboxes m) (em_registered_inputs m) (em_registered_outputs m) (em_fields m)
    (em_handlers m) (em_admission m) h (em_generation m) (em_next_generation m)
    (em_mailbox_cursor m).

Definition with_generations (m : EthercatMaster) (generation next : Z) : EthercatMaster :=
  mkMaster (em_backend m) (em_active_generation m) (em_axes m) (em_pdo_views m) (em_pdo_handles m)
    (em_mailboxes m) (em_registered_inputs m) (em_registered_outputs m) (em_fields m)
    (em_handlers m) (em_admission m) (em_health m) generation next (em_mailbox_cursor m).

Definition with_cursor (m : EthercatMaster) (cursor : nat) : EthercatMaster :=
  mkMaster (em_backend m) (em_active_generation m) (em_axes m) (em_pdo_views m) (em_pdo_handles m)
    (em_mailboxes m) (em_registered_inputs m) (em_registered_outputs m) (em_fields m)
    (em_handlers m) (em_admission m) (em_health m) (em_generation m) (em_next_generation m) cursor.

Definition admission_is_open (m : EthercatMaster) : bool := gate_open (em_admission m).

Definition scheduling_class : TransportScheduler.SchedulingClass :=
  TransportScheduler.hard_realtime_periodic.

(** *** Opening *)

Definition validate_configuration (m : EthercatMaster) : Result unit :=
  match em_backend m with
  | None => fail unavailable "EtherCAT master has no backend"
  | Some _ =>
      if (length (em_axes m) =? 0)%nat || (kMaximumAxes <? length (em_axes m))%nat
      then fail invalid_argument "EtherCAT master requires between one and 12 axes"
      else validate_axes [] (em_axes m)
  end.

Fixpoint configure_axes (b : B) (axes : list EthercatAxisConfiguration)
    : B * Result (list Cia402PdoHandles) :=
  match axes with
  | [] => (b, success [])
  | configuration :: axes =>
      match configure_axis b configuration with
      | (b, failure e) => (b, failure e)
      | (b, success handles) =>
          match configure_axes b axes with
          | (b, failure e) => (b, failure e)
          | (b, success rest) => (b, success (handles :: rest))
          end
      end
  end.

(** Bind the process-image fields; the ones before a failure stay bound. *)
Fixpoint bind_fields (b : B) (fields : list EthercatProcessImageField)
    : B * list EthercatProcessImageField * Result unit :=
  match fields with
  | [] => (b, [], success tt)
  | field :: fields =>
      match be_bind_pdo_entry b (if_slave field) (if_address field) (if_bit_length field) with
      | (b, failure e) => (b, field :: fields, failure e)
      | (b, success location) =>
          let bound := mkImageField (if_slave field) (if_address field) (if_direction field)
            (if_bit_length field) (if_id field) location true in
          let '(b, rest, result) := bind_fields b fields in (b, bound :: rest, result)
      end
  end.

(** Open the mailboxes in order, stopping at the first failure. *)
Fixpoint open_mailboxes (generation : Z) (mailboxes : list EthercatMailbox)
    : list EthercatMailbox * nat * Result unit :=
  match mailboxes with
  | [] => ([], 0%nat, success tt)
  | mailbox :: mailboxes =>
      match open_for_parent mailbox generation with
      | (mailbox, failure e) => (mailbox :: mailboxes, 0%nat, failure e)
      | (mailbox, success _) =>
          let '(rest, opened, result) := open_mailboxes generation mailboxes in
          (mailbox :: rest, S opened, result)
      end
  end.

(** [next_generation_++], skipping zero. *)
Definition take_generation (next : Z) : Z * Z :=
  let generation := next in
  let next := u64 (next + 1) in
  if generation =? 0 then (next, u64 (next + 1)) else (generation, next).

Definition rollback_mailboxes (generation : Z) (opened : nat) (mailboxes : list EthercatMailbox)
    : list EthercatMailbox :=
  map reset_after_parent_deactivate
    (map (fun mailbox => close_for_parent mailbox generation) (take opened mailboxes) ++
     drop opened mailboxes).

Definition open (m : EthercatMaster) : EthercatMaster * Result unit :=
  if admission_is_open m then (m, fail invalid_argument "EtherCAT master is already open")
  else
    match em_backend m, validate_configuration m with
    | _, failure e => (m, failure e)
    | None, success _ => (m, fail unavailable "EtherCAT master has no backend")
    | Some b, success _ =>
        match be_initialize b with
        | (b, failure e) => (with_health (with_backend m b) failed, failure e)
        | (b, success _) =>
            match configure_axes b (em_axes m) with
            | (b, failure e) => (with_backend m (be_deactivate b), failure e)
            | (b, success handles) =>
                match bind_fields b (em_fields m) with
                | (b, fields, failure e) =>
                    (with_backend (with_fields m fields) (be_deactivate b), failure e)
                | (b, fields, success _) =>
                    let m := with_fields m fields in
                    match be_activate b with
                    | (b, failure e) => (with_backend m (be_deactivate b), failure e)
                    | (b, success _) =>
                        let '(generation, next) := take_generation (em_next_generation m) in
                        let m := with_generations m (em_generation m) next in
                        match open_mailboxes generation (em_mailboxes m) with
                        | (mailboxes, opened, failure e) =>
                            (with_mailboxes (with_backend m (be_deactivate b))
                               (rollback_mailboxes generation opened mailboxes), failure e)
                        | (mailboxes, _, success _) =>
                            let m := with_mailboxes (with_backend m b) mailboxes in
                            let m := with_pdo m (map (fun _ => Cia402PdoView_zero) (em_pdo_views m))
                                       handles in
                            let m := with_cursor (with_generations m generation next) 0 in
                            (with_health (with_admission (with_active m generation) kCycleOpenBit)
                               healthy, success tt)
                        end
                    end
                end
            end
        end
    end.

(** *** Closing

    The wait for the cycles inside is in [CycleAdmission]; as one step, none is inside. *)
Definition close (m : EthercatMaster) : EthercatMaster :=
  let previous := em_admission m in
  let m := with_admission m (Z.land previous kCycleCountMask) in
  if negb (gate_open previous) then m
  else
    let m := with_active m 0 in
    let mailboxes := map (fun mailbox => close_for_parent mailbox (em_generation m)) (em_mailboxes m) in
    let m := match em_backend m with Some b => with_backend m (be_deactivate b) | None => m end in
    let m := with_mailboxes m (map reset_after_parent_deactivate mailboxes) in
    with_health (with_generations m 0 (em_next_generation m)) failed.

(** *** The cycle *)

Definition leave_cycle (m : EthercatMaster) : EthercatMaster :=
  with_admission m (u64 (em_admission m - 1)).

Definition try_enter_cycle (m : EthercatMaster) : option EthercatMaster :=
  match admission_successor (em_admission m) with
  | None => None
  | Some desired => Some (with_admission m desired)
  end.

(** Read the inputs of every axis that has handles; false when one could not be read. *)
Fixpoint read_all (handles : list Cia402PdoHandles) (image : Bytes) (views : list Cia402PdoView)
    : list Cia402PdoView * bool :=
  match handles, views with
  | h :: handles, pdo :: views =>
      let '(pdo, read) := read_inputs h image pdo in
      let '(views, rest) := read_all handles image views in
      (pdo :: views, read && rest)
  | _, _ => (views, true)
  end.

(** Write the outputs of every axis that has handles. *)
Fixpoint write_all (handles : list Cia402PdoHandles) (views : list Cia402PdoView)
    (axes : list EthercatAxisConfiguration) (enabled : bool) (image : Bytes) : Bytes * bool :=
  match handles, views, axes with
  | h :: handles, pdo :: views, configuration :: axes =>
      let '(image, written) := write_outputs h image pdo (ax_mode (ec_axis configuration)) enabled in
      let '(image, rest) := write_all handles views axes enabled image in
      (image, written && rest)
  | _, _, _ => (image, true)
  end.

(** Let the mailboxes step in turn from the cursor, until one did something. *)
Fixpoint service_mailboxes (fuel offset : nat) (b : B) (m : EthercatMaster) : B * EthercatMaster :=
  match fuel with
  | 0%nat => (b, m)
  | S fuel =>
      let count := length (em_mailboxes m) in
      let index := ((em_mailbox_cursor m + offset) mod count)%nat in
      match em_mailboxes m !! index with
      | None => (b, m)
      | Some mailbox =>
          let '(b, mailbox, stepped) :=
            owner_step b (em_active_generation m) (em_generation m) mailbox in
          let m := with_mailboxes m (<[index := mailbox]> (em_mailboxes m)) in
          if stepped then (b, with_cursor m ((index + 1) mod count)%nat)
          else service_mailboxes fuel (S offset) b m
      end
  end.

(** The handlers, in order, on the contexts, the image and the views. *)
Definition run_handlers (hd : Handlers) (w : W) (image : Bytes) (views : list Cia402PdoView)
    (domain : DomainHealth) (valid_image : bool) : W * Bytes * list Cia402PdoView :=
  let '(w, image) :=
    match hd_process_image hd with
    | Some f => f (hd_process_image_context hd) w image domain valid_image
    | None => (w, image)
    end in
  let '(w, views) :=
    match hd_cycle hd with
    | Some f => if valid_image then f (hd_context hd) w views else (w, views)
    | None => (w, views)
    end in
  let '(w, views) :=
    match hd_supervised hd with
    | Some f => f (hd_context hd) w views domain valid_image
    | None => (w, views)
    end in
  (w, image, views).

Definition is_some {A} (o : option A) : bool := match o with Some _ => true | None => false end.

Definition input_available (hd : Handlers) (domain : DomainHealth) : bool :=
  healthy_domain domain || (is_some (hd_supervised hd) && dh_link_up domain).

Definition outputs_enabled (hd : Handlers) (domain : DomainHealth) (valid_image : bool) : bool :=
  (healthy_domain domain && valid_image) || (is_some (hd_supervised hd) && valid_image).

(** The cycle inside the gate. *)
Definition exchange (w : W) (m : EthercatMaster) (b : B) : W * EthercatMaster :=
  let hd := em_handlers m in
  let b := be_process_domain (be_receive b) in
  let domain := be_domain_health b in
  let image := be_process_image b in
  let '(views, valid_image) :=
    if input_available hd domain then read_all (em_pdo_handles m) image (em_pdo_views m)
    else (em_pdo_views m, false) in
  let '(w, image, views) := run_handlers hd w image views domain valid_image in
  let '(image, outputs_written) :=
    write_all (em_pdo_handles m) views (em_axes m) (outputs_enabled hd domain valid_image) image in
  let b := be_set_process_image b image in
  let m := with_pdo m views (em_pdo_handles m) in
  let '(b, m) := service_mailboxes (length (em_mailboxes m)) 0 b m in
  let b := be_send (be_queue_domain b) in
  (w, with_health (with_backend m b)
        (if healthy_domain domain && valid_image && outputs_written then healthy else degraded)).

Definition cycle (w : W) (m : EthercatMaster) : W * EthercatMaster :=
  match try_enter_cycle m with
  | None => (w, with_health m failed)
  | Some m =>
      match em_backend m with
      | None => (w, leave_cycle (with_health m failed))
      | Some b => let '(w, m) := exchange w m b in (w, leave_cycle m)
      end
  end.

(** *** Registration *)

Definition register_field (m : EthercatMaster) (field : CyclicField) (input : bool)
    : EthercatMaster * Result unit :=
  if admission_is_open m || (cf_size_bytes field =? 0)
  then (m, fail invalid_argument "cyclic fields must be registered before open")
  else
    let contains := existsb (fun candidate => cf_id candidate =? cf_id field) in
    if contains (em_registered_inputs m) || contains (em_registered_outputs m)
    then (m, fail invalid_argument "cyclic field ID is already registered")
    else if input
    then (with_registered m (em_registered_inputs m ++ [field]) (em_registered_outputs m), success tt)
    else (with_registered m (em_registered_inputs m) (em_registered_outputs m ++ [field]), success tt).

Definition register_process_image_field (m : EthercatMaster) (slave : EthercatSlaveAddress)
    (address : ObjectAddress) (direction : PdoDirection) (bit_length id : Z)
    : EthercatMaster * Result unit :=
  if admission_is_open m || (id =? 0) ||
     (negb (bit_length =? 8) && negb (bit_length =? 16) && negb (bit_length =? 32))
  then (m, fail invalid_argument "process-image fields require a unique id and 8/16/32-bit width")
  else if existsb (fun field => if_id field =? id) (em_fields m)
  then (m, fail invalid_argument "process-image field id is already registered")
  else
    (with_fields m (em_fields m ++
       [mkImageField slave address direction bit_length id (mkLocation 0 0 0) false]), success tt).

Definition find_field (id : Z) (fields : list EthercatProcessImageField)
    : option EthercatProcessImageField := find (fun field => if_id field =? id) fields.

(** The bytes a field covers in an image, when it lies inside. *)
Definition field_range (field : EthercatProcessImageField) (image : Bytes) : option (nat * nat) :=
  let offset := lo_byte_offset (if_location field) in
  let size := Z.to_nat (if_bit_length field / 8) in
  if (length image <? offset)%nat || (length image - offset <? size)%nat then None
  else Some (offset, size).

Definition read_process_image_field (m : EthercatMaster) (id : Z) : option Z :=
  match find_field id (em_fields m), em_backend m with
  | Some field, Some b =>
      if negb (if_bound field) || negb (bool_decide (if_direction field = input)) then None
      else
        let image := be_process_image b in
        match field_range field image with
        | None => None
        | Some (offset, size) => Some (le_decode (take size (drop offset image)))
        end
  | _, _ => None
  end.

Definition write_process_image_field (m : EthercatMaster) (id value : Z) : EthercatMaster * bool :=
  match find_field id (em_fields m), em_backend m with
  | Some field, Some b =>
      if negb (if_bound field) || negb (bool_decide (if_direction field = output)) then (m, false)
      else
        let image := be_process_image b in
        match field_range field image with
        | None => (m, false)
        | Some (offset, size) =>
            (with_backend m (be_set_process_image b
               (take offset image ++ le_encode size value ++ drop (offset + size) image)), true)
        end
  | _, _ => (m, false)
  end.

Definition process_image_field_count (m : EthercatMaster) : nat := length (em_fields m).

(** *** Handlers.  A handler argument is the pointer: [None] is null. *)

Definition set_cycle_handler (m : EthercatMaster) (handler : option CycleHandler) (context : Z)
    : EthercatMaster * Result unit :=
  let hd := em_handlers m in
  if admission_is_open m || negb (is_some handler) || is_some (hd_supervised hd)
  then (m, fail invalid_argument "cycle handler must be bound before open")
  else (with_handlers m (mkHandlers handler (hd_process_image hd) (hd_process_image_context hd)
          (hd_supervised hd) context), success tt).

Definition set_process_image_handler (m : EthercatMaster) (handler : option ProcessImageHandler)
    (context : Z) : EthercatMaster * Result unit :=
  let hd := em_handlers m in
  if admission_is_open m || negb (is_some handler) ||
     (is_some (hd_cycle hd) && negb (hd_context hd =? context))
  then (m, fail invalid_argument "process-image handler must be installed before open")
  else (with_handlers m (mkHandlers (hd_cycle hd) handler context (hd_supervised hd) (hd_context hd)),
        success tt).

Definition set_supervised_cycle_handler (m : EthercatMaster) (handler : option SupervisedCycleHandler)
    (context : Z) : EthercatMaster * Result unit :=
  let hd := em_handlers m in
  if admission_is_open m || negb (is_some handler) || is_some (hd_cycle hd) || is_some (hd_supervised hd)
  then (m, fail invalid_argument "supervised cycle handler must be exclusively bound before open")
  else (with_handlers m (mkHandlers (hd_cycle hd) (hd_process_image hd) (hd_process_image_context hd)
          handler context), success tt).

Definition clear_supervised_cycle_handler (m : EthercatMaster) (context : Z)
    : EthercatMaster * Result unit :=
  let hd := em_handlers m in
  if admission_is_open m || negb (is_some (hd_supervised hd)) || negb (hd_context hd =? context)
  then (m, fail invalid_argument "supervised cycle handler can only be cleared by its inactive owner")
  else (with_handlers m (mkHandlers (hd_cycle hd) (hd_process_image hd) (hd_process_image_context hd)
          None 0), success tt).

End Master.
Arguments EthercatMaster : clear implicits.
Arguments Handlers : clear implicits.

(** ** What the master relies on

    The process image is memory the backend shares with the master: it reads back as it was
    stored, and sending and the transfer steps leave it alone. *)
Class EthercatBackendLaws (B : Type) `{EthercatBackend B} := {
  law_set_image (b : B) image : length image = length (be_process_image b) ->
    be_process_image (be_set_process_image b image) = image;
  law_queue_image (b : B) : be_process_image (be_queue_domain b) = be_process_image b;
  law_send_image (b : B) : be_process_image (be_send b) = be_process_image b;
  law_download_image (b : B) slave request :
    be_process_image (be_progress_download_sdo b slave request).1 = be_process_image b;
  law_upload_image (b : B) slave address data :
    be_process_image (be_progress_upload_sdo b slave address data).1.1 = be_process_image b;
  law_cancel_image (b : B) slave :
    be_process_image (be_progress_cancel_sdo b slave).1 = be_process_image b }.

(** The handles of all axes: each axis' handles are bound, and no axis' outputs overlap a field of
    another axis. *)
Record layout_bound (handles : list Cia402PdoHandles) (axes : list EthercatAxisConfiguration)
    (size : nat) : Prop := {
  lb_length : length handles = length axes;
  lb_axis : forall i h c, handles !! i = Some h -> axes !! i = Some c ->
    handles_bound h (ax_mode (ec_axis c)) size;
  lb_disjoint : forall i j h g c d f k, i <> j ->
    handles !! i = Some h -> axes !! i = Some c -> handles !! j = Some g -> axes !! j = Some d ->
    f ∈ [h_control_word h; target_field h (ax_mode (ec_axis c))] ->
    k ∈ mode_fields g (ax_mode (ec_axis d)) -> disjoint_fields f k }.

(** Membership in a written-out list. *)
Ltac fields_in :=
  unfold mode_fields in *; rewrite ?list_elem_of_In in *; cbn [In] in *; intuition auto.

Lemma layout_tail h handles c axes size :
  layout_bound (h :: handles) (c :: axes) size -> layout_bound handles axes size.
Proof.
  intros [Hl Ha Hd]. split.
  - by injection Hl.
  - intros i g d Hg Hdd. by apply (Ha (S i)).
  - intros i j g g' d d' f k Hij Hg Hd1 Hg' Hd2. apply (Hd (S i) (S j)); auto.
Qed.

Lemma output_fields_inside h mode size f :
  handles_bound h mode size -> f ∈ [h_control_word h; target_field h mode] -> inside f size.
Proof.
  intros Hb Hf. pose proof (hb_inside _ _ _ Hb) as Hi. rewrite Forall_forall in Hi. apply Hi.
  unfold mode_fields. fields_in.
Qed.

(** A field that overlaps no output of an axis reads the same after the axis' outputs. *)
Lemma write_outputs_other h image pdo mode enabled k :
  handles_bound h mode (length image) -> inside k (length image) ->
  (forall f, f ∈ [h_control_word h; target_field h mode] -> disjoint_fields f k) ->
  read k (write_outputs h image pdo mode enabled).1 = read k image /\
  length (write_outputs h image pdo mode enabled).1 = length image /\
  (write_outputs h image pdo mode enabled).2 = true.
Proof.
  intros Hb Hk Hd. rewrite (written_image h mode image pdo Hb). cbn [fst snd].
  assert (inside (h_control_word h) (length image)) by (eapply output_fields_inside; [done|fields_in]).
  assert (inside (target_field h mode) (length image)) by (eapply output_fields_inside; [done|fields_in]).
  rewrite !length_write. split; [|done].
  rewrite !read_write_other; rewrite ?length_write; auto; apply Hd; fields_in.
Qed.

Lemma write_outputs_length h image pdo mode enabled :
  handles_bound h mode (length image) ->
  length (write_outputs h image pdo mode enabled).1 = length image /\
  (write_outputs h image pdo mode enabled).2 = true.
Proof. intros Hb. rewrite (written_image h mode image pdo Hb). cbn. by rewrite !length_write. Qed.

Lemma write_all_other handles views axes enabled image k :
  layout_bound handles axes (length image) -> inside k (length image) ->
  (forall i h c f, handles !! i = Some h -> axes !! i = Some c ->
     f ∈ [h_control_word h; target_field h (ax_mode (ec_axis c))] -> disjoint_fields f k) ->
  read k (write_all handles views axes enabled image).1 = read k image.
Proof.
  revert views axes image. induction handles as [|h handles IH]; intros [|p views] [|c axes] image Hl Hk Hd;
    try done. cbn.
  destruct (write_outputs_other h image p (ax_mode (ec_axis c)) enabled k) as (Hr & Hlen & _).
  { by apply (lb_axis _ _ _ Hl 0 h c). }
  { done. }
  { intros f Hf. by apply (Hd 0%nat h c). }
  destruct (write_outputs h image p _ enabled) as [image1 written]. cbn in Hr, Hlen.
  specialize (IH views axes image1). rewrite Hlen in IH.
  destruct (write_all handles views axes enabled image1) as [image2 rest] eqn:E. cbn in *.
  rewrite IH; [done|by eapply layout_tail|done|]. intros i g d f Hg Hc. by apply (Hd (S i)).
Qed.

Lemma write_all_written handles views axes enabled image :
  layout_bound handles axes (length image) ->
  (write_all handles views axes enabled image).2 = true /\
  length (write_all handles views axes enabled image).1 = length image.
Proof.
  revert views axes image. induction handles as [|h handles IH]; intros [|p views] [|c axes] image Hl;
    try done. cbn.
  destruct (write_outputs_length h image p (ax_mode (ec_axis c)) enabled) as [Hlen Hw].
  { by apply (lb_axis _ _ _ Hl 0 h c). }
  destruct (write_outputs h image p _ enabled) as [image1 written]. cbn in Hlen, Hw. subst written.
  specialize (IH views axes image1). rewrite Hlen in IH.
  destruct (IH (layout_tail _ _ _ _ _ Hl)) as [Hr Hlen'].
  by destruct (write_all handles views axes enabled image1) as [image2 rest].
Qed.

(** The view of an axis, in the types of its output fields. *)
Definition view_typed (h : Cia402PdoHandles) (mode : Cia402Mode) (pdo : Cia402PdoView) : Prop :=
  in_type (h_control_word h) (control_word pdo) /\ in_type (target_field h mode) (target_value pdo mode).

Lemma write_all_axis handles views axes enabled image i h p c :
  layout_bound handles axes (length image) ->
  handles !! i = Some h -> views !! i = Some p -> axes !! i = Some c ->
  view_typed h (ax_mode (ec_axis c)) p ->
  read (h_control_word h) (write_all handles views axes enabled image).1 =
    Some (if enabled then control_word p else 0) /\
  read (target_field h (ax_mode (ec_axis c))) (write_all handles views axes enabled image).1 =
    Some (if enabled then target_value p (ax_mode (ec_axis c)) else 0).
Proof.
  revert views axes image i.
  induction handles as [|h0 handles IH]; intros [|p0 views] [|c0 axes] image i Hl Hh Hp Hc [Ht1 Ht2]; try done.
  pose proof (lb_axis _ _ _ Hl 0 h0 c0 eq_refl eq_refl) as Hb. cbn.
  destruct (write_outputs_length h0 image p0 (ax_mode (ec_axis c0)) enabled Hb) as [Hlen _].
  pose proof (layout_tail _ _ _ _ _ Hl) as Hl'.
  destruct i as [|i]; cbn in Hh, Hp, Hc.
  - injection Hh as ->. injection Hp as ->. injection Hc as ->.
    pose proof (written_fields h (ax_mode (ec_axis c)) image p Hb enabled Ht1 Ht2) as [Hw1 Hw2].
    destruct (write_outputs h image p (ax_mode (ec_axis c)) enabled) as [image1 written].
    cbn in Hlen, Hw1, Hw2. rewrite <- Hlen in Hl', Hb.
    assert (forall k, k ∈ [h_control_word h; target_field h (ax_mode (ec_axis c))] ->
      read k (write_all handles views axes enabled image1).1 = read k image1) as Hk.
    { intros k Hk. apply write_all_other; [done|by eapply output_fields_inside|].
      intros i g d f Hg Hd Hf. apply (lb_disjoint _ _ _ Hl (S i) 0 g h d c); auto.
      unfold mode_fields. fields_in. }
    rewrite <- Hw1, <- Hw2, <- !Hk by fields_in.
    by destruct (write_all handles views axes enabled image1).
  - destruct (write_outputs h0 image p0 _ enabled) as [image1 written]. cbn in Hlen.
    rewrite <- Hlen in Hl'. specialize (IH views axes image1 i Hl' Hh Hp Hc (conj Ht1 Ht2)).
    by destruct (write_all handles views axes enabled image1).
Qed.

(** Every axis with bound handles reads its inputs. *)
Lemma read_all_bound handles views axes image :
  layout_bound handles axes (length image) ->
  (read_all handles image views).2 = true /\
  length (read_all handles image views).1 = length views /\
  (forall i h p, handles !! i = Some h -> views !! i = Some p ->
     (read_all handles image views).1 !! i = Some (read_inputs h image p).1).
Proof.
  revert views axes. induction handles as [|h handles IH]; intros views axes Hl.
  - by split_and!.
  - destruct axes as [|c axes]; [by pose proof (lb_length _ _ _ Hl)|].
    destruct views as [|p views]; [by split_and!|].
    pose proof (lb_axis _ _ _ Hl 0 h c eq_refl eq_refl) as Hb. cbn.
    destruct (IH views axes (layout_tail _ _ _ _ _ Hl)) as (Hr & Hlen & Hi).
    assert ((read_inputs h image p).2 = true) as Hri.
    { unfold read_inputs. pose proof (hb_inside _ _ _ Hb) as Hin. unfold mode_fields in Hin.
      repeat (apply Forall_cons in Hin as [? Hin]). by rewrite !read_inside by done. }
    destruct (read_inputs h image p) as [p1 read] eqn:Er. cbn in Hri. subst read.
    destruct (read_all handles image views) as [views1 rest]. cbn in *. split_and!; [done|by f_equal|].
    intros [|i] h' p' Hh Hp; cbn in *; [|auto]. simplify_eq. by rewrite Er.
Qed.

(** Views of the axes, each in the types of its output fields. *)
Definition views_typed (handles : list Cia402PdoHandles) (axes : list EthercatAxisConfiguration)
    (views : list Cia402PdoView) : Prop :=
  length views = length axes /\
  forall i h c p, handles !! i = Some h -> axes !! i = Some c -> views !! i = Some p ->
    view_typed h (ax_mode (ec_axis c)) p.

(** The handlers write through spans of typed elements: they change no length and no type. *)
Record handlers_typed {W : Type} (hd : Handlers W) (handles : list Cia402PdoHandles)
    (axes : list EthercatAxisConfiguration) : Prop := {
  ht_image : forall f w image domain valid, hd_process_image hd = Some f ->
    length (f (hd_process_image_context hd) w image domain valid).2 = length image;
  ht_cycle : forall f w views, hd_cycle hd = Some f -> views_typed handles axes views ->
    views_typed handles axes (f (hd_context hd) w views).2;
  ht_supervised : forall f w views domain valid, hd_supervised hd = Some f ->
    views_typed handles axes views ->
    views_typed handles axes (f (hd_context hd) w views domain valid).2 }.

Lemma run_handlers_typed {W} (hd : Handlers W) handles axes w image views domain valid :
  handlers_typed hd handles axes -> views_typed handles axes views ->
  let '(_, image', views') := run_handlers hd w image views domain valid in
  length image' = length image /\ views_typed handles axes views'.
Proof.
  intros [Hi Hc Hs] Hv. unfold run_handlers.
  destruct (hd_process_image hd) as [fi|];
    [specialize (Hi fi w image domain valid eq_refl);
     destruct (fi _ w image domain valid) as [w1 image1]|set (w1 := w); set (image1 := image)].
  all: assert (views_typed handles axes (match hd_cycle hd with
        | Some f => if valid then f (hd_context hd) w1 views else (w1, views)
        | None => (w1, views) end).2) as Hv1
      by (destruct (hd_cycle hd) as [fc|]; [destruct valid; [by apply Hc|done]|done]).
  all: destruct (match hd_cycle hd with Some f => _ | None => _ end) as [w2 views2]; cbn [snd] in Hv1.
  all: destruct (hd_supervised hd) as [fs|]; [|done].
  all: specialize (Hs fs w2 views2 domain valid eq_refl Hv1);
    by destruct (fs _ w2 views2 domain valid).
Qed.

Lemma read_inputs_outputs h image p :
  control_word (read_inputs h image p).1 = control_word p /\
  forall mode, target_value (read_inputs h image p).1 mode = target_value p mode.
Proof. unfold read_inputs. repeat case_match; split; try done; by intros []. Qed.

Lemma read_all_typed handles views axes image :
  layout_bound handles axes (length image) -> views_typed handles axes views ->
  views_typed handles axes (read_all handles image views).1.
Proof.
  intros Hl [Hlen Ht]. destruct (read_all_bound handles views axes image Hl) as (_ & Hn & Hi).
  split; [congruence|]. intros i h c p Hh Hc Hp.
  destruct (views !! i) as [p0|] eqn:E.
  - rewrite (Hi i h p0 Hh E) in Hp. injection Hp as <-.
    destruct (read_inputs_outputs h image p0) as [Hcw Htv]. unfold view_typed. rewrite Hcw, Htv.
    exact (Ht i h c p0 Hh Hc E).
  - apply lookup_lt_Some in Hp. rewrite Hn in Hp. apply lookup_ge_None in E. lia.
Qed.

Section Cycle.
Context {B : Type} `{EthercatBackendLaws B} {W : Type}.
Implicit Types m : EthercatMaster B W.

Lemma owner_step_image (b : B) active parent mailbox :
  be_process_image (owner_step b active parent mailbox).1.1 = be_process_image b.
Proof.
  unfold SdoMailbox.owner_step, SdoMailbox.cancel_step.
  destruct (negb (_ =? 0)).
  { pose proof (law_cancel_image b (mb_slave mailbox)) as Hc.
    by destruct (be_progress_cancel_sdo b (mb_slave mailbox)) as [b1 [p|]]. }
  destruct (mb_staged_request mailbox) as [id|]; [|done].
  destruct (SdoMailbox.lookup _ _) as [r|]; [|done]. destruct (_ || _ || _); [done|].
  assert (forall r, be_process_image (SdoMailbox.transfer_step b active parent mailbox id r).1 =
    be_process_image b) as Ht.
  { intros r1. unfold SdoMailbox.transfer_step, SdoMailbox.progress_transfer.
    destruct (SdoMailbox.rq_upload r1).
    - pose proof (law_upload_image b (mb_slave mailbox) (sdo_address (SdoMailbox.rq_transfer r1))
        (sdo_data (SdoMailbox.rq_transfer r1))) as Hu.
      destruct (be_progress_upload_sdo _ _ _ _) as [[b1 data] p]. destruct (bool_decide _); [done|].
      by destruct (SdoMailbox.terminalize _ _ _).
    - pose proof (law_download_image b (mb_slave mailbox) (SdoMailbox.rq_transfer r1)) as Hu.
      destruct (be_progress_download_sdo _ _ _) as [b1 p]. destruct (bool_decide _); [done|].
      by destruct (SdoMailbox.terminalize _ _ _). }
  destruct (SdoMailbox.rq_phase r); try done; exact (Ht _).
Qed.

Lemma service_mailboxes_frame fuel offset (b : B) m :
  let '(b', m') := service_mailboxes fuel offset b m in
  be_process_image b' = be_process_image b /\
  exists mailboxes cursor, m' = with_cursor (with_mailboxes m mailboxes) cursor.
Proof.
  revert offset b m. induction fuel as [|fuel IH]; intros offset b m; cbn.
  { split; [done|]. exists (em_mailboxes m), (em_mailbox_cursor m). by destruct m. }
  set (index := ((em_mailbox_cursor m + offset) mod length (em_mailboxes m))%nat).
  destruct (em_mailboxes m !! index) as [mailbox|] eqn:E.
  2: { split; [done|]. exists (em_mailboxes m), (em_mailbox_cursor m). by destruct m. }
  pose proof (owner_step_image b (em_active_generation m) (em_generation m) mailbox) as Hi.
  destruct (owner_step b _ _ mailbox) as [[b1 mailbox1] stepped]. cbn in Hi.
  destruct stepped; [split; [done|]; eauto|].
  specialize (IH (S offset) b1 (with_mailboxes m (<[index := mailbox1]> (em_mailboxes m)))).
  destruct (service_mailboxes fuel _ _ _) as [b2 m2].
  destruct IH as (Hi2 & mailboxes & cursor & ->). split; [congruence|]. eauto.
Qed.

(** C5. The outputs of a cycle are gated.  In a cycle that enters the open gate, with the handles of
    all axes bound in the process image: the image that is sent has, for every axis, the control
    word and the target of its mode as its handlers left them when its inputs were available (a
    healthy domain, or a link that is up with a supervising handler), and zeros otherwise; the
    master is healthy exactly when the domain is; and the gate is as before. *)
Theorem cycle_outputs_gated (w : W) m (b : B) admission :
  em_backend m = Some b -> is_word 64 (em_admission m) ->
  admission_successor (em_admission m) = Some admission ->
  let received := be_process_domain (be_receive b) in
  let domain := be_domain_health received in
  layout_bound (em_pdo_handles m) (em_axes m) (length (be_process_image received)) ->
  handlers_typed (em_handlers m) (em_pdo_handles m) (em_axes m) ->
  views_typed (em_pdo_handles m) (em_axes m) (em_pdo_views m) ->
  let m' := (cycle w m).2 in
  exists sent, em_backend m' = Some sent /\
    length (be_process_image sent) = length (be_process_image received) /\
    views_typed (em_pdo_handles m) (em_axes m) (em_pdo_views m') /\
    em_admission m' = em_admission m /\
    em_health m' = (if healthy_domain domain then healthy else degraded) /\
    forall i h c p, em_pdo_handles m !! i = Some h -> em_axes m !! i = Some c ->
      em_pdo_views m' !! i = Some p ->
      read (h_control_word h) (be_process_image sent) =
        Some (if input_available (em_handlers m) domain then control_word p else 0) /\
      read (target_field h (ax_mode (ec_axis c))) (be_process_image sent) =
        Some (if input_available (em_handlers m) domain
              then target_value p (ax_mode (ec_axis c)) else 0).
Proof.
  intros Hb Hw Ha received domain Hl Hh Hv. unfold cycle, try_enter_cycle. rewrite Ha.
  cbn [em_backend with_admission]. rewrite Hb. unfold exchange.
  cbn [em_handlers em_pdo_handles em_pdo_views em_axes with_admission].
  fold received. fold domain. set (image := be_process_image received) in *.
  destruct (read_all_bound (em_pdo_handles m) (em_pdo_views m) (em_axes m) image Hl) as (Hr & _ & _).
  pose proof (read_all_typed _ _ _ _ Hl Hv) as Hrt.
  set (available := input_available (em_handlers m) domain).
  destruct (if available then read_all (em_pdo_handles m) image (em_pdo_views m)
            else (em_pdo_views m, false)) as [views valid] eqn:Ev.
  assert (valid = available /\ views_typed (em_pdo_handles m) (em_axes m) views) as [-> Hvt].
  { destruct available; [|by simplify_eq]. rewrite Ev in Hr, Hrt. done. }
  pose proof (run_handlers_typed (em_handlers m) _ _ w image views domain available Hh Hvt) as Hrun.
  destruct (run_handlers (em_handlers m) w image views domain available) as [[w1 image1] views1].
  destruct Hrun as [Hlen1 Hvt1].
  assert (outputs_enabled (em_handlers m) domain available = available) as ->.
  { unfold outputs_enabled, available, input_available.
    by destruct (healthy_domain domain), (is_some _), (dh_link_up domain). }
  rewrite <- Hlen1 in Hl.
  destruct (write_all_written (em_pdo_handles m) views1 (em_axes m) available image1 Hl) as [Hwr Hlen2].
  pose proof (fun i h p c => write_all_axis (em_pdo_handles m) views1 (em_axes m) available image1 i h p c Hl) as Haxis.
  destruct (write_all (em_pdo_handles m) views1 (em_axes m) available image1) as [image2 written].
  cbn in Hwr, Hlen2. subst written.
  match goal with |- context [service_mailboxes ?n ?o ?b ?m] =>
    pose proof (service_mailboxes_frame n o b m) as Hs;
    destruct (service_mailboxes n o b m) as [b2 m2] end.
  destruct Hs as (Hi2 & mailboxes & cursor & ->). rewrite law_set_image in Hi2 by (etrans; [exact Hlen2|exact Hlen1]).
  assert (be_process_image (be_send (be_queue_domain b2)) = image2) as Hi3
    by (by rewrite law_send_image, law_queue_image).
  exists (be_send (be_queue_domain b2)). cbn. rewrite Hi3, andb_true_r.
  split_and!; [done|congruence|done| | |].
  - unfold admission_successor in Ha. destruct (_ || _); [done|]. injection Ha as <-.
    replace (em_admission m + 1 - 1) with (em_admission m) by lia. by apply wrap_small.
  - unfold available, input_available. by destruct (healthy_domain domain).
  - intros i h c p Hh' Hc Hp. apply (Haxis i h p c); auto. by apply Hvt1 with i.
Qed.

End Cycle.

(** *** The mailboxes take turns *)

(** Whether a step of the owner does something for a mailbox: a cancellation is pending, or the
    staged request is of the open generation and not terminal. *)
Definition has_work (active parent : Z) (mailbox : EthercatMailbox) : bool :=
  negb (mb_cancel_requested_generation mailbox =? 0) ||
  match mb_staged_request mailbox ≫= fun id => SdoMailbox.lookup id (mb_requests mailbox) with
  | None => false
  | Some r =>
      (SdoMailbox.rq_generation r =? parent) && (active =? parent) &&
      (mb_open_generation mailbox =? parent) &&
      match SdoMailbox.rq_phase r with SdoMailbox.staged | SdoMailbox.active => true | _ => false end
  end.

Section Turns.
Context {B : Type} `{EthercatBackend B} {W : Type}.
Implicit Types m : EthercatMaster B W.

Lemma owner_step_work (b : B) active parent mailbox :
  (owner_step b active parent mailbox).2 = has_work active parent mailbox /\
  (has_work active parent mailbox = false -> (owner_step b active parent mailbox).1 = (b, mailbox)).
Proof.
  unfold owner_step, has_work. destruct (mb_cancel_requested_generation mailbox =? 0); [|done]. cbn.
  destruct (mb_staged_request mailbox) as [id|]; [|done]. cbn.
  destruct (SdoMailbox.lookup id (mb_requests mailbox)) as [r|]; [|done].
  destruct (_ =? parent), (active =? parent), (mb_open_generation mailbox =? parent); cbn; try done.
  by destruct (SdoMailbox.rq_phase r).
Qed.

(** The mailbox [offset] places after the cursor. *)
Definition turn m (offset : nat) : nat :=
  ((em_mailbox_cursor m + offset) mod length (em_mailboxes m))%nat.

Definition working m (index : nat) : bool :=
  match em_mailboxes m !! index with
  | Some mailbox => has_work (em_active_generation m) (em_generation m) mailbox
  | None => false
  end.

Lemma with_mailboxes_same m : with_mailboxes m (em_mailboxes m) = m.
Proof. by destruct m. Qed.

Lemma service_first fuel offset (b : B) m first :
  (0 < length (em_mailboxes m))%nat -> (offset <= first < offset + fuel)%nat ->
  working m (turn m first) = true ->
  (forall o, (offset <= o < first)%nat -> working m (turn m o) = false) ->
  exists mailbox, em_mailboxes m !! turn m first = Some mailbox /\
    service_mailboxes fuel offset b m =
      let '(b', mailbox', _) := owner_step b (em_active_generation m) (em_generation m) mailbox in
      (b', with_cursor (with_mailboxes m (<[turn m first := mailbox']> (em_mailboxes m)))
             ((turn m first + 1) mod length (em_mailboxes m))%nat).
Proof.
  intros Hn. revert offset. induction fuel as [|fuel IH]; intros offset Hf Hw Hb; [lia|].
  cbn [service_mailboxes]. fold (turn m offset).
  destruct (em_mailboxes m !! turn m offset) as [mailbox|] eqn:E.
  2: { apply lookup_ge_None in E. pose proof (Nat.mod_upper_bound (em_mailbox_cursor m + offset)
         (length (em_mailboxes m))). unfold turn in E. lia. }
  destruct (owner_step_work b (em_active_generation m) (em_generation m) mailbox) as [Hs Hi].
  destruct (Nat.eq_dec offset first) as [->|Hne].
  - exists mailbox. split; [done|]. unfold working in Hw. rewrite E in Hw. rewrite Hw in Hs.
    destruct (owner_step _ _ _ mailbox) as [[b1 mailbox1] stepped]. cbn in Hs. by subst.
  - assert (working m (turn m offset) = false) as Hno by (apply Hb; lia).
    unfold working in Hno. rewrite E in Hno. rewrite Hno in Hs. specialize (Hi Hno).
    destruct (owner_step _ _ _ mailbox) as [[b1 mailbox1] stepped]. cbn in Hs, Hi. subst stepped.
    injection Hi as -> ->. rewrite list_insert_id, with_mailboxes_same by done.
    apply IH; [lia|done|]. intros o Ho. apply Hb. lia.
Qed.

(** The service of one cycle, and of several. *)
Definition service (s : B * EthercatMaster B W) : B * EthercatMaster B W :=
  service_mailboxes (length (em_mailboxes s.2)) 0 s.1 s.2.

(** The turns a mailbox has to wait. *)
Definition distance m (index : nat) : nat :=
  ((index + length (em_mailboxes m) - em_mailbox_cursor m) mod length (em_mailboxes m))%nat.

Lemma mod_within (x n : nat) :
  (x < 2 * n)%nat -> (x mod n = if x <? n then x else x - n)%nat.
Proof.
  intros Hx. destruct (Nat.ltb_spec x n); [by apply Nat.mod_small|].
  replace x with ((x - n) + 1 * n)%nat at 1 by lia. rewrite Nat.Div0.mod_add. apply Nat.mod_small. lia.
Qed.

Ltac split_ltb :=
  repeat match goal with |- context [(?x <? ?y)%nat] => destruct (Nat.ltb_spec x y) end.

Lemma wait_decreases (n c index first : nat) :
  (index < n -> c < n -> first < (index + n - c) mod n ->
   (index + n - ((c + first) mod n + 1) mod n) mod n < (index + n - c) mod n)%nat.
Proof.
  intros Hi Hc Hf. rewrite (mod_within (index + n - c)) in Hf |- * by lia.
  rewrite (mod_within (c + first)) by (destruct (Nat.ltb_spec (index + n - c) n); lia).
  destruct (Nat.ltb_spec (index + n - c) n), (Nat.ltb_spec (c + first) n).
  all: match goal with |- context [((?x + 1) mod ?y)%nat] => rewrite (mod_within (x + 1)) by lia end.
  all: split_ltb; rewrite mod_within by lia; split_ltb; lia.
Qed.

Lemma turn_distance m index :
  (index < length (em_mailboxes m))%nat -> (em_mailbox_cursor m < length (em_mailboxes m))%nat ->
  turn m (distance m index) = index /\ (distance m index < length (em_mailboxes m))%nat.
Proof.
  unfold turn, distance. set (n := length (em_mailboxes m)). set (c := em_mailbox_cursor m).
  intros Hi Hc. split; [|apply Nat.mod_upper_bound; lia].
  rewrite (mod_within (index + n - c)) by lia. destruct (Nat.ltb_spec (index + n - c) n);
    rewrite mod_within by lia; split_ltb; lia.
Qed.

Lemma first_working m d :
  working m (turn m d) = true ->
  exists first, (first <= d)%nat /\ working m (turn m first) = true /\
    forall o, (o < first)%nat -> working m (turn m o) = false.
Proof.
  induction d as [d IH] using lt_wf_ind. intros Hd.
  destruct (decide (Forall (fun o => working m (turn m o) = false) (seq 0 d))) as [Hf|Hn].
  - exists d. split_and!; [done|done|]. intros o Ho. rewrite Forall_forall in Hf. apply Hf.
    apply elem_of_seq. lia.
  - apply not_Forall_Exists in Hn; [|apply _]. apply Exists_exists in Hn as (o & Ho & Hw).
    apply elem_of_seq in Ho. cbn in Hw. apply not_false_iff_true in Hw.
    destruct (IH o ltac:(lia) Hw) as (first & Hle & ?). exists first. split; [lia|done].
Qed.

(** One service steps the first working mailbox from the cursor, and leaves the others alone. *)
Lemma service_step (s : B * EthercatMaster B W) index mailbox :
  (em_mailbox_cursor s.2 < length (em_mailboxes s.2))%nat ->
  em_mailboxes s.2 !! index = Some mailbox ->
  has_work (em_active_generation s.2) (em_generation s.2) mailbox = true ->
  em_mailboxes (service s).2 !! index =
    Some (owner_step s.1 (em_active_generation s.2) (em_generation s.2) mailbox).1.2 /\
    em_mailbox_cursor (service s).2 = ((index + 1) mod length (em_mailboxes s.2))%nat \/
  em_mailboxes (service s).2 !! index = Some mailbox /\
    (distance (service s).2 index < distance s.2 index)%nat /\
    (em_mailbox_cursor (service s).2 < length (em_mailboxes (service s).2))%nat /\
    length (em_mailboxes (service s).2) = length (em_mailboxes s.2) /\
    em_active_generation (service s).2 = em_active_generation s.2 /\
    em_generation (service s).2 = em_generation s.2.
Proof.
  destruct s as [b m]. unfold service. cbn [fst snd]. intros Hc Hm Hw.
  set (n := length (em_mailboxes m)) in *.
  assert (index < n)%nat as Hi by (by apply lookup_lt_Some in Hm).
  destruct (turn_distance m index Hi Hc) as [Ht Hd].
  destruct (first_working m (distance m index)) as (first & Hle & Hfw & Hb).
  { rewrite Ht. unfold working. by rewrite Hm. }
  destruct (service_first n 0 b m first) as (mailbox0 & Hm0 & ->); [lia|lia|done|intros o Ho; apply Hb; lia|].
  destruct (Nat.eq_dec first (distance m index)) as [->|Hne].
  - left. rewrite Ht in Hm0 |- *. rewrite Hm in Hm0. injection Hm0 as <-.
    destruct (owner_step b _ _ mailbox) as [[b1 mailbox1] stepped]. cbn.
    by rewrite list_lookup_insert_eq.
  - right. assert (turn m first <> index) as Hti.
    { intros E. assert (turn m first = turn m (distance m index)) as E2 by congruence.
      unfold turn in E2. fold n in E2, Hd. rewrite !mod_within in E2 by lia.
      destruct (Nat.ltb_spec (em_mailbox_cursor m + first) n),
        (Nat.ltb_spec (em_mailbox_cursor m + distance m index) n); lia. }
    destruct (owner_step b _ _ mailbox0) as [[b1 mailbox1] stepped]. cbn.
    rewrite list_lookup_insert_ne by done. split_and!; try done.
    + unfold distance at 1. cbn. rewrite length_insert. apply wait_decreases; [done|done|].
      unfold distance in Hle, Hne. lia.
    + rewrite length_insert. apply Nat.mod_upper_bound. lia.
    + by rewrite length_insert.
Qed.

(** The mailboxes take turns.  A mailbox with work for the owner gets its step within as many
    cycles as there are mailboxes: the cycles before it do not touch it, and the one that serves it
    puts the cursor behind it. *)
Theorem mailbox_served (s : B * EthercatMaster B W) index mailbox :
  (em_mailbox_cursor s.2 < length (em_mailboxes s.2))%nat ->
  em_mailboxes s.2 !! index = Some mailbox ->
  has_work (em_active_generation s.2) (em_generation s.2) mailbox = true ->
  exists k, (k < length (em_mailboxes s.2))%nat /\
    let s' := Nat.iter k service s in
    em_mailboxes s'.2 !! index = Some mailbox /\
    em_mailboxes (service s').2 !! index =
      Some (owner_step s'.1 (em_active_generation s.2) (em_generation s.2) mailbox).1.2 /\
    em_mailbox_cursor (service s').2 = ((index + 1) mod length (em_mailboxes s.2))%nat.
Proof.
  intros Hc Hm Hw.
  destruct (turn_distance s.2 index (lookup_lt_Some _ _ _ Hm) Hc) as [_ Hd].
  enough (exists k, (k <= distance s.2 index)%nat /\
    let s' := Nat.iter k service s in
    em_mailboxes s'.2 !! index = Some mailbox /\
    em_mailboxes (service s').2 !! index =
      Some (owner_step s'.1 (em_active_generation s.2) (em_generation s.2) mailbox).1.2 /\
    em_mailbox_cursor (service s').2 = ((index + 1) mod length (em_mailboxes s.2))%nat)
    as (k & Hk & Hr) by (exists k; split; [lia|exact Hr]).
  clear Hd. remember (distance s.2 index) as d eqn:Ed. revert s Hc Hm Hw Ed.
  induction d as [d IH] using lt_wf_ind. intros s Hc Hm Hw ->.
  destruct (service_step s index mailbox Hc Hm Hw) as [[Hs Hcur]|(Hm' & Hd & Hc' & Hl & Ha & Hg)].
  - exists 0%nat. cbn. split; [lia|done].
  - rewrite <- Ha, <- Hg in Hw.
    destruct (IH _ Hd (service s) Hc' Hm' Hw eq_refl) as (k & Hk & Hr).
    exists (S k). split; [lia|]. rewrite Ha, Hg in Hr.
    replace (Nat.iter (S k) service s) with (Nat.iter k service (service s)) by apply Nat.iter_swap.
    by rewrite Hl in Hr.
Qed.

End Turns.

(** ** The life cycle *)

(** A mailbox of a closed master: nothing is open, staged or being cancelled. *)
Definition mailbox_closed (mailbox : EthercatMailbox) : Prop :=
  mailbox_inv 0 mailbox /\ mb_open_generation mailbox = 0 /\
  mb_cancel_requested_generation mailbox = 0 /\ mb_staged_request mailbox = None.

Section Life.
Context {B : Type} `{EthercatBackend B} {W : Type}.
Implicit Types m : EthercatMaster B W.

(** Between operations the master is closed, with every mailbox closed, or open for one generation,
    with the gate open and no cycle inside. *)
Record master_inv m : Prop := {
  gi_next : is_word 64 (em_next_generation m);
  gi_state :
    (em_admission m = 0 /\ em_active_generation m = 0 /\ Forall mailbox_closed (em_mailboxes m)) \/
    (em_admission m = kCycleOpenBit /\ em_active_generation m = em_generation m /\
     em_generation m <> 0 /\ is_some (em_backend m) = true /\
     Forall (mailbox_inv (em_generation m)) (em_mailboxes m)) }.

Lemma gate_closed_inv m :
  master_inv m -> admission_is_open m = false ->
  em_admission m = 0 /\ em_active_generation m = 0 /\ Forall mailbox_closed (em_mailboxes m).
Proof.
  intros [_ [Hs|(Ha & _)]] Hg; [done|]. unfold admission_is_open in Hg. by rewrite Ha in Hg.
Qed.

Lemma take_generation_spec next :
  is_word 64 next -> let '(generation, next') := take_generation next in
  generation <> 0 /\ is_word 64 generation /\ is_word 64 next'.
Proof.
  intros Hn. unfold take_generation. destruct (Z.eqb_spec next 0) as [->|].
  - by vm_compute.
  - split_and!; [done|done|]. by apply wrap_range.
Qed.

(** The mailboxes of a closed master open for any generation. *)
Lemma open_mailboxes_success generation mailboxes :
  generation <> 0 -> Forall mailbox_closed mailboxes ->
  exists mailboxes', open_mailboxes generation mailboxes = (mailboxes', length mailboxes, success tt) /\
    Forall (mailbox_inv generation) mailboxes' /\
    Forall (fun mailbox => mb_open_generation mailbox = generation) mailboxes' /\
    length mailboxes' = length mailboxes.
Proof.
  intros Hg Hf. induction Hf as [|mailbox mailboxes (Hi & Ho & Hc & Hs) _ (mailboxes' & E & H1 & H2 & H3)];
    cbn; [by eexists|].
  pose proof (SdoMailbox.open_for_parent_preserves 0 mailbox generation) as Hp.
  unfold open_for_parent in *. rewrite Ho, Hc, Hs, (proj2 (Z.eqb_neq generation 0)) in * by done. cbn in *.
  rewrite E. eexists. split; [done|]. destruct (Hp Hi) as [Hi' _].
  split_and!; [by constructor|by constructor|by cbn; f_equal].
Qed.

Lemma configure_axes_length (b b' : B) axes handles :
  configure_axes b axes = (b', success handles) -> length handles = length axes.
Proof.
  revert b handles. induction axes as [|c axes IH]; intros b handles; cbn; [by intros [= _ <-]|].
  destruct (configure_axis b c) as [b1 [h|e]]; [|done].
  destruct (configure_axes b1 axes) as [b2 [rest|e]] eqn:E; [|done]. intros [= <- <-]. cbn.
  by rewrite (IH _ _ E).
Qed.

(** C31. Opening is all or nothing.  A successful [open] of a closed master leaves the gate open and
    every mailbox open for the master's new generation, with handles that the initialised backend
    configured for each of at most twelve axes; a failed one leaves the gate closed and every
    mailbox as it was, and a backend that was initialised is deactivated again. *)
Theorem master_open_all_or_nothing m :
  master_inv m -> admission_is_open m = false ->
  match open m with
  | (m', success _) =>
      admission_is_open m' = true /\ em_health m' = healthy /\ em_generation m' <> 0 /\
      Forall (fun mailbox => mb_open_generation mailbox = em_generation m') (em_mailboxes m') /\
      (0 < length (em_axes m) <= kMaximumAxes)%nat /\
      length (em_pdo_handles m') = length (em_axes m) /\
      exists b b1 b2, em_backend m = Some b /\ be_initialize b = (b1, success tt) /\
        configure_axes b1 (em_axes m) = (b2, success (em_pdo_handles m'))
  | (m', failure _) =>
      admission_is_open m' = false /\ em_mailboxes m' = em_mailboxes m /\
      (em_backend m' = em_backend m \/
       (exists b b1 e, em_backend m = Some b /\ be_initialize b = (b1, failure e) /\
          em_backend m' = Some b1) \/
       exists b1, em_backend m' = Some (be_deactivate b1))
  end.
Proof.
  intros Hi Hg. destruct (gate_closed_inv m Hi Hg) as (_ & _ & Hm). unfold open. rewrite Hg.
  unfold validate_configuration. destruct (em_backend m) as [b|] eqn:Eb; [|split_and!; [exact Hg|done|by left]].
  destruct (_ || _) eqn:Ea; [split_and!; [exact Hg|done|left; by rewrite Eb]|].
  destruct (validate_axes [] (em_axes m)) as [[]|e]; [|split_and!; [exact Hg|done|left; by rewrite Eb]].
  destruct (be_initialize b) as [b1 [[]|e]] eqn:Ei; [|split_and!; [exact Hg|done|right; left; eauto 6]].
  destruct (configure_axes b1 (em_axes m)) as [b2 [handles|e]] eqn:Ec; [|split_and!; [exact Hg|done|right; right; by eexists]].
  destruct (bind_fields b2 (em_fields m)) as [[b3 fields] [[]|e]]; [|split_and!; [exact Hg|done|right; right; by eexists]].
  destruct (be_activate b3) as [b4 [[]|e]]; [|split_and!; [exact Hg|done|right; right; by eexists]].
  pose proof (take_generation_spec _ (gi_next m Hi)) as Ht. cbn [em_next_generation with_fields].
  destruct (take_generation (em_next_generation m)) as [generation next].
  destruct Ht as (Ht & _ & _).
  destruct (open_mailboxes_success generation (em_mailboxes m) Ht Hm) as (mailboxes & Eo & _ & Hog & _).
  cbn [em_mailboxes with_generations with_fields]. rewrite Eo. cbn.
  apply orb_false_iff in Ea as [Ea1 Ea2]. apply Nat.eqb_neq in Ea1. apply Nat.ltb_ge in Ea2.
  split_and!; try done; [lia|by eapply configure_axes_length|eauto 8].
Qed.

(** What clients do to a mailbox of the master. *)
Inductive ClientOp :=
  | client_open | client_close | client_download (address : ObjectAddress) (data : Bytes)
  | client_upload (address : ObjectAddress) | client_cycle.

Definition apply_client m (op : ClientOp) (mailbox : EthercatMailbox) : EthercatMailbox :=
  match op with
  | client_open => (SdoMailbox.open (is_some (em_backend m)) (em_active_generation m) mailbox).1
  | client_close => SdoMailbox.close mailbox
  | client_download address data =>
      (SdoMailbox.queue_download (em_active_generation m) mailbox address data).1
  | client_upload address => (SdoMailbox.queue_upload (em_active_generation m) mailbox address).1
  | client_cycle => SdoMailbox.cycle (em_active_generation m) mailbox
  end.

Inductive MasterOp :=
  | master_open | master_close | master_cycle (w : W)
  | master_client (index : nat) (op : ClientOp)
  | master_register (field : CyclicField) (is_input : bool)
  | master_register_image (slave : EthercatSlaveAddress) (address : ObjectAddress)
      (direction : PdoDirection) (bit_length id : Z)
  | master_write_image (id value : Z)
  | master_cycle_handler (f : option (Z -> W -> list Cia402PdoView -> W * list Cia402PdoView)) (context : Z)
  | master_image_handler (f : option (Z -> W -> Bytes -> DomainHealth -> bool -> W * Bytes)) (context : Z)
  | master_supervised_handler
      (f : option (Z -> W -> list Cia402PdoView -> DomainHealth -> bool -> W * list Cia402PdoView)) (context : Z)
  | master_clear_handler (context : Z).

(** [mailbox(i)] throws out of range: nothing is done. *)
Definition apply_master m (op : MasterOp) : EthercatMaster B W :=
  match op with
  | master_open => (open m).1
  | master_close => close m
  | master_cycle w => (cycle w m).2
  | master_client index op =>
      match em_mailboxes m !! index with
      | None => m
      | Some mailbox => with_mailboxes m (<[index := apply_client m op mailbox]> (em_mailboxes m))
      end
  | master_register field is_input => (register_field m field is_input).1
  | master_register_image slave address direction bit_length id =>
      (register_process_image_field m slave address direction bit_length id).1
  | master_write_image id value => (write_process_image_field m id value).1
  | master_cycle_handler f context => (set_cycle_handler m f context).1
  | master_image_handler f context => (set_process_image_handler m f context).1
  | master_supervised_handler f context => (set_supervised_cycle_handler m f context).1
  | master_clear_handler context => (clear_supervised_cycle_handler m context).1
  end.

Lemma client_open_mailbox m op mailbox :
  mailbox_inv (em_active_generation m) mailbox ->
  mailbox_inv (em_active_generation m) (apply_client m op mailbox).
Proof.
  intros Hi. destruct op.
  - exact (proj1 (SdoMailbox.open_preserves _ _ _ Hi)).
  - exact (proj1 (SdoMailbox.close_preserves _ _ Hi)).
  - exact (proj1 (SdoMailbox.enqueue_preserves _ _ _ _ _ Hi)).
  - exact (proj1 (SdoMailbox.enqueue_preserves _ _ _ _ _ Hi)).
  - exact (proj1 (SdoMailbox.cycle_preserves _ _ Hi)).
Qed.

Lemma client_closed_mailbox m op mailbox :
  em_active_generation m = 0 -> mailbox_closed mailbox -> mailbox_closed (apply_client m op mailbox).
Proof.
  intros Ha (Hi & Ho & Hc & Hs). split.
  - rewrite <- Ha. apply client_open_mailbox. by rewrite Ha.
  - destruct op; cbn; unfold SdoMailbox.open, SdoMailbox.close, SdoMailbox.queue_download,
      SdoMailbox.queue_upload, SdoMailbox.enqueue, SdoMailbox.cycle; rewrite ?Ha, ?Ho; cbn;
      try destruct (is_some _); done.
Qed.

Lemma parent_close_closed generation mailbox :
  generation <> 0 -> mailbox_inv generation mailbox ->
  mailbox_closed (reset_after_parent_deactivate (close_for_parent mailbox generation)).
Proof.
  intros Hg Hi. split; [|done].
  refine (proj1 (SdoMailbox.parent_close_preserves generation mailbox generation Hg _ Hi)).
  destruct (Z.eq_dec (mb_open_generation mailbox) 0) as [|Hn]; [by left|right].
  by apply (SdoMailbox.mi_open _ _ Hi).
Qed.

(** What a service keeps. *)
Lemma service_mailboxes_inv fuel offset (b : B) m :
  Forall (mailbox_inv (em_active_generation m)) (em_mailboxes m) ->
  let m' := (service_mailboxes fuel offset b m).2 in
  Forall (mailbox_inv (em_active_generation m)) (em_mailboxes m') /\
  exists cursor mailboxes, m' = with_cursor (with_mailboxes m mailboxes) cursor.
Proof.
  assert (exists cursor mailboxes, m = with_cursor (with_mailboxes m mailboxes) cursor) as Hsame
    by (exists (em_mailbox_cursor m), (em_mailboxes m); by destruct m).
  revert offset b m Hsame. induction fuel as [|fuel IH]; intros offset b m Hsame Hf; cbn; [done|].
  set (index := ((em_mailbox_cursor m + offset) mod length (em_mailboxes m))%nat).
  destruct (em_mailboxes m !! index) as [mailbox|] eqn:E; [|done].
  pose proof (SdoMailbox.owner_step_preserves b (em_active_generation m) (em_generation m) mailbox
    (Forall_lookup_1 _ _ _ _ Hf E)) as [Hi _].
  destruct (owner_step b _ _ mailbox) as [[b1 mailbox1] stepped]. cbn in Hi.
  assert (Forall (mailbox_inv (em_active_generation m)) (<[index := mailbox1]> (em_mailboxes m))) as Hf1
    by (by apply Forall_insert).
  destruct stepped; cbn; [split; [done|]; eauto|].
  destruct (IH (S offset) b1 (with_mailboxes m (<[index := mailbox1]> (em_mailboxes m)))) as (Hf2 & cursor & mailboxes & E2);
    [by exists (em_mailbox_cursor m), (<[index := mailbox1]> (em_mailboxes m)); destruct m|done|].
  split; [done|]. rewrite E2. eauto.
Qed.

(** Changes that leave the life cycle alone. *)
Lemma master_inv_frame m m' :
  em_next_generation m' = em_next_generation m -> em_admission m' = em_admission m ->
  em_active_generation m' = em_active_generation m -> em_generation m' = em_generation m ->
  em_mailboxes m' = em_mailboxes m -> is_some (em_backend m') = is_some (em_backend m) ->
  master_inv m -> master_inv m'.
Proof. intros Hn Ha Hac Hg Hm Hb []. split; rewrite ?Hn, ?Ha, ?Hac, ?Hg, ?Hm, ?Hb; done. Qed.

Lemma open_inv m : master_inv m -> master_inv (open m).1.
Proof.
  intros Hi. destruct (admission_is_open m) eqn:Hg; [unfold open; by rewrite Hg|].
  destruct (gate_closed_inv m Hi Hg) as (Ha & Hac & Hm). unfold open. rewrite Hg.
  unfold validate_configuration. destruct (em_backend m) as [b|] eqn:Eb; [|done].
  destruct (_ || _); [done|]. destruct (validate_axes [] (em_axes m)) as [[]|e]; [|done].
  destruct (be_initialize b) as [b1 [[]|e]];
    [|by eapply master_inv_frame; [| | | | | |exact Hi]; try done; cbn; rewrite Eb].
  destruct (configure_axes b1 (em_axes m)) as [b2 [handles|e]];
    [|by eapply master_inv_frame; [| | | | | |exact Hi]; try done; cbn; rewrite Eb].
  destruct (bind_fields b2 (em_fields m)) as [[b3 fields] [[]|e]];
    [|by eapply master_inv_frame; [| | | | | |exact Hi]; try done; cbn; rewrite Eb].
  destruct (be_activate b3) as [b4 [[]|e]];
    [|by eapply master_inv_frame; [| | | | | |exact Hi]; try done; cbn; rewrite Eb].
  pose proof (take_generation_spec _ (gi_next m Hi)) as Ht. cbn [em_next_generation with_fields].
  destruct (take_generation (em_next_generation m)) as [generation next].
  destruct Ht as (Ht & _ & Hn).
  destruct (open_mailboxes_success generation (em_mailboxes m) Ht Hm) as (mailboxes & Eo & Hinv & _).
  cbn [em_mailboxes with_generations with_fields]. rewrite Eo. cbn. split; cbn; [done|right]. done.
Qed.

Lemma close_inv m : master_inv m -> master_inv (close m).
Proof.
  intros [Hn [(Ha & Hac & Hm)|(Ha & Hac & Hg & Hb & Hm)]]; unfold close; rewrite Ha; cbn.
  - split; cbn; [done|left]. done.
  - destruct (em_backend m) as [b|]; [|done].
    change (gate_open kCycleOpenBit) with true. split; cbn; [done|left]. split_and!; [done|done|].
    rewrite !Forall_map. eapply Forall_impl; [exact Hm|]. intros mailbox Hi. by apply parent_close_closed.
Qed.

Lemma cycle_inv w m : master_inv m -> master_inv (cycle w m).2.
Proof.
  intros Hi. unfold cycle, try_enter_cycle.
  destruct (admission_successor (em_admission m)) as [a|] eqn:Ea;
    [|by eapply master_inv_frame; [| | | | | |exact Hi]].
  pose proof Hi as [Hn [(Ha & _)|(Ha & Hac & Hg & Hb & Hm)]]; [by rewrite Ha in Ea|].
  assert (a = em_admission m + 1) as ->.
  { unfold admission_successor in Ea. destruct (_ || _); [done|]. by injection Ea. }
  cbn [em_backend with_admission]. destruct (em_backend m) as [b|] eqn:Eb; [|done].
  unfold exchange. cbn [em_handlers em_pdo_handles em_pdo_views em_axes with_admission].
  destruct (if input_available _ _ then _ else _) as [views valid].
  destruct (run_handlers _ _ _ _ _ _) as [[w1 image1] views1].
  destruct (write_all _ _ _ _ _) as [image2 written].
  match goal with |- context [service_mailboxes ?n ?o ?b ?m] =>
    pose proof (service_mailboxes_inv n o b m) as Hs;
    destruct (service_mailboxes n o b m) as [b2 m2] end.
  cbn in Hs. rewrite Hac in Hs. destruct (Hs Hm) as (Hm2 & cursor & mailboxes & ->).
  split; cbn; [done|right]. cbn in Hm2. rewrite Ha. split_and!; try done.
Qed.

Lemma apply_master_inv m op : master_inv m -> master_inv (apply_master m op).
Proof.
  intros Hi. destruct op; cbn.
  - by apply open_inv.
  - by apply close_inv.
  - by apply cycle_inv.
  - destruct (em_mailboxes m !! index) as [mailbox|] eqn:E; [|done].
    destruct Hi as [Hn [(Ha & Hac & Hm)|(Ha & Hac & Hg & Hb & Hm)]]; split; cbn; try done; [left|right];
      split_and!; try done; apply Forall_insert; try done; pose proof (Forall_lookup_1 _ _ _ _ Hm E).
    + by apply client_closed_mailbox.
    + rewrite <- Hac. apply client_open_mailbox. by rewrite Hac.
  - unfold register_field. repeat case_match; try done; by eapply master_inv_frame; [| | | | | |exact Hi].
  - unfold register_process_image_field. repeat case_match; try done;
      by eapply master_inv_frame; [| | | | | |exact Hi].
  - unfold write_process_image_field. repeat case_match; try done;
      eapply master_inv_frame; [| | | | | |exact Hi]; try done;
      match goal with E : em_backend m = _ |- _ => by rewrite E end.
  - unfold set_cycle_handler. repeat case_match; try done; by eapply master_inv_frame; [| | | | | |exact Hi].
  - unfold set_process_image_handler. repeat case_match; try done;
      by eapply master_inv_frame; [| | | | | |exact Hi].
  - unfold set_supervised_cycle_handler. repeat case_match; try done;
      by eapply master_inv_frame; [| | | | | |exact Hi].
  - unfold clear_supervised_cycle_handler. repeat case_match; try done;
      by eapply master_inv_frame; [| | | | | |exact Hi].
Qed.

(** The life-cycle invariant.  Whatever sequence of operations runs on a new master and its
    mailboxes: the master is closed, with the gate closed, no generation active, and every mailbox
    closed with nothing staged or being cancelled (so the next [open] cannot find stale mailbox
    state); or open for one generation, with the gate open, no cycle counted inside, and every
    mailbox in its invariant for that generation. *)
Theorem master_invariant (backend : option B) axes (ops : list MasterOp) :
  master_inv (fold_left apply_master ops (construct backend axes)).
Proof.
  assert (master_inv (construct (W := W) backend axes)) as Hi.
  { split; [by vm_compute|left]. split_and!; [done|done|]. cbn. apply Forall_map, Forall_true.
    intros c. split; [apply SdoMailbox.create_inv|done]. }
  revert Hi. generalize (construct (W := W) backend axes) as m.
  induction ops as [|op ops IH]; intros m Hi; cbn; [done|]. by apply IH, apply_master_inv.
Qed.

End Life.

End Master.

(** ** A concrete master *)

Module MasterExamples.

Import SdoMailbox (create, mailbox_inv) Master.

(** A backend that lays the entries out one after the other, with a healthy domain. *)
Record Bench := mkBench { bench_offset : nat; bench_image : Bytes; bench_health : DomainHealth }.

Definition progress_done : SdoTransferProgress := mkProgress completed io none 0.

#[export] Instance BenchBackend : EthercatBackend Bench := {|
  be_initialize b := (mkBench 0 (repeat 0 24) (bench_health b), success tt);
  be_configure_slave b _ := (b, success tt);
  be_bind_pdo_entry b _ _ bits :=
    (mkBench (bench_offset b + Z.to_nat (bits / 8)) (bench_image b) (bench_health b),
     success (mkLocation (bench_offset b) 0 bits));
  be_activate b := (b, success tt);
  be_deactivate b := b;
  be_receive b := b;
  be_process_domain b := b;
  be_process_image b := bench_image b;
  be_set_process_image b image := mkBench (bench_offset b) image (bench_health b);
  be_queue_domain b := b;
  be_send b := b;
  be_domain_health b := bench_health b;
  be_progress_download_sdo b _ _ := (b, Some progress_done);
  be_progress_upload_sdo b _ _ data := (b, data, Some progress_done);
  be_progress_cancel_sdo b _ := (b, Some progress_done) |}.

#[export] Instance BenchLaws : EthercatBackendLaws Bench.
Proof. by split. Qed.

Definition zero_limit : double := SpecFloat.S754_zero false.

Definition axis : EthercatAxisConfiguration :=
  mkAxisConfiguration (mkAxisConfig "axis" 0 1 vendor_id product_code revision csp
    zero_limit zero_limit zero_limit 100 "group" zero_limit zero_limit) [].

Definition good_domain : DomainHealth := mkDomainHealth 3 (Some 3) true true true 0 1.
Definition lost_domain : DomainHealth := mkDomainHealth 0 (Some 3) false false false 0 0.

(** A handler that enables the axis and stages a position. *)
Definition staged_view (p : Cia402PdoView) : Cia402PdoView :=
  mkPdo (status_word p) (mode_display p) (actual_position p) (actual_velocity p) (actual_torque p)
    0x000F (-2) 0 0.

Definition handler : Z -> unit -> list Cia402PdoView -> unit * list Cia402PdoView :=
  fun _ w views => (w, map staged_view views).

Definition bench (domain : DomainHealth) : Bench := mkBench 0 [] domain.

Definition closed_master (domain : DomainHealth) : EthercatMaster Bench unit :=
  (set_cycle_handler (construct (Some (bench domain)) [axis]) (Some handler) 1).1.

Definition opened_master (domain : DomainHealth) : EthercatMaster Bench unit :=
  (open (closed_master domain)).1.

(** The outputs follow the handler on a healthy domain, and are zero when the domain is lost. *)
Example good_cycle :
  option_map bench_image (em_backend (cycle tt (opened_master good_domain)).2) =
    Some (repeat 0 13 ++ [15; 0; 254; 255; 255; 255] ++ repeat 0 5).
Proof. by vm_compute. Qed.

Example lost_cycle :
  option_map bench_image (em_backend (cycle tt (opened_master lost_domain)).2) = Some (repeat 0 24) /\
  em_health (cycle tt (opened_master lost_domain)).2 = degraded.
Proof. by vm_compute. Qed.

Definition bound_handles : Cia402PdoHandles :=
  mkHandles (field_at 2 false 0) (field_at 1 true 2) (field_at 4 true 3) (field_at 4 true 7)
    (field_at 2 true 11) (field_at 2 false 13) (field_at 4 true 15) int32_field int16_field.

Lemma bound_handles_bound : handles_bound bound_handles csp 24.
Proof.
  split.
  - repeat constructor; cbn; lia.
  - intros i j f g Hij Hf Hg.
    do 7 (destruct i as [|i]; [injection Hf as <-; do 7 (destruct j as [|j];
      [injection Hg as <-; first [done|vm_compute; lia]|]); done|]). done.
  - done.
Qed.

Lemma example_layout : layout_bound [bound_handles] [axis] 24.
Proof.
  split; [done| |].
  - intros [|i] h c [= <-] [= <-]. apply bound_handles_bound.
  - intros [|i] [|j] h g c d f k Hij Hh Hc Hg Hd; done.
Qed.

Lemma staged_typed p : view_typed bound_handles csp (staged_view p).
Proof. split; vm_compute; intuition done. Qed.

Lemma example_handlers_typed :
  handlers_typed (em_handlers (closed_master good_domain)) [bound_handles] [axis].
Proof.
  split; try done. intros f w views [= <-] [Hl Ht].
  split; [cbn; by rewrite length_map|].
  intros [|i] h c p [= <-] [= <-] Hp. cbn in Hp. rewrite list_lookup_fmap in Hp.
  apply fmap_Some in Hp as (p0 & _ & ->). apply staged_typed.
Qed.

Lemma cycle_outputs_gated_witness :
  exists sent, em_backend (cycle tt (opened_master good_domain)).2 = Some sent /\
    length (be_process_image sent) = 24%nat.
Proof.
  destruct (cycle_outputs_gated tt (opened_master good_domain) (mkBench 19 (repeat 0 24) good_domain)
    (2 ^ 63 + 1)) as (sent & Hs & Hl & _).
  - by vm_compute.
  - split; vm_compute; intuition done.
  - by vm_compute.
  - exact example_layout.
  - exact example_handlers_typed.
  - split; [done|]. intros [|i] h c p [= <-] [= <-] [= <-]. split; vm_compute; intuition done.
  - exists sent. split; [exact Hs|exact Hl].
Defined.

Lemma closed_master_inv : master_inv (closed_master good_domain).
Proof.
  split; [split; vm_compute; intuition done|left]. split_and!; [done|done|].
  apply Forall_cons. split; [|by constructor]. split; [apply SdoMailbox.create_inv|done].
Qed.

Lemma master_open_all_or_nothing_witness :
  admission_is_open (opened_master good_domain) = true /\
  em_pdo_handles (opened_master good_domain) = [bound_handles].
Proof.
  pose proof (master_open_all_or_nothing (closed_master good_domain) closed_master_inv eq_refl) as Ho.
  change (open (closed_master good_domain)) with (opened_master good_domain, (open (closed_master good_domain)).2) in Ho.
  split; [exact (proj1 Ho)|by vm_compute].
Defined.

(** Two mailboxes with work: the one behind the cursor waits one turn. *)
Definition busy (m : SdoMailbox.EthercatMailbox) : SdoMailbox.EthercatMailbox :=
  SdoMailbox.cycle 1 (SdoMailbox.queue_upload 1 m (mkObject 0x1018 1)).1.

Definition busy_master : EthercatMaster Bench unit :=
  let m := opened_master good_domain in
  with_mailboxes m (map busy (em_mailboxes m ++ em_mailboxes m)).

Lemma mailbox_served_witness :
  exists k, (k < 2)%nat /\
    em_mailbox_cursor (service (Nat.iter k service (bench good_domain, busy_master))).2 = 0%nat.
Proof.
  destruct (mailbox_served (bench good_domain, busy_master) 1
    (busy (SdoMailbox.with_health (SdoMailbox.with_open (create (mkSlave 0 1)) 1) healthy)))
    as (k & Hk & _ & _ & Hc); [vm_compute; lia|by vm_compute|by vm_compute|].
  exists k. split; [exact Hk|exact Hc].
Defined.

End MasterExamples.
