(* ===== verification/IghBackend.v ===== *)
(** * The IgH EtherCAT backend

    [transport/ethercat/igh_backend.cpp]: the backend of the EtherCAT master over the IgH library.
    The library ([ecrt.h]) is an interface ([Ecrt]) over an opaque state; pointers it hands out are
    numbers, a null pointer is [None].  The backend records its calls of the library, with what
    they answer, so that the order of the calls can be stated. *)
From S2P Require Export Prelude Pdo EthercatMaster.

(** ** The library *)

Inductive ec_request_state := EC_REQUEST_UNUSED | EC_REQUEST_BUSY | EC_REQUEST_SUCCESS | EC_REQUEST_ERROR
  | EC_REQUEST_OTHER.

#[export] Instance ec_request_state_eq_dec : EqDecision ec_request_state.
Proof. solve_decision. Defined.

Record ec_slave_info := mkSlaveInfo {
  si_position : Z; si_alias : Z; si_vendor_id : Z; si_product_code : Z; si_revision_number : Z }.

(** A sync manager as [ecrt_slave_config_pdos] gets it: its index, its direction, its PDOs. *)
Record ec_sync_info := mkSync { sy_index : Z; sy_direction : ElmoGold.PdoDirection; sy_pdos : list ElmoGold.PdoDefinition }.

(** Return codes below zero are errors. *)
Class Ecrt (E : Type) := {
  ecrt_request_master : E -> Z -> E * option Z;
  ecrt_release_master : E -> Z -> E;
  ecrt_master_create_domain : E -> Z -> E * option Z;
  ecrt_master : E -> Z -> E * (Z * (Z * Z));                          (* slave_count, scan_busy *)
  ecrt_master_get_slave : E -> Z -> Z -> E * (Z * ec_slave_info);
  ecrt_master_slave_config : E -> Z -> EthercatSlaveAddress -> Z -> Z -> E * option Z;
  ecrt_slave_config_pdos : E -> Z -> list ec_sync_info -> E * Z;
  ecrt_slave_config_sdo : E -> Z -> ObjectAddress -> Bytes -> E * Z;
  ecrt_slave_config_dc : E -> Z -> DistributedClockConfiguration -> E * Z;
  ecrt_master_select_reference_clock : E -> Z -> Z -> E * Z;
  ecrt_slave_config_create_sdo_request : E -> Z -> ObjectAddress -> nat -> E * option Z;
  ecrt_sdo_request_timeout : E -> Z -> Z -> E * Z;
  ecrt_slave_config_reg_pdo_entry : E -> Z -> ObjectAddress -> Z -> E * (Z * Z);   (* offset, bit position *)
  ecrt_master_activate : E -> Z -> E * Z;
  ecrt_master_deactivate : E -> Z -> E;
  ecrt_domain_size : E -> Z -> nat;
  ecrt_domain_data : E -> Z -> option Z;
  ecrt_master_receive : E -> Z -> E;
  ecrt_domain_process : E -> Z -> E;
  ecrt_domain_queue : E -> Z -> E;
  ecrt_master_send : E -> Z -> E;
  ecrt_domain_state : E -> Z -> Z * bool;                   (* working_counter, wc_state is complete *)
  ecrt_master_state : E -> Z -> bool;                                              (* link_up *)
  ecrt_slave_config_state : E -> Z -> bool * bool;                        (* online, operational *)
  ecrt_sdo_request_index : E -> Z -> ObjectAddress -> E * Z;
  ecrt_sdo_request_data_size : E -> Z -> nat;
  ecrt_sdo_request_data : E -> Z -> Bytes;
  ecrt_sdo_request_set_data : E -> Z -> Bytes -> E;           (* the bytes stored behind the pointer *)
  ecrt_sdo_request_write : E -> Z -> E * Z;
  ecrt_sdo_request_read : E -> Z -> E * Z;
  ecrt_sdo_request_state : E -> Z -> E * ec_request_state;
  domain_memory : E -> Z -> Bytes;                                (* the bytes behind the domain data *)
  set_domain_memory : E -> Z -> Bytes -> E }.

(** A call of the library that changes it or asks about it, with the answer where it matters. *)
Inductive ecall :=
  | k_request_master (answer : option Z)
  | k_release_master (master : Z)
  | k_create_domain (master : Z) (answer : option Z)
  | k_master (master : Z)                                     (* configuration: [ecrt_master], [get_slave] *)
  | k_slave_config (master : Z) (answer : option Z)
  | k_config (configuration : Z)                                             (* PDOs, parameters, clock *)
  | k_register (configuration domain : Z)                                                  (* a PDO entry *)
  | k_create_request (configuration : Z) (answer : option Z)
  | k_request_setup (request : Z)
  | k_activate (master : Z) (answer : Z)
  | k_image (domain : Z)                                                     (* size and data of a domain *)
  | k_deactivate (master : Z)
  | k_exchange (master : Z)                                                        (* receive and send *)
  | k_domain (domain : Z)                                                         (* process and queue *)
  | k_prepare (request : Z)                                                       (* index and data *)
  | k_schedule (request : Z) (answer : Z)                                           (* write and read *)
  | k_state (request : Z) (answer : ec_request_state).

Module IghBackend.
Open Scope list_scope.
Open Scope Z_scope.

Definition kMailboxCapacity : nat := 4096.
Definition kMailboxTimeoutMs : Z := 1000.
Definition kDownloadRequestSizes : list nat := [1; 2; 4; 8]%nat.

Inductive ActiveSdo := active_none | active_download | active_upload.

#[export] Instance ActiveSdo_eq_dec : EqDecision ActiveSdo.
Proof. solve_decision. Defined.

Record Slave := mkIghSlave {
  sv_address : EthercatSlaveAddress;
  sv_ring_position : Z;
  sv_configuration : Z;
  sv_download_requests : list (option Z);
  sv_upload_request : option Z;
  sv_active_request : option Z;
  sv_active_sdo : ActiveSdo;
  sv_active_address : ObjectAddress;
  sv_active_upload_limit : nat }.

Record Impl := mkImpl {
  ig_master_index : Z;
  ig_master : option Z;
  ig_domain : option Z;
  ig_domain_data : option Z;
  ig_domain_size : nat;
  ig_activated : bool;
  ig_slaves : list Slave }.

Definition igh_call_succeeded (code : Z) : bool := 0 <=? code.

Definition same_address (address : EthercatSlaveAddress) (s : Slave) : bool :=
  (es_alias (sv_address s) =? es_alias address) && (es_position (sv_address s) =? es_position address).

(** The first slave at an address, with its index. *)
Fixpoint find_from (index : nat) (slaves : list Slave) (address : EthercatSlaveAddress) : option (nat * Slave) :=
  match slaves with
  | [] => None
  | s :: slaves => if same_address address s then Some (index, s) else find_from (S index) slaves address
  end.

Definition find_slave (i : Impl) (address : EthercatSlaveAddress) : option (nat * Slave) :=
  find_from 0 (ig_slaves i) address.


(** ** The order of the calls

    What the library asks of its caller, as a monitor over the recorded calls: one master at a time,
    released once and when inactive; configuration before the activation and the exchange after it;
    every domain, slave configuration and transfer request that is used was handed out by the library
    and still exists: the deactivation frees all of them, and so does the release; a transfer request
    is written, and scheduled, only when it is not under way, and asked about only when it is.  The
    library promises that a new request is not one that exists and that the state of a request is one
    of the four of [ec_request_state_t].  The first broken promise is the verdict. *)
Record Protocol := mkProtocol {
  p_master : option Z;
  p_domain : option Z;
  p_active : bool;
  p_configurations : gset Z;
  p_requests : gset Z;
  p_flight : gset Z }.

Definition idle_protocol (master : option Z) : Protocol := mkProtocol master None false ∅ ∅ ∅.

Inductive verdict := in_order (p : Protocol) | library_fault | backend_fault.

(** The calls of the configuration and the reference counts: the master is there and inactive. *)
Definition configurable (p : Protocol) (master : option Z) : bool :=
  negb (p_active p) &&
  match p_master p, master with
  | Some m, Some m' => m =? m'
  | Some _, None => true
  | None, _ => false
  end.

Definition exchanging (p : Protocol) : bool := p_active p && bool_decide (is_Some (p_master p)).

Definition allow (ok : bool) (p : Protocol) : verdict := if ok then in_order p else backend_fault.

Definition flight (p : Protocol) (requests : gset Z) : Protocol :=
  mkProtocol (p_master p) (p_domain p) (p_active p) (p_configurations p) (p_requests p) requests.

Definition with_configuration (p : Protocol) (c : Z) : Protocol :=
  mkProtocol (p_master p) (p_domain p) (p_active p) ({[c]} ∪ p_configurations p) (p_requests p) (p_flight p).

Definition with_request (p : Protocol) (r : Z) : Protocol :=
  mkProtocol (p_master p) (p_domain p) (p_active p) (p_configurations p) ({[r]} ∪ p_requests p) (p_flight p).

(** A slave configuration that exists, while the master is inactive. *)
Definition configuring (p : Protocol) (c : Z) : bool :=
  configurable p None && bool_decide (c ∈ p_configurations p).

Definition judge (p : Protocol) (k : ecall) : verdict :=
  match k with
  | k_request_master answer =>
      match p_master p with None => in_order (idle_protocol answer) | Some _ => backend_fault end
  | k_release_master m => allow (configurable p (Some m)) (idle_protocol None)
  | k_create_domain m answer =>
      allow (configurable p (Some m))
        (mkProtocol (p_master p) answer false (p_configurations p) (p_requests p) (p_flight p))
  | k_master m => allow (configurable p (Some m)) p
  | k_slave_config m answer =>
      allow (configurable p (Some m)) (match answer with Some c => with_configuration p c | None => p end)
  | k_config c => allow (configuring p c) p
  | k_register c d => allow (configuring p c && bool_decide (p_domain p = Some d)) p
  | k_create_request c answer =>
      if negb (configuring p c) then backend_fault
      else
        match answer with
        | None => in_order p
        | Some r => if bool_decide (r ∈ p_requests p) then library_fault else in_order (with_request p r)
        end
  | k_request_setup r => allow (configurable p None && bool_decide (r ∈ p_requests p)) p
  | k_activate m answer =>
      allow (configurable p (Some m))
        (mkProtocol (p_master p) (p_domain p) (0 <=? answer) (p_configurations p) (p_requests p) (p_flight p))
  | k_image d => allow (exchanging p && bool_decide (p_domain p = Some d)) p
  | k_deactivate m => allow (exchanging p && bool_decide (p_master p = Some m)) (idle_protocol (p_master p))
  | k_exchange m => allow (exchanging p && bool_decide (p_master p = Some m)) p
  | k_domain d => allow (exchanging p && bool_decide (p_domain p = Some d)) p
  | k_prepare r => allow (exchanging p && bool_decide (r ∈ p_requests p ∖ p_flight p)) p
  | k_schedule r answer =>
      allow (exchanging p && bool_decide (r ∈ p_requests p ∖ p_flight p))
        (if 0 <=? answer then flight p ({[r]} ∪ p_flight p) else p)
  | k_state r answer =>
      if negb (exchanging p && bool_decide (r ∈ p_flight p)) then backend_fault
      else
        match answer with
        | EC_REQUEST_UNUSED | EC_REQUEST_BUSY => in_order p
        | EC_REQUEST_SUCCESS | EC_REQUEST_ERROR => in_order (flight p (p_flight p ∖ {[r]}))
        | EC_REQUEST_OTHER => library_fault
        end
  end.

Definition observe (v : verdict) (k : ecall) : verdict :=
  match v with in_order p => judge p k | v => v end.

Definition verdict_of (calls : list ecall) : verdict := foldl observe (in_order (idle_protocol None)) calls.

Arguments verdict_of : simpl never.

Lemma verdict_snoc calls k : verdict_of (calls ++ [k]) = observe (verdict_of calls) k.
Proof. apply foldl_snoc. Qed.

(** The deactivation has removed the configuration of the master, which is not released yet. *)
Definition removes (removed : bool) (k : ecall) : bool :=
  match k with k_deactivate _ => true | k_release_master _ => false | _ => removed end.

Definition removed (calls : list ecall) : bool := foldl removes false calls.

Arguments removed : simpl never.

Lemma removed_snoc calls k : removed (calls ++ [k]) = removes (removed calls) k.
Proof. apply foldl_snoc. Qed.

Section Backend.
Context {E : Type} {library : Ecrt E}.

Record Igh := mkIgh { ig_impl : Impl; ig_lib : E; ig_calls : list ecall }.

Definition construct (master_index : Z) (lib : E) : Igh :=
  mkIgh (mkImpl master_index None None None 0 false []) lib [].

(** Steps over the backend that end with a result; the first failure ends them. *)
Definition M (A : Type) : Type := Igh -> Igh * Result A.

Definition ret {A} (a : A) : M A := fun b => (b, success a).
Definition bind {A B} (m : M A) (f : A -> M B) : M B := fun b =>
  let '(b, r) := m b in match r with success a => f a b | failure e => (b, failure e) end.

Notation "x <- m ; k" := (bind m (fun x => k)) (at level 20, m at level 100, k at level 200, right associativity).

Definition refuse {A} (c : ErrorCode) (message : string) : M A := fun b => (b, fail c message).
Definition require (ok : bool) (c : ErrorCode) (message : string) : M unit := fun b =>
  (b, if ok then success tt else fail c message).
Definition impl : M Impl := fun b => (b, success (ig_impl b)).
Definition set_impl (f : Impl -> Impl) : M unit := fun b => (mkIgh (f (ig_impl b)) (ig_lib b) (ig_calls b), success tt).

(** A call of the library. *)
Definition call {A} (f : E -> E * A) (k : A -> ecall) : M A := fun b =>
  let '(lib, a) := f (ig_lib b) in (mkIgh (ig_impl b) lib (ig_calls b ++ [k a]), success a).

Definition call_ (f : E -> E) (k : ecall) : M unit := call (fun lib => (f lib, tt)) (fun _ => k).

(** The value of a pointer that is used. *)
Definition with_master (master : option Z) (i : Impl) : Impl :=
  mkImpl (ig_master_index i) master (ig_domain i) (ig_domain_data i) (ig_domain_size i) (ig_activated i) (ig_slaves i).

Definition with_domain (domain : option Z) (i : Impl) : Impl :=
  mkImpl (ig_master_index i) (ig_master i) domain (ig_domain_data i) (ig_domain_size i) (ig_activated i) (ig_slaves i).

Definition with_image (data : option Z) (size : nat) (i : Impl) : Impl :=
  mkImpl (ig_master_index i) (ig_master i) (ig_domain i) data size (ig_activated i) (ig_slaves i).

Definition with_activated (activated : bool) (i : Impl) : Impl :=
  mkImpl (ig_master_index i) (ig_master i) (ig_domain i) (ig_domain_data i) (ig_domain_size i) activated (ig_slaves i).

Definition with_slaves (slaves : list Slave) (i : Impl) : Impl :=
  mkImpl (ig_master_index i) (ig_master i) (ig_domain i) (ig_domain_data i) (ig_domain_size i) (ig_activated i) slaves.

(** ** Configuration *)

Definition initialize_m : M unit :=
  i <- impl ;
  match ig_master i with
  | Some _ => refuse invalid_argument "IgH master is already initialized"
  | None =>
      master <- call (fun lib => ecrt_request_master lib (ig_master_index i)) k_request_master ;
      _ <- set_impl (with_master master) ;
      match master with
      | None => refuse unavailable "ecrt_request_master failed"
      | Some m =>
          domain <- call (fun lib => ecrt_master_create_domain lib m) (k_create_domain m) ;
          _ <- set_impl (with_domain domain) ;
          match domain with
          | Some _ => ret tt
          | None =>
              _ <- call_ (fun lib => ecrt_release_master lib m) (k_release_master m) ;
              _ <- set_impl (with_master None) ;
              refuse unavailable "ecrt_master_create_domain failed"
          end
      end
  end.

(** The slave with the alias: its position plus the configured one. *)
Fixpoint resolve_alias (m : Z) (address : EthercatSlaveAddress) (index : Z) (count : nat) : M Z :=
  match count with
  | O => refuse unavailable "configured EtherCAT slave alias was not found"
  | S count =>
      candidate <- call (fun lib => ecrt_master_get_slave lib m (u16 index)) (fun _ => k_master m) ;
      if (candidate.1 =? 0) && (si_alias candidate.2 =? es_alias address) then
        let resolved := si_position candidate.2 + es_position address in
        if uint16_max <? resolved then refuse invalid_argument "resolved EtherCAT ring position overflows"
        else ret resolved
      else resolve_alias m address (index + 1) count
  end.

Fixpoint startup (configuration : Z) (sdos : list ElmoGold.SdoDownloadRequest) : M unit :=
  match sdos with
  | [] => ret tt
  | sdo :: sdos =>
      if Nat.eqb (length (ElmoGold.sdo_data sdo)) 0
      then refuse protocol "ecrt_slave_config_sdo rejected a startup parameter"
      else
        code <- call (fun lib => ecrt_slave_config_sdo lib configuration (ElmoGold.sdo_address sdo) (ElmoGold.sdo_data sdo))
                  (fun _ => k_config configuration) ;
        _ <- require (igh_call_succeeded code) protocol "ecrt_slave_config_sdo rejected a startup parameter" ;
        startup configuration sdos
  end.

(** A request of a size, with its timeout set. *)
Definition make_request (configuration : Z) (size : nat) (message : string) : M Z :=
  request <- call (fun lib => ecrt_slave_config_create_sdo_request lib configuration (mkObject 0x6060 0) size)
               (k_create_request configuration) ;
  match request with
  | None => refuse unavailable message
  | Some r =>
      code <- call (fun lib => ecrt_sdo_request_timeout lib r kMailboxTimeoutMs) (fun _ => k_request_setup r) ;
      _ <- require (igh_call_succeeded code) unavailable message ;
      ret r
  end.

Fixpoint make_requests (configuration : Z) (sizes : list nat) (message : string) : M (list Z) :=
  match sizes with
  | [] => ret []
  | size :: sizes =>
      r <- make_request configuration size message ;
      requests <- make_requests configuration sizes message ;
      ret (r :: requests)
  end.

Definition ring_position (m : Z) (address : EthercatSlaveAddress) (slave_count : Z) : M Z :=
  if es_alias address =? 0 then ret (es_position address)
  else resolve_alias m address 0 (Z.to_nat slave_count).

Definition configure_slave_m (c : EthercatSlaveConfiguration) : M unit :=
  i <- impl ;
  match ig_master i, ig_domain i, ig_activated i with
  | Some m, Some _, false =>
      _ <- require (match find_slave i (sl_address c) with None => true | Some _ => false end)
             invalid_argument "IgH slave address is already configured" ;
      info <- call (fun lib => ecrt_master lib m) (fun _ => k_master m) ;
      _ <- require (igh_call_succeeded info.1) io "ecrt_master failed while checking the bus" ;
      _ <- require (info.2.2 =? 0) unavailable "IgH master bus scan is still in progress" ;
      ring <- ring_position m (sl_address c) info.2.1 ;
      slave <- call (fun lib => ecrt_master_get_slave lib m ring) (fun _ => k_master m) ;
      _ <- require (igh_call_succeeded slave.1) unavailable "configured EtherCAT slave position was not found" ;
      _ <- require ((si_vendor_id slave.2 =? ei_vendor_id (sl_identity c)) &&
                    (si_product_code slave.2 =? ei_product_code (sl_identity c)) &&
                    (si_revision_number slave.2 =? ei_revision (sl_identity c)))
             protocol "EtherCAT slave identity or revision differs from the profile" ;
      configuration <- call (fun lib => ecrt_master_slave_config lib m (sl_address c) (ei_vendor_id (sl_identity c))
                                          (ei_product_code (sl_identity c))) (k_slave_config m) ;
      match configuration with
      | None => refuse unavailable "ecrt_master_slave_config rejected the Elmo slave"
      | Some cfg =>
          code <- call (fun lib => ecrt_slave_config_pdos lib cfg
                          [mkSync 2 ElmoGold.output [sl_rx_pdo c]; mkSync 3 ElmoGold.input (sl_tx_pdos c)])
                    (fun _ => k_config cfg) ;
          _ <- require (igh_call_succeeded code) protocol "ecrt_slave_config_pdos rejected the ESI mapping" ;
          _ <- startup cfg (sl_startup_sdos c) ;
          code <- call (fun lib => ecrt_slave_config_dc lib cfg (sl_dc c)) (fun _ => k_config cfg) ;
          _ <- require (igh_call_succeeded code) protocol "ecrt_slave_config_dc rejected the 1 kHz DC setup" ;
          downloads <- make_requests cfg kDownloadRequestSizes "failed to create an exact-size IgH SDO download request" ;
          upload <- make_request cfg kMailboxCapacity "failed to create the IgH SDO upload request" ;
          code <- (if Nat.eqb (length (ig_slaves i)) 0
                   then call (fun lib => ecrt_master_select_reference_clock lib m cfg) (fun _ => k_config cfg)
                   else ret 0) ;
          _ <- require (igh_call_succeeded code) protocol "failed to select the EtherCAT DC reference clock" ;
          set_impl (fun i => with_slaves (ig_slaves i ++
            [mkIghSlave (sl_address c) ring cfg (map Some downloads) (Some upload) None active_none (mkObject 0 0) 0]) i)
      end
  | _, _, _ => refuse invalid_argument "IgH slave configuration requires an inactive initialized master"
  end.

Definition bind_pdo_entry_m (slave : EthercatSlaveAddress) (address : ObjectAddress) (bit_length : Z)
    : M PdoFieldLocation :=
  i <- impl ;
  match ig_activated i, ig_domain i with
  | false, Some d =>
      match find_slave i slave with
      | None => refuse invalid_argument "PDO entry references an unknown IgH slave"
      | Some (_, s) =>
          entry <- call (fun lib => ecrt_slave_config_reg_pdo_entry lib (sv_configuration s) address d)
                     (fun _ => k_register (sv_configuration s) d) ;
          if (entry.1 <? 0) || (255 <? entry.2) then refuse protocol "ecrt_slave_config_reg_pdo_entry failed"
          else ret (mkLocation (Z.to_nat entry.1) entry.2 bit_length)
      end
  | _, _ => refuse invalid_argument "PDO entries must be bound before IgH activation"
  end.

Definition activate_m : M unit :=
  i <- impl ;
  match ig_master i, ig_domain i, ig_activated i with
  | Some m, Some d, false =>
      code <- call (fun lib => ecrt_master_activate lib m) (k_activate m) ;
      _ <- require (igh_call_succeeded code) unavailable "ecrt_master_activate failed" ;
      size <- call (fun lib => (lib, ecrt_domain_size lib d)) (fun _ => k_image d) ;
      data <- call (fun lib => (lib, ecrt_domain_data lib d)) (fun _ => k_image d) ;
      _ <- set_impl (with_image data size) ;
      match size, data with
      | S _, Some _ => set_impl (with_activated true)
      | _, _ =>
          _ <- call_ (fun lib => ecrt_master_deactivate lib m) (k_deactivate m) ;
          _ <- set_impl (with_image None 0) ;
          refuse unavailable "IgH domain process image is unavailable"
      end
  | _, _, _ => refuse invalid_argument "IgH activation requires one inactive master"
  end.

Definition deactivate_m : M unit :=
  i <- impl ;
  match ig_master i with
  | None => ret tt
  | Some m =>
      _ <- (if ig_activated i then call_ (fun lib => ecrt_master_deactivate lib m) (k_deactivate m) else ret tt) ;
      _ <- call_ (fun lib => ecrt_release_master lib m) (k_release_master m) ;
      set_impl (fun i => mkImpl (ig_master_index i) None None None 0 false [])
  end.
(** ** The exchange *)

(** A call with a pointer, when the backend is active. *)
Definition when_active (pointer : Impl -> option Z) (f : E -> Z -> E) (k : Z -> ecall) : M unit :=
  i <- impl ;
  match ig_activated i, pointer i with
  | true, Some p => call_ (fun lib => f lib p) (k p)
  | _, _ => ret tt
  end.

Definition process_image (b : Igh) : Bytes :=
  match ig_domain_data (ig_impl b) with Some data => domain_memory (ig_lib b) data | None => [] end.

(** Storing through the span of the image. *)
Definition set_process_image (b : Igh) (image : Bytes) : Igh :=
  match ig_domain_data (ig_impl b) with
  | Some data => mkIgh (ig_impl b) (set_domain_memory (ig_lib b) data image) (ig_calls b)
  | None => b
  end.

Definition DomainHealth_default : DomainHealth := mkDomainHealth 0 None false false false 0 0.

(** The states of the slaves, from the one with the number [index] on. *)
Fixpoint operational_states (lib : E) (index : Z) (slaves : list Slave) : bool * Z :=
  match slaves with
  | [] => (true, 0)
  | s :: slaves =>
      let '(online, operational) := ecrt_slave_config_state lib (sv_configuration s) in
      let '(all, mask) := operational_states lib (index + 1) slaves in
      (online && operational && all,
       if online && operational && (index <? 16) then Z.lor (Z.shiftl 1 index) mask else mask)
  end.

Definition domain_health (b : Igh) : DomainHealth :=
  let i := ig_impl b in
  match ig_activated i, ig_master i, ig_domain i with
  | true, Some m, Some d =>
      let '(working_counter, complete) := ecrt_domain_state (ig_lib b) d in
      let '(all, mask) := operational_states (ig_lib b) 0 (ig_slaves i) in
      mkDomainHealth working_counter None complete (ecrt_master_state (ig_lib b) m) all 0 mask
  | _, _, _ => DomainHealth_default
  end.

(** ** Transfers *)

Definition sdo_pending : SdoTransferProgress := mkProgress pending io none 0.
Definition sdo_completed (uploaded_size : nat) : SdoTransferProgress := mkProgress completed io none uploaded_size.
Definition sdo_failed (c : ErrorCode) (reason : SdoFailureReason) : SdoTransferProgress :=
  mkProgress sdo_state_failed c reason 0.

Definition update_slave (index : nat) (f : Slave -> Slave) : M unit :=
  set_impl (fun i => with_slaves (alter f index (ig_slaves i)) i).

(** The slave has a request under way. *)
Definition begin_transfer (kind : ActiveSdo) (request : Z) (address : ObjectAddress) (limit : Slave -> nat) (s : Slave)
    : Slave :=
  mkIghSlave (sv_address s) (sv_ring_position s) (sv_configuration s) (sv_download_requests s) (sv_upload_request s)
    (Some request) kind address (limit s).

Definition end_transfer (s : Slave) : Slave :=
  mkIghSlave (sv_address s) (sv_ring_position s) (sv_configuration s) (sv_download_requests s) (sv_upload_request s)
    None active_none (sv_active_address s) (sv_active_upload_limit s).

Definition forget_transfer (s : Slave) : Slave :=
  mkIghSlave (sv_address s) (sv_ring_position s) (sv_configuration s) (sv_download_requests s) (sv_upload_request s)
    None active_none (mkObject 0 0) 0.

Definition same_object (a b : ObjectAddress) : bool := (ob_index a =? ob_index b) && (ob_subindex a =? ob_subindex b).

Fixpoint index_of_size (index : nat) (sizes : list nat) (size : nat) : option nat :=
  match sizes with
  | [] => None
  | n :: sizes => if Nat.eqb n size then Some index else index_of_size (S index) sizes size
  end.

(** The slave of a transfer, when the backend is active. *)
Definition active_slave (i : Impl) (address : EthercatSlaveAddress) : option (nat * Slave) :=
  if ig_activated i then find_slave i address else None.

Definition endpoint_missing : SdoTransferProgress := sdo_failed unavailable endpoint_unavailable.

Definition finish (index : nat) (progress : SdoTransferProgress) : M SdoTransferProgress :=
  _ <- update_slave index end_transfer ; ret progress.

(** Scheduling a download on the request of its size. *)
Definition schedule_download (index : nat) (s : Slave) (slot : nat) (sdo : ElmoGold.SdoDownloadRequest)
    : M SdoTransferProgress :=
  match sv_download_requests s !! slot with
  | Some (Some r) =>
      b <- (fun b => (b, success b)) ;
      if negb (Nat.eqb (ecrt_sdo_request_data_size (ig_lib b) r) (length (ElmoGold.sdo_data sdo)))
      then ret (sdo_failed protocol exact_size_request_unavailable)
      else
        code <- call (fun lib => ecrt_sdo_request_index lib r (ElmoGold.sdo_address sdo)) (fun _ => k_prepare r) ;
        if negb (igh_call_succeeded code) then ret (sdo_failed protocol object_selection_failed)
        else
          _ <- call_ (fun lib => ecrt_sdo_request_set_data lib r (ElmoGold.sdo_data sdo)) (k_prepare r) ;
          code <- call (fun lib => ecrt_sdo_request_write lib r) (k_schedule r) ;
          if negb (igh_call_succeeded code) then ret (sdo_failed io download_schedule_failed)
          else
            _ <- update_slave index (begin_transfer active_download r (ElmoGold.sdo_address sdo) sv_active_upload_limit) ;
            ret sdo_pending
  | _ => ret (sdo_failed protocol exact_size_request_unavailable)
  end.

(** The transfer under way is the one that is asked for. *)
Definition continues (kind : ActiveSdo) (address : ObjectAddress) (s : Slave) : bool :=
  bool_decide (sv_active_sdo s = kind) && same_object (sv_active_address s) address.

Definition progress_download_m (slave : EthercatSlaveAddress) (sdo : ElmoGold.SdoDownloadRequest)
    : M SdoTransferProgress :=
  i <- impl ;
  match active_slave i slave with
  | None => ret endpoint_missing
  | Some (index, s) =>
      match index_of_size 0 kDownloadRequestSizes (length (ElmoGold.sdo_data sdo)) with
      | None => ret (sdo_failed invalid_argument unsupported_download_size)
      | Some slot =>
          match sv_active_sdo s with
          | active_none => schedule_download index s slot sdo
          | _ =>
              if negb (continues active_download (ElmoGold.sdo_address sdo) s)
              then ret (sdo_failed protocol conflicting_request)
              else
                match sv_active_request s with
                | None => ret endpoint_missing
                | Some r =>
                    state <- call (fun lib => ecrt_sdo_request_state lib r) (k_state r) ;
                    match state with
                    | EC_REQUEST_UNUSED | EC_REQUEST_BUSY => ret sdo_pending
                    | EC_REQUEST_SUCCESS => finish index (sdo_completed 0)
                    | EC_REQUEST_ERROR => finish index (sdo_failed io transfer_failed)
                    | EC_REQUEST_OTHER => finish index (sdo_failed internal unknown_request_state)
                    end
                end
          end
      end
  end.

(** What an upload returns: the destination and the progress. *)
Definition schedule_upload (index : nat) (r : Z) (address : ObjectAddress) (destination : Bytes)
    : M (Bytes * SdoTransferProgress) :=
  code <- call (fun lib => ecrt_sdo_request_index lib r address) (fun _ => k_prepare r) ;
  if negb (igh_call_succeeded code) then ret (destination, sdo_failed io upload_schedule_failed)
  else
    code <- call (fun lib => ecrt_sdo_request_read lib r) (k_schedule r) ;
    if negb (igh_call_succeeded code) then ret (destination, sdo_failed io upload_schedule_failed)
    else
      _ <- update_slave index (begin_transfer active_upload r address (fun _ => length destination)) ;
      ret (destination, sdo_pending).

(** [std::copy_n] of [size] bytes to the front; [None]: past the end of the destination. *)
Definition copy_front (data destination : Bytes) (size : nat) : option Bytes :=
  if (size <=? length destination)%nat then Some (take size data ++ drop size destination) else None.

Definition progress_upload_m (slave : EthercatSlaveAddress) (address : ObjectAddress) (destination : Bytes)
    : M (option Bytes * SdoTransferProgress) :=
  let answer progress := (Some destination, progress) in
  i <- impl ;
  match active_slave i slave with
  | Some (index, s) =>
      match sv_upload_request s with
      | None => ret (answer endpoint_missing)
      | Some upload =>
          if Nat.eqb (length destination) 0 || (kMailboxCapacity <? length destination)%nat
          then ret (answer (sdo_failed invalid_argument invalid_upload_capacity))
          else
            match sv_active_sdo s with
            | active_none =>
                result <- schedule_upload index upload address destination ; ret (Some result.1, result.2)
            | _ =>
                if negb (continues active_upload address s) then ret (answer (sdo_failed protocol conflicting_request))
                else
                  match sv_active_request s with
                  | None => ret (answer endpoint_missing)
                  | Some r =>
                      state <- call (fun lib => ecrt_sdo_request_state lib r) (k_state r) ;
                      match state with
                      | EC_REQUEST_UNUSED | EC_REQUEST_BUSY => ret (answer sdo_pending)
                      | EC_REQUEST_SUCCESS =>
                          b <- (fun b => (b, success b)) ;
                          let size := ecrt_sdo_request_data_size (ig_lib b) r in
                          if (sv_active_upload_limit s <? size)%nat || (kMailboxCapacity <? size)%nat
                          then progress <- finish index (sdo_failed protocol upload_capacity_exceeded) ;
                               ret (answer progress)
                          else progress <- finish index (sdo_completed size) ;
                               ret (copy_front (ecrt_sdo_request_data (ig_lib b) r) destination size, progress)
                      | EC_REQUEST_ERROR =>
                          progress <- finish index (sdo_failed io transfer_failed) ; ret (answer progress)
                      | EC_REQUEST_OTHER =>
                          progress <- finish index (sdo_failed internal unknown_request_state) ; ret (answer progress)
                      end
                  end
            end
      end
  | None => ret (answer endpoint_missing)
  end.

Definition progress_cancel_m (slave : EthercatSlaveAddress) : M SdoTransferProgress :=
  i <- impl ;
  match active_slave i slave with
  | None => ret endpoint_missing
  | Some (index, s) =>
      match sv_active_sdo s, sv_active_request s with
      | active_none, _ | _, None => ret (sdo_completed 0)
      | _, Some r =>
          state <- call (fun lib => ecrt_sdo_request_state lib r) (k_state r) ;
          match state with
          | EC_REQUEST_UNUSED | EC_REQUEST_BUSY => ret sdo_pending
          | EC_REQUEST_SUCCESS | EC_REQUEST_ERROR =>
              _ <- update_slave index forget_transfer ; ret (sdo_completed 0)
          | EC_REQUEST_OTHER => ret (sdo_failed internal unknown_request_state)
          end
      end
  end.

(** ** The backend of the master *)

Definition run {A} (m : M A) (b : Igh) : Igh := (m b).1.

(** The value of a step that does not fail. *)
Definition value {A} (m : M A) (b : Igh) : option A :=
  match (m b).2 with success a => Some a | failure _ => None end.

#[export] Instance IghEthercatBackend : EthercatBackend Igh := {|
  be_initialize := initialize_m;
  be_configure_slave b c := configure_slave_m c b;
  be_bind_pdo_entry b slave address bits := bind_pdo_entry_m slave address bits b;
  be_activate := activate_m;
  be_deactivate := run deactivate_m;
  be_receive := run (when_active ig_master ecrt_master_receive k_exchange);
  be_process_domain := run (when_active ig_domain ecrt_domain_process k_domain);
  be_process_image := process_image;
  be_set_process_image := set_process_image;
  be_queue_domain := run (when_active ig_domain ecrt_domain_queue k_domain);
  be_send := run (when_active ig_master ecrt_master_send k_exchange);
  be_domain_health := domain_health;
  be_progress_download_sdo b slave sdo :=
    (run (progress_download_m slave sdo) b, value (progress_download_m slave sdo) b);
  be_progress_upload_sdo b slave address destination :=
    match value (progress_upload_m slave address destination) b with
    | Some (Some bytes, progress) => (run (progress_upload_m slave address destination) b, bytes, Some progress)
    | _ => (run (progress_upload_m slave address destination) b, destination, None)
    end;
  be_progress_cancel_sdo b slave := (run (progress_cancel_m slave) b, value (progress_cancel_m slave) b) |}.

(** ** Runs *)

Inductive operation :=
  | op_initialize
  | op_configure_slave (c : EthercatSlaveConfiguration)
  | op_bind_pdo_entry (slave : EthercatSlaveAddress) (address : ObjectAddress) (bit_length : Z)
  | op_activate
  | op_deactivate
  | op_receive
  | op_process_domain
  | op_write_image (image : Bytes)
  | op_queue_domain
  | op_send
  | op_download (slave : EthercatSlaveAddress) (sdo : ElmoGold.SdoDownloadRequest)
  | op_upload (slave : EthercatSlaveAddress) (address : ObjectAddress) (destination : Bytes)
  | op_cancel (slave : EthercatSlaveAddress).

Definition perform (b : Igh) (o : operation) : Igh :=
  match o with
  | op_initialize => (be_initialize b).1
  | op_configure_slave c => (be_configure_slave b c).1
  | op_bind_pdo_entry slave address bits => (be_bind_pdo_entry b slave address bits).1
  | op_activate => (be_activate b).1
  | op_deactivate => be_deactivate b
  | op_receive => be_receive b
  | op_process_domain => be_process_domain b
  | op_write_image image => be_set_process_image b image
  | op_queue_domain => be_queue_domain b
  | op_send => be_send b
  | op_download slave sdo => (be_progress_download_sdo b slave sdo).1
  | op_upload slave address destination => (be_progress_upload_sdo b slave address destination).1.1
  | op_cancel slave => (be_progress_cancel_sdo b slave).1
  end.

(** What the client does not ask for once a failed activation has removed the configuration: to
    bind an entry or to activate.  [deactivate] ends it. *)
Definition uses_configuration (o : operation) : bool :=
  match o with op_bind_pdo_entry _ _ _ | op_activate => true | _ => false end.

Fixpoint heeds (b : Igh) (operations : list operation) : bool :=
  match operations with
  | [] => true
  | o :: operations =>
      negb (removed (ig_calls b) && uses_configuration o) && heeds (perform b o) operations
  end.

(** ** The invariant *)

(** The requests a slave holds. *)
Definition owns (s : Slave) (r : Z) : Prop :=
  Some r ∈ sv_download_requests s \/ sv_upload_request s = Some r.

Record linked (p : Protocol) (i : Impl) : Prop := {
  ln_master : p_master p = ig_master i;
  ln_domain : p_domain p = ig_domain i;
  ln_active : p_active p = ig_activated i;
  ln_no_master : ig_master i = None -> ig_activated i = false /\ ig_domain i = None /\ ig_slaves i = [];
  ln_has_domain : ig_activated i = true -> is_Some (ig_domain i);
  ln_configured : forall n s, ig_slaves i !! n = Some s -> sv_configuration s ∈ p_configurations p;
  ln_owned : forall n s r, ig_slaves i !! n = Some s -> owns s r -> r ∈ p_requests p;
  ln_apart : forall n k s t r, ig_slaves i !! n = Some s -> ig_slaves i !! k = Some t ->
    owns s r -> owns t r -> n = k;
  ln_active_owned : forall n s r, ig_slaves i !! n = Some s -> sv_active_request s = Some r -> owns s r;
  ln_active_sdo : forall n s, ig_slaves i !! n = Some s ->
    sv_active_sdo s = active_none <-> sv_active_request s = None;
  ln_flight : forall r, r ∈ p_flight p <->
    exists n s, ig_slaves i !! n = Some s /\ sv_active_request s = Some r;
  ln_idle : ig_activated i = false -> p_flight p = ∅ }.

(** After a failed activation: the master is there and inactive, and what the backend still points to
    does not exist any more. *)
Record astray (p : Protocol) (i : Impl) : Prop := {
  as_master : p_master p = ig_master i;
  as_present : is_Some (ig_master i);
  as_inactive : p_active p = false;
  as_activated : ig_activated i = false }.

Definition stands (p : Protocol) (b : Igh) : Prop :=
  if removed (ig_calls b) then astray p (ig_impl b) else linked p (ig_impl b).

(** The backend is in order, as long as the library has kept its promises. *)
Definition good (b : Igh) : Prop :=
  match verdict_of (ig_calls b) with
  | in_order p => stands p b
  | library_fault => True
  | backend_fault => False
  end.

Lemma good_constructed index lib : good (construct index lib).
Proof.
  unfold good, stands. cbn. constructor; cbn; try done; try (intros; by rewrite lookup_nil in *).
  intros r. split; [set_solver|]. intros (n & s & Hn & _). by rewrite lookup_nil in Hn.
Qed.

(** *** Configuration

    A call of the configuration keeps the state, and the requests and configurations that exist. *)

Definition holds (b : Igh) (P : Protocol -> Prop) : Prop :=
  match verdict_of (ig_calls b) with in_order p => P p | _ => True end.

(** [c] exists. *)
Definition alive (b : Igh) (c : Z) : Prop := holds b (fun p => c ∈ p_configurations p).

(** [r] exists and no slave holds it. *)
Definition spare (b : Igh) (r : Z) : Prop :=
  holds b (fun p => r ∈ p_requests p /\
    (removed (ig_calls b) = false -> forall n s, ig_slaves (ig_impl b) !! n = Some s -> ~ owns s r)).

Record settles (b b' : Igh) : Prop := {
  st_good : good b -> good b';
  st_impl : ig_impl b' = ig_impl b;
  st_spare : forall r, spare b r -> spare b' r;
  st_alive : forall c, alive b c -> alive b' c }.

#[local] Instance settles_preorder : PreOrder settles.
Proof.
  split; [by constructor|].
  intros b b1 b2 [Hg Hi Hs Ha] [Hg' Hi' Hs' Ha']. constructor; [auto | congruence | auto..].
Qed.

(** The master is there and inactive, and the slave configuration at work exists. *)
Definition inactive (b : Igh) (m : Z) (cfg : option Z) : Prop :=
  ig_master (ig_impl b) = Some m /\ ig_activated (ig_impl b) = false /\
  match cfg with Some c => alive b c | None => True end.

Lemma settles_inactive b b' m cfg : settles b b' -> inactive b m cfg -> inactive b' m cfg.
Proof.
  intros H. unfold inactive. rewrite (st_impl _ _ H). destruct cfg; [|done].
  intros (? & ? & ?). split_and!; [done..|]. by apply (st_alive _ _ H).
Qed.

(** A configuration step: from an inactive master it settles. *)
Definition configures {A} (mt : M A) (Q : Igh -> A -> Prop) (m : Z) (cfg : option Z) (b : Igh) : Prop :=
  inactive b m cfg -> good b -> settles b (mt b).1 /\ forall a, (mt b).2 = success a -> Q (mt b).1 a.

Lemma configures_ret {A} (a : A) (Q : Igh -> A -> Prop) m cfg b : Q b a -> configures (ret a) Q m cfg b.
Proof. intros HQ _ _. split; [done|]. by intros ? [= <-]. Qed.

Lemma configures_refuse {A} c message (Q : Igh -> A -> Prop) m cfg b : configures (refuse c message) Q m cfg b.
Proof. by split. Qed.

Lemma configures_require ok c message (Q : Igh -> unit -> Prop) m cfg b :
  (ok = true -> Q b tt) -> configures (require ok c message) Q m cfg b.
Proof. intros HQ _ _. split; [done|]. cbn. destruct ok; [|done]. intros ? [= <-]; auto. Qed.

Lemma configures_bind {A B} (mt : M A) (f : A -> M B) Q Q' m cfg b :
  configures mt Q m cfg b -> (forall a b', Q b' a -> configures (f a) Q' m cfg b') -> configures (bind mt f) Q' m cfg b.
Proof.
  intros Hm Hf Hi Hg. destruct (Hm Hi Hg) as [Hs HQ]. unfold bind. destruct (mt b) as [b1 [a|e]]; cbn in *.
  - destruct (Hf a b1 (HQ a eq_refl)) as [Hs' HQ'];
      [by apply (settles_inactive b) | by apply Hs |]. split; [by transitivity b1 | exact HQ'].
  - by split.
Qed.

Lemma stands_configurable p b m :
  stands p b -> ig_master (ig_impl b) = Some m -> ig_activated (ig_impl b) = false ->
  configurable p (Some m) = true /\ configurable p None = true.
Proof.
  unfold stands, configurable. intros Hs Hm Ha.
  assert (p_master p = Some m /\ p_active p = false) as [-> ->]; [|by rewrite Z.eqb_refl].
  destruct (removed _); destruct Hs; split; congruence.
Qed.

(** A call that neither deactivates nor releases. *)
Definition calm (k : ecall) : bool :=
  match k with k_deactivate _ | k_release_master _ => false | _ => true end.

Lemma removed_calm calls k : calm k = true -> removed (calls ++ [k]) = removed calls.
Proof. rewrite removed_snoc. by destruct k. Qed.

(** A recorded call that the protocol accepts, or that shows the library at fault. *)
Record grows (b : Igh) (p p' : Protocol) : Prop := {
  gr_master : p_master p' = p_master p;
  gr_active : p_active p' = p_active p;
  gr_configurations : p_configurations p ⊆ p_configurations p';
  gr_requests : p_requests p ⊆ p_requests p';
  gr_linked : linked p (ig_impl b) -> linked p' (ig_impl b) }.

Lemma grows_refl b p : grows b p p.
Proof. by constructor. Qed.

Lemma settles_after b lib k :
  good b -> calm k = true ->
  (forall p, verdict_of (ig_calls b) = in_order p -> stands p b ->
    judge p k = library_fault \/ exists p', judge p k = in_order p' /\ grows b p p') ->
  settles b (mkIgh (ig_impl b) lib (ig_calls b ++ [k])).
Proof.
  intros Hg Hc Hk. pose proof (removed_calm (ig_calls b) k Hc) as Hr.
  constructor; [intros _|done|intros r|intros c]; unfold good, stands, spare, alive, holds in *; cbn;
    rewrite verdict_snoc, ?Hr; destruct (verdict_of (ig_calls b)) as [p| |]; try done; cbn;
    (destruct (Hk p eq_refl Hg) as [->|(p' & -> & [])]; [done|]); [|set_solver..].
  destruct (removed _); [|auto]. destruct Hg. split; congruence.
Qed.

(** A call that leaves the protocol where it was, given what its pointers need. *)
Definition plain {A} (m : Z) (cfg : option Z) (P : Protocol -> Prop) (k : A -> ecall) : Prop := forall a,
  calm (k a) = true /\ forall p, configurable p (Some m) = true -> configurable p None = true ->
  match cfg with Some c => configuring p c = true | None => True end -> P p -> judge p (k a) = in_order p.

Lemma inactive_configuring b m cfg p :
  inactive b m cfg -> verdict_of (ig_calls b) = in_order p -> stands p b ->
  configurable p (Some m) = true /\ configurable p None = true /\
  match cfg with Some c => configuring p c = true | None => True end.
Proof.
  intros (Hm & Ha & Hc) Hv Hs. destruct (stands_configurable p b m Hs Hm Ha) as [C1 C2]. split_and!; [done..|].
  destruct cfg as [c|]; [|done]. unfold alive, holds in Hc. rewrite Hv in Hc.
  unfold configuring. by rewrite C2, bool_decide_true.
Qed.

Lemma configures_call {A} (f : E -> E * A) (k : A -> ecall) m cfg P b :
  plain m cfg P k -> holds b P -> configures (call f k) (fun _ _ => True) m cfg b.
Proof.
  intros Hk HP Hi Hg. split; [|done]. unfold call. destruct (f (ig_lib b)) as [lib a]. destruct (Hk a) as [Hc Hj].
  apply settles_after; [done..|]. intros p Hv Hs. right. exists p. split; [|apply grows_refl].
  destruct (inactive_configuring _ _ _ _ Hi Hv Hs) as (C1 & C2 & C3). apply Hj; [done..|].
  unfold holds in HP. by rewrite Hv in HP.
Qed.

(** A new request is spare. *)
Lemma configures_create (f : E -> E * option Z) c m b :
  configures (call f (k_create_request c)) (fun b' a => forall r, a = Some r -> spare b' r) m (Some c) b.
Proof.
  intros Hi Hg. unfold call. destruct (f (ig_lib b)) as [lib a]. split.
  - apply settles_after; [done..|]. intros p Hv Hs.
    destruct (inactive_configuring _ _ _ _ Hi Hv Hs) as (_ & _ & Hc). cbn. rewrite Hc. cbn.
    destruct a as [r|]; [|right; exists p; split; [done | apply grows_refl]]. case_bool_decide; [by left|right].
    eexists. split; [done|]. split; cbn; [done..|set_solver|].
    intros []. constructor; cbn; eauto; set_solver.
  - intros ? [= <-] r ->. unfold spare, holds, good in *. cbn. rewrite verdict_snoc, removed_calm by done.
    destruct (verdict_of (ig_calls b)) as [p| |] eqn:Hv; [|done|done]. cbn.
    destruct (inactive_configuring _ _ _ _ Hi Hv Hg) as (_ & _ & ->). cbn. case_bool_decide as Hr; [done|]. cbn.
    split; [set_solver|]. intros Hrem n s Hn Ho. destruct Hr. unfold stands in Hg. rewrite Hrem in Hg.
    by apply (ln_owned _ _ Hg n s).
Qed.

(** What holds before a step of the configuration, and settling keeps, holds after it. *)
Lemma configures_spare {A} (mt : M A) (Q : Igh -> A -> Prop) (P : Z -> Prop) m cfg b :
  (forall r, P r -> spare b r) -> configures mt Q m cfg b ->
  configures mt (fun b' a => Q b' a /\ forall r, P r -> spare b' r) m cfg b.
Proof.
  intros HP Hc Hi Hg. destruct (Hc Hi Hg) as [Hs HQ]. split; [done|]. intros a Ha. split; [by apply HQ|].
  intros r Hr. by apply (st_spare _ _ Hs), HP.
Qed.

Ltac plain_call :=
  intros ?; split; [done|]; intros ? Hcfg Hnone Hconf ?; cbn; by rewrite ?Hcfg, ?Hnone, ?Hconf.

(** A call of the master or of the slave configuration at work. *)
Lemma configures_plain {A} (f : E -> E * A) (k : A -> ecall) m cfg b :
  plain m cfg (fun _ => True) k -> configures (call f k) (fun _ _ => True) m cfg b.
Proof. intros Hk. apply (configures_call f k m cfg (fun _ => True)); [done|]. unfold holds. by destruct (verdict_of _). Qed.

Lemma configures_request c size message m b :
  configures (make_request c size message) spare m (Some c) b.
Proof.
  unfold make_request. eapply configures_bind; [apply configures_create|]. intros [r|] b1 Hr; [|apply configures_refuse].
  specialize (Hr r eq_refl).
  eapply configures_bind.
  { apply (configures_spare _ (fun _ _ => True) (fun r' => r' = r)); [by intros ? ->|].
    apply (configures_call _ _ _ _ (fun p => r ∈ p_requests p)).
    - intros ?. split; [done|]. intros p _ Hnone _ Hp. cbn. by rewrite Hnone, bool_decide_true.
    - revert Hr. unfold spare, holds. destruct (verdict_of _); [by intros []|done..]. }
  cbn. intros code b2 [_ Hs].
  eapply (configures_bind _ _ (fun b' _ => spare b' r)); [apply configures_require; auto|].
  intros [] b3 Hs'. by apply configures_ret.
Qed.

Lemma configures_requests c sizes message m b :
  configures (make_requests c sizes message) (fun b' rs => forall r, r ∈ rs -> spare b' r) m (Some c) b.
Proof.
  revert b. induction sizes as [|size sizes IH]; intros b; cbn.
  { apply configures_ret. intros r Hr. by apply elem_of_nil in Hr. }
  eapply configures_bind; [apply configures_request|]. intros r b1 Hr.
  eapply configures_bind.
  { eapply (configures_spare _ _ (fun r' => r' = r)); [by intros ? ->|]. apply IH. }
  cbn. intros rs b2 [Hrs Hr']. apply configures_ret. intros r' [->|Hin]%elem_of_cons; auto.
Qed.

Lemma configures_startup configuration sdos m b :
  configures (startup configuration sdos) (fun _ _ => True) m (Some configuration) b.
Proof.
  revert b. induction sdos as [|sdo sdos IH]; intros b; cbn; [by apply configures_ret|].
  destruct (Nat.eqb _ _); [apply configures_refuse|].
  eapply configures_bind; [apply configures_plain; plain_call|]. intros code b1 _.
  eapply configures_bind; [by apply (configures_require _ _ _ (fun _ _ => True))|]. intros [] b2 _. apply IH.
Qed.

Lemma configures_alias m address index count b :
  configures (resolve_alias m address index count) (fun _ _ => True) m None b.
Proof.
  revert index b. induction count as [|count IH]; intros index b; cbn; [apply configures_refuse|].
  eapply configures_bind; [apply configures_plain; plain_call|]. intros c b1 _.
  destruct (_ && _); [|apply IH]. destruct (_ <? _); [apply configures_refuse | by apply configures_ret].
Qed.

Lemma configures_ring m address slave_count b :
  configures (ring_position m address slave_count) (fun _ _ => True) m None b.
Proof. unfold ring_position. destruct (_ =? _); [by apply configures_ret | apply configures_alias]. Qed.
(** *** The operations keep the backend in order *)

Lemma good_bind {A B} (mt : M A) (f : A -> M B) Q m cfg b :
  configures mt Q m cfg b -> inactive b m cfg -> good b ->
  (forall a b', inactive b' m cfg -> good b' -> Q b' a -> good (f a b').1) -> good (bind mt f b).1.
Proof.
  intros Hc Hi Hg Hf. destruct (Hc Hi Hg) as [Hs HQ]. unfold bind. destruct (mt b) as [b1 [a|e]]; cbn in *.
  - apply Hf; [by apply (settles_inactive b) | by apply Hs | by apply HQ].
  - by apply Hs.
Qed.

(** A new slave with spare requests. *)
Lemma good_new_slave s b :
  good b -> sv_active_sdo s = active_none -> sv_active_request s = None -> is_Some (ig_master (ig_impl b)) ->
  alive b (sv_configuration s) -> (forall r, owns s r -> spare b r) ->
  good (mkIgh (with_slaves (ig_slaves (ig_impl b) ++ [s]) (ig_impl b)) (ig_lib b) (ig_calls b)).
Proof.
  intros Hg Hn Hr [m Hm] Hc Hs. unfold good, alive, spare, holds, stands in *. cbn.
  destruct (verdict_of (ig_calls b)) as [p| |]; [|exact I|destruct Hg].
  destruct (removed (ig_calls b)); [by destruct Hg|].
  pose proof Hg as [H1 H2 H3 H4 H5 H12 H6 H7 H8 H9 H10 H11].
  assert (forall n t, (ig_slaves (ig_impl b) ++ [s]) !! n = Some t ->
    ig_slaves (ig_impl b) !! n = Some t \/ n = length (ig_slaves (ig_impl b)) /\ t = s) as Hin.
  { intros n t [|[Hle Ht]]%lookup_app_Some; [by left|right].
    destruct (n - length (ig_slaves (ig_impl b)))%nat eqn:Hd; cbn in Ht; [|done]. split; [lia|congruence]. }
  constructor; cbn; try done.
  - by rewrite Hm.
  - intros n t [Ht|[-> ->]]%Hin; [by eapply H12 | done].
  - intros n t r [Ht|[-> ->]]%Hin Ho; [by eapply H6 | by apply Hs].
  - intros n k t u r [Ht|[-> ->]]%Hin [Hu|[-> ->]]%Hin Ho Ho'; [by eapply H7 | | |done];
      exfalso; [by apply (proj2 (Hs r Ho') eq_refl n t) | by apply (proj2 (Hs r Ho) eq_refl k u)].
  - intros n t r [Ht|[-> ->]]%Hin Ho; [by eapply H8 | congruence].
  - intros n t [Ht|[-> ->]]%Hin; [by eapply H9 | by rewrite Hn, Hr].
  - intros r. rewrite H10. split.
    + intros (n & t & Ht & Ha). exists n, t. split; [by apply lookup_app_l_Some | done].
    + intros (n & t & [Ht|[-> ->]]%Hin & Ha); [by eauto | congruence].
Qed.

(** The next call of a configuration, with its answer, and the next condition. *)
Tactic Notation "next_call" simple_intropattern(a) :=
  eapply good_bind; cycle 1; [eassumption | done | intros a ? ? ? _ | apply configures_plain; plain_call].
Ltac next_require :=
  eapply (good_bind _ _ (fun _ _ => True)); cycle 1;
    [eassumption | done | intros [] ? ? ? _ | by apply configures_require].

(** The end of a configuration: the requests are spare, and the slave is added. *)
Definition add_slave (c : EthercatSlaveConfiguration) (ring cfg : Z) (downloads : list Z) (upload : Z) : M unit :=
  set_impl (fun i => with_slaves (ig_slaves i ++
    [mkIghSlave (sl_address c) ring cfg (map Some downloads) (Some upload) None active_none (mkObject 0 0) 0]) i).

Lemma good_requests c ring cfg m (k : M Z) b :
  (forall b', configures k (fun _ _ => True) m (Some cfg) b') -> inactive b m (Some cfg) -> good b ->
  good (bind (make_requests cfg kDownloadRequestSizes "failed to create an exact-size IgH SDO download request")
    (fun downloads => bind (make_request cfg kMailboxCapacity "failed to create the IgH SDO upload request")
    (fun upload => bind k (fun code => bind (require (igh_call_succeeded code) protocol
      "failed to select the EtherCAT DC reference clock") (fun _ => add_slave c ring cfg downloads upload)))) b).1.
Proof.
  intros Hk Hi Hg. eapply good_bind; [apply configures_requests | done | done | intros downloads b1 ? ? Hd].
  eapply good_bind; [eapply configures_spare; [exact Hd | apply configures_request] | done | done
    | intros upload b2 ? ? [Hu Hd2]; cbv beta in *].
  set (new r := r ∈ downloads \/ r = upload).
  assert (forall r, new r -> spare b2 r) as Hn by (intros r [Hr| ->]; auto).
  eapply good_bind; [eapply configures_spare; [exact Hn | apply Hk] | done | done | intros code b3 ? ? [_ Hn3]; cbv beta in *].
  eapply good_bind; [eapply configures_spare; [exact Hn3 | by apply (configures_require _ _ _ (fun _ _ => True))]
    | done | done | intros [] b4 (Hm & _ & Hc) ? [_ Hn4]; cbv beta in *].
  apply good_new_slave; [done..| by rewrite Hm | done |].
  intros r [Hr|Hr]; apply Hn4; cbn in Hr; [left | right; congruence].
  change (Some r ∈ Some <$> downloads) in Hr. apply list_elem_of_fmap in Hr as (r' & Hr & Hin). congruence.
Qed.

(** The new slave configuration exists. *)
Lemma configures_slave (f : E -> E * option Z) m b :
  configures (call f (k_slave_config m)) (fun b' a => forall c, a = Some c -> alive b' c) m None b.
Proof.
  intros Hi Hg. unfold call. destruct (f (ig_lib b)) as [lib a]. split.
  - apply settles_after; [done..|]. intros p Hv Hs. right.
    destruct (inactive_configuring _ _ _ _ Hi Hv Hs) as (Hc & _). cbn. rewrite Hc. cbn. eexists. split; [done|].
    destruct a as [c|]; [|apply grows_refl]. split; cbn; [done..|set_solver|done|].
    intros []. constructor; cbn; eauto; set_solver.
  - intros ? [= <-] c ->. unfold alive, holds, good in *. cbn. rewrite verdict_snoc.
    destruct (verdict_of (ig_calls b)) as [p| |] eqn:Hv; [|done|done]. cbn.
    destruct (inactive_configuring _ _ _ _ Hi Hv Hg) as (-> & _). cbn. set_solver.
Qed.

Lemma good_configure_slave c b : good b -> good (configure_slave_m c b).1.
Proof.
  intros Hg. unfold configure_slave_m, impl. unfold bind at 1.
  destruct (ig_master (ig_impl b)) as [m|] eqn:Hm; [|done]. destruct (ig_domain (ig_impl b)) as [d|]; [|done].
  destruct (ig_activated (ig_impl b)) eqn:Ha; [done|]. assert (inactive b m None) as Hi by done. clear Hm Ha.
  next_require. next_call info. next_require. next_require.
  eapply good_bind; [apply configures_ring | done | done | intros ring ? ? ? _].
  next_call slave. next_require. next_require.
  eapply good_bind; [apply configures_slave | done | done | intros [cfg|] b1 Hi1 ? Hc; [|done]].
  specialize (Hc cfg eq_refl). assert (inactive b1 m (Some cfg)) by (split_and!; [apply Hi1..|done]). clear Hi1.
  next_call code. next_require.
  eapply good_bind; [apply configures_startup | done | done | intros [] ? ? ? _].
  next_call code'. next_require. apply good_requests with m; [|done..].
  intros b2. destruct (Nat.eqb _ _); [apply configures_plain; plain_call | by apply configures_ret].
Qed.

(** A backend whose configuration exists. *)
Definition intact (b : Igh) : Prop := ig_activated (ig_impl b) = true \/ removed (ig_calls b) = false.

Lemma stands_linked p b : stands p b -> intact b -> linked p (ig_impl b).
Proof. unfold stands. intros Hs [Ha|Hr]; [|by rewrite Hr in Hs]. destruct (removed _); [by destruct Hs; congruence|done]. Qed.

Lemma good_call b lib k i' :
  good b -> intact b -> calm k = true ->
  (forall p, linked p (ig_impl b) -> judge p k = library_fault \/
    exists p', judge p k = in_order p' /\ linked p' i') ->
  good (mkIgh i' lib (ig_calls b ++ [k])).
Proof.
  intros Hg Hi Hc Hk. unfold good in *. cbn. rewrite verdict_snoc.
  destruct (verdict_of (ig_calls b)) as [p| |]; [|done|done]. pose proof (stands_linked p b Hg Hi) as Hl. cbn.
  destruct (Hk p Hl) as [->|(p' & -> & Hl')]; [done|]. unfold stands. cbn. rewrite removed_calm by done.
  unfold stands in Hg. destruct Hi as [Ha|Hr]; [|by rewrite Hr]. destruct (removed _); [|done].
  destruct Hg. congruence.
Qed.

Lemma intact_call b lib k i' : intact b -> calm k = true -> ig_activated i' = ig_activated (ig_impl b) ->
  intact (mkIgh i' lib (ig_calls b ++ [k])).
Proof. unfold intact. cbn. intros Hi Hc ->. by rewrite removed_calm. Qed.

(** The protocol before a master is there. *)
Lemma linked_idle i :
  ig_domain i = None -> ig_activated i = false -> ig_slaves i = [] -> linked (idle_protocol (ig_master i)) i.
Proof.
  intros Hd Ha Hs. constructor; cbn; try done; try (intros; rewrite ?Hs, lookup_nil in *; done);
    try congruence. intros r. rewrite Hs. split; [set_solver|]. intros (n & s & Hn & _). by rewrite lookup_nil in Hn.
Qed.

Lemma good_cases b : good b ->
  verdict_of (ig_calls b) = library_fault \/ exists p, verdict_of (ig_calls b) = in_order p /\ stands p b.
Proof. unfold good. destruct (verdict_of _) as [p| |]; [eauto | auto | done]. Qed.

(** The steps of an operation and the answers of the library. *)
Ltac unfold_steps := unfold impl, call_, call, bind, set_impl, refuse, require, ret.

(** The verdict on the calls that an operation adds. *)
Ltac judged Hv := unfold good, stands; cbn; rewrite ?verdict_snoc, ?removed_snoc, Hv; cbn; try done.

(** A backend without a master has nothing. *)
Lemma stands_no_master p b : stands p b -> ig_master (ig_impl b) = None -> removed (ig_calls b) = false /\ linked p (ig_impl b).
Proof. unfold stands. intros Hs Hm. destruct (removed _); [|done]. destruct Hs as [_ Hp]. rewrite Hm in Hp. by destruct Hp. Qed.


Lemma good_initialize b : good b -> good (initialize_m b).1.
Proof.
  intros Hg. unfold initialize_m. unfold_steps.
  destruct (ig_master (ig_impl b)) as [m|] eqn:Hm; [done|].
  destruct (ecrt_request_master _ _) as [lib [m|]]; cbn;
    [destruct (ecrt_master_create_domain lib m) as [lib2 [d|]]|]; cbn;
  (destruct (good_cases b Hg) as [Hv|(p & Hv & Hs0)]; judged Hv);
  destruct (stands_no_master p b Hs0 Hm) as [Hrem Hl]; rewrite (ln_master _ _ Hl), Hm, ?Hrem; cbn;
  destruct (ln_no_master _ _ Hl Hm) as (Ha & Hd & Hs); do 2 (rewrite ?Z.eqb_refl; cbn).
  - destruct (linked_idle (with_master (Some m) (ig_impl b))); [done..|].
    constructor; cbn in *; try done.
  - apply (linked_idle (with_master None (with_domain None (with_master (Some m) (ig_impl b))))); done.
  - by apply (linked_idle (with_master None (ig_impl b))).
Qed.

Lemma find_from_spec index slaves address n s :
  find_from index slaves address = Some (n, s) -> (index <= n)%nat /\ slaves !! (n - index)%nat = Some s.
Proof.
  revert index. induction slaves as [|t slaves IH]; intros index; cbn; [done|].
  destruct (same_address address t).
  - intros [= <- <-]. by rewrite Nat.sub_diag.
  - intros [Hle Hs]%IH. split; [lia|]. by replace (n - index)%nat with (S (n - S index)) by lia.
Qed.

Lemma find_slave_spec i address n s : find_slave i address = Some (n, s) -> ig_slaves i !! n = Some s.
Proof. intros [_ Hs]%find_from_spec. by rewrite Nat.sub_0_r in Hs. Qed.

Lemma linked_configurable p i m :
  linked p i -> ig_master i = Some m -> ig_activated i = false ->
  configurable p (Some m) = true /\ configurable p None = true.
Proof.
  intros Hl Hm Ha. unfold configurable. by rewrite (ln_active _ _ Hl), (ln_master _ _ Hl), Hm, Ha, Z.eqb_refl.
Qed.

Lemma good_bind_pdo_entry slave address bits b :
  good b -> removed (ig_calls b) = false -> good (bind_pdo_entry_m slave address bits b).1.
Proof.
  intros Hg Hr. unfold bind_pdo_entry_m, impl. unfold bind at 1.
  destruct (ig_activated (ig_impl b)) eqn:Ha; [done|]. destruct (ig_domain (ig_impl b)) as [d|] eqn:Hd; [|done].
  destruct (find_slave _ _) as [[n s]|] eqn:Hf; [|done]. apply find_slave_spec in Hf.
  unfold_steps. destruct (ecrt_slave_config_reg_pdo_entry _ _ _ _) as [lib entry]. cbn.
  assert (good (mkIgh (ig_impl b) lib (ig_calls b ++ [k_register (sv_configuration s) d]))) as Hg'; [|by destruct (_ || _)].
  apply good_call; [done|by right|done|]. intros p Hl. right. exists p.
  destruct (ig_master (ig_impl b)) as [m|] eqn:Hm; [|destruct (ln_no_master _ _ Hl Hm) as (_ & ? & _); congruence].
  destruct (linked_configurable _ _ m Hl Hm Ha) as [_ Hc]. cbn. unfold configuring.
  rewrite Hc, !bool_decide_true; [done|..]; [by rewrite (ln_domain _ _ Hl)|by eapply ln_configured].
Qed.

Lemma good_activate b : good b -> removed (ig_calls b) = false -> good (activate_m b).1.
Proof.
  intros Hg Hr. unfold activate_m. unfold_steps.
  destruct (ig_master (ig_impl b)) as [m|] eqn:Hm; [|done]. destruct (ig_domain (ig_impl b)) as [d|] eqn:Hd; [|done].
  destruct (ig_activated (ig_impl b)) eqn:Ha; [done|]. destruct (ecrt_master_activate _ _) as [lib code]. cbn.
  unfold igh_call_succeeded. destruct (0 <=? code) eqn:Hcode; cbn;
    [destruct (ecrt_domain_size lib d), (ecrt_domain_data lib d)|]; cbn;
  (destruct (good_cases b Hg) as [Hv|(p & Hv & Hs)]; judged Hv); rewrite ?Hr;
  pose proof (stands_linked p b Hs (or_intror Hr)) as Hl;
  rewrite (proj1 (linked_configurable _ _ m Hl Hm Ha)), ?Hcode; cbn;
  destruct Hl as [H1 H2 H3 H4 H5 H12 H6 H7 H8 H9 H10 H11]; rewrite ?H1, ?H2, ?Hm, ?Hd; cbn;
  repeat (rewrite bool_decide_true by eauto; cbn); rewrite ?Hr;
  constructor; cbn; try done; try congruence; first [by rewrite Hm|by rewrite <- (H11 Ha)].
Qed.

(** The state of the protocol while the backend is active. *)
Lemma linked_exchanging p i : linked p i -> ig_activated i = true -> exchanging p = true.
Proof.
  intros Hl Ha. unfold exchanging. rewrite (ln_active _ _ Hl), (ln_master _ _ Hl), Ha.
  destruct (ig_master i) eqn:Hm; [by rewrite bool_decide_true by eauto|].
  destruct (ln_no_master _ _ Hl Hm). congruence.
Qed.

Lemma good_deactivate b : good b -> good (deactivate_m b).1.
Proof.
  intros Hg. unfold deactivate_m. unfold_steps.
  destruct (ig_master (ig_impl b)) as [m|] eqn:Hm; [|done].
  destruct (ig_activated (ig_impl b)) eqn:Ha; cbn;
  (destruct (good_cases b Hg) as [Hv|(p & Hv & Hs)]; judged Hv).
  - pose proof (stands_linked p b Hs (or_introl Ha)) as Hl.
    rewrite (linked_exchanging p (ig_impl b)), (ln_master _ _ Hl), Hm by done. cbn.
    rewrite bool_decide_true by done. cbn. rewrite Z.eqb_refl. by apply (linked_idle (mkImpl _ None None None 0 false [])).
  - rewrite (proj1 (stands_configurable p b m Hs Hm Ha)). cbn.
    by apply (linked_idle (mkImpl _ None None None 0 false [])).
Qed.

Lemma good_when_active pointer f k b :
  good b -> (forall x, calm (k x) = true) ->
  (forall p x, linked p (ig_impl b) -> exchanging p = true -> pointer (ig_impl b) = Some x -> judge p (k x) = in_order p) ->
  good (when_active pointer f k b).1.
Proof.
  intros Hg Hc Hk. unfold when_active. unfold_steps.
  destruct (ig_activated (ig_impl b)) eqn:Ha; [|done]. destruct (pointer (ig_impl b)) as [x|] eqn:Hx; [|done]. cbn.
  apply good_call; [done|by left|apply Hc|]. intros p Hl. right. exists p.
  split; [|done]. apply Hk; [done | by apply (linked_exchanging p (ig_impl b)) | done].
Qed.

(** *** Transfers *)

Lemma active_slave_spec i address n s :
  active_slave i address = Some (n, s) -> ig_activated i = true /\ ig_slaves i !! n = Some s.
Proof.
  unfold active_slave. destruct (ig_activated i); [|done]. by intros Hs%find_slave_spec.
Qed.

(** Another request of a slave under way, or none. *)
Lemma linked_alter p i n s (f : Slave -> Slave) requests :
  linked p i -> ig_activated i = true -> ig_slaves i !! n = Some s ->
  sv_configuration (f s) = sv_configuration s -> (forall r, owns (f s) r <-> owns s r) ->
  (sv_active_sdo (f s) = active_none <-> sv_active_request (f s) = None) ->
  (forall r, sv_active_request (f s) = Some r -> owns s r) ->
  (forall r, r ∈ requests <-> sv_active_request (f s) = Some r \/
    exists k t, k <> n /\ ig_slaves i !! k = Some t /\ sv_active_request t = Some r) ->
  linked (flight p requests) (with_slaves (alter f n (ig_slaves i)) i).
Proof.
  intros [H1 H2 H3 H4 H5 H12 H6 H7 H8 H9 H10 H11] Ha Hs Hcfg Ho Hn Hr Hf.
  assert (forall k t, alter f n (ig_slaves i) !! k = Some t ->
    exists u, ig_slaves i !! k = Some u /\ (forall r, owns t r <-> owns u r) /\ (k <> n /\ t = u \/ k = n /\ t = f s)) as Hin.
  { intros k t. destruct (decide (k = n)) as [->|Hne].
    - rewrite list_lookup_alter_eq, Hs. cbn. intros [= <-]. exists s. auto.
    - rewrite list_lookup_alter_ne by done. exists t. auto. }
  constructor; cbn; try done.
  - intros Hm. destruct (H4 Hm). congruence.
  - intros k t (u & Hu & _ & [[_ ->]|[-> ->]])%Hin; [by eapply H12|]. rewrite Hcfg. by eapply H12.
  - intros k t r (u & Hu & Eo & _)%Hin Ht%Eo. by eapply H6.
  - intros k j t u r (t' & Ht & Et & _)%Hin (u' & Hu & Eu & _)%Hin ?%Et ?%Eu. by eapply H7.
  - intros k t r (u & Hu & Eo & [[_ ->]|[-> ->]])%Hin; [by eapply H8|]. intros ?%Hr. by apply Ho.
  - intros k t (u & Hu & Eo & [[_ ->]|[-> ->]])%Hin; [by eapply H9 | done].
  - intros r. rewrite Hf. split.
    + intros [Hfs|(k & t & Hk & Ht & Hrt)].
      * exists n, (f s). by rewrite list_lookup_alter_eq, Hs.
      * exists k, t. by rewrite list_lookup_alter_ne by done.
    + intros (k & t & (u & Hu & Eo & [[? ->]|[-> ->]])%Hin & Hrt); [right; eauto 6 | by left].
  - congruence.
Qed.

(** A slave of an active backend. *)
Definition serves (b : Igh) (n : nat) (s : Slave) : Prop :=
  ig_activated (ig_impl b) = true /\ ig_slaves (ig_impl b) !! n = Some s.

Lemma settles_serves b b' n s : settles b b' -> serves b n s -> serves b' n s.
Proof. intros H. unfold serves. by rewrite (st_impl _ _ H). Qed.

(** An own request of a slave without a transfer is not under way. *)
Lemma not_under_way p i n s r :
  linked p i -> ig_slaves i !! n = Some s -> sv_active_sdo s = active_none -> owns s r ->
  r ∈ p_requests p ∖ p_flight p.
Proof.
  intros Hl Hs Hn Ho. apply elem_of_difference. split; [by apply (ln_owned _ _ Hl n s)|].
  intros (k & t & Ht & Ha)%(ln_flight _ _ Hl).
  pose proof (ln_apart _ _ Hl n k s t r Hs Ht Ho (ln_active_owned _ _ Hl k t r Ht Ha)) as ->.
  apply (ln_active_sdo _ _ Hl k s Hs) in Hn. congruence.
Qed.

Lemma settles_prepare b lib n s r :
  good b -> serves b n s -> sv_active_sdo s = active_none -> owns s r ->
  settles b (mkIgh (ig_impl b) lib (ig_calls b ++ [k_prepare r])).
Proof.
  intros Hg [Ha Hs] Hn Ho. apply settles_after; [done..|]. intros p _ Hl%stands_linked; [|by left]. right. exists p. cbn.
  rewrite (linked_exchanging p (ig_impl b)), bool_decide_true by (done || by apply (not_under_way p (ig_impl b) n s)).
  done.
Qed.

Lemma good_refused b lib n s r code :
  good b -> serves b n s -> sv_active_sdo s = active_none -> owns s r -> igh_call_succeeded code = false ->
  good (mkIgh (ig_impl b) lib (ig_calls b ++ [k_schedule r code])).
Proof.
  intros Hg [Ha Hs] Hn Ho Hc. apply good_call; [done|by left|done|]. intros p Hl. right. exists p. cbn.
  rewrite (linked_exchanging p (ig_impl b)), bool_decide_true by (done || by apply (not_under_way p (ig_impl b) n s)).
  unfold igh_call_succeeded in Hc. by rewrite Hc.
Qed.

Lemma good_begin b lib n s r code kind address limit :
  good b -> serves b n s -> sv_active_sdo s = active_none -> owns s r -> igh_call_succeeded code = true ->
  kind <> active_none ->
  good (mkIgh (with_slaves (alter (begin_transfer kind r address limit) n (ig_slaves (ig_impl b))) (ig_impl b)) lib
    (ig_calls b ++ [k_schedule r code])).
Proof.
  intros Hg [Ha Hs] Hn Ho Hc Hk. apply good_call; [done|by left|done|]. intros p Hl. right.
  exists (flight p ({[r]} ∪ p_flight p)). cbn.
  rewrite (linked_exchanging p (ig_impl b)), bool_decide_true by (done || by apply (not_under_way p (ig_impl b) n s)).
  unfold igh_call_succeeded in Hc. rewrite Hc. split; [done|].
  apply (linked_alter p (ig_impl b) n s); cbn; try done; [by intros ? [= <-]|].
  intros r'. rewrite elem_of_union, elem_of_singleton, (ln_flight _ _ Hl). split.
  - intros [->|(k & t & Ht & Hr)]; [by left|]. right. exists k, t. split; [|done]. intros ->.
    apply (ln_active_sdo _ _ Hl n s Hs) in Hn. congruence.
  - intros [[= ->]|(k & t & _ & Ht & Hr)]; [by left | right; eauto].
Qed.

(** The states of a request that is under way. *)
Lemma settles_state b lib n s r a :
  good b -> serves b n s -> sv_active_request s = Some r -> a = EC_REQUEST_UNUSED \/ a = EC_REQUEST_BUSY ->
  settles b (mkIgh (ig_impl b) lib (ig_calls b ++ [k_state r a])).
Proof.
  intros Hg [Ha Hs] Hr Hk. apply settles_after; [done..|]. intros p _ Hl%stands_linked; [|by left]. right. exists p. cbn.
  rewrite (linked_exchanging p (ig_impl b)), bool_decide_true by (done || apply (ln_flight _ _ Hl); eauto).
  by destruct Hk as [-> | ->].
Qed.

Lemma good_other b lib n s r i' :
  good b -> serves b n s -> sv_active_request s = Some r ->
  good (mkIgh i' lib (ig_calls b ++ [k_state r EC_REQUEST_OTHER])).
Proof.
  intros Hg [Ha Hs] Hr. apply good_call; [done|by left|done|]. intros p Hl. left. cbn.
  by rewrite (linked_exchanging p (ig_impl b)), bool_decide_true by (done || apply (ln_flight _ _ Hl); eauto).
Qed.

Lemma good_end b lib n s r a (f : Slave -> Slave) :
  good b -> serves b n s -> sv_active_request s = Some r -> a = EC_REQUEST_SUCCESS \/ a = EC_REQUEST_ERROR ->
  f = end_transfer \/ f = forget_transfer ->
  good (mkIgh (with_slaves (alter f n (ig_slaves (ig_impl b))) (ig_impl b)) lib (ig_calls b ++ [k_state r a])).
Proof.
  intros Hg [Ha Hs] Hr Hk Hf. apply good_call; [done|by left|done|]. intros p Hl. right.
  exists (flight p (p_flight p ∖ {[r]})). cbn.
  rewrite (linked_exchanging p (ig_impl b)), bool_decide_true by (done || apply (ln_flight _ _ Hl); eauto).
  split; [by destruct Hk as [-> | ->]|].
  apply (linked_alter p (ig_impl b) n s); try done; try (by destruct Hf as [-> | ->]).
  intros r'. rewrite elem_of_difference, elem_of_singleton, (ln_flight _ _ Hl). split.
  - intros [(k & t & Ht & Hrt) Hne]. right. exists k, t. split; [|done]. intros ->. congruence.
  - intros [Hc|(k & t & Hkn & Ht & Hrt)]; [by destruct Hf as [-> | ->]|]. split; [eauto|].
    intros ->. destruct Hkn.
    apply (ln_apart _ _ Hl k n t s r Ht Hs); by eapply (ln_active_owned _ _ Hl).
Qed.

Lemma good_schedule_download n s slot sdo b :
  good b -> serves b n s -> sv_active_sdo s = active_none -> good (schedule_download n s slot sdo b).1.
Proof.
  intros Hg Hs Hn. unfold schedule_download.
  destruct (sv_download_requests s !! slot) as [[r|]|] eqn:Hr; [|done..].
  assert (owns s r) as Ho by (left; by eapply list_elem_of_lookup_2).
  unfold_steps. destruct (negb (Nat.eqb _ _)); [done|].
  destruct (ecrt_sdo_request_index _ _ _) as [lib code]. cbn.
  pose proof (settles_prepare b lib n s r Hg Hs Hn Ho) as S1.
  destruct (igh_call_succeeded code); cbn; [|by apply S1].
  set (b1 := mkIgh _ _ _) in S1. pose proof (st_good _ _ S1 Hg) as Hg1. pose proof (settles_serves _ _ n s S1 Hs) as Hs1.
  set (lib2 := ecrt_sdo_request_set_data _ _ _).
  pose proof (settles_prepare b1 lib2 n s r Hg1 Hs1 Hn Ho) as S2.
  set (b2 := mkIgh _ _ _) in S2. pose proof (st_good _ _ S2 Hg1) as Hg2. pose proof (settles_serves _ _ n s S2 Hs1) as Hs2.
  destruct (ecrt_sdo_request_write _ _) as [lib3 code']. cbn.
  destruct (igh_call_succeeded code') eqn:Hc; cbn.
  - by apply (good_begin b2 lib3 n s r code' active_download).
  - by apply (good_refused b2 lib3 n s r code').
Qed.

Lemma good_schedule_upload n s r address destination b :
  good b -> serves b n s -> sv_active_sdo s = active_none -> owns s r ->
  good (schedule_upload n r address destination b).1.
Proof.
  intros Hg Hs Hn Ho. unfold schedule_upload. unfold_steps.
  destruct (ecrt_sdo_request_index _ _ _) as [lib code]. cbn.
  pose proof (settles_prepare b lib n s r Hg Hs Hn Ho) as S1.
  destruct (igh_call_succeeded code); cbn; [|by apply S1].
  set (b1 := mkIgh _ _ _) in S1. pose proof (st_good _ _ S1 Hg) as Hg1. pose proof (settles_serves _ _ n s S1 Hs) as Hs1.
  destruct (ecrt_sdo_request_read _ _) as [lib3 code']. cbn.
  destruct (igh_call_succeeded code') eqn:Hc; cbn.
  - by apply (good_begin b1 lib3 n s r code' active_upload).
  - by apply (good_refused b1 lib3 n s r code').
Qed.

(** What the library says of the transfer of a slave. *)
Ltac by_state Hg Hf Hr :=
  cbn; first [ refine (st_good _ _ (settles_state _ _ _ _ _ _ Hg Hf Hr _) Hg); by auto
             | exact (good_other _ _ _ _ _ _ Hg Hf Hr)
             | refine (good_end _ _ _ _ _ _ _ Hg Hf Hr _ _); by auto ].

Lemma good_download slave sdo b : good b -> good (progress_download_m slave sdo b).1.
Proof.
  intros Hg. unfold progress_download_m, impl. unfold bind at 1.
  destruct (active_slave _ _) as [[n s]|] eqn:Hf; [|done]. apply active_slave_spec in Hf.
  destruct (index_of_size _ _ _) as [slot|]; [|done].
  destruct (sv_active_sdo s) eqn:Hn; [by apply good_schedule_download | |];
  (destruct (negb _); [done|]); (destruct (sv_active_request s) as [r|] eqn:Hr; [|done]);
  unfold_steps; destruct (ecrt_sdo_request_state _ _) as [lib a]; cbn; destruct a; by_state Hg Hf Hr.
Qed.

Lemma good_upload slave address destination b : good b -> good (progress_upload_m slave address destination b).1.
Proof.
  intros Hg. unfold progress_upload_m, impl. unfold bind at 1.
  destruct (active_slave _ _) as [[n s]|] eqn:Hf; [|done]. apply active_slave_spec in Hf.
  destruct (sv_upload_request s) as [upload|] eqn:Hu; [|done]. destruct (_ || _); [done|].
  destruct (sv_active_sdo s) eqn:Hn.
  { unfold bind. pose proof (good_schedule_upload n s upload address destination b Hg Hf Hn (or_intror Hu)) as Hs.
    by destruct (schedule_upload _ _ _ _ _) as [b1 [[]|]]. }
  all: (destruct (negb _); [done|]); (destruct (sv_active_request s) as [r|] eqn:Hr; [|done]);
    unfold_steps; destruct (ecrt_sdo_request_state _ _) as [lib a]; cbn; destruct a; cbn;
    try (destruct (_ || _)); by_state Hg Hf Hr.
Qed.

Lemma good_cancel slave b : good b -> good (progress_cancel_m slave b).1.
Proof.
  intros Hg. unfold progress_cancel_m, impl. unfold bind at 1.
  destruct (active_slave _ _) as [[n s]|] eqn:Hf; [|done]. apply active_slave_spec in Hf.
  destruct (sv_active_sdo s) eqn:Hn; [done| |]; (destruct (sv_active_request s) as [r|] eqn:Hr; [|done]);
  unfold_steps; destruct (ecrt_sdo_request_state _ _) as [lib a]; cbn; destruct a; by_state Hg Hf Hr.
Qed.

Lemma good_perform b o : good b -> removed (ig_calls b) && uses_configuration o = false -> good (perform b o).
Proof.
  intros Hg Hu. destruct o; cbn; cbn [uses_configuration] in Hu; rewrite ?andb_true_r in Hu;
    [ by apply good_initialize | by apply good_configure_slave | by apply good_bind_pdo_entry | by apply good_activate
    | by apply good_deactivate | | | | | | by apply good_download | | by apply good_cancel ];
    try (apply good_when_active; [done..|]; intros p x Hl He Hx; cbn;
         rewrite He; cbn; rewrite bool_decide_true; [done | by rewrite ?(ln_master _ _ Hl), ?(ln_domain _ _ Hl)]).
  - unfold set_process_image. by destruct (ig_domain_data (ig_impl b)).
  - pose proof (good_upload slave address destination b Hg).
    by destruct (value _ b) as [[[bytes|] progress]|].
Qed.

(** What an active backend points to exists: its master and domain, and the configuration and the
    requests of every slave. *)
Definition pointers_live (p : Protocol) (i : Impl) : Prop :=
  ig_activated i = true ->
  p_master p = ig_master i /\ p_domain p = ig_domain i /\ is_Some (ig_master i) /\ is_Some (ig_domain i) /\
  forall n s, ig_slaves i !! n = Some s ->
    sv_configuration s ∈ p_configurations p /\ forall r, owns s r -> r ∈ p_requests p.

Lemma good_pointers b p : good b -> verdict_of (ig_calls b) = in_order p -> pointers_live p (ig_impl b).
Proof.
  unfold good. intros Hg Hv Ha. rewrite Hv in Hg. pose proof (stands_linked p b Hg (or_introl Ha)) as Hl.
  split_and!; [apply Hl| apply Hl| |by apply (ln_has_domain _ _ Hl)|].
  - destruct (ig_master (ig_impl b)) eqn:Hm; [by eexists|]. destruct (ln_no_master _ _ Hl Hm). congruence.
  - intros n s Hs. split; [by eapply ln_configured|]. intros r Hr. by eapply ln_owned.
Qed.

Lemma good_run operations : forall b, good b -> heeds b operations = true -> good (foldl perform b operations).
Proof.
  induction operations as [|o os IH]; intros b Hb; [done|]. cbn. rewrite andb_true_iff, negb_true_iff.
  intros [Ho Hos]. apply IH; [by apply good_perform|done].
Qed.

(** C13. The backend keeps to the protocol of the library, whatever the operations, their arguments
    and the answers of the library: it requests one master and releases it once, after deactivating
    it; it configures before the activation and exchanges data between the activation and the
    deactivation; every domain, slave configuration and transfer request it uses exists, where the
    deactivation frees them all; it writes and schedules a request only when it is not under way,
    and asks only about one that is.  While it is active, all it points to exists.  When a call is
    not one the protocol allows, the library broke its side first: it handed out a request that
    exists, or answered a state that is none of its four.  One rule is left to the client ([heeds]):
    when [activate] finds no process image it deactivates the master but keeps its pointers, and
    then the client must not bind an entry or activate before [deactivate].  [Master.open] deactivates
    after every failure. *)
Theorem igh_calls_in_order lib master_index (operations : list operation) :
  heeds (construct master_index lib) operations = true ->
  let b := foldl perform (construct master_index lib) operations in
  match verdict_of (ig_calls b) with
  | in_order p => pointers_live p (ig_impl b)
  | library_fault => True
  | backend_fault => False
  end.
Proof.
  intros Hh. cbv zeta. pose proof (good_run operations _ (good_constructed master_index lib) Hh) as Hg.
  pose proof (fun p => good_pointers _ p Hg) as Hp. unfold good in Hg.
  destruct (verdict_of _) as [p| |]; [by apply Hp|done..].
Qed.

(** ** The destination of an upload

    The limit is the size of the destination of the call that scheduled the transfer.  Later calls
    with at least that much room are written inside it. *)
Lemma upload_in_bounds slave address destination b bytes progress :
  (forall lib r, length (ecrt_sdo_request_data lib r) = ecrt_sdo_request_data_size lib r) ->
  (forall n s, active_slave (ig_impl b) slave = Some (n, s) -> (sv_active_upload_limit s <= length destination)%nat) ->
  value (progress_upload_m slave address destination) b = Some (bytes, progress) ->
  exists bytes', bytes = Some bytes' /\ length bytes' = length destination /\
    drop (sp_uploaded_size progress) bytes' = drop (sp_uploaded_size progress) destination.
Proof.
  intros Hsize Hlimit. unfold value, progress_upload_m, impl. unfold bind at 1.
  destruct (active_slave _ _) as [[n s]|] eqn:Hf; [|by intros [= <- <-]; eauto]. specialize (Hlimit n s eq_refl).
  destruct (sv_upload_request s) as [upload|]; [|by intros [= <- <-]; eauto].
  destruct (_ || _); [by intros [= <- <-]; eauto|].
  destruct (sv_active_sdo s).
  { unfold schedule_upload. unfold_steps. destruct (ecrt_sdo_request_index _ _ _) as [lib code]. cbn.
    destruct (igh_call_succeeded code); cbn; [|by intros [= <- <-]; eauto].
    destruct (ecrt_sdo_request_read _ _) as [lib3 code']. cbn.
    destruct (igh_call_succeeded code'); cbn; by intros [= <- <-]; eauto. }
  all: destruct (negb _); [by intros [= <- <-]; eauto|];
    (destruct (sv_active_request s) as [r|]; [|by intros [= <- <-]; eauto]);
    unfold_steps; destruct (ecrt_sdo_request_state _ _) as [lib a]; cbn; destruct a; cbn;
    try (by intros [= <- <-]; eauto);
    destruct (_ || _) eqn:Hb; cbn; [by intros [= <- <-]; eauto|];
    apply orb_false_iff in Hb as [Hb _]; apply Nat.ltb_ge in Hb; intros [= <- <-]; cbn; unfold copy_front;
    (rewrite (proj2 (Nat.leb_le _ _)) by lia); eexists; (split; [done|]);
    specialize (Hsize lib r);
    (split; [rewrite length_app, length_take, length_drop; lia|]);
    rewrite drop_app_ge by (rewrite length_take; lia); rewrite drop_drop; f_equal; rewrite length_take; lia.
Qed.

(** ** The process image

    The library reads and writes the domain memory in [receive] and [process] only. *)
Class EcrtMemory := {
  mem_set (lib : E) d image :
    length image = length (domain_memory lib d) -> domain_memory (set_domain_memory lib d image) d = image;
  mem_queue (lib : E) x d : domain_memory (ecrt_domain_queue lib x) d = domain_memory lib d;
  mem_send (lib : E) x d : domain_memory (ecrt_master_send lib x) d = domain_memory lib d;
  mem_index (lib : E) r address d : domain_memory (ecrt_sdo_request_index lib r address).1 d = domain_memory lib d;
  mem_data (lib : E) r bytes d : domain_memory (ecrt_sdo_request_set_data lib r bytes) d = domain_memory lib d;
  mem_write (lib : E) r d : domain_memory (ecrt_sdo_request_write lib r).1 d = domain_memory lib d;
  mem_read (lib : E) r d : domain_memory (ecrt_sdo_request_read lib r).1 d = domain_memory lib d;
  mem_state (lib : E) r d : domain_memory (ecrt_sdo_request_state lib r).1 d = domain_memory lib d }.

(** A step that touches neither the domain nor its memory. *)
Record same_image (b b' : Igh) : Prop := {
  sm_data : ig_domain_data (ig_impl b') = ig_domain_data (ig_impl b);
  sm_memory : forall d, domain_memory (ig_lib b') d = domain_memory (ig_lib b) d }.

#[local] Instance same_image_preorder : PreOrder same_image.
Proof. split; [done|]. intros b b1 b2 [H1 H2] [H3 H4]. split; [congruence|]. intros d. by rewrite H4. Qed.

Definition keeps_image {A} (mt : M A) : Prop := forall b, same_image b (mt b).1.

Lemma keeps_bind {A B} (mt : M A) (f : A -> M B) :
  keeps_image mt -> (forall a, keeps_image (f a)) -> keeps_image (bind mt f).
Proof.
  intros Hm Hf b. unfold bind. pose proof (Hm b) as Hs. destruct (mt b) as [b1 [a|e]]; [|done].
  transitivity b1; [done | apply Hf].
Qed.

Lemma keeps_pure {A} (f : Igh -> Result A) : keeps_image (fun b => (b, f b)).
Proof. by intros b. Qed.

Lemma keeps_call {A} (f : E -> E * A) k :
  (forall lib d, domain_memory (f lib).1 d = domain_memory lib d) -> keeps_image (call f k).
Proof. intros Hf b. unfold call. specialize (Hf (ig_lib b)). by destruct (f (ig_lib b)) as [lib a]. Qed.

Lemma keeps_update index f : keeps_image (update_slave index f).
Proof. by intros b. Qed.

Lemma keeps_finish index progress : keeps_image (finish index progress).
Proof. by intros b. Qed.

Context `{EcrtMemory}.

(** The steps of the transfers keep the image. *)
Ltac keep :=
  repeat match goal with
  | |- keeps_image (bind _ _) => apply keeps_bind; [|intros ?]
  | |- keeps_image (call _ _) => apply keeps_call; intros ? ?
  | |- keeps_image (call_ _ _) => apply keeps_call; intros ? ?
  | |- keeps_image (update_slave _ _) => apply keeps_update
  | |- keeps_image (finish _ _) => apply keeps_finish
  | |- keeps_image impl => apply (keeps_pure (fun b => success (ig_impl b)))
  | |- keeps_image (ret _) => apply keeps_pure
  | |- keeps_image (fun b => (b, _)) => apply keeps_pure
  | |- keeps_image (match ?x with _ => _ end) => destruct x
  end; try (cbn; by first [apply mem_index | apply mem_data | apply mem_write | apply mem_read | apply mem_state]).

Lemma download_image slave sdo : keeps_image (progress_download_m slave sdo).
Proof. unfold progress_download_m, schedule_download. keep. Qed.

Lemma upload_image slave address destination : keeps_image (progress_upload_m slave address destination).
Proof. unfold progress_upload_m, schedule_upload. keep. Qed.

Lemma cancel_image slave : keeps_image (progress_cancel_m slave).
Proof. unfold progress_cancel_m. keep. Qed.

Lemma same_process_image b b' : same_image b b' -> process_image b' = process_image b.
Proof. intros [Hd Hm]. unfold process_image. rewrite Hd. by destruct (ig_domain_data (ig_impl b)). Qed.

Lemma when_active_image pointer f k b :
  (forall lib x d, domain_memory (f lib x) d = domain_memory lib d) ->
  process_image (when_active pointer f k b).1 = process_image b.
Proof.
  intros Hf. apply same_process_image. unfold when_active. unfold_steps.
  destruct (ig_activated (ig_impl b)), (pointer (ig_impl b)); split; cbn; try done; auto.
Qed.

(** The master's theorems hold over this backend. *)
#[export] Instance IghBackendLaws : Master.EthercatBackendLaws Igh.
Proof.
  split; cbn; intros b.
  - intros image Hl. unfold set_process_image, process_image in *.
    destruct (ig_domain_data (ig_impl b)) as [d|] eqn:Hd; cbn; rewrite Hd; [by apply mem_set|].
    by destruct image.
  - by apply when_active_image, mem_queue.
  - by apply when_active_image, mem_send.
  - intros slave sdo. apply same_process_image, download_image.
  - intros slave address data. apply same_process_image.
    pose proof (upload_image slave address data b). by destruct (value _ b) as [[[bytes|] progress]|].
  - intros slave. apply same_process_image, cancel_image.
Qed.

End Backend.
End IghBackend.
