(* ===== verification/CycleAdmission.v ===== *)
(** * Admission of cycles

    The protocol of [EthercatMaster] that keeps its cycles and its life cycle apart
    ([try_enter_cycle], [leave_cycle], and the gate in [open] and [close] of
    [transport/ethercat/master.cpp]), with every access to the atomic word
    [cycle_admission_] an interleaved step: a gate bit, a count of the cycles inside, and a
    closing thread that waits for the count to reach zero before it deactivates the backend. *)
From S2P Require Export EthercatMaster.

Module CycleAdmission.

Import Master (kCycleOpenBit, kCycleCountMask, gate_open, admission_successor).

(** ** State *)

(** A thread that runs cycles: outside, with a word it loaded, or inside. *)
Inductive CyclePc := outside | loaded (observed : Z) | inside.

(** The thread that holds the lifecycle mutex, if any: in [open] past its check, or in [close] past
    its [fetch_and]: about to load the word, with a word it loaded, blocked in [wait], or
    notified. *)
Inductive LifecyclePc :=
  | unlocked | opening | closing | close_loaded (admission : Z)
  | close_waiting (admission : Z) | close_notified (admission : Z).

Record State := mkState {
  st_admission : Z;
  st_cycles : list CyclePc;
  st_lifecycle : LifecyclePc;
  st_backend_active : bool }.

Definition initial (threads : nat) : State := mkState 0 (repeat outside threads) unlocked false.

(** [notify_all] on the word. *)
Definition notify (pc : LifecyclePc) : LifecyclePc :=
  match pc with close_waiting v => close_notified v | _ => pc end.

Definition count (admission : Z) : Z := Z.land admission kCycleCountMask.

(** ** Steps *)

Inductive step : State -> State -> Prop :=
  (* [try_enter_cycle] *)
  | cycle_load a cs lc b i :
      cs !! i = Some outside ->
      step (mkState a cs lc b) (mkState a (<[i := loaded a]> cs) lc b)
  | cycle_refused a cs lc b i observed :
      cs !! i = Some (loaded observed) -> admission_successor observed = None ->
      step (mkState a cs lc b) (mkState a (<[i := outside]> cs) lc b)
  | cycle_exchanged a cs lc b i observed desired :
      cs !! i = Some (loaded observed) -> admission_successor observed = Some desired ->
      a = observed ->
      step (mkState a cs lc b) (mkState desired (<[i := inside]> cs) lc b)
  (* the weak exchange fails, also spuriously, and loads the word again *)
  | cycle_exchange_failed a cs lc b i observed desired :
      cs !! i = Some (loaded observed) -> admission_successor observed = Some desired ->
      step (mkState a cs lc b) (mkState a (<[i := loaded a]> cs) lc b)
  (* [leave_cycle] *)
  | cycle_leave a cs lc b i :
      cs !! i = Some inside ->
      step (mkState a cs lc b)
        (mkState (u64 (a - 1)) (<[i := outside]> cs)
           (if negb (gate_open a) && (count a =? 1) then notify lc else lc) b)
  (* [open]: refused, or past its check, where the backend is activated *)
  | open_refused a cs b :
      gate_open a = true -> step (mkState a cs unlocked b) (mkState a cs unlocked b)
  | open_starts a cs b :
      gate_open a = false -> step (mkState a cs unlocked b) (mkState a cs opening true)
  | open_fails a cs b : step (mkState a cs opening b) (mkState a cs unlocked false)
  | open_stores a cs b : step (mkState a cs opening b) (mkState kCycleOpenBit cs unlocked b)
  (* [close] *)
  | close_fetch a cs b :
      step (mkState a cs unlocked b)
        (mkState (Z.land a kCycleCountMask) cs (if gate_open a then closing else unlocked) b)
  | close_loads a cs b : step (mkState a cs closing b) (mkState a cs (close_loaded a) b)
  | close_deactivates a cs b v :
      count v = 0 -> step (mkState a cs (close_loaded v) b) (mkState a cs unlocked false)
  | close_blocks a cs b v :
      count v <> 0 -> a = v -> step (mkState a cs (close_loaded v) b) (mkState a cs (close_waiting v) b)
  | close_does_not_block a cs b v :
      count v <> 0 -> a <> v -> step (mkState a cs (close_loaded v) b) (mkState a cs closing b)
  | close_wakes a cs b v :
      a <> v -> step (mkState a cs (close_notified v) b) (mkState a cs closing b)
  | close_blocks_again a cs b v :
      a = v -> step (mkState a cs (close_notified v) b) (mkState a cs (close_waiting v) b).

(** ** The word *)

Definition word (gate : bool) (c : Z) : Z := (if gate then kCycleOpenBit else 0) + c.

Definition in_range (c : Z) : Prop := 0 <= c < kCycleOpenBit.

Lemma count_word gate c : in_range c -> count (word gate c) = c.
Proof.
  intros Hc. unfold count, word. change kCycleCountMask with (Z.ones 63).
  rewrite Z.land_ones by lia. change (2 ^ 63) with kCycleOpenBit. destruct gate.
  - replace (kCycleOpenBit + c) with (c + 1 * kCycleOpenBit) by lia. rewrite Z.mod_add by done.
    by apply Z.mod_small.
  - by apply Z.mod_small.
Qed.

Lemma gate_open_testbit a : gate_open a = Z.testbit a 63.
Proof.
  unfold gate_open. change kCycleOpenBit with (2 ^ 63).
  destruct (Z.eqb_spec (Z.land a (2 ^ 63)) 0) as [E|E]; cbn [negb].
  - pose proof (Z.land_spec a (2 ^ 63) 63) as Hs. rewrite E, Z.bits_0, Z.pow2_bits_true, andb_true_r in Hs by lia.
    done.
  - destruct (Z.testbit a 63) eqn:Ht; [done|]. exfalso. apply E. apply Z.bits_inj'. intros n Hn.
    rewrite Z.land_spec, Z.bits_0, Z.pow2_bits_eqb by lia.
    destruct (Z.eqb_spec 63 n) as [<-|]; [by rewrite Ht|by rewrite andb_false_r].
Qed.

Lemma gate_word gate c : in_range c -> gate_open (word gate c) = gate.
Proof.
  intros Hc. rewrite gate_open_testbit, Z.testbit_eqb by lia. unfold word.
  change kCycleOpenBit with (1 * 2 ^ 63). unfold in_range in Hc. change kCycleOpenBit with (2 ^ 63) in Hc.
  destruct gate.
  - by rewrite Z.div_add_l, Z.div_small by lia.
  - by rewrite Z.add_0_l, Z.div_small by lia.
Qed.

Lemma land_mask_word gate c : in_range c -> Z.land (word gate c) kCycleCountMask = word false c.
Proof. intros Hc. exact (count_word gate c Hc). Qed.

Lemma successor_word gate c :
  in_range (c + 1) -> 0 <= c ->
  admission_successor (word gate c) = if gate then Some (word true (c + 1)) else None.
Proof.
  intros Hc H0. unfold admission_successor.
  assert (in_range c) as Hc' by (unfold in_range in *; lia).
  pose proof (count_word gate c Hc') as Hn. unfold count in Hn. rewrite Hn.
  pose proof (gate_word gate c Hc') as Hg. unfold gate_open in Hg. apply (f_equal negb) in Hg.
  rewrite negb_involutive in Hg. rewrite Hg. destruct gate; cbn [negb orb]; [|done].
  unfold in_range, kCycleCountMask in *. rewrite (proj2 (Z.eqb_neq c (kCycleOpenBit - 1))) by lia.
  f_equal. unfold word. lia.
Qed.

Lemma predecessor_word gate c : in_range c -> 1 <= c -> u64 (word gate c - 1) = word gate (c - 1).
Proof.
  intros Hc H1. unfold word, in_range in *. change kCycleOpenBit with (2 ^ 63) in *.
  replace ((if gate then 2 ^ 63 else 0) + c - 1) with ((if gate then 2 ^ 63 else 0) + (c - 1)) by lia.
  apply wrap_small. unfold is_word. destruct gate; lia.
Qed.

(** ** The threads inside *)

Definition is_inside (pc : CyclePc) : Z := match pc with inside => 1 | _ => 0 end.

Fixpoint count_inside (cs : list CyclePc) : Z :=
  match cs with [] => 0 | pc :: cs => is_inside pc + count_inside cs end.

Lemma count_inside_insert cs i old new :
  cs !! i = Some old ->
  count_inside (<[i := new]> cs) = count_inside cs - is_inside old + is_inside new.
Proof.
  revert i. induction cs as [|pc cs IH]; intros [|i]; cbn [lookup list_lookup count_inside]; try done.
  - intros [= ->]. cbn. lia.
  - intros Hi. change (<[S i := new]> (pc :: cs)) with (pc :: <[i := new]> cs).
    cbn [count_inside]. rewrite (IH i Hi). lia.
Qed.

Lemma count_inside_bounds cs : 0 <= count_inside cs <= Z.of_nat (length cs).
Proof. induction cs as [|pc cs IH]; cbn [count_inside length]; [lia|]. destruct pc; cbn [is_inside]; lia. Qed.

Lemma count_inside_lookup cs i : cs !! i = Some inside -> 1 <= count_inside cs.
Proof.
  intros Hi. pose proof (count_inside_insert cs i inside outside Hi) as Hc.
  pose proof (count_inside_bounds (<[i := outside]> cs)). cbn in Hc. lia.
Qed.

Lemma count_inside_pos cs : 1 <= count_inside cs -> exists i, cs !! i = Some inside.
Proof.
  induction cs as [|pc cs IH]; cbn; [lia|]. intros Hc. destruct pc; cbn in Hc.
  1, 2: destruct IH as [i Hi]; [lia|]; by exists (S i). by exists 0%nat.
Qed.

(** ** The invariant *)

(** A word loaded while closing counts at least the cycles that are inside now. *)
Definition loaded_bound (lc : LifecyclePc) (inside_now : Z) : Prop :=
  match lc with
  | close_loaded v => exists c, v = word false c /\ in_range c /\ inside_now <= c
  | close_waiting v => 1 <= inside_now /\ exists c, v = word false c /\ in_range c /\ 1 <= c
  | close_notified v => inside_now = 0 /\ exists c, v = word false c /\ in_range c /\ 1 <= c
  | _ => True
  end.

Record admission_inv (gate : bool) (s : State) : Prop := {
  ai_word : st_admission s = word gate (count_inside (st_cycles s));
  ai_threads : Z.of_nat (length (st_cycles s)) < kCycleCountMask;
  (* the gate is only open between a complete [open] and the next [close] *)
  ai_gate : gate = true -> st_lifecycle s = unlocked /\ st_backend_active s = true;
  ai_unlocked : st_lifecycle s = unlocked -> gate = false ->
    count_inside (st_cycles s) = 0 /\ st_backend_active s = false;
  ai_opening : st_lifecycle s = opening -> count_inside (st_cycles s) = 0;
  ai_locked : st_lifecycle s <> unlocked -> st_backend_active s = true;
  ai_loaded : loaded_bound (st_lifecycle s) (count_inside (st_cycles s)) }.

Lemma inside_in_range gate s :
  admission_inv gate s -> in_range (count_inside (st_cycles s)) /\ in_range (count_inside (st_cycles s) + 1).
Proof.
  intros Hi. pose proof (ai_threads _ _ Hi) as Ht. pose proof (count_inside_bounds (st_cycles s)).
  unfold in_range, kCycleCountMask in *. lia.
Qed.

(** Threads that stay outside change nothing. *)
Lemma outside_step gate a cs lc b i old new :
  cs !! i = Some old -> is_inside old = 0 -> is_inside new = 0 ->
  admission_inv gate (mkState a cs lc b) -> admission_inv gate (mkState a (<[i := new]> cs) lc b).
Proof.
  intros Hi Ho Hn [Hw Ht Hg Hu Hop Hl Hb]. cbn in *.
  assert (count_inside (<[i := new]> cs) = count_inside cs) as E
    by (rewrite (count_inside_insert _ _ _ _ Hi); lia).
  split; cbn; rewrite ?E, ?length_insert; auto.
Qed.

Lemma enter_step a cs lc b i observed desired :
  cs !! i = Some (loaded observed) -> admission_successor a = Some desired ->
  forall gate, admission_inv gate (mkState a cs lc b) ->
  admission_inv gate (mkState desired (<[i := inside]> cs) lc b).
Proof.
  intros Hi Hs gate Hinv. destruct (inside_in_range _ _ Hinv) as [_ Hr].
  destruct Hinv as [Hw Ht Hg Hu Hop Hl Hb]. cbn in *. subst a.
  rewrite successor_word in Hs by (done || apply count_inside_bounds). destruct gate; [|done].
  injection Hs as <-. destruct (Hg eq_refl) as [-> ->].
  assert (count_inside (<[i := inside]> cs) = count_inside cs + 1) as E
    by (rewrite (count_inside_insert _ _ _ _ Hi); cbn; lia).
  split; cbn; rewrite ?E, ?length_insert; auto; done.
Qed.

Lemma leave_step a cs lc b i :
  cs !! i = Some inside ->
  forall gate, admission_inv gate (mkState a cs lc b) ->
  admission_inv gate (mkState (u64 (a - 1)) (<[i := outside]> cs)
    (if negb (gate_open a) && (count a =? 1) then notify lc else lc) b).
Proof.
  intros Hi gate Hinv. destruct (inside_in_range _ _ Hinv) as [Hr _].
  destruct Hinv as [Hw Ht Hg Hu Hop Hl Hb]. cbn in *. subst a.
  pose proof (count_inside_lookup _ _ Hi) as H1.
  rewrite predecessor_word, gate_word, count_word by done.
  assert (count_inside (<[i := outside]> cs) = count_inside cs - 1) as E
    by (rewrite (count_inside_insert _ _ _ _ Hi); cbn; lia).
  split; cbn; rewrite ?E, ?length_insert; auto.
  - intros ->. destruct (Hg eq_refl) as [-> ->]. by destruct (_ && _).
  - intros Hlc Hgf. destruct (negb gate && _) eqn:En; [|specialize (Hu Hlc Hgf); lia].
    destruct lc; try done. specialize (Hu eq_refl Hgf). lia.
  - intros Hlc. assert (lc = opening) as -> by (destruct (_ && _), lc; done). specialize (Hop eq_refl). lia.
  - intros Hlc. apply Hl. intros ->. by destruct (_ && _).
  - destruct (negb gate && (count_inside cs =? 1)) eqn:En.
    + apply andb_true_iff in En as [_ En]. apply Z.eqb_eq in En.
      destruct lc; cbn in *; try done.
      * destruct Hb as (c & ? & ? & ?). exists c. split_and!; [done..|lia].
      * destruct Hb as [_ Hb]. split; [lia|exact Hb].
      * lia.
    + destruct lc; cbn in *; try done.
      * destruct Hb as (c & ? & ? & ?). exists c. split_and!; [done..|lia].
      * destruct gate; [by destruct (Hg eq_refl)|]. cbn in En. apply Z.eqb_neq in En.
        destruct Hb as [_ Hb]. split; [lia|exact Hb].
      * lia.
Qed.

(** Closing threads load and test the word. *)
Lemma closing_step a cs lc lc' b :
  lc <> unlocked -> lc' <> unlocked -> lc' <> opening ->
  forall gate, admission_inv gate (mkState a cs lc b) -> loaded_bound lc' (count_inside cs) ->
  gate = false /\ admission_inv gate (mkState a cs lc' b).
Proof.
  intros H1 H2 H3 gate [Hw Ht Hg Hu Hop Hl Hb] Hb'. cbn in *.
  assert (gate = false) as -> by (destruct gate; [by destruct (Hg eq_refl)|done]).
  split; [done|]. split; cbn; auto; done.
Qed.

Lemma admission_step_inv s s' :
  step s s' -> forall gate, admission_inv gate s -> exists gate', admission_inv gate' s'.
Proof.
  intros Hs gate Hi. destruct Hs.
  - exists gate. by eapply outside_step.
  - exists gate. by eapply outside_step.
  - subst. exists gate. by eapply enter_step.
  - exists gate. by eapply outside_step.
  - exists gate. by apply leave_step.
  - by exists gate.
  - exists gate. destruct (inside_in_range _ _ Hi) as [Hr _]. destruct Hi as [Hw Ht Hg Hu Hop Hl Hb].
    cbn in *. rewrite Hw, gate_word in H by done. subst gate. destruct (Hu eq_refl eq_refl).
    by split; cbn.
  - exists gate. destruct Hi as [Hw Ht Hg Hu Hop Hl Hb]. cbn in *. specialize (Hop eq_refl).
    assert (gate = false) as -> by (destruct gate; [by destruct (Hg eq_refl)|done]).
    by split; cbn.
  - exists true. destruct Hi as [Hw Ht Hg Hu Hop Hl Hb]. cbn in *. specialize (Hop eq_refl).
    split; cbn; try done. rewrite Hop. done. by rewrite Hl.
  - destruct (inside_in_range _ _ Hi) as [Hr _]. destruct Hi as [Hw Ht Hg Hu Hop Hl Hb]. cbn in *.
    subst a. rewrite land_mask_word, gate_word by done. exists false.
    destruct gate.
    + destruct (Hg eq_refl) as [_ ->]. by split; cbn.
    + by split; cbn.
  - exists gate. apply closing_step with (lc := closing); try done.
    destruct (inside_in_range _ _ Hi) as [Hr _]. destruct Hi as [Hw Ht Hg Hu Hop Hl Hb]. cbn in *.
    assert (gate = false) as -> by (destruct gate; [by destruct (Hg eq_refl)|done]).
    exists (count_inside cs). split_and!; [done|done|lia].
  - exists gate. destruct Hi as [Hw Ht Hg Hu Hop Hl Hb]. cbn in *.
    assert (gate = false) as -> by (destruct gate; [by destruct (Hg eq_refl)|done]).
    destruct Hb as (c & -> & Hc & Hle). rewrite count_word in H by done.
    pose proof (count_inside_bounds cs). split; cbn; try done. intros _ _. split; [lia|done].
  - exists gate. apply closing_step with (lc := close_loaded v); try done. subst a.
    destruct (inside_in_range _ _ Hi) as [Hr _]. destruct Hi as [Hw Ht Hg Hu Hop Hl Hb]. cbn in *.
    destruct Hb as (c & -> & Hc & Hle). rewrite count_word in H by done.
    assert (gate = false) as -> by (destruct gate; [by destruct (Hg eq_refl)|done]).
    unfold word in Hw. unfold in_range in Hc. split; [lia|]. exists c. split_and!; [done|done|lia].
  - exists gate. by apply closing_step with (lc := close_loaded v).
  - exists gate. by apply closing_step with (lc := close_notified v).
  - exists gate. subst a. exfalso. destruct Hi as [Hw Ht Hg Hu Hop Hl Hb]. cbn in *.
    destruct Hb as (H0 & c & -> & Hc & H1). rewrite H0 in Hw.
    assert (gate = false) as -> by (destruct gate; [by destruct (Hg eq_refl)|done]).
    unfold word in Hw. lia.
Qed.

Lemma initial_inv threads :
  Z.of_nat threads < kCycleCountMask -> admission_inv false (initial threads).
Proof.
  intros Ht. assert (count_inside (repeat outside threads) = 0) as E
    by (clear Ht; induction threads as [|k IH]; [done|]; cbn; by rewrite IH).
  split; cbn; rewrite ?E; try done. by rewrite repeat_length.
Qed.

Lemma admission_reachable_inv threads s :
  Z.of_nat threads < kCycleCountMask -> rtc step (initial threads) s -> exists gate, admission_inv gate s.
Proof.
  intros Ht Hr. assert (exists gate, admission_inv gate (initial threads)) as H0
    by (eexists; by apply initial_inv).
  revert H0. induction Hr as [s|s1 s2 s3 Hs _ IH]; [done|]. intros [gate Hg].
  apply IH. by eapply admission_step_inv.
Qed.

(** C18. No cycle runs on an inactive backend.  With fewer than 2^63 - 1 threads that run cycles, in
    every reachable state: the low bits of the admission word count exactly the cycles inside; while
    a cycle is inside, or the gate is open, the backend is active; and when [close] has loaded a
    word with count zero, the state from which it deactivates the backend, no cycle is inside and
    none can enter. *)
Theorem cycle_admission_safe threads s :
  Z.of_nat threads < kCycleCountMask -> rtc step (initial threads) s ->
  count (st_admission s) = count_inside (st_cycles s) /\
  (forall i, st_cycles s !! i = Some inside -> st_backend_active s = true) /\
  (gate_open (st_admission s) = true -> st_lifecycle s = unlocked /\ st_backend_active s = true) /\
  (forall v, st_lifecycle s = close_loaded v -> count v = 0 ->
     count_inside (st_cycles s) = 0 /\ admission_successor (st_admission s) = None).
Proof.
  intros Ht Hr. destruct (admission_reachable_inv _ _ Ht Hr) as [gate Hi].
  destruct (inside_in_range _ _ Hi) as [Hin Hin1]. destruct Hi as [Hw Htt Hg Hu Hop Hl Hb].
  rewrite Hw, count_word, gate_word by done. split_and!; [done| | |].
  - intros i Hi. destruct gate; [by destruct (Hg eq_refl)|].
    destruct (st_lifecycle s) eqn:E; try (by apply Hl).
    apply count_inside_lookup in Hi. destruct (Hu eq_refl eq_refl). lia.
  - done.
  - intros v Hlc Hv. rewrite Hlc in Hb, Hg. destruct Hb as (c & -> & Hc & Hle).
    rewrite count_word in Hv by done. pose proof (count_inside_bounds (st_cycles s)).
    split; [lia|]. destruct gate; [by destruct (Hg eq_refl)|].
    by apply (successor_word false); [done|lia].
Qed.

(** ** [close] comes to its end *)

Definition is_closing (lc : LifecyclePc) : Prop := lc <> unlocked /\ lc <> opening.

(** What is left to do before the backend is deactivated. *)
Definition remaining (s : State) : Z :=
  let n := count_inside (st_cycles s) in
  match st_lifecycle s with
  | unlocked | opening => 0
  | closing => 5 * n + 2
  | close_loaded v => 4 * count v + n + 1
  | close_waiting _ => 5 * n
  | close_notified _ => 3
  end.

(** A leaving cycle brings a closing thread nearer to its end. *)
Lemma leave_remaining a cs lc b i :
  cs !! i = Some inside -> is_closing lc -> admission_inv false (mkState a cs lc b) ->
  let s' := mkState (u64 (a - 1)) (<[i := outside]> cs)
    (if negb (gate_open a) && (count a =? 1) then notify lc else lc) b in
  is_closing (st_lifecycle s') /\ remaining s' < remaining (mkState a cs lc b).
Proof.
  intros Hi [Hc1 Hc2] Hinv. destruct (inside_in_range _ _ Hinv) as [Hr _].
  destruct Hinv as [Hw Ht Hg Hu Hop Hl Hb]. cbn in *. subst a.
  pose proof (count_inside_lookup _ _ Hi) as H1.
  rewrite gate_word, count_word by done. unfold remaining, is_closing. cbn.
  rewrite (count_inside_insert _ _ _ _ Hi). cbn [is_inside].
  destruct (Z.eqb_spec (count_inside cs) 1) as [E|E]; destruct lc; cbn in *; try done;
    (split; [done|first [lia|destruct Hb; lia]]).
Qed.

(** A closing thread has a next step, which brings it nearer to its end, or waits for a cycle. *)
Lemma closing_progress a cs lc b :
  is_closing lc -> admission_inv false (mkState a cs lc b) ->
  exists s', step (mkState a cs lc b) s' /\ remaining s' < remaining (mkState a cs lc b).
Proof.
  intros Hc Hinv. destruct (inside_in_range _ _ Hinv) as [Hr _]. pose proof Hinv as Hinv'.
  destruct Hinv as [Hw Ht Hg Hu Hop Hl Hb]. cbn in *.
  pose proof (count_inside_bounds cs) as Hn. destruct lc as [| | |v|v|v]; try by destruct Hc.
  - eexists. split; [apply close_loads|]. unfold remaining. cbn. rewrite Hw, count_word by done. lia.
  - destruct Hb as (c & -> & Hcr & Hle). destruct (Z.eq_dec c 0) as [->|H0].
    { eexists. split; [apply close_deactivates; by rewrite count_word|].
      unfold remaining; cbn. rewrite count_word by done. lia. }
    destruct (Z.eq_dec a (word false c)) as [E|E].
    + eexists. split; [apply close_blocks; [by rewrite count_word|done]|].
      unfold remaining; cbn. rewrite count_word by done. unfold word in *. lia.
    + eexists. split; [apply close_does_not_block; [by rewrite count_word|done]|].
      unfold remaining; cbn. rewrite count_word by done. unfold word in *. lia.
  - destruct Hb as [Hb _]. destruct (count_inside_pos _ Hb) as [i Hi]. eexists.
    split; [by apply (cycle_leave a cs _ b i)|]. by eapply leave_remaining.
  - destruct Hb as (H0 & c & -> & Hcr & H1). eexists. split.
    + apply close_wakes. rewrite Hw. unfold word. lia.
    + unfold remaining; cbn. lia.
Qed.

(** Every step of another thread leaves the closing thread closing, and no farther from its end. *)
Lemma closing_step_remaining s s' :
  step s s' -> is_closing (st_lifecycle s) -> admission_inv false s ->
  (is_closing (st_lifecycle s') \/ st_lifecycle s' = unlocked /\ st_backend_active s' = false) /\
  remaining s' <= remaining s.
Proof.
  intros Hs Hc Hinv. destruct (inside_in_range _ _ Hinv) as [Hr Hr1].
  destruct Hs; cbn in Hc; try by destruct Hc.
  1, 2, 4: split; [by left|]; unfold remaining; cbn; by rewrite (count_inside_insert _ _ _ _ H); cbn;
    rewrite Z.sub_0_r, Z.add_0_r.
  - subst. destruct Hinv as [Hw _ _ _ _ _ _]. cbn in Hw. rewrite Hw in H0.
    pose proof (count_inside_bounds cs).
    rewrite (successor_word false) in H0; [done| |lia]. done.
  - destruct (leave_remaining a cs lc b i H Hc Hinv). split; [by left|lia].
  - destruct Hinv as [Hw _ _ _ _ _ _]. cbn in Hw. split; [by left|]. unfold remaining; cbn.
    rewrite Hw, count_word by done. lia.
  - destruct Hinv as [Hw _ _ _ _ _ Hb]. cbn in *. destruct Hb as (c & -> & Hcr & _).
    split; [by right|]. unfold remaining; cbn. pose proof (count_inside_bounds cs).
    rewrite H. lia.
  - destruct Hinv as [Hw _ _ _ _ _ Hb]. cbn in *. destruct Hb as (c & -> & Hcr & _).
    split; [by left|]. unfold remaining; cbn. rewrite count_word by done.
    unfold word in *. lia.
  - destruct Hinv as [Hw _ _ _ _ _ Hb]. cbn in *. destruct Hb as (c & -> & Hcr & Hle).
    split; [by left|]. unfold remaining; cbn. rewrite count_word by done. unfold word in *. lia.
  - destruct Hinv as [Hw _ _ _ _ _ Hb]. cbn in *. destruct Hb as (H0 & _).
    split; [by left|]. unfold remaining; cbn. lia.
  - destruct Hinv as [Hw _ _ _ _ _ Hb]. cbn in *. destruct Hb as (H0 & _).
    split; [by left|]. unfold remaining; cbn. lia.
Qed.

(** C24. [close] comes to its end.  In every reachable state with a thread inside [close]: some step is
    enabled that strictly decreases the bounded measure [remaining] (its own, or that of a cycle it
    waits for, so no wake-up is lost), and no step of any thread increases it or makes the closing
    thread leave other than by deactivating the backend.  So [close] returns under every schedule
    that keeps taking enabled decreasing steps. *)
Theorem cycle_close_terminates threads s :
  Z.of_nat threads < kCycleCountMask -> rtc step (initial threads) s -> is_closing (st_lifecycle s) ->
  (exists s', step s s' /\ 0 <= remaining s' < remaining s) /\
  (forall s', step s s' ->
     remaining s' <= remaining s /\
     (is_closing (st_lifecycle s') \/
      st_lifecycle s' = unlocked /\ st_backend_active s' = false)).
Proof.
  intros Ht Hr Hc. destruct (admission_reachable_inv _ _ Ht Hr) as [gate Hi].
  assert (gate = false) as -> by (destruct gate; [|done]; destruct (ai_gate _ _ Hi eq_refl); by destruct Hc).
  split.
  - destruct s as [a cs lc b]. destruct (closing_progress a cs lc b Hc Hi) as (s' & Hs & Hlt).
    exists s'. split; [done|]. split; [|done]. unfold remaining.
    pose proof (count_inside_bounds (st_cycles s')).
    destruct (st_lifecycle s') eqn:E; try lia.
    assert (0 <= count admission); [|lia]. unfold count. apply Z.land_nonneg. by right.
  - intros s' Hs. by destruct (closing_step_remaining s s' Hs Hc Hi).
Qed.

(** ** A concrete run: a cycle enters, and the closing thread waits for it *)

Definition entered : State := mkState (kCycleOpenBit + 1) [inside] unlocked true.
Definition waiting : State := mkState 1 [inside] (close_waiting 1) true.

Lemma entered_reachable : rtc step (initial 1) entered.
Proof.
  eapply rtc_l; [by apply open_starts|]. eapply rtc_l; [apply open_stores|].
  eapply rtc_l; [by apply (cycle_load _ _ _ _ 0)|].
  eapply rtc_l; [by apply (cycle_exchanged _ _ _ _ 0 kCycleOpenBit)|]. apply rtc_refl.
Qed.

Lemma waiting_reachable : rtc step (initial 1) waiting.
Proof.
  transitivity entered; [apply entered_reachable|].
  eapply rtc_l; [apply close_fetch|]. eapply rtc_l; [apply close_loads|].
  eapply rtc_l; [by apply close_blocks|]. apply rtc_refl.
Qed.

Lemma cycle_admission_safe_witness :
  rtc step (initial 1) entered /\ count (st_admission entered) = 1 /\ st_backend_active entered = true.
Proof.
  destruct (cycle_admission_safe 1 entered) as (Hc & Hb & _); [by vm_compute|exact entered_reachable|].
  split; [exact entered_reachable|]. split; [exact Hc|exact (Hb 0%nat eq_refl)].
Defined.

Lemma cycle_close_terminates_witness :
  exists s', step waiting s' /\ 0 <= remaining s' < remaining waiting.
Proof.
  destruct (cycle_close_terminates 1 waiting) as [Hs _]; [by vm_compute|exact waiting_reachable|done|].
  exact Hs.
Defined.

End CycleAdmission.
