(* ===== verification/Text.v ===== *)
(** * Strings, ordered maps and JSON trees

    What the codec and the profile loaders share: the character classes of the C locale, [trim],
    decimal printing, [std::map] with string keys, and the value tree of the JSON library. *)
From Stdlib Require Export Ascii.
From stdpp Require Export pretty.
From S2P Require Export Prelude Floats.

(** ** JSON values

    The value types of the library; the entries of an object are listed in the order the library
    iterates over them (the order of the keys for [json], of insertion for [ordered_json]). *)
Inductive Json :=
  | JNull
  | JBoolean (b : bool)
  | JInteger (z : Z)
  | JUnsigned (z : Z)
  | JFloat (d : double)
  | JString (s : string)
  | JArray (items : list Json)
  | JObject (entries : list (string * Json))
  | JBinary (bytes : list Z).

Abbreviation Entries := (list (string * Json)).

Definition is_object (v : Json) : bool := match v with JObject _ => true | _ => false end.
Definition is_array (v : Json) : bool := match v with JArray _ => true | _ => false end.
Definition is_string (v : Json) : bool := match v with JString _ => true | _ => false end.
Definition is_boolean (v : Json) : bool := match v with JBoolean _ => true | _ => false end.
Definition is_null (v : Json) : bool := match v with JNull => true | _ => false end.

Fixpoint member (entries : Entries) (name : string) : option Json :=
  match entries with
  | [] => None
  | (key, value) :: entries => if String.eqb key name then Some value else member entries name
  end.

(** ** Characters and strings *)

Abbreviation chars := String.list_ascii_of_string.

(** [std::isspace] in the C locale. *)
Definition is_space (c : ascii) : bool :=
  let n := N_of_ascii c in ((9 <=? n) && (n <=? 13) || (n =? 32))%N.

(** [std::isdigit]. *)
Definition is_digit (c : ascii) : bool :=
  let n := N_of_ascii c in ((48 <=? n) && (n <=? 57))%N.

Definition is_upper (c : ascii) : bool :=
  let n := N_of_ascii c in ((65 <=? n) && (n <=? 90))%N.

Definition is_lower (c : ascii) : bool :=
  let n := N_of_ascii c in ((97 <=? n) && (n <=? 122))%N.

(** [std::tolower] in the C locale. *)
Definition to_lower (c : ascii) : ascii :=
  if is_upper c then ascii_of_N (N_of_ascii c + 32) else c.

Definition digit_value (c : ascii) : Z := Z.of_N (N_of_ascii c) - 48.

Fixpoint is_blank (s : string) : bool :=
  match s with
  | EmptyString => true
  | String c s => is_space c && is_blank s
  end.

Fixpoint drop_spaces (s : string) : string :=
  match s with
  | String c rest => if is_space c then drop_spaces rest else s
  | EmptyString => EmptyString
  end.

(** Without the blanks at the end. *)
Fixpoint drop_trailing (s : string) : string :=
  match s with
  | EmptyString => EmptyString
  | String c rest => if is_space c && is_blank rest then EmptyString else String c (drop_trailing rest)
  end.

Definition newline : string := String (ascii_of_N 10) EmptyString.

(** [std::to_string] of a natural number. *)
Definition to_string (z : Z) : string := pretty (Z.to_N z).

(** [std::string::find(pattern) != npos]. *)
Fixpoint contains_text (pattern s : string) : bool :=
  String.prefix pattern s ||
  match s with EmptyString => false | String _ rest => contains_text pattern rest end.

(** ** [std::map<std::string, V>]: the entries in the order of their keys *)
Abbreviation StringMap V := (list (string * V)).

Fixpoint map_find {V} (m : StringMap V) (k : string) : option V :=
  match m with
  | [] => None
  | (key, v) :: m => if String.eqb key k then Some v else map_find m k
  end.

Fixpoint map_place {V} (m : StringMap V) (k : string) (v : V) : StringMap V :=
  match m with
  | [] => [(k, v)]
  | (key, w) :: rest =>
      match String.compare k key with
      | Lt => (k, v) :: m
      | _ => (key, w) :: map_place rest k v
      end
  end.

(** [emplace]: does nothing when the key is there. *)
Definition map_emplace {V} (m : StringMap V) (k : string) (v : V) : StringMap V :=
  match map_find m k with Some _ => m | None => map_place m k v end.

Lemma map_find_in {V} (m : StringMap V) k v : map_find m k = Some v -> (k, v) ∈ m.
Proof.
  induction m as [|[key w] m IH]; [done|]. cbn.
  destruct (String.eqb_spec key k) as [->|]; [intros [= ->]; left|right; auto].
Qed.

Lemma map_find_none {V} (m : StringMap V) k : map_find m k = None <-> k ∉ m.*1.
Proof.
  induction m as [|[key w] m IH]; cbn; [set_solver|].
  destruct (String.eqb_spec key k) as [->|]; set_solver.
Qed.

Lemma map_find_nodup {V} (m : StringMap V) k v : NoDup m.*1 -> (k, v) ∈ m -> map_find m k = Some v.
Proof.
  induction m as [|[key w] m IH]; cbn; [set_solver|]. intros [Hk Hn]%NoDup_cons Hin.
  destruct (String.eqb_spec key k) as [->|Hne].
  - apply elem_of_cons in Hin as [[= ->]|Hin]; [done|].
    destruct Hk. apply list_elem_of_fmap. by exists (k, v).
  - apply IH; [done|]. apply elem_of_cons in Hin as [[= ? _]|Hin]; [congruence|done].
Qed.

Lemma map_place_perm {V} (m : StringMap V) k v : map_place m k v ≡ₚ (k, v) :: m.
Proof.
  induction m as [|[key w] m IH]; cbn; [done|].
  destruct (String.compare k key); [|done|]; rewrite IH; constructor.
Qed.

Lemma map_emplace_nodup {V} (m : StringMap V) k v : NoDup m.*1 -> NoDup (map_emplace m k v).*1.
Proof.
  intros Hm. unfold map_emplace. destruct (map_find m k) eqn:E; [done|].
  rewrite (map_place_perm m). cbn. apply NoDup_cons. split; [by apply map_find_none|done].
Qed.

Lemma map_emplace_find {V} (m : StringMap V) k v k' :
  NoDup m.*1 ->
  map_find (map_emplace m k v) k' =
  match map_find m k' with
  | Some w => Some w
  | None => if String.eqb k k' then Some v else None
  end.
Proof.
  intros Hm. pose proof (map_emplace_nodup m k v Hm) as Hn. unfold map_emplace in *.
  destruct (map_find m k) as [w|] eqn:E.
  - destruct (map_find m k') eqn:E'; [done|].
    destruct (String.eqb_spec k k') as [->|]; [congruence|done].
  - destruct (map_find m k') as [w|] eqn:E'.
    + apply map_find_nodup; [done|]. rewrite map_place_perm. right. by apply map_find_in.
    + destruct (String.eqb_spec k k') as [->|Hne].
      * apply map_find_nodup; [done|]. rewrite map_place_perm. left.
      * apply map_find_none. rewrite (map_place_perm m). apply map_find_none in E'. set_solver.
Qed.

Lemma map_emplace_elem {V} (m : StringMap V) k v e :
  e ∈ map_emplace m k v <-> e ∈ m \/ map_find m k = None /\ e = (k, v).
Proof.
  unfold map_emplace. destruct (map_find m k) as [w|] eqn:E; [naive_solver|].
  rewrite map_place_perm, elem_of_cons. naive_solver.
Qed.

(** ** Decimal text *)

Lemma to_string_inj x y : 0 <= x -> 0 <= y -> to_string x = to_string y -> x = y.
Proof.
  unfold to_string. intros Hx Hy E%(inj _). lia.
Qed.

Lemma pretty_N_char_digit x : is_digit (pretty_N_char x) = true.
Proof. unfold pretty_N_char. by repeat case_match. Qed.

Lemma pretty_N_go_digits x s :
  Forall (fun c => is_digit c = true) (chars s) ->
  Forall (fun c => is_digit c = true) (chars (pretty_N_go x s)).
Proof.
  revert s. induction (N.lt_wf_0 x) as [x _ IH]; intros s Hs.
  destruct (decide (x = 0)%N) as [->|Hx]; [done|].
  rewrite pretty_N_go_step by lia. apply IH; [apply N.div_lt; lia|].
  constructor; [apply pretty_N_char_digit|done].
Qed.

Lemma to_string_digits z : Forall (fun c => is_digit c = true) (chars (to_string z)).
Proof.
  unfold to_string, pretty, pretty_N. destruct (decide (Z.to_N z = 0)%N).
  - by repeat constructor.
  - apply pretty_N_go_digits. constructor.
Qed.

(** A text without a line break is determined by the line that ends with it: the identities the
    loaders and the topology build, [path \n number], can be taken apart. *)
Definition single_line (s : string) : Prop := ascii_of_N 10 ∉ chars s.

Lemma to_string_single_line z : single_line (to_string z).
Proof.
  intros Hin. pose proof (to_string_digits z) as Hd. rewrite Forall_forall in Hd.
  by specialize (Hd _ Hin).
Qed.

Lemma list_ascii_app s t :
  chars (s +:+ t) = (chars s ++ chars t)%list.
Proof. induction s as [|c s IH]; [done|]. exact (f_equal (cons c) IH). Qed.

Lemma list_ascii_inj s t : chars s = chars t -> s = t.
Proof.
  intros E. by rewrite <- (String.string_of_list_ascii_of_string s), E, String.string_of_list_ascii_of_string.
Qed.

Lemma last_line_inj a b x y :
  single_line x -> single_line y ->
  a +:+ newline +:+ x = b +:+ newline +:+ y -> a = b /\ x = y.
Proof.
  intros Hx Hy E. apply (f_equal chars) in E. rewrite !list_ascii_app in E.
  unfold single_line in *. cut (chars a = chars b /\
    chars x = chars y).
  { intros [Ea Ex]. split; by apply list_ascii_inj. }
  set (la := chars a) in *. set (lb := chars b) in *.
  set (lx := chars x) in *. set (ly := chars y) in *.
  change (chars newline) with [ascii_of_N 10] in E. clearbody la lb lx ly. clear a b x y.
  revert lb E. induction la as [|c la IH]; intros [|c' lb] E; cbn in E.
  - by injection E.
  - injection E as <- E. destruct Hx. rewrite E. set_solver.
  - injection E as -> E. destruct Hy. rewrite <- E. set_solver.
  - injection E as -> E. by destruct (IH lb E) as [-> ->].
Qed.
