(* ===== verification/Rpc.v ===== *)
(** * The RPC codec

    [devices/rpc/codec.cpp] and [devices/rpc/messages.hpp]: message envelopes as JSON, with the
    validation of their payloads.  The JSON library is a parameter: its values are a tree
    ([Text.Json]), and its parser and printer are an interface ([JsonText]) over an opaque type of
    texts. *)
From Stdlib Require Import Ascii.
From S2P Require Export Prelude Floats Text.

Module Rpc.

(** Store under a key, in the order of the keys. *)
Fixpoint store (entries : Entries) (name : string) (value : Json) : Entries :=
  match entries with
  | [] => [(name, value)]
  | (key, v) :: rest =>
      match String.compare name key with
      | Lt => (name, value) :: entries
      | Eq => (key, value) :: rest
      | Gt => (key, v) :: store rest name value
      end
  end.

Definition object_of (entries : Entries) : Json :=
  JObject (fold_left (fun o e => store o e.1 e.2) entries []).

Definition is_strict_integer (v : Json) : bool :=
  match v with JInteger _ | JUnsigned _ => true | _ => false end.

Definition is_strict_number (v : Json) : bool :=
  is_strict_integer v || match v with JFloat _ => true | _ => false end.

(** ** Messages *)

Record ErrorPayload := mkErrorPayload { ep_code : string; ep_message : string; ep_details : Json }.

Record MessageEnvelope := mkEnvelope {
  en_schema : string;
  en_type : string;
  en_request_id : string;
  en_session_id : string;
  en_step_id : Z;
  en_timestamp_ns : Z;
  en_payload : Json;
  en_error : option ErrorPayload }.

Definition kSchemaVersion : string := "embodied-policy-runtime/v1alpha1".

(** ** Validation

    A validator answers [None] when it accepts, and its error message when it does not (a message
    the code leaves empty is replaced by the caller's, as in the source). *)
Definition Check : Type := option string.

Definition require (b : bool) (error : string) : Check := if b then None else Some error.

(** The second check runs when the first accepts. *)
Definition and_then (first second : Check) : Check :=
  match first with Some error => Some error | None => second end.

Notation "a ;;; b" := (and_then a b) (at level 100, b at level 200, right associativity).

Open Scope string_scope.

Fixpoint only_keys (entries : Entries) (allowed : list string) (name : string) : Check :=
  match entries with
  | [] => None
  | (key, _) :: entries =>
      if existsb (String.eqb key) allowed then only_keys entries allowed name
      else Some (name ++ " contains unknown key: " ++ key)
  end.

Definition require_string (entries : Entries) (key name : string) : Check :=
  match member entries key with
  | Some (JString _) => None
  | _ => Some (name ++ " requires string " ++ key)
  end.

(** [p] holds of the value under a key, when there is one. *)
Definition optional_member (entries : Entries) (name : string) (p : Json -> bool) : bool :=
  match member entries name with Some v => p v | None => true end.

(** A nullable member is validated when it is present and not null. *)
Definition nullable_member (entries : Entries) (name : string) (validate : Json -> Check) : Check :=
  match member entries name with
  | None | Some JNull => None
  | Some v => validate v
  end.

Definition validate_joint_state (value : Json) : Check :=
  match value with
  | JObject entries =>
      only_keys entries ["values"; "joint_names"; "unit"] "joint state" ;;;
      match member entries "values", member entries "joint_names" with
      | Some (JArray values), Some (JArray joint_names) =>
          require_string entries "unit" "joint state" ;;;
          require (forallb is_strict_number values) "joint state values must be numbers" ;;;
          require (forallb is_string joint_names) "joint state joint_names must contain strings" ;;;
          require (length values =? length joint_names)%nat
            "values and joint_names must have the same length"
      | _, _ => Some "joint state requires values, joint_names, and unit"
      end
  | _ => Some "joint state must be an object"
  end.

Definition validate_gripper (value : Json) : Check :=
  match value with
  | JObject entries =>
      only_keys entries ["value"; "unit"] "gripper value" ;;;
      match member entries "value" with
      | Some scalar =>
          if is_strict_number scalar then require_string entries "unit" "gripper value"
          else Some "gripper value requires numeric value and string unit"
      | None => Some "gripper value requires numeric value and string unit"
      end
  | _ => Some "gripper value must be an object"
  end.

Definition validate_task_text (value : Json) : Check :=
  match value with
  | JObject entries =>
      only_keys entries ["text"] "task text" ;;; require_string entries "text" "task text"
  | _ => Some "task text requires string text"
  end.

Definition image_encoding (v : Json) : bool :=
  match v with
  | JString s => String.eqb s "base64" || String.eqb s "uri" || String.eqb s "inline_json"
  | _ => false
  end.

Definition validate_image (value : Json) : Check :=
  match value with
  | JObject entries =>
      only_keys entries ["encoding"; "data"; "mime_type"] "image" ;;;
      require_string entries "data" "image" ;;;
      require (optional_member entries "encoding" image_encoding)
        "image encoding must be base64, uri, or inline_json" ;;;
      require (optional_member entries "mime_type" is_string) "image mime_type must be a string"
  | _ => Some "image requires string data"
  end.

Definition validate_observation (value : Json) : Check :=
  match value with
  | JObject entries =>
      nullable_member entries "joint_position" validate_joint_state ;;;
      nullable_member entries "gripper_width" validate_gripper ;;;
      nullable_member entries "task_text" validate_task_text ;;;
      nullable_member entries "image" validate_image ;;;
      require (optional_member entries "meta" is_object) "observation meta must be an object"
  | _ => Some "observation must be an object"
  end.

Definition non_null (v : option Json) : bool :=
  match v with None | Some JNull => false | Some _ => true end.

Definition validate_action (action : Json) : Check :=
  match action with
  | JObject entries =>
      nullable_member entries "joint_position_delta" validate_joint_state ;;;
      nullable_member entries "gripper_command" validate_gripper ;;;
      match member entries "action_chunk" with
      | None => None
      | Some (JArray items) => require (forallb is_object items) "action_chunk must contain objects"
      | Some _ => Some "action_chunk must be an array"
      end ;;;
      require (optional_member entries "meta" is_object) "action meta must be an object" ;;;
      let has_single_step :=
        non_null (member entries "joint_position_delta") || non_null (member entries "gripper_command") in
      let has_chunk := match member entries "action_chunk" with Some (JArray (_ :: _)) => true | _ => false end in
      let has_extra := existsb (fun e =>
        negb (existsb (String.eqb e.1) ["joint_position_delta"; "gripper_command"; "action_chunk"; "meta"]))
        entries in
      require (has_single_step || has_chunk || has_extra)
        "action payload must contain a single-step action or an action_chunk"
  | _ => Some "action must be an object"
  end.

Definition get_string (v : option Json) : string := match v with Some (JString s) => s | _ => "" end.

Definition validate_error_payload (value : Json) : ErrorPayload + string :=
  match value with
  | JObject entries =>
      match only_keys entries ["code"; "message"; "details"] "error" ;;;
            require_string entries "code" "error" ;;; require_string entries "message" "error" ;;;
            require (optional_member entries "details" is_object) "error details must be an object" with
      | Some error => inr error
      | None =>
          inl (mkErrorPayload (get_string (member entries "code")) (get_string (member entries "message"))
                 (default (JObject []) (member entries "details")))
      end
  | _ => inr "error requires string code and message"
  end.

Definition validate_observation_request (payload : Entries) : Check :=
  only_keys payload ["observation"] "observation request" ;;;
  match member payload "observation" with
  | None | Some JNull => Some "observation request requires observation"
  | Some observation => validate_observation observation
  end.

Definition validate_action_response (payload : Entries) : Check :=
  only_keys payload ["ok"; "action"] "action response" ;;;
  match member payload "ok", member payload "action" with
  | Some (JBoolean _), Some JNull => Some "action response requires boolean ok and action"
  | Some (JBoolean _), Some action => validate_action action
  | _, _ => Some "action response requires boolean ok and action"
  end.

Definition validate_health_request (payload : Entries) : Check :=
  only_keys payload ["verbose"] "health request" ;;;
  require (optional_member payload "verbose" is_boolean) "health request verbose must be a boolean".

Definition validate_health_response (payload : Entries) : Check :=
  only_keys payload ["ok"; "policy_id"] "health response" ;;;
  match member payload "ok" with
  | Some (JBoolean _) => require_string payload "policy_id" "health response"
  | _ => Some "health response requires boolean ok and string policy_id"
  end.

Definition validate_reset_request (payload : Entries) : Check :=
  only_keys payload ["hard"] "reset request" ;;;
  require (optional_member payload "hard" is_boolean) "reset request hard must be a boolean".

Definition validate_server_info_response (payload : Entries) : Check :=
  only_keys payload ["server_name"; "server_version"; "supported_schema"; "transports"]
    "server info response" ;;;
  require_string payload "server_name" "server info response" ;;;
  require_string payload "server_version" "server info response" ;;;
  require (optional_member payload "supported_schema" is_string)
    "server info response supported_schema must be a string" ;;;
  match member payload "transports" with
  | None => None
  | Some (JArray transports) =>
      require (forallb is_string transports) "server info response transports must contain strings"
  | Some _ => Some "server info response transports must be an array"
  end.

Definition validate_payload_for_type (type : string) (payload : Json) : Check :=
  match payload with
  | JObject entries =>
      if String.eqb type "observation_request" then validate_observation_request entries
      else if String.eqb type "action_response" then validate_action_response entries
      else if String.eqb type "health_request" then validate_health_request entries
      else if String.eqb type "health_response" then validate_health_response entries
      else if String.eqb type "reset_request" then validate_reset_request entries
      else if String.eqb type "server_info_response" then validate_server_info_response entries
      else None
  | _ => Some "payload must be an object"
  end.

Definition check_result (c : Check) : Result unit :=
  match c with None => success tt | Some error => fail protocol error end.

Definition validate_action_payload (action : Json) : Result unit := check_result (validate_action action).

Definition validate_payload (type : string) (payload : Json) : Result unit :=
  check_result (validate_payload_for_type type payload).

(** ** Envelopes

    The library's parser and printer.  [dump] throws on a string that is not UTF-8: [inl] is what the
    exception says. *)
Class JsonText (Text : Type) := {
  json_parse : Text -> option Json;
  json_dump : Json -> string + Text }.

Definition top_level_keys : list string :=
  ["schema"; "type"; "request_id"; "session_id"; "step_id"; "timestamp_ns"; "payload"; "error"].

Fixpoint unknown_key (entries : Entries) : option string :=
  match entries with
  | [] => None
  | (key, _) :: entries => if existsb (String.eqb key) top_level_keys then unknown_key entries else Some key
  end.

Definition int64_maximum : Z := 2 ^ 63 - 1.

(** The timestamp of an envelope, or the error of its value. *)
Definition timestamp_of (v : Json) : Result Z :=
  match v with
  | JInteger z => if (z <? 0)%Z then fail protocol "timestamp_ns must be >= 0" else success z
  | JUnsigned z => if (int64_maximum <? z)%Z then fail protocol "timestamp_ns is out of range" else success z
  | _ => fail protocol "timestamp_ns must be an integer"
  end.

Definition step_of (v : option Json) : Result Z :=
  match v with
  | None => success 0
  | Some (JInteger z) =>
      if (z <? 0)%Z then fail protocol "step_id must be a non-negative integer" else success z
  | Some (JUnsigned z) => success z
  | Some _ => fail protocol "step_id must be a non-negative integer"
  end.

(** A required string member. *)
Definition string_member (entries : Entries) (name : string) : Result string :=
  match member entries name with
  | Some (JString s) => success s
  | _ => fail protocol (name ++ " must be a string")
  end.

Definition non_blank (s name : string) : Result unit :=
  if is_blank s then fail protocol (name ++ " must be non-empty") else success tt.

Definition schema_of (entries : Entries) : Result string :=
  match member entries "schema" with
  | None => success kSchemaVersion
  | Some (JString s) => success s
  | Some _ => fail protocol "schema must be a string"
  end.

Definition error_of (entries : Entries) : Result (option ErrorPayload) :=
  match member entries "error" with
  | None | Some JNull => success None
  | Some v =>
      match validate_error_payload v with
      | inl payload => success (Some payload)
      | inr error => fail protocol error
      end
  end.

Definition decode_message (message : Json) (validate_typed_payload : bool) : Result MessageEnvelope :=
  match message with
  | JObject entries =>
      match unknown_key entries with
      | Some key => fail protocol ("unknown top-level key: " ++ key)
      | None =>
          schema ← schema_of entries;
          type ← string_member entries "type";
          request_id ← string_member entries "request_id";
          session_id ← string_member entries "session_id";
          timestamp_json ← match member entries "timestamp_ns" with
                           | Some v => if is_strict_integer v then success v
                                       else fail protocol "timestamp_ns must be an integer"
                           | None => fail protocol "timestamp_ns must be an integer"
                           end;
          _ ← non_blank type "type";
          _ ← non_blank request_id "request_id";
          _ ← non_blank session_id "session_id";
          timestamp ← timestamp_of timestamp_json;
          step ← step_of (member entries "step_id");
          let payload := default (JObject []) (member entries "payload") in
          if negb (is_object payload) then fail protocol "payload must be an object"
          else
            _ ← (if validate_typed_payload then check_result (validate_payload_for_type type payload)
                 else success tt);
            error ← error_of entries;
            success (mkEnvelope schema type request_id session_id step timestamp payload error)
      end
  | _ => fail protocol "message envelope must be an object"
  end.

Section Text.
Context {Text : Type} `{JsonText Text}.

Definition decode_envelope_impl (text : Text) (validate_typed_payload : bool)
    : Result MessageEnvelope :=
  match json_parse text with
  | None => fail protocol "invalid JSON message"
  | Some message => decode_message message validate_typed_payload
  end.

Definition decode_envelope (text : Text) : Result MessageEnvelope := decode_envelope_impl text true.

Definition decode_envelope_for_dispatch (text : Text) : Result MessageEnvelope :=
  decode_envelope_impl text false.

Definition error_object (e : option ErrorPayload) : Json :=
  match e with
  | Some e => object_of [("code", JString (ep_code e)); ("message", JString (ep_message e));
                         ("details", ep_details e)]
  | None => JNull
  end.

Definition envelope_object (e : MessageEnvelope) : Json :=
  object_of [("schema", JString (en_schema e)); ("type", JString (en_type e));
    ("request_id", JString (en_request_id e)); ("session_id", JString (en_session_id e));
    ("step_id", JUnsigned (en_step_id e)); ("timestamp_ns", JInteger (en_timestamp_ns e));
    ("payload", en_payload e); ("error", error_object (en_error e))].

Definition encode_envelope (e : MessageEnvelope) : string + Text := json_dump (envelope_object e).

End Text.

(** ** What is relied on of the library

    Numbers in the widths of their types, and parsing a printed value gives the value back, except
    that the parser makes a number without sign unsigned ([canonical]).  The values that JSON texts
    carry are the [printable] ones: strings are UTF-8, floating-point numbers finite (the printer
    writes null for the others), integers in their widths, names in increasing order (the library
    keeps them so), and there is no binary value. *)
Definition within (low high : Z) (byte : Z) : bool := (low <=? byte)%Z && (byte <=? high)%Z.
Definition continuation : Z -> bool := within 128 191.

(** The second byte of a sequence of three or four depends on the first. *)
Definition second_of_three (a b : Z) : bool :=
  if (a =? 224)%Z then within 160 191 b
  else if (a =? 237)%Z then within 128 159 b
  else within 225 239 a && continuation b.

Definition second_of_four (a b : Z) : bool :=
  if (a =? 240)%Z then within 144 191 b
  else if (a =? 244)%Z then within 128 143 b
  else within 241 243 a && continuation b.

Fixpoint utf8_bytes (bytes : list Z) : bool :=
  match bytes with
  | [] => true
  | a :: rest1 =>
      if (a <? 128)%Z then utf8_bytes rest1
      else
        match rest1 with
        | [] => false
        | b :: rest2 =>
            if within 194 223 a then continuation b && utf8_bytes rest2
            else
              match rest2 with
              | [] => false
              | c :: rest3 =>
                  if within 224 239 a then second_of_three a b && continuation c && utf8_bytes rest3
                  else
                    match rest3 with
                    | [] => false
                    | d :: rest4 =>
                        second_of_four a b && continuation c && continuation d && utf8_bytes rest4
                    end
              end
        end
  end.

Definition utf8 (s : string) : bool :=
  utf8_bytes (map (fun c => Z.of_nat (nat_of_ascii c)) (chars s)).

Fixpoint increasing (names : list string) : bool :=
  match names with
  | a :: (b :: _) as rest =>
      match String.compare a b with Lt => true | _ => false end && increasing rest
  | _ => true
  end.

Fixpoint printable (v : Json) : bool :=
  match v with
  | JNull | JBoolean _ => true
  | JInteger z => (int64_min <=? z)%Z && (z <=? int64_max)%Z
  | JUnsigned z => (0 <=? z)%Z && (z <? 2 ^ 64)%Z
  | JFloat d => isfinite d
  | JString s => utf8 s
  | JArray items => forallb printable items
  | JObject entries =>
      increasing (map fst entries) && forallb (fun e => utf8 e.1 && printable e.2) entries
  | JBinary _ => false
  end.

Fixpoint canonical (v : Json) : Json :=
  match v with
  | JInteger z => if (0 <=? z)%Z then JUnsigned z else JInteger z
  | JArray items => JArray (map canonical items)
  | JObject entries => JObject (map (fun e => (e.1, canonical e.2)) entries)
  | _ => v
  end.

Definition number_ranged (v : Json) : Prop :=
  match v with
  | JInteger z => is_int64 z
  | JUnsigned z => is_word 64 z
  | _ => True
  end.

Class JsonTextLaws (Text : Type) `{JsonText Text} := {
  parse_dump v : printable v = true ->
    exists text, json_dump v = inr text /\ json_parse text = Some (canonical v);
  parse_ranged text entries : json_parse text = Some (JObject entries) ->
    Forall (fun e => number_ranged e.2) entries }.

(** *** Validation does not see the difference *)

Definition canonical_entries (entries : Entries) : Entries :=
  map (fun e => (e.1, canonical e.2)) entries.

Lemma member_canonical entries name :
  member (canonical_entries entries) name = option_map canonical (member entries name).
Proof.
  induction entries as [|[key v] entries IH]; cbn; [done|]. by destruct (String.eqb key name).
Qed.

Lemma only_keys_canonical entries allowed name :
  only_keys (canonical_entries entries) allowed name = only_keys entries allowed name.
Proof. unfold canonical_entries. induction entries as [|[key v] entries IH]; cbn; [done|]. by rewrite IH. Qed.

(** A test of the shape of a value. *)
Definition shape (p : Json -> bool) : Prop := forall v, p (canonical v) = p v.

Lemma shape_object : shape is_object. Proof. intros []; cbn; try done. by destruct (0 <=? z)%Z. Qed.
Lemma shape_string : shape is_string. Proof. intros []; cbn; try done. by destruct (0 <=? z)%Z. Qed.
Lemma shape_boolean : shape is_boolean. Proof. intros []; cbn; try done. by destruct (0 <=? z)%Z. Qed.
Lemma shape_number : shape is_strict_number. Proof. intros []; cbn; try done. by destruct (0 <=? z)%Z. Qed.
Lemma shape_encoding : shape image_encoding. Proof. intros []; cbn; try done. by destruct (0 <=? z)%Z. Qed.

Lemma forallb_shape p items : shape p -> forallb p (map canonical items) = forallb p items.
Proof. intros Hp. induction items as [|v items IH]; cbn; [done|]. by rewrite IH, Hp. Qed.

Lemma require_string_canonical entries key name :
  require_string (canonical_entries entries) key name = require_string entries key name.
Proof.
  unfold require_string. rewrite member_canonical. destruct (member entries key) as [[]|]; cbn; try done.
  by destruct (0 <=? z)%Z.
Qed.

Lemma optional_canonical entries name p :
  shape p -> optional_member (canonical_entries entries) name p = optional_member entries name p.
Proof.
  intros Hp. unfold optional_member. rewrite member_canonical. by destruct (member entries name); cbn.
Qed.

Lemma nullable_canonical entries name validate :
  (forall v, validate (canonical v) = validate v) ->
  nullable_member (canonical_entries entries) name validate = nullable_member entries name validate.
Proof.
  intros Hv. unfold nullable_member. rewrite member_canonical.
  destruct (member entries name) as [v|]; cbn; [|done].
  rewrite <- (Hv v). destruct v; cbn; try done. by destruct (0 <=? z)%Z.
Qed.

Lemma validate_joint_state_canonical v : validate_joint_state (canonical v) = validate_joint_state v.
Proof.
  destruct v; cbn; try done; [by destruct (0 <=? z)%Z|].
  fold (canonical_entries entries). rewrite only_keys_canonical, !member_canonical, require_string_canonical.
  destruct (member entries "values") as [[]|]; cbn; try done; [by destruct (0 <=? z)%Z|].
  destruct (member entries "joint_names") as [[]|]; cbn; try done; [by destruct (0 <=? z)%Z|].
  by rewrite !forallb_shape, !length_map by (apply shape_number || apply shape_string).
Qed.

Lemma validate_gripper_canonical v : validate_gripper (canonical v) = validate_gripper v.
Proof.
  destruct v; cbn; try done; [by destruct (0 <=? z)%Z|].
  fold (canonical_entries entries). rewrite only_keys_canonical, member_canonical, require_string_canonical.
  destruct (member entries "value") as [scalar|]; cbn; [|done]. by rewrite shape_number.
Qed.

Lemma validate_task_text_canonical v : validate_task_text (canonical v) = validate_task_text v.
Proof.
  destruct v; cbn; try done; [by destruct (0 <=? z)%Z|].
  fold (canonical_entries entries). by rewrite only_keys_canonical, require_string_canonical.
Qed.

Lemma validate_image_canonical v : validate_image (canonical v) = validate_image v.
Proof.
  destruct v; cbn; try done; [by destruct (0 <=? z)%Z|].
  fold (canonical_entries entries).
  by rewrite only_keys_canonical, require_string_canonical, !optional_canonical
    by (apply shape_encoding || apply shape_string).
Qed.

Lemma validate_observation_canonical v : validate_observation (canonical v) = validate_observation v.
Proof.
  destruct v; cbn; try done; [by destruct (0 <=? z)%Z|].
  fold (canonical_entries entries).
  by rewrite !nullable_canonical, optional_canonical by
    (apply shape_object || apply validate_joint_state_canonical || apply validate_gripper_canonical ||
     apply validate_task_text_canonical || apply validate_image_canonical).
Qed.

Lemma non_null_canonical v : non_null (option_map canonical v) = non_null v.
Proof. destruct v as [[]|]; cbn; try done. by destruct (0 <=? z)%Z. Qed.

Lemma existsb_keys_canonical (p : string -> bool) entries :
  existsb (fun e => p e.1) (canonical_entries entries) = existsb (fun e => p e.1) entries.
Proof. unfold canonical_entries. induction entries as [|e entries IH]; cbn; [done|]. by rewrite IH. Qed.

Lemma validate_action_canonical v : validate_action (canonical v) = validate_action v.
Proof.
  destruct v; cbn -[existsb]; try done; [by destruct (0 <=? z)%Z|].
  fold (canonical_entries entries).
  rewrite !nullable_canonical, optional_canonical by
    (apply shape_object || apply validate_joint_state_canonical || apply validate_gripper_canonical).
  rewrite !member_canonical, !non_null_canonical.
  rewrite (existsb_keys_canonical (fun k => negb (existsb (String.eqb k) _))).
  destruct (member entries "action_chunk") as [[]|]; try done; cbn -[existsb]; [by destruct (0 <=? z)%Z|].
  rewrite forallb_shape by apply shape_object. by destruct items.
Qed.

Lemma observation_request_canonical entries :
  validate_observation_request (canonical_entries entries) = validate_observation_request entries.
Proof.
  unfold validate_observation_request. rewrite only_keys_canonical, member_canonical.
  destruct (member entries "observation") as [v|]; [|done]. cbn [option_map].
  pose proof (validate_observation_canonical v) as E. destruct v; try done; cbn [canonical] in *.
  - by destruct (0 <=? z)%Z.
  - by rewrite E.
Qed.

Lemma action_response_canonical entries :
  validate_action_response (canonical_entries entries) = validate_action_response entries.
Proof.
  unfold validate_action_response. rewrite only_keys_canonical, !member_canonical.
  destruct (member entries "ok") as [[]|]; try done; cbn [option_map canonical];
    [|by destruct (0 <=? z)%Z].
  destruct (member entries "action") as [v|]; [|done]. cbn [option_map].
  pose proof (validate_action_canonical v) as E. destruct v; try done; cbn [canonical] in *.
  - by destruct (0 <=? z)%Z.
  - by rewrite E.
Qed.

Lemma health_response_canonical entries :
  validate_health_response (canonical_entries entries) = validate_health_response entries.
Proof.
  unfold validate_health_response.
  rewrite only_keys_canonical, require_string_canonical, !member_canonical.
  destruct (member entries "ok") as [[]|]; try done; cbn [option_map canonical]; by destruct (0 <=? z)%Z.
Qed.

Lemma server_info_canonical entries :
  validate_server_info_response (canonical_entries entries) = validate_server_info_response entries.
Proof.
  unfold validate_server_info_response.
  rewrite only_keys_canonical, !require_string_canonical, member_canonical, optional_canonical
    by apply shape_string.
  destruct (member entries "transports") as [[]|]; try done; cbn [option_map canonical];
    [by destruct (0 <=? z)%Z|]. by rewrite forallb_shape by apply shape_string.
Qed.

Lemma validate_payload_canonical type v :
  validate_payload_for_type type (canonical v) = validate_payload_for_type type v.
Proof.
  destruct v; try done; [cbn [canonical]; by destruct (0 <=? z)%Z|].
  unfold validate_payload_for_type. cbn [canonical]. fold (canonical_entries entries).
  rewrite observation_request_canonical, action_response_canonical, health_response_canonical,
    server_info_canonical.
  unfold validate_health_request, validate_reset_request.
  by rewrite !only_keys_canonical, !optional_canonical by apply shape_boolean.
Qed.

(** ** Round trip *)

Definition canonical_error (e : ErrorPayload) : ErrorPayload :=
  mkErrorPayload (ep_code e) (ep_message e) (canonical (ep_details e)).

(** An envelope as it comes back: its JSON values are canonical. *)
Definition canonical_envelope (e : MessageEnvelope) : MessageEnvelope :=
  mkEnvelope (en_schema e) (en_type e) (en_request_id e) (en_session_id e) (en_step_id e)
    (en_timestamp_ns e) (canonical (en_payload e)) (option_map canonical_error (en_error e)).

Record well_formed (e : MessageEnvelope) : Prop := {
  wf_type : is_blank (en_type e) = false;
  wf_request_id : is_blank (en_request_id e) = false;
  wf_session_id : is_blank (en_session_id e) = false;
  wf_step_id : is_word 64 (en_step_id e);
  wf_timestamp : (0 <= en_timestamp_ns e <= int64_maximum)%Z;
  wf_payload : is_object (en_payload e) = true;
  wf_error : match en_error e with Some p => is_object (ep_details p) = true | None => True end }.

Lemma envelope_object_entries e :
  envelope_object e = JObject
    [("error", error_object (en_error e)); ("payload", en_payload e);
     ("request_id", JString (en_request_id e)); ("schema", JString (en_schema e));
     ("session_id", JString (en_session_id e)); ("step_id", JUnsigned (en_step_id e));
     ("timestamp_ns", JInteger (en_timestamp_ns e)); ("type", JString (en_type e))].
Proof. reflexivity. Qed.

Lemma error_object_entries p :
  error_object (Some p) = JObject
    [("code", JString (ep_code p)); ("details", ep_details p); ("message", JString (ep_message p))].
Proof. reflexivity. Qed.

Lemma decode_canonical_object e validate :
  well_formed e ->
  decode_message (canonical (envelope_object e)) validate =
    match (if validate then validate_payload_for_type (en_type e) (en_payload e) else None) with
    | Some error => fail protocol error
    | None => success (canonical_envelope e)
    end.
Proof.
  intros [H1 H2 H3 _ H5 H6 H7]. rewrite envelope_object_entries.
  cbn [canonical map fst snd]. rewrite (proj2 (Z.leb_le 0 _)) by apply H5.
  set (payload := canonical (en_payload e)). set (error := canonical (error_object (en_error e))).
  assert (error_of [("error", error)] = success (option_map canonical_error (en_error e))) as He.
  { unfold error_of, error. destruct (en_error e) as [p|]; [|done]. rewrite error_object_entries.
    cbn [canonical map fst snd member String.eqb Ascii.eqb Bool.eqb].
    destruct p as [c m d]. cbn in H7. destruct d; try done. }
  assert (is_object payload = true) as Hp by (unfold payload; by rewrite shape_object).
  assert (validate_payload_for_type (en_type e) payload = validate_payload_for_type (en_type e) (en_payload e)) as Hv
    by apply validate_payload_canonical.
  unfold decode_message, error_of in *. cbn in He |- *. unfold non_blank. rewrite H1, H2, H3. cbn.
  rewrite (proj2 (Z.ltb_ge _ _)) by apply H5. cbn. rewrite Hp. cbn. rewrite <- Hv.
  destruct validate; cbn; [|by rewrite He].
  destruct (validate_payload_for_type (en_type e) payload); cbn; [done|]. by rewrite He.
Qed.

(** C23. Envelopes round trip.  A well-formed envelope that JSON can carry ([printable]: its strings
    are UTF-8, its floating-point numbers finite and its integers in their widths, names in order,
    no binary value) is written without an exception.  Decoding the text gives the envelope back, its
    JSON values in canonical form, whenever its payload is valid for its type; otherwise it fails
    with the validator's protocol error.  Decoding for dispatch, which leaves the payload to the
    dispatcher, gives it back in both cases. *)
Theorem rpc_roundtrip {Text} `{JsonTextLaws Text} e :
  well_formed e -> printable (envelope_object e) = true ->
  exists text : Text, encode_envelope e = inr text /\
    decode_envelope_for_dispatch text = success (canonical_envelope e) /\
    decode_envelope text =
      match validate_payload (en_type e) (en_payload e) with
      | success _ => success (canonical_envelope e)
      | failure error => failure error
      end.
Proof.
  intros Hw Hp. destruct (parse_dump _ Hp) as (text & Hd & Ht). exists text. split; [exact Hd|].
  unfold decode_envelope_for_dispatch, decode_envelope, decode_envelope_impl.
  rewrite Ht, !decode_canonical_object by done. split; [done|].
  unfold validate_payload, check_result. by destruct (validate_payload_for_type _ _).
Qed.

(** ** Soundness *)

Ltac split_decode :=
  repeat match goal with
  | |- (match ?x with _ => _ end = success _ -> _) => destruct x eqn:?; try done
  | |- ((?x ≫= _) = success _ -> _) => let E := fresh "E" in destruct x eqn:E; cbn; try done
  | |- ((if ?b then _ else _) = success _ -> _) => destruct b eqn:?; try done
  end.

Lemma member_in entries name v : member entries name = Some v -> exists k, In (k, v) entries.
Proof.
  induction entries as [|[k v'] entries IH]; cbn; [done|].
  destruct (String.eqb k name); [intros [= <-]; by eauto|]. intros Hm. destruct (IH Hm). eauto.
Qed.

Lemma member_ranged entries name v :
  Forall (fun e => number_ranged e.2) entries -> member entries name = Some v -> number_ranged v.
Proof.
  intros Hf Hm. apply member_in in Hm as [k Hm]. rewrite Forall_forall in Hf.
  apply (Hf (k, v)). by apply list_elem_of_In.
Qed.

Lemma timestamp_of_sound v z :
  number_ranged v -> timestamp_of v = success z -> (0 <= z <= int64_maximum)%Z.
Proof.
  unfold int64_maximum. destruct v; cbn; try done.
  - unfold is_int64, int64_max. destruct (Z.ltb_spec z0 0); [done|]. intros Hr [= <-]. lia.
  - unfold is_word, int64_maximum. destruct (Z.ltb_spec (2 ^ 63 - 1) z0); [done|].
    intros Hr [= <-]. lia.
Qed.

Lemma step_of_sound entries z :
  Forall (fun e => number_ranged e.2) entries -> step_of (member entries "step_id") = success z ->
  is_word 64 z.
Proof.
  intros Hf. destruct (member entries "step_id") as [v|] eqn:E; cbn; [|by intros [= <-]].
  pose proof (member_ranged _ _ _ Hf E) as Hr. destruct v; cbn in *; try done.
  - destruct (Z.ltb_spec z0 0); [done|]. intros [= <-]. unfold is_int64, is_word, int64_max in *. lia.
  - by intros [= <-].
Qed.

Lemma error_of_sound entries error :
  error_of entries = success error ->
  match error with Some p => is_object (ep_details p) = true | None => True end.
Proof.
  unfold error_of. destruct (member entries "error") as [v|]; [|by intros [= <-]].
  destruct v; try (by intros [= <-]); try done. cbn [validate_error_payload].
  destruct (and_then _ _) eqn:E; [done|]. intros [= <-]. cbn.
  destruct (only_keys entries0 _ _); cbn in E; [done|].
  destruct (require_string entries0 "code" _); cbn in E; [done|].
  destruct (require_string entries0 "message" _); cbn in E; [done|].
  unfold require, optional_member in E. destruct (member entries0 "details"); [|done].
  cbn. by destruct (is_object j).
Qed.

Lemma decode_message_sound entries validate e :
  Forall (fun e => number_ranged e.2) entries ->
  decode_message (JObject entries) validate = success e ->
  well_formed e /\ unknown_key entries = None /\
  en_payload e = default (JObject []) (member entries "payload") /\
  (validate = true -> validate_payload_for_type (en_type e) (en_payload e) = None).
Proof.
  intros Hf. unfold decode_message, non_blank. split_decode. intros [= <-].
  destruct (is_blank value0) eqn:?; [done|]. destruct (is_blank value1) eqn:?; [done|].
  destruct (is_blank value2) eqn:?; [done|].
  assert (number_ranged value3) as Hr.
  { destruct (member entries "timestamp_ns") as [v|] eqn:Em; [|done].
    destruct (is_strict_integer v); [|done]. injection E3 as <-. by eapply member_ranged. }
  split_and!; [split; cbn; try done|done|done|intros ->; cbn in *].
  - by eapply step_of_sound.
  - by eapply timestamp_of_sound.
  - by apply negb_false_iff.
  - by eapply error_of_sound.
  - by destruct (validate_payload_for_type value0 _).
Qed.

(** C16. Decoding is sound.  An envelope that [decode_envelope] accepts comes from an object with only
    the envelope's keys and is well formed (identifiers that are not blank, a 64-bit step, a
    timestamp between 0 and 2^63 - 1, an object as payload) with a payload that is valid for its
    type; and [decode_envelope] accepts exactly what the dispatcher's decoder accepts and
    [validate_payload] then accepts, with the same result. *)
Theorem rpc_decode_sound {Text} `{JsonTextLaws Text} (text : Text) e :
  (decode_envelope text = success e ->
   well_formed e /\
   (exists entries, json_parse text = Some (JObject entries) /\ unknown_key entries = None /\
      en_payload e = default (JObject []) (member entries "payload")) /\
   validate_payload (en_type e) (en_payload e) = success tt) /\
  (decode_envelope text = success e <->
   decode_envelope_for_dispatch text = success e /\
   validate_payload (en_type e) (en_payload e) = success tt).
Proof.
  unfold decode_envelope, decode_envelope_for_dispatch, decode_envelope_impl.
  destruct (json_parse text) as [message|] eqn:Ep; [|split; [done|split; [done|by intros [? _]]]].
  destruct message as [| | | | | | |entries|]; try (split; [done|split; [done|by intros [? _]]]).
  pose proof (parse_ranged _ _ Ep) as Hf. unfold validate_payload.
  split; [|split].
  - intros Hd. destruct (decode_message_sound _ _ _ Hf Hd) as (Hw & Hu & Hp & Hv).
    rewrite (Hv eq_refl). split_and!; [done| |done]. eauto.
  - intros Hd. destruct (decode_message_sound _ _ _ Hf Hd) as (_ & _ & _ & Hv).
    rewrite (Hv eq_refl). split; [|done].
    revert Hd. unfold decode_message, non_blank. by split_decode.
  - intros [Hd Hv]. revert Hd. unfold decode_message, non_blank. split_decode.
    intros [= <-]. cbn in Hv. rewrite Hv. done.
Qed.

(** ** A concrete library: texts are the values themselves *)

Definition ranged (v : Json) : bool :=
  match v with
  | JInteger z => (int64_min <=? z)%Z && (z <=? int64_max)%Z
  | JUnsigned z => (0 <=? z)%Z && (z <? 2 ^ 64)%Z
  | _ => true
  end.

Definition all_ranged (v : Json) : bool :=
  match v with JObject entries => forallb (fun e => ranged e.2) entries | _ => true end.

(** All its strings are UTF-8. *)
Fixpoint all_utf8 (v : Json) : bool :=
  match v with
  | JString s => utf8 s
  | JArray items => forallb all_utf8 items
  | JObject entries => forallb (fun e => utf8 e.1 && all_utf8 e.2) entries
  | _ => true
  end.

(** What the printer makes of the numbers it cannot write: null. *)
Fixpoint nulls (v : Json) : Json :=
  match v with
  | JFloat d => if isfinite d then v else JNull
  | JArray items => JArray (map nulls items)
  | JObject entries => JObject (map (fun e => (e.1, nulls e.2)) entries)
  | _ => v
  end.

#[export] Instance TreeText : JsonText Json := {|
  json_parse v := if all_utf8 v && all_ranged v then Some (canonical v) else None;
  json_dump v := if all_utf8 v then inr (nulls v) else inl "invalid UTF-8 byte" |}.

Lemma printable_ranged v : printable v = true -> ranged v = true.
Proof. by destruct v. Qed.

Lemma printable_all_ranged v : printable v = true -> all_ranged v = true.
Proof.
  destruct v; try done. cbn. intros [_ Hv]%andb_true_iff. rewrite !forallb_forall in *. intros e He.
  apply printable_ranged. by apply Hv, andb_true_iff in He as [_ He].
Qed.

Lemma printable_utf8 : forall v, printable v = true -> all_utf8 v = true.
Proof.
  fix IH 1. intros [| | | | | |items|entries|]; cbn; try done.
  - induction items as [|v items IHitems]; cbn; [done|]. rewrite !andb_true_iff. intros [Hv Hi].
    split; [by apply IH|by apply IHitems].
  - intros [_ Hv]%andb_true_iff. revert Hv. induction entries as [|[k v] entries IHentries]; cbn; [done|].
    rewrite !andb_true_iff. intros [[Hk Hv] He]. split; [split; [done|by apply IH]|by apply IHentries].
Qed.

Lemma printable_nulls : forall v, printable v = true -> nulls v = v.
Proof.
  fix IH 1. intros [| | | |d| |items|entries|]; cbn; try done.
  - by intros ->.
  - intros Hv. f_equal. induction items as [|v items IHitems]; cbn in *; [done|].
    apply andb_true_iff in Hv as [Hv Hi]. by rewrite (IH _ Hv), IHitems.
  - intros [_ Hv]%andb_true_iff. f_equal. induction entries as [|[k v] entries IHentries]; cbn in *; [done|].
    rewrite !andb_true_iff in Hv. destruct Hv as [[_ Hv] He]. by rewrite (IH _ Hv), IHentries.
Qed.

Lemma ranged_canonical v : ranged v = true -> number_ranged (canonical v).
Proof.
  destruct v; cbn; try done.
  - intros Hr. apply andb_true_iff in Hr as [H1 H2]. apply Z.leb_le in H1, H2.
    destruct (Z.leb_spec 0 z); cbn; unfold is_word, is_int64, int64_max in *; lia.
  - intros Hr. apply andb_true_iff in Hr as [H1 H2]. apply Z.leb_le in H1. apply Z.ltb_lt in H2. done.
Qed.

#[export] Instance TreeLaws : JsonTextLaws Json.
Proof.
  split.
  - intros v Hp. exists v. cbn. by rewrite printable_nulls, printable_utf8, printable_all_ranged by done.
  - intros text entries. cbn. destruct (all_utf8 text); [|done]. destruct (all_ranged text) eqn:E; [|done]. intros [= Ht].
    destruct text; cbn in *; try done; [by destruct (0 <=? z)%Z|]. injection Ht as <-.
    apply Forall_forall. intros e He. apply list_elem_of_In, in_map_iff in He as (e0 & <- & He).
    cbn. apply ranged_canonical. rewrite forallb_forall in E. by apply E.
Defined.

Definition health_envelope : MessageEnvelope :=
  mkEnvelope kSchemaVersion "health_request" "r1" "s1" 3 5 (JObject [("verbose", JBoolean true)]) None.

Definition health_text : Json := envelope_object health_envelope.

Example health_decodes :
  encode_envelope health_envelope = inr health_text /\ decode_envelope health_text = success health_envelope.
Proof. by vm_compute. Qed.

Example health_wrong_type :
  decode_envelope (envelope_object (mkEnvelope kSchemaVersion "health_request" "r1" "s1" 3 5
    (JObject [("verbose", JInteger 1)]) None)) =
    fail protocol "health request verbose must be a boolean".
Proof. by vm_compute. Qed.

(** A byte that is no UTF-8: the printer throws. *)
Example not_utf8 :
  utf8 (String (ascii_of_nat 195) (String (ascii_of_nat 169) "")) = true /\
  utf8 (String (ascii_of_nat 255) "") = false /\
  encode_envelope (Text := Json) (mkEnvelope kSchemaVersion "health_request" "r1"
    (String (ascii_of_nat 255) "") 3 5 (JObject []) None) = inl "invalid UTF-8 byte".
Proof. by vm_compute. Qed.

(** A number that is not finite: the printer writes null, and the payload does not come back. *)
Example not_a_number :
  option_map (fun text => decode_envelope_for_dispatch text)
    match encode_envelope (Text := Json) (mkEnvelope kSchemaVersion "health_response" "r1" "s1" 3 5
      (JObject [("load", JFloat S754_nan)]) None) with inr text => Some text | inl _ => None end =
  Some (success (mkEnvelope kSchemaVersion "health_response" "r1" "s1" 3 5 (JObject [("load", JNull)]) None)).
Proof. vm_compute. reflexivity. Qed.

Lemma rpc_roundtrip_witness :
  exists text : Json, encode_envelope health_envelope = inr text /\
    decode_envelope_for_dispatch text = success health_envelope /\ decode_envelope text = success health_envelope.
Proof.
  apply (rpc_roundtrip (Text := Json) health_envelope).
  - split; vm_compute; intuition done.
  - by vm_compute.
Defined.

Lemma rpc_decode_sound_witness : well_formed health_envelope.
Proof.
  apply (proj1 (rpc_decode_sound health_text health_envelope)).
  by vm_compute.
Defined.

End Rpc.
