(* ===== verification/Profile.v ===== *)
(** * The robot profile

    The records of [profiles/robot_profile.hpp] that the loader fills and the topic registry, the
    topology and the daemon read.  The axis and servo profiles are in [Messages]. *)
From S2P Require Export Damiao Text.

Record DeviceLink := mkLink { lk_type : string; lk_path : string }.

Record DeviceConfig := mkDevice {
  dev_name : string;
  dev_link : DeviceLink;
  dev_args : StringMap string }.

Abbreviation dev_type d := (lk_type (dev_link d)).
Abbreviation dev_path d := (lk_path (dev_link d)).

(** [args.find(key)]. *)
Definition dev_arg (device : DeviceConfig) (k : string) : option string := map_find (dev_args device) k.

Inductive DamiaoTransport := socketcan | virtual_serial.

#[export] Instance DamiaoTransport_eq_dec : EqDecision DamiaoTransport.
Proof. solve_decision. Defined.

Inductive RobotIoBackend := unix_shm | dds.

#[export] Instance RobotIoBackend_eq_dec : EqDecision RobotIoBackend.
Proof. solve_decision. Defined.

Record DdsExternalConfig := mkDdsExternal {
  ext_enabled : bool;
  ext_domain_id : Z;
  ext_topics : list string }.

Record DdsConfig := mkDds {
  dds_backend : RobotIoBackend;
  dds_robot_id : string;
  dds_local_domain_id : Z;
  dds_cyclone_config : string;
  dds_sensor_queue_capacity : Z;
  dds_external : DdsExternalConfig }.

Definition DdsConfig_default : DdsConfig :=
  mkDds unix_shm "" 0 "configs/cyclonedds-loopback.xml" 64 (mkDdsExternal false 0 []).

Record DamiaoMotorProfile := mkMotorProfile {
  mp_sensor_name : string;
  mp_actuator_name : string;
  mp_path : string;
  mp_transport : DamiaoTransport;
  mp_motor_id : Z;
  mp_limits : DamiaoLimits;
  mp_feedback_timeout_ms : Z;
  mp_safety_group : string }.

Record RobotProfile := mkRobotProfile {
  rp_sensors : list DeviceConfig;
  rp_actuators : list DeviceConfig;
  rp_axes : list AxisConfig;
  rp_st3215_servos : list St3215ServoProfile;
  rp_damiao_motors : list DamiaoMotorProfile;
  rp_dds : DdsConfig }.
