(* ===== verification/Topics.v ===== *)
(** * The DDS topic registry

    [robot_io/dds/topic_registry.cpp]: identifiers are normalised, every device of the profile gets
    a topic, every EtherCAT execution group a commit topic, and the robot a health topic. *)
From S2P Require Export Profile.

Module Topics.

Inductive DdsTopicKind := command | state | commit | health.

#[export] Instance DdsTopicKind_eq_dec : EqDecision DdsTopicKind.
Proof. solve_decision. Defined.

Inductive DdsDeviceKind := cia402 | damiao | st3215 | ethercat | robot_io.

#[export] Instance DdsDeviceKind_eq_dec : EqDecision DdsDeviceKind.
Proof. solve_decision. Defined.

Record DdsTopicDescriptor := mkDescriptor {
  td_kind : DdsTopicKind;
  td_device_kind : DdsDeviceKind;
  td_robot_id : string;
  td_device_id : string;
  td_topic_name : string;
  td_execution_group : string }.

Open Scope string_scope.

(** ** Identifiers *)

Definition is_alnum (c : ascii) : bool := is_lower c || is_upper c || is_digit c.

Definition underscore : ascii := "_"%char.

(** One iteration of the loop, on [normalized] and [separator_pending]. *)
Definition normalize_step (st : list ascii * bool) (c : ascii) : list ascii * bool :=
  let '(normalized, separator_pending) := st in
  if is_alnum c then
    ((normalized ++
       match normalized with
       | _ :: _ => if separator_pending then [underscore] else []
       | [] => []
       end ++ [to_lower c])%list, false)
  else (normalized, true).

Definition normalize_identifier (value label : string) : Result string :=
  match (fold_left normalize_step (chars value) ([], false)).1 with
  | [] => fail invalid_argument (label ++ " must contain an ASCII letter or digit")
  | normalized => success (String.string_of_list_ascii normalized)
  end.

(** ** Descriptors *)

Definition device_kind_for (device : DeviceConfig) : Result DdsDeviceKind :=
  if String.eqb (dev_type device) "cia402" then success cia402
  else if String.eqb (dev_type device) "damiao_motor" then success damiao
  else if String.eqb (dev_type device) "st3215" then success st3215
  else fail invalid_argument ("DDS does not support device type '" ++ dev_type device ++ "'").

Definition ethercat_group_for (device : DeviceConfig) : Result string :=
  match dev_arg device "safety_group" with
  | None => fail invalid_argument ("cia402 device '" ++ dev_name device ++ "' requires safety_group")
  | Some group => normalize_identifier group "cia402 safety_group"
  end.

(** The state of the construction: [descriptors], [topic_names], [ethercat_groups]. *)
Record Registry := mkRegistry {
  tr_descriptors : list DdsTopicDescriptor;
  tr_names : gset string;
  tr_groups : StringMap string }.

Definition append_descriptor (r : Registry) (d : DdsTopicDescriptor) : Result Registry :=
  if decide (td_topic_name d ∈ tr_names r)
  then fail invalid_argument
         ("DDS topic name collision after normalization: '" ++ td_topic_name d ++ "'")
  else success (mkRegistry (tr_descriptors r ++ [d]) ({[td_topic_name d]} ∪ tr_names r) (tr_groups r)).

(** The execution group of a device, and the groups once its commands are counted. *)
Definition execution_group (kind : DdsTopicKind) (device : DeviceConfig) (device_kind : DdsDeviceKind)
    (groups : StringMap string) : Result (string * StringMap string) :=
  if decide (device_kind = cia402) then
    group ← ethercat_group_for device;
    let execution_group := default "" (dev_arg device "safety_group") in
    if decide (kind = command) then
      match map_find groups group with
      | Some existing =>
          if String.eqb existing execution_group then success (execution_group, groups)
          else fail invalid_argument
                 ("EtherCAT execution-group collision after normalization: '" ++ group ++ "'")
      | None => success (execution_group, map_emplace groups group execution_group)
      end
    else success (execution_group, groups)
  else success ("", groups).

Definition device_topic (normalized_robot_id direction normalized_device_id suffix : string) : string :=
  "robot_io_" ++ normalized_robot_id ++ "_" ++ direction ++ "_" ++ normalized_device_id ++ "_" ++ suffix.

Section Build.
Context (robot_id normalized_robot_id : string).

(** The body of the loop over the devices. *)
Definition append_device (kind : DdsTopicKind) (direction suffix : string) (r : Registry)
    (device : DeviceConfig) : Result Registry :=
  device_kind ← device_kind_for device;
  normalized_device_id ← normalize_identifier (dev_name device) "device_id";
  '(group, groups) ← execution_group kind device device_kind (tr_groups r);
  append_descriptor (mkRegistry (tr_descriptors r) (tr_names r) groups)
    (mkDescriptor kind device_kind robot_id (dev_name device)
       (device_topic normalized_robot_id direction normalized_device_id suffix) group).

Fixpoint append_all {A} (f : Registry -> A -> Result Registry) (r : Registry) (l : list A)
    : Result Registry :=
  match l with
  | [] => success r
  | a :: l => r ← f r a; append_all f r l
  end.

Definition append_device_descriptors (devices : list DeviceConfig) (kind : DdsTopicKind)
    (direction suffix : string) (r : Registry) : Result Registry :=
  append_all (append_device kind direction suffix) r devices.

Definition commit_descriptor (group : string * string) : DdsTopicDescriptor :=
  mkDescriptor commit ethercat robot_id group.2
    ("robot_io_" ++ normalized_robot_id ++ "_ethercat_" ++ group.1 ++ "_command_commit") group.2.

Definition health_descriptor : DdsTopicDescriptor :=
  mkDescriptor health robot_io robot_id "health" ("robot_io_" ++ normalized_robot_id ++ "_health") "".
End Build.

Definition build_dds_topic_registry (profile : RobotProfile) (robot_id : string)
    : Result (list DdsTopicDescriptor) :=
  normalized ← normalize_identifier robot_id "robot_id";
  r ← append_device_descriptors robot_id normalized (rp_sensors profile) state "sensor" "state"
        (mkRegistry [] ∅ []);
  r ← append_device_descriptors robot_id normalized (rp_actuators profile) command "actuator" "command" r;
  r ← append_all (fun r group => append_descriptor r (commit_descriptor robot_id normalized group))
        r (tr_groups r);
  r ← append_descriptor r (health_descriptor robot_id normalized);
  success (tr_descriptors r).

(** ** Identifiers: properties *)

Definition word_char (c : ascii) : bool := is_lower c || is_digit c.

(** Words of lower-case letters and digits separated by single underscores; [need] when a word has
    to start here. *)
Fixpoint identifier (need : bool) (l : list ascii) : bool :=
  match l with
  | [] => negb need
  | c :: l =>
      if word_char c then identifier false l
      else negb need && Ascii.eqb c underscore && identifier true l
  end.

Lemma alnum_lower c : is_alnum c = true -> word_char (to_lower c) = true.
Proof. destruct c as [[] [] [] [] [] [] [] []]; (discriminate || reflexivity). Qed.

Lemma word_char_lower c : word_char c = true -> is_alnum c = true /\ to_lower c = c.
Proof. destruct c as [[] [] [] [] [] [] [] []]; (discriminate || (split; reflexivity)). Qed.

Lemma identifier_app need l m :
  identifier need l = true -> identifier false m = true -> identifier need (l ++ m) = true.
Proof.
  revert need. induction l as [|c l IH]; intros need; cbn.
  - by destruct need.
  - destruct (word_char c); [apply IH|]. intros Hl Hm.
    apply andb_true_iff in Hl as [-> Hl]. cbn. by apply IH.
Qed.

Lemma normalize_step_identifier n pending c :
  n = [] \/ identifier true n = true ->
  (normalize_step (n, pending) c).1 = [] \/
  identifier true (normalize_step (n, pending) c).1 = true.
Proof.
  intros Hn. cbn. destruct (is_alnum c) eqn:Hc; [|done]. right.
  apply alnum_lower in Hc. destruct n as [|a n]; cbn [fst app].
  - cbn. by rewrite Hc.
  - destruct Hn as [|Hn]; [done|]. apply (identifier_app true (a :: n)); [exact Hn|].
    destruct pending; cbn; by rewrite Hc.
Qed.

Lemma normalize_fold_identifier l n pending :
  n = [] \/ identifier true n = true ->
  let r := (fold_left normalize_step l (n, pending)).1 in r = [] \/ identifier true r = true.
Proof.
  revert n pending. induction l as [|c l IH]; intros n pending Hn; [done|].
  change (fold_left normalize_step (c :: l) (n, pending))
    with (fold_left normalize_step l (normalize_step (n, pending) c)).
  pose proof (normalize_step_identifier n pending c Hn) as Hs.
  destruct (normalize_step (n, pending) c) as [n' p']. by apply IH.
Qed.

Lemma normalize_fold_fixed need l : forall n,
  n <> [] -> identifier need l = true ->
  fold_left normalize_step l (n, need) = ((n ++ (if need then [underscore] else []) ++ l)%list, false) \/
  (l = [] /\ need = false).
Proof.
  revert need. induction l as [|c l IH]; intros need n Hn Hl; [right; by destruct need|left].
  cbn [identifier] in Hl. cbn [fold_left normalize_step].
  destruct (word_char c) eqn:Hc.
  - apply word_char_lower in Hc as [-> ->]. destruct n as [|a n]; [done|].
    set (n' := ((a :: n) ++ _ ++ [c])%list). assert (n' <> []) as Hn' by done.
    destruct (IH false n' Hn' Hl) as [->|[-> _]]; cbn; subst n'; f_equal;
      destruct need; cbn; by rewrite <- ?app_assoc.
  - apply andb_true_iff in Hl as [Hl Ht]. apply andb_true_iff in Hl as [Hneed Hu].
    apply Ascii.eqb_eq in Hu as ->. apply negb_true_iff in Hneed as ->.
    change (is_alnum underscore) with false. cbn iota.
    destruct (IH true n Hn Ht) as [->|[-> Hf]]; [done|discriminate].
Qed.

(** Identifiers are the fixed points. *)
Lemma normalize_identifier_fixed s label :
  identifier true (chars s) = true -> normalize_identifier s label = success s.
Proof.
  unfold normalize_identifier. intros Hs.
  assert (fold_left normalize_step (chars s) ([], false) = (chars s, false)) as ->.
  { destruct (chars s) as [|c l]; [done|]. cbn [identifier] in Hs.
    destruct (word_char c) eqn:Hc; [|done]. apply word_char_lower in Hc as [Ha Hl].
    cbn [fold_left]. cbn [normalize_step]. rewrite Ha, Hl. cbn [app].
    by destruct (normalize_fold_fixed false l [c]) as [->|[-> _]]. }
  cbn [fst]. destruct (chars s) eqn:E; [done|]. rewrite <- E.
  by rewrite String.string_of_list_ascii_of_string.
Qed.

Lemma normalize_identifier_shape v label s :
  normalize_identifier v label = success s -> identifier true (chars s) = true.
Proof.
  unfold normalize_identifier. intros E.
  destruct (normalize_fold_identifier (chars v) [] false) as [Hn|Hn]; [by left| |].
  - by rewrite Hn in E.
  - destruct (fold_left _ _ _).1 as [|c l]; [done|]. injection E as <-.
    change (identifier true (chars (String.string_of_list_ascii (c :: l))) = true).
    by rewrite String.list_ascii_of_string_of_list_ascii.
Qed.

Lemma normalize_fold_empty l n pending :
  (fold_left normalize_step l (n, pending)).1 = [] <-> n = [] /\ Forall (fun c => is_alnum c = false) l.
Proof.
  revert n pending. induction l as [|c l IH]; intros n pending; cbn [fold_left].
  { cbn. split; [intros ->; by split|by intros [-> _]]. }
  cbn [normalize_step]. rewrite Forall_cons. destruct (is_alnum c).
  - rewrite IH. split; [|naive_solver]. intros [H _]. exfalso. destruct n; [done|]. by destruct pending.
  - rewrite IH. naive_solver.
Qed.

(** Identifiers are put in a canonical form: what [normalize_identifier] answers is a sequence
    of words of lower-case ASCII letters and digits separated by single underscores; such texts
    are its fixed points, so that it is idempotent; and it fails exactly on the texts without an
    ASCII letter or digit, with [invalid_argument]. *)
Theorem normalize_identifier_canonical (v label label' : string) :
  match normalize_identifier v label with
  | success s =>
      identifier true (chars s) = true /\ normalize_identifier s label' = success s /\
      Exists (fun c => is_alnum c = true) (chars v)
  | failure e => code e = invalid_argument /\ Forall (fun c => is_alnum c = false) (chars v)
  end.
Proof.
  pose proof (normalize_fold_empty (chars v) [] false) as He.
  pose proof (normalize_identifier_shape v label) as Hs.
  unfold normalize_identifier at 1. unfold normalize_identifier at 1 in Hs.
  destruct (fold_left _ _ _).1 as [|c l].
  - split; [done|]. by apply He.
  - specialize (Hs _ eq_refl). split; [exact Hs|]. split; [by apply normalize_identifier_fixed|].
    destruct (Exists_dec (fun c => is_alnum c = true) (chars v)) as [|Hx]; [done|].
    destruct He as [_ He]. enough (c :: l = []) by done. apply He. split; [done|].
    apply Forall_forall. intros x Hx'. rewrite Exists_exists in Hx.
    apply not_true_iff_false. naive_solver.
Qed.

(** ** The registry: a declarative reference

    The topic of one device, on its own. *)
Definition describe (robot_id normalized_robot_id : string) (kind : DdsTopicKind)
    (direction suffix : string) (device : DeviceConfig) : Result DdsTopicDescriptor :=
  device_kind ← device_kind_for device;
  normalized_device_id ← normalize_identifier (dev_name device) "device_id";
  group ← (if decide (device_kind = cia402)
           then ethercat_group_for device ≫= fun _ => success (default "" (dev_arg device "safety_group"))
           else success "");
  success (mkDescriptor kind device_kind robot_id (dev_name device)
             (device_topic normalized_robot_id direction normalized_device_id suffix) group).

(** The execution group a device commands, normalised and as written. *)
Definition group_entry (device : DeviceConfig) : option (string * string) :=
  match device_kind_for device, ethercat_group_for device with
  | success cia402, success g => Some (g, default "" (dev_arg device "safety_group"))
  | _, _ => None
  end.

Definition group_entries (devices : list DeviceConfig) : list (string * string) :=
  omap group_entry devices.

(** Two groups with one normalised name are the same group. *)
Definition consistent (entries : list (string * string)) : Prop :=
  forall g x y, (g, x) ∈ entries -> (g, y) ∈ entries -> x = y.

Definition names (ds : list DdsTopicDescriptor) : list string := td_topic_name <$> ds.

Inductive Registered (profile : RobotProfile) (robot_id : string) (ds : list DdsTopicDescriptor)
    : Prop :=
  | registered robot states commands (groups : StringMap string)
      (Hrobot : normalize_identifier robot_id "robot_id" = success robot)
      (Hstates : Forall2 (fun d t => describe robot_id robot state "sensor" "state" d = success t)
                   (rp_sensors profile) states)
      (Hcommands :
         Forall2 (fun d t => describe robot_id robot command "actuator" "command" d = success t)
           (rp_actuators profile) commands)
      (Hkeys : NoDup groups.*1)
      (Hgroups : forall e, e ∈ groups <-> e ∈ group_entries (rp_actuators profile))
      (Hds : ds = (states ++ commands ++ map (commit_descriptor robot_id robot) groups ++
                   [health_descriptor robot_id robot])%list)
      (Hdistinct : NoDup (names ds)).

(** ** The construction against the reference *)

(** The states of the construction: the set holds the names of the descriptors. *)
Definition reg (ds : list DdsTopicDescriptor) (groups : StringMap string) : Registry :=
  mkRegistry ds (list_to_set (names ds)) groups.

Lemma append_descriptor_spec ds groups d r' :
  append_descriptor (reg ds groups) d = success r' <->
  td_topic_name d ∉ names ds /\ r' = reg (ds ++ [d]) groups.
Proof.
  unfold append_descriptor, reg. cbn. pose proof (elem_of_list_to_set (C:=gset string) (td_topic_name d) (names ds)).
  assert ({[td_topic_name d]} ∪ list_to_set (names ds) = (list_to_set (names (ds ++ [d])) : gset string)) as ->.
  { unfold names. rewrite fmap_app, list_to_set_app_L. cbn. set_solver. }
  destruct (decide _); naive_solver.
Qed.

Lemma names_snoc_nodup ds d :
  NoDup (names (ds ++ [d])) <-> NoDup (names ds) /\ td_topic_name d ∉ names ds.
Proof.
  unfold names. rewrite fmap_app, NoDup_app. cbn.
  split; [intros (? & H & _); split; [done|]; intros ?; by apply (H (td_topic_name d)); [|left]|].
  intros [? ?]. split; [done|]. split; [set_solver|apply NoDup_singleton].
Qed.

(** The effect of a device on the groups. *)
Definition count_group (kind : DdsTopicKind) (groups : StringMap string) (device : DeviceConfig)
    : option (StringMap string) :=
  match kind, group_entry device with
  | command, Some (g, x) =>
      match map_find groups g with
      | Some y => if String.eqb y x then Some groups else None
      | None => Some (map_emplace groups g x)
      end
  | _, _ => Some groups
  end.

Ltac fold_reg := match goal with
  | |- context [append_descriptor (mkRegistry ?ds _ ?g)] => change (mkRegistry ds _ g) with (reg ds g)
  end.

Lemma append_device_spec robot_id robot kind direction suffix ds groups device r' :
  append_device robot_id robot kind direction suffix (reg ds groups) device = success r' <->
  exists t groups', describe robot_id robot kind direction suffix device = success t /\
    count_group kind groups device = Some groups' /\
    td_topic_name t ∉ names ds /\ r' = reg (ds ++ [t]) groups'.
Proof.
  unfold append_device, describe, count_group, group_entry, execution_group.
  destruct (device_kind_for device) as [k|]; cbn; [|naive_solver].
  destruct (normalize_identifier _ _) as [i|]; cbn; [|naive_solver].
  destruct (decide (k = cia402)) as [->|Hk].
  - destruct (ethercat_group_for device) as [g|]; cbn; [|naive_solver].
    destruct (decide (kind = command)) as [->|Hc].
    + destruct (map_find groups g) as [y|].
      * destruct (String.eqb y _); cbn; [|naive_solver].
        fold_reg; rewrite append_descriptor_spec. naive_solver.
      * cbn; fold_reg; rewrite append_descriptor_spec. naive_solver.
    + cbn; fold_reg; rewrite append_descriptor_spec. destruct kind; naive_solver.
  - cbn; fold_reg; rewrite append_descriptor_spec. destruct k; [done|..]; destruct kind; naive_solver.
Qed.

Fixpoint count_groups (kind : DdsTopicKind) (groups : StringMap string) (devices : list DeviceConfig)
    : option (StringMap string) :=
  match devices with
  | [] => Some groups
  | d :: devices => count_group kind groups d ≫= fun groups => count_groups kind groups devices
  end.

Lemma append_devices_spec robot_id robot kind direction suffix devices : forall ds groups r',
  NoDup (names ds) ->
  append_device_descriptors robot_id robot devices kind direction suffix (reg ds groups) = success r' <->
  exists ts groups',
    Forall2 (fun d t => describe robot_id robot kind direction suffix d = success t) devices ts /\
    count_groups kind groups devices = Some groups' /\ NoDup (names (ds ++ ts)) /\
    r' = reg (ds ++ ts) groups'.
Proof.
  unfold append_device_descriptors.
  induction devices as [|d devices IH]; intros ds groups r' Hds; cbn [append_all count_groups].
  - split.
    + intros [= <-]. exists [], groups. by rewrite app_nil_r.
    + intros (ts & g & ->%Forall2_nil_inv_l & [= <-] & _ & ->). by rewrite app_nil_r.
  - rewrite result_bind_success. setoid_rewrite append_device_spec. split.
    + intros (r & (t & g & Ht & Hg & Hn & ->) & Hr).
      apply IH in Hr as (ts & g' & Hts & Hg' & Hnd & ->); [|by apply names_snoc_nodup].
      exists (t :: ts), g'. rewrite Hg. rewrite <- app_assoc in *.
      split; [by constructor|]. done.
    + intros (ts' & g' & Hts & Hg & Hnd & ->).
      apply Forall2_cons_inv_l in Hts as (t & ts & Ht & Hts & ->).
      destruct (count_group kind groups d) as [g|] eqn:E; [|done]. cbn in Hg.
      replace (ds ++ t :: ts)%list with ((ds ++ [t]) ++ ts)%list in * by (by rewrite <- app_assoc).
      assert (NoDup (names (ds ++ [t]))) as Hn.
      { unfold names in *. rewrite fmap_app in Hnd. by apply NoDup_app in Hnd as [? _]. }
      exists (reg (ds ++ [t]) g). split.
      * exists t, g. split; [done|]. split; [done|]. split; [|done].
        exact (proj2 (proj1 (names_snoc_nodup _ _) Hn)).
      * apply IH; [done|]. by exists ts, g'.
Qed.

Lemma append_all_descriptors (f : string * string -> DdsTopicDescriptor) l : forall ds groups r',
  NoDup (names ds) ->
  append_all (fun r g => append_descriptor r (f g)) (reg ds groups) l = success r' <->
  NoDup (names (ds ++ map f l)) /\ r' = reg (ds ++ map f l) groups.
Proof.
  induction l as [|g l IH]; intros ds groups r' Hds; cbn [append_all map].
  - rewrite app_nil_r. naive_solver.
  - rewrite result_bind_success. setoid_rewrite append_descriptor_spec.
    replace (ds ++ f g :: map f l)%list with ((ds ++ [f g]) ++ map f l)%list by (by rewrite <- app_assoc).
    split.
    + intros (r & (Hn & ->) & Hr). apply IH in Hr; [done|by apply names_snoc_nodup].
    + intros [Hnd ->].
      assert (NoDup (names (ds ++ [f g]))) as Hn.
      { unfold names in *. rewrite fmap_app in Hnd. by apply NoDup_app in Hnd as [? _]. }
      exists (reg (ds ++ [f g]) groups).
      split; [split; [exact (proj2 (proj1 (names_snoc_nodup _ _) Hn))|done]|].
      by apply IH.
Qed.

Lemma count_groups_state groups devices : count_groups state groups devices = Some groups.
Proof. by induction devices. Qed.

Lemma count_groups_spec devices : forall groups,
  NoDup groups.*1 -> consistent (groups ++ group_entries devices) ->
  exists groups', count_groups command groups devices = Some groups' /\ NoDup groups'.*1 /\
    forall e, e ∈ groups' <-> e ∈ groups \/ e ∈ group_entries devices.
Proof.
  induction devices as [|d devices IH]; intros groups Hk Hc; cbn [count_groups].
  - exists groups. set_solver.
  - unfold count_group, group_entries in *. cbn [omap list_omap] in *.
    destruct (group_entry d) as [[g x]|] eqn:E.
    + destruct (map_find groups g) as [y|] eqn:Ef.
      * apply map_find_in in Ef as Hin. assert (y = x) as ->.
        { apply (Hc g); apply elem_of_app; [by left|right; left]. }
        rewrite String.eqb_refl. cbn.
        destruct (IH groups Hk) as (g' & -> & Hk' & He).
        { intros a b c Hb Hd. apply (Hc a); set_solver. }
        exists g'. split; [done|]. split; [done|]. intros e. rewrite He, elem_of_cons. naive_solver.
      * cbn. destruct (IH (map_emplace groups g x)) as (g' & -> & Hk' & He).
        { by apply map_emplace_nodup. }
        { intros a b c. rewrite !elem_of_app, !map_emplace_elem. intros Hb Hd.
          apply (Hc a); rewrite elem_of_app, elem_of_cons; naive_solver. }
        exists g'. split; [done|]. split; [done|]. intros e. rewrite He, map_emplace_elem, elem_of_cons.
        naive_solver.
    + cbn. destruct (IH groups Hk Hc) as (g' & -> & Hk' & He). by exists g'.
Qed.

Lemma count_groups_consistent devices : forall groups groups',
  NoDup groups.*1 -> count_groups command groups devices = Some groups' ->
  NoDup groups'.*1 /\ (forall e, e ∈ groups -> e ∈ groups') /\
  (forall e, e ∈ group_entries devices -> e ∈ groups').
Proof.
  induction devices as [|d devices IH]; intros groups groups' Hk; cbn [count_groups].
  - intros [= <-]. set_solver.
  - unfold count_group, group_entries in *. cbn [omap list_omap].
    destruct (group_entry d) as [[g x]|] eqn:E; cbn.
    + destruct (map_find groups g) as [y|] eqn:Ef.
      * destruct (String.eqb_spec y x) as [->|]; [|done]. cbn. intros (Hn & Hi & Hg)%IH; [|done].
        split; [done|]. split; [done|]. intros e [->|He]%elem_of_cons; [|by apply Hg].
        by apply Hi, map_find_in.
      * cbn. intros (Hn & Hi & Hg)%IH; [|by apply map_emplace_nodup].
        split; [done|]. split.
        -- intros e He. apply Hi, map_emplace_elem. by left.
        -- intros e [->|He]%elem_of_cons; [|by apply Hg]. apply Hi, map_emplace_elem. by right.
    + intros (Hn & Hi & Hg)%IH; [|done]. done.
Qed.

Lemma count_groups_entries devices groups :
  count_groups command [] devices = Some groups ->
  NoDup groups.*1 /\ forall e, e ∈ groups <-> e ∈ group_entries devices.
Proof.
  intros Hc. destruct (count_groups_consistent devices [] groups (NoDup_nil_2) Hc) as (Hn & _ & Hi).
  split; [done|]. destruct (count_groups_spec devices []) as (g & Hg & _ & He).
  - apply NoDup_nil_2.
  - intros g x y Hx Hy. apply Hi in Hx, Hy.
    apply (map_find_nodup groups) in Hx, Hy; [congruence|done..].
  - rewrite Hc in Hg. injection Hg as <-. intros e. rewrite He. set_solver.
Qed.

Lemma names_app_nodup ds ds' : NoDup (names (ds ++ ds')) -> NoDup (names ds).
Proof. unfold names. rewrite fmap_app. by intros [? _]%NoDup_app. Qed.

Lemma build_spec profile robot_id ds :
  build_dds_topic_registry profile robot_id = success ds <->
  exists robot states commands groups,
    normalize_identifier robot_id "robot_id" = success robot /\
    Forall2 (fun d t => describe robot_id robot state "sensor" "state" d = success t)
      (rp_sensors profile) states /\
    Forall2 (fun d t => describe robot_id robot command "actuator" "command" d = success t)
      (rp_actuators profile) commands /\
    count_groups command [] (rp_actuators profile) = Some groups /\
    ds = (states ++ commands ++ map (commit_descriptor robot_id robot) groups ++
          [health_descriptor robot_id robot])%list /\ NoDup (names ds).
Proof.
  unfold build_dds_topic_registry. change (mkRegistry [] ∅ []) with (reg [] []).
  destruct (normalize_identifier robot_id "robot_id") as [robot|]; cbn [mbind Result_bind]; [|naive_solver].
  rewrite result_bind_success. setoid_rewrite append_devices_spec; [|apply NoDup_nil_2].
  split.
  - intros (r & (S & g & HS & Hg & Hn & ->) & H). rewrite count_groups_state in Hg. injection Hg as <-.
    apply result_bind_success in H as (r & Hr & H).
    apply append_devices_spec in Hr as (C & g & HC & Hg & Hn' & ->); [|done].
    apply result_bind_success in H as (r & Hr & H).
    apply append_all_descriptors in Hr as (Hn2 & ->); [|done].
    apply result_bind_success in H as (r & Hr & H).
    apply append_descriptor_spec in Hr as (Hn3 & ->). injection H as <-.
    exists robot, S, C, g. cbn [app]. rewrite <- !app_assoc.
    do 5 (split; [done|]). rewrite !app_assoc. by apply names_snoc_nodup.
  - intros (robot' & S & C & g & [= <-] & HS & HC & Hg & -> & Hnd).
    rewrite !app_assoc in Hnd. apply names_app_nodup in Hnd as Hn3.
    apply names_app_nodup in Hn3 as Hn2. apply names_app_nodup in Hn2 as Hn1.
    exists (reg S []). split.
    { exists S, []. by rewrite count_groups_state. }
    apply result_bind_success. exists (reg (S ++ C) g). split.
    { apply append_devices_spec; [done|]. by exists C, g. }
    apply result_bind_success. eexists. split.
    { apply append_all_descriptors; [done|]. split; [|reflexivity]. exact Hn3. }
    apply result_bind_success. eexists. split.
    { apply append_descriptor_spec. split; [|reflexivity].
      by apply names_snoc_nodup in Hnd as [_ ?]. }
    cbn. by rewrite <- !app_assoc.
Qed.

(** C34. The registry is the declared set of topics, and nothing else: when the construction
    succeeds, its topics are one state topic per sensor and one command topic per actuator, in the
    profile's order, a commit topic for exactly the execution groups of the CiA 402 actuators, and
    the health topic, under distinct names; and it succeeds whenever such a set exists and no two
    groups have the same normalised name. *)
Theorem topic_registry_correct (profile : RobotProfile) (robot_id : string) :
  (forall ds, build_dds_topic_registry profile robot_id = success ds -> Registered profile robot_id ds) /\
  (forall ds, Registered profile robot_id ds ->
     exists ds', build_dds_topic_registry profile robot_id = success ds' /\ ds' ≡ₚ ds).
Proof.
  split.
  - intros ds (robot & S & C & g & Hr & HS & HC & [Hk Hg]%count_groups_entries & Hds & Hn)%build_spec.
    by apply (registered _ _ _ robot S C g).
  - intros ds [robot S C g Hr HS HC Hk Hg -> Hn].
    destruct (count_groups_spec (rp_actuators profile) []) as (g' & Hg' & Hk' & He).
    { apply NoDup_nil_2. }
    { intros a x y Hx%Hg Hy%Hg. apply (map_find_nodup g) in Hx, Hy; [congruence|done..]. }
    assert (g' ≡ₚ g) as Hp.
    { apply NoDup_Permutation; [by apply (NoDup_fmap_1 fst)|by apply (NoDup_fmap_1 fst)|].
      intros e. rewrite He, Hg. set_solver. }
    eexists. split.
    + apply build_spec. exists robot, S, C, g'. do 4 (split; [done|]). split; [reflexivity|].
      unfold names in *. by rewrite Hp.
    + by rewrite Hp.
Qed.

(** ** A robot with an axis, a servo and a motor *)

Module TopicsExamples.

Definition axis_device (name : string) : DeviceConfig :=
  mkDevice name (mkLink "cia402" "ethercat0") [("safety_group", "Left Arm")].

Definition servo_device (name : string) : DeviceConfig :=
  mkDevice name (mkLink "st3215" "/dev/ttyUSB0") [].

Definition robot : RobotProfile :=
  mkRobotProfile [axis_device "Shoulder-S"; servo_device "grip.s"]
    [axis_device "Shoulder-A"; servo_device "grip.a"] [] [] [] DdsConfig_default.

Example robot_topics :
  names <$> build_dds_topic_registry robot "Lab #1" =
  success ["robot_io_lab_1_sensor_shoulder_s_state"; "robot_io_lab_1_sensor_grip_s_state";
           "robot_io_lab_1_actuator_shoulder_a_command"; "robot_io_lab_1_actuator_grip_a_command";
           "robot_io_lab_1_ethercat_left_arm_command_commit"; "robot_io_lab_1_health"].
Proof. by vm_compute. Qed.

(** Two names that normalise alike are refused. *)
Example collision_refused :
  result_code (build_dds_topic_registry
    (mkRobotProfile [servo_device "grip.s"; servo_device "Grip S"] [] [] [] [] DdsConfig_default) "lab") =
  Some invalid_argument.
Proof. by vm_compute. Qed.

End TopicsExamples.

End Topics.
