(* ===== verification/Topology.v ===== *)
(** * The physical topology

    [robot_io/daemon/topology.cpp]: every device of the profile gets a transport and a slot on it,
    and a sensor and an actuator of one physical device share a binding.  Paths are normalised as
    [std::filesystem::path::lexically_normal] does on POSIX. *)
From S2P Require Export Profile.

(** ** [lexically_normal] *)

Module Paths.

Open Scope string_scope.

Definition slash : ascii := "/"%char.

(** The names between the separators; the empty ones are kept. *)
Fixpoint split_slash (l : list ascii) : list (list ascii) :=
  match l with
  | [] => [[]]
  | c :: l =>
      match split_slash l with
      | name :: names => if Ascii.eqb c slash then [] :: name :: names else (c :: name) :: names
      | [] => []
      end
  end.

Definition dot : list ascii := ["."%char].
Definition dotdot : list ascii := ["."%char; "."%char].

(** One name, on the stack of the names kept so far (the last one first). *)
Definition push_name (absolute : bool) (stack : list (list ascii)) (name : list ascii) : list (list ascii) :=
  if decide (name = [] \/ name = dot) then stack
  else if decide (name = dotdot) then
    match stack with
    | [] => if absolute then [] else [dotdot]
    | top :: rest => if decide (top = dotdot) then dotdot :: stack else rest
    end
  else name :: stack.

Fixpoint join_names (names : list (list ascii)) : list ascii :=
  match names with
  | [] => []
  | [name] => name
  | name :: names => (name ++ slash :: join_names names)%list
  end.

(** A separator stays at the end when the path ends in one, in a dot, or in a dot-dot that removed
    the name before it. *)
Definition lexically_normal (path : string) : string :=
  let l := chars path in
  match l with
  | [] => ""
  | first :: _ =>
      let absolute := Ascii.eqb first slash in
      let names := split_slash l in
      let stack := fold_left (push_name absolute) names [] in
      let trailing := bool_decide (default [] (last names) ∈ [[]; dot; dotdot]) in
      String.string_of_list_ascii
        match stack with
        | [] => if absolute then [slash] else dot
        | top :: _ =>
            ((if absolute then [slash] else []) ++ join_names (reverse stack) ++
             (if trailing && negb (bool_decide (top = dotdot)) then [slash] else []))%list
        end
  end.

Example normal_paths :
  map lexically_normal ["/dev//ttyUSB0"; "a/./b"; "a/b/.."; "a/.."; "../x/.."; "/.."; "./"; "a/b/../"; "can0";
                        "/dev/serial/../ttyS1"] =
  ["/dev/ttyUSB0"; "a/b"; "a/"; "."; ".."; "/"; "."; "a/"; "can0"; "/dev/ttyS1"].
Proof. by vm_compute. Qed.

End Paths.

(** ** Data *)

Module Topology.
Import TransportFactory.
Import Paths.

Open Scope string_scope.

#[export] Instance PhysicalTransportKey_eq_dec : EqDecision PhysicalTransportKey.
Proof. solve_decision. Defined.

Definition kind_number (k : PhysicalTransportKind) : nat :=
  match k with ethercat => 0 | socketcan => 1 | usb_can => 2 | serial => 3 end.

Definition kind_of_number (n : nat) : PhysicalTransportKind :=
  match n with 0 => ethercat | 1 => socketcan | 2 => usb_can | _ => serial end%nat.

#[export] Instance PhysicalTransportKey_countable : Countable PhysicalTransportKey.
Proof.
  apply (inj_countable' (fun k => (kind_number (ptk_kind k), ptk_path k))
           (fun p => mkPhysicalTransportKey (kind_of_number p.1) p.2)).
  by intros [[] path].
Defined.

Record DeviceBinding := mkBinding {
  db_sensor : option nat;
  db_actuator : option nat;
  db_transport : nat;
  db_receive_slot : nat;
  db_transmit_slot : nat }.

Record CompiledTopology := mkTopology {
  ct_transports : list PhysicalTransportKey;
  ct_devices : list DeviceBinding }.

(** ** Construction *)

Definition transport_kind (device : DeviceConfig) : Result PhysicalTransportKind :=
  let incompatible := fail invalid_argument ("device '" ++ dev_name device ++ "' has no compatible transport") in
  if String.eqb (dev_type device) "cia402" then success ethercat
  else if String.eqb (dev_type device) "st3215" then success serial
  else if String.eqb (dev_type device) "damiao_motor" then
    let value := default "socketcan" (dev_arg device "transport") in
    if String.eqb value "socketcan" then success socketcan
    else if String.eqb value "virtual_serial" || String.eqb value "usb_can" then success usb_can
    else incompatible
  else incompatible.

Definition canonical_path (kind : PhysicalTransportKind) (path : string) : string :=
  if decide (kind = socketcan) then path else lexically_normal path.

Definition physical_identity (device : DeviceConfig) : string :=
  let identity := dev_type device ++ newline ++ dev_path device in
  match dev_arg device "motor_id" with
  | Some motor_id => identity ++ newline ++ motor_id
  | None => identity
  end.

(** The transport of a device, or why it has none. *)
Definition transport_key (device : DeviceConfig) : Result PhysicalTransportKey :=
  kind ← transport_kind device;
  if String.eqb (dev_path device) ""
  then fail invalid_argument ("device '" ++ dev_name device ++ "' requires a transport path")
  else success (mkPhysicalTransportKey kind (canonical_path kind (dev_path device))).

(** The topology under construction with its indices. *)
Record Builder := mkBuilder {
  bd_topology : CompiledTopology;
  bd_transport_indices : gmap PhysicalTransportKey nat;
  bd_identities : gmap string nat;
  bd_next_slots : list nat }.

Definition emplace {K} `{Countable K} (m : gmap K nat) (k : K) (v : nat) : gmap K nat :=
  match m !! k with Some _ => m | None => <[k := v]> m end.

(** The index of a transport, added when it is new. *)
Definition take_transport (b : Builder) (key : PhysicalTransportKey) : Builder * nat :=
  match bd_transport_indices b !! key with
  | Some index => (b, index)
  | None =>
      let index := length (ct_transports (bd_topology b)) in
      (mkBuilder (mkTopology (ct_transports (bd_topology b) ++ [key])%list (ct_devices (bd_topology b)))
         (<[key := index]> (bd_transport_indices b)) (bd_identities b) (bd_next_slots b ++ [0%nat])%list, index)
  end.

(** [next_slots[transport_index]++]. *)
Definition take_slot (b : Builder) (transport : nat) : Builder * nat :=
  let slot := default 0%nat (bd_next_slots b !! transport) in
  (mkBuilder (bd_topology b) (bd_transport_indices b) (bd_identities b)
     (<[transport := S slot]> (bd_next_slots b)), slot).

Definition set_identities (b : Builder) (m : gmap string nat) : Builder :=
  mkBuilder (bd_topology b) (bd_transport_indices b) m (bd_next_slots b).

Definition push_binding (b : Builder) (d : DeviceBinding) : Builder :=
  mkBuilder (mkTopology (ct_transports (bd_topology b)) (ct_devices (bd_topology b) ++ [d])%list)
    (bd_transport_indices b) (bd_identities b) (bd_next_slots b).

Definition update_binding (b : Builder) (i : nat) (f : DeviceBinding -> DeviceBinding) : Builder :=
  mkBuilder (mkTopology (ct_transports (bd_topology b)) (alter f i (ct_devices (bd_topology b))))
    (bd_transport_indices b) (bd_identities b) (bd_next_slots b).

Definition device_at (b : Builder) (i : nat) : option DeviceBinding := ct_devices (bd_topology b) !! i.

(** The binding an identity already has. *)
Definition find_binding (b : Builder) (identity : string) : option (nat * DeviceBinding) :=
  index ← bd_identities b !! identity; d ← device_at b index; Some (index, d).

Definition bind_sensor (b : Builder) (index transport slot : nat) (identity : string) : Builder :=
  let count := length (ct_devices (bd_topology b)) in
  let fresh := mkBinding (Some index) None transport slot slot in
  match find_binding b identity with
  | None => push_binding (set_identities b (emplace (bd_identities b) identity count)) fresh
  | Some (i, d) =>
      match db_sensor d with
      | Some _ =>
          let unique := identity ++ newline ++ "sensor" ++ newline ++ to_string (Z.of_nat index) in
          let m := emplace (bd_identities b) unique count in
          push_binding (set_identities b (emplace m identity count)) fresh
      | None =>
          update_binding b i (fun d =>
            mkBinding (Some index) (db_actuator d) (db_transport d) slot (db_transmit_slot d))
      end
  end.

Definition bind_actuator (b : Builder) (index transport slot : nat) (identity : string) : Builder :=
  let count := length (ct_devices (bd_topology b)) in
  let fresh := mkBinding None (Some index) transport slot slot in
  match find_binding b identity with
  | None => push_binding (set_identities b (emplace (bd_identities b) identity count)) fresh
  | Some (i, d) =>
      match db_actuator d with
      | Some _ =>
          let unique := identity ++ newline ++ "actuator" ++ newline ++ to_string (Z.of_nat index) in
          push_binding (set_identities b (emplace (bd_identities b) unique count)) fresh
      | None =>
          update_binding b i (fun d =>
            mkBinding (db_sensor d) (Some index) (db_transport d) (db_receive_slot d) slot)
      end
  end.

Definition append_device (sensor : bool) (b : Builder) (index : nat) (device : DeviceConfig)
    : Result Builder :=
  key ← transport_key device;
  let '(b, transport) := take_transport b key in
  let '(b, slot) := take_slot b transport in
  let identity := physical_identity device in
  success (if sensor then bind_sensor b index transport slot identity
           else bind_actuator b index transport slot identity).

Fixpoint append_from (sensor : bool) (index : nat) (devices : list DeviceConfig) (b : Builder)
    : Result Builder :=
  match devices with
  | [] => success b
  | device :: devices => b ← append_device sensor b index device; append_from sensor (S index) devices b
  end.

Definition append_devices (devices : list DeviceConfig) (sensor : bool) (b : Builder) : Result Builder :=
  append_from sensor 0 devices b.

Definition empty_builder : Builder := mkBuilder (mkTopology [] []) ∅ ∅ [].

Definition compile_physical_topology (profile : RobotProfile) : Result CompiledTopology :=
  b ← append_devices (rp_sensors profile) true empty_builder;
  b ← append_devices (rp_actuators profile) false b;
  success (bd_topology b).

(** ** The reference: the devices of the profile, in the order they are appended *)

(** A device with its direction and its index in the profile. *)
Record Entry := mkEntry { lg_sensor : bool; lg_index : nat; lg_device : DeviceConfig }.

Fixpoint entries_from (sensor : bool) (index : nat) (devices : list DeviceConfig) : list Entry :=
  match devices with
  | [] => []
  | device :: devices => mkEntry sensor index device :: entries_from sensor (S index) devices
  end.

Definition entries (profile : RobotProfile) : list Entry :=
  (entries_from true 0 (rp_sensors profile) ++ entries_from false 0 (rp_actuators profile))%list.

Definition entry_key (e : Entry) : Result PhysicalTransportKey := transport_key (lg_device e).
Definition entry_identity (e : Entry) : string := physical_identity (lg_device e).

Definition on_transport (key : PhysicalTransportKey) (e : Entry) : bool :=
  match entry_key e with success k => bool_decide (k = key) | failure _ => false end.

(** The devices of a list on a transport. *)
Definition load (key : PhysicalTransportKey) (log : list Entry) : nat :=
  length (filter (fun e => on_transport key e = true) log).

(** The slot of the [n]-th device: the devices before it on its own transport, which is the one
    its binding names unless the binding has a sensor on another transport. *)
Definition slot_of (log : list Entry) (n : nat) : nat :=
  match log !! n with
  | Some e => match entry_key e with success key => load key (take n log) | failure _ => 0%nat end
  | None => 0%nat
  end.

(** The device a binding gives to a direction, and its slot. *)
Definition role (sensor : bool) (d : DeviceBinding) : option nat :=
  if sensor then db_sensor d else db_actuator d.
Definition role_slot (sensor : bool) (d : DeviceBinding) : nat :=
  if sensor then db_receive_slot d else db_transmit_slot d.

(** The first device of a direction with an identity. *)
Definition first_of (sensor : bool) (identity : string) (log : list Entry) : option Entry :=
  head (filter (fun e => lg_sensor e = sensor /\ entry_identity e = identity) log).

(** ** The invariant of the construction *)

Section Invariant.
(** The texts that are identities of devices, as opposed to the keys that keep a second device
    with one identity apart. *)
Context (Plain : string -> Prop).

Record TransportsInv (log : list Entry) (b : Builder) : Prop := {
  ti_nodup : NoDup (ct_transports (bd_topology b));
  ti_index : forall key i, bd_transport_indices b !! key = Some i <->
                           ct_transports (bd_topology b) !! i = Some key;
  ti_slots : bd_next_slots b = (fun key => load key log) <$> ct_transports (bd_topology b);
  ti_used : forall key, key ∈ ct_transports (bd_topology b) <->
                        exists e, e ∈ log /\ entry_key e = success key }.

Definition bound (log : list Entry) (n : nat) (e : Entry) (d : DeviceBinding) : Prop :=
  log !! n = Some e /\ role (lg_sensor e) d = Some (lg_index e) /\
  role_slot (lg_sensor e) d = slot_of log n.

Record DevicesInv (log : list Entry) (transports : list PhysicalTransportKey)
    (devices : list DeviceBinding) (identities : gmap string nat) : Prop := {
  di_fresh : forall n m e e', log !! n = Some e -> log !! m = Some e' ->
    lg_sensor e = lg_sensor e' -> lg_index e = lg_index e' -> n = m;
  di_total : forall n e, log !! n = Some e -> exists k d, devices !! k = Some d /\ bound log n e d;
  di_origin : forall k d s i, devices !! k = Some d -> role s d = Some i ->
    exists n e, lg_sensor e = s /\ lg_index e = i /\ bound log n e d;
  di_transport : forall k d, devices !! k = Some d ->
    exists n e key, bound log n e d /\ entry_key e = success key /\
      transports !! db_transport d = Some key /\ (lg_sensor e = true \/ db_sensor d = None);
  di_unique : forall k k' d d' s i, devices !! k = Some d -> devices !! k' = Some d' ->
    role s d = Some i -> role s d' = Some i -> k = k';
  di_identity : forall k d n m e e', devices !! k = Some d -> bound log n e d -> bound log m e' d ->
    entry_identity e = entry_identity e';
  di_index : forall identity k, Plain identity -> identities !! identity = Some k ->
    exists d, devices !! k = Some d /\ forall n e, bound log n e d -> entry_identity e = identity;
  di_first : forall s identity e, Plain identity -> first_of s identity log = Some e ->
    exists k d n, identities !! identity = Some k /\ devices !! k = Some d /\ bound log n e d;
  di_plain : forall n e, log !! n = Some e -> Plain (entry_identity e);
  di_paired : forall k d n m e e', devices !! k = Some d -> bound log n e d -> bound log m e' d ->
    lg_sensor e <> lg_sensor e' -> identities !! entry_identity e = Some k }.

(** *** Extending the log *)

Lemma slot_of_app log e n x : log !! n = Some x -> slot_of (log ++ [e]) n = slot_of log n.
Proof.
  intros Hn. unfold slot_of. rewrite lookup_app_l by by eapply lookup_lt_Some.
  rewrite take_app_le; [done|]. apply lookup_lt_Some in Hn. lia.
Qed.

Lemma slot_of_last log e key :
  entry_key e = success key -> slot_of (log ++ [e]) (length log) = load key log.
Proof.
  intros Hk. unfold slot_of. rewrite lookup_app_r, Nat.sub_diag by lia. cbn. rewrite Hk.
  by rewrite take_app_length.
Qed.

Lemma bound_app log e n x d :
  bound (log ++ [e]) n x d <->
  bound log n x d \/
  (n = length log /\ x = e /\ role (lg_sensor e) d = Some (lg_index e) /\
   role_slot (lg_sensor e) d = slot_of (log ++ [e]) n).
Proof.
  unfold bound. destruct (Nat.lt_ge_cases n (length log)) as [Hn|Hn].
  - rewrite lookup_app_l by done. apply lookup_lt_is_Some in Hn as [y Hy].
    rewrite (slot_of_app log e n y Hy). apply lookup_lt_Some in Hy. naive_solver lia.
  - rewrite lookup_app_r, (lookup_ge_None_2 log n) by done.
    destruct (decide (n = length log)) as [->|Hne].
    + rewrite Nat.sub_diag. cbn. naive_solver.
    + rewrite lookup_ge_None_2 by (cbn; lia). naive_solver.
Qed.

Lemma load_app key log e :
  load key (log ++ [e]) = (load key log + if on_transport key e then 1 else 0)%nat.
Proof.
  unfold load. rewrite filter_app, length_app. f_equal.
  rewrite filter_cons. by destruct (decide _), (on_transport key e).
Qed.

Lemma first_of_app s identity log e :
  first_of s identity (log ++ [e]) =
  match first_of s identity log with
  | Some x => Some x
  | None => if decide (lg_sensor e = s /\ entry_identity e = identity) then Some e else None
  end.
Proof.
  unfold first_of. rewrite filter_app. rewrite filter_cons.
  destruct (filter _ log); cbn [app head]; [|done]. by destruct (decide _).
Qed.

Lemma first_of_none s identity log n e :
  first_of s identity log = None -> log !! n = Some e -> lg_sensor e = s -> entry_identity e <> identity.
Proof.
  unfold first_of. intros Hf Hn Hs Hi.
  destruct (filter _ log) as [|x l] eqn:E; [|done].
  assert (e ∈ filter (fun e => lg_sensor e = s /\ entry_identity e = identity) log) as He.
  { apply list_elem_of_filter. split; [done|]. by eapply list_elem_of_lookup_2. }
  rewrite E in He. set_solver.
Qed.

Lemma first_of_some s identity log e :
  first_of s identity log = Some e ->
  lg_sensor e = s /\ entry_identity e = identity /\ exists n, log !! n = Some e.
Proof.
  unfold first_of. intros Hf.
  assert (e ∈ filter (fun e => lg_sensor e = s /\ entry_identity e = identity) log) as He.
  { destruct (filter _ log); [done|]. injection Hf as ->. left. }
  apply list_elem_of_filter in He as [[? ?] ?%list_elem_of_lookup_1]. done.
Qed.

(** *** Transports and slots *)

Lemma on_transport_key e key k : entry_key e = success key -> on_transport k e = bool_decide (key = k).
Proof. unfold on_transport. by intros ->. Qed.

Lemma load_unused key log :
  (forall e, e ∈ log -> entry_key e <> success key) -> load key log = 0%nat.
Proof.
  unfold load. induction log as [|e log IH]; intros Hk; [done|]. rewrite filter_cons.
  specialize (IH (fun x Hx => Hk x (list_elem_of_further _ _ _ Hx))).
  destruct (decide (on_transport key e = true)) as [Ho|_]; [|done].
  unfold on_transport in Ho. specialize (Hk e (list_elem_of_here _ _)).
  destruct (entry_key e) as [k|]; [|done]. apply bool_decide_eq_true in Ho. congruence.
Qed.

Lemma take_transport_inv log b key b' t :
  TransportsInv log b -> take_transport b key = (b', t) ->
  ct_transports (bd_topology b') !! t = Some key /\
  ct_transports (bd_topology b) `prefix_of` ct_transports (bd_topology b') /\
  ct_devices (bd_topology b') = ct_devices (bd_topology b) /\ bd_identities b' = bd_identities b /\
  NoDup (ct_transports (bd_topology b')) /\
  (forall k i, bd_transport_indices b' !! k = Some i <-> ct_transports (bd_topology b') !! i = Some k) /\
  bd_next_slots b' = (fun k => load k log) <$> ct_transports (bd_topology b') /\
  (forall k, k ∈ ct_transports (bd_topology b') <-> k = key \/ exists e, e ∈ log /\ entry_key e = success k).
Proof.
  intros [Hn Hi Hs Hu]. unfold take_transport. destruct (bd_transport_indices b !! key) as [i|] eqn:E.
  - intros [= <- <-]. apply Hi in E. do 7 (split; [done|]). intros k. rewrite Hu. split; [by right|].
    intros [->|?]; [|done]. apply Hu. by eapply list_elem_of_lookup_2.
  - intros [= <- <-]. cbn. set (ts := ct_transports (bd_topology b)) in *.
    assert (key ∉ ts) as Hnew.
    { intros [i Hi']%list_elem_of_lookup_1. apply Hi in Hi'. congruence. }
    split; [by rewrite lookup_app_r, Nat.sub_diag by lia|]. split; [by apply prefix_app_r|].
    split; [done|]. split; [done|].
    split; [apply NoDup_app; split; [done|]; split; [set_solver|apply NoDup_singleton]|].
    split; [|split].
    + intros k i. destruct (decide (k = key)) as [->|Hk].
      * rewrite lookup_insert_eq. split.
        -- intros [= <-]. by rewrite lookup_app_r, Nat.sub_diag by lia.
        -- intros [Hl|[Hle Hl]]%lookup_app_Some; [apply Hi in Hl; congruence|].
           apply list_lookup_singleton_Some in Hl as [Hz _]. f_equal. lia.
      * rewrite lookup_insert_ne, Hi by done. split; [by apply lookup_app_l_Some|].
        intros [Hl|[_ [_ Hl]%list_lookup_singleton_Some]]%lookup_app_Some; congruence.
    + rewrite fmap_app, Hs. cbn. f_equal. f_equal. symmetry. apply load_unused.
      intros e He Hke. apply Hnew, Hu. by exists e.
    + intros k. rewrite elem_of_app, Hu, list_elem_of_singleton. naive_solver.
Qed.

Lemma take_slot_inv log b e key b' t b'' slot :
  TransportsInv log b -> entry_key e = success key ->
  take_transport b key = (b', t) -> take_slot b' t = (b'', slot) ->
  slot = load key log /\ ct_transports (bd_topology b'') !! t = Some key /\
  ct_transports (bd_topology b) `prefix_of` ct_transports (bd_topology b'') /\
  ct_devices (bd_topology b'') = ct_devices (bd_topology b) /\ bd_identities b'' = bd_identities b /\
  TransportsInv (log ++ [e]) b''.
Proof.
  intros Hinv He Ht Hs.
  destruct (take_transport_inv log b key b' t Hinv Ht) as (Hk & Hp & Hd & Hid & Hn & Hi & Hsl & Hu).
  unfold take_slot in Hs. injection Hs as <- <-. cbn.
  assert (bd_next_slots b' !! t = Some (load key log)) as Hload
    by (rewrite Hsl, list_lookup_fmap, Hk; reflexivity).
  rewrite Hload. cbn. do 5 (split; [done|]). constructor; cbn; [done|done| |].
  - apply list_eq. intros i. rewrite list_lookup_fmap, Hsl.
    destruct (decide (i = t)) as [->|Hne].
    + rewrite list_lookup_insert_eq by (rewrite length_fmap; by eapply lookup_lt_Some).
      rewrite Hk. cbn. rewrite load_app, (on_transport_key e key key He), bool_decide_true by done.
      f_equal. lia.
    + rewrite list_lookup_insert_ne by done. rewrite list_lookup_fmap.
      destruct (ct_transports (bd_topology b') !! i) as [k|] eqn:E; [|done]. cbn.
      rewrite load_app, (on_transport_key e key k He), bool_decide_false; [f_equal; lia|].
      intros ->. apply Hne. by eapply (NoDup_lookup (ct_transports (bd_topology b'))).
  - intros k. rewrite Hu. split.
    + intros [->|(x & Hx & Hxk)]; [exists e|exists x]; (split; [apply elem_of_app|done]);
        [right; by apply list_elem_of_singleton|by left].
    + intros (x & [Hx| ->%list_elem_of_singleton]%elem_of_app & Hxk); [right; by exists x|left].
      rewrite He in Hxk. by injection Hxk.
Qed.

(** *** Bindings *)

(** The device gets a binding of its own. *)
Lemma push_binding_inv log transports transports' devices ids ids' e key d :
  DevicesInv log transports devices ids -> transports `prefix_of` transports' ->
  (forall n x, log !! n = Some x -> lg_sensor x = lg_sensor e -> lg_index x <> lg_index e) ->
  Plain (entry_identity e) -> entry_key e = success key -> transports' !! db_transport d = Some key ->
  role (lg_sensor e) d = Some (lg_index e) -> role (negb (lg_sensor e)) d = None ->
  role_slot (lg_sensor e) d = load key log ->
  (forall x, Plain x ->
     ids' !! x = ids !! x \/
     x = entry_identity e /\ ids !! x = None /\ ids' !! x = Some (length devices)) ->
  (Plain (entry_identity e) /\ ids !! entry_identity e = None ->
     ids' !! entry_identity e = Some (length devices)) ->
  (forall k d', Plain (entry_identity e) -> ids !! entry_identity e = Some k -> devices !! k = Some d' ->
     role (lg_sensor e) d' <> None) ->
  DevicesInv (log ++ [e]) transports' (devices ++ [d]) ids'.
Proof.
  intros [Hf Ht Ho Htr Hu Hid Hix Hfi Hpl Hpa] Hp Hnew Hple Hkey Hdt Hr Hr' Hrs Hids Hid1 Hid2.
  assert (forall s i, role s d = Some i -> s = lg_sensor e /\ i = lg_index e) as Hrole.
  { intros s i Hs. destruct (Bool.bool_dec s (lg_sensor e)) as [->|Hne]; [naive_solver|].
    replace s with (negb (lg_sensor e)) in Hs by (by destruct s, (lg_sensor e)). congruence. }
  assert (forall n x, bound log n x d -> False) as Hnb.
  { intros n x (Hn & Hx & _). apply Hrole in Hx as [Hs Hi]. by eapply Hnew. }
  assert (bound (log ++ [e]) (length log) e d) as Hbd.
  { unfold bound. rewrite lookup_app_r, Nat.sub_diag by lia. split; [done|]. split; [done|].
    by rewrite (slot_of_last log e key). }
  assert (forall k d', devices !! k = Some d' -> role (lg_sensor e) d' <> Some (lg_index e)) as Hno.
  { intros k d' Hk Hr''. destruct (Ho k d' _ _ Hk Hr'') as (n & x & Hs & Hi & Hn & _).
    by apply (Hnew n x). }
  assert (forall k d' n x, devices !! k = Some d' -> bound (log ++ [e]) n x d' -> bound log n x d') as Hold.
  { intros k d' n x Hk [?|(-> & -> & Hx & _)]%bound_app; [done|]. by destruct (Hno k d'). }
  constructor.
  - intros n m x y Hn Hm Hs Hi.
    apply lookup_app_Some in Hn as [Hn|[Hn1 [Hn2 <-]%list_lookup_singleton_Some]],
      Hm as [Hm|[Hm1 [Hm2 <-]%list_lookup_singleton_Some]].
    + by eapply Hf.
    + by destruct (Hnew n x Hn Hs).
    + by destruct (Hnew m y Hm).
    + lia.
  - intros n x Hn. apply lookup_app_Some in Hn as [Hn|[Hn1 [Hn2 <-]%list_lookup_singleton_Some]].
    + destruct (Ht n x Hn) as (k & d' & Hk & Hb). exists k, d'.
      split; [by apply lookup_app_l_Some|]. apply bound_app. by left.
    + exists (length devices), d. split; [by rewrite lookup_app_r, Nat.sub_diag by lia|].
      replace n with (length log) by lia. done.
  - intros k d' s i Hk Hs. apply lookup_app_Some in Hk as [Hk|[_ [_ <-]%list_lookup_singleton_Some]].
    + destruct (Ho k d' s i Hk Hs) as (n & x & ? & ? & ?). exists n, x.
      do 2 (split; [done|]). apply bound_app. by left.
    + apply Hrole in Hs as [-> ->]. by exists (length log), e.
  - intros k d' Hk. apply lookup_app_Some in Hk as [Hk|[_ [_ <-]%list_lookup_singleton_Some]].
    + destruct (Htr k d' Hk) as (n & x & key' & Hb & Hx & Hl & Hown). exists n, x, key'.
      split; [apply bound_app; by left|]. split; [done|]. split; [by eapply prefix_lookup_Some|done].
    + exists (length log), e, key. do 3 (split; [done|]). destruct (lg_sensor e); [by left|by right].
  - intros k k' d1 d2 s i Hk Hk' H1 H2.
    apply lookup_app_Some in Hk as [Hk|[Hk1 [Hk2 <-]%list_lookup_singleton_Some]],
      Hk' as [Hk'|[Hk1' [Hk2' <-]%list_lookup_singleton_Some]].
    + by eapply Hu.
    + apply Hrole in H2 as [-> ->]. by destruct (Hno k d1).
    + apply Hrole in H1 as [-> ->]. by destruct (Hno k' d2).
    + lia.
  - intros k d' n m x y Hk Hn Hm. apply lookup_app_Some in Hk as [Hk|[Hk1 [_ <-]%list_lookup_singleton_Some]].
    + eapply (Hid k d' n m); [done|by eapply Hold..].
    + apply bound_app in Hn as [Hn|(_ & -> & _)], Hm as [Hm|(_ & -> & _)]; [| | |done];
        exfalso; by eapply Hnb.
  - intros x k Hx Hk. destruct (Hids x Hx) as [Heq|(-> & Hnone & Heq)]; rewrite Heq in Hk.
    + destruct (Hix x k Hx Hk) as (d' & Hd' & Hall). exists d'. split; [by apply lookup_app_l_Some|].
      intros n y Hy. by eapply Hall, Hold.
    + injection Hk as <-. exists d. split; [by rewrite lookup_app_r, Nat.sub_diag by lia|].
      intros n y [Hy|(_ & -> & _)]%bound_app; [|done]. exfalso. by eapply Hnb.
  - intros s x y Hx Hy. rewrite first_of_app in Hy. destruct (first_of s x log) as [z|] eqn:E.
    + injection Hy as ->. destruct (Hfi s x y Hx E) as (k & d' & n & Hk & Hd' & Hb).
      exists k, d', n. split; [|split; [by apply lookup_app_l_Some|apply bound_app; by left]].
      destruct (Hids x Hx) as [->|(_ & Hnone & _)]; congruence.
    + destruct (decide _) as [[<- <-]|]; [|done]. injection Hy as <-.
      destruct (ids !! entry_identity e) as [k|] eqn:Ek.
      * destruct (Hix _ k Hx Ek) as (d' & Hd' & Hall). exfalso.
        destruct (role (lg_sensor e) d') as [i|] eqn:Er; [|by apply (Hid2 k d')].
        destruct (Ho k d' _ i Hd' Er) as (n & z & Hz & _ & Hb).
        apply (first_of_none (lg_sensor e) (entry_identity e) log n z E); [apply Hb|done|].
        by eapply Hall.
      * exists (length devices), d, (length log). split; [by apply Hid1|].
        by rewrite lookup_app_r, Nat.sub_diag by lia.
  - intros n x [Hn|[_ [_ <-]%list_lookup_singleton_Some]]%lookup_app_Some; [by eapply Hpl|done].
  - intros k d' n m x y Hk Hn Hm Hne. apply lookup_app_Some in Hk as [Hk|[_ [_ <-]%list_lookup_singleton_Some]].
    + assert (bound log n x d') as Hn' by (by eapply Hold).
      pose proof (Hpa k d' n m x y Hk Hn' (Hold k d' m y Hk Hm) Hne) as Hix'.
      destruct (Hids (entry_identity x) (Hpl n x (proj1 Hn'))) as [Heq|(_ & Hnone & _)]; congruence.
    + destruct Hn as (_ & [Hx _]%Hrole & _), Hm as (_ & [Hy _]%Hrole & _). congruence.
Qed.

(** The device, an actuator, joins the binding of a sensor. *)
Lemma merge_inv log transports transports' devices ids e key j d d' :
  DevicesInv log transports devices ids -> transports `prefix_of` transports' ->
  (forall n x, log !! n = Some x -> lg_sensor x = lg_sensor e -> lg_index x <> lg_index e) ->
  entry_key e = success key -> lg_sensor e = false ->
  Plain (entry_identity e) -> ids !! entry_identity e = Some j -> devices !! j = Some d ->
  role (lg_sensor e) d = None ->
  role (lg_sensor e) d' = Some (lg_index e) -> role_slot (lg_sensor e) d' = load key log ->
  (forall s, s <> lg_sensor e -> role s d' = role s d /\ role_slot s d' = role_slot s d) ->
  db_transport d' = db_transport d ->
  DevicesInv (log ++ [e]) transports' (<[j := d']> devices) ids.
Proof.
  intros [Hf Ht Ho Htr Hu Hid Hix Hfi Hpls Hpa] Hp Hnew Hkey Hact Hpl Hj Hd Hnone Hr Hrs Hother Hdt.
  assert (length devices > j)%nat as Hlen by (by apply lookup_lt_Some in Hd).
  assert (bound (log ++ [e]) (length log) e d') as Hbd.
  { unfold bound. rewrite lookup_app_r, Nat.sub_diag by lia. split; [done|]. split; [done|].
    by rewrite (slot_of_last log e key). }
  assert (forall s i, role s d' = Some i -> s <> lg_sensor e /\ role s d = Some i \/
                                            s = lg_sensor e /\ i = lg_index e) as Hrole.
  { intros s i Hs. destruct (Bool.bool_dec s (lg_sensor e)) as [->|Hne]; [right; naive_solver|left].
    by rewrite <- (proj1 (Hother s Hne)). }
  assert (forall n x, bound log n x d -> bound (log ++ [e]) n x d') as Hup.
  { intros n x (Hn & Hx & Hxs). apply bound_app. left.
    assert (lg_sensor x <> lg_sensor e) as Hne by congruence.
    split; [done|]. destruct (Hother _ Hne) as [-> ->]. done. }
  assert (forall n x, bound log n x d' -> bound log n x d) as Hdown.
  { intros n x (Hn & Hx & Hxs). apply Hrole in Hx as [[Hne Hx]|[Hs Hi]].
    - split; [done|]. split; [done|]. by rewrite <- (proj2 (Hother _ Hne)).
    - by destruct (Hnew n x Hn Hs). }
  assert (forall k d1, devices !! k = Some d1 -> role (lg_sensor e) d1 <> Some (lg_index e)) as Hno.
  { intros k d1 Hk Hr''. destruct (Ho k d1 _ _ Hk Hr'') as (n & x & Hs & Hi & Hn & _).
    by apply (Hnew n x). }
  assert (forall k d1 n x, devices !! k = Some d1 -> bound (log ++ [e]) n x d1 -> bound log n x d1) as Hold.
  { intros k d1 n x Hk [?|(-> & -> & Hx & _)]%bound_app; [done|]. by destruct (Hno k d1). }
  assert (forall k d1, <[j:=d']> devices !! k = Some d1 -> k = j /\ d1 = d' \/ devices !! k = Some d1) as Hins.
  { intros k d1 [(-> & -> & _)|[_ ?]]%list_lookup_insert_Some; [by left|by right]. }
  assert (forall k d1, devices !! k = Some d1 -> exists d2, <[j:=d']> devices !! k = Some d2 /\
            forall n x, bound log n x d1 -> bound (log ++ [e]) n x d2) as Hkeep.
  { intros k d1 Hk. destruct (decide (k = j)) as [->|Hne].
    - exists d'. rewrite list_lookup_insert_eq by lia. replace d1 with d by congruence. done.
    - exists d1. rewrite list_lookup_insert_ne by done. split; [done|].
      intros n x Hb. apply bound_app. by left. }
  destruct (Hix _ j Hpl Hj) as (d0 & Hd0 & Hall).
  replace d0 with d in * by congruence. clear d0 Hd0.
  assert (forall n x, bound (log ++ [e]) n x d' -> entry_identity x = entry_identity e) as Hall'.
  { intros n x [Hb|(_ & -> & _)]%bound_app; [|done]. by eapply Hall, Hdown. }
  constructor.
  - intros n m x y Hn Hm Hs Hi.
    apply lookup_app_Some in Hn as [Hn|[Hn1 [Hn2 <-]%list_lookup_singleton_Some]],
      Hm as [Hm|[Hm1 [Hm2 <-]%list_lookup_singleton_Some]].
    + by eapply Hf.
    + by destruct (Hnew n x Hn Hs).
    + by destruct (Hnew m y Hm).
    + lia.
  - intros n x Hn. apply lookup_app_Some in Hn as [Hn|[Hn1 [Hn2 <-]%list_lookup_singleton_Some]].
    + destruct (Ht n x Hn) as (k & d1 & Hk & Hb). destruct (Hkeep k d1 Hk) as (d2 & Hk2 & Hb2).
      exists k, d2. auto.
    + exists j, d'. rewrite list_lookup_insert_eq by lia. replace n with (length log) by lia. done.
  - intros k d1 s i Hk Hs. apply Hins in Hk as [[-> ->]|Hk].
    + apply Hrole in Hs as [[Hne Hs]|[-> ->]].
      * destruct (Ho j d s i Hd Hs) as (n & x & ? & ? & ?). exists n, x. auto.
      * by exists (length log), e.
    + destruct (Ho k d1 s i Hk Hs) as (n & x & ? & ? & ?). exists n, x.
      do 2 (split; [done|]). apply bound_app. by left.
  - intros k d1 Hk. apply Hins in Hk as [[-> ->]|Hk].
    + destruct (Htr j d Hd) as (n & x & key' & Hb & Hx & Hl & Hown). exists n, x, key'.
      split; [auto|]. split; [done|]. rewrite Hdt. split; [by eapply prefix_lookup_Some|].
      pose proof (proj1 (Hother true ltac:(congruence))) as Hs. cbn in Hs. by rewrite Hs.
    + destruct (Htr k d1 Hk) as (n & x & key' & Hb & Hx & Hl & Hown). exists n, x, key'.
      split; [apply bound_app; by left|]. split; [done|]. split; [by eapply prefix_lookup_Some|done].
  - intros k k' d1 d2 s i Hk Hk' H1 H2.
    apply Hins in Hk as [[-> ->]|Hk], Hk' as [[-> ->]|Hk']; [done|..|by eapply Hu].
    + apply Hrole in H1 as [[_ H1]|[-> ->]]; [by eapply (Hu j k' d d2)|]. by destruct (Hno k' d2).
    + apply Hrole in H2 as [[_ H2]|[-> ->]]; [by eapply (Hu k j d1 d)|]. by destruct (Hno k d1).
  - intros k d1 n m x y Hk Hn Hm. apply Hins in Hk as [[-> ->]|Hk].
    + by rewrite (Hall' n x Hn), (Hall' m y Hm).
    + eapply (Hid k d1 n m); [done|by eapply Hold..].
  - intros x k Hx Hk. destruct (decide (k = j)) as [->|Hne].
    + exists d'. rewrite list_lookup_insert_eq by lia. split; [done|]. intros n y Hy.
      destruct (Hix x j Hx Hk) as (d0 & Hd0 & Hall0). replace d0 with d in * by congruence.
      rewrite (Hall' n y Hy). destruct (Htr j d Hd) as (m & z & _ & Hb & _).
      by rewrite <- (Hall m z Hb), <- (Hall0 m z Hb).
    + destruct (Hix x k Hx Hk) as (d0 & Hd0 & Hall0). exists d0.
      rewrite list_lookup_insert_ne by done. split; [done|]. intros n y Hy. by eapply Hall0, Hold.
  - intros s x y Hx Hy. rewrite first_of_app in Hy. destruct (first_of s x log) as [z|] eqn:E.
    + injection Hy as ->. destruct (Hfi s x y Hx E) as (k & d1 & n & Hk & Hd1 & Hb).
      destruct (Hkeep k d1 Hd1) as (d2 & Hk2 & Hb2). exists k, d2, n. auto.
    + destruct (decide _) as [[<- <-]|]; [|done]. injection Hy as <-.
      exists j, d', (length log). by rewrite list_lookup_insert_eq by lia.
  - intros n x [Hn|[_ [_ <-]%list_lookup_singleton_Some]]%lookup_app_Some; [by eapply Hpls|done].
  - intros k d1 n m x y Hk Hn Hm Hne. apply Hins in Hk as [[-> ->]|Hk].
    + by rewrite (Hall' n x Hn).
    + exact (Hpa k d1 n m x y Hk (Hold k d1 n x Hk Hn) (Hold k d1 m y Hk Hm) Hne).
Qed.

Lemma push_fresh_inv log transports transports' devices ids ids' e key t :
  DevicesInv log transports devices ids -> transports `prefix_of` transports' ->
  (forall n x, log !! n = Some x -> lg_sensor x = lg_sensor e -> lg_index x <> lg_index e) ->
  Plain (entry_identity e) -> entry_key e = success key -> transports' !! t = Some key ->
  (forall x, Plain x ->
     ids' !! x = ids !! x \/
     x = entry_identity e /\ ids !! x = None /\ ids' !! x = Some (length devices)) ->
  (Plain (entry_identity e) /\ ids !! entry_identity e = None ->
     ids' !! entry_identity e = Some (length devices)) ->
  (forall k d', Plain (entry_identity e) -> ids !! entry_identity e = Some k -> devices !! k = Some d' ->
     role (lg_sensor e) d' <> None) ->
  DevicesInv (log ++ [e]) transports'
    (devices ++ [if lg_sensor e then mkBinding (Some (lg_index e)) None t (load key log) (load key log)
                 else mkBinding None (Some (lg_index e)) t (load key log) (load key log)]) ids'.
Proof.
  intros. eapply push_binding_inv; eauto; by destruct (lg_sensor e).
Qed.

(** *** The construction *)

Definition Inv (log : list Entry) (b : Builder) : Prop :=
  TransportsInv log b /\
  DevicesInv log (ct_transports (bd_topology b)) (ct_devices (bd_topology b)) (bd_identities b).

Lemma emplace_ne {K} `{Countable K} (m : gmap K nat) k v x : x <> k -> emplace m k v !! x = m !! x.
Proof. intros Hne. unfold emplace. destruct (m !! k); [done|]. by rewrite lookup_insert_ne. Qed.

Lemma emplace_eq {K} `{Countable K} (m : gmap K nat) k v :
  emplace m k v !! k = match m !! k with Some w => Some w | None => Some v end.
Proof. unfold emplace. destruct (m !! k) eqn:E; [done|]. by rewrite lookup_insert_eq. Qed.

Lemma transports_inv_same log b b' :
  ct_transports (bd_topology b') = ct_transports (bd_topology b) ->
  bd_transport_indices b' = bd_transport_indices b -> bd_next_slots b' = bd_next_slots b ->
  TransportsInv log b -> TransportsInv log b'.
Proof. intros E1 E2 E3 [? ? ? ?]. constructor; rewrite ?E1, ?E2, ?E3; done. Qed.

Lemma alter_insert {A} (f : A -> A) i (l : list A) x : l !! i = Some x -> alter f i l = <[i := f x]> l.
Proof.
  intros Hx. apply list_eq. intros j. destruct (decide (j = i)) as [->|Hne].
  - rewrite list_lookup_alter_eq, list_lookup_insert_eq by (by eapply lookup_lt_Some). by rewrite Hx.
  - by rewrite list_lookup_alter_ne, list_lookup_insert_ne by done.
Qed.

Lemma emplace_present {K} `{Countable K} (m : gmap K nat) k v w : m !! k = Some w -> emplace m k v = m.
Proof. unfold emplace. by intros ->. Qed.

Hypothesis plain_unique : forall identity suffix index, suffix = "sensor" \/ suffix = "actuator" ->
  Plain identity -> ~ Plain (identity +:+ newline +:+ suffix +:+ newline +:+ to_string index).

Definition bind_device (sensor : bool) (b : Builder) (index t slot : nat) (identity : string) : Builder :=
  if sensor then bind_sensor b index t slot identity else bind_actuator b index t slot identity.

(** The three ways to bind a device, for both directions. *)
Lemma bind_device_cases (sensor : bool) b index t slot identity :
  Plain identity ->
  let d := if sensor then mkBinding (Some index) None t slot slot else mkBinding None (Some index) t slot slot in
  let count := length (ct_devices (bd_topology b)) in
  (find_binding b identity = None /\
   bind_device sensor b index t slot identity =
   push_binding (set_identities b (emplace (bd_identities b) identity count)) d) \/
  (exists k d0 ids', find_binding b identity = Some (k, d0) /\ role sensor d0 <> None /\
   (forall x, Plain x -> ids' !! x = bd_identities b !! x) /\
   bind_device sensor b index t slot identity = push_binding (set_identities b ids') d) \/
  (exists k d0, find_binding b identity = Some (k, d0) /\ role sensor d0 = None /\
   let d1 := if sensor then mkBinding (Some index) (db_actuator d0) (db_transport d0) slot (db_transmit_slot d0)
             else mkBinding (db_sensor d0) (Some index) (db_transport d0) (db_receive_slot d0) slot in
   bind_device sensor b index t slot identity =
   mkBuilder (mkTopology (ct_transports (bd_topology b)) (<[k := d1]> (ct_devices (bd_topology b))))
     (bd_transport_indices b) (bd_identities b) (bd_next_slots b)).
Proof.
  intros Hpl d count. unfold bind_device, bind_sensor, bind_actuator.
  destruct (find_binding b identity) as [[k d0]|] eqn:E; [right|left; by destruct sensor].
  unfold find_binding, device_at in E.
  destruct (bd_identities b !! identity) as [k'|] eqn:Ek; [|done]. cbn in E.
  destruct (ct_devices (bd_topology b) !! k') as [d'|] eqn:Ed; [|done]. injection E as -> ->.
  assert (forall suffix, suffix = "sensor" \/ suffix = "actuator" -> forall x, Plain x ->
    x <> identity ++ newline ++ suffix ++ newline ++ to_string (Z.of_nat index)) as Hne.
  { intros suffix Hs x Hx ->. by eapply plain_unique; [|exact Hpl|exact Hx]. }
  destruct sensor; cbn [role].
  - destruct (db_sensor d0) eqn:Er; [left|right].
    + eexists k, d0, _. split; [done|]. split; [cbn; congruence|]. split; [|reflexivity].
      intros x Hx. rewrite (emplace_present _ identity count k).
      * apply emplace_ne. by apply Hne; [left|].
      * rewrite emplace_ne; [done|]. by apply Hne; [left|].
    + exists k, d0. split; [done|]. split; [done|]. unfold update_binding. by rewrite (alter_insert _ k _ d0).
  - destruct (db_actuator d0) eqn:Er; [left|right].
    + eexists k, d0, _. split; [done|]. split; [cbn; congruence|]. split; [|reflexivity].
      intros x Hx. apply emplace_ne. by apply Hne; [right|].
    + exists k, d0. split; [done|]. split; [done|]. unfold update_binding. by rewrite (alter_insert _ k _ d0).
Qed.

Lemma append_device_inv log b sensor index device b' :
  Inv log b -> Plain (physical_identity device) ->
  (sensor = true -> forall n x, log !! n = Some x -> lg_sensor x = true) ->
  (forall n x, log !! n = Some x -> lg_sensor x = sensor -> lg_index x <> index) ->
  append_device sensor b index device = success b' ->
  Inv (log ++ [mkEntry sensor index device]) b'.
Proof.
  intros [Ht Hd] Hpl Hfirst Hnew Ha. set (e := mkEntry sensor index device).
  apply result_bind_success in Ha as (key & Hkey & Ha).
  change (entry_key e = success key) in Hkey.
  destruct (take_transport b key) as [b1 t] eqn:E1. destruct (take_slot b1 t) as [b2 slot] eqn:E2.
  destruct (take_slot_inv log b e key b1 t b2 slot Ht Hkey E1 E2) as (-> & Hkt & Hp & Hdev & Hids & Ht2).
  injection Ha as <-. rewrite <- Hdev, <- Hids in Hd.
  change (if sensor then _ else _) with (bind_device sensor b2 index t (load key log) (entry_identity e)).
  change (physical_identity device) with (entry_identity e) in Hpl.
  pose proof (di_index _ _ _ _ Hd (entry_identity e)) as Hix.
  destruct (bind_device_cases sensor b2 index t (load key log) (entry_identity e) Hpl) as
    [(Hnone & ->)|[(k & d0 & ids' & Hfind & Hr & Hsame & ->)|(k & d0 & Hfind & Hr & ->)]];
    (split; [by eapply transports_inv_same; [..|exact Ht2]|]); cbn.
  - assert (bd_identities b2 !! entry_identity e = None) as Hid.
    { destruct (bd_identities b2 !! entry_identity e) as [k|] eqn:Ek; [|done].
      destruct (Hix k Hpl eq_refl) as (d & Hk & _). unfold find_binding, device_at in Hnone.
      rewrite Ek in Hnone. cbn in Hnone. by rewrite Hk in Hnone. }
    eapply (push_fresh_inv log _ _ _ _ _ e key t Hd Hp Hnew Hpl Hkey Hkt).
    + intros x Hx. destruct (decide (x = entry_identity e)) as [->|Hne].
      * right. by rewrite emplace_eq, Hid.
      * left. by apply emplace_ne.
    + intros _. by rewrite emplace_eq, Hid.
    + intros k d' _ Hk. congruence.
  - unfold find_binding, device_at in Hfind.
    destruct (bd_identities b2 !! entry_identity e) as [k'|] eqn:Ek; [|done]. cbn in Hfind.
    destruct (ct_devices (bd_topology b2) !! k') as [d'|] eqn:Ed; [|done]. injection Hfind as -> ->.
    eapply (push_fresh_inv log _ _ _ _ _ e key t Hd Hp Hnew Hpl Hkey Hkt).
    + intros x Hx. left. by apply Hsame.
    + intros [_ Hn]. congruence.
    + intros k' d1 _ Hk' Hd'. rewrite Ek in Hk'. injection Hk' as <-.
      rewrite Ed in Hd'. injection Hd' as <-. exact Hr.
  - unfold find_binding, device_at in Hfind.
    destruct (bd_identities b2 !! entry_identity e) as [k'|] eqn:Ek; [|done]. cbn in Hfind.
    destruct (ct_devices (bd_topology b2) !! k') as [d'|] eqn:Ed; [|done]. injection Hfind as -> ->.
    assert (sensor = false) as ->.
    { destruct sensor; [|done].
      destruct (di_transport _ _ _ _ Hd k d0 Ed) as (n & x & key' & (Hn & Hx & _) & _).
      rewrite (Hfirst eq_refl n x Hn) in Hx. congruence. }
    eapply (merge_inv log _ _ _ _ e key k d0 _ Hd Hp Hnew Hkey eq_refl Hpl Ek Ed); [exact Hr|..];
      cbn; try done; intros []; done.
Qed.

Lemma append_from_inv sensor devices : forall log b index b',
  Inv log b -> Forall (fun d => Plain (physical_identity d)) devices ->
  (sensor = true -> forall n x, log !! n = Some x -> lg_sensor x = true) ->
  (forall n x, log !! n = Some x -> lg_sensor x = sensor -> (lg_index x < index)%nat) ->
  append_from sensor index devices b = success b' ->
  Inv (log ++ entries_from sensor index devices) b'.
Proof.
  induction devices as [|d devices IH]; intros log b index b' Hinv Hpl Hfirst Hlt Ha; cbn [append_from entries_from] in *.
  { injection Ha as <-. by rewrite app_nil_r. }
  apply result_bind_success in Ha as (b1 & H1 & Ha). apply Forall_cons in Hpl as [Hpd Hpl].
  replace (log ++ mkEntry sensor index d :: entries_from sensor (S index) devices)%list
    with ((log ++ [mkEntry sensor index d]) ++ entries_from sensor (S index) devices)%list
    by (by rewrite <- app_assoc).
  apply (IH _ b1); [|done| | |done].
  - apply (append_device_inv log b); [done..| |done]. intros n x Hn Hs. specialize (Hlt n x Hn Hs). lia.
  - intros Hs n x [Hn|[_ [_ <-]%list_lookup_singleton_Some]]%lookup_app_Some; [by eapply Hfirst|done].
  - intros n x [Hn|[_ [_ <-]%list_lookup_singleton_Some]]%lookup_app_Some Hs; [|cbn; lia].
    specialize (Hlt n x Hn Hs). lia.
Qed.

Lemma empty_inv : Inv [] empty_builder.
Proof.
  split.
  - constructor; cbn; [apply NoDup_nil_2| |done|].
    + intros key i. by rewrite lookup_empty.
    + intros key. split; [by intros ?%elem_of_nil|]. intros (e & He & _). by apply elem_of_nil in He.
  - constructor; intros *; cbn [empty_builder bd_topology ct_transports ct_devices bd_identities];
      rewrite ?lookup_nil, ?lookup_empty; try done; by rewrite lookup_nil.
Qed.

Lemma entries_from_sensor sensor index devices n x :
  entries_from sensor index devices !! n = Some x -> lg_sensor x = sensor.
Proof.
  revert index n. induction devices as [|d devices IH]; intros index [|n] Hn; try done.
  - by injection Hn as <-.
  - exact (IH (S index) n Hn).
Qed.

Lemma compile_inv profile topology :
  Forall (fun d => Plain (physical_identity d)) (rp_sensors profile ++ rp_actuators profile) ->
  compile_physical_topology profile = success topology ->
  exists b, bd_topology b = topology /\ Inv (entries profile) b.
Proof.
  intros [Hs Ha]%Forall_app Hc. apply result_bind_success in Hc as (b1 & H1 & Hc).
  apply result_bind_success in Hc as (b2 & H2 & Hc). injection Hc as <-. exists b2. split; [done|].
  apply (append_from_inv false (rp_actuators profile) _ b1 0); [|done|done| |done].
  - by apply (append_from_inv true (rp_sensors profile) [] empty_builder 0); [apply empty_inv|..].
  - intros n x Hn Hs'. apply entries_from_sensor in Hn. congruence.
Qed.

End Invariant.

(** ** Identities *)

(** A device whose type, path and motor id have no line break. *)
Definition single_line_device (d : DeviceConfig) : Prop :=
  single_line (dev_type d) /\ single_line (dev_path d) /\
  forall m, dev_arg d "motor_id" = Some m -> single_line m.

Definition line_breaks (s : string) : nat := length (filter (fun c => c = ascii_of_N 10) (chars s)).

Lemma line_breaks_app a b : line_breaks (a +:+ b) = (line_breaks a + line_breaks b)%nat.
Proof. unfold line_breaks. by rewrite list_ascii_app, filter_app, length_app. Qed.

Lemma line_breaks_single s : single_line s -> line_breaks s = 0%nat.
Proof.
  unfold single_line, line_breaks. induction (chars s) as [|c l IH]; [done|]. intros Hn.
  rewrite filter_cons. destruct (decide _) as [->|_]; [set_solver|]. apply IH. set_solver.
Qed.

Lemma line_breaks_newline : line_breaks newline = 1%nat.
Proof. done. Qed.

Lemma identity_line_breaks d :
  (1 <= line_breaks (physical_identity d))%nat /\
  (single_line_device d -> (line_breaks (physical_identity d) <= 2)%nat).
Proof.
  unfold physical_identity.
  destruct (dev_arg d "motor_id") as [m|] eqn:E; rewrite !line_breaks_app, !line_breaks_newline;
    (split; [lia|]); intros (Ht & Hp & Hm);
    rewrite !line_breaks_single by auto; lia.
Qed.

Lemma unique_identity_apart d d' suffix index :
  single_line_device d' ->
  physical_identity d' <> physical_identity d +:+ newline +:+ suffix +:+ newline +:+ to_string index.
Proof.
  intros Hd' E. apply (f_equal line_breaks) in E. rewrite !line_breaks_app, !line_breaks_newline in E.
  pose proof (proj1 (identity_line_breaks d)). pose proof (proj2 (identity_line_breaks d') Hd'). lia.
Qed.

(** ** The compiled topology *)

(** The binding of a device of the profile. *)
Definition binds (topology : CompiledTopology) (k : nat) (e : Entry) : Prop :=
  exists d, ct_devices topology !! k = Some d /\ role (lg_sensor e) d = Some (lg_index e).

Record Compiled (profile : RobotProfile) (topology : CompiledTopology) : Prop := {
  cp_transports : NoDup (ct_transports topology);
  cp_used : forall key, key ∈ ct_transports topology <->
                        exists e, e ∈ entries profile /\ entry_key e = success key;
  cp_bound : forall n e, entries profile !! n = Some e ->
    exists k d, ct_devices topology !! k = Some d /\ role (lg_sensor e) d = Some (lg_index e) /\
      role_slot (lg_sensor e) d = slot_of (entries profile) n /\
      forall k', binds topology k' e -> k' = k;
  cp_origin : forall k d, ct_devices topology !! k = Some d ->
    exists e key, e ∈ entries profile /\ role (lg_sensor e) d = Some (lg_index e) /\
      entry_key e = success key /\ ct_transports topology !! db_transport d = Some key /\
      (lg_sensor e = true \/ db_sensor d = None);
  cp_paired : forall e e', e ∈ entries profile -> e' ∈ entries profile ->
    lg_sensor e = true -> lg_sensor e' = false ->
    (exists k, binds topology k e /\ binds topology k e') <->
    exists identity, first_of true identity (entries profile) = Some e /\
                     first_of false identity (entries profile) = Some e' }.

Lemma first_of_exists s log n e :
  log !! n = Some e -> lg_sensor e = s -> exists x, first_of s (entry_identity e) log = Some x.
Proof.
  intros Hn Hs. destruct (first_of s (entry_identity e) log) as [x|] eqn:E; [by exists x|].
  by destruct (first_of_none s (entry_identity e) log n e E Hn Hs).
Qed.

Section Final.
Context (Plain : string -> Prop) (log : list Entry) (transports : list PhysicalTransportKey)
  (devices : list DeviceBinding) (ids : gmap string nat).
Hypothesis inv : DevicesInv Plain log transports devices ids.

Lemma bound_of_role k d n e :
  devices !! k = Some d -> log !! n = Some e -> role (lg_sensor e) d = Some (lg_index e) -> bound log n e d.
Proof.
  intros Hk Hn Hr. destruct (di_origin _ _ _ _ _ inv k d _ _ Hk Hr) as (n' & x & Hs & Hi & Hb).
  assert (n' = n) as -> by (by eapply (di_fresh _ _ _ _ _ inv); [apply Hb|exact Hn|..]).
  by replace e with x by (destruct Hb; congruence).
Qed.

(** A binding of two directions belongs to the first devices of its identity. *)
Lemma paired_first k d n m e e' :
  devices !! k = Some d -> bound log n e d -> bound log m e' d -> lg_sensor e <> lg_sensor e' ->
  first_of (lg_sensor e) (entry_identity e) log = Some e.
Proof.
  intros Hk He He' Hne.
  destruct (first_of_exists (lg_sensor e) log n e (proj1 He) eq_refl) as [x Hx]. rewrite Hx. f_equal.
  pose proof (di_plain _ _ _ _ _ inv n e (proj1 He)) as Hpl.
  pose proof (di_paired _ _ _ _ _ inv k d n m e e' Hk He He' Hne) as Hid.
  destruct (di_first _ _ _ _ _ inv _ _ x Hpl Hx) as (k' & d' & n' & Hk' & Hd' & Hb).
  replace k' with k in * by congruence. replace d' with d in * by congruence.
  apply first_of_some in Hx as (Hs & _ & _). destruct He as (Hn & Hr & _), Hb as (Hn' & Hr' & _).
  rewrite Hs, Hr in Hr'. injection Hr' as Hi.
  assert (n' = n) as -> by (by eapply (di_fresh _ _ _ _ _ inv); [exact Hn'|exact Hn|..]). congruence.
Qed.

Lemma first_paired identity e e' n :
  log !! n = Some e ->
  first_of true identity log = Some e -> first_of false identity log = Some e' ->
  exists k d n' m, devices !! k = Some d /\ bound log n' e d /\ bound log m e' d.
Proof.
  intros Hn He He'. apply first_of_some in He as Hx. destruct Hx as (_ & <- & _).
  pose proof (di_plain _ _ _ _ _ inv n e Hn) as Hpl.
  destruct (di_first _ _ _ _ _ inv _ _ e Hpl He) as (k & d & n1 & Hk & Hd & Hb).
  destruct (di_first _ _ _ _ _ inv _ _ e' Hpl He') as (k' & d' & n2 & Hk' & Hd' & Hb').
  exists k, d, n1, n2. split; [done|]. split; [done|].
  replace k' with k in * by congruence. by replace d with d' by congruence.
Qed.
End Final.

Lemma compiled_of_inv Plain (profile : RobotProfile) b :
  Inv Plain (entries profile) b -> Compiled profile (bd_topology b).
Proof.
  intros [[Hnd _ _ Hused] Hd]. constructor; [done|done| | |].
  - intros n e Hn. destruct (di_total _ _ _ _ _ Hd n e Hn) as (k & d & Hk & Hb). exists k, d.
    split; [done|]. do 2 (split; [apply Hb|]). intros k' (d' & Hk' & Hr').
    eapply (di_unique _ _ _ _ _ Hd); [exact Hk'|exact Hk|exact Hr'|apply Hb].
  - intros k d Hk. destruct (di_transport _ _ _ _ _ Hd k d Hk) as (n & e & key & Hb & He & Hl).
    exists e, key. split; [eapply list_elem_of_lookup_2; apply Hb|]. by split; [apply Hb|].
  - intros e e' He He' Hs Hs'. apply list_elem_of_lookup in He as [n Hn], He' as [m Hm]. split.
    + intros (k & (d & Hk & Hr) & (d' & Hk' & Hr')). replace d' with d in * by congruence.
      pose proof (bound_of_role _ _ _ _ _ Hd k d n e Hk Hn Hr) as Hb.
      pose proof (bound_of_role _ _ _ _ _ Hd k d m e' Hk Hm Hr') as Hb'.
      exists (entry_identity e). rewrite <- Hs, <- Hs'. split.
      * apply (paired_first _ _ _ _ _ Hd k d n m e e' Hk Hb Hb'). congruence.
      * rewrite (di_identity _ _ _ _ _ Hd k d n m e e' Hk Hb Hb').
        apply (paired_first _ _ _ _ _ Hd k d m n e' e Hk Hb' Hb). congruence.
    + intros (identity & H1 & H2).
      destruct (first_paired _ _ _ _ _ Hd identity e e' n Hn H1 H2) as (k & d & n1 & n2 & Hk & Hb & Hb').
      exists k. split; exists d; (split; [done|]); [apply Hb|apply Hb'].
Qed.

(** C33. The compiled topology is the one the profile describes, provided types, paths and motor
    ids have no line breaks.  Its transports are those of the devices, each once; every sensor and
    every actuator has exactly one binding, and its slot there is the number of devices before it
    on its own transport, sensors first; every binding has a device, and the transport it names is
    that of its sensor, or of its actuator if it has no sensor; and a sensor and an actuator share
    a binding exactly when they are the first sensor and the first actuator of one physical
    identity (type, path and motor id).  An identity does not name the transport, so an actuator
    can share the binding of a sensor on another transport; its slot still counts on its own
    (TopologyExamples.merged_across_transports). *)
Theorem topology_correct (profile : RobotProfile) (topology : CompiledTopology) :
  Forall single_line_device (rp_sensors profile ++ rp_actuators profile) ->
  compile_physical_topology profile = success topology ->
  Compiled profile topology.
Proof.
  intros Hl Hc.
  set (Plain := fun x => exists d, d ∈ (rp_sensors profile ++ rp_actuators profile)%list /\ x = physical_identity d).
  destruct (compile_inv Plain) with (profile := profile) (topology := topology) as (b & <- & Hinv); [|..|exact Hc|].
  - intros identity suffix index _ (d & Hd & ->) (d' & Hd' & E).
    rewrite Forall_forall in Hl. symmetry in E. by eapply unique_identity_apart; [apply Hl|symmetry].
  - apply Forall_forall. intros d Hd. by exists d.
  - by eapply compiled_of_inv.
Qed.

(** ** A robot on two buses *)

Module TopologyExamples.

Definition motor (name path id transport : string) : DeviceConfig :=
  mkDevice name (mkLink "damiao_motor" path) [("motor_id", id); ("transport", transport)].

Definition robot : RobotProfile :=
  mkRobotProfile
    [motor "s1" "can0" "1" "socketcan"; motor "s2" "can0" "2" "socketcan"; motor "s3" "/dev//ttyACM0" "1" "usb_can"]
    [motor "a2" "can0" "2" "socketcan"; motor "a1" "can0" "1" "socketcan"; motor "a3" "/dev//ttyACM0" "1" "usb_can"]
    [] [] [] DdsConfig_default.

Definition robot_topology : CompiledTopology :=
  mkTopology [mkPhysicalTransportKey socketcan "can0"; mkPhysicalTransportKey usb_can "/dev/ttyACM0"]
    [mkBinding (Some 0) (Some 1) 0 0 3; mkBinding (Some 1) (Some 0) 0 1 2; mkBinding (Some 2) (Some 2) 1 0 1]%nat.

Example robot_compiles : compile_physical_topology robot = success robot_topology.
Proof. by vm_compute. Qed.

Lemma topology_correct_witness : Compiled robot robot_topology.
Proof.
  apply (topology_correct robot robot_topology); [|by vm_compute].
  repeat constructor; try (by vm_compute; set_solver);
    intros m; vm_compute; intros [= <-]; vm_compute; set_solver.
Defined.

(** The identity does not name the transport: a sensor and an actuator of one path and motor id on
    different kinds of transport share a binding, whose transmit slot counts on the actuator's
    transport while its transport index is the sensor's. *)
Example merged_across_transports :
  ct_devices <$> compile_physical_topology
    (mkRobotProfile [motor "s" "can0" "1" "socketcan"]
       [motor "b" "can0" "2" "socketcan"; motor "a" "can0" "1" "usb_can"] [] [] [] DdsConfig_default) =
  success [mkBinding (Some 0) (Some 1) 0 0 0; mkBinding None (Some 0) 0 1 1]%nat.
Proof. by vm_compute. Qed.

End TopologyExamples.

End Topology.
