(* ===== verification/Numbers.v ===== *)
(** * Numbers in text

    The number parsers of [profiles/loader.cpp], over the functions of the standard library they
    use: [std::from_chars] for unsigned integers and [std::strtod], which rounds the exact value to
    the nearest double (ties to even), both on a text that has to be consumed to its end. *)
From S2P Require Export Text.

Open Scope string_scope.
Open Scope Z_scope.

(** ** [std::from_chars] *)

Definition hex_value (c : ascii) : option Z :=
  if is_digit c then Some (digit_value c)
  else let n := Z.of_N (N_of_ascii (to_lower c)) in
       if (97 <=? n) && (n <=? 102) then Some (n - 87) else None.

(** The value of a digit in base 10 or 16. *)
Definition digit_in (hexadecimal : bool) (c : ascii) : option Z :=
  if hexadecimal then hex_value c else if is_digit c then Some (digit_value c) else None.

Definition base_of (hexadecimal : bool) : Z := if hexadecimal then 16 else 10.

Fixpoint read_digits (hexadecimal : bool) (acc : Z) (s : string) : option Z :=
  match s with
  | EmptyString => Some acc
  | String c s =>
      match digit_in hexadecimal c with
      | Some d => read_digits hexadecimal (acc * base_of hexadecimal + d) s
      | None => None
      end
  end.

(** The value of a text that is a 64-bit number to its end. *)
Definition from_chars (hexadecimal : bool) (s : string) : option Z :=
  match s with
  | EmptyString => None
  | _ => v ← read_digits hexadecimal 0 s; if v <=? uint64_max then Some v else None
  end.

(** ** [trim] *)

Definition trim (s : string) : string := drop_trailing (drop_spaces s).

(** [parse_unsigned<UInt>], where [maximum] is the largest value of the type. *)
Definition parse_unsigned (maximum : Z) (input : string) : option Z :=
  let value := trim input in
  match value with
  | EmptyString => None
  | String c rest =>
      if Ascii.eqb c "-" then None
      else
        let '(hexadecimal, digits) :=
          match value with
          | String "0" (String x ((String _ _) as digits)) =>
              if Ascii.eqb x "x" || Ascii.eqb x "X" then (true, digits) else (false, value)
          | _ => (false, value)
          end in
        parsed ← from_chars hexadecimal digits;
        if parsed <=? maximum then Some parsed else None
  end.

(** ** [std::strtod] on a whole text *)

(** The digits at the front, and the rest. *)
Fixpoint take_digits (hexadecimal : bool) (s : string) : list Z * string :=
  match s with
  | EmptyString => ([], s)
  | String c rest =>
      match digit_in hexadecimal c with
      | Some d => let '(ds, s') := take_digits hexadecimal rest in (d :: ds, s')
      | None => ([], s)
      end
  end.

Definition digits_value (base : Z) (ds : list Z) : Z := fold_left (fun acc d => acc * base + d) ds 0.

(** A sign, when there is one. *)
Definition take_sign (s : string) : bool * string :=
  match s with
  | String "-" s => (true, s)
  | String "+" s => (false, s)
  | _ => (false, s)
  end.

(** The exponent that ends a number: nothing, or the mark, a sign and digits. *)
Definition read_exponent (mark : ascii) (s : string) : option Z :=
  match s with
  | EmptyString => Some 0
  | String c s =>
      if Ascii.eqb (to_lower c) mark then
        let '(negative, s) := take_sign s in
        match take_digits false s with
        | (d :: ds, EmptyString) =>
            Some (if negative then - digits_value 10 (d :: ds) else digits_value 10 (d :: ds))
        | _ => None
        end
      else None
  end.

(** The double nearest to [m * 10^e]. *)
Definition decimal_double (negative : bool) (m e : Z) : double :=
  match m with
  | Z.pos p =>
      if 0 <=? e then binary_round 53 1024 negative (Z.to_pos (m * 10 ^ e)) 0
      else let '(q, e', l) := SFdiv_core_binary 53 1024 m 0 (10 ^ (- e)) 0 in
           binary_round_aux 53 1024 negative q e' l
  | _ => S754_zero negative
  end.

Definition hexadecimal_double (negative : bool) (m e : Z) : double :=
  match m with
  | Z.pos p => binary_round 53 1024 negative p e
  | _ => S754_zero negative
  end.

(** Digits with an optional point and an exponent. *)
Definition read_number (hexadecimal negative : bool) (s : string) : option double :=
  let '(ip, s) := take_digits hexadecimal s in
  let '(fp, s) := match s with String "." s' => take_digits hexadecimal s' | _ => ([], s) end in
  match (ip ++ fp)%list with
  | [] => None
  | _ =>
      let m := digits_value (base_of hexadecimal) (ip ++ fp) in
      let shift := Z.of_nat (length fp) in
      if hexadecimal
      then e ← read_exponent "p" s; Some (hexadecimal_double negative m (e - 4 * shift))
      else e ← read_exponent "e" s; Some (decimal_double negative m (e - shift))
  end.

Fixpoint lower_text (s : string) : string :=
  match s with EmptyString => EmptyString | String c s => String (to_lower c) (lower_text s) end.

(** [nan(n-char-sequence)]. *)
Fixpoint nan_payload (s : string) : bool :=
  match s with
  | String ")" EmptyString => true
  | String c s =>
      (is_digit c || is_lower c || is_upper c || Ascii.eqb c "_") && nan_payload s
  | EmptyString => false
  end.

Definition strtod_all (s : string) : option double :=
  let '(negative, s) := take_sign s in
  let l := lower_text s in
  if String.eqb l "inf" || String.eqb l "infinity" then Some (S754_infinity negative)
  else if String.eqb l "nan" then Some S754_nan
  else match l with
       | String "n" (String "a" (String "n" (String "(" payload))) =>
           if nan_payload payload then Some S754_nan else None
       | String "0" (String "x" digits) => read_number true negative digits
       | _ => read_number false negative s
       end.

(** ** The parsers of the loader *)

Definition parse_double (input : string) : option double :=
  match trim input with
  | EmptyString => None
  | value => result ← strtod_all value; if isfinite result then Some result else None
  end.

(** Drop the underscores that stand between two digits; any other is refused. *)
Fixpoint drop_underscores (previous_digit : bool) (s : string) : option string :=
  match s with
  | EmptyString => Some EmptyString
  | String c rest =>
      if Ascii.eqb c "_" then
        match rest with
        | String next _ => if previous_digit && is_digit next then drop_underscores false rest else None
        | EmptyString => None
        end
      else rest ← drop_underscores (is_digit c) rest; Some (String c rest)
  end.

Definition parse_pydantic_double_string (input : string) : option double :=
  match trim input with
  | EmptyString => None
  | value => normalized ← drop_underscores false value; strtod_all normalized
  end.

Definition coerce_pydantic_double (value : Json) : option double :=
  match value with
  | JBoolean b => Some (if b then double_of_int 1 else double_of_int 0)
  | JInteger z | JUnsigned z => Some (double_of_int z)
  | JFloat d => Some d
  | JString s => parse_pydantic_double_string s
  | _ => None
  end.

Definition bit_of_integer (z : Z) : option bool :=
  if (z =? 0) || (z =? 1) then Some (z =? 1) else None.

Definition coerce_pydantic_bool (value : Json) : option bool :=
  match value with
  | JBoolean b => Some b
  | JInteger z | JUnsigned z => bit_of_integer z
  | JFloat d =>
      if (d =? double_of_int 0)%fp || (d =? double_of_int 1)%fp then Some (d =? double_of_int 1)%fp else None
  | JString s =>
      let text := lower_text s in
      if existsb (String.eqb text) ["1"; "true"; "t"; "yes"; "y"; "on"] then Some true
      else if existsb (String.eqb text) ["0"; "false"; "f"; "no"; "n"; "off"] then Some false
      else None
  | _ => None
  end.

(** The state of the loop of [parse_pydantic_unsigned_integer_string]. *)
Record IntegerScan := mkScan {
  is_result : Z; is_saw_digit : bool; is_decimal : bool; is_saw_fraction : bool }.

(** One character; [previous] is the one before it, absent at the start of the text. *)
Definition scan_character (s : IntegerScan) (previous : option ascii) (c : ascii) (next : string)
    : option IntegerScan :=
  if Ascii.eqb c "_" then
    match previous, next with
    | Some p, String n _ => if is_digit p && is_digit n then Some s else None
    | _, _ => None
    end
  else if Ascii.eqb c "." then
    if is_decimal s || negb (is_saw_digit s) then None
    else Some (mkScan (is_result s) (is_saw_digit s) true (is_saw_fraction s))
  else if negb (is_digit c) then None
  else
    let digit := digit_value c in
    if is_decimal s then
      if digit =? 0 then Some (mkScan (is_result s) true true true) else None
    else if (uint64_max - digit) / 10 <? is_result s then None
    else Some (mkScan (is_result s * 10 + digit) true (is_decimal s) (is_saw_fraction s)).

Fixpoint scan_integer (s : IntegerScan) (previous : option ascii) (text : string) : option IntegerScan :=
  match text with
  | EmptyString => Some s
  | String c rest => s ← scan_character s previous c rest; scan_integer s (Some c) rest
  end.

Definition parse_pydantic_unsigned_integer_string (input : string) : option Z :=
  let text := trim input in
  let '(negative, previous, digits) :=
    match text with
    | String "-" rest => (true, Some "-"%char, rest)
    | String "+" rest => (false, Some "+"%char, rest)
    | _ => (false, None, text)
    end in
  match digits with
  | EmptyString => None
  | _ =>
      s ← scan_integer (mkScan 0 false false false) previous digits;
      if negb (is_saw_digit s) || (is_decimal s && negb (is_saw_fraction s)) ||
         (negative && negb (is_result s =? 0))
      then None else Some (is_result s)
  end.

(** [std::trunc(number) == number] of a finite number. *)
Definition is_integral (d : spec_float) : bool :=
  match d with
  | S754_zero _ => true
  | S754_finite _ m e => (0 <=? e) || (Z.pos m mod 2 ^ (- e) =? 0)
  | _ => false
  end.

Definition coerce_pydantic_positive_integer (value : Json) : option Z :=
  match value with
  | JBoolean b => Some (if b then 1 else 0)
  | JUnsigned z => Some z
  | JInteger z => if 0 <=? z then Some z else None
  | JFloat d =>
      let number := to_long_double d in
      if negb (isfinite number) || (number <? fzero)%fp ||
         (S754_finite false 9223372036854775808 1 <=? number)%fp || negb (is_integral number)
      then None else Some (trunc_int number)
  | JString s => parse_pydantic_unsigned_integer_string s
  | _ => None
  end.

(** ** Examples *)

Example parse_numbers :
  map (parse_unsigned uint16_max) [" 65535 "; "0x1F"; "65536"; "-1"; "0x"; "+3"; "12a"; "00"] =
  [Some 65535; Some 31; None; None; None; None; None; Some 0].
Proof. by vm_compute. Qed.

Example parse_doubles :
  map parse_double ["0.1"; "1e-3"; "0x1.8p1"; " 3 "; "1e400"; "nan"; "1_0"; "."; "-0"] =
  [Some (S754_finite false 7205759403792794 (-56)); Some (S754_finite false 4611686018427388 (-62));
   Some (S754_finite false 6755399441055744 (-51)); Some (S754_finite false 6755399441055744 (-51));
   None; None; None; None; Some (S754_zero true)].
Proof. by vm_compute. Qed.

(** ** Unsigned integers *)

(** The digits of a text, when it has nothing else. *)
Definition digits_of (hexadecimal : bool) (s : string) : option (list Z) :=
  mapM (digit_in hexadecimal) (chars s).

Lemma read_digits_spec hexadecimal s acc :
  read_digits hexadecimal acc s =
  (fun ds => fold_left (fun acc d => acc * base_of hexadecimal + d) ds acc) <$> digits_of hexadecimal s.
Proof.
  unfold digits_of. revert acc. induction s as [|c s IH]; intros acc; [done|]. cbn.
  destruct (digit_in hexadecimal c) as [d|]; [|done]. cbn. rewrite IH.
  by destruct (mapM _ (chars s)).
Qed.

Lemma digit_in_bound hexadecimal c d : digit_in hexadecimal c = Some d -> 0 <= d < base_of hexadecimal.
Proof.
  destruct hexadecimal, c as [[] [] [] [] [] [] [] []]; intros H; vm_compute in H;
    first [discriminate H | injection H as <-; cbn; lia].
Qed.

Lemma digits_value_nonneg hexadecimal ds acc :
  Forall (fun d => 0 <= d) ds -> 0 <= acc ->
  0 <= fold_left (fun acc d => acc * base_of hexadecimal + d) ds acc.
Proof.
  intros Hd. revert acc. induction Hd as [|d ds Hd Hds IH]; intros acc Ha; [done|]. cbn. apply IH.
  destruct hexadecimal; cbn; lia.
Qed.

Lemma digits_of_nonneg hexadecimal s ds : digits_of hexadecimal s = Some ds -> Forall (fun d => 0 <= d) ds.
Proof.
  intros H%mapM_Some. eapply Forall2_Forall_r; [exact H|]. apply Forall_forall. intros c _ d Hd.
  apply digit_in_bound in Hd. lia.
Qed.

(** A text writes a number in decimal, or in hexadecimal after [0x]. *)
Definition number_text (value : string) (hexadecimal : bool) (digits : string) : Prop :=
  if hexadecimal then value = "0x" ++ digits \/ value = "0X" ++ digits else value = digits.

Lemma from_chars_spec hexadecimal s n :
  from_chars hexadecimal s = Some n <->
  s <> "" /\ n <= uint64_max /\
  exists ds, digits_of hexadecimal s = Some ds /\ n = digits_value (base_of hexadecimal) ds.
Proof.
  unfold from_chars, digits_value. destruct s as [|c s]; [naive_solver|].
  rewrite read_digits_spec. destruct (digits_of hexadecimal (String c s)) as [ds|]; cbn; [|naive_solver].
  destruct (Z.leb_spec (fold_left (fun acc d => acc * base_of hexadecimal + d) ds 0) uint64_max); split.
  - intros [= <-]. eauto.
  - intros (_ & _ & ds' & [= <-] & ->). done.
  - done.
  - intros (_ & Hn & ds' & [= <-] & ->). lia.
Qed.

(** The split of the text into a prefix and digits. *)
Definition split_number (value : string) : bool * string :=
  match value with
  | String "0" (String x ((String _ _) as digits)) =>
      if Ascii.eqb x "x" || Ascii.eqb x "X" then (true, digits) else (false, value)
  | _ => (false, value)
  end.

Lemma split_number_hex value digits :
  split_number value = (true, digits) <-> (value = "0x" ++ digits \/ value = "0X" ++ digits) /\ digits <> "".
Proof.
  split.
  - unfold split_number. intros H. repeat case_match; simplify_eq/=.
    match goal with H : (_ || _) = true |- _ => apply orb_true_iff in H as [?%Ascii.eqb_eq|?%Ascii.eqb_eq] end;
      subst; split; auto; done.
  - intros [[-> | ->] Hd]; by destruct digits.
Qed.

Lemma split_number_decimal value digits : split_number value = (false, digits) -> digits = value.
Proof. unfold split_number. intros H. by repeat case_match; simplify_eq/=. Qed.

Lemma digits_of_prefix x digits : (x = "x"%char \/ x = "X"%char) -> digits_of false (String "0" (String x digits)) = None.
Proof. by intros [-> | ->]. Qed.

Lemma parse_unsigned_split maximum input :
  parse_unsigned maximum input =
  match trim input with
  | EmptyString => None
  | String c _ =>
      if Ascii.eqb c "-" then None
      else parsed ← from_chars (split_number (trim input)).1 (split_number (trim input)).2;
           if parsed <=? maximum then Some parsed else None
  end.
Proof.
  unfold parse_unsigned, split_number. destruct (trim input) as [|c rest]; [done|].
  destruct (Ascii.eqb c "-"); [done|]. by repeat case_match; simplify_eq/=.
Qed.

Lemma parse_unsigned_spec maximum input n :
  maximum <= uint64_max ->
  parse_unsigned maximum input = Some n <->
  n <= maximum /\
  exists hexadecimal digits ds, number_text (trim input) hexadecimal digits /\ digits <> "" /\
    digits_of hexadecimal digits = Some ds /\ n = digits_value (base_of hexadecimal) ds.
Proof.
  intros Hm. rewrite parse_unsigned_split. set (value := trim input). clearbody value. clear input.
  destruct (split_number value) as [h digits] eqn:E. cbn [fst snd]. split.
  - intros H. destruct value as [|c rest]; [done|]. destruct (Ascii.eqb c "-"); [done|].
    destruct (from_chars h digits) as [v|] eqn:Ev; [|done]. cbn in H.
    destruct (Z.leb_spec v maximum); [|done]. injection H as <-. split; [done|].
    apply from_chars_spec in Ev as (Hd & _ & ds & Hds & ->). exists h, digits, ds.
    split; [|done]. destruct h; [by apply split_number_hex in E as [? _]|by apply split_number_decimal in E].
  - intros (Hn & h' & digits' & ds & Ht & Hne & Hds & Hv).
    assert (h = h' /\ digits = digits') as [-> ->].
    { destruct h'; cbn in Ht.
      - assert (split_number value = (true, digits')) as Hs by (by apply split_number_hex).
        by rewrite E in Hs; injection Hs.
      - subst value. destruct h; [|by apply split_number_decimal in E].
        apply split_number_hex in E as [[-> | ->] _];
          [change ("0x" ++ digits) with (String "0" (String "x" digits)) in Hds|
           change ("0X" ++ digits) with (String "0" (String "X" digits)) in Hds];
          by rewrite digits_of_prefix in Hds by auto. }
    assert (from_chars h' digits' = Some n) as ->.
    { apply from_chars_spec. split; [done|]. split; [lia|]. eauto. }
    cbn. apply Z.leb_le in Hn as ->.
    destruct value as [|c rest]; [destruct h'; cbn in Ht; [by destruct Ht|by subst]|].
    destruct (Ascii.eqb_spec c "-") as [->|]; [|done]. exfalso.
    destruct h'; cbn in Ht; [by destruct Ht|]. by subst digits'.
Qed.

(** *** Reading back a printed number *)

Lemma pretty_char_value x : (x < 10)%N -> digit_in false (pretty_N_char x) = Some (Z.of_N x).
Proof.
  intros Hx. assert (x = 0 \/ x = 1 \/ x = 2 \/ x = 3 \/ x = 4 \/ x = 5 \/ x = 6 \/ x = 7 \/ x = 8 \/ x = 9)%N
    as Hc by lia.
  by repeat (destruct Hc as [-> |Hc]; [done|]); subst x.
Qed.

Lemma read_pretty_go x s : read_digits false 0 (pretty_N_go x s) = read_digits false (Z.of_N x) s.
Proof.
  revert s. induction (N.lt_wf_0 x) as [x _ IH]; intros s.
  destruct (decide (x = 0)%N) as [->|Hx]; [done|].
  rewrite pretty_N_go_step by lia. rewrite IH by (apply N.div_lt; lia). cbn [read_digits].
  rewrite pretty_char_value by (apply N.mod_lt; lia). f_equal. cbn [base_of].
  rewrite (N.div_mod x 10) at 3 by done. lia.
Qed.

Lemma read_to_string n : 0 <= n -> read_digits false 0 (to_string n) = Some n.
Proof.
  intros Hn. unfold to_string, pretty, pretty_N. destruct (decide (Z.to_N n = 0)%N).
  - replace n with 0 by lia. done.
  - rewrite read_pretty_go, Z2N.id by lia. done.
Qed.

Lemma digit_not_space c : is_digit c = true -> is_space c = false.
Proof. by destruct c as [[] [] [] [] [] [] [] []]. Qed.

Lemma trim_digits s : Forall (fun c => is_digit c = true) (chars s) -> trim s = s.
Proof.
  intros Hs. unfold trim. assert (drop_spaces s = s) as ->.
  { destruct s as [|c s]; [done|]. cbn. apply Forall_cons in Hs as [Hc _].
    by rewrite (digit_not_space c Hc). }
  induction s as [|c s IH]; [done|]. apply Forall_cons in Hs as [Hc Hs]. cbn.
  rewrite (digit_not_space c Hc). cbn. by rewrite IH.
Qed.

Lemma to_string_not_empty n : to_string n <> "".
Proof.
  unfold to_string, pretty, pretty_N. destruct (decide _) as [|Hn]; [done|].
  assert (forall x s, (x <> 0)%N -> exists c r, pretty_N_go x s = String c r) as H.
  { intros x. induction (N.lt_wf_0 x) as [x _ IH]; intros s Hx. rewrite pretty_N_go_step by lia.
    destruct (decide (x `div` 10 = 0)%N) as [->|Hd]; [rewrite pretty_N_go_0; eauto|].
    apply IH; [apply N.div_lt; lia|done]. }
  destruct (H (Z.to_N n) "" Hn) as (c & r & ->). done.
Qed.

Lemma parse_unsigned_to_string maximum n :
  maximum <= uint64_max -> 0 <= n <= maximum -> parse_unsigned maximum (to_string n) = Some n.
Proof.
  intros Hm Hn. pose proof (read_to_string n (proj1 Hn)) as Hr. rewrite read_digits_spec in Hr.
  destruct (digits_of false (to_string n)) as [ds|] eqn:Hd; [|done]. injection Hr as Hr.
  apply parse_unsigned_spec; [done|]. split; [lia|]. exists false, (to_string n), ds.
  split; [cbn; apply trim_digits, to_string_digits|]. split; [apply to_string_not_empty|].
  split; [done|]. by rewrite <- Hr.
Qed.

(** Unsigned numbers are read exactly or refused: [parse_unsigned] answers [n] exactly when
    the trimmed text writes [n] in decimal, or in hexadecimal after [0x] or [0X], and [n] fits the
    target type; nothing wraps, no sign and no other character is accepted.  In particular the
    decimal text of every number of the type is read back. *)
Theorem parse_unsigned_exact (maximum : Z) (input : string) (n : Z) :
  maximum <= uint64_max ->
  (parse_unsigned maximum input = Some n <->
   n <= maximum /\
   exists hexadecimal digits ds, number_text (trim input) hexadecimal digits /\ digits <> "" /\
     digits_of hexadecimal digits = Some ds /\ n = digits_value (base_of hexadecimal) ds) /\
  (0 <= n <= maximum -> parse_unsigned maximum (to_string n) = Some n).
Proof. split; [by apply parse_unsigned_spec|by apply parse_unsigned_to_string]. Qed.

Lemma parse_unsigned_exact_witness :
  (parse_unsigned 65535 " 0x1F " = Some 31) /\ parse_unsigned 65535 (to_string 31) = Some 31.
Proof.
  split; [by vm_compute|]. apply (parse_unsigned_exact 65535 "" 31); [vm_compute; congruence|].
  split; vm_compute; congruence.
Defined.
