(* ===== verification/RobotLoader.v ===== *)
(** * Loading a robot profile

    The robot half of [profiles/loader.cpp]: the device lists, the derivation of the CiA 402 axes,
    the ST3215 servos and the Damiao motors from pairs of a sensor and an actuator, the DDS section,
    and [load_robot_profile].  The JSON parser is outside: a document is what it made of the file;
    its number printer ([dump]) is a parameter. *)
From S2P Require Export Topics Numbers.

Open Scope string_scope.
Open Scope Z_scope.

(** ** Parsers with the error text they pass along

    The functions of the loader return a value or nothing and write the reason into a string they
    are given; a caller may go on after a failure, and the last reason written is the one reported. *)
Definition Parse (A : Type) : Type := string -> string * option A.

#[export] Instance Parse_ret : MRet Parse := fun A a error => (error, Some a).
#[export] Instance Parse_bind : MBind Parse := fun A B f m error =>
  match m error with (error, Some a) => f a error | (error, None) => (error, None) end.

Definition refuse {A} (message : string) : Parse A := fun _ => (message, None).

(** Nothing, without a reason. *)
Definition lift {A} (o : option A) : Parse A := fun error => (error, o).

(** The caller goes on. *)
Definition attempt {A} (m : Parse A) : Parse (option A) := fun error =>
  let '(error, a) := m error in (error, Some a).

Definition check (b : bool) (message : string) : Parse unit := if b then mret tt else refuse message.

(** [if (error.empty()) error = message;] on a failure. *)
Definition or_message {A} (message : string) (m : Parse A) : Parse A := fun error =>
  match m error with
  | (error, None) => (if String.eqb error "" then message else error, None)
  | r => r
  end.

Definition run_parse {A} (m : Parse A) : Result A :=
  match m "" with
  | (_, Some a) => success a
  | (error, None) => fail invalid_argument error
  end.

Fixpoint fold_parse {A S} (f : S -> A -> Parse S) (s : S) (l : list A) : Parse S :=
  match l with
  | [] => mret s
  | a :: l => s ← f s a; fold_parse f s l
  end.

(** ** JSON *)

Module LoaderJson.

Fixpoint only_keys (object : Entries) (allowed : list string) (section : string) : Parse unit :=
  match object with
  | [] => mret tt
  | (key, _) :: object =>
      if existsb (String.eqb key) allowed then only_keys object allowed section
      else refuse (section ++ " contains unknown key: " ++ key)
  end.

Definition required_string (object : Entries) (key section : string) (non_empty : bool) : Parse string :=
  match member object key with
  | Some (JString result) =>
      if non_empty && is_blank result then refuse (section ++ "." ++ key ++ " must be non-empty")
      else mret result
  | _ => refuse (section ++ " requires string " ++ key)
  end.

Definition quote : string := "'".
Definition backslash : ascii := ascii_of_N 92.

Fixpoint python_escape (value : string) : string :=
  match value with
  | EmptyString => EmptyString
  | String c rest =>
      (if Ascii.eqb c backslash || Ascii.eqb c "'" then String backslash (String c EmptyString)
       else if Ascii.eqb c (ascii_of_N 10) then String backslash "n"
       else if Ascii.eqb c (ascii_of_N 13) then String backslash "r"
       else if Ascii.eqb c (ascii_of_N 9) then String backslash "t"
       else String c EmptyString) ++ python_escape rest
  end.

Definition python_string_repr (value : string) : string := quote ++ python_escape value ++ quote.

Section Dump.
Context (dump : Json -> string).

Fixpoint python_repr (value : Json) : string :=
  match value with
  | JString s => python_string_repr s
  | JBoolean b => if b then "True" else "False"
  | JNull => "None"
  | JInteger _ | JUnsigned _ | JFloat _ | JBinary _ => dump value
  | JArray items =>
      "[" ++ (fix items_repr (l : list Json) : string :=
                match l with
                | [] => ""
                | [v] => python_repr v
                | v :: l => python_repr v ++ ", " ++ items_repr l
                end) items ++ "]"
  | JObject object =>
      "{" ++ (fix entries_repr (l : Entries) : string :=
                match l with
                | [] => ""
                | [(k, v)] => python_string_repr k ++ ": " ++ python_repr v
                | (k, v) :: l => python_string_repr k ++ ": " ++ python_repr v ++ ", " ++ entries_repr l
                end) object ++ "}"
  end.

Definition python_value_string (value : Json) : string :=
  match value with JString s => s | _ => python_repr value end.

Definition required_robot_string (object : Entries) (key section : string) : Parse string :=
  let missing := refuse (section ++ " is missing " ++ key) in
  match member object key with
  | None => missing
  | Some value =>
      let normalized := trim (python_value_string value) in
      if String.eqb normalized "" then missing else mret normalized
  end.

Definition json_arg_value (value : Json) : string :=
  match value with
  | JString s => s
  | JBoolean b => if b then "true" else "false"
  | JNull => "None"
  | _ => dump value
  end.

(** The arguments of a device, as texts. *)
Definition device_args (args : option Json) (message : string) : Parse (StringMap string) :=
  match args with
  | None | Some JNull => mret []
  | Some (JObject args) =>
      mret (fold_left (fun m e => map_emplace m e.1 (json_arg_value e.2)) args [])
  | Some _ => refuse message
  end.

Definition parse_device (singular : string) (value : Json) : Parse DeviceConfig :=
  match value with
  | JObject value =>
      name ← required_robot_string value "name" singular;
      match member value "device" with
      | Some (JObject device) =>
          type ← attempt (required_robot_string device "type" "device");
          path ← attempt (required_robot_string device "path" "device");
          match type, path with
          | Some type, Some path =>
              args ← device_args (member value "args") (singular ++ "." ++ name ++ ".args must be an object");
              mret (mkDevice name (mkLink type path) args)
          | _, _ => lift None
          end
      | _ => refuse (singular ++ "." ++ name ++ ".device must be an object")
      end
  | _ => refuse (singular ++ " entry must be an object")
  end.

Definition parse_device_list (root : Entries) (plural singular : string) : Parse (list DeviceConfig) :=
  match member root plural with
  | None => mret []
  | Some (JArray values) =>
      fold_parse (fun output value => device ← parse_device singular value; mret (output ++ [device])%list)
        [] values
  | Some _ => refuse (plural ++ " must be an array")
  end.
End Dump.

End LoaderJson.

(** ** Arguments *)

Module LoaderArgs.

Definition arg (config : DeviceConfig) (key : string) : Parse string :=
  match dev_arg config key with
  | None => refuse (dev_name config ++ ".args requires " ++ key)
  | Some text => mret text
  end.

Definition optional_arg (config : DeviceConfig) (key : string) : option string := dev_arg config key.

(** All of some arguments; every one is looked up, the last one missing is reported. *)
Fixpoint all_args (config : DeviceConfig) (keys : list string) : Parse (list string) :=
  match keys with
  | [] => mret []
  | key :: keys =>
      text ← attempt (arg config key);
      texts ← attempt (all_args config keys);
      lift (text ← text; texts ← texts; Some (text :: texts))
  end.

(** [unsigned_arg<T>], where [maximum] is the largest value of the type. *)
Definition unsigned_arg (maximum : Z) (config : DeviceConfig) (key : string) (default_value : Z) : Parse Z :=
  match optional_arg config key with
  | None => mret default_value
  | Some text =>
      match parse_unsigned maximum text with
      | Some parsed => mret parsed
      | None => refuse (dev_name config ++ ".args." ++ key ++ " must be an unsigned integer")
      end
  end.

(** [static_cast<std::int64_t>] of a double.  Out of range the conversion is undefined; the model
    takes the value the x86-64 instruction gives. *)
Definition to_int64 (d : double) : Z :=
  let t := trunc_int d in if (int64_min <=? t) && (t <=? int64_max) then t else int64_min.

Definition thousand : double := double_of_int 1000.

(** The longest duration the check lets through. *)
Definition maximum_seconds : double := ddiv (double_of_int int64_max) thousand.

Definition milliseconds_from_seconds_arg (config : DeviceConfig) (key : string) (default_value : Z) : Parse Z :=
  match optional_arg config key with
  | None => mret default_value
  | Some text =>
      let invalid := refuse (dev_name config ++ ".args." ++ key ++ " must be a non-negative finite duration") in
      match parse_double text with
      | None => invalid
      | Some seconds =>
          if (seconds <? fzero)%fp || (maximum_seconds <? seconds)%fp then invalid
          else
            let milliseconds := to_int64 (dmul seconds thousand) in
            if (fzero <? seconds)%fp && (milliseconds <=? 0)
            then refuse (dev_name config ++ ".args." ++ key ++ " is below one millisecond")
            else mret milliseconds
      end
  end.

Definition required_double_arg (config : DeviceConfig) (key : string) : Parse double :=
  text ← arg config key;
  match parse_double text with
  | Some value =>
      if (value <=? fzero)%fp then refuse (dev_name config ++ ".args." ++ key ++ " must be a positive finite number")
      else mret value
  | None => refuse (dev_name config ++ ".args." ++ key ++ " must be a positive finite number")
  end.

End LoaderArgs.

(** ** Pairs of a sensor and an actuator

    [derive_axes], [derive_st3215] and [derive_damiao_motors] run the same loop on the devices of
    their type; they differ in how a device is parsed, what identifies it, when the two sides
    agree, what the second side adds, and their messages. *)

Record Derivation (P X : Type) := mkDerivation {
  dr_type : string;
  dr_parse : DeviceConfig -> bool -> Parse P;
  dr_enter : X -> P -> Parse X;            (* the checks before the identity *)
  dr_identity : DeviceConfig -> P -> string;
  dr_consistent : P -> P -> bool;
  dr_merge : bool -> P -> P -> P;
  dr_duplicate : string;
  dr_inconsistent : string;
  dr_limit : nat;
  dr_too_many : string;
  dr_unpaired : string }.
Arguments mkDerivation {P X}.
Arguments dr_type {P X}.
Arguments dr_parse {P X}.
Arguments dr_enter {P X}.
Arguments dr_identity {P X}.
Arguments dr_consistent {P X}.
Arguments dr_merge {P X}.
Arguments dr_duplicate {P X}.
Arguments dr_inconsistent {P X}.
Arguments dr_limit {P X}.
Arguments dr_too_many {P X}.
Arguments dr_unpaired {P X}.

Module Pairing.
Section Pairing.
Context {P X : Type} (D : Derivation P X).

Record Derived := mkDerived { dv_profile : P; dv_sensor : bool; dv_actuator : bool }.

Record State := mkState {
  st_extra : X;
  st_indices : gmap string nat;
  st_derived : list Derived }.

(** The local function [add]. *)
Definition add (sensor : bool) (s : State) (device : DeviceConfig) : Parse State :=
  if negb (String.eqb (dev_type device) (dr_type D)) then mret s
  else
    parsed ← dr_parse D device sensor;
    x ← dr_enter D (st_extra s) parsed;
    let identity := dr_identity D device parsed in
    match st_indices s !! identity with
    | None =>
        mret (mkState x (<[identity := length (st_derived s)]> (st_indices s))
                (st_derived s ++ [mkDerived parsed sensor (negb sensor)])%list)
    | Some index =>
        match st_derived s !! index with
        | None => lift None
        | Some existing =>
            if (sensor && dv_sensor existing) || (negb sensor && dv_actuator existing)
            then refuse (dr_duplicate D ++ dev_path device)
            else if negb (dr_consistent D (dv_profile existing) parsed)
            then refuse (dr_inconsistent D ++ dev_path device)
            else mret (mkState x (st_indices s)
                         (<[index := mkDerived (dr_merge D sensor (dv_profile existing) parsed)
                                       (dv_sensor existing || sensor) (dv_actuator existing || negb sensor)]>
                            (st_derived s)))
        end
    end.

Definition complete (d : Derived) : bool := dv_sensor d && dv_actuator d.

Definition derive (x : X) (sensors actuators : list DeviceConfig) : Parse (list P) :=
  s ← fold_parse (add true) (mkState x ∅ []) sensors;
  s ← fold_parse (add false) s actuators;
  if (dr_limit D <? length (st_derived s))%nat then refuse (dr_too_many D)
  else if forallb complete (st_derived s) then mret (map dv_profile (st_derived s))
  else refuse (dr_unpaired D).
End Pairing.
End Pairing.

(** ** CiA 402 axes *)

Module LoaderAxes.
Import LoaderArgs.

(** Keys that would switch the mode at run time. *)
Definition switches_mode (key : string) : bool :=
  String.eqb key "runtime_mode" || contains_text "mode_switch" key || contains_text "runtime_switch" key.

Definition axis_keys : list string :=
  ["alias"; "position"; "vendor_id"; "product_code"; "revision"; "mode"; "scale"; "minimum"; "maximum";
   "slew_limit"; "following_error_limit"; "command_timeout_ms"; "safety_group"].

Definition axis_mode (text : string) : option Cia402Mode :=
  if String.eqb text "csp" then Some csp
  else if String.eqb text "csv" then Some csv
  else if String.eqb text "cst" then Some cst
  else None.

Definition parse_axis (config : DeviceConfig) : Parse AxisConfig :=
  check (negb (existsb (fun e => switches_mode e.1) (dev_args config)))
    (dev_name config ++ ".args must not configure runtime mode switching") ≫= fun _ =>
  texts ← all_args config axis_keys;
  match texts with
  | [alias_text; position_text; vendor_text; product_text; revision_text; mode_text; scale_text;
     minimum_text; maximum_text; slew_text; following_error_text; timeout_text; safety_group] =>
      match parse_unsigned uint16_max alias_text, parse_unsigned uint16_max position_text,
            parse_unsigned uint32_max vendor_text, parse_unsigned uint32_max product_text,
            parse_unsigned uint32_max revision_text, parse_unsigned uint64_max timeout_text,
            parse_double scale_text, parse_double minimum_text, parse_double maximum_text,
            parse_double slew_text, parse_double following_error_text with
      | Some alias, Some position, Some vendor, Some product, Some revision, Some timeout_ms,
        Some scale, Some minimum, Some maximum, Some slew_limit, Some following_error_limit =>
          if int64_max <? timeout_ms
          then refuse (dev_name config ++ ".args contains an invalid numeric value")
          else
            match axis_mode mode_text with
            | None => refuse (dev_name config ++ ".args.mode must be csp, csv, or cst")
            | Some mode =>
                if (scale <=? fzero)%fp || (maximum <? minimum)%fp || (slew_limit <=? fzero)%fp ||
                   (following_error_limit <=? fzero)%fp
                then refuse (dev_name config ++
                             ".args requires positive scale/safety limits and minimum <= maximum")
                else if (timeout_ms =? 0) || is_blank safety_group
                then refuse (dev_name config ++ ".args requires positive timeout and non-empty safety_group")
                else mret (mkAxisConfig (dev_name config) alias position vendor product revision mode scale
                             minimum maximum timeout_ms safety_group slew_limit following_error_limit)
            end
      | _, _, _, _, _, _, _, _, _, _, _ =>
          refuse (dev_name config ++ ".args contains an invalid numeric value")
      end
  | _ => lift None
  end.

Definition same_static_config (left right : AxisConfig) : bool :=
  (ax_alias left =? ax_alias right) && (ax_position left =? ax_position right) &&
  (ax_vendor_id left =? ax_vendor_id right) && (ax_product_code left =? ax_product_code right) &&
  (ax_revision left =? ax_revision right) && bool_decide (ax_mode left = ax_mode right) &&
  (ax_scale left =? ax_scale right)%fp && (ax_minimum left =? ax_minimum right)%fp &&
  (ax_maximum left =? ax_maximum right)%fp &&
  (ax_command_timeout_ms left =? ax_command_timeout_ms right) &&
  String.eqb (ax_safety_group left) (ax_safety_group right) &&
  (ax_slew_limit left =? ax_slew_limit right)%fp &&
  (ax_following_error_limit left =? ax_following_error_limit right)%fp.

Definition axis_identity (device : DeviceConfig) (axis : AxisConfig) : string :=
  dev_path device ++ newline ++ to_string (ax_alias axis) ++ newline ++ to_string (ax_position axis).

Definition rename_axis (axis : AxisConfig) (name : string) : AxisConfig :=
  mkAxisConfig name (ax_alias axis) (ax_position axis) (ax_vendor_id axis) (ax_product_code axis)
    (ax_revision axis) (ax_mode axis) (ax_scale axis) (ax_minimum axis) (ax_maximum axis)
    (ax_command_timeout_ms axis) (ax_safety_group axis) (ax_slew_limit axis) (ax_following_error_limit axis).

Definition axes_derivation : Derivation AxisConfig unit := {|
  dr_type := "cia402";
  dr_parse := fun device _ => parse_axis device;
  dr_enter := fun x _ => mret x;
  dr_identity := axis_identity;
  dr_consistent := same_static_config;
  dr_merge := fun sensor existing parsed => if sensor then rename_axis existing (ax_name parsed) else existing;
  dr_duplicate := "duplicate cia402 physical link: ";
  dr_inconsistent := "inconsistent cia402 static configuration for: ";
  dr_limit := 12;
  dr_too_many := "robot profile supports at most 12 cia402 axes";
  dr_unpaired := "cia402 physical link requires one sensor and one actuator" |}.

Definition derive_axes (sensors actuators : list DeviceConfig) : Parse (list AxisConfig) :=
  Pairing.derive axes_derivation tt sensors actuators.

End LoaderAxes.

(** ** ST3215 servos *)

Module LoaderServos.
Import LoaderArgs.

Definition st3215_identity_arg (config : DeviceConfig) (primary fallback : string) : Parse Z :=
  match (match optional_arg config primary with Some text => Some text | None => optional_arg config fallback end) with
  | None => refuse (dev_name config ++ ".args requires " ++ primary)
  | Some text =>
      match parse_unsigned uint16_max text with
      | Some value => mret value
      | None => refuse (dev_name config ++ ".args." ++ primary ++ " must be an unsigned integer")
      end
  end.

(** The numbers of the second half of the arguments, all of them read. *)
Record ServoArgs := mkServoArgs {
  sa_baud_rate : option Z;
  sa_read_buffer : option Z;
  sa_maximum_frame : option Z;
  sa_max_position : option Z;
  sa_speed : option Z;
  sa_time : option Z;
  sa_feedback_timeout : option Z;
  sa_command_timeout : option Z;
  sa_maximum_command_future : option Z;
  sa_service_period : option Z;
  sa_read_timeout : option Z;
  sa_write_timeout : option Z }.

Definition timeout_key (config : DeviceConfig) : string :=
  match optional_arg config "timeout_s", optional_arg config "timeout" with
  | None, Some _ => "timeout"
  | _, _ => "timeout_s"
  end.

Definition servo_args (config : DeviceConfig) (baud_text : string) : Parse ServoArgs :=
  let baud_rate := parse_unsigned uint32_max baud_text in
  read_buffer ← attempt (unsigned_arg uint64_max config "read_buffer_len" 256);
  maximum_frame ← attempt (unsigned_arg uint64_max config "maximum_frame_size" 259);
  max_position ← attempt (unsigned_arg uint16_max config "max_position_units" 4095);
  speed ← attempt (unsigned_arg uint16_max config "speed_units" 0);
  time ← attempt (unsigned_arg uint16_max config "time_units" 0);
  feedback_timeout ← attempt (unsigned_arg uint64_max config "feedback_timeout_ms" 250);
  command_timeout ← attempt (unsigned_arg uint64_max config "command_timeout_ms" 250);
  maximum_command_future ← attempt (unsigned_arg uint64_max config "maximum_command_future_ms" 50);
  service_period ← attempt (unsigned_arg uint64_max config "service_period_us" 1000);
  read_timeout ← attempt (milliseconds_from_seconds_arg config (timeout_key config) 0);
  write_timeout ← (match optional_arg config "write_timeout_s" with
                   | Some _ => attempt (milliseconds_from_seconds_arg config "write_timeout_s" 0)
                   | None => mret read_timeout
                   end);
  mret (mkServoArgs baud_rate read_buffer maximum_frame max_position speed time feedback_timeout
          command_timeout maximum_command_future service_period read_timeout write_timeout).

Definition servo_safety_group (config : DeviceConfig) : string :=
  match optional_arg config "safety_group" with
  | Some group => if is_blank group then dev_path config else group
  | None => dev_path config
  end.

Definition parse_st3215 (config : DeviceConfig) (sensor : bool) : Parse St3215ServoProfile :=
  baud_text ← attempt (arg config "baud_rate");
  device_id ← attempt (st3215_identity_arg config "device_id" "servo_id");
  servo_id ← attempt (st3215_identity_arg config "servo_id" "device_id");
  match baud_text, device_id, servo_id with
  | Some baud_text, Some device_id, Some servo_id =>
      args ← servo_args config baud_text;
      match args with
      | mkServoArgs (Some baud_rate) (Some read_buffer) (Some maximum_frame) (Some max_position) (Some speed)
          (Some time) (Some feedback_timeout) (Some command_timeout) (Some maximum_command_future)
          (Some service_period) (Some read_timeout) (Some write_timeout) =>
          if (baud_rate =? 0) || (253 <? device_id) || (max_position =? 0) ||
             (read_buffer =? 0) || (4096 <? read_buffer) || (maximum_frame <? 6) ||
             (259 <? maximum_frame) || (feedback_timeout =? 0) ||
             (command_timeout =? 0) || (1000 <? command_timeout) ||
             (1000 <? maximum_command_future) ||
             (int64_max / 1000000 <? feedback_timeout) ||
             (service_period =? 0) || (1000000 <? service_period)
          then refuse (dev_name config ++ ".args contains unsafe ST3215 limits")
          else
            mret (mkServoProfile (if sensor then dev_name config else "") (if sensor then "" else dev_name config)
                    (mkSerialPort (dev_path config) baud_rate (Z.to_nat read_buffer) (Z.to_nat maximum_frame)
                       read_timeout write_timeout (service_period * 1000))
                    device_id servo_id max_position speed time feedback_timeout
                    (servo_safety_group config) command_timeout maximum_command_future)
      | _ => or_message (dev_name config ++ ".args contains invalid ST3215 configuration") (lift None)
      end
  | _, _, _ => lift None
  end.

Definition same_serial (left right : SerialPortConfig) : bool :=
  String.eqb (sp_path left) (sp_path right) && (sp_baud_rate left =? sp_baud_rate right) &&
  Nat.eqb (sp_read_buffer_size left) (sp_read_buffer_size right) &&
  Nat.eqb (sp_maximum_frame_size left) (sp_maximum_frame_size right) &&
  (sp_read_timeout_ms left =? sp_read_timeout_ms right) &&
  (sp_write_timeout_ms left =? sp_write_timeout_ms right) &&
  (sp_service_period_ns left =? sp_service_period_ns right).

Definition same_st3215_physical_config (left right : St3215ServoProfile) : bool :=
  same_serial (pf_serial left) (pf_serial right) &&
  (pf_device_id left =? pf_device_id right) && (pf_servo_id left =? pf_servo_id right) &&
  (pf_max_position_units left =? pf_max_position_units right) &&
  (pf_feedback_timeout_ms left =? pf_feedback_timeout_ms right) &&
  (pf_command_timeout_ms left =? pf_command_timeout_ms right) &&
  (pf_maximum_command_future_ms left =? pf_maximum_command_future_ms right) &&
  String.eqb (pf_safety_group left) (pf_safety_group right).

Definition servo_identity (device : DeviceConfig) (servo : St3215ServoProfile) : string :=
  sp_path (pf_serial servo) ++ newline ++ to_string (pf_device_id servo).

(** The first configuration of a bus is the one the others have to agree with. *)
Definition enter_bus (buses : gmap string SerialPortConfig) (servo : St3215ServoProfile)
    : Parse (gmap string SerialPortConfig) :=
  let serial := pf_serial servo in
  match buses !! sp_path serial with
  | None => mret (<[sp_path serial := serial]> buses)
  | Some bus =>
      if same_serial bus serial then mret buses
      else refuse ("inconsistent serial configuration for: " ++ sp_path serial)
  end.

Definition merge_servo (sensor : bool) (physical parsed : St3215ServoProfile) : St3215ServoProfile :=
  mkServoProfile
    (if sensor then pf_sensor_name parsed else pf_sensor_name physical)
    (if sensor then pf_actuator_name physical else pf_actuator_name parsed)
    (pf_serial physical) (pf_device_id physical) (pf_servo_id physical) (pf_max_position_units physical)
    (if sensor then pf_speed_units physical else pf_speed_units parsed)
    (if sensor then pf_time_units physical else pf_time_units parsed)
    (pf_feedback_timeout_ms physical) (pf_safety_group physical) (pf_command_timeout_ms physical)
    (pf_maximum_command_future_ms physical).

Definition servos_derivation : Derivation St3215ServoProfile (gmap string SerialPortConfig) := {|
  dr_type := "st3215";
  dr_parse := parse_st3215;
  dr_enter := enter_bus;
  dr_identity := servo_identity;
  dr_consistent := same_st3215_physical_config;
  dr_merge := merge_servo;
  dr_duplicate := "duplicate ST3215 physical link: ";
  dr_inconsistent := "inconsistent ST3215 static configuration for: ";
  dr_limit := 32;
  dr_too_many := "robot profile supports at most 32 ST3215 servos";
  dr_unpaired := "ST3215 physical link requires one sensor and one actuator" |}.

Definition derive_st3215 (sensors actuators : list DeviceConfig) : Parse (list St3215ServoProfile) :=
  Pairing.derive servos_derivation ∅ sensors actuators.

End LoaderServos.

(** ** Damiao motors *)

Module LoaderMotors.
Import LoaderArgs.

Abbreviation to_float := (convert 24 128).

Definition parse_damiao_motor (config : DeviceConfig) (sensor : bool) : Parse DamiaoMotorProfile :=
  check (match optional_arg config "mode" with Some mode => String.eqb mode "mit" | None => true end)
    (dev_name config ++ ".args.mode must be 'mit'") ≫= fun _ =>
  transport ← (match optional_arg config "transport" with
               | None => mret socketcan
               | Some text =>
                   if String.eqb text "socketcan" then mret socketcan
                   else if String.eqb text "virtual_serial" then mret virtual_serial
                   else refuse (dev_name config ++ ".args.transport must be 'socketcan' or 'virtual_serial'")
               end);
  motor_id ← attempt (unsigned_arg uint16_max config "motor_id" 0);
  match motor_id with
  | Some motor_id =>
      if (motor_id =? 0) || (15 <? motor_id)
      then refuse (dev_name config ++ ".args.motor_id must be within 1..15")
      else
        position_max ← attempt (required_double_arg config "position_max");
        velocity_max ← attempt (required_double_arg config "velocity_max");
        torque_max ← attempt (required_double_arg config "torque_max");
        match position_max, velocity_max, torque_max with
        | Some position_max, Some velocity_max, Some torque_max =>
            feedback_timeout ← attempt (milliseconds_from_seconds_arg config "feedback_timeout" 100);
            match feedback_timeout with
            | Some feedback_timeout =>
                if feedback_timeout <=? 0
                then refuse (dev_name config ++ ".args.feedback_timeout must be positive")
                else mret (mkMotorProfile (if sensor then dev_name config else "")
                             (if sensor then "" else dev_name config) (dev_path config) transport motor_id
                             (mkLimits (to_float position_max) (to_float velocity_max) (to_float torque_max))
                             feedback_timeout (default "" (optional_arg config "safety_group")))
            | None => refuse (dev_name config ++ ".args.feedback_timeout must be positive")
            end
        | _, _, _ => lift None
        end
  | None => refuse (dev_name config ++ ".args.motor_id must be within 1..15")
  end.

Definition motor_identity (device : DeviceConfig) (motor : DamiaoMotorProfile) : string :=
  mp_path motor ++ newline ++ to_string (mp_motor_id motor).

Definition same_motor (physical parsed : DamiaoMotorProfile) : bool :=
  bool_decide (mp_transport parsed = mp_transport physical) &&
  (dl_position_max (mp_limits parsed) =? dl_position_max (mp_limits physical))%fp &&
  (dl_velocity_max (mp_limits parsed) =? dl_velocity_max (mp_limits physical))%fp &&
  (dl_torque_max (mp_limits parsed) =? dl_torque_max (mp_limits physical))%fp &&
  (mp_feedback_timeout_ms parsed =? mp_feedback_timeout_ms physical).

Definition merge_motor (sensor : bool) (physical parsed : DamiaoMotorProfile) : DamiaoMotorProfile :=
  mkMotorProfile
    (if sensor then mp_sensor_name parsed else mp_sensor_name physical)
    (if sensor then mp_actuator_name physical else mp_actuator_name parsed)
    (mp_path physical) (mp_transport physical) (mp_motor_id physical) (mp_limits physical)
    (mp_feedback_timeout_ms physical) (mp_safety_group physical).

Definition motors_derivation : Derivation DamiaoMotorProfile unit := {|
  dr_type := "damiao_motor";
  dr_parse := parse_damiao_motor;
  dr_enter := fun x _ => mret x;
  dr_identity := motor_identity;
  dr_consistent := same_motor;
  dr_merge := merge_motor;
  dr_duplicate := "duplicate damiao_motor physical link: ";
  dr_inconsistent := "inconsistent damiao_motor static configuration for: ";
  dr_limit := 32;
  dr_too_many := "robot profile supports at most 32 damiao motors";
  dr_unpaired := "damiao_motor physical link requires one sensor and one actuator" |}.

Definition derive_damiao_motors (sensors actuators : list DeviceConfig) : Parse (list DamiaoMotorProfile) :=
  Pairing.derive motors_derivation tt sensors actuators.

End LoaderMotors.

(** ** The DDS section *)

Module LoaderDds.
Import LoaderJson.

Definition parse_domain_id (object : Entries) (key : string) (output : Z) (section : string) : Parse Z :=
  match member object key with
  | None => mret output
  | Some (JUnsigned parsed) =>
      if 232 <? parsed then refuse (section ++ "." ++ key ++ " must be in [0, 232]") else mret parsed
  | Some _ => refuse (section ++ "." ++ key ++ " must be an unsigned integer")
  end.

Definition supported_capacities : list Z := [16; 32; 64; 128; 256].

Definition parse_backend (dds_object : Entries) : Parse RobotIoBackend :=
  backend ← required_string dds_object "backend" "dds" true;
  if String.eqb backend "unix_shm" then mret unix_shm
  else if String.eqb backend "dds" then mret dds
  else refuse "dds.backend must be 'unix_shm' or 'dds'".

Definition parse_robot_id (dds_object : Entries) (backend : RobotIoBackend) : Parse string :=
  match backend with
  | unix_shm => mret ""
  | dds => robot_id ← required_string dds_object "robot_id" "dds" true; mret (trim robot_id)
  end.

Definition parse_cyclone_config (dds_object : Entries) (output : string) : Parse string :=
  match member dds_object "cyclone_config" with
  | None => mret output
  | Some (JString config) =>
      if is_blank config then refuse "dds.cyclone_config must be a nonempty string" else mret config
  | Some _ => refuse "dds.cyclone_config must be a nonempty string"
  end.

Definition parse_capacity (dds_object : Entries) (output : Z) : Parse Z :=
  match member dds_object "sensor_queue_capacity" with
  | None => mret output
  | Some (JUnsigned parsed) =>
      if bool_decide (parsed ∈ supported_capacities) then mret parsed
      else refuse "dds.sensor_queue_capacity must be one of 16, 32, 64, 128, or 256"
  | Some _ => refuse "dds.sensor_queue_capacity must be an unsigned integer"
  end.

(** One entry of [external.topics]; the topics read so far are the set and the list. *)
Definition add_topic (topics : list string) (topic : Json) : Parse (list string) :=
  match topic with
  | JString name =>
      if is_blank name then refuse "dds.external.topics entries must be nonempty strings"
      else if bool_decide (name ∈ topics) then refuse "dds.external.topics contains a duplicate"
      else mret (topics ++ [name])%list
  | _ => refuse "dds.external.topics entries must be nonempty strings"
  end.

Definition parse_external (external : Entries) (output : DdsExternalConfig) : Parse DdsExternalConfig :=
  enabled ← (match member external "enabled" with
             | None => mret (ext_enabled output)
             | Some (JBoolean enabled) => mret enabled
             | Some _ => refuse "dds.external.enabled must be a boolean"
             end);
  domain_id ← parse_domain_id external "domain_id" (ext_domain_id output) "dds.external";
  topics ← (match member external "topics" with
            | None => mret (ext_topics output)
            | Some (JArray topics) => fold_parse add_topic [] topics
            | Some _ => refuse "dds.external.topics must be an array"
            end);
  mret (mkDdsExternal enabled domain_id topics).

Definition dds_keys : list string :=
  ["backend"; "robot_id"; "local_domain_id"; "cyclone_config"; "sensor_queue_capacity"; "external"].

Definition parse_dds_config (root : Entries) (output : DdsConfig) : Parse DdsConfig :=
  match member root "dds" with
  | None => mret output
  | Some (JObject dds_object) =>
      or_message "dds must be an object" (only_keys dds_object dds_keys "dds") ≫= fun _ =>
      backend ← parse_backend dds_object;
      robot_id ← parse_robot_id dds_object backend;
      local_domain_id ← parse_domain_id dds_object "local_domain_id" (dds_local_domain_id output) "dds";
      cyclone_config ← parse_cyclone_config dds_object (dds_cyclone_config output);
      capacity ← parse_capacity dds_object (dds_sensor_queue_capacity output);
      match member dds_object "external" with
      | None => mret (mkDds backend robot_id local_domain_id cyclone_config capacity (dds_external output))
      | Some (JObject external) =>
          or_message "dds.external must be an object"
            (only_keys external ["enabled"; "domain_id"; "topics"] "dds.external") ≫= fun _ =>
          ext ← parse_external external (dds_external output);
          if ext_enabled ext && (ext_domain_id ext =? local_domain_id)
          then refuse "dds external and local domain IDs must differ"
          else mret (mkDds backend robot_id local_domain_id cyclone_config capacity ext)
      | Some _ => or_message "dds.external must be an object" (lift None)
      end
  | Some _ => or_message "dds must be an object" (lift None)
  end.

End LoaderDds.

(** ** [load_robot_profile] *)

(** What reading the file gave: [read_json]. *)
Inductive Document :=
  | unreadable
  | malformed
  | parsed (root : Json).

Module RobotLoader.
Import LoaderJson LoaderAxes LoaderServos LoaderMotors LoaderDds.

Definition read_json (path : string) (document : Document) : Result Json :=
  match document with
  | unreadable => fail io ("unable to read profile: " ++ path)
  | malformed => fail invalid_argument "invalid JSON profile"
  | parsed root => success root
  end.

(** The first name that occurs again. *)
Fixpoint first_duplicate (seen : gset string) (names : list string) : option string :=
  match names with
  | [] => None
  | name :: names => if decide (name ∈ seen) then Some name else first_duplicate ({[name]} ∪ seen) names
  end.

Definition publishable (d : Topics.DdsTopicDescriptor) : bool :=
  match Topics.td_kind d with Topics.state | Topics.health => true | _ => false end.

(** The external topics have to be state or health topics of the robot. *)
Definition check_topics (profile : RobotProfile) : Result unit :=
  match dds_backend (rp_dds profile) with
  | unix_shm => success tt
  | dds =>
      match Topics.build_dds_topic_registry profile (dds_robot_id (rp_dds profile)) with
      | failure error => fail invalid_argument (message error)
      | success registry =>
          let names := map Topics.td_topic_name (filter (fun d => publishable d = true) registry) in
          if forallb (fun topic => bool_decide (topic ∈ names)) (ext_topics (dds_external (rp_dds profile)))
          then success tt
          else fail invalid_argument "dds.external.topics may contain only configured sensor or health topics"
      end
  end.

Definition load_robot_profile (dump : Json -> string) (path : string) (document : Document) : Result RobotProfile :=
  root ← read_json path document;
  match root with
  | JObject root =>
      '(sensors, actuators) ← run_parse (
        sensors ← parse_device_list dump root "sensors" "sensor";
        actuators ← parse_device_list dump root "actuators" "actuator";
        mret (sensors, actuators));
      dds_config ← run_parse (parse_dds_config root DdsConfig_default);
      match first_duplicate ∅ (map dev_name sensors ++ map dev_name actuators) with
      | Some name => fail invalid_argument ("duplicate device name '" ++ name ++ "'")
      | None =>
          axes ← run_parse (derive_axes sensors actuators);
          servos ← run_parse (derive_st3215 sensors actuators);
          motors ← run_parse (derive_damiao_motors sensors actuators);
          let profile := mkRobotProfile sensors actuators axes servos motors dds_config in
          _ ← check_topics profile;
          success profile
      end
  | _ => fail invalid_argument "robot profile must be an object"
  end.

End RobotLoader.

(** ** Properties of the parsers *)

Lemma parse_bind_some {A B} (m : Parse A) (f : A -> Parse B) e e' b :
  (m ≫= f) e = (e', Some b) <-> exists e1 a, m e = (e1, Some a) /\ f a e1 = (e', Some b).
Proof.
  unfold mbind, Parse_bind. destruct (m e) as [e1 [a|]]; split.
  - intros H. by exists e1, a.
  - intros (e2 & a' & [= <- <-] & H). done.
  - done.
  - intros (e2 & a' & ? & _). done.
Qed.

Lemma parse_ret_some {A} (a b : A) (e e' : string) : (mret a : Parse A) e = (e', Some b) <-> e = e' /\ a = b.
Proof. unfold mret, Parse_ret. naive_solver. Qed.

Lemma attempt_some {A} (m : Parse A) e e' a : attempt m e = (e', Some a) <-> m e = (e', a).
Proof. unfold attempt. destruct (m e) as [e1 o]. naive_solver. Qed.

Lemma run_parse_success {A} (m : Parse A) a : run_parse m = success a <-> exists e, m "" = (e, Some a).
Proof.
  unfold run_parse, fail. destruct (m "") as [e [b|]].
  - split; [intros [= ->]; by exists e|intros (e' & [= -> ->]); done].
  - split; [done|intros (e' & [=])].
Qed.

(** Invert the equations of a parser that succeeded. *)
Ltac parse_inv :=
  repeat match goal with
  | H : (_ ≫= _) _ = (_, Some _) |- _ => apply (proj1 (parse_bind_some _ _ _ _ _)) in H as (? & ? & ? & H)
  | H : (mret _) _ = (_, Some _) |- _ => apply (proj1 (parse_ret_some _ _ _ _)) in H as [? ?]; subst
  | H : attempt _ _ = (_, Some _) |- _ => apply (proj1 (attempt_some _ _ _ _)) in H
  | H : refuse _ _ = (_, Some _) |- _ => discriminate H
  | H : lift None _ = (_, Some _) |- _ => discriminate H
  | H : (None : option _) = Some _ |- _ => discriminate H
  end.

Module PairingFacts.
Import Pairing.
Open Scope list_scope.
Section PairingFacts.
Context {P X : Type} (D : Derivation P X).
Context (J : X -> list P -> Prop).
Hypothesis J_enter : forall x x' p l e e', dr_enter D x p e = (e', Some x') -> J x l -> J x' (l ++ [p]).

(** A device of the type, with what it was parsed into. *)
Abbreviation Side := (DeviceConfig * P)%type.
Abbreviation Slot := (option Side * option Side)%type.

Definition of_type (d : DeviceConfig) : bool := String.eqb (dev_type d) (dr_type D).

Definition parses (sensor : bool) (s : Side) : Prop :=
  exists e e', dr_parse D s.1 sensor e = (e', Some s.2).

Definition identity_of (s : Side) : string := dr_identity D s.1 s.2.

(** What is known of a derived item. *)
Definition represents (s : Slot) (d : Derived) : Prop :=
  match s with
  | (Some a, None) => d = mkDerived a.2 true false
  | (None, Some b) => d = mkDerived b.2 false true
  | (Some a, Some b) =>
      d = mkDerived (dr_merge D false a.2 b.2) true true /\ dr_consistent D a.2 b.2 = true /\
      identity_of a = identity_of b
  | (None, None) => False
  end.

Definition slot_identity (s : Slot) : string :=
  match s with (Some a, _) | (None, Some a) => identity_of a | (None, None) => "" end.

Record PairInv (slots : list Slot) (sensors actuators : list Side) (s : State (P := P) (X := X)) : Prop := {
  pi_slots : Forall2 represents slots (st_derived s);
  pi_distinct : NoDup (slot_identity <$> slots);
  pi_indices : forall id k, st_indices s !! id = Some k <-> (slot_identity <$> slots) !! k = Some id;
  pi_sensors : omap fst slots = sensors;
  pi_actuators : omap snd slots ≡ₚ actuators;
  pi_parsed : Forall (parses true) sensors /\ Forall (parses false) actuators;
  pi_extra : J (st_extra s) (map snd sensors ++ map snd actuators) }.

(** A device of another type changes nothing; one of the type is parsed, and is new or joins. *)
Lemma add_some sensor s d e e' s' :
  add D sensor s d e = (e', Some s') ->
  (of_type d = false /\ s' = s) \/
  (of_type d = true /\ exists p x,
     parses sensor (d, p) /\ (forall l, J (st_extra s) l -> J x (l ++ [p])) /\
     ((st_indices s !! identity_of (d, p) = None /\
       s' = mkState x (<[identity_of (d, p) := length (st_derived s)]> (st_indices s))
              (st_derived s ++ [mkDerived p sensor (negb sensor)])%list) \/
      (exists k existing, st_indices s !! identity_of (d, p) = Some k /\
        st_derived s !! k = Some existing /\
        (if sensor then dv_sensor existing else dv_actuator existing) = false /\
        dr_consistent D (dv_profile existing) p = true /\
        s' = mkState x (st_indices s)
               (<[k := mkDerived (dr_merge D sensor (dv_profile existing) p)
                         (dv_sensor existing || sensor) (dv_actuator existing || negb sensor)]>
                  (st_derived s))))).
Proof.
  unfold add, of_type. destruct (String.eqb (dev_type d) (dr_type D)); cbn [negb].
  - intros H. right. split; [done|]. parse_inv. rename x into e1, x0 into p, x1 into e2, x2 into x.
    exists p, x. split; [by exists e, e1|]. split; [intros l; by eapply J_enter|].
    change (dr_identity D d p) with (identity_of (d, p)) in H.
    destruct (st_indices s !! identity_of (d, p)) as [k|] eqn:Ek.
    + right. exists k. destruct (st_derived s !! k) as [existing|]; [|done]. exists existing.
      split; [done|]. split; [done|].
      destruct ((sensor && dv_sensor existing) || (negb sensor && dv_actuator existing)) eqn:Eb; [done|].
      destruct (dr_consistent D (dv_profile existing) p); [|done]. cbn in H. parse_inv.
      split; [|done]. apply orb_false_iff in Eb as [? ?]. by destruct sensor.
    + left. parse_inv. done.
  - intros H. left. parse_inv. done.
Qed.

Lemma push_slot slots slot (s s' : State (P := P) (X := X)) d :
  Forall2 represents slots (st_derived s) -> NoDup (slot_identity <$> slots) ->
  (forall id k, st_indices s !! id = Some k <-> (slot_identity <$> slots) !! k = Some id) ->
  represents slot d -> st_indices s !! slot_identity slot = None ->
  st_derived s' = (st_derived s ++ [d])%list ->
  st_indices s' = <[slot_identity slot := length (st_derived s)]> (st_indices s) ->
  Forall2 represents (slots ++ [slot]) (st_derived s') /\
  NoDup (slot_identity <$> slots ++ [slot]) /\
  (forall id k, st_indices s' !! id = Some k <-> (slot_identity <$> slots ++ [slot]) !! k = Some id).
Proof.
  intros Hs Hn Hi Hr Hnone -> ->. apply Forall2_length in Hs as Hlen.
  assert (slot_identity slot ∉ slot_identity <$> slots) as Hnew.
  { intros [k Hk]%list_elem_of_lookup_1. apply Hi in Hk. congruence. }
  split; [by apply Forall2_app; [|constructor]|]. rewrite fmap_app. cbn. split.
  - apply NoDup_app. split; [done|]. split; [set_solver|apply NoDup_singleton].
  - intros id k. destruct (decide (id = slot_identity slot)) as [->|Hne].
    + rewrite lookup_insert_eq. split.
      * intros [= <-]. rewrite lookup_app_r, length_fmap, Hlen, Nat.sub_diag by (rewrite length_fmap; lia). done.
      * intros [Hl|[Hle Hl]]%lookup_app_Some.
        -- by destruct Hnew; eapply list_elem_of_lookup_2.
        -- apply list_lookup_singleton_Some in Hl as [Hz _]. rewrite length_fmap in *. f_equal. lia.
    + rewrite lookup_insert_ne, Hi by done. split; [by apply lookup_app_l_Some|].
      intros [Hl|[_ [_ Hl]%list_lookup_singleton_Some]]%lookup_app_Some; congruence.
Qed.

Lemma omap_insert_fst {A B} (slots : list (option A * option B)) k a o o' :
  slots !! k = Some (a, o) -> omap fst (<[k := (a, o')]> slots) = omap fst slots.
Proof.
  intros Hk. rewrite <- (take_drop_middle slots k (a, o) Hk) at 2.
  rewrite insert_take_drop by (by eapply lookup_lt_Some). by rewrite !omap_app.
Qed.

Lemma omap_insert_snd {A B} (slots : list (option A * option B)) k a b :
  slots !! k = Some (a, None) -> omap snd (<[k := (a, Some b)]> slots) ≡ₚ omap snd slots ++ [b].
Proof.
  intros Hk. rewrite <- (take_drop_middle slots k (a, None) Hk) at 2.
  rewrite insert_take_drop by (by eapply lookup_lt_Some). rewrite !omap_app. cbn.
  rewrite <- app_assoc. apply Permutation_app_head, Permutation_cons_append.
Qed.

Lemma add_sensor_inv slots sensors s d e e' s' :
  PairInv slots sensors [] s -> (forall x, x ∈ slots -> x.2 = None) ->
  add D true s d e = (e', Some s') ->
  exists slots' new, PairInv slots' (sensors ++ new) [] s' /\ (forall x, x ∈ slots' -> x.2 = None) /\
    map fst new = if of_type d then [d] else [].
Proof.
  intros [Hs Hn Hi Hse Hac [Hp1 Hp2] Hj] Hall Ha.
  apply add_some in Ha as [(-> & ->)|(-> & p & x & Hpar & Hx & [(Hnone & ->)|(k & existing & Hk & Hex & Hf & _)])].
  - exists slots, []. rewrite app_nil_r. split; [by constructor|done].
  - exists (slots ++ [(Some (d, p), None)]), [(d, p)].
    destruct (push_slot slots (Some (d, p), None) s
      (mkState x (<[identity_of (d, p) := length (st_derived s)]> (st_indices s))
         (st_derived s ++ [mkDerived p true false])) _ Hs Hn Hi eq_refl Hnone eq_refl eq_refl) as (H1 & H2 & H3).
    split; [|split; [|done]].
    + constructor; [done|done|done| | | |].
      * rewrite omap_app, Hse. done.
      * rewrite omap_app. cbn. by rewrite app_nil_r.
      * split; [|done]. apply Forall_app. split; [done|by constructor].
      * rewrite map_app. cbn. rewrite app_nil_r in *. by apply Hx.
    + intros y [Hy| ->%list_elem_of_singleton]%elem_of_app; [by apply Hall|done].
  - apply Hi in Hk. rewrite list_lookup_fmap in Hk.
    destruct (slots !! k) as [slot|] eqn:Esl; [|done].
    pose proof (Forall2_lookup_lr _ _ _ _ _ _ Hs Esl Hex) as Hrep.
    pose proof (Hall slot (list_elem_of_lookup_2 _ _ _ Esl)) as Hno.
    destruct slot as [[a|] o]; cbn in Hno; subst o; cbn in Hrep; [by subst existing|done].
Qed.

Lemma add_actuator_inv slots sensors actuators s d e e' s' :
  PairInv slots sensors actuators s -> add D false s d e = (e', Some s') ->
  exists slots' new, PairInv slots' sensors (actuators ++ new) s' /\
    map fst new = if of_type d then [d] else [].
Proof.
  intros [Hs Hn Hi Hse Hac [Hp1 Hp2] Hj] Ha.
  apply add_some in Ha as [(-> & ->)|(-> & p & x & Hpar & Hx &
    [(Hnone & ->)|(k & existing & Hk & Hex & Hf & Hc & ->)])].
  - exists slots, []. rewrite app_nil_r. split; [by constructor|done].
  - exists (slots ++ [(None, Some (d, p))]), [(d, p)].
    destruct (push_slot slots (None, Some (d, p)) s
      (mkState x (<[identity_of (d, p) := length (st_derived s)]> (st_indices s))
         (st_derived s ++ [mkDerived p false true])) _ Hs Hn Hi eq_refl Hnone eq_refl eq_refl) as (H1 & H2 & H3).
    split; [|done]. constructor; [done|done|done| | | |].
    + rewrite omap_app, Hse. cbn. by rewrite app_nil_r.
    + rewrite omap_app. cbn. by rewrite Hac.
    + split; [done|]. apply Forall_app. split; [done|by constructor].
    + rewrite map_app, app_assoc. by apply Hx.
  - apply Hi in Hk as Hid. rewrite list_lookup_fmap in Hid.
    destruct (slots !! k) as [slot|] eqn:Esl; [|done]. injection Hid as Hid.
    pose proof (Forall2_lookup_lr _ _ _ _ _ _ Hs Esl Hex) as Hrep.
    destruct slot as [[a|] [b|]]; cbn in Hrep; [by destruct Hrep as (-> & _)| |by subst existing|done].
    subst existing. cbn in *.
    assert (slot_identity <$> <[k := (Some a, Some (d, p))]> slots = slot_identity <$> slots) as Heq.
    { rewrite list_fmap_insert. cbn. apply list_insert_id. rewrite list_lookup_fmap, Esl. done. }
    exists (<[k := (Some a, Some (d, p))]> slots), [(d, p)]. split; [|done].
    constructor; cbn; rewrite ?Heq; [|done|done| | | |].
    + apply Forall2_insert; [done|]. done.
    + rewrite <- Hse. by eapply omap_insert_fst.
    + rewrite <- Hac. by apply omap_insert_snd.
    + split; [done|]. apply Forall_app. split; [done|by constructor].
    + rewrite map_app, app_assoc. by apply Hx.
Qed.

Lemma sensors_inv devices : forall slots sensors s e e' s',
  PairInv slots sensors [] s -> (forall x, x ∈ slots -> x.2 = None) ->
  fold_parse (add D true) s devices e = (e', Some s') ->
  exists slots' new, PairInv slots' (sensors ++ new) [] s' /\ map fst new = filter (fun d => of_type d = true) devices.
Proof.
  induction devices as [|d devices IH]; intros slots sensors s e e' s' Hi Hall H; cbn [fold_parse] in H; parse_inv.
  - exists slots, []. by rewrite app_nil_r.
  - destruct (add_sensor_inv _ _ _ _ _ _ _ Hi Hall H0) as (slots1 & new & Hi1 & Hall1 & Hn).
    destruct (IH _ _ _ _ _ _ Hi1 Hall1 H) as (slots2 & new2 & Hi2 & Hn2).
    exists slots2, (new ++ new2). rewrite app_assoc. split; [done|].
    rewrite map_app, Hn, Hn2, filter_cons. by destruct (of_type d).
Qed.

Lemma actuators_inv devices : forall slots sensors actuators s e e' s',
  PairInv slots sensors actuators s -> fold_parse (add D false) s devices e = (e', Some s') ->
  exists slots' new, PairInv slots' sensors (actuators ++ new) s' /\ map fst new = filter (fun d => of_type d = true) devices.
Proof.
  induction devices as [|d devices IH]; intros slots sensors actuators s e e' s' Hi H; cbn [fold_parse] in H; parse_inv.
  - exists slots, []. by rewrite app_nil_r.
  - destruct (add_actuator_inv _ _ _ _ _ _ _ _ Hi H0) as (slots1 & new & Hi1 & Hn).
    destruct (IH _ _ _ _ _ _ _ Hi1 H) as (slots2 & new2 & Hi2 & Hn2).
    exists slots2, (new ++ new2). rewrite app_assoc. split; [done|].
    rewrite map_app, Hn, Hn2, filter_cons. by destruct (of_type d).
Qed.

(** The pairs behind the derived items. *)
Record Paired (sensors actuators : list DeviceConfig) (items : list P) (pairs : list (Side * Side)) : Prop := {
  pr_items : items = map (fun p => dr_merge D false p.1.2 p.2.2) pairs;
  pr_limit : (length items <= dr_limit D)%nat;
  pr_sensors : map (fun p => p.1.1) pairs = filter (fun d => of_type d = true) sensors;
  pr_actuators : map (fun p => p.2.1) pairs ≡ₚ filter (fun d => of_type d = true) actuators;
  pr_sides : Forall (fun p => parses true p.1 /\ parses false p.2 /\
                              identity_of p.1 = identity_of p.2 /\ dr_consistent D p.1.2 p.2.2 = true) pairs;
  pr_distinct : NoDup (map (fun p => identity_of p.1) pairs);
  pr_extra : exists x, J x (map (fun p => p.1.2) pairs ++ map (fun p => p.2.2) pairs) }.

Lemma complete_pairs slots derived :
  Forall2 represents slots derived -> forallb complete derived = true ->
  exists pairs, slots = map (fun p : Side * Side => (Some p.1, Some p.2)) pairs /\
    map dv_profile derived = map (fun p => dr_merge D false p.1.2 p.2.2) pairs /\
    Forall (fun p => identity_of p.1 = identity_of p.2 /\ dr_consistent D p.1.2 p.2.2 = true) pairs.
Proof.
  induction 1 as [|slot d slots derived Hr Hs IH]; cbn; intros Hc.
  - by exists [].
  - apply andb_true_iff in Hc as [Hd Hc]. destruct (IH Hc) as (pairs & -> & Hm & Hf).
    destruct slot as [[a|] [b|]]; cbn in Hr; [|by subst d..|done]. destruct Hr as (-> & Hcons & Hid).
    exists ((a, b) :: pairs). split; [done|]. split; [cbn; by rewrite Hm|]. by constructor.
Qed.

Hypothesis J_perm : forall x l l', l ≡ₚ l' -> J x l -> J x l'.

(** The derivation pairs every sensor of the type with one actuator. *)
Lemma derive_paired x sensors actuators e e' items :
  J x [] -> derive D x sensors actuators e = (e', Some items) ->
  exists pairs, Paired sensors actuators items pairs.
Proof.
  intros Hx H. unfold derive in H. parse_inv. rename x1 into s1, x3 into s2.
  destruct (sensors_inv sensors [] [] (mkState x ∅ []) e x0 s1) as (slots1 & sides & Hi1 & Hsides);
    [|by intros ? ?%elem_of_nil|done|].
  { constructor; cbn; try done; by constructor. }
  destruct (actuators_inv actuators _ _ _ _ _ _ _ Hi1 H1) as (slots2 & others & Hi2 & Hothers).
  destruct (dr_limit D <? length (st_derived s2))%nat eqn:El; [done|].
  destruct (forallb complete (st_derived s2)) eqn:Ec; [|done]. parse_inv.
  destruct Hi2 as [Hs Hn _ Hse Hac [Hp1 Hp2] Hj]. cbn in *.
  destruct (complete_pairs slots2 (st_derived s2) Hs Ec) as (pairs & -> & Hm & Hf).
  assert (omap fst (map (fun p : Side * Side => (Some p.1, Some p.2)) pairs) = map fst pairs) as E1
    by (clear; induction pairs as [|p pairs IH]; [done|]; cbn; by f_equal).
  assert (omap snd (map (fun p : Side * Side => (Some p.1, Some p.2)) pairs) = map snd pairs) as E2
    by (clear; induction pairs as [|p pairs IH]; [done|]; cbn; by f_equal).
  exists pairs. constructor.
  - done.
  - rewrite length_map. by apply Nat.ltb_ge in El.
  - rewrite <- Hsides, <- Hse, E1, !map_map. done.
  - rewrite <- Hothers, <- Hac, E2, map_map. done.
  - rewrite <- Hse, E1 in Hp1. rewrite <- Hac, E2 in Hp2.
    apply Forall_forall. intros p Hp. rewrite Forall_forall in Hp1. rewrite Forall_forall in Hp2.
    pose proof (proj1 (Forall_forall _ _) Hf p Hp) as [? ?].
    split; [exact (Hp1 p.1 (list_elem_of_fmap_2 fst pairs p Hp))|].
    split; [exact (Hp2 p.2 (list_elem_of_fmap_2 snd pairs p Hp))|done].
  - rewrite <- list_fmap_compose in Hn. exact Hn.
  - exists (st_extra s2). eapply J_perm; [|exact Hj].
    rewrite <- Hse, E1, <- Hac, E2, !map_map. done.
Qed.

End PairingFacts.
End PairingFacts.
