(* ===== verification/LoadedProfile.v ===== *)
(** * What a loaded robot profile guarantees

    The properties of [load_robot_profile]: the ranges of everything it derives, the pairing of
    sensors and actuators, the uniqueness of names and identities, the consistency of the buses and
    of the DDS section; and that the safety supervisor takes the axes. *)
From S2P Require Export RobotLoader Safety.

Open Scope string_scope.
Open Scope Z_scope.

Module LoadedProfile.
Import LoaderArgs LoaderAxes LoaderServos LoaderMotors LoaderDds LoaderJson RobotLoader PairingFacts.

(** ** Ranges *)

Definition in_range (lo hi z : Z) : Prop := lo <= z <= hi.

(** A finite number above zero. *)
Definition positive (d : spec_float) : Prop := isfinite d = true /\ (d <=? fzero)%fp = false.

Record ValidAxis (a : AxisConfig) : Prop := {
  va_alias : in_range 0 uint16_max (ax_alias a);
  va_position : in_range 0 uint16_max (ax_position a);
  va_vendor : in_range 0 uint32_max (ax_vendor_id a);
  va_product : in_range 0 uint32_max (ax_product_code a);
  va_revision : in_range 0 uint32_max (ax_revision a);
  va_scale : positive (ax_scale a);
  va_limits : isfinite (ax_minimum a) = true /\ isfinite (ax_maximum a) = true /\
              (ax_maximum a <? ax_minimum a)%fp = false;
  va_timeout : in_range 1 int64_max (ax_command_timeout_ms a);
  va_group : is_blank (ax_safety_group a) = false;
  va_slew : positive (ax_slew_limit a);
  va_following : positive (ax_following_error_limit a) }.

Record ValidServo (s : St3215ServoProfile) : Prop := {
  vs_baud : in_range 1 uint32_max (sp_baud_rate (pf_serial s));
  vs_read_buffer : in_range 1 4096 (Z.of_nat (sp_read_buffer_size (pf_serial s)));
  vs_frame : in_range 6 259 (Z.of_nat (sp_maximum_frame_size (pf_serial s)));
  vs_period : in_range 1000 1000000000 (sp_service_period_ns (pf_serial s));
  vs_read_timeout : in_range 0 int64_max (sp_read_timeout_ms (pf_serial s));
  vs_write_timeout : in_range 0 int64_max (sp_write_timeout_ms (pf_serial s));
  vs_device_id : in_range 0 253 (pf_device_id s);
  vs_servo_id : in_range 0 uint16_max (pf_servo_id s);
  vs_max_position : in_range 1 uint16_max (pf_max_position_units s);
  vs_speed : in_range 0 uint16_max (pf_speed_units s);
  vs_time : in_range 0 uint16_max (pf_time_units s);
  vs_feedback : 1 <= pf_feedback_timeout_ms s /\ pf_feedback_timeout_ms s * 1000000 <= int64_max;
  vs_command : in_range 1 1000 (pf_command_timeout_ms s);
  vs_future : in_range 0 1000 (pf_maximum_command_future_ms s) }.

(** The limits of a motor are the narrowed values of positive finite doubles.  Narrowing can make
    them zero or infinite, which the loader does not check. *)
Record ValidMotor (m : DamiaoMotorProfile) : Prop := {
  vm_id : in_range 1 15 (mp_motor_id m);
  vm_timeout : in_range 1 int64_max (mp_feedback_timeout_ms m);
  vm_limits : exists position velocity torque : double,
    positive position /\ positive velocity /\ positive torque /\
    mp_limits m = mkLimits (to_float position) (to_float velocity) (to_float torque) }.

Lemma parse_unsigned_range maximum input n :
  maximum <= uint64_max -> parse_unsigned maximum input = Some n -> in_range 0 maximum n.
Proof.
  intros Hm H.
  destruct (proj1 (parse_unsigned_spec maximum input n Hm) H) as (Hn & h & digits & ds & _ & _ & Hd & ->).
  split; [|done]. apply digits_value_nonneg; [|done]. by eapply digits_of_nonneg.
Qed.

Lemma parse_double_finite input d : parse_double input = Some d -> isfinite d = true.
Proof.
  unfold parse_double. destruct (trim input) as [|c s]; [done|].
  destruct (strtod_all (String c s)) as [r|]; cbn; [|done]. destruct (isfinite r) eqn:E; [|done]. by intros [= <-].
Qed.

Lemma unsigned_arg_range maximum config key d e e' n :
  maximum <= uint64_max -> in_range 0 maximum d ->
  unsigned_arg maximum config key d e = (e', Some n) -> in_range 0 maximum n.
Proof.
  intros Hm Hd. unfold unsigned_arg. destruct (optional_arg config key) as [text|].
  - destruct (parse_unsigned maximum text) as [v|] eqn:E; intros H; parse_inv. by eapply parse_unsigned_range.
  - intros H. by parse_inv.
Qed.

Lemma identity_arg_range config primary fallback e e' n :
  st3215_identity_arg config primary fallback e = (e', Some n) -> in_range 0 uint16_max n.
Proof.
  unfold st3215_identity_arg.
  destruct (optional_arg config primary) as [text|]; [|destruct (optional_arg config fallback) as [text|]; [|done]];
    destruct (parse_unsigned uint16_max text) as [v|] eqn:E; intros H; parse_inv;
    by eapply (parse_unsigned_range uint16_max); [|exact E].
Qed.

Lemma to_int64_range d : int64_min <= to_int64 d <= int64_max.
Proof. unfold to_int64, int64_min, int64_max. destruct (_ && _) eqn:E; b2p; lia. Qed.

Lemma milliseconds_range config key d e e' n :
  int64_min <= d <= int64_max -> milliseconds_from_seconds_arg config key d e = (e', Some n) ->
  int64_min <= n <= int64_max.
Proof.
  intros Hd. unfold milliseconds_from_seconds_arg.
  destruct (optional_arg config key) as [text|]; [|intros H; by parse_inv].
  destruct (parse_double text) as [v|]; [|done]. cbn zeta.
  destruct (_ || _); [done|]. destruct (_ && _); [done|]. intros H. parse_inv. apply to_int64_range.
Qed.

Lemma milliseconds_nonneg config key d e e' n :
  0 <= d <= int64_max -> milliseconds_from_seconds_arg config key d e = (e', Some n) ->
  in_range 0 int64_max n.
Proof.
  intros Hd H. assert (int64_min <= n <= int64_max) as Hr.
  { eapply milliseconds_range; [|exact H]. unfold int64_min. lia. }
  split; [|apply Hr]. revert H. unfold milliseconds_from_seconds_arg.
  destruct (optional_arg config key) as [text|]; [|intros H; parse_inv; lia].
  destruct (parse_double text) as [v|] eqn:Ev; [|done]. apply parse_double_finite in Ev. cbn zeta.
  destruct (_ || _) eqn:E1; [done|]. destruct (_ && _) eqn:E2; [done|]. intros H. parse_inv.
  apply orb_false_iff in E1 as [E1 _]. apply andb_false_iff in E2 as [E2|E2]; [|b2p; lia].
  destruct v as [[]|[]| |[] m x]; try discriminate E1; try discriminate E2; try discriminate Ev;
    vm_compute; discriminate.
Qed.

(** ** The parsers *)

(** Follow a parser that succeeded through its options, checks and binds. *)
Ltac follow := repeat (parse_inv; match goal with
  | H : (match ?o with Some _ => _ | None => _ end) _ = (_, Some _) |- _ =>
      let E := fresh "E" in destruct o eqn:E; [|discriminate H]
  | H : (if ?b then refuse _ else _) _ = (_, Some _) |- _ =>
      let E := fresh "C" in destruct b eqn:E; [discriminate H|]
  end); parse_inv.

Lemma parse_axis_valid config e e' a : parse_axis config e = (e', Some a) -> ValidAxis a /\ ax_name a = dev_name config.
Proof.
  unfold parse_axis. intros H. parse_inv.
  match goal with H : match ?l with [] => _ | _ :: _ => _ end _ = _ |- _ => revert H; generalize l end.
  intros texts H. repeat (destruct texts as [|? texts]; [by parse_inv|]). destruct texts; [|by parse_inv].
  follow. b2p. split; [|done].
  repeat match goal with
  | H : parse_unsigned _ _ = Some _ |- _ => apply parse_unsigned_range in H; [|vm_compute; congruence]
  | H : parse_double _ = Some _ |- _ => apply parse_double_finite in H
  end.
  constructor; cbn; try done. unfold in_range, int64_max in *. lia.
Qed.

Lemma required_double_positive config key e e' d :
  required_double_arg config key e = (e', Some d) -> positive d.
Proof.
  unfold required_double_arg. intros H. follow.
  match goal with H : parse_double _ = Some _ |- _ => by apply parse_double_finite in H end.
Qed.

Lemma servo_args_ranges config baud_text e e' args :
  servo_args config baud_text e = (e', Some args) ->
  (forall n, sa_baud_rate args = Some n -> in_range 0 uint32_max n) /\
  (forall n, sa_read_buffer args = Some n -> in_range 0 uint64_max n) /\
  (forall n, sa_maximum_frame args = Some n -> in_range 0 uint64_max n) /\
  (forall n, sa_max_position args = Some n -> in_range 0 uint16_max n) /\
  (forall n, sa_speed args = Some n -> in_range 0 uint16_max n) /\
  (forall n, sa_time args = Some n -> in_range 0 uint16_max n) /\
  (forall n, sa_feedback_timeout args = Some n -> in_range 0 uint64_max n) /\
  (forall n, sa_command_timeout args = Some n -> in_range 0 uint64_max n) /\
  (forall n, sa_maximum_command_future args = Some n -> in_range 0 uint64_max n) /\
  (forall n, sa_service_period args = Some n -> in_range 0 uint64_max n) /\
  (forall n, sa_read_timeout args = Some n -> in_range 0 int64_max n) /\
  (forall n, sa_write_timeout args = Some n -> in_range 0 int64_max n).
Proof.
  unfold servo_args. intros H. parse_inv. cbn.
  assert (forall maximum key d e e' o n, o = Some n -> unsigned_arg maximum config key d e = (e', o) ->
    (maximum <=? uint64_max) && (0 <=? d) && (d <=? maximum) = true -> in_range 0 maximum n) as Hr.
  { intros * -> Ho Hb. b2p. eapply unsigned_arg_range; [| |exact Ho]; [done|by split]. }
  split; [intros n Hn; by eapply (parse_unsigned_range uint32_max); [|exact Hn]|].
  assert (forall key e e' o n, o = Some n -> milliseconds_from_seconds_arg config key 0 e = (e', o) ->
    in_range 0 int64_max n) as Hms.
  { intros * -> Ho. eapply milliseconds_nonneg; [|exact Ho]. by split. }
  split_and!; intros n Hn; try (eapply Hr; [exact Hn|eassumption|reflexivity]);
    try (eapply Hms; [exact Hn|eassumption]).
  destruct (optional_arg config "write_timeout_s"); parse_inv; subst;
    (eapply milliseconds_nonneg; [|eassumption]; by split).
Qed.

Lemma parse_st3215_valid config sensor e e' s :
  parse_st3215 config sensor e = (e', Some s) ->
  ValidServo s /\ sp_path (pf_serial s) = dev_path config.
Proof.
  unfold parse_st3215. intros H. parse_inv. follow.
  match goal with H : servo_args _ _ _ = _ |- _ => apply servo_args_ranges in H end.
  match goal with H : (match ?a with mkServoArgs _ _ _ _ _ _ _ _ _ _ _ _ => _ end) _ = _ |- _ => destruct a end.
  cbn in *. destruct_and!. follow.
  repeat match goal with
  | H : forall n, Some ?z = Some n -> _ |- _ => specialize (H z eq_refl)
  | H : st3215_identity_arg _ _ _ _ = _ |- _ => apply identity_arg_range in H
  end.
  b2p. unfold in_range, int64_max in *. split; [|done]. constructor; cbn; unfold in_range, int64_max; try lia.
  pose proof (Z.mul_div_le 9223372036854775807 1000000). lia.
Qed.

Lemma parse_damiao_motor_valid config sensor e e' m :
  parse_damiao_motor config sensor e = (e', Some m) -> ValidMotor m /\ mp_path m = dev_path config.
Proof.
  unfold parse_damiao_motor. intros H. follow.
  match goal with H : unsigned_arg _ _ _ _ _ = _ |- _ =>
    apply unsigned_arg_range in H; [|vm_compute; congruence|split; vm_compute; congruence] end.
  match goal with H : milliseconds_from_seconds_arg _ _ _ _ = _ |- _ =>
    apply milliseconds_range in H; [|split; vm_compute; congruence] end.
  repeat match goal with H : required_double_arg _ _ _ = _ |- _ =>
    apply required_double_positive in H end.
  b2p. split; [|done]. constructor; cbn; unfold in_range in *; [lia..|]. do 3 eexists. split_and!; [| | |reflexivity]; eassumption.
Qed.

(** ** The derivations *)

Definition no_constraint {P} (x : unit) (l : list P) : Prop := True.

(** The first configuration seen on a bus is that of every servo on it. *)
Definition buses_agree (buses : gmap string SerialPortConfig) (servos : list St3215ServoProfile) : Prop :=
  forall s, s ∈ servos -> buses !! sp_path (pf_serial s) = Some (pf_serial s).

Lemma same_serial_eq a b : same_serial a b = true -> a = b.
Proof.
  unfold same_serial. destruct a, b. cbn. intros H. b2p.
  repeat match goal with
  | H : String.eqb _ _ = true |- _ => apply String.eqb_eq in H
  | H : Nat.eqb _ _ = true |- _ => apply Nat.eqb_eq in H
  end. congruence.
Qed.

Lemma enter_bus_agree x x' p l e e' :
  enter_bus x p e = (e', Some x') -> buses_agree x l -> buses_agree x' (l ++ [p]).
Proof.
  unfold enter_bus. intros H Hl.
  destruct (x !! sp_path (pf_serial p)) as [bus|] eqn:E.
  - destruct (same_serial bus (pf_serial p)) eqn:Es; [|done]. parse_inv. apply same_serial_eq in Es as ->.
    intros s [Hs| ->%list_elem_of_singleton]%elem_of_app; [by apply Hl|done].
  - parse_inv. intros s [Hs| ->%list_elem_of_singleton]%elem_of_app; [|by rewrite lookup_insert_eq].
    specialize (Hl s Hs). rewrite lookup_insert_ne; [done|]. intros Eq. congruence.
Qed.

Lemma derive_axes_pairs sensors actuators e e' axes :
  derive_axes sensors actuators e = (e', Some axes) ->
  exists pairs, Paired axes_derivation no_constraint sensors actuators axes pairs.
Proof. apply derive_paired; done. Qed.

Lemma derive_st3215_pairs sensors actuators e e' servos :
  derive_st3215 sensors actuators e = (e', Some servos) ->
  exists pairs, Paired servos_derivation buses_agree sensors actuators servos pairs.
Proof.
  apply derive_paired.
  - intros. by eapply enter_bus_agree.
  - intros x l l' Hp Hl s Hs. apply Hl. by rewrite Hp.
  - by intros s ?%elem_of_nil.
Qed.

Lemma derive_damiao_pairs sensors actuators e e' motors :
  derive_damiao_motors sensors actuators e = (e', Some motors) ->
  exists pairs, Paired motors_derivation no_constraint sensors actuators motors pairs.
Proof. apply derive_paired; done. Qed.

(** What the parser gives every side, the merge keeps. *)
Lemma paired_items {P X} (D : Derivation P X) J sensors actuators items pairs (Q : P -> Prop) :
  Paired D J sensors actuators items pairs ->
  (forall d sensor p e e', dr_parse D d sensor e = (e', Some p) -> Q p) ->
  (forall a b, Q a -> Q b -> Q (dr_merge D false a b)) -> Forall Q items.
Proof.
  intros Hp Hparse Hmerge. rewrite (pr_items _ _ _ _ _ _ Hp). apply Forall_forall.
  intros x Hx. apply list_elem_of_fmap in Hx as (p & -> & Hx).
  pose proof (proj1 (Forall_forall _ _) (pr_sides _ _ _ _ _ _ Hp) p Hx) as ((e1 & e2 & H1) & (e3 & e4 & H2) & _).
  apply Hmerge; by eapply Hparse.
Qed.

(** What determines the identity of an item is distinct. *)
Lemma paired_distinct {P X B} (D : Derivation P X) J sensors actuators items pairs (key : P -> B) :
  Paired D J sensors actuators items pairs ->
  (forall a b, key (dr_merge D false a b) = key a) ->
  (forall d d' p p' e1 e2 e3 e4, dr_parse D d true e1 = (e2, Some p) -> dr_parse D d' true e3 = (e4, Some p') ->
     key p = key p' -> dr_identity D d p = dr_identity D d' p') ->
  NoDup (map key items).
Proof.
  intros Hp Hmerge Hid. rewrite (pr_items _ _ _ _ _ _ Hp), map_map.
  pose proof (pr_distinct _ _ _ _ _ _ Hp) as Hn. pose proof (pr_sides _ _ _ _ _ _ Hp) as Hs. clear Hp.
  induction pairs as [|p pairs IH]; [constructor|]. cbn in *.
  apply NoDup_cons in Hn as [Hnew Hn]. apply Forall_cons in Hs as [Hs1 Hs].
  constructor; [|by apply IH]. intros Hin. apply Hnew.
  apply list_elem_of_fmap in Hin as (q & Hq & Hin). apply list_elem_of_fmap. exists q. split; [|done].
  rewrite !Hmerge in Hq.
  pose proof (proj1 (Forall_forall _ _) Hs q Hin) as ((e3 & e4 & H2) & _).
  destruct Hs1 as ((e1 & e2 & H1) & _). by eapply Hid.
Qed.

(** ** The DDS section *)

Record ValidDds (d : DdsConfig) : Prop := {
  vd_domain : dds_local_domain_id d <= 232;
  vd_capacity : dds_sensor_queue_capacity d ∈ supported_capacities;
  vd_external_domain : ext_domain_id (dds_external d) <= 232;
  vd_separate : ext_enabled (dds_external d) = true -> ext_domain_id (dds_external d) <> dds_local_domain_id d;
  vd_topics : NoDup (ext_topics (dds_external d));
  vd_named : Forall (fun topic => is_blank topic = false) (ext_topics (dds_external d)) }.

Lemma default_dds_valid : ValidDds DdsConfig_default.
Proof. constructor; cbn; try done; try lia; [set_solver|constructor]. Qed.

Lemma parse_domain_id_bound object key output section e e' n :
  output <= 232 -> parse_domain_id object key output section e = (e', Some n) -> n <= 232.
Proof.
  intros Ho. unfold parse_domain_id. destruct (member object key) as [[]|]; intros H; follow; b2p; lia.
Qed.

Lemma add_topics_valid topics : forall l e e' l',
  NoDup l -> Forall (fun topic => is_blank topic = false) l ->
  fold_parse add_topic l topics e = (e', Some l') ->
  NoDup l' /\ Forall (fun topic => is_blank topic = false) l'.
Proof.
  induction topics as [|t topics IH]; intros l e e' l' Hn Hb H; cbn [fold_parse] in H; parse_inv; [done|].
  match goal with H1 : add_topic _ _ _ = _ |- _ => unfold add_topic in H1; destruct t as [| | | | |name| | |]; follow end.
  match goal with H : fold_parse _ _ _ _ = _ |- _ => apply IH in H; [done|..] end.
  - apply NoDup_app. split; [done|]. split; [|apply NoDup_singleton].
    intros y Hy ->%list_elem_of_singleton. b2p. done.
  - apply Forall_app. split; [done|by constructor].
Qed.

Lemma parse_external_valid external output e e' ext :
  ext_domain_id output <= 232 -> NoDup (ext_topics output) ->
  Forall (fun topic => is_blank topic = false) (ext_topics output) ->
  parse_external external output e = (e', Some ext) ->
  ext_domain_id ext <= 232 /\ NoDup (ext_topics ext) /\
  Forall (fun topic => is_blank topic = false) (ext_topics ext).
Proof.
  intros Hd Hn Hb H. unfold parse_external in H. parse_inv. cbn.
  match goal with H1 : parse_domain_id _ _ _ _ _ = _ |- _ => apply parse_domain_id_bound in H1; [|done] end.
  split; [done|].
  destruct (member external "topics") as [[]|]; parse_inv; try done.
  match goal with H1 : fold_parse _ _ _ _ = _ |- _ => apply add_topics_valid in H1; [done|constructor|constructor] end.
Qed.

Lemma parse_capacity_supported object output e e' n :
  output ∈ supported_capacities -> parse_capacity object output e = (e', Some n) -> n ∈ supported_capacities.
Proof.
  intros Ho. unfold parse_capacity. destruct (member object _) as [[]|]; intros H; parse_inv; [|done].
  destruct (bool_decide _) eqn:E; parse_inv. by b2p.
Qed.

Lemma parse_dds_config_valid root output e e' d :
  ValidDds output -> ext_enabled (dds_external output) = false ->
  parse_dds_config root output e = (e', Some d) -> ValidDds d.
Proof.
  intros [H1 H2 H3 H4 H5 H6] Hoff H. unfold parse_dds_config in H.
  assert (forall A m (e e' : string) (d : A), or_message m (lift None) e <> (e', Some d)) as Hno by done.
  destruct (member root "dds") as [[]|]; try (by apply Hno in H); [|by parse_inv].
  parse_inv. match goal with H : parse_domain_id _ _ _ _ _ = _ |- _ => apply parse_domain_id_bound in H; [|done] end.
  match goal with H : parse_capacity _ _ _ = _ |- _ => apply parse_capacity_supported in H; [|done] end.
  destruct (member entries "external") as [[]|]; try (by apply Hno in H); parse_inv.
  - match goal with H : parse_external _ _ _ = _ |- _ =>
      apply parse_external_valid in H as (Hd & Ht & Hb); [|done..] end.
    destruct (_ && _) eqn:Es; parse_inv. constructor; cbn; try done.
    intros He. rewrite He in Es. cbn in Es. by apply Z.eqb_neq in Es.
  - constructor; cbn; try done. congruence.
Qed.

(** ** The loaded profile *)

Record ValidProfile (p : RobotProfile) : Prop := {
  vp_names : NoDup (map dev_name (rp_sensors p) ++ map dev_name (rp_actuators p))%list;
  vp_axes : Forall ValidAxis (rp_axes p);
  vp_axis_pairs : exists pairs,
    Paired axes_derivation no_constraint (rp_sensors p) (rp_actuators p) (rp_axes p) pairs;
  vp_servos : Forall ValidServo (rp_st3215_servos p);
  vp_servo_pairs : exists pairs,
    Paired servos_derivation buses_agree (rp_sensors p) (rp_actuators p) (rp_st3215_servos p) pairs;
  vp_servo_ids : NoDup (map (fun s => (sp_path (pf_serial s), pf_device_id s)) (rp_st3215_servos p));
  vp_buses : forall s t, s ∈ rp_st3215_servos p -> t ∈ rp_st3215_servos p ->
    sp_path (pf_serial s) = sp_path (pf_serial t) -> pf_serial s = pf_serial t;
  vp_motors : Forall ValidMotor (rp_damiao_motors p);
  vp_motor_pairs : exists pairs,
    Paired motors_derivation no_constraint (rp_sensors p) (rp_actuators p) (rp_damiao_motors p) pairs;
  vp_motor_ids : NoDup (map (fun m => (mp_path m, mp_motor_id m)) (rp_damiao_motors p));
  vp_dds : ValidDds (rp_dds p);
  vp_registry : dds_backend (rp_dds p) = dds -> exists registry,
    Topics.build_dds_topic_registry p (dds_robot_id (rp_dds p)) = success registry /\
    forall topic, topic ∈ ext_topics (dds_external (rp_dds p)) ->
      exists d, d ∈ registry /\ publishable d = true /\ Topics.td_topic_name d = topic }.

Lemma first_duplicate_none names : forall seen,
  first_duplicate seen names = None <-> NoDup names /\ forall n, n ∈ names -> n ∉ seen.
Proof.
  induction names as [|name names IH]; intros seen; cbn.
  { split; [intros _; split; [constructor|by intros n ?%elem_of_nil]|done]. }
  destruct (decide (name ∈ seen)) as [Hin|Hnot].
  - split; [done|]. intros [_ H]. by destruct (H name (list_elem_of_here _ _)).
  - rewrite IH, NoDup_cons. split.
    + intros [Hn Hs]. split; [split; [|done]|].
      * intros Hin. apply (Hs name Hin). set_solver.
      * intros n [->|Hin]%elem_of_cons; [done|]. specialize (Hs n Hin). set_solver.
    + intros [[Hnew Hn] Hs]. split; [done|]. intros n Hin. specialize (Hs n). set_solver.
Qed.

Lemma check_topics_success p :
  check_topics p = success tt -> dds_backend (rp_dds p) = dds -> exists registry,
    Topics.build_dds_topic_registry p (dds_robot_id (rp_dds p)) = success registry /\
    forall topic, topic ∈ ext_topics (dds_external (rp_dds p)) ->
      exists d, d ∈ registry /\ publishable d = true /\ Topics.td_topic_name d = topic.
Proof.
  unfold check_topics. intros H Hb. rewrite Hb in H.
  destruct (Topics.build_dds_topic_registry p _) as [registry|]; [|done]. exists registry. split; [done|].
  destruct (forallb _ _) eqn:E; [|done]. intros topic Hin.
  rewrite forallb_forall in E. specialize (E topic). rewrite <- list_elem_of_In in E.
  specialize (E Hin). b2p. apply list_elem_of_fmap in E as (d & -> & Hd).
  apply list_elem_of_filter in Hd as [? ?]. by exists d.
Qed.

Lemma merged_servo_serial pairs sensors actuators items :
  Paired servos_derivation buses_agree sensors actuators items pairs ->
  exists buses, buses_agree buses items.
Proof.
  intros Hp. destruct (pr_extra _ _ _ _ _ _ Hp) as [buses Hb]. exists buses.
  rewrite (pr_items _ _ _ _ _ _ Hp). intros s (p & -> & Hin)%list_elem_of_fmap. cbn.
  apply Hb. apply elem_of_app. left. apply list_elem_of_fmap. by exists p.
Qed.

Lemma load_robot_profile_spec dump path document p :
  load_robot_profile dump path document = success p ->
  exists root e, document = parsed (JObject root) /\
    parse_dds_config root DdsConfig_default "" = (e, Some (rp_dds p)) /\
    NoDup (map dev_name (rp_sensors p) ++ map dev_name (rp_actuators p))%list /\
    (exists e, derive_axes (rp_sensors p) (rp_actuators p) "" = (e, Some (rp_axes p))) /\
    (exists e, derive_st3215 (rp_sensors p) (rp_actuators p) "" = (e, Some (rp_st3215_servos p))) /\
    (exists e, derive_damiao_motors (rp_sensors p) (rp_actuators p) "" = (e, Some (rp_damiao_motors p))) /\
    check_topics p = success tt.
Proof.
  unfold load_robot_profile. intros H. apply result_bind_success in H as (root & Hr & H).
  destruct document as [| |r]; try done. injection Hr as ->. destruct root as [| | | | | | |root|]; try done.
  apply result_bind_success in H as ([sensors actuators] & Hl & H).
  apply result_bind_success in H as (d & [e Hd]%run_parse_success & H).
  destruct (first_duplicate ∅ _) as [name|] eqn:Hn; [done|].
  apply result_bind_success in H as (axes & Ha & H). apply result_bind_success in H as (servos & Hs & H).
  apply result_bind_success in H as (motors & Hm & H). apply result_bind_success in H as ([] & Hc & H).
  injection H as <-. apply run_parse_success in Ha, Hs, Hm. apply first_duplicate_none in Hn as [Hn _].
  by exists root, e.
Qed.


(** ** The axes and the safety supervisor *)

Lemma valid_axis_limits a :
  ValidAxis a -> ax_command_timeout_ms a <= int64_max / 1000000 -> Supervisor.axis_limits_invalid a = false.
Proof.
  intros [_ _ _ _ _ [H1 H2] (H3 & H4 & H5) [H6 _] _ [H7 H8] [H9 H10]] Ht. unfold Supervisor.axis_limits_invalid.
  rewrite H1, H2, H3, H4, H5, H7, H8, H9, H10.
  replace (ax_command_timeout_ms a <=? 0) with false by (symmetry; apply Z.leb_gt; lia).
  by replace (int64_max / 1000000 <? ax_command_timeout_ms a) with false by (symmetry; apply Z.ltb_ge; lia).
Qed.

Lemma configure_loop_success axes : forall i previous next configs requests,
  Forall (fun a => Supervisor.axis_limits_invalid a = false) axes ->
  exists configs' requests',
    Supervisor.configure_loop axes i previous next configs requests = (configs', requests', success tt).
Proof.
  induction axes as [|a axes IH]; intros i previous next configs requests H; cbn [Supervisor.configure_loop].
  - by exists configs, requests.
  - apply Forall_cons in H as [-> H]. destruct (Supervisor.assign_group _ _ _). by apply IH.
Qed.

(** The safety supervisor takes the axes of a loaded profile: with legal options and command
    timeouts that fit in nanoseconds, its configuration succeeds with all of them. *)
Theorem loaded_axes_configure (dump : Json -> string) (path : string) (document : Document)
    (p : RobotProfile) (options : SafetyOptions) :
  load_robot_profile dump path document = success p ->
  Forall (fun a => ax_command_timeout_ms a <= int64_max / 1000000) (rp_axes p) ->
  Supervisor.valid_options options = true ->
  exists s, Supervisor.configure (Supervisor.create options) (rp_axes p) = (s, success tt) /\
    sv_axis_count s = length (rp_axes p).
Proof.
  intros H Ht Ho. apply load_robot_profile_spec in H as (root & e & _ & _ & _ & [e1 Ha] & _).
  apply derive_axes_pairs in Ha as [pairs Ha]. pose proof (pr_limit _ _ _ _ _ _ Ha) as Hlen. cbn in Hlen.
  assert (Forall ValidAxis (rp_axes p)) as Hv.
  { eapply paired_items; [exact Ha| |]; cbn; [|done]. intros. by eapply parse_axis_valid. }
  destruct (configure_loop_success (rp_axes p) 0 [] 0 (sv_configs (Supervisor.create options))
    (sv_last_requests (Supervisor.create options))) as (configs & requests & Hl).
  { apply Forall_forall. intros a Hin. rewrite Forall_forall in Hv, Ht. apply valid_axis_limits; auto. }
  unfold Supervisor.configure. change (sv_options (Supervisor.create options)) with options.
  change (sv_configured (Supervisor.create options)) with false. cbv iota. rewrite Ho.
  replace (max_axes <? length (rp_axes p))%nat with false
    by (symmetry; apply Nat.ltb_ge; change max_axes with 12%nat; lia).
  cbn [orb negb]. rewrite Hl. eexists. split; [reflexivity|]. done.
Qed.

(** ** A robot profile *)

Module LoaderExamples.

Definition decimal_dump (v : Json) : string :=
  match v with JUnsigned z | JInteger z => to_string z | _ => "?" end.

Definition device (name type path : string) (args : Entries) : Json :=
  JObject [("name", JString name);
           ("device", JObject [("type", JString type); ("path", JString path)]); ("args", JObject args)].

Definition axis_args (slew : string) : Entries :=
  [("alias", JUnsigned 0); ("position", JUnsigned 1); ("vendor_id", JString "0x9a");
   ("product_code", JString "0x30924"); ("revision", JUnsigned 66592); ("mode", JString "csp");
   ("scale", JString "1000.5"); ("minimum", JString "-3.1"); ("maximum", JString "3.1");
   ("slew_limit", JString slew); ("following_error_limit", JString "0.5");
   ("command_timeout_ms", JUnsigned 100); ("safety_group", JString "arm")].

Definition servo_arguments : Entries :=
  [("baud_rate", JUnsigned 1000000); ("device_id", JUnsigned 1); ("timeout_s", JString "0.02")].

Definition motor_args (limit : string) : Entries :=
  [("motor_id", JUnsigned 3); ("position_max", JString limit); ("velocity_max", JString "30");
   ("torque_max", JString "10")].

Definition robot_root (slew limit : string) : Entries :=
  [("sensors", JArray [device "joint.s" "cia402" "ec0" (axis_args "0.01");
                       device "grip.s" "st3215" "/dev/ttyUSB0" servo_arguments;
                       device "knee.s" "damiao_motor" "can0" (motor_args limit)]);
   ("actuators", JArray [device "joint.a" "cia402" "ec0" (axis_args slew);
                         device "grip.a" "st3215" "/dev/ttyUSB0" servo_arguments;
                         device "knee.a" "damiao_motor" "can0" (motor_args limit)]);
   ("dds", JObject [("backend", JString "dds"); ("robot_id", JString "lab 1"); ("local_domain_id", JUnsigned 3);
                    ("external", JObject [("enabled", JBoolean true); ("domain_id", JUnsigned 4);
                       ("topics", JArray [JString "robot_io_lab_1_health"])])])].

Definition load (slew limit : string) : Result RobotProfile :=
  load_robot_profile decimal_dump "robot.json" (parsed (JObject (robot_root slew limit))).

Definition robot : RobotProfile :=
  match load "0.01" "12.5" with success p => p | failure _ => mkRobotProfile [] [] [] [] [] DdsConfig_default end.

Example robot_loads : load "0.01" "12.5" = success robot /\
  (length (rp_axes robot), length (rp_st3215_servos robot), length (rp_damiao_motors robot)) = (1, 1, 1)%nat.
Proof. vm_compute. done. Qed.


Lemma timeouts_fit axes :
  forallb (fun a => ax_command_timeout_ms a <=? int64_max / 1000000) axes = true ->
  Forall (fun a => ax_command_timeout_ms a <= int64_max / 1000000) axes.
Proof.
  intros E. apply Forall_forall. rewrite forallb_forall in E. intros a Ha.
  apply Z.leb_le, E, list_elem_of_In, Ha.
Qed.

Lemma loaded_axes_configure_witness :
  exists s, Supervisor.configure (Supervisor.create SafetyOptions_default) (rp_axes robot) = (s, success tt) /\
    sv_axis_count s = 1%nat.
Proof.
  apply (loaded_axes_configure decimal_dump "robot.json" (parsed (JObject (robot_root "0.01" "12.5"))) robot).
  - vm_compute. reflexivity.
  - assert (forallb (fun a => ax_command_timeout_ms a <=? int64_max / 1000000) (rp_axes robot) = true) as E
      by (vm_compute; reflexivity).
    by apply timeouts_fit.
  - vm_compute. reflexivity.
Defined.

(** The two sides of an axis have to agree. *)
Example inconsistent_refused :
  load "0.02" "12.5" = fail invalid_argument "inconsistent cia402 static configuration for: ec0".
Proof. by vm_compute. Qed.

(** A limit that is a positive double can be zero as a float: the profile loads, and the protocol
    refuses every command of the motor. *)
Example vanishing_limit_loads :
  (map (fun m => dl_position_max (mp_limits m)) ∘ rp_damiao_motors) <$> load "0.01" "1e-60" = success [fzero].
Proof. by vm_compute. Qed.

(** The longest duration the check lets through is not a 64-bit number of milliseconds. *)
Example duration_overflows :
  trunc_int (dmul LoaderArgs.maximum_seconds LoaderArgs.thousand) = 2 ^ 63.
Proof. by vm_compute. Qed.

End LoaderExamples.

End LoadedProfile.
