(* ===== verification/PolicyLoader.v ===== *)
(** * Loading a policy profile

    The policy half of [profiles/loader.cpp] and [profiles/policy_profile.hpp]: semantic fields,
    the temporal section, processors and bindings, and [load_policy_profile]. *)
From S2P Require Export RobotLoader.

Open Scope string_scope.
Open Scope Z_scope.

Module PolicyLoader.
Import LoaderJson.

(** ** [policy_profile.hpp] *)

Inductive SemanticKind := scalar | vector | text | image | object.

#[export] Instance SemanticKind_eq_dec : EqDecision SemanticKind.
Proof. solve_decision. Defined.

Record SemanticBounds := mkBounds { sb_lower : option double; sb_upper : option double }.

Record SemanticField := mkField {
  fd_name : string;
  fd_semantic_type : string;
  fd_kind : SemanticKind;
  fd_unit : option string;
  fd_ordering : list string;
  fd_bounds : option SemanticBounds;
  fd_frame : option string;
  fd_normalized : bool;
  fd_optional : bool;
  fd_description : option string }.

Inductive TemporalMode := single_step | chunked.

Record TemporalSpec := mkTemporal {
  tp_mode : TemporalMode;
  tp_action_horizon : Z;
  tp_observation_history : Z }.

Definition TemporalSpec_default : TemporalSpec := mkTemporal single_step 1 1.

Record ProcessorSpec := mkProcessor { pc_name : string; pc_params : Json }.

Record RobotPolicyBinding := mkPolicyBinding {
  bn_name : string;
  bn_robot_data : string;
  bn_canonical_field : string;
  bn_source_path : option string;
  bn_target_path : option string;
  bn_optional : bool;
  bn_metadata : Json }.

Record PolicyProfile := mkPolicyProfile {
  pp_id : string;
  pp_version : string;
  pp_policy : string;
  pp_model : Json;
  pp_inputs : list RobotPolicyBinding;
  pp_outputs : list RobotPolicyBinding;
  pp_observation_schema : list SemanticField;
  pp_action_schema : list SemanticField;
  pp_temporal : TemporalSpec;
  pp_preprocess : list ProcessorSpec;
  pp_postprocess : list ProcessorSpec;
  pp_safety : Json }.

(** ** Members *)

Definition optional_string (entries : Entries) (key : string) (section : string) : Parse (option string) :=
  match member entries key with
  | None | Some JNull => mret None
  | Some (JString s) => mret (Some s)
  | Some _ => refuse (section ++ "." ++ key ++ " must be a string or null")
  end.

(** A member that has to be an object, with its default. *)
Definition object_member (entries : Entries) (key message : string) : Parse Json :=
  match member entries key with
  | None => mret (JObject [])
  | Some (JObject o) => mret (JObject o)
  | Some _ => refuse message
  end.

(** A member read with the lenient rules for booleans. *)
Definition bool_member (entries : Entries) (key message : string) : Parse bool :=
  match member entries key with
  | None => mret false
  | Some item =>
      match coerce_pydantic_bool item with
      | Some converted => mret converted
      | None => refuse message
      end
  end.

(** The entries of an object with known keys only. *)
Definition known_object (value : Json) (allowed : list string) (section message : string) : Parse Entries :=
  or_message message
    match value with
    | JObject entries => only_keys entries allowed section ≫= fun _ => mret entries
    | _ => lift None
    end.

(** ** Semantic fields *)

Definition parse_bound (entries : Entries) (key : string) : Parse (option double) :=
  match member entries key with
  | None | Some JNull => mret None
  | Some item =>
      match coerce_pydantic_double item with
      | Some converted => mret (Some converted)
      | None => refuse ("semantic field bounds." ++ key ++ " must be numeric")
      end
  end.

Definition parse_bounds (value : Json) : Parse SemanticBounds :=
  match value with
  | JObject entries =>
      lower ← parse_bound entries "lower";
      upper ← parse_bound entries "upper";
      match lower, upper with
      | Some l, Some u =>
          if (u <? l)%fp then refuse "semantic field bounds lower must be <= upper"
          else mret (mkBounds lower upper)
      | _, _ => mret (mkBounds lower upper)
      end
  | _ => refuse "semantic field bounds must be an object"
  end.

Definition parse_kind (value : Entries) : Parse SemanticKind :=
  match member value "kind" with
  | None => mret scalar
  | Some (JString kind) =>
      if String.eqb kind "scalar" then mret scalar
      else if String.eqb kind "vector" then mret vector
      else if String.eqb kind "text" then mret text
      else if String.eqb kind "image" then mret image
      else if String.eqb kind "object" then mret object
      else refuse "semantic field kind is invalid"
  | Some _ => refuse "semantic field kind must be a string"
  end.

Definition ordering_item (ordering : list string) (item : Json) : Parse (list string) :=
  match item with
  | JString s => mret (ordering ++ [s])%list
  | _ => refuse "semantic field ordering must contain strings"
  end.

Definition parse_ordering (value : Entries) : Parse (list string) :=
  match member value "ordering" with
  | None => mret []
  | Some (JArray items) => fold_parse ordering_item [] items
  | Some _ => refuse "semantic field ordering must be an array"
  end.

Definition field_keys : list string :=
  ["name"; "semantic_type"; "kind"; "unit"; "ordering"; "bounds"; "frame"; "normalized"; "optional"; "description"].

Definition parse_semantic_field (value : Json) : Parse SemanticField :=
  value ← known_object value field_keys "semantic field" "semantic field must be an object";
  name ← attempt (required_string value "name" "semantic field" true);
  semantic_type ← attempt (required_string value "semantic_type" "semantic field" true);
  match name, semantic_type with
  | Some name, Some semantic_type =>
      kind ← parse_kind value;
      unit ← optional_string value "unit" "semantic field";
      frame ← optional_string value "frame" "semantic field";
      description ← optional_string value "description" "semantic field";
      ordering ← parse_ordering value;
      check (negb (bool_decide (kind = vector) && bool_decide (ordering = []))) "vector fields must declare ordering" ≫= fun _ =>
      bounds ← (match member value "bounds" with
                | None | Some JNull => mret None
                | Some bounds => parsed ← parse_bounds bounds; mret (Some parsed)
                end);
      normalized ← bool_member value "normalized" "semantic field normalized must be a boolean";
      optional ← bool_member value "optional" "semantic field optional must be a boolean";
      mret (mkField name semantic_type kind unit ordering bounds frame normalized optional description)
  | _, _ => lift None
  end.

Definition parse_semantic_fields (root : Entries) (key : string) : Parse (list SemanticField) :=
  match member root key with
  | Some (JArray values) =>
      fold_parse (fun fields value => field ← parse_semantic_field value; mret (fields ++ [field])%list) [] values
  | _ => refuse (key ++ " must be an array")
  end.

(** ** The temporal section *)

Definition parse_count (value : Entries) (key : string) (output : Z) : Parse Z :=
  match member value key with
  | None => mret output
  | Some item =>
      match coerce_pydantic_positive_integer item with
      | Some converted => if converted <? 1 then refuse ("temporal." ++ key ++ " must be >= 1") else mret converted
      | None => refuse ("temporal." ++ key ++ " must be >= 1")
      end
  end.

Definition parse_temporal (root : Entries) (temporal : TemporalSpec) : Parse TemporalSpec :=
  match member root "temporal" with
  | None => mret temporal
  | Some value =>
      value ← known_object value ["mode"; "action_horizon"; "observation_history"] "temporal"
                "temporal must be an object";
      mode ← (match member value "mode" with
              | None => mret (tp_mode temporal)
              | Some (JString mode) =>
                  if String.eqb mode "single_step" then mret single_step
                  else if String.eqb mode "chunked" then mret chunked
                  else refuse "temporal.mode must be single_step or chunked"
              | Some _ => refuse "temporal.mode must be a string"
              end);
      action_horizon ← parse_count value "action_horizon" (tp_action_horizon temporal);
      observation_history ← parse_count value "observation_history" (tp_observation_history temporal);
      mret (mkTemporal mode action_horizon observation_history)
  end.

(** ** Processors and bindings *)

Definition parse_processor (value : Json) : Parse ProcessorSpec :=
  value ← known_object value ["name"; "params"] "processor" "processor must be an object";
  name ← required_string value "name" "processor" true;
  params ← object_member value "params" "processor.params must be an object";
  mret (mkProcessor name params).

(** A member that may be missing and has to be an array. *)
Definition array_member {A} (root : Entries) (key : string) (parse : Json -> Parse A) : Parse (list A) :=
  match member root key with
  | None => mret []
  | Some (JArray values) =>
      fold_parse (fun output value => item ← parse value; mret (output ++ [item])%list) [] values
  | Some _ => refuse (key ++ " must be an array")
  end.

Definition parse_processors (root : Entries) (key : string) : Parse (list ProcessorSpec) :=
  array_member root key parse_processor.

Definition binding_keys : list string :=
  ["name"; "robot_data"; "canonical_field"; "source_path"; "target_path"; "optional"; "metadata"].

Definition parse_binding (value : Json) : Parse RobotPolicyBinding :=
  value ← known_object value binding_keys "binding" "binding must be an object";
  name ← attempt (required_string value "name" "binding" true);
  robot_data ← attempt (required_string value "robot_data" "binding" true);
  canonical ← attempt (required_string value "canonical_field" "binding" true);
  match name, robot_data, canonical with
  | Some name, Some robot_data, Some canonical =>
      source_path ← optional_string value "source_path" "binding";
      target_path ← optional_string value "target_path" "binding";
      optional ← bool_member value "optional" "binding.optional must be a boolean";
      metadata ← object_member value "metadata" "binding.metadata must be an object";
      mret (mkPolicyBinding name robot_data canonical source_path target_path optional metadata)
  | _, _, _ => lift None
  end.

Definition parse_bindings (root : Entries) (key : string) : Parse (list RobotPolicyBinding) :=
  array_member root key parse_binding.

(** ** Validation across the sections *)

Fixpoint validate_unique_fields (fields : list SemanticField) (section : string) (names : gset string)
    : Parse (gset string) :=
  match fields with
  | [] => mret names
  | field :: fields =>
      if decide (fd_name field ∈ names) then refuse (section ++ " contains duplicate field names")
      else validate_unique_fields fields section ({[fd_name field]} ∪ names)
  end.

Fixpoint validate_bindings_from (bindings : list RobotPolicyBinding) (canonical_fields : gset string)
    (section : string) (names robot_data : gset string) : Parse unit :=
  match bindings with
  | [] => mret tt
  | binding :: bindings =>
      if decide (bn_name binding ∈ names) then refuse (section ++ " contains duplicate binding names")
      else if decide (bn_robot_data binding ∈ robot_data)
      then refuse (section ++ " contains duplicate robot_data names")
      else if decide (bn_canonical_field binding ∈ canonical_fields)
      then validate_bindings_from bindings canonical_fields section
             ({[bn_name binding]} ∪ names) ({[bn_robot_data binding]} ∪ robot_data)
      else refuse (section ++ "." ++ bn_name binding ++ " references unknown canonical field '" ++
                   bn_canonical_field binding ++ "'")
  end.

Definition validate_bindings (bindings : list RobotPolicyBinding) (canonical_fields : gset string)
    (section : string) : Parse unit :=
  validate_bindings_from bindings canonical_fields section ∅ ∅.

(** ** [load_policy_profile] *)

Definition policy_keys : list string :=
  ["id"; "version"; "policy"; "model"; "inputs"; "outputs"; "canonical_observation_schema";
   "canonical_action_schema"; "temporal"; "preprocess"; "postprocess"; "safety"].

Definition parse_sections (root : Entries) (id version policy : string) (model safety : Json) : Parse PolicyProfile :=
  inputs ← parse_bindings root "inputs";
  outputs ← parse_bindings root "outputs";
  observations ← parse_semantic_fields root "canonical_observation_schema";
  actions ← parse_semantic_fields root "canonical_action_schema";
  temporal ← parse_temporal root TemporalSpec_default;
  preprocess ← parse_processors root "preprocess";
  postprocess ← parse_processors root "postprocess";
  mret (mkPolicyProfile id version policy model inputs outputs observations actions temporal preprocess
          postprocess safety).

Definition validate_profile (profile : PolicyProfile) : Parse unit :=
  observation_names ← validate_unique_fields (pp_observation_schema profile) "canonical_observation_schema" ∅;
  action_names ← validate_unique_fields (pp_action_schema profile) "canonical_action_schema" ∅;
  validate_bindings (pp_inputs profile) observation_names "inputs" ≫= fun _ =>
  validate_bindings (pp_outputs profile) action_names "outputs".

Definition parse_policy (root : Entries) : Parse PolicyProfile :=
  only_keys root policy_keys "policy profile" ≫= fun _ =>
  id ← attempt (required_string root "id" "policy profile" true);
  version ← attempt (required_string root "version" "policy profile" false);
  policy ← attempt (required_string root "policy" "policy profile" true);
  match id, version, policy with
  | Some id, Some version, Some policy =>
      model ← object_member root "model" "policy profile.model must be an object";
      safety ← object_member root "safety" "policy profile.safety must be an object";
      profile ← parse_sections root id version policy model safety;
      validate_profile profile ≫= fun _ =>
      if negb (length (pp_inputs profile) =? length (pp_outputs profile))%nat
      then refuse "policy inputs and outputs must be declared as equal-length pairs"
      else mret profile
  | _, _, _ => lift None
  end.

Definition load_policy_profile (path : string) (document : Document) : Result PolicyProfile :=
  root ← RobotLoader.read_json path document;
  match root with
  | JObject root => run_parse (parse_policy root)
  | _ => fail invalid_argument "policy profile must be an object"
  end.

(** ** What a loaded policy profile guarantees *)

(** Bounds are ordered; a bound that is NaN passes, since every comparison with it fails. *)
Record ValidField (f : SemanticField) : Prop := {
  vf_name : is_blank (fd_name f) = false;
  vf_type : is_blank (fd_semantic_type f) = false;
  vf_vector : fd_kind f = vector -> fd_ordering f <> [];
  vf_bounds : forall b l u, fd_bounds f = Some b -> sb_lower b = Some l -> sb_upper b = Some u ->
    (l <=? u)%fp = true \/ is_nan l = true \/ is_nan u = true }.

(** Bindings with distinct names and distinct robot data, to fields of a schema. *)
Record ValidBindings (bindings : list RobotPolicyBinding) (schema : list SemanticField) : Prop := {
  vb_names : NoDup (map bn_name bindings);
  vb_robot_data : NoDup (map bn_robot_data bindings);
  vb_fields : forall b, b ∈ bindings -> exists f, f ∈ schema /\ fd_name f = bn_canonical_field b }.

Record ValidPolicy (p : PolicyProfile) : Prop := {
  vo_id : is_blank (pp_id p) = false /\ is_blank (pp_policy p) = false;
  vo_observations : NoDup (map fd_name (pp_observation_schema p)) /\ Forall ValidField (pp_observation_schema p);
  vo_actions : NoDup (map fd_name (pp_action_schema p)) /\ Forall ValidField (pp_action_schema p);
  vo_inputs : ValidBindings (pp_inputs p) (pp_observation_schema p);
  vo_outputs : ValidBindings (pp_outputs p) (pp_action_schema p);
  vo_pairs : length (pp_inputs p) = length (pp_outputs p);
  vo_horizon : 1 <= tp_action_horizon (pp_temporal p) /\ 1 <= tp_observation_history (pp_temporal p) }.

Lemma required_string_blank object key section e e' s :
  required_string object key section true e = (e', Some s) -> is_blank s = false.
Proof.
  unfold required_string. destruct (member object key) as [[]|]; intros H; parse_inv.
  destruct (is_blank _) eqn:E; cbn in H; parse_inv. done.
Qed.

Lemma parse_bounds_valid value e e' b l u :
  parse_bounds value e = (e', Some b) -> sb_lower b = Some l -> sb_upper b = Some u ->
  (l <=? u)%fp = true \/ is_nan l = true \/ is_nan u = true.
Proof.
  unfold parse_bounds. destruct value; intros H; parse_inv.
  destruct x0 as [lower|], x2 as [upper|]; parse_inv; try done.
  destruct (upper <? lower)%fp eqn:E; parse_inv. cbn. intros [= <-] [= <-].
  destruct (is_nan lower) eqn:El; [auto|]. destruct (is_nan upper) eqn:Eu; [auto|].
  left. by apply SFltb_false_leb.
Qed.

Lemma parse_semantic_field_valid value e e' f : parse_semantic_field value e = (e', Some f) -> ValidField f.
Proof.
  unfold parse_semantic_field. intros H. parse_inv.
  destruct x2 as [name|]; [|by parse_inv]. destruct x4 as [type|]; [|by parse_inv]. parse_inv.
  repeat match goal with H : required_string _ _ _ _ _ = _ |- _ => apply required_string_blank in H end.
  constructor; cbn; [done|done| |].
  - intros ->. match goal with H : check _ _ _ = _ |- _ => revert H end. unfold check.
    rewrite bool_decide_true by done. cbn. intros Hc Ho. by rewrite bool_decide_true in Hc.
  - intros b l u ->. destruct (member x0 "bounds") as [[]|]; parse_inv; simplify_eq;
      intros; by eapply parse_bounds_valid.
Qed.

Lemma fold_parse_forall {A B} (parse : A -> Parse B) (Q : B -> Prop) l : forall acc e e' r,
  (forall a e e' b, parse a e = (e', Some b) -> Q b) -> Forall Q acc ->
  fold_parse (fun output value => item ← parse value; mret (output ++ [item])%list) acc l e = (e', Some r) ->
  Forall Q r.
Proof.
  induction l as [|a l IH]; intros acc e e' r Hp Ha H; cbn [fold_parse] in H; parse_inv; [done|].
  eapply IH; [exact Hp| |exact H]. apply Forall_app. split; [done|]. constructor; [by eapply Hp|constructor].
Qed.

Lemma parse_semantic_fields_valid root key e e' fields :
  parse_semantic_fields root key e = (e', Some fields) -> Forall ValidField fields.
Proof.
  unfold parse_semantic_fields. destruct (member root key) as [[]|]; intros H; parse_inv.
  eapply fold_parse_forall; [|constructor|exact H]. intros. by eapply parse_semantic_field_valid.
Qed.

Lemma parse_count_positive value key output e e' n :
  1 <= output -> parse_count value key output e = (e', Some n) -> 1 <= n.
Proof.
  unfold parse_count. intros Ho H. destruct (member value key) as [item|]; [|by parse_inv].
  destruct (coerce_pydantic_positive_integer item) as [c|]; [|by parse_inv].
  destruct (Z.ltb_spec c 1); parse_inv. done.
Qed.

Lemma parse_temporal_positive root temporal e e' t :
  1 <= tp_action_horizon temporal -> 1 <= tp_observation_history temporal ->
  parse_temporal root temporal e = (e', Some t) ->
  1 <= tp_action_horizon t /\ 1 <= tp_observation_history t.
Proof.
  unfold parse_temporal. intros H1 H2 H. destruct (member root "temporal"); [|by parse_inv]. parse_inv.
  split; eapply parse_count_positive; [|eassumption| |eassumption]; done.
Qed.

Lemma unique_fields_names fields section : forall names e e' names',
  validate_unique_fields fields section names e = (e', Some names') ->
  NoDup (map fd_name fields) /\ (forall n, n ∈ map fd_name fields -> n ∉ names) /\
  forall n, n ∈ names' <-> n ∈ names \/ n ∈ map fd_name fields.
Proof.
  induction fields as [|f fields IH]; intros names e e' names' H; cbn in *.
  - parse_inv. split; [constructor|]. split; [by intros n ?%elem_of_nil|set_solver].
  - destruct (decide (fd_name f ∈ names)) as [|Hnew]; [done|].
    apply IH in H as (Hn & Hd & Hin). split; [|split].
    + constructor; [|done]. intros Hf. specialize (Hd _ Hf). set_solver.
    + intros n [->|Hf]%elem_of_cons; [done|]. specialize (Hd _ Hf). set_solver.
    + intros n. rewrite Hin. set_solver.
Qed.

Lemma bindings_from_valid bindings fields section : forall names robot_data e e',
  validate_bindings_from bindings fields section names robot_data e = (e', Some tt) ->
  NoDup (map bn_name bindings) /\ NoDup (map bn_robot_data bindings) /\
  (forall n, n ∈ map bn_name bindings -> n ∉ names) /\
  (forall n, n ∈ map bn_robot_data bindings -> n ∉ robot_data) /\
  forall b, b ∈ bindings -> bn_canonical_field b ∈ fields.
Proof.
  induction bindings as [|b bindings IH]; intros names robot_data e e' H; cbn in *.
  - split; [constructor|]. split; [constructor|]. split; [by intros n ?%elem_of_nil|].
    split; by intros n ?%elem_of_nil.
  - destruct (decide (bn_name b ∈ names)) as [|H1]; [done|].
    destruct (decide (bn_robot_data b ∈ robot_data)) as [|H2]; [done|].
    destruct (decide (bn_canonical_field b ∈ fields)) as [H3|]; [|done].
    apply IH in H as (Hn & Hr & Hdn & Hdr & Hf). split_and!.
    + constructor; [|done]. intros Hin. specialize (Hdn _ Hin). set_solver.
    + constructor; [|done]. intros Hin. specialize (Hdr _ Hin). set_solver.
    + intros n [->|Hin]%elem_of_cons; [done|]. specialize (Hdn _ Hin). set_solver.
    + intros n [->|Hin]%elem_of_cons; [done|]. specialize (Hdr _ Hin). set_solver.
    + intros x [->|Hin]%elem_of_cons; [done|by apply Hf].
Qed.

Lemma bindings_valid bindings fields names section e e' :
  (forall n, n ∈ names -> n ∈ map fd_name fields) ->
  validate_bindings bindings names section e = (e', Some tt) -> ValidBindings bindings fields.
Proof.
  intros Hs H. apply bindings_from_valid in H as (Hn & Hr & _ & _ & Hf). constructor; [done|done|].
  intros b Hb. apply Hf, Hs, list_elem_of_fmap in Hb as (f & -> & Hin). by exists f.
Qed.

Lemma load_policy_valid (path : string) (document : Document) (p : PolicyProfile) :
  load_policy_profile path document = success p -> ValidPolicy p.
Proof.
  unfold load_policy_profile. intros H. apply result_bind_success in H as (root & Hr & H).
  destruct root as [| | | | | | |root|]; try done. apply run_parse_success in H as [e H].
  unfold parse_policy in H. parse_inv.
  destruct x2 as [id|]; [|by parse_inv]. destruct x4 as [version|]; [|by parse_inv].
  destruct x6 as [policy|]; [|by parse_inv]. parse_inv.
  match goal with H : parse_sections _ _ _ _ _ _ _ = _ |- _ => unfold parse_sections in H end.
  match goal with H : validate_profile _ _ = _ |- _ => unfold validate_profile in H end.
  parse_inv. cbn in *.
  destruct (_ =? _)%nat eqn:El; cbn in *; parse_inv. apply Nat.eqb_eq in El.
  repeat match goal with
  | H : required_string _ _ _ true _ = _ |- _ => apply required_string_blank in H
  | H : parse_semantic_fields _ _ _ = _ |- _ => apply parse_semantic_fields_valid in H
  | H : parse_temporal _ _ _ = _ |- _ => apply parse_temporal_positive in H; [|done..]
  | H : validate_unique_fields _ _ _ _ = _ |- _ => apply unique_fields_names in H as (? & _ & ?)
  | u : unit |- _ => destruct u
  end.
  constructor; cbn; try done.
  - eapply bindings_valid; [|eassumption]. set_solver.
  - eapply bindings_valid; [|eassumption]. set_solver.
Qed.

(** C35. A policy profile that loads is well formed: the fields of each schema have distinct,
    non-blank names and types and a vector field names its components; where a field declares both
    bounds the lower one is at most the upper one, or one of them is NaN, which the loader lets
    pass (PolicyExamples.nan_bound_loads); inputs and outputs are in equal number, have distinct
    names and distinct robot data, and refer to fields of the observation and the action schema;
    the horizon and the history are at least one. *)
Theorem load_policy_profile_sound (path : string) (document : Document) (p : PolicyProfile) :
  load_policy_profile path document = success p -> ValidPolicy p.
Proof. apply load_policy_valid. Qed.

(** ** A policy profile *)

Module PolicyExamples.

Definition field (name : string) : Json :=
  JObject [("name", JString name); ("semantic_type", JString "joint"); ("kind", JString "vector");
           ("ordering", JArray [JString "j1"]);
           ("bounds", JObject [("lower", JString "-1_0.5"); ("upper", JUnsigned 2)])].

Definition binding (name target : string) : Json :=
  JObject [("name", JString name); ("robot_data", JString name); ("canonical_field", JString target);
           ("optional", JString "yes")].

Definition policy_root (target : string) : Json :=
  JObject [("id", JString "p"); ("version", JString "1"); ("policy", JString "dummy");
           ("inputs", JArray [binding "state" "q"]); ("outputs", JArray [binding "command" target]);
           ("canonical_observation_schema", JArray [field "q"]);
           ("canonical_action_schema", JArray [field "u"]);
           ("temporal", JObject [("mode", JString "chunked"); ("action_horizon", JString "1_6.0")])].

Definition policy : PolicyProfile :=
  match load_policy_profile "p.json" (parsed (policy_root "u")) with
  | success p => p
  | failure _ => mkPolicyProfile "" "" "" JNull [] [] [] [] TemporalSpec_default [] [] JNull
  end.

Example policy_horizon : tp_action_horizon (pp_temporal policy) = 16.
Proof. by vm_compute. Qed.

Lemma load_policy_profile_sound_witness : ValidPolicy policy.
Proof.
  apply (load_policy_profile_sound "p.json" (parsed (policy_root "u"))). vm_compute. reflexivity.
Defined.

(** The text nan is a number to the parser, and no order test fails on it. *)
Example nan_bound_loads :
  let f := JObject [("name", JString "q"); ("semantic_type", JString "joint"); ("kind", JString "vector");
    ("ordering", JArray [JString "j1"]);
    ("bounds", JObject [("lower", JString "nan"); ("upper", JUnsigned 2)])] in
  let root := JObject [("id", JString "p"); ("version", JString "1"); ("policy", JString "dummy");
    ("inputs", JArray [binding "state" "q"]); ("outputs", JArray [binding "command" "u"]);
    ("canonical_observation_schema", JArray [f]); ("canonical_action_schema", JArray [field "u"]);
    ("temporal", JObject [("mode", JString "chunked"); ("action_horizon", JUnsigned 16)])] in
  match load_policy_profile "p.json" (parsed root) with
  | success p =>
      match pp_observation_schema p with
      | [g] => (b ← fd_bounds g; sb_lower b) = Some S754_nan
      | _ => False
      end
  | failure _ => False
  end.
Proof. by vm_compute. Qed.

(** An output may not refer to an observation. *)
Example unknown_field_refused :
  load_policy_profile "p.json" (parsed (policy_root "q")) =
  fail invalid_argument "outputs.command references unknown canonical field 'q'".
Proof. by vm_compute. Qed.

End PolicyExamples.

End PolicyLoader.
