(* ===== verification/Policy.v ===== *)
(** * Policies and processors

    [policy/pipeline.cpp] and [policy/dummy_policy.cpp]: the processor pipelines of a policy
    profile, the policies [dummy] and [pi0_like], and [make_policy].

    The exceptions of the JSON library are outcomes; their texts ([json_error]) and the text the
    library prints for a number ([dump]) are parameters. *)
From S2P Require Export Prelude Floats Text Rpc PolicyLoader.

(** ** What a call does that can throw *)

(** [undefined]: the call leaves the arrays of the program. *)
Inductive Outcome (A : Type) :=
  | returned (a : A)
  | threw (what : string)
  | undefined.
Arguments returned {A}.
Arguments threw {A}.
Arguments undefined {A}.

#[export] Instance Outcome_ret : MRet Outcome := fun A a => returned a.
#[export] Instance Outcome_bind : MBind Outcome := fun A B f r =>
  match r with returned a => f a | threw what => threw what | undefined => undefined end.

(** ** Operations of the JSON library *)

(** [find] of a value of any type. *)
Definition find_in (v : Json) (key : string) : option Json :=
  match v with JObject entries => member entries key | _ => None end.

(** [size]. *)
Definition json_size (v : Json) : nat :=
  match v with
  | JNull => 0
  | JArray items => length items
  | JObject entries => length entries
  | _ => 1
  end.

(** [get<double>] of a number. *)
Definition as_double (v : Json) : option double :=
  match v with
  | JInteger z | JUnsigned z => Some (double_of_int z)
  | JFloat d => Some d
  | _ => None
  end.

(** [get<float>] of a number. *)
Definition as_float (v : Json) : option float :=
  match v with
  | JInteger z | JUnsigned z => Some (float_of_int z)
  | JFloat d => Some (convert 24 128 d)
  | _ => None
  end.

Module Policy.
Import PolicyLoader.
Open Scope string_scope.
Open Scope list_scope.

(** ** [pipeline.cpp] *)

Definition params_empty (params : Json) : bool := Nat.eqb (json_size params) 0.

(** The number of processors, never zero. *)
Definition ProcessorPipeline : Type := nat.

Fixpoint check_processors (specifications : list ProcessorSpec) (stage : string) : Result unit :=
  match specifications with
  | [] => success tt
  | s :: specifications =>
      if negb (String.eqb (pc_name s) "noop") then
        fail invalid_argument ("unknown " +:+ stage +:+ " processor: " +:+ pc_name s)
      else if negb (params_empty (pc_params s)) then
        fail invalid_argument ("noop " +:+ stage +:+ " processor does not accept parameters")
      else check_processors specifications stage
  end.

Definition create (specifications : list ProcessorSpec) (stage : string) : Result ProcessorPipeline :=
  _ ← check_processors specifications stage;
  success (match specifications with [] => 1%nat | _ => length specifications end).

Definition run (p : ProcessorPipeline) (value : Json) : Result Json :=
  if Nat.eqb p 0 then fail internal "processor pipeline is not initialized" else success value.

(** ** [python_repr] *)

Definition quote_char (value : string) : ascii :=
  if contains_text "'" value && negb (contains_text (String (ascii_of_N 34) "") value)
  then ascii_of_N 34 else ascii_of_N 39.

Definition hex_digit (n : N) : ascii :=
  if (n <? 10)%N then ascii_of_N (48 + n) else ascii_of_N (87 + n).

Definition backslash : ascii := ascii_of_N 92.

Definition repr_char (quote c : ascii) : string :=
  let byte := N_of_ascii c in
  if Ascii.eqb c quote || Ascii.eqb c backslash then String backslash (String c "")
  else if (byte =? 10)%N then String backslash "n"
  else if (byte =? 13)%N then String backslash "r"
  else if (byte =? 9)%N then String backslash "t"
  else if (byte <? 32)%N || (byte =? 127)%N then
    String backslash (String "x" (String (hex_digit (N.land (N.shiftr byte 4) 15))
      (String (hex_digit (N.land byte 15)) "")))
  else String c "".

Fixpoint repr_chars (quote : ascii) (value : string) : string :=
  match value with
  | EmptyString => ""
  | String c value => repr_char quote c +:+ repr_chars quote value
  end.

Definition python_string_repr (value : string) : string :=
  let quote := quote_char value in
  String quote (repr_chars quote value +:+ String quote "").

Section Repr.
Context (dump : Json -> string).

Fixpoint python_repr (value : Json) : string :=
  match value with
  | JNull => "None"
  | JBoolean b => if b then "True" else "False"
  | JString s => python_string_repr s
  | JArray items => "[" +:+ String.concat ", " (map python_repr items) +:+ "]"
  | JObject entries =>
      "{" +:+ String.concat ", " (map (fun e => python_string_repr e.1 +:+ ": " +:+ python_repr e.2) entries)
        +:+ "}"
  | _ => dump value
  end.

(** [Pi0LikePolicy::string_config] *)
Definition string_config (config : Json) (key fallback : string) : string :=
  match find_in config key with
  | None => fallback
  | Some (JString s) => s
  | Some v => python_repr v
  end.
End Repr.

(** ** The policies *)

Record PolicySession := mkSession { ps_session_id : string; ps_step_id : Z; ps_metadata : Json }.

Definition PolicySession_new (session_id : string) : PolicySession := mkSession session_id 0 (JObject []).

Inductive Policy :=
  | DummyPolicy (profile : PolicyProfile)
  | Pi0LikePolicy (checkpoint device precision : string).

Definition make_policy (dump : Json -> string) (profile : PolicyProfile) : Result Policy :=
  if String.eqb (pp_policy profile) "dummy" then success (DummyPolicy profile)
  else if String.eqb (pp_policy profile) "pi0_like" then
    success (Pi0LikePolicy (string_config dump (pp_model profile) "checkpoint" "")
               (string_config dump (pp_model profile) "device" "cpu")
               (string_config dump (pp_model profile) "precision" "fp16"))
  else fail invalid_argument ("unknown policy: " +:+ pp_policy profile).

(** The loop of the dummy policy over the bindings. *)
Fixpoint echo_bindings (inputs outputs : list RobotPolicyBinding) (observation : Json) (action : Entries)
    : Outcome Entries :=
  match inputs, outputs with
  | [], _ => returned action
  | _ :: _, [] => undefined
  | input :: inputs, output :: outputs =>
      echo_bindings inputs outputs observation
        (Rpc.store action (bn_canonical_field output)
           (default JNull (find_in observation (bn_canonical_field input))))
  end.

(** [action[key] = *found] when there is one. *)
Definition copy_field (observation : Json) (from to : string) (action : Entries) : Entries :=
  match find_in observation from with Some v => Rpc.store action to v | None => action end.

Definition dummy_infer (profile : PolicyProfile) (observation : Json) : Outcome (Result Json) :=
  match pp_inputs profile with
  | [] =>
      returned (success (JObject
        (copy_field observation "gripper_width" "gripper_command"
           (copy_field observation "joint_position" "joint_position_delta" []))))
  | inputs =>
      action ← echo_bindings inputs (pp_outputs profile) observation [];
      returned (success (JObject action))
  end.

(** The constants of the placeholder. *)
Definition delta : double := S754_finite false 5764607523034235 (-58).
Definition negative_delta : double := S754_finite true 5764607523034235 (-58).
Definition gripper_default : double := S754_finite false 5764607523034235 (-57).

Section Infer.
Context (json_error : string -> Json -> string).

(** [value(key, fallback)] of an object, for a text and for a number. *)
Definition text_value (entries : Entries) (key fallback : string) : Outcome string :=
  match member entries key with
  | None => returned fallback
  | Some (JString s) => returned s
  | Some v => threw (json_error "string" v)
  end.

Definition number_value (entries : Entries) (key : string) (fallback : double) : Outcome double :=
  match member entries key with
  | None => returned fallback
  | Some v => match as_double v with Some d => returned d | None => threw (json_error "number" v) end
  end.

Definition joint_entries (observation : Json) : Entries :=
  match find_in observation "joint_position" with Some (JObject entries) => entries | _ => [] end.

Definition gripper_value_of (observation : Json) : Outcome double :=
  match find_in observation "gripper_width" with
  | Some (JObject gripper) => number_value gripper "value" gripper_default
  | _ => returned gripper_default
  end.

Definition chunk_item (deltas : list Json) (names : Json) (unit : string) (gripper : double)
    (step_id : Z) (index : nat) : Json :=
  Rpc.object_of [
    ("joint_position_delta", Rpc.object_of [("values", JArray deltas); ("joint_names", names); ("unit", JString unit)]);
    ("gripper_command", Rpc.object_of [("value", JFloat gripper); ("unit", JString "m")]);
    ("meta", Rpc.object_of [("chunk_index", JUnsigned (Z.of_nat index)); ("step_id", JUnsigned step_id)])].

Definition pi0_infer (checkpoint device precision : string) (observation : Json) (session : PolicySession)
    : Outcome (Result Json) :=
  let joint := joint_entries observation in
  let values := default (JArray []) (member joint "values") in
  let names := default (JArray []) (member joint "joint_names") in
  unit ← text_value joint "unit" "rad";
  let deltas := map (fun index => JFloat (if Nat.even index then delta else negative_delta))
                  (seq 0 (json_size values)) in
  gripper ← gripper_value_of observation;
  let chunk := map (chunk_item deltas names unit gripper (ps_step_id session)) (seq 0 4) in
  returned (success (Rpc.object_of [
    ("action_chunk", JArray chunk);
    ("meta", Rpc.object_of [("backend", JString "pi0_like_placeholder"); ("checkpoint", JString checkpoint);
       ("device", JString device); ("precision", JString precision)])])).

Definition infer (p : Policy) (observation : Json) (session : PolicySession) : Outcome (Result Json) :=
  match p with
  | DummyPolicy profile => dummy_infer profile observation
  | Pi0LikePolicy checkpoint device precision => pi0_infer checkpoint device precision observation session
  end.
End Infer.

(** [reset] leaves both policies alone. *)
Definition reset (p : Policy) (session_id : string) : Policy := p.

Definition texts (l : list string) : Json := JArray (map JString l).

Definition capabilities (p : Policy) : Json :=
  match p with
  | DummyPolicy _ =>
      Rpc.object_of [("backend", JString "dummy");
        ("modalities", texts ["joint_position"; "gripper_width"; "task_text"]);
        ("temporal_modes", texts ["single_step"])]
  | Pi0LikePolicy _ _ _ =>
      Rpc.object_of [("backend", JString "pytorch_placeholder");
        ("modalities", texts ["image"; "joint_position"; "task_text"]);
        ("temporal_modes", texts ["single_step"; "chunked"])]
  end.

(** ** Facts *)

Lemma create_positive specifications stage p : create specifications stage = success p -> p <> 0%nat.
Proof.
  unfold create. intros (_ & _ & [= <-])%result_bind_success. by destruct specifications.
Qed.

Lemma run_created specifications stage p value :
  create specifications stage = success p -> run p value = success value.
Proof. intros H%create_positive. unfold run. by rewrite (proj2 (Nat.eqb_neq _ _)). Qed.

Lemma member_store entries name value key :
  member (Rpc.store entries name value) key = if String.eqb name key then Some value else member entries key.
Proof.
  induction entries as [|[k v] entries IH]; cbn; [done|].
  destruct (String.compare name k) eqn:E; cbn.
  - apply String.compare_eq_iff in E as ->. by destruct (String.eqb k key).
  - done.
  - rewrite IH. destruct (String.eqb_spec k key) as [->|]; [|done].
    destruct (String.eqb_spec name key) as [->|]; [|done].
    pose proof (String.compare_antisym key key) as E'. by rewrite E in E'.
Qed.

Lemma echo_bindings_defined inputs outputs observation action :
  (length inputs <= length outputs)%nat ->
  exists action', echo_bindings inputs outputs observation action = returned action'.
Proof.
  revert outputs action. induction inputs as [|i inputs IH]; intros [|o outputs] action Hl; cbn in *; try lia; eauto.
  apply IH. lia.
Qed.

(** The value a binding of the action gets: that of the last pair with its field. *)
Lemma echo_bindings_member inputs outputs observation action action' :
  NoDup (map bn_canonical_field outputs) ->
  echo_bindings inputs outputs observation action = returned action' ->
  forall k i o, inputs !! k = Some i -> outputs !! k = Some o ->
    member action' (bn_canonical_field o) =
      Some (default JNull (find_in observation (bn_canonical_field i))).
Proof.
  assert (forall inputs outputs action action', echo_bindings inputs outputs observation action = returned action' ->
    forall key, key ∉ map bn_canonical_field outputs -> member action' key = member action key) as Hother.
  { clear. induction inputs as [|i inputs IH]; intros [|o outputs] action action' H key Hk; cbn in H;
      try done; try by injection H as <-.
    cbn in Hk. apply not_elem_of_cons in Hk as [Hk1 Hk2]. rewrite (IH _ _ _ H key Hk2), member_store.
    by rewrite (proj2 (String.eqb_neq _ _)). }
  revert outputs action. induction inputs as [|i inputs IH]; intros [|o outputs] action Hnd H k i' o' Hi Ho; try done.
  cbn in Hnd, H. apply NoDup_cons in Hnd as [Hn Hnd]. destruct k as [|k].
  - cbn in Hi, Ho. simplify_eq. rewrite (Hother _ _ _ _ H _ Hn). by rewrite member_store, String.eqb_refl.
  - by eapply IH.
Qed.

Example constants :
  map Numbers.strtod_all ["0.02"; "-0.02"; "0.04"] = [Some delta; Some negative_delta; Some gripper_default].
Proof. vm_compute. reflexivity. Qed.

End Policy.
