(* ===== verification/CanBus.v ===== *)
(** * The CAN bus: SocketCAN transport and transport runtime

    [transport/socketcan/socketcan_transport.cpp] (module [SocketCan]) and
    [robot_io/daemon/transport_runtime.cpp] (module [TransportRuntime]).

    The results of the system calls are arguments; the descriptors the operations hand
    to [::close] are results.  A turn of a worker of the runtime is one step. *)
From Stdlib Require Import Sorting.Sorted.
From S2P Require Export Prelude Messages Mailbox Damiao.
Import VirtualCan.

(** ** [SocketCanTransport] *)

Module SocketCan.

Definition CAN_MAX_DLEN : Z := 8.
Definition CAN_SFF_MASK : Z := 0x7FF.
Definition CAN_EFF_FLAG : Z := 0x80000000.
Definition CAN_RTR_FLAG : Z := 0x40000000.
Definition CAN_ERR_FLAG : Z := 0x20000000.
Definition IFNAMSIZ : nat := 16.

(** [struct can_frame] of [linux/can.h]. *)
Record can_frame := mkRaw { can_id : Z; can_dlc : Z; raw_data : Bytes }.

Definition valid_dlc (dlc : Z) : bool := dlc <=? CAN_MAX_DLEN.

Section Handler.
(** The target of the receive handler. *)
Context {Target : Type}.

Record SocketCanTransport := mkSocketCan {
  fd_ : Z;
  owns_fd_ : bool;
  receive_handler_ : option Target }.

(** [SocketCanTransport(int)] *)
Definition of_fd (fd : Z) : SocketCanTransport := mkSocketCan fd false None.

Definition valid (t : SocketCanTransport) : bool := 0 <=? fd_ t.

(** The descriptors [if (owns_fd_ && fd_ >= 0) ::close(fd_)] closes: the destructor. *)
Definition destroy (t : SocketCanTransport) : list Z :=
  if owns_fd_ t && (0 <=? fd_ t) then [fd_ t] else [].

(** What a move leaves behind; the standard library empties a moved [std::function]. *)
Definition moved_from : SocketCanTransport := mkSocketCan (-1) false None.

(** The move constructor: the new object and what is left of [other]. *)
Definition move_construct (other : SocketCanTransport) : SocketCanTransport * SocketCanTransport :=
  (other, moved_from).

(** The move assignment between two distinct objects (a self-assignment does nothing):
    [this], [other] and the descriptors closed. *)
Definition move_assign (this other : SocketCanTransport)
    : SocketCanTransport * SocketCanTransport * list Z :=
  (other, moved_from, destroy this).

Definition open (t : SocketCanTransport) : Result unit :=
  if valid t then success tt else fail unavailable "SocketCAN descriptor is not open".

Definition close (t : SocketCanTransport) : SocketCanTransport * list Z :=
  (mkSocketCan (-1) false (receive_handler_ t), destroy t).

Inductive TransportHealth := healthy | degraded | failed.

Definition health (t : SocketCanTransport) : TransportHealth :=
  if valid t then healthy else failed.

Definition set_receive_handler (t : SocketCanTransport) (handler : Target) : SocketCanTransport :=
  mkSocketCan (fd_ t) (owns_fd_ t) (Some handler).

(** The static [open(interface_name)].  [socket_fd] is what [::socket] returns, the two
    booleans say whether [::ioctl] and [::bind] succeed.  The local object is moved into
    the result and then destroyed.  The second component lists the descriptors closed. *)
Definition open_interface (interface_name : string) (socket_fd : Z) (ioctl_ok bind_ok : bool)
    : Result SocketCanTransport * list Z :=
  if Nat.eqb (String.length interface_name) 0 || (IFNAMSIZ <=? String.length interface_name)%nat
  then (fail invalid_argument "invalid SocketCAN interface name", [])
  else if socket_fd <? 0 then (fail io "socket(PF_CAN)", [])
  else if negb ioctl_ok then (fail io "ioctl(SIOCGIFINDEX)", [socket_fd])
  else if negb bind_ok then (fail io "bind(SocketCAN)", [socket_fd])
  else
    let '(result, transport) := move_construct (mkSocketCan socket_fd true None) in
    (success result, destroy transport).

(** [written] is what [::write] returns, negative for an error; the frame handed to
    [::write] is the second component. *)
Definition send_frame (t : SocketCanTransport) (frame : CanFrame) (written : Z)
    : Result unit * option can_frame :=
  if (fd_ t <? 0) || (CAN_SFF_MASK <? cf_id frame) || negb (valid_dlc (Z.of_nat (cf_dlc frame)))
  then (fail invalid_argument "invalid CAN frame", None)
  else
    let raw :=
      mkRaw (cf_id frame) (Z.of_nat (cf_dlc frame))
        (take (cf_dlc frame) (cf_data frame) ++ replicate (8 - cf_dlc frame) 0) in
    (if written <? 0 then fail io "socketcan write"
     else if negb (written =? 16) then fail io "socketcan short write"
     else success tt, Some raw).

(** What [::read] does: an error ([again] for EAGAIN or EWOULDBLOCK), or [count] bytes of a
    raw frame. *)
Inductive read_outcome :=
  | read_error (again : bool)
  | read_bytes (count : Z) (raw : can_frame).

Definition receive_frame (t : SocketCanTransport) (o : read_outcome) : Result (option CanFrame) :=
  if fd_ t <? 0 then fail invalid_argument "invalid socketcan descriptor"
  else
    match o with
    | read_error true => success None
    | read_error false => fail io "socketcan read"
    | read_bytes received raw =>
        if received <? 16 then fail io "socketcan short read"
        else if has_flag (can_id raw) (Z.lor (Z.lor CAN_EFF_FLAG CAN_RTR_FLAG) CAN_ERR_FLAG)
        then success None
        else if negb (valid_dlc (can_dlc raw)) then fail protocol "invalid CAN DLC"
        else
          let dlc := Z.to_nat (can_dlc raw) in
          success (Some (mkCanFrame (Z.land (can_id raw) CAN_SFF_MASK)
            (take dlc (raw_data raw) ++ replicate (8 - dlc) 0) dlc))
    end.

(** The call [receive_once] makes to the handler, if any: which handler, and the frame.  What
    the handler throws is swallowed. *)
Definition receive_once (t : SocketCanTransport) (o : read_outcome) : option (Target * CanFrame) :=
  match receive_frame t o, receive_handler_ t with
  | success (Some frame), Some handler => Some (handler, frame)
  | _, _ => None
  end.

(** *** Frames *)

(** The part of a frame that travels: the identifier and the first [dlc] bytes. *)
Definition padded (frame : CanFrame) : CanFrame :=
  mkCanFrame (cf_id frame) (take (cf_dlc frame) (cf_data frame) ++ replicate (8 - cf_dlc frame) 0)
    (cf_dlc frame).

Lemma standard_id_flags id :
  0 <= id <= CAN_SFF_MASK ->
  has_flag id (Z.lor (Z.lor CAN_EFF_FLAG CAN_RTR_FLAG) CAN_ERR_FLAG) = false /\
  Z.land id CAN_SFF_MASK = id.
Proof.
  unfold CAN_SFF_MASK. intros Hid. assert (is_word 11 id) as Hw by (unfold is_word; lia).
  split.
  - unfold has_flag. apply negb_false_iff, Z.eqb_eq. apply Z.bits_inj'. intros i Hi.
    rewrite Z.land_spec, Z.bits_0. destruct (Z.lt_ge_cases i 11) as [Hlt|Hge].
    + replace (Z.lor _ CAN_ERR_FLAG) with (Z.shiftl 7 29) by reflexivity.
      rewrite Z.shiftl_spec, (Z.testbit_neg_r 7) by lia. apply andb_false_r.
    + by rewrite (testbit_out 11) by assumption.
  - change 0x7FF with (Z.ones 11). rewrite Z.land_ones by lia. apply Z.mod_small. exact Hw.
Qed.

(** Sending and receiving are inverse: a data frame that [send_frame] puts on the bus is
    received as the same identifier, length and payload (the rest of the payload zeroed);
    frames it refuses (no descriptor, an identifier over eleven bits, a length over eight)
    never reach the bus. *)
Theorem socketcan_roundtrip (t r : SocketCanTransport) (frame : CanFrame) (written : Z)
    (Hid : 0 <= cf_id frame) (Hlen : length (cf_data frame) = 8%nat) :
  match (send_frame t frame written).2 with
  | Some raw =>
      valid t = true /\ cf_id frame <= CAN_SFF_MASK /\ (cf_dlc frame <= 8)%nat /\
      length (raw_data raw) = 8%nat /\
      ((send_frame t frame written).1 = success tt <-> written = 16) /\
      (valid r = true -> receive_frame r (read_bytes 16 raw) = success (Some (padded frame)))
  | None =>
      (valid t = false \/ CAN_SFF_MASK < cf_id frame \/ (8 < cf_dlc frame)%nat) /\
      result_code (send_frame t frame written).1 = Some invalid_argument
  end.
Proof.
  unfold send_frame, valid, valid_dlc, CAN_MAX_DLEN.
  destruct (Z.ltb_spec (fd_ t) 0), (Z.ltb_spec CAN_SFF_MASK (cf_id frame)),
    (Z.leb_spec (Z.of_nat (cf_dlc frame)) 8); cbn -[CAN_SFF_MASK Z.leb take];
    try (split; [|reflexivity]; rewrite ?Z.leb_gt; lia).
  assert (length (take (cf_dlc frame) (cf_data frame)) = cf_dlc frame) as Hp
    by (rewrite length_take; lia).
  split; [apply Z.leb_le; lia|]. split; [lia|]. split; [lia|]. split.
  { rewrite length_app, length_replicate, Hp. lia. }
  split.
  { destruct (Z.ltb_spec written 0); [split; [discriminate | lia]|].
    destruct (Z.eqb_spec written 16); cbn; split; (done || discriminate). }
  intros Hr%Z.leb_le. unfold receive_frame. destruct (Z.ltb_spec (fd_ r) 0); [lia|].
  cbn [can_id can_dlc raw_data].
  destruct (standard_id_flags (cf_id frame)) as [-> ->]; [lia|].
  unfold valid_dlc, CAN_MAX_DLEN.
  rewrite (proj2 (Z.leb_le _ 8)) by lia. cbn -[take]. rewrite Nat2Z.id. unfold padded.
  do 3 f_equal. rewrite take_app_le by lia. by rewrite take_ge by lia.
Qed.

End Handler.
Arguments SocketCanTransport : clear implicits.

Lemma socketcan_roundtrip_witness :
  receive_frame (of_fd (Target := unit) 4)
    (read_bytes 16 (mkRaw 0x123 3 [1; 2; 3; 0; 0; 0; 0; 0])) =
    success (Some (mkCanFrame 0x123 [1; 2; 3; 0; 0; 0; 0; 0] 3)).
Proof.
  pose proof (socketcan_roundtrip (of_fd (Target := unit) 3) (of_fd (Target := unit) 4)
    (mkCanFrame 0x123 [1; 2; 3; 9; 9; 9; 9; 9] 3) 16 ltac:(vm_compute; discriminate)
    eq_refl) as W.
  cbn in W. apply W. reflexivity.
Defined.

(** *** Descriptors

    The transports that exist, by address, and the descriptors of the process that
    [open_interface] obtained and nobody closed; [w_double] records every [::close] of a
    descriptor that was not open. *)
Section Descriptors.
Context {Target : Type}.

Record world := mkWorld {
  w_objects : gmap nat (SocketCanTransport Target);
  w_open : gset Z;
  w_double : list Z }.

Definition initial : world := mkWorld ∅ ∅ [].

Inductive op :=
  | op_of_fd (p : nat) (fd : Z)
  | op_open (p : nat) (interface_name : string) (socket_fd : Z) (ioctl_ok bind_ok : bool)
  | op_move_construct (p other : nat)
  | op_move_assign (p other : nat)
  | op_close (p : nat)
  | op_destroy (p : nat).

Definition close_fd (w : world) (fd : Z) : world :=
  if decide (fd ∈ w_open w)
  then mkWorld (w_objects w) (w_open w ∖ {[fd]}) (w_double w)
  else mkWorld (w_objects w) (w_open w) (w_double w ++ [fd]).

Definition close_fds (w : world) (fds : list Z) : world := fold_left close_fd fds w.

Definition with_objects (w : world) (objects : gmap nat (SocketCanTransport Target)) : world :=
  mkWorld objects (w_open w) (w_double w).

(** [None]: the program cannot do it (an address already or not yet in use), or the kernel
    cannot answer so ([::socket] returns a descriptor that is in use). *)
Definition step (w : world) (o : op) : option world :=
  match o with
  | op_of_fd p fd =>
      match w_objects w !! p with
      | Some _ => None
      | None => Some (with_objects w (<[p := of_fd fd]> (w_objects w)))
      end
  | op_open p name socket_fd ioctl_ok bind_ok =>
      if decide (socket_fd ∈ w_open w) then None
      else
        match w_objects w !! p with
        | Some _ => None
        | None =>
            let w1 :=
              if (0 <=? socket_fd) && negb (Nat.eqb (String.length name) 0) &&
                 (String.length name <? IFNAMSIZ)%nat
              then mkWorld (w_objects w) (w_open w ∪ {[socket_fd]}) (w_double w) else w in
            let '(result, closed) := open_interface name socket_fd ioctl_ok bind_ok in
            let w2 := close_fds w1 closed in
            Some match result with
                 | success t => with_objects w2 (<[p := t]> (w_objects w2))
                 | failure _ => w2
                 end
        end
  | op_move_construct p other =>
      match w_objects w !! p, w_objects w !! other with
      | None, Some t =>
          let '(this, rest) := move_construct t in
          Some (with_objects w (<[p := this]> (<[other := rest]> (w_objects w))))
      | _, _ => None
      end
  | op_move_assign p other =>
      match w_objects w !! p, w_objects w !! other with
      | Some t, Some u =>
          if decide (p = other) then Some w
          else
            let '(this, rest, closed) := move_assign t u in
            let w1 := close_fds w closed in
            Some (with_objects w1 (<[p := this]> (<[other := rest]> (w_objects w1))))
      | _, _ => None
      end
  | op_close p =>
      match w_objects w !! p with
      | Some t =>
          let '(this, closed) := close t in
          let w1 := close_fds w closed in
          Some (with_objects w1 (<[p := this]> (w_objects w1)))
      | None => None
      end
  | op_destroy p =>
      match w_objects w !! p with
      | Some t =>
          let w1 := close_fds w (destroy t) in
          Some (with_objects w1 (base.delete p (w_objects w1)))
      | None => None
      end
  end.

Fixpoint steps (w : world) (ops : list op) : option world :=
  match ops with
  | [] => Some w
  | o :: ops => match step w o with Some w => steps w ops | None => None end
  end.

Definition owns (w : world) (p : nat) (fd : Z) : Prop :=
  exists t, w_objects w !! p = Some t /\ destroy t = [fd].

(** Every descriptor obtained has exactly one owner, and none was closed twice. *)
Record owned (w : world) : Prop := {
  ow_open fd : fd ∈ w_open w <-> exists p, owns w p fd;
  ow_unique p q fd : owns w p fd -> owns w q fd -> p = q;
  ow_double : w_double w = [] }.

Lemma destroy_cases (t : SocketCanTransport Target) :
  destroy t = [] \/ (exists fd, destroy t = [fd] /\ 0 <= fd).
Proof.
  unfold destroy. destruct (owns_fd_ t), (Z.leb_spec 0 (fd_ t)); cbn; eauto.
Qed.

Lemma owns_insert w p q t fd :
  owns (with_objects w (<[p := t]> (w_objects w))) q fd <->
  (p = q /\ destroy t = [fd]) \/ (p <> q /\ owns w q fd).
Proof.
  unfold owns. cbn. destruct (decide (p = q)) as [->|Hne].
  - rewrite lookup_insert_eq. split; [intros (? & [= ->] & ?); auto|].
    intros [[_ ?]|[? _]]; [eauto | done].
  - rewrite lookup_insert_ne by done. naive_solver.
Qed.

Lemma owns_delete w p q fd :
  owns (with_objects w (base.delete p (w_objects w))) q fd <-> p <> q /\ owns w q fd.
Proof.
  unfold owns. cbn. destruct (decide (p = q)) as [->|Hne].
  - rewrite lookup_delete_eq. naive_solver.
  - rewrite lookup_delete_ne by done. naive_solver.
Qed.

(** Destroying what [p] holds closes its descriptor; until [p] is overwritten or deleted the
    object still names it. *)
Lemma close_owned w p t :
  owned w -> w_objects w !! p = Some t ->
  let w1 := close_fds w (destroy t) in
  w_objects w1 = w_objects w /\ w_double w1 = [] /\
  forall fd, fd ∈ w_open w1 <-> exists q, q <> p /\ owns w q fd.
Proof.
  intros Hw Hp. destruct (destroy_cases t) as [E|(fd & E & _)]; rewrite E; cbn.
  - split; [done|]. split; [apply Hw|]. intros fd. rewrite (ow_open _ Hw). split.
    + intros (q & Hq). exists q. split; [|done]. intros ->. destruct Hq as (t' & Ht' & E').
      congruence.
    + intros (q & _ & Hq). eauto.
  - assert (owns w p fd) as Ho by (exists t; done).
    unfold close_fd. rewrite decide_True by (apply Hw; eauto). cbn.
    split; [done|]. split; [apply Hw|]. intros fd'.
    rewrite elem_of_difference, elem_of_singleton, (ow_open _ Hw). split.
    + intros [(q & Hq) Hne]. exists q. split; [|done]. intros ->. destruct Hq as (t' & Ht' & E').
      congruence.
    + intros (q & Hne & Hq). split; [eauto|]. intros ->. by apply Hne, (ow_unique _ Hw _ _ fd).
Qed.

Lemma open_interface_cases name fd ioctl_ok bind_ok :
  let r := open_interface (Target := Target) name fd ioctl_ok bind_ok in
  if (0 <=? fd) && negb (Nat.eqb (String.length name) 0) && (String.length name <? IFNAMSIZ)%nat
  then
    (r.2 = [fd] /\ has_value r.1 = false) \/
    (r.2 = [] /\ r.1 = success (mkSocketCan fd true None) /\ 0 <= fd)
  else r.2 = [] /\ has_value r.1 = false.
Proof.
  unfold open_interface. destruct (Nat.eqb_spec (String.length name) 0);
    [rewrite andb_false_r; done|].
  destruct (Nat.leb_spec IFNAMSIZ (String.length name)); cbn [orb negb].
  { rewrite (proj2 (Nat.ltb_ge _ _)) by lia. by rewrite andb_false_r. }
  rewrite (proj2 (Nat.ltb_lt _ _)) by lia. rewrite !andb_true_r.
  destruct (Z.ltb_spec fd 0), (Z.leb_spec 0 fd); try lia; [done|].
  destruct ioctl_ok; [|left; done]. destruct bind_ok; [right; done | left; done].
Qed.

(** How an object map may change without the descriptors changing. *)
Lemma owned_map w w' (g : nat -> nat -> Prop) :
  owned w -> w_double w' = [] ->
  (forall fd, fd ∈ w_open w' <-> exists q, owns w' q fd) ->
  (forall p fd, owns w' p fd -> exists q, g p q /\ owns w q fd) ->
  (forall p p' q, g p q -> g p' q -> p = p') -> owned w'.
Proof.
  intros Hw Hn Ho Hg Hinj. split; [exact Ho | | exact Hn].
  intros p q fd (p0 & Hp0 & Hp)%Hg (q0 & Hq0 & Hq)%Hg.
  assert (p0 = q0) as -> by exact (ow_unique _ Hw _ _ _ Hp Hq). eauto.
Qed.

Lemma owned_of_fd w p fd :
  owned w -> w_objects w !! p = None ->
  owned (with_objects w (<[p := of_fd fd]> (w_objects w))).
Proof.
  intros Hw Hp.
  assert (forall q fd', owns (with_objects w (<[p := of_fd fd]> (w_objects w))) q fd' <->
    owns w q fd') as E.
  { intros q fd'. rewrite owns_insert. split; [intros [[_ [=]]|[_ ?]]; done|].
    intros Hq. right. split; [|done]. intros ->. destruct Hq as (t & Ht & _). congruence. }
  apply (owned_map w _ eq Hw); [apply Hw| |naive_solver..].
  intros fd'. setoid_rewrite E. apply Hw.
Qed.

Lemma owned_new w p fd t :
  owned w -> w_objects w !! p = None -> fd ∉ w_open w -> destroy t = [fd] ->
  owned (mkWorld (<[p := t]> (w_objects w)) (w_open w ∪ {[fd]}) (w_double w)).
Proof.
  intros Hw Hp Hfd Ht.
  assert (forall q fd', owns (mkWorld (<[p := t]> (w_objects w)) (w_open w ∪ {[fd]}) (w_double w))
    q fd' <-> (p = q /\ fd' = fd) \/ owns w q fd') as E.
  { intros q fd'. etransitivity; [apply (owns_insert w)|]. rewrite Ht.
    assert (owns w p fd' -> False) by (intros (t' & Ht' & _); congruence).
    split; [intros [[<- [= ->]]|[_ ?]]; auto|]. intros [[<- ->]|Hq]; [auto|].
    right. split; [|done]. intros ->. auto. }
  split; cbn [w_open w_double]; [| |apply Hw].
  - intros fd'. setoid_rewrite E. rewrite elem_of_union, (ow_open _ Hw fd'), elem_of_singleton.
    split; [intros [(q & Hq)| ->]; eauto|]. intros (q & [[_ ->]|Hq]); eauto.
  - intros q q' fd'. rewrite !E. intros [[Hq ->]|Hq] [[Hq' Hf]|Hq'].
    + congruence.
    + destruct Hfd. apply Hw. eauto.
    + subst fd'. destruct Hfd. apply Hw. eauto.
    + exact (ow_unique _ Hw _ _ _ Hq Hq').
Qed.

(** An object stops holding its descriptor, which is closed. *)
Lemma owned_close w p t (m : gmap nat (SocketCanTransport Target)) :
  owned w -> w_objects w !! p = Some t ->
  (forall q fd, (exists t, m !! q = Some t /\ destroy t = [fd]) <-> q <> p /\ owns w q fd) ->
  owned (with_objects (close_fds w (destroy t)) m).
Proof.
  intros Hw Hp Hm. destruct (close_owned w p t Hw Hp) as (_ & Target' & Ho).
  apply (owned_map w _ eq Hw); [exact Target'| | |naive_solver].
  - intros fd. etransitivity; [apply Ho|]. split; intros (q & Hq); exists q; by apply Hm.
  - intros q fd Hq%Hm. exists q. split; [done | apply Hq].
Qed.

Lemma owned_transfer w p q t :
  owned w -> w_objects w !! q = Some t -> p <> q -> (forall fd, ~ owns w p fd) ->
  owned (with_objects w (<[p := t]> (<[q := moved_from]> (w_objects w)))).
Proof.
  intros Hw Hq Hne Hp.
  set (w' := with_objects w _).
  assert (forall r fd, owns w' r fd <-> (r = p /\ owns w q fd) \/ (r <> p /\ r <> q /\ owns w r fd))
    as E.
  { intros r fd. unfold w'.
    etransitivity;
      [exact (owns_insert (with_objects w (<[q := moved_from]> (w_objects w))) p r t fd)|].
    rewrite owns_insert. cbn [destroy moved_from owns_fd_ andb].
    unfold owns at 2. setoid_rewrite Hq.
    split.
    - intros [[<- Target']|[Hr [[_ [=]]|[Hr' Ho]]]]; [left; eauto | right; eauto].
    - intros [[-> (t' & [= <-] & Target')]|(Hr & Hr' & Ho)]; [left; done | right; eauto]. }
  apply (owned_map w _ (fun r r0 => (r = p /\ r0 = q) \/ (r <> p /\ r <> q /\ r0 = r)) Hw);
    [apply Hw| | |].
  - intros fd. cbn. rewrite (ow_open _ Hw). setoid_rewrite E. split.
    + intros (r & Hr). destruct (decide (r = q)) as [->|]; [eauto|].
      destruct (decide (r = p)) as [->|]; [by destruct (Hp fd)|]. exists r. auto.
    + naive_solver.
  - intros r fd. rewrite E. naive_solver.
  - naive_solver.
Qed.

Lemma owned_forget w p t t' :
  owned w -> w_objects w !! p = Some t -> destroy t' = [] ->
  owned (with_objects (close_fds w (destroy t)) (<[p := t']> (w_objects w))).
Proof.
  intros Hw Hp Ht'. apply (owned_close w p t _ Hw Hp). intros q fd.
  etransitivity; [apply (owns_insert w)|]. rewrite Ht'. naive_solver.
Qed.

Lemma close_fds_objects fds w : w_objects (close_fds w fds) = w_objects w.
Proof.
  revert w. induction fds as [|fd fds IH]; intros w; [done|]. cbn. fold (close_fds (close_fd w fd) fds).
  rewrite IH. unfold close_fd. by case_decide.
Qed.

Lemma step_open_owned w p name fd ioctl_ok bind_ok w' :
  owned w -> step w (op_open p name fd ioctl_ok bind_ok) = Some w' -> owned w'.
Proof.
  intros Hw Hs. cbn in Hs. destruct (decide (fd ∈ w_open w)) as [|Hfd]; [discriminate|].
  destruct (w_objects w !! p) eqn:Hp; [discriminate|].
  pose proof (open_interface_cases name fd ioctl_ok bind_ok) as E. cbn zeta in E.
  destruct (open_interface name fd ioctl_ok bind_ok) as [r closed]. cbn [fst snd] in E.
  destruct ((0 <=? fd) && _ && _).
  - destruct E as [[-> Hr]|(-> & -> & Hpos)].
    + destruct r; [discriminate|]. injection Hs as <-. cbn. unfold close_fd. cbn.
      rewrite decide_True by set_solver. cbn.
      replace ((w_open w ∪ {[fd]}) ∖ {[fd]}) with (w_open w) by set_solver. by destruct w.
    + injection Hs as <-. cbn.
      apply (owned_new w p fd (mkSocketCan fd true None)); [done..|]. unfold destroy. cbn.
      by rewrite (proj2 (Z.leb_le _ _)) by lia.
  - destruct E as [-> Hr]. destruct r; [discriminate|]. injection Hs as <-. done.
Qed.

Lemma step_owned w o w' : owned w -> step w o = Some w' -> owned w'.
Proof.
  intros Hw Hs. destruct o as [p fd|p name fd io bo|p q|p q|p|p].
  - cbn in Hs. destruct (w_objects w !! p) eqn:Hp; [discriminate|]. injection Hs as <-.
    by apply owned_of_fd.
  - eapply step_open_owned; eassumption.
  - cbn in Hs. destruct (w_objects w !! p) eqn:Hp; [discriminate|].
    destruct (w_objects w !! q) as [t|] eqn:Hq; [|discriminate]. injection Hs as <-.
    apply owned_transfer; [done..|congruence|]. intros fd (t' & Ht' & _). congruence.
  - cbn in Hs. destruct (w_objects w !! p) as [t|] eqn:Hp; [|discriminate].
    destruct (w_objects w !! q) as [u|] eqn:Hq; [|discriminate].
    destruct (decide (p = q)) as [->|Hne]; [congruence|]. injection Hs as <-.
    rewrite close_fds_objects.
    pose proof (owned_forget w p t moved_from Hw Hp eq_refl) as Hf.
    assert (owned (with_objects (with_objects (close_fds w (destroy t)) (<[p := moved_from]> (w_objects w)))
      (<[p := u]> (<[q := moved_from]> (<[p := moved_from]> (w_objects w)))))) as Hr.
    { apply owned_transfer; [done| |done|].
      - cbn. by rewrite lookup_insert_ne.
      - intros fd (t' & Ht' & E). cbn in Ht'. rewrite lookup_insert_eq in Ht'. by simplify_eq. }
    rewrite (insert_insert_ne _ q p), insert_insert_eq in Hr by done. exact Hr.
  - cbn in Hs. destruct (w_objects w !! p) as [t|] eqn:Hp; [|discriminate]. injection Hs as <-.
    rewrite close_fds_objects. by apply owned_forget.
  - cbn in Hs. destruct (w_objects w !! p) as [t|] eqn:Hp; [|discriminate]. injection Hs as <-.
    rewrite close_fds_objects. apply owned_close with (p := p); [done..|]. intros q fd.
    etransitivity; [apply (owns_delete w)|]. naive_solver.
Qed.

(** Descriptors are closed exactly once: whatever transports are opened, wrapped around
    foreign descriptors, moved, assigned, closed and destroyed in whatever order, no
    descriptor is ever closed twice, every descriptor that is open belongs to exactly one
    transport, and when no transport that owns one is left all have been closed. *)
Theorem socketcan_descriptors (ops : list op) (w : world) (Hrun : steps initial ops = Some w) :
  w_double w = [] /\
  (forall fd, fd ∈ w_open w <-> exists p, owns w p fd) /\
  (forall p q fd, owns w p fd -> owns w q fd -> p = q) /\
  (map_Forall (fun _ t => destroy t = []) (w_objects w) -> w_open w = ∅).
Proof.
  assert (forall ops w0, owned w0 -> steps w0 ops = Some w -> owned w) as Hinv.
  { clear. intros ops. induction ops as [|o ops IH]; intros w0 H0 Hs; cbn in Hs.
    - congruence.
    - destruct (step w0 o) as [w1|] eqn:E; [|discriminate]. eauto using step_owned. }
  destruct (Hinv ops initial) as [Ho Hu Hd]; [|exact Hrun|].
  { split; [|by intros ? ? ? (t & Ht & _)|done]. intros fd. split; [set_solver|].
    by intros (p & t & Ht & _). }
  split; [done|]. split; [done|]. split; [done|]. intros Hnone. apply set_eq. intros fd.
  rewrite Ho. split; [|set_solver]. intros (p & t & Ht & E). pose proof (Hnone p t Ht) as N.
  cbn in N. congruence.
Qed.

End Descriptors.
Arguments world : clear implicits.
Arguments op : clear implicits.

(** A transport is opened on descriptor 3, moved, assigned over one opened on descriptor 4,
    and everything is destroyed. *)
Lemma socketcan_descriptors_witness :
  exists w : world unit,
    steps initial
      [op_open 0 "can0" 3 true true; op_open 1 "can1" 4 true true; op_open 2 "can2" 5 true false;
       op_move_construct 2 0; op_move_assign 1 2; op_destroy 0; op_destroy 2; op_destroy 1]
      = Some w /\ w_open w = ∅ /\ w_double w = [].
Proof.
  eexists. split; [vm_compute; reflexivity|].
  assert (forall w : world unit,
    steps initial
      [op_open 0 "can0" 3 true true; op_open 1 "can1" 4 true true; op_open 2 "can2" 5 true false;
       op_move_construct 2 0; op_move_assign 1 2; op_destroy 0; op_destroy 2; op_destroy 1]
      = Some w -> w_objects w = ∅ -> w_open w = ∅ /\ w_double w = []) as W.
  { intros w Hw Hm. destruct (socketcan_descriptors _ w Hw) as (Hd & _ & _ & Hn).
    split; [|exact Hd]. apply Hn. rewrite Hm. apply map_Forall_empty. }
  apply W; vm_compute; reflexivity.
Defined.

End SocketCan.
