(* ===== verification/TransportRuntime.v ===== *)
(** * The transport runtime

    [robot_io/daemon/transport_runtime.cpp]: the cycle and receive workers over a generic
    transport or a SocketCAN transport, with the actuator slots.

    A call of the interface and a turn of a worker are one step each; the objects have
    addresses, because the threads and the receive handler capture [this].  Joining is part of
    [stop]: no turn of a worker is under way when [stop] returns.  The periods the workers
    sleep are not modelled: any order of turns is allowed. *)
From Stdlib Require Import Sorting.Sorted.
From S2P Require Export Prelude Messages Mailbox Damiao CanBus.
Import VirtualCan.

Module TransportRuntime.
Import SocketCan.

(** The virtual functions of [Transport] and [AsynchronousTransport]; [tp_cycle] takes the
    sequence number and the period of the [CycleContext]. *)
Record Transport (T : Type) := mkTransport {
  tp_open : T -> Result unit * T;
  tp_close : T -> T;
  tp_cycle : Z -> Z -> T -> T;
  tp_receive_once : T -> T;
  tp_request_stop : T -> T }.
Arguments tp_open {T}.
Arguments tp_close {T}.
Arguments tp_cycle {T}.
Arguments tp_receive_once {T}.
Arguments tp_request_stop {T}.

Inductive Mode := generic | can.

Record Slot := mkSlot { mailbox : option DeviceFrame; consumed_sequence : Z }.

(** A [std::jthread] and the [this] its function captured; [wk_sequence] is the local variable
    of [cycle_loop], [wk_done] says that the function has returned. *)
Record worker := mkWorker { wk_self : nat; wk_sequence : Z; wk_done : bool }.

Definition spawn (self : nat) : worker := mkWorker self 0 false.

(** [transport_] is a pointer; [asynchronous_transport_] is null or the same object as
    [transport_] or [can_transport_].  The receive handler of [can_transport_] is the [this] it
    captured. *)
Record TransportRuntime := mkRuntime {
  mode_ : Mode;
  transport_ : option nat;
  can_transport_ : option (SocketCanTransport nat);
  asynchronous_transport_ : bool;
  period_ : Z;
  callback_ : bool;
  slots_ : list Slot;
  running_ : bool;
  worker_ : option worker;
  receive_worker_ : option worker;
  receive_sequence_ : Z }.

Definition with_running (r : TransportRuntime) (running : bool) : TransportRuntime :=
  mkRuntime (mode_ r) (transport_ r) (can_transport_ r) (asynchronous_transport_ r) (period_ r)
    (callback_ r) (slots_ r) running (worker_ r) (receive_worker_ r) (receive_sequence_ r).

Definition with_workers (r : TransportRuntime) (w rw : option worker) : TransportRuntime :=
  mkRuntime (mode_ r) (transport_ r) (can_transport_ r) (asynchronous_transport_ r) (period_ r)
    (callback_ r) (slots_ r) (running_ r) w rw (receive_sequence_ r).

Definition with_slots (r : TransportRuntime) (slots : list Slot) : TransportRuntime :=
  mkRuntime (mode_ r) (transport_ r) (can_transport_ r) (asynchronous_transport_ r) (period_ r)
    (callback_ r) slots (running_ r) (worker_ r) (receive_worker_ r) (receive_sequence_ r).

Definition with_receive_sequence (r : TransportRuntime) (n : Z) : TransportRuntime :=
  mkRuntime (mode_ r) (transport_ r) (can_transport_ r) (asynchronous_transport_ r) (period_ r)
    (callback_ r) (slots_ r) (running_ r) (worker_ r) (receive_worker_ r) n.

(** *** The slots *)

(** [stage] on the slots. *)
Definition stage (r : TransportRuntime) (slot : nat) (frame : DeviceFrame)
    : Result unit * TransportRuntime :=
  match mode_ r, slots_ r !! slot with
  | can, Some s =>
      if 256 <? fr_size frame
      then (fail invalid_argument "transport frame slot or size is invalid", r)
      else
        (success tt,
         with_slots r (<[slot := mkSlot (CommandMailbox.publish frame) (consumed_sequence s)]>
           (slots_ r)))
  | _, _ => (fail invalid_argument "transport frame slot or size is invalid", r)
  end.

(** The [CanFrame] of a [DeviceFrame].  [None]: [std::copy_n] leaves the eight bytes of the
    frame. *)
Definition can_of (frame : DeviceFrame) : option CanFrame :=
  let dlc := Z.to_nat (u8 (fr_size frame)) in
  if (8 <? dlc)%nat then None
  else
    Some (mkCanFrame (fr_address frame)
      (take dlc (fr_bytes frame ++ replicate 256 0) ++ replicate (8 - dlc) 0) dlc).

(** What the worker did with a frame: the frame and what [send_frame] gave to [::write]. *)
Record sending := mkSending { sd_slot : nat; sd_frame : DeviceFrame; sd_raw : option can_frame }.

(** One slot in a turn of [cycle_loop]; the result of [send_frame] is ignored. *)
Definition send_slot {Target} (t : SocketCanTransport Target) (index : nat) (slot : Slot) (written : Z)
    : option (Slot * list sending) :=
  match CommandMailbox.read_latest fr_sequence (mailbox slot) (consumed_sequence slot) with
  | None => Some (slot, [])
  | Some frame =>
      match can_of frame with
      | None => None
      | Some c =>
          Some (mkSlot (mailbox slot) (fr_sequence frame),
                [mkSending index frame (send_frame t c written).2])
      end
  end.

(** The loop over the slots, from the slot [index]; [writes] is what each [::write] returns. *)
Fixpoint send_slots {Target} (t : SocketCanTransport Target) (index : nat) (slots : list Slot)
    (writes : nat -> Z) : option (list Slot * list sending) :=
  match slots with
  | [] => Some ([], [])
  | slot :: slots =>
      '(slot, sent) ← send_slot t index slot (writes index);
      '(slots, more) ← send_slots t (S index) slots writes;
      Some (slot :: slots, sent ++ more)
  end.

(** *** The objects *)

Section Objects.
Context {T : Type} (ops : Transport T).

(** The runtimes by address, the generic transports by address, the frames handled by the
    workers, the calls of the callbacks (the object whose callback it is, the frame and its
    sequence number) and the descriptors closed. *)
Record heap := mkHeap {
  h_runtimes : gmap nat TransportRuntime;
  h_transports : gmap nat T;
  h_sent : list sending;
  h_received : list (nat * DeviceFrame * Z);
  h_closed : list Z }.

Definition put (h : heap) (p : nat) (r : TransportRuntime) : heap :=
  mkHeap (<[p := r]> (h_runtimes h)) (h_transports h) (h_sent h) (h_received h) (h_closed h).

Definition with_transport (h : heap) (q : nat) (t : T) : heap :=
  mkHeap (h_runtimes h) (<[q := t]> (h_transports h)) (h_sent h) (h_received h) (h_closed h).

Definition add_closed (h : heap) (fds : list Z) : heap :=
  mkHeap (h_runtimes h) (h_transports h) (h_sent h) (h_received h) (h_closed h ++ fds).

Definition on_transport (h : heap) (q : nat) (f : T -> T) : heap :=
  match h_transports h !! q with Some t => with_transport h q (f t) | None => h end.

(** The constructors; [set_receive_handler] captures the address [p] of the new object. *)
Definition create_generic (h : heap) (p transport : nat) (asynchronous : bool) (period : Z)
    : Result unit * heap :=
  if period <=? 0
  then (fail invalid_argument "transport runtime period must be positive", h)
  else
    (success tt,
     put h p (mkRuntime generic (Some transport) None asynchronous period false [] false None None 0)).

Definition create_can (h : heap) (p : nat) (transport : SocketCanTransport nat) (callback : bool)
    (actuator_slots : nat) : Result unit * heap :=
  if negb (valid transport) || negb callback || Nat.eqb actuator_slots 0
  then
    (fail invalid_argument "transport runtime requires an open transport and callback",
     add_closed h (destroy transport))
  else
    (success tt,
     put h p (mkRuntime can None (Some (set_receive_handler transport p)) true 1000000 callback
       (replicate actuator_slots (mkSlot None 0)) false None None 0)).

(** [stop]: the assignments of an empty [std::jthread] join the workers. *)
Definition stop (h : heap) (p : nat) (r : TransportRuntime) : heap :=
  let h1 :=
    match asynchronous_transport_ r, mode_ r, transport_ r with
    | true, generic, Some q => on_transport h q (tp_request_stop ops)
    | _, _, _ => h
    end in
  let h2 := put h1 p (with_workers (with_running r false) None None) in
  match mode_ r, transport_ r with
  | generic, Some q => on_transport h2 q (tp_close ops)
  | _, _ => h2
  end.

(** [start]; [spawn1] and [spawn2] say whether the constructor of the first and of the second
    thread succeeds.  In both modes the workers captured [this].  [None]: [transport_] dangles. *)
Definition start (h : heap) (p : nat) (r : TransportRuntime) (spawn1 spawn2 : bool)
    : option (Result unit * heap) :=
  let failed h r :=
    Some (fail internal "failed to start transport runtime workers", stop h p r) in
  if running_ r then Some (fail invalid_argument "transport runtime is already running", h)
  else
    let r := with_running r true in
    match mode_ r with
    | generic =>
        match transport_ r with
        | None => Some (fail invalid_argument "generic transport is missing", h)
        | Some q =>
            match h_transports h !! q with
            | None => None
            | Some t =>
                let '(opened, t) := tp_open ops t in
                let h := with_transport h q t in
                match opened with
                | failure e => Some (failure e, h)
                | success _ =>
                    if negb spawn1 then failed h r
                    else
                      let r := with_workers r (Some (spawn p)) (receive_worker_ r) in
                      if negb (asynchronous_transport_ r) then Some (success tt, put h p r)
                      else if negb spawn2 then failed h r
                      else Some (success tt, put h p (with_workers r (worker_ r) (Some (spawn p))))
                end
            end
        end
    | can =>
        if negb spawn1 then failed h r
        else
          let r := with_workers r (worker_ r) (Some (spawn p)) in
          if negb spawn2 then failed h r
          else Some (success tt, put h p (with_workers r (Some (spawn p)) (receive_worker_ r)))
    end.

Definition done (w : worker) : worker := mkWorker (wk_self w) (wk_sequence w) true.

Definition set_worker (h : heap) (p : nat) (w : worker) : heap :=
  match h_runtimes h !! p with
  | Some r => put h p (with_workers r (Some w) (receive_worker_ r))
  | None => h
  end.

Definition set_receive_worker (h : heap) (p : nat) (w : worker) : heap :=
  match h_runtimes h !! p with
  | Some r => put h p (with_workers r (worker_ r) (Some w))
  | None => h
  end.

(** A turn of the [cycle_loop] of the thread that the object at [p] holds.  [None]: the object
    the thread captured no longer exists, a null pointer is followed, or a copy overflows. *)
Definition cycle_turn (h : heap) (p : nat) (writes : nat -> Z) : option heap :=
  r ← h_runtimes h !! p;
  match worker_ r with
  | None => Some h
  | Some w =>
      if wk_done w then Some h
      else
        this ← h_runtimes h !! wk_self w;
        if negb (running_ this) then Some (set_worker h p (done w))
        else
          match mode_ this with
          | generic =>
              q ← transport_ this;
              t ← h_transports h !! q;
              let h := with_transport h q (tp_cycle ops (wk_sequence w) (period_ this) t) in
              Some (set_worker h p (mkWorker (wk_self w) (u64 (wk_sequence w + 1)) false))
          | can =>
              t ← can_transport_ this;
              '(slots, sent) ← send_slots t 0 (slots_ this) writes;
              let h := put h (wk_self w) (with_slots this slots) in
              Some (mkHeap (h_runtimes h) (h_transports h) (h_sent h ++ sent) (h_received h)
                (h_closed h))
          end
  end.

(** The receive handler of the object [self]: the sequence number is consumed even when the
    callback is empty and its call throws. *)
Definition on_frame (h : heap) (self : nat) (c : CanFrame) : option heap :=
  this ← h_runtimes h !! self;
  let frame :=
    mkDeviceFrame 0 (cf_id c) (Z.of_nat (cf_dlc c)) (take (cf_dlc c) (cf_data c)) in
  let sequence := u64 (receive_sequence_ this + 1) in
  let h := put h self (with_receive_sequence this sequence) in
  Some (if callback_ this
        then mkHeap (h_runtimes h) (h_transports h) (h_sent h)
               (h_received h ++ [(self, frame, sequence)]) (h_closed h)
        else h).

(** A turn of the receive worker that the object at [p] holds. *)
Definition receive_turn (h : heap) (p : nat) (o : read_outcome) : option heap :=
  r ← h_runtimes h !! p;
  match receive_worker_ r with
  | None => Some h
  | Some w =>
      if wk_done w then Some h
      else
        this ← h_runtimes h !! wk_self w;
        if negb (running_ this) then Some (set_receive_worker h p (done w))
        else
          match mode_ this with
          | generic =>
              if asynchronous_transport_ this
              then
                q ← transport_ this;
                t ← h_transports h !! q;
                Some (with_transport h q (tp_receive_once ops t))
              else None
          | can =>
              t ← can_transport_ this;
              match receive_once t o with
              | None => Some h
              | Some (handler, frame) => on_frame h handler frame
              end
          end
  end.

(** *** Moves and destruction *)

(** The members of the object constructed at [p] by moving [other]. *)
Definition taken (p : nat) (other : TransportRuntime) : TransportRuntime :=
  mkRuntime (mode_ other) (transport_ other)
    (fmap (fun t => set_receive_handler t p) (can_transport_ other))
    (match mode_ other, can_transport_ other with
     | can, Some _ => true
     | can, None => false
     | generic, _ => asynchronous_transport_ other
     end)
    (period_ other) (callback_ other) (slots_ other) (running_ other) (worker_ other)
    (receive_worker_ other) (receive_sequence_ other).

(** What the move leaves in [other]. *)
Definition left_behind (other : TransportRuntime) : TransportRuntime :=
  mkRuntime (mode_ other) None None false (period_ other) false [] false None None
    (receive_sequence_ other).

Definition destroy_can (r : TransportRuntime) : list Z :=
  match can_transport_ r with Some t => destroy t | None => [] end.

Definition move_construct (h : heap) (p q : nat) (other : TransportRuntime) : heap :=
  put (put h p (taken p other)) q (left_behind other).

(** The assignment [*p = std::move( *q)] for distinct objects; a self-assignment does nothing. *)
Definition move_assign (h : heap) (p q : nat) (this other : TransportRuntime) : heap :=
  let h := stop h p this in
  let h := put (put h p (taken p other)) q (left_behind other) in
  add_closed h (destroy_can this).

Definition delete (h : heap) (p : nat) (r : TransportRuntime) : heap :=
  let h := stop h p r in
  mkHeap (base.delete p (h_runtimes h)) (h_transports h) (h_sent h) (h_received h)
    (h_closed h ++ destroy_can r).

Inductive op :=
  | op_create_generic (p transport : nat) (asynchronous : bool) (period : Z)
  | op_create_can (p : nat) (transport : SocketCanTransport nat) (callback : bool) (slots : nat)
  | op_start (p : nat) (spawn1 spawn2 : bool)
  | op_stop (p : nat)
  | op_stage (p slot : nat) (frame : DeviceFrame)
  | op_cycle (p : nat) (writes : nat -> Z)
  | op_receive (p : nat) (o : read_outcome)
  | op_move_construct (p q : nat)
  | op_move_assign (p q : nat)
  | op_delete (p : nat).

(** [None] also when the program cannot make the call: the address is in use, or not. *)
Definition step (h : heap) (o : op) : option heap :=
  match o with
  | op_create_generic p transport asynchronous period =>
      match h_runtimes h !! p with
      | Some _ => None
      | None => Some (create_generic h p transport asynchronous period).2
      end
  | op_create_can p transport callback slots =>
      match h_runtimes h !! p with
      | Some _ => None
      | None => Some (create_can h p transport callback slots).2
      end
  | op_start p spawn1 spawn2 =>
      r ← h_runtimes h !! p; fmap snd (start h p r spawn1 spawn2)
  | op_stop p => r ← h_runtimes h !! p; Some (stop h p r)
  | op_stage p slot frame =>
      r ← h_runtimes h !! p; Some (put h p (stage r slot frame).2)
  | op_cycle p writes => cycle_turn h p writes
  | op_receive p o => receive_turn h p o
  | op_move_construct p q =>
      match h_runtimes h !! p, h_runtimes h !! q with
      | None, Some other => Some (move_construct h p q other)
      | _, _ => None
      end
  | op_move_assign p q =>
      match h_runtimes h !! p, h_runtimes h !! q with
      | Some this, Some other =>
          Some (if Nat.eqb p q then h else move_assign h p q this other)
      | _, _ => None
      end
  | op_delete p => r ← h_runtimes h !! p; Some (delete h p r)
  end.

(** *** Objects and their workers *)

(** A runtime at [p] that does not run has no worker, and its receive handler is its own. *)
Definition runtime_ok (p : nat) (r : TransportRuntime) : Prop :=
  (running_ r = false -> worker_ r = None /\ receive_worker_ r = None) /\
  forall t, can_transport_ r = Some t -> receive_handler_ t = Some p.

Definition heap_ok (h : heap) : Prop := map_Forall runtime_ok (h_runtimes h).

Fixpoint steps (h : heap) (os : list op) : option heap :=
  match os with
  | [] => Some h
  | o :: os => match step h o with Some h => steps h os | None => None end
  end.

Definition no_runtime (transports : gmap nat T) : heap := mkHeap ∅ transports [] [] [].

Lemma put_ok h p r : heap_ok h -> runtime_ok p r -> heap_ok (put h p r).
Proof. intros Hh Hr. by apply map_Forall_insert_2. Qed.

Lemma on_transport_runtimes h q f : h_runtimes (on_transport h q f) = h_runtimes h.
Proof. unfold on_transport. by destruct (h_transports h !! q). Qed.

Lemma stop_runtimes h p r :
  h_runtimes (stop h p r) =
    <[p := with_workers (with_running r false) None None]> (h_runtimes h).
Proof.
  unfold stop. destruct (asynchronous_transport_ r), (mode_ r), (transport_ r);
    rewrite ?on_transport_runtimes; cbn; by rewrite ?on_transport_runtimes.
Qed.

Lemma stop_ok h p r : heap_ok h -> runtime_ok p r -> heap_ok (stop h p r).
Proof.
  intros Hh [_ Hr]. unfold heap_ok. rewrite stop_runtimes.
  apply map_Forall_insert_2; [|done]. by split.
Qed.

Lemma start_ok h p r s1 s2 x :
  heap_ok h -> runtime_ok p r -> start h p r s1 s2 = Some x -> heap_ok x.2.
Proof.
  intros Hh [Hr Hc] Hs. unfold start in Hs. destruct (running_ r); [by injection Hs as <-|].
  assert (forall h r', heap_ok h -> running_ r' = true -> can_transport_ r' = can_transport_ r ->
    heap_ok (put h p r')) as Hp.
  { intros h' r' Hh' Hr' Hc'. apply put_ok; [done|]. split; [congruence|]. by rewrite Hc'. }
  assert (forall h r', heap_ok h -> running_ r' = true -> can_transport_ r' = can_transport_ r ->
    heap_ok (stop h p r')) as Hst.
  { intros h' r' Hh' Hr' Hc'. apply stop_ok; [done|]. split; [congruence|]. by rewrite Hc'. }
  cbn in Hs. destruct (mode_ r).
  - destruct (transport_ r) as [q|]; [|by injection Hs as <-].
    destruct (h_transports h !! q) as [t|]; [|discriminate].
    destruct (tp_open ops t) as [[[]|e] t']; [|by injection Hs as <-].
    destruct s1; cbn in Hs; [|injection Hs as <-; by apply Hst].
    destruct (asynchronous_transport_ r); cbn in Hs; [|injection Hs as <-; by apply Hp].
    destruct s2; cbn in Hs; injection Hs as <-; [by apply Hp | by apply Hst].
  - destruct s1; cbn in Hs; [|injection Hs as <-; by apply Hst].
    destruct s2; cbn in Hs; injection Hs as <-; [by apply Hp | by apply Hst].
Qed.

Lemma set_worker_ok h p w r :
  heap_ok h -> h_runtimes h !! p = Some r -> worker_ r <> None -> heap_ok (set_worker h p w).
Proof.
  intros Hh Hp Hw. unfold set_worker. rewrite Hp. apply put_ok; [done|].
  destruct (Hh p r Hp) as [H1 H2]. split; [|done]. cbn. intros Hr. by destruct Hw; apply H1.
Qed.

Lemma set_receive_worker_ok h p w r :
  heap_ok h -> h_runtimes h !! p = Some r -> receive_worker_ r <> None ->
  heap_ok (set_receive_worker h p w).
Proof.
  intros Hh Hp Hw. unfold set_receive_worker. rewrite Hp. apply put_ok; [done|].
  destruct (Hh p r Hp) as [H1 H2]. split; [|done]. cbn. intros Hr. by destruct Hw; apply H1.
Qed.

Lemma cycle_turn_ok h p w h' : heap_ok h -> cycle_turn h p w = Some h' -> heap_ok h'.
Proof.
  intros Hh Hs. unfold cycle_turn in Hs. destruct (h_runtimes h !! p) as [r|] eqn:Hp; [|done].
  cbn in Hs. destruct (worker_ r) as [wk|] eqn:Hw; [|by injection Hs as <-].
  destruct (wk_done wk); [by injection Hs as <-|].
  destruct (h_runtimes h !! wk_self wk) as [this|] eqn:Ht; [|done]. cbn in Hs.
  destruct (running_ this) eqn:Hrun; cbn in Hs;
    [|injection Hs as <-; eapply (set_worker_ok h p _ r); [done..|by rewrite Hw]].
  destruct (mode_ this).
  - destruct (transport_ this) as [q|]; [|done]. cbn in Hs.
    destruct (h_transports h !! q); [|done]. injection Hs as <-.
    eapply (set_worker_ok (with_transport h q _) p _ r); [exact Hh | exact Hp | by rewrite Hw].
  - destruct (can_transport_ this) as [t|]; [|done]. cbn in Hs.
    destruct (send_slots t 0 (slots_ this) w) as [[slots sent]|]; [|done]. injection Hs as <-.
    apply (put_ok h (wk_self wk)); [done|]. destruct (Hh _ _ Ht). by split.
Qed.

Lemma receive_turn_ok h p o h' : heap_ok h -> receive_turn h p o = Some h' -> heap_ok h'.
Proof.
  intros Hh Hs. unfold receive_turn in Hs. destruct (h_runtimes h !! p) as [r|] eqn:Hp; [|done].
  cbn in Hs. destruct (receive_worker_ r) as [wk|] eqn:Hw; [|by injection Hs as <-].
  destruct (wk_done wk); [by injection Hs as <-|].
  destruct (h_runtimes h !! wk_self wk) as [this|] eqn:Ht; [|done]. cbn in Hs.
  destruct (running_ this) eqn:Hrun; cbn in Hs;
    [|injection Hs as <-; eapply (set_receive_worker_ok h p _ r); [done..|by rewrite Hw]].
  destruct (mode_ this).
  - destruct (asynchronous_transport_ this); [|done]. destruct (transport_ this) as [q|]; [|done].
    cbn in Hs. destruct (h_transports h !! q); [|done]. by injection Hs as <-.
  - destruct (can_transport_ this) as [t|]; [|done]. cbn in Hs.
    destruct (receive_once t o) as [[a c]|]; [|by injection Hs as <-].
    unfold on_frame in Hs. destruct (h_runtimes h !! a) as [x|] eqn:Ha; [|done].
    cbn in Hs. injection Hs as <-.
    assert (heap_ok (put h a (with_receive_sequence x (u64 (receive_sequence_ x + 1))))) as Hk.
    { apply put_ok; [done|]. destruct (Hh _ _ Ha). by split. }
    by destruct (callback_ x).
Qed.

Lemma taken_ok p other q : runtime_ok q other -> runtime_ok p (taken p other).
Proof.
  intros [H1 _]. split; [done|]. cbn. intros t. destruct (can_transport_ other); [|done].
  cbn. by intros [= <-].
Qed.

Lemma left_behind_ok q other : runtime_ok q (left_behind other).
Proof. by split. Qed.

Lemma stage_ok p r slot f : runtime_ok p r -> runtime_ok p (stage r slot f).2.
Proof.
  intros Hr. unfold stage. destruct (mode_ r); [done|]. destruct (slots_ r !! slot); [|done].
  by destruct (256 <? fr_size f).
Qed.

Lemma step_ok h o h' : heap_ok h -> step h o = Some h' -> heap_ok h'.
Proof.
  intros Hh Hs. destruct o as [p q a per|p t c n|p s1 s2|p|p i f|p w|p o|p q|p q|p]; cbn in Hs.
  - destruct (h_runtimes h !! p); [done|]. injection Hs as <-. unfold create_generic.
    destruct (per <=? 0); [done|]. by apply put_ok.
  - destruct (h_runtimes h !! p); [done|]. injection Hs as <-. unfold create_can.
    destruct (negb (valid t) || _ || _); [done|]. apply put_ok; [done|]. split; [done|].
    cbn. by intros ? [= <-].
  - destruct (h_runtimes h !! p) as [r|] eqn:Hp; [|done]. cbn in Hs.
    destruct (start h p r s1 s2) as [x|] eqn:E; [|done]. injection Hs as <-.
    eapply start_ok; [exact Hh | exact (Hh p r Hp) | exact E].
  - destruct (h_runtimes h !! p) as [r|] eqn:Hp; [|done]. injection Hs as <-.
    apply stop_ok; [done | exact (Hh p r Hp)].
  - destruct (h_runtimes h !! p) as [r|] eqn:Hp; [|done]. injection Hs as <-.
    apply put_ok; [done|]. apply stage_ok, (Hh p r Hp).
  - eapply cycle_turn_ok; eassumption.
  - eapply receive_turn_ok; eassumption.
  - destruct (h_runtimes h !! p); [done|]. destruct (h_runtimes h !! q) as [r|] eqn:Hq; [|done].
    injection Hs as <-. apply put_ok; [apply put_ok; [done|]|apply left_behind_ok].
    eapply taken_ok, (Hh q r Hq).
  - destruct (h_runtimes h !! p) as [r|] eqn:Hp; [|done].
    destruct (h_runtimes h !! q) as [r'|] eqn:Hq; [|done]. injection Hs as <-.
    destruct (Nat.eqb p q); [done|].
    apply put_ok; [apply put_ok; [apply stop_ok; [done | exact (Hh p r Hp)]|]|apply left_behind_ok].
    eapply taken_ok, (Hh q r' Hq).
  - destruct (h_runtimes h !! p) as [r|] eqn:Hp; [|done]. injection Hs as <-.
    apply map_Forall_delete, (stop_ok h p r Hh (Hh p r Hp)).
Qed.

(** The life cycle of the transport runtimes: whatever runtimes are created, started,
    stopped, moved, assigned and destroyed, however their workers are scheduled and whatever
    fails, a runtime that is not running has no worker left (so after [stop] nothing is sent
    or received for it any more), and frames received on its transport are given to its own
    callback, not to that of an object it was moved from. *)
Theorem runtime_life_cycle (transports : gmap nat T) (os : list op) (h : heap)
    (Hrun : steps (no_runtime transports) os = Some h) (p : nat) (r : TransportRuntime)
    (Hp : h_runtimes h !! p = Some r) :
  (running_ r = false ->
    (forall writes, cycle_turn h p writes = Some h) /\ (forall o, receive_turn h p o = Some h)) /\
  (exists r', h_runtimes (stop h p r) !! p = Some r' /\ running_ r' = false) /\
  forall t o a frame, can_transport_ r = Some t -> receive_once t o = Some (a, frame) -> a = p.
Proof.
  assert (heap_ok h) as Hh.
  { assert (heap_ok (no_runtime transports)) as H0 by apply map_Forall_empty.
    revert H0 Hrun. generalize (no_runtime transports). clear Hp.
    induction os as [|o os IH]; intros h0 H0 Hs; cbn in Hs; [by injection Hs as <-|].
    destruct (step h0 o) as [h1|] eqn:E; [|done]. eauto using step_ok. }
  destruct (Hh p r Hp) as [Hr Hc]. split.
  { intros [Hw Hrw]%Hr. unfold cycle_turn, receive_turn. rewrite Hp. cbn. by rewrite Hw, Hrw. }
  split.
  { rewrite stop_runtimes, lookup_insert_eq. eauto. }
  intros t o a frame Ht%Hc Hf. unfold receive_once in Hf. rewrite Ht in Hf.
  by destruct (receive_frame t o) as [[f|]|]; simplify_eq.
Qed.

(** Moving a runtime while it runs: the workers captured the old object, which no longer runs,
    so the new one reports that it is running and its worker ends at its next turn. *)
Lemma moved_runtime_stalls h p q r w :
  p <> q -> h_runtimes h !! q = Some r -> running_ r = true ->
  worker_ r = Some w -> wk_self w = q -> wk_done w = false ->
  let h' := move_construct h p q r in
  (exists r', h_runtimes h' !! p = Some r' /\ running_ r' = true /\ worker_ r' = Some w) /\
  forall writes, exists h'' r'',
    cycle_turn h' p writes = Some h'' /\ h_sent h'' = h_sent h /\
    h_runtimes h'' !! p = Some r'' /\ running_ r'' = true /\ worker_ r'' = Some (done w).
Proof.
  intros Hne Hq Hrun Hw Hs Hd h'.
  assert (h_runtimes h' !! p = Some (taken p r)) as Hp
    by (unfold h'; cbn; rewrite lookup_insert_ne by done; apply lookup_insert_eq).
  split; [exists (taken p r); done|]. intros writes.
  exists (set_worker h' p (done w)), (with_workers (taken p r) (Some (done w)) (receive_worker_ r)).
  split.
  - unfold cycle_turn. rewrite Hp. cbn -[move_construct]. rewrite Hw, Hd, Hs.
    assert (h_runtimes h' !! q = Some (left_behind r)) as -> by apply lookup_insert_eq.
    reflexivity.
  - unfold set_worker. rewrite Hp. split; [done|]. split; [apply lookup_insert_eq|]. done.
Qed.

End Objects.
Arguments heap : clear implicits.

(** A copy that leaves the eight bytes of a CAN frame: [stage] takes frames of up to 256 bytes. *)
Lemma oversized_frame_staged :
  let r := mkRuntime can None None true 1000000 true [mkSlot None 0] true None None 0 in
  let frame := mkDeviceFrame 1 0x101 9 (replicate 9 1) in
  (stage r 0 frame).1 = success tt /\ can_of frame = None.
Proof. split; reflexivity. Qed.

(** *** The slots of a runtime on the CAN bus

    Any interleaving of [stage] calls and turns of the cycle worker of one runtime whose
    transport is [t]. *)
Section Slots.
Context {Target : Type} (t : SocketCanTransport Target).

Inductive event :=
  | ev_stage (slot : nat) (frame : DeviceFrame)
  | ev_turn (writes : nat -> Z).

Fixpoint run (r : TransportRuntime) (sent : list sending) (evs : list event)
    : option (TransportRuntime * list sending) :=
  match evs with
  | [] => Some (r, sent)
  | ev_stage slot frame :: evs => run (stage r slot frame).2 sent evs
  | ev_turn writes :: evs =>
      '(slots, more) ← send_slots t 0 (slots_ r) writes;
      run (with_slots r slots) (sent ++ more) evs
  end.

Definition of_slot (i : nat) (sent : list sending) : list sending :=
  filter (fun x => sd_slot x = i) sent.

Definition sequences (i : nat) (sent : list sending) : list Z :=
  map (fun x => fr_sequence (sd_frame x)) (of_slot i sent).

Lemma filter_all {A} (P : A -> Prop) `{!forall x, Decision (P x)} l :
  Forall P l -> filter P l = l.
Proof. induction 1 as [|x l Hx _ IH]; [done|]. by rewrite filter_cons_True, IH. Qed.

Lemma filter_none {A} (P : A -> Prop) `{!forall x, Decision (P x)} l :
  Forall (fun x => ~ P x) l -> filter P l = [].
Proof. induction 1 as [|x l Hx _ IH]; [done|]. by rewrite filter_cons_False, IH. Qed.

Lemma send_slot_spec i s w s' l :
  send_slot t i s w = Some (s', l) ->
  (l = [] /\ s' = s /\ (forall f, mailbox s = Some f -> fr_sequence f <= consumed_sequence s)) \/
  (exists f c, mailbox s = Some f /\ consumed_sequence s < fr_sequence f /\ can_of f = Some c /\
    s' = mkSlot (mailbox s) (fr_sequence f) /\ l = [mkSending i f (send_frame t c w).2]).
Proof.
  unfold send_slot, CommandMailbox.read_latest. destruct (mailbox s) as [f|].
  - destruct (Z.leb_spec (fr_sequence f) (consumed_sequence s)).
    + intros [= <- <-]. left. split; [done|]. split; [done|]. by intros ? [= <-].
    + destruct (can_of f) as [c|] eqn:Hc; [|discriminate]. intros [= <- <-]. right. eauto 10.
  - intros [= <- <-]. left. done.
Qed.

Lemma send_slots_spec k slots w slots' sent :
  send_slots t k slots w = Some (slots', sent) ->
  length slots' = length slots /\
  Forall (fun x => (k <= sd_slot x < k + length slots)%nat) sent /\
  forall j s, slots !! j = Some s ->
    exists s', slots' !! j = Some s' /\
      send_slot t (k + j) s (w (k + j)%nat) = Some (s', of_slot (k + j) sent).
Proof.
  revert k slots' sent. induction slots as [|s slots IH]; intros k slots' sent H; cbn in H.
  { injection H as <- <-. split; [done|]. split; [constructor|]. intros j s' Hs. by destruct j. }
  destruct (send_slot t k s (w k)) as [[s1 l]|] eqn:Hs; [|discriminate]. cbn in H.
  destruct (send_slots t (S k) slots w) as [[slots1 more]|] eqn:Hm; [|discriminate].
  injection H as <- <-. destruct (IH _ _ _ Hm) as (Hlen & Hin & Hj).
  assert (Forall (fun x => sd_slot x = k) l) as Hl
    by (destruct (send_slot_spec _ _ _ _ _ Hs) as [(-> & _)|(f & c & _ & _ & _ & _ & ->)];
        repeat constructor).
  split; [cbn; lia|]. split.
  { apply Forall_app. split; eapply Forall_impl; [exact Hl| |exact Hin|]; cbn; lia. }
  intros [|j] s0; cbn.
  - intros [= <-]. exists s1. split; [done|]. rewrite Nat.add_0_r, Hs. f_equal. f_equal.
    unfold of_slot. rewrite filter_app. rewrite (filter_all _ l) by (eapply Forall_impl; [exact Hl|]; cbn; lia).
    rewrite (filter_none _ more); [by rewrite app_nil_r|].
    eapply Forall_impl; [exact Hin|]. cbn. lia.
  - intros Hs0. destruct (Hj j s0 Hs0) as (s' & Hs' & E). exists s'. split; [done|].
    replace (k + S j)%nat with (S k + j)%nat by lia. rewrite E. f_equal. f_equal. unfold of_slot.
    rewrite filter_app, (filter_none _ l); [done|].
    eapply Forall_impl; [exact Hl|]. cbn. lia.
Qed.

Lemma send_slots_defined k slots w :
  (forall s f, s ∈ slots -> mailbox s = Some f -> can_of f <> None) ->
  exists r, send_slots t k slots w = Some r.
Proof.
  revert k. induction slots as [|s slots IH]; intros k Hf; [cbn; eauto|]. cbn.
  assert (exists x, send_slot t k s (w k) = Some x) as [[s' l] ->].
  { unfold send_slot, CommandMailbox.read_latest. destruct (mailbox s) as [f|] eqn:Hm; [|eauto].
    destruct (fr_sequence f <=? consumed_sequence s); [eauto|].
    destruct (can_of f) eqn:Hc; [eauto|]. exfalso. apply (Hf s f); [left | |]; done. }
  cbn. destruct (IH (S k)) as [[slots' more] ->]; [|cbn; eauto].
  intros s0 f Hs0. apply Hf. by right.
Qed.

(** What holds after the events [past]. *)
Record slots_invariant (past : list event) (r : TransportRuntime) (sent : list sending) : Prop := {
  si_staged i s f : slots_ r !! i = Some s -> mailbox s = Some f -> ev_stage i f ∈ past;
  si_consumed i s : slots_ r !! i = Some s -> 0 <= consumed_sequence s;
  si_sent x : x ∈ sent ->
    ev_stage (sd_slot x) (sd_frame x) ∈ past /\
    (exists c w, can_of (sd_frame x) = Some c /\ sd_raw x = (send_frame t c w).2) /\
    exists s, slots_ r !! sd_slot x = Some s /\
      0 < fr_sequence (sd_frame x) <= consumed_sequence s;
  si_sorted i : StronglySorted Z.lt (sequences i sent) }.

Lemma stage_spec r i f :
  (stage r i f).2 = r \/
  exists s, slots_ r !! i = Some s /\
    (stage r i f).2 = with_slots r (<[i := mkSlot (Some f) (consumed_sequence s)]> (slots_ r)).
Proof.
  unfold stage. destruct (mode_ r); [by left|]. destruct (slots_ r !! i) as [s|] eqn:Hs; [|by left].
  destruct (256 <? fr_size f); [by left|]. right. eauto.
Qed.

Lemma stage_invariant past r sent i f :
  slots_invariant past r sent -> slots_invariant (past ++ [ev_stage i f]) (stage r i f).2 sent.
Proof.
  intros [Hst Hco Hse Hso]. destruct (stage_spec r i f) as [->|(s & Hs & ->)].
  - split; [| | |done]; intros *; rewrite ?elem_of_app; naive_solver.
  - assert (forall j s', <[i := mkSlot (Some f) (consumed_sequence s)]> (slots_ r) !! j = Some s' ->
      (j = i /\ s' = mkSlot (Some f) (consumed_sequence s)) \/ (j <> i /\ slots_ r !! j = Some s'))
      as Hup by (intros j s'; rewrite list_lookup_insert_Some; naive_solver).
    split; cbn [slots_ with_slots]; [| | |done].
    + intros j s' f' [[-> ->]|[_ Hj]]%Hup Hm; apply elem_of_app; [right; set_solver | eauto].
    + intros j s' [[-> ->]|[_ Hj]]%Hup; cbn; eauto.
    + intros x (Hx & Hc & s' & Hs' & Hq)%Hse. split; [apply elem_of_app; auto|]. split; [done|].
      destruct (decide (sd_slot x = i)) as [E|Hne].
      * exists (mkSlot (Some f) (consumed_sequence s)). rewrite E in *.
        rewrite list_lookup_insert_eq by (by eapply lookup_lt_Some). split; [done|].
        cbn. congruence.
      * exists s'. by rewrite list_lookup_insert_ne.
Qed.

Lemma sorted_snoc l x :
  StronglySorted Z.lt l -> Forall (fun y => y < x) l ->
  StronglySorted Z.lt (l ++ [x]).
Proof.
  induction 1 as [|y l Hs IH Hy]; intros Hf; cbn; [repeat constructor|].
  inversion_clear Hf. constructor; [auto|]. apply Forall_app. split; [done|]. by constructor.
Qed.

Lemma turn_invariant past r sent w slots more :
  slots_invariant past r sent -> send_slots t 0 (slots_ r) w = Some (slots, more) ->
  slots_invariant (past ++ [ev_turn w]) (with_slots r slots) (sent ++ more) /\
  (forall i s f, slots !! i = Some s -> mailbox s = Some f -> fr_sequence f <= consumed_sequence s).
Proof.
  intros [Hst Hco Hse Hso] Hs. destruct (send_slots_spec _ _ _ _ _ Hs) as (Hlen & Hin & Hj).
  assert (forall i s', slots !! i = Some s' -> exists s, slots_ r !! i = Some s /\
    send_slot t i s (w i) = Some (s', of_slot i more)) as Hback.
  { intros i s' Hs'. destruct (lookup_lt_is_Some_2 (slots_ r) i) as [s E].
    { rewrite <- Hlen. by eapply lookup_lt_Some. }
    destruct (Hj i s E) as (s1 & E1 & Es). exists s. split; [done|].
    change (0 + i)%nat with i in Es. rewrite Es. congruence. }
  assert (forall i s', slots !! i = Some s' -> exists s, slots_ r !! i = Some s /\
    mailbox s' = mailbox s /\ consumed_sequence s <= consumed_sequence s') as Hmono.
  { intros i s' (s & E & Es)%Hback. exists s. split; [done|].
    destruct (send_slot_spec _ _ _ _ _ Es) as [(_ & -> & _)|(f & c & Hm & Hlt & _ & -> & _)];
      cbn; (split; [done|lia]). }
  split; [split; cbn [slots_ with_slots]|].
  - intros i s f (s0 & E & Hm & _)%Hmono Hf. apply elem_of_app. left. rewrite Hm in Hf. eauto.
  - intros i s (s0 & E & _ & Hle)%Hmono. pose proof (Hco i s0 E). lia.
  - intros x [Hx|Hx]%elem_of_app.
    + destruct (Hse x Hx) as (Hp & Hc & s & E & Hq). split; [apply elem_of_app; auto|].
      split; [done|]. destruct (Hj _ s E) as (s' & E' & _). exists s'. split; [done|].
      destruct (Hmono _ s' E') as (s0 & E0 & _ & Hle). assert (s0 = s) as -> by congruence. lia.
    + pose proof (proj1 (Forall_forall _ _) Hin x Hx) as Hr. cbn in Hr.
      destruct (lookup_lt_is_Some_2 (slots_ r) (sd_slot x)) as [s E]; [lia|].
      destruct (Hj _ s E) as (s' & E' & Es). change (0 + sd_slot x)%nat with (sd_slot x) in Es.
      assert (x ∈ of_slot (sd_slot x) more) as Hm by (apply list_elem_of_filter; auto).
      destruct (send_slot_spec _ _ _ _ _ Es) as [(El & _)|(f & c & Hf & Hlt & Hc & -> & El)];
        rewrite El in Hm; [by apply elem_of_nil in Hm|].
      apply list_elem_of_singleton in Hm.
      assert (sd_frame x = f) as Ef by (rewrite Hm; reflexivity).
      assert (sd_raw x = (send_frame t c (w (sd_slot x))).2) as Er by (rewrite Hm at 1; reflexivity).
      rewrite Ef. split; [apply elem_of_app; left; eauto|]. split; [eauto|].
      eexists. split; [exact E'|]. cbn. pose proof (Hco _ _ E). lia.
  - intros i. unfold sequences, of_slot. rewrite filter_app, map_app. fold (of_slot i more).
    destruct (slots_ r !! i) as [s|] eqn:E.
    + destruct (Hj i s E) as (s' & E' & Es). change (0 + i)%nat with i in Es.
      destruct (send_slot_spec _ _ _ _ _ Es) as [(-> & _)|(f & c & Hf & Hlt & _ & _ & ->)];
        [rewrite app_nil_r; apply Hso|].
      apply sorted_snoc; [apply Hso|]. apply Forall_map, Forall_forall.
      intros x [<- Hx]%list_elem_of_filter. destruct (Hse x Hx) as (_ & _ & s0 & E0 & Hq).
      cbn. assert (s0 = s) as -> by congruence. lia.
    + assert (of_slot i more = []) as ->; [|rewrite app_nil_r; apply Hso].
      apply filter_none. eapply Forall_impl; [exact Hin|]. cbn. intros x Hx <-.
      apply lookup_ge_None in E. lia.
  - intros i s' f (s & E & Es)%Hback Hf.
    destruct (send_slot_spec _ _ _ _ _ Es) as [(_ & -> & Hle)|(f' & c & Hm & Hlt & _ & -> & _)];
      [eauto|]. cbn in *. assert (f' = f) as -> by congruence. lia.
Qed.

Lemma run_invariant evs past r sent r' sent' :
  slots_invariant past r sent -> run r sent evs = Some (r', sent') ->
  slots_invariant (past ++ evs) r' sent'.
Proof.
  revert past r sent. induction evs as [|[i f|w] evs IH]; intros past r sent Hi Hr; cbn in Hr.
  - injection Hr as <- <-. by rewrite app_nil_r.
  - rewrite (cons_middle _ past). rewrite app_assoc. eapply IH; [|exact Hr].
    by apply stage_invariant.
  - destruct (send_slots t 0 (slots_ r) w) as [[slots more]|] eqn:Hs; [|discriminate].
    rewrite (cons_middle _ past). rewrite app_assoc. eapply IH; [|exact Hr].
    eapply turn_invariant; eassumption.
Qed.

Lemma run_defined evs past r sent :
  slots_invariant past r sent ->
  (forall i f, ev_stage i f ∈ past ++ evs -> can_of f <> None) ->
  exists x, run r sent evs = Some x.
Proof.
  revert past r sent. induction evs as [|[i f|w] evs IH]; intros past r sent Hi Hf; cbn; [eauto| |].
  - apply (IH (past ++ [ev_stage i f])); [by apply stage_invariant|].
    by rewrite <- app_assoc.
  - destruct (send_slots_defined 0 (slots_ r) w) as [[slots more] Hs].
    { intros s f (i & Hs)%list_elem_of_lookup Hm. apply (Hf i f), elem_of_app. left.
      by eapply (si_staged _ _ _ Hi). }
    rewrite Hs. cbn. apply (IH (past ++ [ev_turn w])); [eapply turn_invariant; eassumption|].
    by rewrite <- app_assoc.
Qed.

Lemma created_invariant r n :
  slots_ r = replicate n (mkSlot None 0) -> slots_invariant [] r [].
Proof.
  intros E. split; rewrite ?E.
  - intros i s f [-> _]%lookup_replicate. discriminate.
  - intros i s [-> _]%lookup_replicate. done.
  - intros x Hx. by apply elem_of_nil in Hx.
  - intros i. constructor.
Qed.

(** A CAN runtime sends each staged frame at most once, newest first: from a freshly created
    runtime, any interleaving of [stage] calls and turns of the cycle worker (whatever the
    writes return) whose staged frames fit in a CAN frame runs without leaving a buffer; every
    frame sent was staged in that slot before, goes out as [send_frame] encodes it, and per
    slot the sequence numbers sent strictly increase from one, so none is sent twice or after
    a newer one; and after a turn no slot holds a frame that is newer than what it sent. *)
Theorem runtime_sends_latest (r : TransportRuntime) (n : nat) (evs : list event)
    (Hnew : slots_ r = replicate n (mkSlot None 0))
    (Hfits : forall i f, ev_stage i f ∈ evs -> can_of f <> None) :
  exists r' sent, run r [] evs = Some (r', sent) /\
    (forall x, x ∈ sent ->
       ev_stage (sd_slot x) (sd_frame x) ∈ evs /\ 0 < fr_sequence (sd_frame x) /\
       exists c w, can_of (sd_frame x) = Some c /\ sd_raw x = (send_frame t c w).2) /\
    (forall i, StronglySorted Z.lt (sequences i sent)) /\
    forall w, exists slots more, send_slots t 0 (slots_ r') w = Some (slots, more) /\
      forall i s f, slots !! i = Some s -> mailbox s = Some f ->
        fr_sequence f <= consumed_sequence s.
Proof.
  pose proof (created_invariant r n Hnew) as H0.
  destruct (run_defined evs [] r [] H0 Hfits) as [[r' sent] Hr].
  pose proof (run_invariant _ _ _ _ _ _ H0 Hr) as Hi. cbn [app] in Hi.
  exists r', sent. split; [exact Hr|]. split.
  { intros x (Hx & Hc & s & _ & Hq)%(si_sent _ _ _ Hi). split; [done|]. split; [lia | done]. }
  split; [apply (si_sorted _ _ _ Hi)|]. intros w.
  destruct (send_slots_defined 0 (slots_ r') w) as [[slots more] Hs].
  { intros s f (i & Hs)%list_elem_of_lookup Hm. apply (Hfits i f).
    by eapply (si_staged _ _ _ Hi). }
  exists slots, more. split; [done|]. eapply turn_invariant; eassumption.
Qed.

End Slots.

Lemma runtime_sends_latest_witness :
  let r := mkRuntime can None None true 1000000 true (replicate 2 (mkSlot None 0)) true None None 0 in
  let frame n := mkDeviceFrame n 0x101 2 [7; 8] in
  exists r' sent,
    run (of_fd (Target := nat) 3) r []
      [ev_stage 1 (frame 1); ev_stage 1 (frame 2); ev_turn (fun _ => 16); ev_turn (fun _ => 16);
       ev_stage 1 (frame 2); ev_turn (fun _ => 16); ev_stage 1 (frame 5); ev_turn (fun _ => -1)]
      = Some (r', sent) /\ sequences 1 sent = [2; 5] /\
    StronglySorted Z.lt (sequences 1 sent).
Proof.
  intros r frame.
  destruct (runtime_sends_latest (of_fd (Target := nat) 3) r 2
      [ev_stage 1 (frame 1); ev_stage 1 (frame 2); ev_turn (fun _ => 16); ev_turn (fun _ => 16);
       ev_stage 1 (frame 2); ev_turn (fun _ => 16); ev_stage 1 (frame 5); ev_turn (fun _ => -1)]
      eq_refl) as (r' & sent & Hr & _ & Hs & _).
  { intros i f Hin E.
    repeat (apply elem_of_cons in Hin; destruct Hin as [Hin|Hin];
      [first [discriminate Hin | injection Hin as -> ->; discriminate E]|]).
    by apply elem_of_nil in Hin. }
  exists r', sent. split; [exact Hr|]. split; [|apply Hs].
  vm_compute in Hr. injection Hr as <- <-. reflexivity.
Defined.

(** A runtime is created on descriptor 3, moved and started, receives a frame and is stopped. *)
Lemma runtime_life_cycle_witness :
  let ops := mkTransport unit (fun t => (success tt, t)) id (fun _ _ => id) id id in
  let raw := mkRaw 0x101 2 [7; 8; 0; 0; 0; 0; 0; 0] in
  let os := [op_create_can 0 (of_fd 3) true 2; op_move_construct 1 0; op_start 1 true true;
             op_receive 1 (read_bytes 16 raw); op_stop 1] in
  exists h r,
    steps ops (no_runtime ∅) os = Some h /\ h_runtimes h !! 1%nat = Some r /\
    map (fun x => x.1.1) (h_received h) = [1%nat] /\
    (forall o, receive_turn ops h 1 o = Some h).
Proof.
  intros ops raw os.
  assert (exists h r, steps ops (no_runtime ∅) os = Some h /\ h_runtimes h !! 1%nat = Some r /\
    running_ r = false /\ map (fun x => x.1.1) (h_received h) = [1%nat]) as (h & r & Hs & Hp & Hr & Hl)
    by (eexists _, _; split; [reflexivity|]; split; [reflexivity|]; split; reflexivity).
  exists h, r. split; [exact Hs|]. split; [exact Hp|]. split; [exact Hl|].
  apply (runtime_life_cycle ops ∅ os h Hs 1 r Hp). exact Hr.
Defined.

End TransportRuntime.
