(* ===== verification/CommandIngress.v ===== *)
(** * Command ingress of the daemon

    The path of a command snapshot from a producer to the safety supervisor in
    [robot_io/daemon/daemon.cpp]: [stage_commands] (any thread, serialised by
    [command_ingress_gate_]) and [consume_staged_commands] (the owner of the cycle).

    A call of [stage_commands] takes effect in one step: it holds the gate, and it makes either
    one publication or one rejection visible.  [consume_staged_commands] reads the rejection
    number and the hand-off at two moments, so it is two steps.  The hand-off is a
    [LocalSnapshot], whose reads are linearisable (LocalSnapshot.v); reads that fail after too
    many attempts ([None]) count as "no event". *)
From Stdlib Require Import Sorting.Sorted.
From S2P Require Export Prelude Messages Safety.
Import Supervisor.

Module CommandIngress.

Record ingress := mkIngress {
  in_accepting : bool;                        (* accepting_commands_ *)
  in_ingress : SafetySupervisor;              (* command_ingress_ *)
  in_safety : SafetySupervisor;               (* safety_ *)
  in_publication : Z;                         (* command_publication_ *)
  in_handoff : option (Z * Snapshot AxisCommand);
  in_rejected : Z;                            (* rejected_command_publication_ *)
  in_consumed : Z;                            (* consumed_command_publication_ *)
  in_acknowledged : Z;                        (* acknowledged_rejection_publication_ *)
  in_last_sequence : Z;
  in_last_timestamp : Z }.

Definition create (safety_options : SafetyOptions) : ingress :=
  mkIngress false (Supervisor.create safety_options) (Supervisor.create safety_options)
    0 None 0 0 0 0 0.

Definition set_accepting (s : ingress) (b : bool) : ingress :=
  mkIngress b (in_ingress s) (in_safety s) (in_publication s) (in_handoff s) (in_rejected s)
    (in_consumed s) (in_acknowledged s) (in_last_sequence s) (in_last_timestamp s).

Definition set_safety (s : ingress) (v : SafetySupervisor) : ingress :=
  mkIngress (in_accepting s) (in_ingress s) v (in_publication s) (in_handoff s) (in_rejected s)
    (in_consumed s) (in_acknowledged s) (in_last_sequence s) (in_last_timestamp s).

Definition set_consumed (s : ingress) (consumed acknowledged : Z) : ingress :=
  mkIngress (in_accepting s) (in_ingress s) (in_safety s) (in_publication s) (in_handoff s)
    (in_rejected s) consumed acknowledged (in_last_sequence s) (in_last_timestamp s).

Definition stage_commands (s : ingress) (snapshot : Snapshot AxisCommand) (now_ns : Z)
    : ingress * CommandAcceptance :=
  if negb (in_accepting s) then (s, rejected)
  else
    let '(v, acceptance) := accept_commands (in_ingress s) snapshot now_ns in
    let next := u64 (in_publication s + 1) in
    (match acceptance with
     | accepted =>
         mkIngress (in_accepting s) v (in_safety s) next (Some (next, snapshot)) (in_rejected s)
           (in_consumed s) (in_acknowledged s) (sn_sequence snapshot) (sn_timestamp_ns snapshot)
     | rejected =>
         mkIngress (in_accepting s) v (in_safety s) next (in_handoff s) next
           (in_consumed s) (in_acknowledged s) (in_last_sequence s) (in_last_timestamp s)
     | duplicate =>
         mkIngress (in_accepting s) v (in_safety s) (in_publication s) (in_handoff s)
           (in_rejected s) (in_consumed s) (in_acknowledged s) (in_last_sequence s)
           (in_last_timestamp s)
     end, acceptance).

(** [Snapshot<AxisCommand> invalid{}] with an axis count no supervisor has. *)
Definition invalid_snapshot : Snapshot AxisCommand :=
  mkSnapshot 0 0 (kRobotIoMaximumAxes + 1) (replicate max_axes AxisCommand_zero).

(** The first access of [consume_staged_commands]. *)
Definition read_rejected (s : ingress) : Z := in_rejected s.

(** The rest of it. *)
Definition finish_consume (s : ingress) (rejected_publication now_ns : Z)
    : ingress * CommandAcceptance :=
  if negb (rejected_publication =? in_acknowledged s)
  then
    let consumed :=
      if rejected_publication <? in_consumed s then rejected_publication else in_consumed s in
    let '(v, acceptance) := accept_commands (in_safety s) invalid_snapshot now_ns in
    (set_safety (set_consumed s consumed rejected_publication) v, acceptance)
  else
    match in_handoff s with
    | None => (s, duplicate)
    | Some (publication, snapshot) =>
        if (publication <=? in_acknowledged s) || (publication =? in_consumed s)
        then (s, duplicate)
        else
          let '(v, acceptance) := accept_commands (in_safety s) snapshot now_ns in
          (set_safety (set_consumed s publication (in_acknowledged s)) v, acceptance)
    end.

(** Without a producer in between. *)
Definition consume_staged_commands (s : ingress) (now_ns : Z) : ingress * CommandAcceptance :=
  finish_consume s (read_rejected s) now_ns.

(** [refresh_commands_owned]: both branches return the acceptance. *)
Definition refresh_commands_owned (s : ingress) (now_ns : Z) : ingress * CommandAcceptance :=
  consume_staged_commands s now_ns.

(** ** The supervisor as its client sees it *)

Lemma valid_snapshot_transfer s1 s2 snapshot t1 t2 :
  valid_snapshot s1 snapshot t1 = true -> sv_configured s2 = sv_configured s1 ->
  sv_axis_count s2 = sv_axis_count s1 -> t1 <= t2 -> valid_snapshot s2 snapshot t2 = true.
Proof.
  unfold valid_snapshot. intros Hv -> -> Ht. b2p. repeat (apply andb_true_iff; split); try done.
  - by apply Z.eqb_eq.
  - by apply Z.leb_le.
  - apply Z.leb_le. lia.
Qed.

Lemma accept_later s snapshot t :
  valid_snapshot s snapshot t = true ->
  (sv_has_command s = true ->
     sv_last_command_sequence s < sn_sequence snapshot /\
     sv_last_command_timestamp_ns s <= sn_timestamp_ns snapshot) ->
  accept_commands s snapshot t = (store_commands s snapshot, accepted).
Proof.
  intros Hv Hl. unfold accept_commands. rewrite Hv. cbn.
  destruct (sv_has_command s); [|done]. destruct (Hl eq_refl). cbn.
  rewrite !(proj2 (Z.ltb_ge _ _)) by lia. by rewrite (proj2 (Z.eqb_neq _ _)) by lia.
Qed.

Lemma accepted_spec s snapshot t s' :
  accept_commands s snapshot t = (s', accepted) ->
  valid_snapshot s snapshot t = true /\ s' = store_commands s snapshot /\
  (sv_has_command s = true ->
     sv_last_command_sequence s < sn_sequence snapshot /\
     sv_last_command_timestamp_ns s <= sn_timestamp_ns snapshot).
Proof.
  unfold accept_commands. destruct (valid_snapshot s snapshot t); [|discriminate]. cbn.
  destruct (sv_has_command s); cbn; [|by intros [= <-]].
  destruct (Z.ltb_spec (sn_sequence snapshot) (sv_last_command_sequence s)); [discriminate|].
  destruct (Z.ltb_spec (sn_timestamp_ns snapshot) (sv_last_command_timestamp_ns s)); [discriminate|].
  cbn. destruct (Z.eqb_spec (sn_sequence snapshot) (sv_last_command_sequence s)).
  - destruct (_ && _); discriminate.
  - intros [= <-]. split; [done|]. split; [done|]. lia.
Qed.

(** Whatever is not accepted leaves what the supervisor remembers of the last command. *)
Definition same_memory (s s' : SafetySupervisor) : Prop :=
  sv_configured s' = sv_configured s /\ sv_axis_count s' = sv_axis_count s /\
  sv_has_command s' = sv_has_command s /\ sv_commands s' = sv_commands s /\
  sv_last_command_sequence s' = sv_last_command_sequence s /\
  sv_last_command_timestamp_ns s' = sv_last_command_timestamp_ns s.

#[export] Instance same_memory_preorder : PreOrder same_memory.
Proof.
  split; [by intros s|]. unfold same_memory. intros s1 s2 s3. intuition congruence.
Qed.

Lemma refused_memory s snapshot t s' r :
  accept_commands s snapshot t = (s', r) -> r <> accepted -> same_memory s s'.
Proof.
  unfold accept_commands, same_memory.
  destruct (negb (valid_snapshot s snapshot t)); [by intros [= <- <-]|].
  destruct (sv_has_command s && (_ || _)); [by intros [= <- <-]|].
  destruct (sv_has_command s && _); [|intros [= <- <-]; done].
  destruct ((sn_timestamp_ns snapshot =? _) && _); by intros [= <- <-].
Qed.

Lemma command_equals_refl c : isfinite (ac_target c) = true -> command_equals c c = true.
Proof.
  intros Hf. unfold command_equals. rewrite !Z.eqb_refl. cbn. rewrite andb_true_r.
  destruct (ac_target c) as [[]|[]| |[] m e]; try done; cbn.
  - by rewrite Z.compare_refl, Pos.compare_cont_refl.
  - by rewrite Z.compare_refl, Pos.compare_cont_refl.
Qed.

(** ** Interleavings

    The ghost members: the snapshots accepted and the rejections made, by number, and what
    [safety_] was given. *)
Inductive delivery :=
  | dl_command (publication : Z) (snapshot : Snapshot AxisCommand) (acceptance : CommandAcceptance)
  | dl_reject (publication : Z) (acceptance : CommandAcceptance).

Record system := mkSystem {
  sy_state : ingress;
  sy_pending : option Z;
  sy_now : Z;
  sy_accepted : list (Z * Snapshot AxisCommand);
  sy_rejections : list Z;
  sy_log : list delivery }.

Inductive event :=
  | ev_stage (snapshot : Snapshot AxisCommand) (now_ns : Z)
  | ev_begin
  | ev_finish (now_ns : Z)
  | ev_evaluate (bus : SafetyBusState) (pdos : list Cia402PdoView) (now_ns : Z)
  | ev_shutdown (now_ns : Z)
  | ev_accepting (b : bool).

(** What [finish_consume] gave to the safety supervisor. *)
Definition delivered (s : ingress) (rejected_publication : Z) (acceptance : CommandAcceptance)
    : list delivery :=
  if negb (rejected_publication =? in_acknowledged s)
  then [dl_reject rejected_publication acceptance]
  else
    match in_handoff s with
    | None => []
    | Some (publication, snapshot) =>
        if (publication <=? in_acknowledged s) || (publication =? in_consumed s) then []
        else [dl_command publication snapshot acceptance]
    end.

(** One step; [None] when the clock would go backwards or the owner of the cycle is not at
    that point of [consume_staged_commands]. *)
Definition step (y : system) (e : event) : option system :=
  let s := sy_state y in
  match e with
  | ev_stage snapshot now_ns =>
      if now_ns <? sy_now y then None
      else
        let '(s', r) := stage_commands s snapshot now_ns in
        let n := in_publication s' in
        let fresh := in_accepting s in
        Some (mkSystem s' (sy_pending y) now_ns
          (if fresh && bool_decide (r = accepted) then sy_accepted y ++ [(n, snapshot)]
           else sy_accepted y)
          (if fresh && bool_decide (r = rejected) then sy_rejections y ++ [n] else sy_rejections y)
          (sy_log y))
  | ev_begin =>
      match sy_pending y with
      | Some _ => None
      | None =>
          Some (mkSystem s (Some (read_rejected s)) (sy_now y) (sy_accepted y) (sy_rejections y)
                  (sy_log y))
      end
  | ev_finish now_ns =>
      match sy_pending y with
      | None => None
      | Some r =>
          if now_ns <? sy_now y then None
          else
            let '(s', acceptance) := finish_consume s r now_ns in
            Some (mkSystem s' None now_ns (sy_accepted y) (sy_rejections y)
                    (sy_log y ++ delivered s r acceptance))
      end
  | ev_evaluate bus pdos now_ns =>
      Some (mkSystem (set_safety s (evaluate (in_safety s) bus pdos now_ns).1) (sy_pending y)
        (sy_now y) (sy_accepted y) (sy_rejections y) (sy_log y))
  | ev_shutdown now_ns =>
      Some (mkSystem (set_safety s (request_shutdown (in_safety s) now_ns)) (sy_pending y)
        (sy_now y) (sy_accepted y) (sy_rejections y) (sy_log y))
  | ev_accepting b =>
      Some (mkSystem (set_accepting s b) (sy_pending y) (sy_now y) (sy_accepted y)
        (sy_rejections y) (sy_log y))
  end.

Fixpoint run (y : system) (es : list event) : option system :=
  match es with
  | [] => Some y
  | e :: es => match step y e with Some y => run y es | None => None end
  end.

(** Both supervisors are configured with the same axes. *)
Definition configured_with (v : SafetySupervisor) : system :=
  mkSystem (mkIngress false v v 0 None 0 0 0 0 0) None 0 [] [] [].

(** What a supervisor remembers of the last command. *)
Definition remembers (v : SafetySupervisor) (o : option (Snapshot AxisCommand)) : Prop :=
  match o with
  | None => sv_has_command v = false
  | Some snapshot =>
      sv_has_command v = true /\ sv_last_command_sequence v = sn_sequence snapshot /\
      sv_last_command_timestamp_ns v = sn_timestamp_ns snapshot /\
      forall i, (i < sv_axis_count v)%nat -> command_at v i = snapshot_at snapshot i
  end.

Lemma remembers_same v v' o : same_memory v v' -> remembers v o -> remembers v' o.
Proof.
  intros (_ & Hn & Hh & Hc & Hs & Ht). destruct o as [sn|]; cbn; [|congruence].
  intros (H1 & H2 & H3 & H4). rewrite Hh, Hs, Ht, Hn. split; [done|]. split; [done|].
  split; [done|]. intros i Hi. unfold command_at. rewrite Hc. by apply H4.
Qed.

Lemma remembers_stored v snapshot : remembers (store_commands v snapshot) (Some snapshot).
Proof.
  cbn. split; [done|]. split; [done|]. split; [done|]. intros i Hi. unfold command_at. cbn.
  rewrite lookup_app_l by (by rewrite length_map, length_seq).
  by rewrite list_lookup_fmap, lookup_seq_lt by lia.
Qed.

(** Given again, the remembered snapshot is a duplicate. *)
Lemma accept_again v snapshot t :
  valid_snapshot v snapshot t = true -> remembers v (Some snapshot) ->
  accept_commands v snapshot t = (v, duplicate).
Proof.
  intros Hv (Hh & Hs & Ht & Hc). unfold accept_commands. rewrite Hv, Hh, Hs, Ht. cbn.
  rewrite !Z.ltb_irrefl, !Z.eqb_refl. cbn.
  assert (forallb (fun i => command_equals (snapshot_at snapshot i) (command_at v i))
    (seq 0 (sv_axis_count v)) = true) as ->; [|done].
  apply forallb_forall. intros i Hi%in_seq. rewrite Hc by lia. apply command_equals_refl.
  unfold valid_snapshot in Hv. b2p.
  match goal with H : forallb _ _ = true |- _ => rewrite forallb_forall in H;
    specialize (H i ltac:(apply in_seq; lia)); rename H into Hi' end.
  unfold valid_command in Hi'. by b2p.
Qed.

Lemma invalid_rejected v t :
  Z.of_nat (sv_axis_count v) <= kRobotIoMaximumAxes ->
  accept_commands v invalid_snapshot t = (set_commands_valid v false, rejected).
Proof.
  intros Hn. unfold accept_commands, valid_snapshot. cbn [sn_axis_count invalid_snapshot].
  rewrite (proj2 (Z.eqb_neq _ _)) by lia. by rewrite andb_false_r.
Qed.

Lemma set_commands_valid_memory v b : same_memory v (set_commands_valid v b).
Proof. done. Qed.

Lemma evaluate_memory v bus pdos t : same_memory v (evaluate v bus pdos t).1.
Proof. pose proof (evaluate_frame v bus pdos t) as H. cbn in H. unfold same_memory. tauto. Qed.

Lemma shutdown_memory v t : same_memory v (request_shutdown v t).
Proof. unfold request_shutdown. by case_match. Qed.

(** ** The invariant *)

Definition before (a b : Z * Snapshot AxisCommand) : Prop :=
  a.1 < b.1 /\ sn_sequence a.2 < sn_sequence b.2 /\ sn_timestamp_ns a.2 <= sn_timestamp_ns b.2.

(** The numbers of the commands given to the supervisor. *)
Definition given (log : list delivery) : list Z :=
  omap (fun d => match d with dl_command n _ _ => Some n | dl_reject _ _ => None end) log.
#[local] Arguments given : simpl never.

(** Each entry of the log against what precedes it. *)
Definition entry_ok (accepted_commands : list (Z * Snapshot AxisCommand)) (rejections : list Z)
    (earlier : list delivery) (d : delivery) : Prop :=
  match d with
  | dl_command n snapshot r =>
      (n, snapshot) ∈ accepted_commands /\
      (forall k a, dl_reject k a ∈ earlier -> k < n) /\
      ((r = accepted /\ n ∉ given earlier) \/ (r = duplicate /\ n ∈ given earlier))
  | dl_reject k r =>
      k ∈ rejections /\ r = rejected /\ forall k' a, dl_reject k' a ∈ earlier -> k' < k
  end.

(** [steps]: how many events there were; [last]: the newest command given to the supervisor. *)
Record invariant (steps : nat) (y : system) (last : option (Z * Snapshot AxisCommand)) : Prop := {
  iv_publication : 0 <= in_publication (sy_state y) <= Z.of_nat steps;
  iv_configured : sv_configured (in_ingress (sy_state y)) = sv_configured (in_safety (sy_state y));
  iv_count : sv_axis_count (in_ingress (sy_state y)) = sv_axis_count (in_safety (sy_state y));
  iv_small : Z.of_nat (sv_axis_count (in_safety (sy_state y))) <= kRobotIoMaximumAxes;
  iv_sorted : StronglySorted before (sy_accepted y);
  iv_accepted n snapshot : (n, snapshot) ∈ sy_accepted y ->
    0 < n <= in_publication (sy_state y) /\
    valid_snapshot (in_safety (sy_state y)) snapshot (sy_now y) = true;
  iv_handoff : in_handoff (sy_state y) = list.last (sy_accepted y);
  iv_ingress : remembers (in_ingress (sy_state y)) (fmap snd (list.last (sy_accepted y)));
  iv_rejections : Forall (fun k => k <= in_rejected (sy_state y)) (sy_rejections y);
  iv_rejected : 0 <= in_rejected (sy_state y) <= in_publication (sy_state y) /\
    (0 < in_rejected (sy_state y) -> in_rejected (sy_state y) ∈ sy_rejections y);
  iv_acknowledged : 0 <= in_acknowledged (sy_state y) <= in_rejected (sy_state y);
  iv_pending r : sy_pending y = Some r ->
    in_acknowledged (sy_state y) <= r <= in_rejected (sy_state y) /\ (0 < r -> r ∈ sy_rejections y);
  iv_last n snapshot : last = Some (n, snapshot) ->
    (n, snapshot) ∈ sy_accepted y /\ n ∈ given (sy_log y);
  iv_safety : remembers (in_safety (sy_state y)) (fmap snd last);
  iv_given n : n ∈ given (sy_log y) -> exists m snapshot, last = Some (m, snapshot) /\ n <= m;
  iv_consumed : 0 <= in_consumed (sy_state y) <= default 0 (fmap fst last);
  iv_consumed_given : in_acknowledged (sy_state y) < in_consumed (sy_state y) ->
    in_consumed (sy_state y) ∈ given (sy_log y);
  iv_acks k a : dl_reject k a ∈ sy_log y -> k <= in_acknowledged (sy_state y);
  iv_log earlier d later : sy_log y = earlier ++ d :: later ->
    entry_ok (sy_accepted y) (sy_rejections y) earlier d }.

Lemma entry_ok_mono accs accs' rejs rejs' earlier d :
  accs ⊆ accs' -> rejs ⊆ rejs' -> entry_ok accs rejs earlier d -> entry_ok accs' rejs' earlier d.
Proof. intros Ha Hr. destruct d; cbn; intuition. Qed.

Lemma valid_later y t n snapshot steps last :
  invariant steps y last -> sy_now y <= t -> (n, snapshot) ∈ sy_accepted y ->
  valid_snapshot (in_safety (sy_state y)) snapshot t = true.
Proof.
  intros Hi Ht Hn. destruct (iv_accepted _ _ _ Hi n snapshot Hn) as [_ Hv].
  by eapply valid_snapshot_transfer.
Qed.

Lemma last_accepted_bound steps y last n snapshot :
  invariant steps y last -> list.last (sy_accepted y) = Some (n, snapshot) ->
  (n, snapshot) ∈ sy_accepted y.
Proof. intros Hi Hl. apply last_Some in Hl as [l ->]. set_solver. Qed.

Lemma snoc_sorted l x :
  StronglySorted before l -> (forall y, list.last l = Some y -> before y x) ->
  StronglySorted before (l ++ [x]).
Proof.
  induction l as [|y l IH]; intros Hs Hl; cbn; [repeat constructor|].
  inversion Hs as [|y' l' Hs' Hf]; subst. constructor.
  - apply IH; [done|]. intros z Hz. apply Hl. destruct l; [done|]. exact Hz.
  - apply Forall_app. split; [done|]. constructor; [|done].
    destruct (list.last l) as [z|] eqn:Hz.
    + assert (before z x) as Hzx by (apply Hl; destruct l; [done | exact Hz]).
      assert (before y z) as Hyz.
      { rewrite Forall_forall in Hf. apply Hf. apply last_Some in Hz as [l' ->]. set_solver. }
      unfold before in *. lia.
    + apply last_None in Hz as ->. by apply Hl.
Qed.

(** A call of [stage_commands]. *)
Lemma ingress_stage_invariant steps y last snapshot t y' :
  invariant steps y last -> Z.of_nat (S steps) < 2 ^ 64 ->
  step y (ev_stage snapshot t) = Some y' -> invariant (S steps) y' last.
Proof.
  intros Hi Hbig Hs. cbn in Hs. destruct (Z.ltb_spec t (sy_now y)) as [|Ht]; [discriminate|].
  pose proof (iv_publication _ _ _ Hi) as Hpub.
  pose proof (fun n sn => valid_later y t n sn _ _ Hi Ht) as Hlater.
  unfold stage_commands in Hs. destruct (in_accepting (sy_state y)); cbn [negb] in Hs.
  2: { injection Hs as <-. destruct Hi. split; cbn; try done; [lia|]. intros n sn Hn.
       split; [by eapply iv_accepted0 | by eapply Hlater]. }
  destruct (accept_commands (in_ingress (sy_state y)) snapshot t) as [v r] eqn:Ha.
  assert (u64 (in_publication (sy_state y) + 1) = in_publication (sy_state y) + 1) as Hu
    by (apply wrap_small; unfold is_word; lia).
  destruct r; cbn in Hs.
  - apply accepted_spec in Ha as (Hv & -> & Hl). injection Hs as <-. rewrite Hu.
    assert (valid_snapshot (in_safety (sy_state y)) snapshot t = true) as Hv'.
    { eapply valid_snapshot_transfer; [exact Hv | | |lia]; symmetry; apply Hi. }
    destruct Hi. split; cbn; try done; try lia.
    + apply snoc_sorted; [done|]. intros [n sn] Hn. rewrite Hn in iv_ingress0. cbn in iv_ingress0.
      destruct iv_ingress0 as (H1 & H2 & H3 & _). specialize (Hl H1).
      assert ((n, sn) ∈ sy_accepted y) as Hin by (apply last_Some in Hn as [l ->]; set_solver).
      apply iv_accepted0 in Hin as [Hin _]. unfold before. cbn. lia.
    + intros n sn [Hn|Hn]%elem_of_app.
      * split; [|by eapply Hlater]. apply iv_accepted0 in Hn. lia.
      * apply list_elem_of_singleton in Hn as [= -> ->]. split; [lia | done].
    + by rewrite last_snoc.
    + rewrite last_snoc. apply remembers_stored.
    + split; [lia | tauto].
    + intros n sn Hn. destruct (iv_last0 n sn Hn). split; [apply elem_of_app; auto | done].
    + intros earlier d later E. eapply entry_ok_mono; [| |by eapply iv_log0]; set_solver.
  - pose proof (refused_memory _ _ _ _ _ Ha ltac:(discriminate)) as Hm. injection Hs as <-.
    destruct Hi. split; cbn; try done; try lia.
    + destruct Hm as (-> & _). done.
    + destruct Hm as (_ & -> & _). done.
    + intros n sn Hn. split; [by eapply iv_accepted0 | by eapply Hlater].
    + by eapply remembers_same.
  - pose proof (refused_memory _ _ _ _ _ Ha ltac:(discriminate)) as Hm. injection Hs as <-.
    rewrite Hu. destruct Hi. split; cbn; try done; try lia.
    + destruct Hm as (-> & _). done.
    + destruct Hm as (_ & -> & _). done.
    + intros n sn Hn. split; [|by eapply Hlater]. apply iv_accepted0 in Hn. lia.
    + by eapply remembers_same.
    + apply Forall_app. split; [|by repeat constructor].
      eapply Forall_impl; [exact iv_rejections0|]. cbn. lia.
    + split; [lia|]. intros _. set_solver.
    + intros r Hr. destruct (iv_pending0 r Hr) as [Hr1 Hr2]. split; [lia|]. set_solver.
    + intros earlier d later E. eapply entry_ok_mono; [| |by eapply iv_log0]; set_solver.
Qed.

Lemma snoc_split {A} (l : list A) x earlier d later :
  l ++ [x] = earlier ++ d :: later ->
  (later = [] /\ d = x /\ earlier = l) \/ exists later', l = earlier ++ d :: later'.
Proof.
  destruct later as [|z later] using rev_ind.
  - intros E. left. apply app_inj_tail in E as [-> ->]. done.
  - clear IHlater. intros E. right. exists later.
    rewrite app_comm_cons, app_assoc in E. by apply app_inj_tail in E as [-> _].
Qed.

Lemma given_snoc log d :
  given (log ++ [d]) = given log ++ match d with dl_command n _ _ => [n] | dl_reject _ _ => [] end.
Proof. unfold given. rewrite omap_app. by destruct d. Qed.

(** The rejection branch of [finish_consume]. *)
Lemma reject_invariant steps y last r t :
  invariant steps y last -> sy_pending y = Some r -> r <> in_acknowledged (sy_state y) ->
  sy_now y <= t ->
  let s := sy_state y in
  invariant (S steps)
    (mkSystem
       (set_safety (set_consumed s (if r <? in_consumed s then r else in_consumed s) r)
          (set_commands_valid (in_safety s) false)) None t (sy_accepted y) (sy_rejections y)
       (sy_log y ++ [dl_reject r rejected])) last.
Proof.
  intros Hi Hp Hne Ht s. pose proof (fun n sn => valid_later y t n sn _ _ Hi Ht) as Hlater.
  destruct Hi. destruct (iv_pending0 r Hp) as [Hr1 Hr2]. unfold s.
  split; cbn; try done; try lia.
  - intros n sn Hn. split; [by eapply iv_accepted0 | by eapply Hlater].
  - intros n sn Hn. rewrite given_snoc, app_nil_r. eauto.
  - intros n. rewrite given_snoc, app_nil_r. apply iv_given0.
  - destruct (Z.ltb_spec r (in_consumed (sy_state y))); lia.
  - destruct (Z.ltb_spec r (in_consumed (sy_state y))); lia.
  - intros k a [Hk|Hk]%elem_of_app.
    + apply iv_acks0 in Hk. lia.
    + apply list_elem_of_singleton in Hk as [= -> ->]. lia.
  - intros earlier d later [(-> & -> & ->)|[later' E]]%snoc_split; [|by eapply iv_log0].
    cbn. split; [apply Hr2; lia|]. split; [done|]. intros k' a Hk%iv_acks0. lia.
Qed.

(** The delivery branch of [finish_consume]: the first delivery of a command is accepted by
    the supervisor, a replay is a duplicate for it. *)
Lemma deliver_invariant steps y last n snapshot t :
  invariant steps y last -> sy_pending y = Some (in_acknowledged (sy_state y)) ->
  sy_now y <= t -> in_handoff (sy_state y) = Some (n, snapshot) ->
  in_acknowledged (sy_state y) < n -> n <> in_consumed (sy_state y) ->
  let s := sy_state y in
  exists v r, accept_commands (in_safety s) snapshot t = (v, r) /\ r <> rejected /\
  invariant (S steps)
    (mkSystem (set_safety (set_consumed s n (in_acknowledged s)) v) None t (sy_accepted y)
       (sy_rejections y) (sy_log y ++ [dl_command n snapshot r])) (Some (n, snapshot)).
Proof.
  intros Hi Hp Ht Hh Hack Hne s. pose proof (fun n sn => valid_later y t n sn _ _ Hi Ht) as Hlater.
  assert ((n, snapshot) ∈ sy_accepted y) as Hin
    by (eapply last_accepted_bound; [exact Hi|]; by rewrite <- (iv_handoff _ _ _ Hi)).
  pose proof (Hlater n snapshot Hin) as Hv.
  assert (forall m sn, last = Some (m, sn) ->
    (m = n /\ sn = snapshot) \/ before (m, sn) (n, snapshot)) as Hlast.
  { intros m sn Hm. destruct (iv_last _ _ _ Hi m sn Hm) as [Hma _].
    pose proof (iv_sorted _ _ _ Hi) as Hs. pose proof (iv_handoff _ _ _ Hi) as Hl. rewrite Hh in Hl.
    symmetry in Hl. apply last_Some in Hl as [l Hl]. rewrite Hl in Hma, Hs.
    apply elem_of_app in Hma as [Hma|Hma].
    - right. clear -Hs Hma. induction l as [|z l IH]; [by apply elem_of_nil in Hma|].
      inversion Hs as [|z' l' Hs' Hf]; subst. apply elem_of_cons in Hma as [->|Hma]; [|auto].
      rewrite Forall_forall in Hf. apply Hf. set_solver.
    - apply list_elem_of_singleton in Hma as [= -> ->]. auto. }
  assert (exists v r, accept_commands (in_safety s) snapshot t = (v, r) /\
    remembers v (Some snapshot) /\ sv_configured v = sv_configured (in_safety s) /\
    sv_axis_count v = sv_axis_count (in_safety s) /\
    ((r = accepted /\ n ∉ given (sy_log y)) \/ (r = duplicate /\ n ∈ given (sy_log y))))
    as (v & r & Ha & Hrem & Hc & Hn & Hr).
  { pose proof (iv_safety _ _ _ Hi) as Hsafe. destruct last as [[m sn]|].
    - destruct (Hlast m sn eq_refl) as [[-> ->]|Hb].
      + exists (in_safety s), duplicate. rewrite accept_again by done.
        destruct (iv_last _ _ _ Hi n snapshot eq_refl). auto 10.
      + exists (store_commands (in_safety s) snapshot), accepted. rewrite accept_later.
        * split; [done|]. split; [apply remembers_stored|]. split; [done|]. split; [done|]. left.
          split; [done|]. intros Hg. destruct (iv_given _ _ _ Hi n Hg) as (m' & sn' & [= <- <-] & Hle).
          unfold before in Hb. cbn in Hb. lia.
        * done.
        * intros _. destruct Hsafe as (_ & E1 & E2 & _). unfold before in Hb. cbn in *.
          unfold s. lia.
    - exists (store_commands (in_safety s) snapshot), accepted. cbn in Hsafe. rewrite accept_later.
      + split; [done|]. split; [apply remembers_stored|]. split; [done|]. split; [done|]. left.
        split; [done|]. intros Hg. by destruct (iv_given _ _ _ Hi n Hg) as (? & ? & ? & _).
      + done.
      + unfold s. congruence. }
  exists v, r. split; [done|]. split; [naive_solver|]. unfold s in *.
  pose proof (valid_snapshot_transfer (in_safety (sy_state y)) v) as Htr.
  destruct Hi. split; cbn; try done; try lia; try congruence.
  - intros m sn Hm. split; [by eapply iv_accepted0|]. eapply Htr; [by eapply Hlater|done|done|lia].
  - intros m sn [= <- <-]. split; [done|]. rewrite given_snoc. set_solver.
  - intros m. rewrite given_snoc. intros [Hm|Hm]%elem_of_app.
    + destruct (iv_given0 m Hm) as (m' & sn' & Hm' & Hle). exists n, snapshot. split; [done|].
      destruct (Hlast m' sn' Hm') as [[-> _]|Hb]; [done|]. unfold before in Hb. cbn in Hb. lia.
    + apply list_elem_of_singleton in Hm as ->. eauto with lia.
  - intros _. rewrite given_snoc. set_solver.
  - intros k a [Hk|Hk]%elem_of_app; [by eapply iv_acks0|]. by apply list_elem_of_singleton in Hk.
  - intros earlier d later [(-> & -> & ->)|[later' E]]%snoc_split; [|by eapply iv_log0].
    cbn. split; [done|]. split; [|done]. intros k a Hk%iv_acks0. lia.
Qed.

Lemma idle_invariant steps y last t pending :
  invariant steps y last -> sy_now y <= t ->
  (forall r, pending = Some r -> sy_pending y = Some r \/ r = in_rejected (sy_state y)) ->
  invariant (S steps)
    (mkSystem (sy_state y) pending t (sy_accepted y) (sy_rejections y) (sy_log y)) last.
Proof.
  intros Hi Ht Hp. pose proof (fun n sn => valid_later y t n sn _ _ Hi Ht) as Hlater.
  destruct Hi. split; cbn; try done; try lia.
  - intros n sn Hn. split; [by eapply iv_accepted0 | by eapply Hlater].
  - intros r Hr. destruct (Hp r Hr) as [Hp'| ->]; [auto|]. split; [lia | tauto].
Qed.

Lemma safety_invariant steps y last v :
  invariant steps y last -> same_memory (in_safety (sy_state y)) v ->
  invariant (S steps)
    (mkSystem (set_safety (sy_state y) v) (sy_pending y) (sy_now y) (sy_accepted y)
       (sy_rejections y) (sy_log y)) last.
Proof.
  intros Hi Hm. pose proof Hm as (Hc & Hn & _). pose proof (remembers_same _ _ (fmap snd last) Hm) as Hr.
  destruct Hi. split; cbn; try done; try lia; try congruence; try tauto.
  intros n sn Hin. destruct (iv_accepted0 n sn Hin) as [? Hv]. split; [lia|].
  eapply valid_snapshot_transfer; [exact Hv | done | done | lia].
Qed.

(** A whole [finish_consume]: what it leaves, and that it acknowledges the rejection it read
    or, when there is none, that the newest command has been consumed. *)
Lemma finish_invariant steps y last r t y' :
  invariant steps y last -> sy_pending y = Some r -> step y (ev_finish t) = Some y' ->
  (exists last', invariant (S steps) y' last') /\
  in_acknowledged (sy_state y') = r /\ sy_accepted y' = sy_accepted y /\
  sy_rejections y' = sy_rejections y /\ in_handoff (sy_state y') = in_handoff (sy_state y) /\
  in_rejected (sy_state y') = in_rejected (sy_state y) /\ sy_now y' = t /\ sy_pending y' = None /\
  (forall n snapshot, in_acknowledged (sy_state y) = r ->
     in_handoff (sy_state y) = Some (n, snapshot) -> r < n -> n ∈ given (sy_log y')).
Proof.
  intros Hi Hp Hs. cbn in Hs. rewrite Hp in Hs.
  destruct (Z.ltb_spec t (sy_now y)) as [|Ht]; [discriminate|].
  unfold finish_consume, delivered in Hs.
  destruct (Z.eqb_spec r (in_acknowledged (sy_state y))) as [->|Hne]; cbn [negb] in Hs.
  2: { rewrite invalid_rejected in Hs by apply Hi. injection Hs as <-.
       split; [exists last; by apply reject_invariant|]. by repeat split. }
  pose proof (idle_invariant _ _ _ t None Hi Ht ltac:(discriminate)) as Hidle.
  destruct (in_handoff (sy_state y)) as [[n sn]|] eqn:Hh.
  2: { rewrite app_nil_r in Hs. injection Hs as <-. split; [eauto|]. by repeat split. }
  destruct (Z.leb_spec n (in_acknowledged (sy_state y))) as [Hle|Hlt]; cbn [orb] in Hs.
  { rewrite app_nil_r in Hs. injection Hs as <-. split; [eauto|]. repeat split; try done; cbn.
    intros n' sn' _ [= <- <-]. lia. }
  destruct (Z.eqb_spec n (in_consumed (sy_state y))) as [->|Hne].
  { rewrite app_nil_r in Hs. injection Hs as <-. split; [eauto|]. repeat split; try done; cbn.
    intros n' sn' _ [= <- <-]. by apply Hi. }
  destruct (deliver_invariant steps y last n sn t Hi Hp Ht Hh Hlt Hne) as (v & a & Ha & _ & Hd).
  rewrite Ha in Hs. injection Hs as <-. split; [eauto|]. repeat split; try done; cbn.
  intros n' sn' _ [= <- <-]. rewrite given_snoc. set_solver.
Qed.

Lemma step_invariant steps y last e y' :
  invariant steps y last -> Z.of_nat (S steps) < 2 ^ 64 -> step y e = Some y' ->
  exists last', invariant (S steps) y' last'.
Proof.
  intros Hi Hbig Hs. destruct e as [sn t| |t|bus pdos t|t|b].
  - eauto using ingress_stage_invariant.
  - cbn in Hs. destruct (sy_pending y) eqn:Hp; [discriminate|]. injection Hs as <-. exists last.
    apply idle_invariant; [done|lia|]. intros r [= <-]. by right.
  - cbn in Hs. destruct (sy_pending y) as [r|] eqn:Hp; [|discriminate].
    eapply (finish_invariant steps y last r t y' Hi Hp). cbn. by rewrite Hp.
  - injection Hs as <-. exists last. by apply safety_invariant, evaluate_memory.
  - injection Hs as <-. exists last. by apply safety_invariant, shutdown_memory.
  - injection Hs as <-. exists last. destruct Hi. split; cbn; done || lia.
Qed.

Lemma ingress_run_invariant es : forall steps y last y',
  invariant steps y last -> Z.of_nat (steps + length es) < 2 ^ 64 -> run y es = Some y' ->
  exists last', invariant (steps + length es) y' last'.
Proof.
  induction es as [|e es IH]; intros steps y last y' Hi Hbig Hr; cbn in Hr.
  - injection Hr as <-. exists last. by rewrite Nat.add_0_r.
  - destruct (step y e) as [y1|] eqn:E; [|discriminate]. cbn [length] in *.
    destruct (step_invariant _ _ _ _ _ Hi ltac:(lia) E) as [last1 H1].
    replace (steps + S (length es))%nat with (S steps + length es)%nat by lia.
    eapply IH; [exact H1 | lia | exact Hr].
Qed.

Lemma initial_invariant v :
  Z.of_nat (sv_axis_count v) <= kRobotIoMaximumAxes -> sv_has_command v = false ->
  invariant 0 (configured_with v) None.
Proof.
  intros Hn Hc. split; cbn; try done; try lia.
  - constructor.
  - intros n sn Hx. by apply elem_of_nil in Hx.
  - intros n Hx. by apply elem_of_nil in Hx.
  - intros k a Hx. by apply elem_of_nil in Hx.
  - intros earlier d later E. by destruct earlier.
Qed.

(** C9. The ingress of commands: whatever producers stage while the owner of the cycle consumes
    (its two reads interleaved with them) and evaluates, every command given to the safety
    supervisor is one that [stage_commands] accepted, under its number, newer than every
    rejection acknowledged before; the supervisor accepts it the first time and calls it a
    duplicate if it is replayed, so it never rejects what the ingress accepted; every rejection
    given to it is one that happened, is refused by it, and comes in order.  When nothing more
    is staged, two consumptions acknowledge every rejection and give the supervisor the last
    accepted command unless it was rejected after. *)
Theorem command_ingress_sound (v : SafetySupervisor) (es : list event) (y : system)
    (Hcount : Z.of_nat (sv_axis_count v) <= kRobotIoMaximumAxes)
    (Hfresh : sv_has_command v = false) (Hfew : Z.of_nat (length es + 4) < 2 ^ 64)
    (Hrun : run (configured_with v) es = Some y) :
  (forall earlier d later, sy_log y = earlier ++ d :: later ->
     entry_ok (sy_accepted y) (sy_rejections y) earlier d) /\
  (sy_pending y = None -> forall t1 t2 y', run y [ev_begin; ev_finish t1; ev_begin; ev_finish t2] = Some y' ->
     (forall k, k ∈ sy_rejections y -> k <= in_acknowledged (sy_state y')) /\
     forall n snapshot, list.last (sy_accepted y) = Some (n, snapshot) ->
       (forall k, k ∈ sy_rejections y -> k < n) -> n ∈ given (sy_log y')).
Proof.
  destruct (ingress_run_invariant es 0 _ None y (initial_invariant v Hcount Hfresh) ltac:(lia) Hrun)
    as [last Hi]. cbn [Nat.add] in Hi.
  split; [apply Hi|]. intros Hp t1 t2 y' Hr. cbn [run] in Hr.
  destruct (step y ev_begin) as [y1|] eqn:E1; [|discriminate].
  destruct (step_invariant _ _ _ _ _ Hi ltac:(lia) E1) as [l1 H1].
  cbn in E1. rewrite Hp in E1. injection E1 as <-.
  destruct (step _ (ev_finish t1)) as [y2|] eqn:E2; [|discriminate].
  destruct (finish_invariant _ _ _ _ _ _ H1 eq_refl E2)
    as ([l2 H2] & Ha2 & Hacc2 & Hrej2 & Hh2 & Hr2 & _ & Hp2 & _).
  destruct (step y2 ev_begin) as [y3|] eqn:E3; [|discriminate].
  destruct (step_invariant _ _ _ _ _ H2 ltac:(lia) E3) as [l3 H3].
  cbn in E3. rewrite Hp2 in E3. injection E3 as <-.
  destruct (step _ (ev_finish t2)) as [y4|] eqn:E4; [|discriminate]. injection Hr as <-.
  destruct (finish_invariant _ _ _ _ _ _ H3 eq_refl E4) as (_ & Ha4 & _ & _ & _ & _ & _ & _ & Hg).
  cbn [sy_state sy_accepted sy_rejections] in *. unfold read_rejected in *.
  rewrite Hr2 in *. split.
  - intros k Hk. rewrite Ha4. pose proof (iv_rejections _ _ _ Hi) as Hf.
    rewrite Forall_forall in Hf. by apply Hf.
  - intros n sn Hl Hlt. apply (Hg n sn); [exact Ha2| |].
    + rewrite Hh2, (iv_handoff _ _ _ Hi). exact Hl.
    + destruct (iv_rejected _ _ _ Hi) as [[Hz _] Hin].
      destruct (Z.eq_dec (in_rejected (sy_state y)) 0) as [->|Hne]; [|apply Hlt, Hin; lia].
      assert ((n, sn) ∈ sy_accepted y) as Hx by (apply last_Some in Hl as [l ->]; set_solver).
      apply (iv_accepted _ _ _ Hi) in Hx. lia.
Qed.

End CommandIngress.

(** ** Concrete runs *)

Module IngressExamples.
Import CommandIngress SafetyExamples.

(** A snapshot with the wrong number of axes. *)
Definition bad_snapshot : Snapshot AxisCommand := mkSnapshot 1 1000 3 [].

Definition runs (es : list event) : option system := run (configured_with arm) es.

Definition outcome (y : option system) : option (list Z * list CommandAcceptance * bool) :=
  fmap (fun y =>
    (map (fun d => match d with dl_command n _ _ => n | dl_reject n _ => n end) (sy_log y),
     map (fun d => match d with dl_command _ _ a => a | dl_reject _ a => a end) (sy_log y),
     sv_commands_valid (in_safety (sy_state y)))) y.

Definition staged_then_consumed : list event :=
  [ev_accepting true; ev_stage (arm_snapshot 1 1) 1000; ev_begin; ev_stage (arm_snapshot 2 1) 1500;
   ev_finish 2000].

Lemma command_ingress_sound_witness :
  exists y, runs staged_then_consumed = Some y /\
    (forall earlier d later, sy_log y = earlier ++ d :: later ->
       entry_ok (sy_accepted y) (sy_rejections y) earlier d) /\
    given (sy_log y) = [2].
Proof.
  destruct (runs staged_then_consumed) as [y|] eqn:E; [|discriminate]. exists y. split; [done|].
  split.
  - apply (command_ingress_sound arm staged_then_consumed y); [vm_compute; discriminate | reflexivity
      | reflexivity | exact E].
  - vm_compute in E. injection E as <-. reflexivity.
Defined.

(** The newer command that raced ahead of a rejection is replayed, as the source says, but the
    supervisor calls the replay a duplicate and its commands stay invalid: the accepted command
    has no effect any more. *)
Lemma replayed_command_is_lost :
  outcome (runs
    [ev_accepting true; ev_begin; ev_stage bad_snapshot 1000; ev_stage (arm_snapshot 1 1) 1000;
     ev_finish 2000; ev_begin; ev_finish 3000; ev_begin; ev_finish 4000; ev_begin; ev_finish 5000])
  = Some ([2; 1; 2], [accepted; rejected; duplicate], false).
Proof. vm_compute. reflexivity. Qed.

(** The two consumptions of one cycle ([refresh_commands_owned], then
    [process_device_cycle_owned]): the rejection and a newer command are both consumed before
    the outputs are computed, so there is no safe-stop cycle. *)
Lemma safe_stop_cycle_skipped :
  outcome (runs
    [ev_accepting true; ev_stage bad_snapshot 1000; ev_stage (arm_snapshot 1 1) 1000;
     ev_begin; ev_finish 2000; ev_begin; ev_finish 2000])
  = Some ([1; 2], [rejected; accepted], true).
Proof. vm_compute. reflexivity. Qed.

End IngressExamples.
