(* ===== verification/DdsEndpoint.v ===== *)
(** * The DDS endpoint of the daemon

    [robot_io/dds/daemon_endpoint.cpp]: the channels built from the topic registry, and the
    worker that takes commands, stages complete EtherCAT epochs and publishes sensor states.

    What a reader's [take] returns, the answers of the CycloneDDS and file-system calls and the
    point at which a DDS call throws are arguments; the calls of the callbacks and of the
    writers are results.  Each channel access of the worker is one step, so that the calls of
    the real-time threads can fall between any two of them. *)
From S2P Require Export Prelude Messages Profile Mailbox Topics.

(** ** The IDL types ([idl/policy_runtime/robot_io.idl]) and the values of the callbacks *)

Module DdsTypes.

Definition DDS_SCHEMA_VERSION : Z := 1.

Record MessageHeader := mkHeader {
  hd_schema_version : Z;
  hd_robot_id : string;
  hd_device_id : string;
  hd_session_id : string;
  hd_sequence_number : Z;
  hd_source_timestamp_ns : Z;
  hd_bus_cycle : Z;
  hd_flags : Z }.

Record Cia402ActuatorCommand := mkCia402Command {
  kc_header : MessageHeader;
  kc_target : double;
  kc_mode : Z;
  kc_command_flags : Z;
  kc_command_epoch : Z }.

Record DamiaoActuatorCommand := mkDamiaoCommand {
  kd_header : MessageHeader;
  kd_enabled : bool;
  kd_fault_reset : bool;
  kd_position : float;
  kd_velocity : float;
  kd_kp : float;
  kd_kd : float;
  kd_torque : float }.

Record St3215ActuatorCommand := mkSt3215Command {
  ks_header : MessageHeader;
  ks_target_radians : double;
  ks_enabled : bool;
  ks_fault_reset : bool }.

Record EthercatCommandCommit := mkCommit {
  kk_header : MessageHeader;
  kk_execution_group : string;
  kk_command_epoch : Z }.

(** A sample of [take()]: whether its info is valid, and its data. *)
Record sample (T : Type) := mkSample { sp_valid : bool; sp_data : T }.
Arguments mkSample {T}.
Arguments sp_valid {T}.
Arguments sp_data {T}.

Record Cia402CommandValue := mkCia402Value {
  vc_target : double;
  vc_mode : Z;
  vc_flags : Z;
  vc_sequence : Z;
  vc_source_timestamp_ns : Z }.

Definition Cia402CommandValue_zero : Cia402CommandValue := mkCia402Value fzero 0 0 0 0.

Record DamiaoCommandValue := mkDamiaoValue {
  vd_enabled : bool;
  vd_fault_reset : bool;
  vd_position : float;
  vd_velocity : float;
  vd_kp : float;
  vd_kd : float;
  vd_torque : float;
  vd_sequence : Z;
  vd_source_timestamp_ns : Z }.

Record St3215CommandValue := mkSt3215Value {
  vs_target_radians : double;
  vs_enabled : bool;
  vs_fault_reset : bool;
  vs_sequence : Z;
  vs_source_timestamp_ns : Z }.

(** The sensor events: what the four kinds share, and the rest. *)
Record event_stamp := mkStamp {
  es_sequence : Z;
  es_source_timestamp_ns : Z;
  es_bus_cycle : Z;
  es_flags : Z }.

Record Cia402SensorEvent := mkCia402Event {
  ec_stamp : event_stamp;
  ec_position : double;
  ec_velocity : double;
  ec_torque : double;
  ec_status_word : Z;
  ec_mode_display : Z }.

Record DamiaoSensorEvent := mkDamiaoEvent {
  ed_stamp : event_stamp;
  ed_position : float;
  ed_velocity : float;
  ed_torque : float;
  ed_motor_id : Z;
  ed_error_code : Z;
  ed_mos_temperature_c : Z;
  ed_rotor_temperature_c : Z }.

Record St3215SensorEvent := mkSt3215Event {
  et_stamp : event_stamp;
  et_position_radians : double;
  et_position_units : Z;
  et_error_flags : Z }.

Record RobotIoHealthEvent := mkHealthEvent {
  eh_sequence : Z;
  eh_source_timestamp_ns : Z;
  eh_health_flags : Z;
  eh_dropped_samples : Z }.

(** A published state: the header and the event it carries. *)
Record Published (E : Type) := mkPublished { pb_header : MessageHeader; pb_event : E }.
Arguments mkPublished {E}.
Arguments pb_header {E}.
Arguments pb_event {E}.

End DdsTypes.

(** ** [DdsDaemonEndpoint] *)

Module DdsDaemonEndpoint.
Import DdsTypes Topics.
Open Scope list_scope.
Open Scope Z_scope.

(** *** Sensor queues *)

(** [EventQueue<Event>]: a queue of one of five capacities. *)
Record EventQueue (E : Type) := mkEventQueue {
  eq_capacity : nat;
  eq_queue : SensorEventQueue.queue (T := E) }.
Arguments mkEventQueue {E}.
Arguments eq_capacity {E}.
Arguments eq_queue {E}.

Definition queue_of {E} (capacity : nat) : EventQueue E :=
  mkEventQueue capacity (SensorEventQueue.create capacity).

(** [select_queue_capacity] on a new queue, whose first alternative holds 16 events. *)
Definition select_queue_capacity {E} (capacity : Z) : EventQueue E :=
  if capacity =? 32 then queue_of 32
  else if capacity =? 64 then queue_of 64
  else if capacity =? 128 then queue_of 128
  else if capacity =? 256 then queue_of 256
  else queue_of 16.

Definition push_realtime {E} (q : EventQueue E) (e : E) : EventQueue E * bool :=
  let '(inner, r) := SensorEventQueue.push_realtime (eq_capacity q) (eq_queue q) e in
  (mkEventQueue (eq_capacity q) inner, r).

Definition pop {E} (q : EventQueue E) : EventQueue E * option E :=
  let '(inner, r) := SensorEventQueue.pop (eq_capacity q) (eq_queue q) in
  (mkEventQueue (eq_capacity q) inner, r).

(** *** The implementation object *)

(** [Cia402Channel], [DamiaoChannel] and [St3215Channel]. *)
Record StateChannel (E : Type) := mkStateChannel { sc_device_id : string; sc_queue : EventQueue E }.
Arguments mkStateChannel {E}.
Arguments sc_device_id {E}.
Arguments sc_queue {E}.

Record EthercatGroup := mkGroup {
  eg_name : string;
  eg_epoch : Z;
  eg_commands : list Cia402CommandValue;
  eg_staged : list bool }.

Record Cia402CommandChannel := mkCia402Channel {
  cc_group_index : nat;
  cc_member_index : nat;
  cc_device_id : string }.

(** [DamiaoCommandChannel] and [St3215CommandChannel]. *)
Record CommandChannel := mkCommandChannel { ch_actuator_index : nat; ch_device_id : string }.

Record Impl := mkImpl {
  im_robot_id : string;
  im_cia402_channels : list (StateChannel Cia402SensorEvent);
  im_damiao_channels : list (StateChannel DamiaoSensorEvent);
  im_st3215_channels : list (StateChannel St3215SensorEvent);
  im_groups : list EthercatGroup;
  im_cia402_commands : list Cia402CommandChannel;
  im_commits : list nat;                         (* group_index of the CommitChannels *)
  im_damiao_commands : list CommandChannel;
  im_st3215_commands : list CommandChannel;
  im_health_queue : EventQueue RobotIoHealthEvent;
  im_health_channel : bool;
  im_running : bool;
  im_worker_failed : bool;
  im_worker : bool }.                            (* the thread exists and has not returned *)

Section Construct.
Context (capacity : Z).

Definition state_channel {E} (d : DdsTopicDescriptor) : StateChannel E :=
  mkStateChannel (td_device_id d) (select_queue_capacity capacity).

Definition state_channels {E} (kind : DdsDeviceKind) (descriptors : list DdsTopicDescriptor)
    : list (StateChannel E) :=
  map state_channel
    (filter (fun d => td_kind d = state /\ td_device_kind d = kind) descriptors).

(** The loop over the CiA 402 command descriptors: [group_indices], the groups and the
    channels. *)
Definition cia402_step (st : StringMap nat * list EthercatGroup * list Cia402CommandChannel)
    (d : DdsTopicDescriptor) : StringMap nat * list EthercatGroup * list Cia402CommandChannel :=
  let '(indices, groups, channels) := st in
  if bool_decide (td_kind d = command) && bool_decide (td_device_kind d = cia402) then
    let '(indices, groups, index) :=
      match map_find indices (td_execution_group d) with
      | Some index => (indices, groups, index)
      | None =>
          (map_emplace indices (td_execution_group d) (length groups),
           groups ++ [mkGroup (td_execution_group d) 0 [] []], length groups)
      end in
    let member := match groups !! index with Some g => length (eg_commands g) | None => O end in
    (indices,
     alter (fun g => mkGroup (eg_name g) (eg_epoch g) (eg_commands g ++ [Cia402CommandValue_zero])
                       (eg_staged g ++ [false])) index groups,
     channels ++ [mkCia402Channel index member (td_device_id d)])
  else st.

Definition command_channels (kind : DdsDeviceKind) (descriptors : list DdsTopicDescriptor)
    : list CommandChannel :=
  imap (fun i d => mkCommandChannel i (td_device_id d))
    (filter (fun d => td_kind d = command /\ td_device_kind d = kind) descriptors).

Definition commit_channels (indices : StringMap nat) (descriptors : list DdsTopicDescriptor) : list nat :=
  omap (fun d => if decide (td_kind d = commit) then map_find indices (td_execution_group d) else None)
    descriptors.

(** The constructor of [Impl]. *)
Definition construct (robot_id : string) (descriptors : list DdsTopicDescriptor) : Impl :=
  let '(indices, groups, channels) := fold_left cia402_step descriptors ([], [], []) in
  mkImpl robot_id (state_channels cia402 descriptors) (state_channels damiao descriptors)
    (state_channels st3215 descriptors) groups channels (commit_channels indices descriptors)
    (command_channels damiao descriptors) (command_channels st3215 descriptors)
    (select_queue_capacity capacity)
    (existsb (fun d => bool_decide (td_kind d = health)) descriptors) false false false.
End Construct.

(** *** Updates *)

Definition with_groups (i : Impl) (groups : list EthercatGroup) : Impl :=
  mkImpl (im_robot_id i) (im_cia402_channels i) (im_damiao_channels i) (im_st3215_channels i)
    groups (im_cia402_commands i) (im_commits i) (im_damiao_commands i) (im_st3215_commands i)
    (im_health_queue i) (im_health_channel i) (im_running i) (im_worker_failed i) (im_worker i).

Definition with_channels (i : Impl) (a : list (StateChannel Cia402SensorEvent))
    (b : list (StateChannel DamiaoSensorEvent)) (c : list (StateChannel St3215SensorEvent))
    (h : EventQueue RobotIoHealthEvent) : Impl :=
  mkImpl (im_robot_id i) a b c (im_groups i) (im_cia402_commands i) (im_commits i)
    (im_damiao_commands i) (im_st3215_commands i) h (im_health_channel i) (im_running i)
    (im_worker_failed i) (im_worker i).

Definition with_life (i : Impl) (running failed worker : bool) : Impl :=
  mkImpl (im_robot_id i) (im_cia402_channels i) (im_damiao_channels i) (im_st3215_channels i)
    (im_groups i) (im_cia402_commands i) (im_commits i) (im_damiao_commands i)
    (im_st3215_commands i) (im_health_queue i) (im_health_channel i) running failed worker.

Definition with_cia402 (i : Impl) (a : list (StateChannel Cia402SensorEvent)) : Impl :=
  with_channels i a (im_damiao_channels i) (im_st3215_channels i) (im_health_queue i).
Definition with_damiao (i : Impl) (b : list (StateChannel DamiaoSensorEvent)) : Impl :=
  with_channels i (im_cia402_channels i) b (im_st3215_channels i) (im_health_queue i).
Definition with_st3215 (i : Impl) (c : list (StateChannel St3215SensorEvent)) : Impl :=
  with_channels i (im_cia402_channels i) (im_damiao_channels i) c (im_health_queue i).
Definition with_health (i : Impl) (h : EventQueue RobotIoHealthEvent) : Impl :=
  with_channels i (im_cia402_channels i) (im_damiao_channels i) (im_st3215_channels i) h.

(** *** The worker *)

(** What the worker hands out. *)
Inductive output :=
  | out_epoch (execution_group : string) (epoch : Z) (commands : list Cia402CommandValue)
  | out_damiao (actuator_index : nat) (command : DamiaoCommandValue)
  | out_st3215 (actuator_index : nat) (command : St3215CommandValue)
  | out_cia402_state (channel : nat) (state : Published Cia402SensorEvent)
  | out_damiao_state (channel : nat) (state : Published DamiaoSensorEvent)
  | out_st3215_state (channel : nat) (state : Published St3215SensorEvent)
  | out_health (state : Published RobotIoHealthEvent).

(** The checks of a command header. *)
Definition header_matches (i : Impl) (device_id : string) (h : MessageHeader) : bool :=
  (hd_schema_version h =? DDS_SCHEMA_VERSION) && String.eqb (hd_robot_id h) (im_robot_id i) &&
  String.eqb (hd_device_id h) device_id.

Definition cia402_admissible (i : Impl) (channel : Cia402CommandChannel)
    (s : sample Cia402ActuatorCommand) : bool :=
  sp_valid s && header_matches i (cc_device_id channel) (kc_header (sp_data s)) &&
  negb (kc_command_epoch (sp_data s) =? 0) && isfinite (kc_target (sp_data s)).

Definition cia402_value (c : Cia402ActuatorCommand) : Cia402CommandValue :=
  mkCia402Value (kc_target c) (kc_mode c) (kc_command_flags c)
    (hd_sequence_number (kc_header c)) (hd_source_timestamp_ns (kc_header c)).

(** A member of a group gets a command; another epoch forgets what was staged. *)
Definition stage_member (member epoch : Z) (value : Cia402CommandValue) (g : EthercatGroup)
    : EthercatGroup :=
  let staged := if eg_epoch g =? epoch then eg_staged g else replicate (length (eg_staged g)) false in
  mkGroup (eg_name g) epoch (<[Z.to_nat member := value]> (eg_commands g))
    (<[Z.to_nat member := true]> staged).

(** One sample of a CiA 402 command channel: the object, and [consumed]. *)
Definition take_cia402 (channel : Cia402CommandChannel) (st : Impl * bool)
    (s : sample Cia402ActuatorCommand) : Impl * bool :=
  let '(i, consumed) := st in
  if cia402_admissible i channel s
  then
    (with_groups i
       (alter (stage_member (Z.of_nat (cc_member_index channel)) (kc_command_epoch (sp_data s))
                 (cia402_value (sp_data s))) (cc_group_index channel) (im_groups i)), true)
  else (i, consumed).

Definition commit_admissible (i : Impl) (g : EthercatGroup) (s : sample EthercatCommandCommit) : bool :=
  sp_valid s && (hd_schema_version (kk_header (sp_data s)) =? DDS_SCHEMA_VERSION) &&
  String.eqb (hd_robot_id (kk_header (sp_data s))) (im_robot_id i) &&
  String.eqb (kk_execution_group (sp_data s)) (eg_name g) &&
  negb (kk_command_epoch (sp_data s) =? 0) && (kk_command_epoch (sp_data s) =? eg_epoch g) &&
  forallb id (eg_staged g).

Definition clear_staged (g : EthercatGroup) : EthercatGroup :=
  mkGroup (eg_name g) (eg_epoch g) (eg_commands g) (replicate (length (eg_staged g)) false).

(** One sample of a commit channel. *)
Definition take_commit (group_index : nat) (st : Impl * list output * bool)
    (s : sample EthercatCommandCommit) : Impl * list output * bool :=
  let '(i, outputs, consumed) := st in
  match im_groups i !! group_index with
  | None => st
  | Some g =>
      if commit_admissible i g s
      then
        (with_groups i (alter clear_staged group_index (im_groups i)),
         outputs ++ [out_epoch (eg_name g) (eg_epoch g) (eg_commands g)], true)
      else st
  end.

Definition damiao_admissible (i : Impl) (channel : CommandChannel)
    (s : sample DamiaoActuatorCommand) : bool :=
  let d := sp_data s in
  sp_valid s && header_matches i (ch_device_id channel) (kd_header d) &&
  isfinite (kd_position d) && isfinite (kd_velocity d) && isfinite (kd_kp d) &&
  isfinite (kd_kd d) && isfinite (kd_torque d).

Definition damiao_value (c : DamiaoActuatorCommand) : DamiaoCommandValue :=
  mkDamiaoValue (kd_enabled c) (kd_fault_reset c) (kd_position c) (kd_velocity c) (kd_kp c)
    (kd_kd c) (kd_torque c) (hd_sequence_number (kd_header c))
    (hd_source_timestamp_ns (kd_header c)).

Definition st3215_admissible (i : Impl) (channel : CommandChannel)
    (s : sample St3215ActuatorCommand) : bool :=
  sp_valid s && header_matches i (ch_device_id channel) (ks_header (sp_data s)) &&
  isfinite (ks_target_radians (sp_data s)).

Definition st3215_value (c : St3215ActuatorCommand) : St3215CommandValue :=
  mkSt3215Value (ks_target_radians c) (ks_enabled c) (ks_fault_reset c)
    (hd_sequence_number (ks_header c)) (hd_source_timestamp_ns (ks_header c)).

Definition state_header (i : Impl) (device_id : string) (e : event_stamp) : MessageHeader :=
  mkHeader DDS_SCHEMA_VERSION (im_robot_id i) device_id "" (es_sequence e)
    (es_source_timestamp_ns e) (es_bus_cycle e) (es_flags e).

(** The health state sets no bus cycle and no flags. *)
Definition health_header (i : Impl) (e : RobotIoHealthEvent) : MessageHeader :=
  mkHeader DDS_SCHEMA_VERSION (im_robot_id i) "health" "" (eh_sequence e)
    (eh_source_timestamp_ns e) 0 0.

(** The channel accesses of a turn, with what the readers return. *)
Inductive access :=
  | take_cia402_commands (channel : nat) (samples : list (sample Cia402ActuatorCommand))
  | take_commits (channel : nat) (samples : list (sample EthercatCommandCommit))
  | take_damiao_commands (channel : nat) (samples : list (sample DamiaoActuatorCommand))
  | take_st3215_commands (channel : nat) (samples : list (sample St3215ActuatorCommand))
  | publish_cia402 (channel : nat)
  | publish_damiao (channel : nat)
  | publish_st3215 (channel : nat)
  | publish_health.

(** Popping a state channel: the channels, and the event with the device. *)
Definition pop_channel {E} (channels : list (StateChannel E)) (k : nat)
    : list (StateChannel E) * option (string * E) :=
  match channels !! k with
  | None => (channels, None)
  | Some c =>
      let '(q, e) := pop (sc_queue c) in
      (<[k := mkStateChannel (sc_device_id c) q]> channels, fmap (fun e => (sc_device_id c, e)) e)
  end.

(** One access: the object, the outputs and whether anything was consumed. *)
Definition perform (i : Impl) (a : access) : Impl * list output * bool :=
  match a with
  | take_cia402_commands k samples =>
      match im_cia402_commands i !! k with
      | None => (i, [], false)
      | Some channel =>
          let '(i, consumed) := fold_left (take_cia402 channel) samples (i, false) in
          (i, [], consumed)
      end
  | take_commits k samples =>
      match im_commits i !! k with
      | None => (i, [], false)
      | Some group => fold_left (take_commit group) samples (i, [], false)
      end
  | take_damiao_commands k samples =>
      match im_damiao_commands i !! k with
      | None => (i, [], false)
      | Some channel =>
          let good := List.filter (damiao_admissible i channel) samples in
          (i, map (fun s => out_damiao (ch_actuator_index channel) (damiao_value (sp_data s))) good,
           match good with [] => false | _ => true end)
      end
  | take_st3215_commands k samples =>
      match im_st3215_commands i !! k with
      | None => (i, [], false)
      | Some channel =>
          let good := List.filter (st3215_admissible i channel) samples in
          (i, map (fun s => out_st3215 (ch_actuator_index channel) (st3215_value (sp_data s))) good,
           match good with [] => false | _ => true end)
      end
  | publish_cia402 k =>
      let '(channels, e) := pop_channel (im_cia402_channels i) k in
      (with_cia402 i channels,
       match e with
       | Some (d, e) => [out_cia402_state k (mkPublished (state_header i d (ec_stamp e)) e)]
       | None => []
       end, match e with Some _ => true | None => false end)
  | publish_damiao k =>
      let '(channels, e) := pop_channel (im_damiao_channels i) k in
      (with_damiao i channels,
       match e with
       | Some (d, e) => [out_damiao_state k (mkPublished (state_header i d (ed_stamp e)) e)]
       | None => []
       end, match e with Some _ => true | None => false end)
  | publish_st3215 k =>
      let '(channels, e) := pop_channel (im_st3215_channels i) k in
      (with_st3215 i channels,
       match e with
       | Some (d, e) => [out_st3215_state k (mkPublished (state_header i d (et_stamp e)) e)]
       | None => []
       end, match e with Some _ => true | None => false end)
  | publish_health =>
      let '(q, e) := pop (im_health_queue i) in
      match e with
      | Some e =>
          if im_health_channel i
          then (with_health i q, [out_health (mkPublished (health_header i e) e)], true)
          else (with_health i q, [], false)
      | None => (with_health i q, [], false)
      end
  end.

(** What the readers return in one turn of the worker. *)
Record inputs := mkInputs {
  tk_cia402 : nat -> list (sample Cia402ActuatorCommand);
  tk_commit : nat -> list (sample EthercatCommandCommit);
  tk_damiao : nat -> list (sample DamiaoActuatorCommand);
  tk_st3215 : nat -> list (sample St3215ActuatorCommand) }.

(** The accesses of one turn, in order. *)
Definition turn_accesses (i : Impl) (n : inputs) : list access :=
  map (fun k => take_cia402_commands k (tk_cia402 n k)) (seq 0 (length (im_cia402_commands i))) ++
  map (fun k => take_commits k (tk_commit n k)) (seq 0 (length (im_commits i))) ++
  map (fun k => take_damiao_commands k (tk_damiao n k)) (seq 0 (length (im_damiao_commands i))) ++
  map (fun k => take_st3215_commands k (tk_st3215 n k)) (seq 0 (length (im_st3215_commands i))) ++
  map publish_cia402 (seq 0 (length (im_cia402_channels i))) ++
  map publish_damiao (seq 0 (length (im_damiao_channels i))) ++
  map publish_st3215 (seq 0 (length (im_st3215_channels i))) ++ [publish_health].

Fixpoint perform_all (i : Impl) (accesses : list access) : Impl * list output * bool :=
  match accesses with
  | [] => (i, [], false)
  | a :: accesses =>
      let '(i, out, consumed) := perform i a in
      let '(i, outs, consumed') := perform_all i accesses in
      (i, out ++ outs, consumed || consumed')
  end.

(** A turn of the worker; it sleeps when nothing was consumed.  [throws]: the number of
    accesses after which a DDS call throws, which ends the worker. *)
Definition turn (i : Impl) (n : inputs) (throws : option nat) : Impl * list output * bool :=
  if im_worker i then
    match throws with
    | None => perform_all i (turn_accesses i n)
    | Some k =>
        let '(i, outs, consumed) := perform_all i (take k (turn_accesses i n)) in
        (with_life i (im_running i) true false, outs, consumed)
    end
  else (i, [], false).

(** *** The interface

    [None] for the object: it has been moved from. *)

(** The constructor of the thread throws a [std::system_error] out of [start] when
    [spawn] is false, after [running] was set. *)
Definition start (e : option Impl) (spawn : bool) : option Impl * option (Result unit) :=
  match e with
  | None => (e, Some (fail invalid_argument "DDS daemon endpoint is not startable"))
  | Some i =>
      if im_running i
      then (e, Some (fail invalid_argument "DDS daemon endpoint is not startable"))
      else if spawn
      then (Some (with_life i true (im_worker_failed i) true), Some (success tt))
      else (Some (with_life i true (im_worker_failed i) (im_worker i)), None)
  end.

Definition stop (e : option Impl) : option Impl :=
  fmap (fun i => with_life i false (im_worker_failed i) false) e.

Definition poll_health (e : option Impl) : Result unit :=
  match e with
  | None => fail invalid_argument "DDS daemon endpoint has been moved"
  | Some i => if im_worker_failed i then fail io "DDS daemon worker failed" else success tt
  end.

Definition push_channel {E} (channels : list (StateChannel E)) (k : nat) (event : E)
    : list (StateChannel E) * bool :=
  match channels !! k with
  | None => (channels, false)
  | Some c =>
      let '(q, r) := push_realtime (sc_queue c) event in
      (<[k := mkStateChannel (sc_device_id c) q]> channels, r)
  end.

Definition enqueue_cia402_sensor_realtime (e : option Impl) (k : nat) (event : Cia402SensorEvent)
    : option Impl * bool :=
  match e with
  | None => (e, false)
  | Some i =>
      let '(channels, r) := push_channel (im_cia402_channels i) k event in
      (Some (with_cia402 i channels), r)
  end.

Definition enqueue_damiao_sensor_realtime (e : option Impl) (k : nat) (event : DamiaoSensorEvent)
    : option Impl * bool :=
  match e with
  | None => (e, false)
  | Some i =>
      let '(channels, r) := push_channel (im_damiao_channels i) k event in
      (Some (with_damiao i channels), r)
  end.

Definition enqueue_st3215_sensor_realtime (e : option Impl) (k : nat) (event : St3215SensorEvent)
    : option Impl * bool :=
  match e with
  | None => (e, false)
  | Some i =>
      let '(channels, r) := push_channel (im_st3215_channels i) k event in
      (Some (with_st3215 i channels), r)
  end.

Definition enqueue_health_realtime (e : option Impl) (event : RobotIoHealthEvent)
    : option Impl * bool :=
  match e with
  | None => (e, false)
  | Some i =>
      let '(q, r) := push_realtime (im_health_queue i) event in (Some (with_health i q), r)
  end.

Definition dropped_cia402_sensor_samples (e : option Impl) (k : nat) : nat :=
  match e with
  | None => O
  | Some i =>
      match im_cia402_channels i !! k with
      | None => O
      | Some c => SensorEventQueue.q_dropped (eq_queue (sc_queue c))
      end
  end.

(** *** [load_cyclone_config] and [create]

    A directory is the list of its components; [exists_in] says whether the configured path
    exists relative to a directory, [content] what the file that is found holds. *)
Section Create.
Context (exists_in : list string -> bool) (exists_absolute : bool) (content : string).

(** The loop over the current directory and its ancestors, six at most. *)
Fixpoint search (depth : nat) (candidate : list string) : option (list string) :=
  match depth with
  | O => None
  | S depth =>
      if exists_in candidate then Some candidate
      else match candidate with
           | [] => None
           | _ => search depth (removelast candidate)
           end
  end.

Definition is_absolute (path : string) : bool :=
  match chars path with c :: _ => Ascii.eqb c "/"%char | [] => false end.

Definition load_cyclone_config (configured_path : string) (current_path : list string)
    : Result string :=
  match configured_path with
  | EmptyString => success ""%string
  | _ =>
      let found :=
        if is_absolute configured_path then exists_absolute
        else match search 6 current_path with
             | Some _ => true
             | None => exists_in current_path
             end in
      if negb found then fail unavailable "CycloneDDS configuration file does not exist"
      else match content with
           | EmptyString => fail io "CycloneDDS configuration file is empty"
           | _ => success content
           end
  end.

(** What [dds_create_domain] does: a domain is created, there is one already
    ([DDS_RETCODE_PRECONDITION_NOT_MET]), or another error. *)
Inductive domain_outcome := domain_created | domain_exists | domain_error.

(** [participant]: the constructor of [Impl] succeeds (otherwise it throws a DDS exception).
    The second component: whether a domain this call created is left when it fails. *)
Definition create (profile : RobotProfile) (current_path : list string) (domain : domain_outcome)
    (participant : bool) : Result Impl * bool :=
  match dds_backend (rp_dds profile) with
  | unix_shm => (fail invalid_argument "DDS daemon endpoint requires DDS backend", false)
  | dds =>
      match load_cyclone_config (dds_cyclone_config (rp_dds profile)) current_path with
      | failure e => (failure e, false)
      | success configuration =>
          let configured := match configuration with EmptyString => false | _ => true end in
          let owns_configured_domain := configured && match domain with domain_created => true | _ => false end in
          if configured && match domain with domain_error => true | _ => false end
          then (fail io "failed to create configured CycloneDDS domain", false)
          else
            match build_dds_topic_registry profile (dds_robot_id (rp_dds profile)) with
            | failure e => (failure e, owns_configured_domain)
            | success descriptors =>
                if participant
                then
                  (success (construct (dds_sensor_queue_capacity (rp_dds profile))
                              (dds_robot_id (rp_dds profile)) descriptors), false)
                else (fail io "failed to create DDS participant", false)
            end
      end
  end.
End Create.

(** ** Commands are authentic *)

(** What can happen to the endpoint: an access of the worker, a call of a real-time thread, or a
    change of its life cycle. *)
Inductive call :=
  | c_access (a : access)
  | c_cia402 (k : nat) (e : Cia402SensorEvent)
  | c_damiao (k : nat) (e : DamiaoSensorEvent)
  | c_st3215 (k : nat) (e : St3215SensorEvent)
  | c_health (e : RobotIoHealthEvent)
  | c_life (running failed worker : bool).

Definition call_step (i : Impl) (c : call) : Impl * list output :=
  match c with
  | c_access a => (perform i a).1
  | c_cia402 k e => (default i (enqueue_cia402_sensor_realtime (Some i) k e).1, [])
  | c_damiao k e => (default i (enqueue_damiao_sensor_realtime (Some i) k e).1, [])
  | c_st3215 k e => (default i (enqueue_st3215_sensor_realtime (Some i) k e).1, [])
  | c_health e => (default i (enqueue_health_realtime (Some i) e).1, [])
  | c_life r f w => (with_life i r f w, [])
  end.

Fixpoint calls_run (i : Impl) (cs : list call) : Impl * list output :=
  match cs with
  | [] => (i, [])
  | c :: cs =>
      let '(i, out) := call_step i c in
      let '(i, outs) := calls_run i cs in (i, out ++ outs)
  end.

(** The names of the groups with their numbers of members. *)
Definition shape (i : Impl) : list (string * nat) :=
  map (fun g => (eg_name g, length (eg_commands g))) (im_groups i).

(** What the worker never changes. *)
Definition static (i : Impl) :=
  (im_robot_id i, im_cia402_commands i, im_commits i, im_damiao_commands i, im_st3215_commands i,
   shape i).

(** A command for the member [m] of the group [gi] was received for [epoch]. *)
Definition received (past : list call) (i : Impl) (gi m : nat) (epoch : Z)
    (v : Cia402CommandValue) : Prop :=
  exists k channel samples s,
    c_access (take_cia402_commands k samples) ∈ past /\
    im_cia402_commands i !! k = Some channel /\ cc_group_index channel = gi /\
    cc_member_index channel = m /\ s ∈ samples /\ cia402_admissible i channel s = true /\
    kc_command_epoch (sp_data s) = epoch /\ v = cia402_value (sp_data s).

(** An output against the calls made so far. *)
Definition authentic (past : list call) (i : Impl) (o : output) : Prop :=
  match o with
  | out_epoch name epoch values =>
      epoch <> 0 /\
      exists gi, shape i !! gi = Some (name, length values) /\
        (forall m v, values !! m = Some v -> received past i gi m epoch v) /\
        exists k samples s,
          c_access (take_commits k samples) ∈ past /\ im_commits i !! k = Some gi /\
          s ∈ samples /\ sp_valid s = true /\ kk_execution_group (sp_data s) = name /\
          kk_command_epoch (sp_data s) = epoch
  | out_damiao index v =>
      exists k channel samples s,
        c_access (take_damiao_commands k samples) ∈ past /\
        im_damiao_commands i !! k = Some channel /\ index = ch_actuator_index channel /\
        s ∈ samples /\ damiao_admissible i channel s = true /\ v = damiao_value (sp_data s)
  | out_st3215 index v =>
      exists k channel samples s,
        c_access (take_st3215_commands k samples) ∈ past /\
        im_st3215_commands i !! k = Some channel /\ index = ch_actuator_index channel /\
        s ∈ samples /\ st3215_admissible i channel s = true /\ v = st3215_value (sp_data s)
  | _ => True
  end.

Lemma admissible_static i i' channel s :
  im_robot_id i' = im_robot_id i -> cia402_admissible i' channel s = cia402_admissible i channel s.
Proof. unfold cia402_admissible, header_matches. by intros ->. Qed.

Lemma received_mono past past' i i' gi m e v :
  past ⊆ past' -> static i' = static i -> received past i gi m e v -> received past' i' gi m e v.
Proof.
  intros Hp [= Hr Hc _ _ _ _] (k & ch & ss & s & H1 & H2 & H3 & H4 & H5 & H6 & H7).
  exists k, ch, ss, s. rewrite Hc, (admissible_static i i') by done. auto 10.
Qed.

Lemma authentic_mono past past' i i' o :
  past ⊆ past' -> static i' = static i -> authentic past i o -> authentic past' i' o.
Proof.
  intros Hp Hs. pose proof Hs as [= Hr Hc Hm Hd Ht Hsh]. destruct o; cbn; try done.
  - intros (He & gi & Hg & Hv & k & ss & s & H1 & H2 & H3). split; [done|]. exists gi.
    rewrite Hsh, Hm. split; [done|]. split; [eauto using received_mono|]. exists k, ss, s. auto.
  - intros (k & ch & ss & s & H1 & H2 & H3 & H4 & H5 & H6). exists k, ch, ss, s.
    unfold damiao_admissible, header_matches in *. rewrite Hd, Hr. auto 10.
  - intros (k & ch & ss & s & H1 & H2 & H3 & H4 & H5 & H6). exists k, ch, ss, s.
    unfold st3215_admissible, header_matches in *. rewrite Ht, Hr. auto 10.
Qed.

(** The staged members of every group have received commands for its epoch. *)
Definition groups_ok (past : list call) (i : Impl) : Prop :=
  forall gi g, im_groups i !! gi = Some g ->
    length (eg_commands g) = length (eg_staged g) /\
    forall m, eg_staged g !! m = Some true ->
      exists v, eg_commands g !! m = Some v /\ received past i gi m (eg_epoch g) v.

Lemma groups_ok_mono past past' i i' :
  past ⊆ past' -> static i' = static i -> im_groups i' = im_groups i ->
  groups_ok past i -> groups_ok past' i'.
Proof.
  intros Hp Hs Hg Hi gi g. rewrite Hg. intros Hgi. destruct (Hi gi g Hgi) as [Hl Hm].
  split; [done|]. intros m Hst. destruct (Hm m Hst) as (v & Hv & Hr).
  exists v. eauto using received_mono.
Qed.

Lemma shape_alter (f : EthercatGroup -> EthercatGroup) gi groups :
  (forall g, eg_name (f g) = eg_name g /\ length (eg_commands (f g)) = length (eg_commands g)) ->
  map (fun g => (eg_name g, length (eg_commands g))) (alter f gi groups) =
  map (fun g => (eg_name g, length (eg_commands g))) groups.
Proof.
  intros Hf. revert gi. induction groups as [|g groups IH]; intros [|gi]; try done.
  - cbn. destruct (Hf g) as [-> ->]. done.
  - cbn. f_equal. apply IH.
Qed.

Lemma with_groups_static i f gi :
  (forall g, eg_name (f g) = eg_name g /\ length (eg_commands (f g)) = length (eg_commands g)) ->
  static (with_groups i (alter f gi (im_groups i))) = static i.
Proof. intros Hf. unfold static, shape. cbn. by rewrite shape_alter. Qed.

Lemma take_cia402_ok past k samples channel i consumed s :
  c_access (take_cia402_commands k samples) ∈ past -> im_cia402_commands i !! k = Some channel ->
  s ∈ samples -> groups_ok past i ->
  let r := take_cia402 channel (i, consumed) s in groups_ok past r.1 /\ static r.1 = static i.
Proof.
  intros Hp Hk Hs Hi r. unfold r, take_cia402.
  destruct (cia402_admissible i channel s) eqn:Ha; [|done]. cbn [fst].
  set (f := stage_member _ _ _).
  assert (static (with_groups i (alter f (cc_group_index channel) (im_groups i))) = static i) as Hst.
  { apply with_groups_static. intros g. split; [done|]. cbn. by rewrite length_insert. }
  split; [|done]. intros gi g Hg. cbn [with_groups im_groups] in Hg.
  destruct (decide (gi = cc_group_index channel)) as [->|Hne].
  2: { rewrite list_lookup_alter_ne in Hg by done. destruct (Hi gi g Hg) as [Hl Hm].
       split; [done|]. intros m Hst'. destruct (Hm m Hst') as (v & Hv & Hr).
       exists v. eauto using received_mono. }
  rewrite list_lookup_alter_eq in Hg. destruct (im_groups i !! cc_group_index channel) as [g0|] eqn:Hg0;
    [|discriminate]. injection Hg as <-. destruct (Hi _ g0 Hg0) as [Hl Hm]. cbn. rewrite Nat2Z.id.
  split.
  { rewrite !length_insert, Hl. destruct (_ =? _); by rewrite ?length_replicate. }
  intros m [(<- & _ & Hlt)|(Hne & Hst')]%list_lookup_insert_Some.
  - exists (cia402_value (sp_data s)). rewrite list_lookup_insert_eq.
    + split; [done|]. exists k, channel, samples, s. repeat split; try done.
    + revert Hlt. rewrite Hl. destruct (_ =? _); rewrite ?length_replicate; done.
  - rewrite list_lookup_insert_ne by done.
    destruct (Z.eqb_spec (eg_epoch g0) (kc_command_epoch (sp_data s))) as [<-|_].
    + destruct (Hm m Hst') as (v & Hv & Hr). exists v. eauto using received_mono.
    + by apply lookup_replicate in Hst' as [? _].
Qed.

Lemma take_cia402_fold past k all channel samples : forall i consumed,
  c_access (take_cia402_commands k all) ∈ past -> im_cia402_commands i !! k = Some channel ->
  samples ⊆ all -> groups_ok past i ->
  let r := fold_left (take_cia402 channel) samples (i, consumed) in
  groups_ok past r.1 /\ static r.1 = static i.
Proof.
  induction samples as [|s samples IH]; intros i consumed Hp Hk Hs Hi; [done|].
  cbn [fold_left].
  destruct (take_cia402_ok past k all channel i consumed s Hp Hk ltac:(set_solver) Hi) as [H1 H2].
  destruct (take_cia402 channel (i, consumed) s) as [i1 c1]. cbn [fst] in *.
  pose proof H2 as [= _ Hc _ _ _ _].
  destruct (IH i1 c1 Hp ltac:(by rewrite Hc) ltac:(set_solver) H1) as [H3 H4].
  split; [exact H3 | by rewrite H4].
Qed.

Lemma take_commit_ok past k samples gi i outs consumed s :
  c_access (take_commits k samples) ∈ past -> im_commits i !! k = Some gi -> s ∈ samples ->
  groups_ok past i -> Forall (authentic past i) outs ->
  let r := take_commit gi (i, outs, consumed) s in
  groups_ok past r.1.1 /\ static r.1.1 = static i /\ Forall (authentic past i) r.1.2.
Proof.
  intros Hp Hk Hs Hi Ho r. unfold r, take_commit.
  destruct (im_groups i !! gi) as [g|] eqn:Hg; [|done].
  destruct (commit_admissible i g s) eqn:Ha; [|done]. cbn [fst snd].
  assert (static (with_groups i (alter clear_staged gi (im_groups i))) = static i) as Hst
    by (apply with_groups_static; done).
  destruct (Hi gi g Hg) as [Hl Hm]. split; [|split; [done|]].
  - intros gj g' Hg'. cbn [with_groups im_groups] in Hg'.
    destruct (decide (gj = gi)) as [->|Hne].
    + rewrite list_lookup_alter_eq, Hg in Hg'. injection Hg' as <-. cbn. rewrite length_replicate.
      split; [done|]. by intros m [? _]%lookup_replicate.
    + rewrite list_lookup_alter_ne in Hg' by done. destruct (Hi gj g' Hg') as [Hl' Hm'].
      split; [done|]. intros m Hst'. destruct (Hm' m Hst') as (v & Hv & Hr).
      exists v. eauto using received_mono.
  - apply Forall_app. split; [done|]. constructor; [|done]. unfold commit_admissible in Ha. b2p.
    repeat match goal with H : String.eqb _ _ = true |- _ => apply String.eqb_eq in H end.
    cbn. split; [congruence|]. exists gi. split.
    { unfold shape. by rewrite list_lookup_fmap, Hg. }
    split; [|exists k, samples, s; auto 10].
    intros m v Hv.
    assert (eg_staged g !! m = Some true) as Hstm.
    { match goal with H : forallb id _ = true |- _ => rewrite forallb_forall in H; rename H into Hall end.
      destruct (lookup_lt_is_Some_2 (eg_staged g) m) as [b Hb].
      { rewrite <- Hl. by eapply lookup_lt_Some. }
      rewrite Hb. f_equal. apply Hall, list_elem_of_In. by eapply list_elem_of_lookup_2. }
    destruct (Hm m Hstm) as (v' & Hv' & Hr). assert (v' = v) as -> by congruence. exact Hr.
Qed.

Lemma take_commit_fold past k all gi samples : forall i outs consumed,
  c_access (take_commits k all) ∈ past -> im_commits i !! k = Some gi ->
  samples ⊆ all -> groups_ok past i -> Forall (authentic past i) outs ->
  let r := fold_left (take_commit gi) samples (i, outs, consumed) in
  groups_ok past r.1.1 /\ static r.1.1 = static i /\ Forall (authentic past i) r.1.2.
Proof.
  induction samples as [|s samples IH]; intros i outs consumed Hp Hk Hs Hi Ho; [done|].
  cbn [fold_left].
  destruct (take_commit_ok past k all gi i outs consumed s Hp Hk ltac:(set_solver) Hi Ho)
    as (H1 & H2 & H3).
  destruct (take_commit gi (i, outs, consumed) s) as [[i1 o1] c1]. cbn [fst snd] in *.
  pose proof H2 as [= _ _ Hm _ _ _].
  destruct (IH i1 o1 c1 Hp ltac:(by rewrite Hm) ltac:(set_solver) H1) as (H4 & H5 & H6).
  { eapply Forall_impl; [exact H3|]. intros o. by apply authentic_mono. }
  split; [exact H4|]. split; [by rewrite H5|]. eapply Forall_impl; [exact H6|].
  intros o. by apply authentic_mono.
Qed.

Lemma list_filter_spec {A} (f : A -> bool) l x : x ∈ List.filter f l <-> x ∈ l /\ f x = true.
Proof. rewrite !list_elem_of_In. apply filter_In. Qed.

(** One call keeps the invariant, and its outputs are authentic. *)
Lemma call_step_ok past i c :
  groups_ok past i ->
  let r := call_step i c in
  groups_ok (past ++ [c]) r.1 /\ static r.1 = static i /\ Forall (authentic (past ++ [c]) i) r.2.
Proof.
  intros Hi r. assert (past ⊆ past ++ [c]) as Hsub by set_solver.
  assert (c ∈ past ++ [c]) as Hin by set_solver.
  assert (forall i', static i' = static i -> im_groups i' = im_groups i ->
    groups_ok (past ++ [c]) i' /\ static i' = static i) as Hsame.
  { intros i' Hs Hg. split; [|done]. eapply groups_ok_mono; eassumption. }
  pose proof (groups_ok_mono _ _ i i Hsub eq_refl eq_refl Hi) as Hi'.
  unfold r. destruct c as [a|k e|k e|k e|e|ru fa wo]; cbn [call_step].
  - destruct a as [k ss|k ss|k ss|k ss|k|k|k|]; cbn [perform].
    + destruct (im_cia402_commands i !! k) as [channel|] eqn:Hk; [|done].
      destruct (take_cia402_fold _ k ss channel ss i false Hin Hk ltac:(done) Hi') as [H1 H2].
      destruct (fold_left _ ss (i, false)) as [i1 c1]. done.
    + destruct (im_commits i !! k) as [gi|] eqn:Hk; [|done].
      apply (take_commit_fold _ k ss gi ss i [] false Hin Hk ltac:(done) Hi' (Forall_nil_2 _)).
    + destruct (im_damiao_commands i !! k) as [channel|] eqn:Hk; [|done]. cbn [fst snd].
      split; [done|]. split; [done|]. apply Forall_map, Forall_forall.
      intros s [Hs Ha]%list_filter_spec. cbn. exists k, channel, ss, s. auto 10.
    + destruct (im_st3215_commands i !! k) as [channel|] eqn:Hk; [|done]. cbn [fst snd].
      split; [done|]. split; [done|]. apply Forall_map, Forall_forall.
      intros s [Hs Ha]%list_filter_spec. cbn. exists k, channel, ss, s. auto 10.
    + destruct (pop_channel (im_cia402_channels i) k) as [l [[d e]|]]; cbn;
        (split; [by apply Hsame | split; [done | repeat constructor]]).
    + destruct (pop_channel (im_damiao_channels i) k) as [l [[d e]|]]; cbn;
        (split; [by apply Hsame | split; [done | repeat constructor]]).
    + destruct (pop_channel (im_st3215_channels i) k) as [l [[d e]|]]; cbn;
        (split; [by apply Hsame | split; [done | repeat constructor]]).
    + destruct (pop (im_health_queue i)) as [q [e|]]; [destruct (im_health_channel i)|]; cbn;
        (split; [by apply Hsame | split; [done | repeat constructor]]).
  - cbn. destruct (push_channel (im_cia402_channels i) k e) as [l b]. cbn.
    split; [by apply Hsame | split; [done | constructor]].
  - cbn. destruct (push_channel (im_damiao_channels i) k e) as [l b]. cbn.
    split; [by apply Hsame | split; [done | constructor]].
  - cbn. destruct (push_channel (im_st3215_channels i) k e) as [l b]. cbn.
    split; [by apply Hsame | split; [done | constructor]].
  - cbn. destruct (push_realtime (im_health_queue i) e) as [q b]. cbn.
    split; [by apply Hsame | split; [done | constructor]].
  - cbn. split; [by apply Hsame | split; [done | constructor]].
Qed.

Lemma calls_run_ok cs : forall past i,
  groups_ok past i ->
  let r := calls_run i cs in
  groups_ok (past ++ cs) r.1 /\ static r.1 = static i /\ Forall (authentic (past ++ cs) i) r.2.
Proof.
  induction cs as [|c cs IH]; intros past i Hi; cbn [calls_run].
  { rewrite app_nil_r. split; [done|]. split; [done | constructor]. }
  destruct (call_step_ok past i c Hi) as (H1 & H2 & H3).
  destruct (call_step i c) as [i1 o1]. cbn [fst snd] in *.
  destruct (IH (past ++ [c]) i1 H1) as (H4 & H5 & H6).
  destruct (calls_run i1 cs) as [i2 o2]. cbn [fst snd] in *. rewrite <- app_assoc in H4, H6.
  split; [done|]. split; [by rewrite H5|]. apply Forall_app. split.
  - eapply Forall_impl; [exact H3|]. intros o. apply authentic_mono; [set_solver | done].
  - eapply Forall_impl; [exact H6|]. intros o. apply authentic_mono; [set_solver | by rewrite H2].
Qed.

(** *** The construction *)

(** The loop over the command descriptors: the groups are the execution groups in order of
    appearance, and each channel names the next member of its group. *)
Definition members_of (name : string) (ds : list DdsTopicDescriptor) : list DdsTopicDescriptor :=
  filter (fun d => td_execution_group d = name) ds.

Definition cia402_commands_of (ds : list DdsTopicDescriptor) : list DdsTopicDescriptor :=
  filter (fun d => td_kind d = command /\ td_device_kind d = cia402) ds.

Record built (ds : list DdsTopicDescriptor) (indices : StringMap nat) (groups : list EthercatGroup)
    (channels : list Cia402CommandChannel) : Prop := {
  bu_keys : NoDup indices.*1;
  bu_index name gi : map_find indices name = Some gi <->
    exists g, groups !! gi = Some g /\ eg_name g = name;
  bu_group gi g : groups !! gi = Some g ->
    eg_epoch g = 0 /\ length (eg_commands g) = length (members_of (eg_name g) ds) /\
    eg_staged g = replicate (length (eg_commands g)) false;
  bu_covered d : d ∈ ds -> exists gi, map_find indices (td_execution_group d) = Some gi;
  bu_length : length channels = length ds;
  bu_channel k d : ds !! k = Some d -> exists gi,
    channels !! k = Some (mkCia402Channel gi (length (members_of (td_execution_group d) (take k ds)))
                            (td_device_id d)) /\
    map_find indices (td_execution_group d) = Some gi }.

Definition add_member (g : EthercatGroup) : EthercatGroup :=
  mkGroup (eg_name g) (eg_epoch g) (eg_commands g ++ [Cia402CommandValue_zero]) (eg_staged g ++ [false]).

Lemma members_snoc name ds d :
  members_of name (ds ++ [d]) =
  members_of name ds ++ (if decide (td_execution_group d = name) then [d] else []).
Proof. unfold members_of. rewrite filter_app, filter_cons. by case_decide. Qed.

Lemma built_new ds indices groups channels name :
  built ds indices groups channels -> map_find indices name = None ->
  built ds (map_emplace indices name (length groups)) (groups ++ [mkGroup name 0 [] []]) channels.
Proof.
  intros Hb Hn. pose proof (bu_keys _ _ _ _ Hb) as Hk.
  assert (forall n, map_find (map_emplace indices name (length groups)) n =
    match map_find indices n with
    | Some v => Some v
    | None => if decide (n = name) then Some (length groups) else None
    end) as Hf.
  { intros n. rewrite map_emplace_find by done. destruct (map_find indices n) eqn:E; [done|].
    destruct (String.eqb_spec name n), (decide (n = name)); congruence. }
  split.
  - by apply map_emplace_nodup.
  - intros n gi. rewrite Hf. destruct (map_find indices n) as [v|] eqn:E.
    + apply (bu_index _ _ _ _ Hb) in E as Hg. destruct Hg as (g & Hg & Hgn). split.
      * intros [= <-]. exists g. split; [by apply lookup_app_l_Some | done].
      * intros (g' & Hg' & Hgn'). apply lookup_app_Some in Hg' as [Hg'|[Hle Hg']].
        -- rewrite <- E. apply Hb. eauto.
        -- apply list_lookup_singleton_Some in Hg' as [_ <-]. cbn in Hgn'. congruence.
    + destruct (decide (n = name)) as [->|Hne].
      * split; [intros [= <-]; exists (mkGroup name 0 [] []); split; [|done]; by apply lookup_snoc_Some; right|].
        intros (g' & Hg' & Hgn'). apply lookup_snoc_Some in Hg' as [[_ Hg']|[-> _]]; [|done].
        rewrite (proj2 (bu_index _ _ _ _ Hb name gi)) in Hn by eauto. done.
      * split; [done|]. intros (g' & Hg' & Hgn').
        apply lookup_snoc_Some in Hg' as [[_ Hg']|[_ <-]]; [|cbn in Hgn'; congruence].
        rewrite (proj2 (bu_index _ _ _ _ Hb n gi)) in E by eauto. done.
  - intros gi g [[_ Hg]|[-> <-]]%lookup_snoc_Some; [by apply Hb in Hg|]. cbn.
    split; [done|]. split; [|done].
    assert (members_of name ds = []) as ->; [|done]. unfold members_of.
    destruct (filter _ ds) as [|d l] eqn:E; [done|].
    assert (d ∈ filter (fun d => td_execution_group d = name) ds) as [He Hd]%list_elem_of_filter
      by (rewrite E; left).
    apply (bu_covered _ _ _ _ Hb) in Hd as [gi Hgi]. congruence.
  - intros d Hd. destruct (bu_covered _ _ _ _ Hb d Hd) as [gi Hgi]. exists gi. by rewrite Hf, Hgi.
  - apply Hb.
  - intros k d Hd. destruct (bu_channel _ _ _ _ Hb k d Hd) as (gi & Hc & Hgi). exists gi.
    split; [done|]. by rewrite Hf, Hgi.
Qed.

Lemma built_member ds indices groups channels d gi g :
  built ds indices groups channels -> map_find indices (td_execution_group d) = Some gi ->
  groups !! gi = Some g ->
  built (ds ++ [d]) indices (alter add_member gi groups)
    (channels ++ [mkCia402Channel gi (length (eg_commands g)) (td_device_id d)]).
Proof.
  intros Hb Hf Hg. pose proof (proj1 (bu_index _ _ _ _ Hb _ gi) Hf) as (g' & Hg' & Hn).
  assert (g' = g) as -> by congruence.
  assert (forall gj h, alter add_member gi groups !! gj = Some h ->
    exists h0, groups !! gj = Some h0 /\ eg_name h = eg_name h0 /\
      h = if decide (gj = gi) then add_member h0 else h0) as Halt.
  { intros gj h Hh. destruct (decide (gj = gi)) as [->|Hne].
    - rewrite list_lookup_alter_eq, Hg in Hh. injection Hh as <-. by exists g.
    - rewrite list_lookup_alter_ne in Hh by done. by exists h. }
  split.
  - apply Hb.
  - intros n gj. rewrite (bu_index _ _ _ _ Hb n gj). split.
    + intros (h & Hh & Hhn). destruct (decide (gj = gi)) as [->|Hne].
      * exists (add_member g). rewrite list_lookup_alter_eq, Hg. split; [done|].
        assert (h = g) as -> by congruence. done.
      * exists h. by rewrite list_lookup_alter_ne.
    + intros (h & (h0 & Hh & Hhn & _)%Halt & <-). by exists h0.
  - intros gj h Hh. apply Halt in Hh as (h0 & Hh & Hhn & Hh').
    destruct (bu_group _ _ _ _ Hb gj h0 Hh) as (He & Hl & Hst).
    rewrite members_snoc, length_app, Hhn. destruct (decide (gj = gi)) as [->|Hne]; subst h.
    + assert (h0 = g) as -> by congruence. rewrite decide_True by done. cbn.
      rewrite length_app, Hl, Hst. cbn. split; [done|]. split; [done|].
      by rewrite <- replicate_S_end, Hl, Nat.add_1_r.
    + rewrite decide_False; [cbn; rewrite Nat.add_0_r; done|]. intros E. apply Hne.
      assert (map_find indices (td_execution_group d) = Some gj) as E' by (apply Hb; exists h0; by rewrite E).
      congruence.
  - intros d' [Hd|Hd]%elem_of_app; [by apply Hb|]. apply list_elem_of_singleton in Hd as ->. eauto.
  - rewrite !length_app, (bu_length _ _ _ _ Hb). done.
  - intros k d' [[Hk Hd]|[-> <-]]%lookup_snoc_Some.
    + destruct (bu_channel _ _ _ _ Hb k d' Hd) as (gj & Hc & Hgj). exists gj.
      split; [|done]. rewrite take_app_le by lia. by apply lookup_app_l_Some.
    + exists gi. split; [|done]. rewrite take_app_le, take_ge by lia.
      apply lookup_snoc_Some. right. split; [by rewrite (bu_length _ _ _ _ Hb)|].
      destruct (bu_group _ _ _ _ Hb gi g Hg) as (_ & Hl & _). by rewrite <- Hn, Hl.
Qed.

Lemma cia402_step_built ds indices groups channels d :
  td_kind d = command -> td_device_kind d = cia402 -> built ds indices groups channels ->
  let '(indices', groups', channels') := cia402_step (indices, groups, channels) d in
  built (ds ++ [d]) indices' groups' channels'.
Proof.
  intros Hk Hd Hb. unfold cia402_step. rewrite Hk, Hd, !bool_decide_eq_true_2 by done. cbn [andb].
  destruct (map_find indices (td_execution_group d)) as [gi|] eqn:Hf.
  - pose proof (proj1 (bu_index _ _ _ _ Hb _ gi) Hf) as (g & Hg & _). rewrite Hg.
    by apply (built_member ds indices groups channels d gi g).
  - rewrite list_lookup_middle by done.
    pose proof (built_new _ _ _ _ _ Hb Hf) as Hb'.
    apply (built_member ds _ _ channels d (length groups) (mkGroup (td_execution_group d) 0 [] []) Hb').
    + apply Hb'. exists (mkGroup (td_execution_group d) 0 [] []). split; [|done].
      by apply list_lookup_middle.
    + by apply list_lookup_middle.
Qed.

Lemma fold_cia402 ds : forall st,
  fold_left cia402_step ds st = fold_left cia402_step (cia402_commands_of ds) st.
Proof.
  induction ds as [|d ds IH]; intros st; [done|]. cbn [fold_left].
  unfold cia402_commands_of in *. rewrite filter_cons. case_decide as Hd; cbn [fold_left]; [apply IH|].
  rewrite IH. f_equal. destruct st as [[a b] c]. unfold cia402_step.
  destruct (bool_decide _ && bool_decide _) eqn:E; [|done]. b2p. tauto.
Qed.

Lemma construct_built ds :
  let '(indices, groups, channels) := fold_left cia402_step ds ([], [], []) in
  built (cia402_commands_of ds) indices groups channels.
Proof.
  rewrite fold_cia402. set (cs := cia402_commands_of ds).
  assert (forall cs done st, (forall d, d ∈ cs -> td_kind d = command /\ td_device_kind d = cia402) ->
    (let '(i, g, c) := st in built done i g c) ->
    let '(i, g, c) := fold_left cia402_step cs st in built (done ++ cs) i g c) as H.
  { clear. induction cs as [|d cs IH]; intros done [[i g] c] Hcs Hb; cbn [fold_left].
    - by rewrite app_nil_r.
    - destruct (Hcs d ltac:(left)) as [Hk Hd].
      pose proof (cia402_step_built done i g c d Hk Hd Hb) as Hb'.
      replace (done ++ d :: cs) with ((done ++ [d]) ++ cs) by (by rewrite <- app_assoc).
      apply IH; [set_solver|]. destruct (cia402_step (i, g, c) d) as [[? ?] ?]. exact Hb'. }
  apply (H cs [] ([], [], [])).
  - intros d [Hd _]%list_elem_of_filter. exact Hd.
  - split; try done.
    + constructor.
    + intros n gi. split; [done|]. by intros (g & Hg & _).
    + intros d Hd. by apply elem_of_nil in Hd.
Qed.

Lemma construct_fields capacity robot_id ds :
  let i := construct capacity robot_id ds in
  exists indices, built (cia402_commands_of ds) indices (im_groups i) (im_cia402_commands i) /\
    im_commits i = commit_channels indices ds /\ im_robot_id i = robot_id /\
    im_cia402_channels i = state_channels capacity cia402 ds /\
    im_damiao_channels i = state_channels capacity damiao ds /\
    im_st3215_channels i = state_channels capacity st3215 ds /\
    im_damiao_commands i = command_channels damiao ds /\
    im_st3215_commands i = command_channels st3215 ds.
Proof.
  unfold construct. pose proof (construct_built ds) as Hb.
  destruct (fold_left cia402_step ds ([], [], [])) as [[indices groups] channels].
  exists indices. done.
Qed.

(** C20. Commands of the endpoint are authentic.  Whatever samples the readers return, however the
    accesses of the worker, the calls of the real-time threads and the life cycle interleave:
    a batch handed to the EtherCAT stage is for a non-zero epoch that a commit of that very
    group asked for, it has exactly the members of the group, and each member's value comes
    from a sample received on that member's own channel for the same epoch, with the right
    schema, robot and device and a finite target; and every Damiao or ST3215 command handed on
    comes from such a sample of the channel of that index. *)
Theorem dds_commands_authentic (capacity : Z) (robot_id : string)
    (descriptors : list DdsTopicDescriptor) (cs : list call) :
  let i := construct capacity robot_id descriptors in
  Forall (authentic cs i) (calls_run i cs).2.
Proof.
  intros i. destruct (construct_fields capacity robot_id descriptors) as (idx & Hb & _). fold i in Hb.
  assert (groups_ok [] i) as H0.
  { intros gi g Hg. destruct (bu_group _ _ _ _ Hb gi g Hg) as (_ & _ & Hs).
    rewrite Hs, length_replicate. split; [done|]. by intros m [? _]%lookup_replicate. }
  apply (calls_run_ok cs [] i H0).
Qed.

(** *** Channels and devices *)

Definition type_of (k : DdsDeviceKind) : string :=
  match k with
  | cia402 => "cia402" | damiao => "damiao_motor" | st3215 => "st3215" | _ => ""
  end.

(** The devices of a kind, in the order of the profile. *)
Definition devices_of (k : DdsDeviceKind) (devices : list DeviceConfig) : list DeviceConfig :=
  filter (fun d => dev_type d = type_of k) devices.

Definition group_of (device : DeviceConfig) : string := default ""%string (dev_arg device "safety_group").

(** What a descriptor says of its device. *)
Definition describes (kind : DdsTopicKind) (k : DdsDeviceKind) (device : DeviceConfig)
    (t : DdsTopicDescriptor) : Prop :=
  td_kind t = kind /\ td_device_kind t = k /\ td_device_id t = dev_name device /\
  (k = cia402 -> td_execution_group t = group_of device).

Lemma describe_describes robot_id robot kind direction suffix device t :
  describe robot_id robot kind direction suffix device = success t ->
  exists k, dev_type device = type_of k /\ (k = cia402 \/ k = damiao \/ k = st3215) /\
    describes kind k device t.
Proof.
  unfold describe, device_kind_for. intros H.
  apply result_bind_success in H as (k & Hk & H). apply result_bind_success in H as (n & _ & H).
  apply result_bind_success in H as (g & Hg & H). injection H as <-.
  assert (dev_type device = type_of k /\ (k = cia402 \/ k = damiao \/ k = st3215)) as [H1 H2].
  { destruct (String.eqb_spec (dev_type device) "cia402"); [injection Hk as <-; auto|].
    destruct (String.eqb_spec (dev_type device) "damiao_motor"); [injection Hk as <-; auto|].
    destruct (String.eqb_spec (dev_type device) "st3215"); [injection Hk as <-; auto | discriminate]. }
  exists k. split; [done|]. split; [done|]. split; [done|]. split; [done|]. split; [done|].
  intros ->. rewrite decide_True in Hg by done.
  apply result_bind_success in Hg as (x & _ & Hg). by injection Hg as <-.
Qed.

Lemma describe_filter robot_id robot kind direction suffix k devices ts :
  k = cia402 \/ k = damiao \/ k = st3215 ->
  Forall2 (fun d t => describe robot_id robot kind direction suffix d = success t) devices ts ->
  Forall2 (describes kind k) (devices_of k devices)
    (filter (fun t => td_kind t = kind /\ td_device_kind t = k) ts) /\
  forall kind', kind' <> kind -> filter (fun t => td_kind t = kind' /\ td_device_kind t = k) ts = [].
Proof.
  intros Hk. induction 1 as [|d t devices ts Hd _ [IH1 IH2]]; [split; [constructor | done]|].
  apply describe_describes in Hd as (k' & Ht & Hk' & Hd). pose proof Hd as (Hd1 & Hd2 & _).
  unfold devices_of in *. split.
  - rewrite !filter_cons. destruct (decide (k = k')) as [<-|Hne].
    + rewrite decide_True by exact Ht. rewrite decide_True by (split; congruence). by constructor.
    + rewrite decide_False.
      * rewrite decide_False; [done|]. intros [_ E]. congruence.
      * rewrite Ht. destruct Hk as [-> |[-> | ->]], Hk' as [-> |[-> | ->]]; done.
  - intros kind' Hne. rewrite filter_cons, decide_False; [by apply IH2|]. intros [E _]. congruence.
Qed.

Lemma filter_registry kind k profile robot_id ds :
  k = cia402 \/ k = damiao \/ k = st3215 -> kind = state \/ kind = command ->
  build_dds_topic_registry profile robot_id = success ds ->
  Forall2 (describes kind k)
    (devices_of k (match kind with state => rp_sensors profile | _ => rp_actuators profile end))
    (filter (fun t => td_kind t = kind /\ td_device_kind t = k) ds).
Proof.
  intros Hk Hkind (robot & S & C & g & _ & HS & HC & _ & -> & _)%build_spec.
  destruct (describe_filter _ _ _ _ _ k _ _ Hk HS) as [HS1 HS2].
  destruct (describe_filter _ _ _ _ _ k _ _ Hk HC) as [HC1 HC2].
  assert (filter (fun t => td_kind t = kind /\ td_device_kind t = k)
    (map (commit_descriptor robot_id robot) g ++ [health_descriptor robot_id robot]) = []) as Hrest.
  { apply elem_of_nil_inv. intros t [[Ht _] Hin]%list_elem_of_filter. apply elem_of_app in Hin as [Hin|Hin].
    - apply list_elem_of_In, in_map_iff in Hin as (x & <- & _). cbn in Ht. destruct Hkind; congruence.
    - apply list_elem_of_singleton in Hin as ->. cbn in Ht. destruct Hkind; congruence. }
  rewrite (filter_app _ S), (filter_app _ C), Hrest, app_nil_r.
  destruct Hkind as [-> | ->].
  - rewrite (HC2 state), app_nil_r by done. exact HS1.
  - rewrite (HS2 command) by done. exact HC1.
Qed.

Lemma describes_names kind k devices ts :
  Forall2 (describes kind k) devices ts -> map td_device_id ts = map dev_name devices.
Proof. induction 1 as [|d t devices ts (_ & _ & Hd & _) _ IH]; [done|]. cbn. by rewrite Hd, IH. Qed.

Lemma describes_members kind name devices ts :
  Forall2 (describes kind cia402) devices ts ->
  length (members_of name ts) = length (filter (fun d => group_of d = name) devices).
Proof.
  unfold members_of. induction 1 as [|d t devices ts (_ & _ & _ & Hg) _ IH]; [done|].
  rewrite !filter_cons, (Hg eq_refl). by case_decide; cbn; rewrite IH.
Qed.

Lemma state_channels_names {E} capacity k profile robot_id ds :
  k = cia402 \/ k = damiao \/ k = st3215 ->
  build_dds_topic_registry profile robot_id = success ds ->
  map sc_device_id (state_channels (E := E) capacity k ds) = map dev_name (devices_of k (rp_sensors profile)).
Proof.
  intros Hk Hb. unfold state_channels. rewrite map_map. cbn.
  eapply describes_names, (filter_registry state k); eauto.
Qed.

Lemma command_channels_names k profile robot_id ds :
  k = cia402 \/ k = damiao \/ k = st3215 ->
  build_dds_topic_registry profile robot_id = success ds ->
  command_channels k ds =
    imap (fun n d => mkCommandChannel n (dev_name d)) (devices_of k (rp_actuators profile)).
Proof.
  intros Hk Hb. unfold command_channels.
  pose proof (filter_registry command k profile robot_id ds Hk (or_intror eq_refl) Hb) as H.
  cbn in H. apply describes_names in H.
  transitivity (imap mkCommandChannel (td_device_id <$>
    filter (fun d => td_kind d = command /\ td_device_kind d = k) ds)); [by rewrite imap_fmap|].
  transitivity (imap mkCommandChannel (dev_name <$> devices_of k (rp_actuators profile)));
    [|by rewrite imap_fmap].
  f_equal. exact H.
Qed.

Lemma commit_covers profile robot_id ds a gi indices :
  build_dds_topic_registry profile robot_id = success ds ->
  a ∈ devices_of cia402 (rp_actuators profile) -> map_find indices (group_of a) = Some gi ->
  gi ∈ commit_channels indices ds.
Proof.
  intros (robot & S & C & groups & _ & _ & HC & [_ Hg]%count_groups_entries & -> & _)%build_spec Ha Hf.
  apply list_elem_of_filter in Ha as [Hty Ha]. cbn in Hty.
  assert (exists g, (g, group_of a) ∈ groups) as [g Hin].
  { apply list_elem_of_lookup in Ha as [k Hk].
    destruct (Forall2_lookup_l _ _ _ _ _ HC Hk) as (t & _ & Ht).
    unfold describe, device_kind_for in Ht. rewrite Hty in Ht. cbn in Ht.
    apply result_bind_success in Ht as (n & _ & Ht). apply result_bind_success in Ht as (x & Hx & _).
    apply result_bind_success in Hx as (g & Hgr & _). exists g. apply Hg, list_elem_of_omap.
    exists a. split; [by eapply list_elem_of_lookup_2|].
    unfold group_entry, device_kind_for. by rewrite Hty, Hgr. }
  unfold commit_channels. rewrite !omap_app, !elem_of_app. right. right. left.
  apply list_elem_of_omap. exists (commit_descriptor robot_id robot (g, group_of a)).
  split; [by apply list_elem_of_fmap_2|]. by rewrite decide_True.
Qed.

(** The channels are those of the profile's devices: when the topic registry of the profile is
    built, the endpoint has one state channel per sensor of each kind and one command channel
    per actuator of each kind, in the profile's order and under the devices' names; a CiA 402
    actuator is the next member of the group of its safety group, each group has exactly the
    actuators of that safety group, and every group has a commit channel. *)
Theorem endpoint_channels_correct (capacity : Z) (profile : RobotProfile) (robot_id : string)
    (ds : list DdsTopicDescriptor) (Hregistry : build_dds_topic_registry profile robot_id = success ds) :
  let i := construct capacity robot_id ds in
  let actuators k := devices_of k (rp_actuators profile) in
  (map sc_device_id (im_cia402_channels i) = map dev_name (devices_of cia402 (rp_sensors profile)) /\
   map sc_device_id (im_damiao_channels i) = map dev_name (devices_of damiao (rp_sensors profile)) /\
   map sc_device_id (im_st3215_channels i) = map dev_name (devices_of st3215 (rp_sensors profile))) /\
  im_damiao_commands i = imap (fun n d => mkCommandChannel n (dev_name d)) (actuators damiao) /\
  im_st3215_commands i = imap (fun n d => mkCommandChannel n (dev_name d)) (actuators st3215) /\
  length (im_cia402_commands i) = length (actuators cia402) /\
  forall k a, actuators cia402 !! k = Some a ->
    let same := fun b => group_of b = group_of a in
    exists gi g,
      im_cia402_commands i !! k =
        Some (mkCia402Channel gi (length (filter same (take k (actuators cia402)))) (dev_name a)) /\
      im_groups i !! gi = Some g /\ eg_name g = group_of a /\
      length (eg_commands g) = length (filter same (actuators cia402)) /\
      gi ∈ im_commits i.
Proof.
  intros i actuators.
  destruct (construct_fields capacity robot_id ds)
    as (idx & Hb & Hcommit & _ & H1 & H2 & H3 & H4 & H5). fold i in Hb, Hcommit, H1, H2, H3, H4, H5.
  rewrite H1, H2, H3, H4, H5. split; [|split; [|split]].
  - split; [|split]; (eapply state_channels_names; [|exact Hregistry]); auto.
  - eapply command_channels_names; [|exact Hregistry]; auto.
  - eapply command_channels_names; [|exact Hregistry]; auto.
  - pose proof (filter_registry command cia402 profile robot_id ds (or_introl eq_refl)
      (or_intror eq_refl) Hregistry) as HF. cbn in HF. fold (actuators cia402) in HF.
    split; [rewrite (bu_length _ _ _ _ Hb); symmetry; by eapply Forall2_length|].
    intros k a Ha same. destruct (Forall2_lookup_l _ _ _ _ _ HF Ha) as (t & Ht & _ & _ & Hn & Hg).
    specialize (Hg eq_refl). destruct (bu_channel _ _ _ _ Hb k t Ht) as (gi & Hc & Hgi).
    pose proof (proj1 (bu_index _ _ _ _ Hb _ gi) Hgi) as (g & Hgr & Hname).
    exists gi, g. rewrite Hname. split; [|split; [done|split; [done|split]]].
    + rewrite Hc, Hn, Hg. do 3 f_equal. eapply describes_members. by apply Forall2_take.
    + destruct (bu_group _ _ _ _ Hb gi g Hgr) as (_ & -> & _). rewrite Hname, Hg.
      by eapply describes_members.
    + rewrite Hcommit. eapply commit_covers; [exact Hregistry | by eapply list_elem_of_lookup_2|].
      by rewrite <- Hg.
Qed.

End DdsDaemonEndpoint.

(** ** A robot with two axes, two servos and a motor *)

Module DdsEndpointExamples.
Import DdsTypes Topics DdsDaemonEndpoint.
Open Scope string_scope.
Open Scope list_scope.
Open Scope Z_scope.

Definition axis_device (name group : string) : DeviceConfig :=
  mkDevice name (mkLink "cia402" "ethercat0") [("safety_group", group)].

Definition servo_device (name : string) : DeviceConfig :=
  mkDevice name (mkLink "st3215" "/dev/ttyUSB0") [].

Definition robot : RobotProfile :=
  mkRobotProfile [axis_device "hip_s" "leg"; axis_device "knee_s" "leg"; servo_device "left_s"; servo_device "right_s"]
    [axis_device "knee" "leg"; servo_device "right"; axis_device "hip" "leg"; servo_device "left"]
    [] [] []
    (mkDds dds "lab" 0 "" 64 (mkDdsExternal false 0 [])).

Definition descriptors : list DdsTopicDescriptor :=
  match build_dds_topic_registry robot "lab" with success ds => ds | failure _ => [] end.

Lemma endpoint_channels_correct_witness :
  let i := construct 64 "lab" descriptors in
  im_st3215_commands i = [mkCommandChannel 0 "right"; mkCommandChannel 1 "left"] /\
  length (im_cia402_commands i) = 2%nat.
Proof.
  destruct (endpoint_channels_correct 64 robot "lab" descriptors ltac:(vm_compute; reflexivity))
    as (_ & _ & H & Hl & _). split; [exact H | exact Hl].
Defined.

Definition endpoint : Impl := construct 64 "lab" descriptors.

Definition header (device : string) (sequence : Z) : MessageHeader :=
  mkHeader 1 "lab" device "" sequence 1000 0 0.

Definition joint_command (device : string) (epoch sequence : Z) : sample Cia402ActuatorCommand :=
  mkSample true (mkCia402Command (header device sequence) fone 8 1 epoch).

Definition commit_of (epoch : Z) : sample EthercatCommandCommit :=
  mkSample true (mkCommit (header "leg" 9) "leg" epoch).

(** A commit with a member of another epoch is ignored; the complete epoch is handed on. *)
Example epochs_are_complete :
  (calls_run endpoint
    [c_access (take_cia402_commands 0 [joint_command "knee" 1 5]);
     c_access (take_cia402_commands 1 [joint_command "hip" 2 6]);
     c_access (take_commits 0 [commit_of 2; commit_of 1]);
     c_access (take_cia402_commands 0 [joint_command "hip" 2 7; joint_command "knee" 2 8]);
     c_access (take_commits 0 [commit_of 1; commit_of 2; commit_of 2])]).2 =
  [out_epoch "leg" 2 [mkCia402Value fone 8 1 8 1000; mkCia402Value fone 8 1 6 1000]].
Proof. vm_compute. reflexivity. Qed.

(** A command of an older epoch replaces a newer one that has not been committed. *)
Example older_epoch_wins :
  (calls_run endpoint
    [c_access (take_cia402_commands 0 [joint_command "knee" 7 5]);
     c_access (take_cia402_commands 1 [joint_command "hip" 7 6]);
     c_access (take_cia402_commands 0 [joint_command "knee" 3 4]);
     c_access (take_commits 0 [commit_of 7])]).2 = [].
Proof. vm_compute. reflexivity. Qed.

(** The domain that [create] made is left behind when the topic registry refuses the profile. *)
Lemma domain_left_behind :
  let bad := mkRobotProfile [] [] [] [] [] (mkDds dds "--" 0 "dds.xml" 64 (mkDdsExternal false 0 [])) in
  create (fun _ => true) true "<xml/>" bad ["home"] domain_created true =
    (fail invalid_argument "robot_id must contain an ASCII letter or digit", true).
Proof. vm_compute. reflexivity. Qed.

(** After a DDS exception the worker is gone, [start] is refused while [running] is set, and
    [stop] and [start] give a working thread that still reports a failure. *)
Lemma failed_worker_is_sticky :
  let e := (start (Some endpoint) true).1 in
  let nothing := mkInputs (fun _ => []) (fun _ => []) (fun _ => []) (fun _ => []) in
  let failed_once := fmap (fun i => (turn i nothing (Some 3%nat)).1.1) e in
  fmap im_worker failed_once = Some false /\
  (start failed_once true).2 = Some (fail invalid_argument "DDS daemon endpoint is not startable") /\
  let restarted := (start (stop failed_once) true).1 in
  fmap im_worker restarted = Some true /\
  poll_health restarted = fail io "DDS daemon worker failed".
Proof. vm_compute. repeat split. Qed.

End DdsEndpointExamples.
