(* ===== verification/DdsRobotIo.v ===== *)
(** * The DDS endpoint of the runtime host

    [runtime/dds_robot_io.cpp]: the readers and writers that the host builds from the topic
    registry, its feedback snapshots and the commands it publishes.  What the readers return and
    the write at which a DDS call throws are arguments; the writes are results.

    The endpoint of the daemon (DdsEndpoint.v) is on the other side of the same topics: here are the
    channels of the two against each other; DdsDelivery.v has the way of a publication. *)
From S2P Require Export Prelude Messages Damiao Profile DdsEndpoint.

Module DdsRobotIo.
Import DdsTypes Topics.
Open Scope list_scope.
Open Scope Z_scope.

(** ** The members *)

Record WriterChannel := mkWriter { wc_device_id : string; wc_execution_group : string }.

Record DdsRuntimeRobotIo := mkRobotIo {
  io_robot_id : string;
  io_axis_count : Z;
  io_servo_count : Z;
  io_damiao_count : Z;
  io_axis_feedback : Snapshot AxisFeedback;
  io_servo_feedback : Snapshot St3215ServoFeedback;
  io_damiao_feedback : Snapshot DamiaoFeedback;
  io_cia402_readers : list string;                 (* device_id *)
  io_st3215_readers : list string;
  io_damiao_readers : list string;
  io_cia402_writers : list WriterChannel;
  io_st3215_writers : list WriterChannel;
  io_damiao_writers : list WriterChannel;
  io_commit_writers : list WriterChannel }.

Definition session_id : string := "policy-runtime-host".

Definition DamiaoFeedback_zero : DamiaoFeedback := mkDamiaoFeedback 0 0 fzero fzero fzero 0 0.

(** The descriptors of a kind and device kind, in the order of the registry. *)
Definition readers (kind : DdsDeviceKind) (descriptors : list DdsTopicDescriptor) : list string :=
  map td_device_id (filter (fun d => td_kind d = state /\ td_device_kind d = kind) descriptors).

Definition writer (d : DdsTopicDescriptor) : WriterChannel :=
  mkWriter (td_device_id d) (td_execution_group d).

Definition writers (kind : DdsDeviceKind) (descriptors : list DdsTopicDescriptor) : list WriterChannel :=
  map writer (filter (fun d => td_kind d = command /\ td_device_kind d = kind) descriptors).

Definition commit_writers (descriptors : list DdsTopicDescriptor) : list WriterChannel :=
  map writer (filter (fun d => td_kind d = commit) descriptors).

(** The constructor. *)
Definition construct (profile : RobotProfile) (descriptors : list DdsTopicDescriptor)
    : DdsRuntimeRobotIo :=
  let axes := u32 (Z.of_nat (length (rp_axes profile))) in
  let servos := u32 (Z.of_nat (length (rp_st3215_servos profile))) in
  let motors := u32 (Z.of_nat (length (rp_damiao_motors profile))) in
  mkRobotIo (dds_robot_id (rp_dds profile)) axes servos motors
    (mkSnapshot 0 0 axes (replicate (Z.to_nat kRobotIoMaximumAxes) AxisFeedback_zero))
    (mkSnapshot 0 0 servos (replicate (Z.to_nat kRobotIoMaximumServos) St3215ServoFeedback_zero))
    (mkSnapshot 0 0 motors (replicate (Z.to_nat kRobotIoMaximumServos) DamiaoFeedback_zero))
    (readers cia402 descriptors) (readers st3215 descriptors) (readers damiao descriptors)
    (writers cia402 descriptors) (writers st3215 descriptors) (writers damiao descriptors)
    (commit_writers descriptors).

(** [make_dds_runtime_robot_io]; [participant]: the DDS objects can be made. *)
Definition make_dds_runtime_robot_io (profile : RobotProfile) (participant : bool) (what : string)
    : Result DdsRuntimeRobotIo :=
  match dds_backend (rp_dds profile) with
  | dds =>
      descriptors ← build_dds_topic_registry profile (dds_robot_id (rp_dds profile));
      if participant then success (construct profile descriptors)
      else fail io ("failed to create DDS host endpoint: " ++ what)
  | _ => fail invalid_argument "robot profile does not select DDS"
  end.

(** ** Feedback *)

Section Read.
(** One kind of device: its samples [S], the header of a sample, the feedback [F] it is stored in. *)
Context {S F : Type} (header : S -> MessageHeader) (update : S -> F -> F).

Definition valid_header (robot_id device_id : string) (h : MessageHeader) : bool :=
  (hd_schema_version h =? DDS_SCHEMA_VERSION) && String.eqb (hd_robot_id h) robot_id &&
  String.eqb (hd_device_id h) device_id.

Definition readable (robot_id device_id : string) (s : sample S) : bool :=
  sp_valid s && valid_header robot_id device_id (header (sp_data s)).

(** A sample of the reader [index]; [None]: the store is outside the array. *)
Definition store_sample (robot_id device_id : string) (index : nat) (snapshot : Snapshot F)
    (s : sample S) : option (Snapshot F) :=
  if negb (sp_valid s) || (sn_axis_count snapshot <=? Z.of_nat index) then Some snapshot
  else if negb (valid_header robot_id device_id (header (sp_data s))) then Some snapshot
  else
    old ← sn_axes snapshot !! index;
    let h := header (sp_data s) in
    Some (mkSnapshot (Z.max (sn_sequence snapshot) (hd_sequence_number h))
            (Z.max (sn_timestamp_ns snapshot) (hd_source_timestamp_ns h)) (sn_axis_count snapshot)
            (<[index := update (sp_data s) old]> (sn_axes snapshot))).

Fixpoint store_samples (robot_id device_id : string) (index : nat) (samples : list (sample S))
    (snapshot : Snapshot F) : option (Snapshot F) :=
  match samples with
  | [] => Some snapshot
  | s :: samples =>
      snapshot ← store_sample robot_id device_id index snapshot s;
      store_samples robot_id device_id index samples snapshot
  end.

(** The loop over the readers; [take]: what each of them returns. *)
Fixpoint read_all (robot_id : string) (take : nat -> list (sample S)) (index : nat)
    (devices : list string) (snapshot : Snapshot F) : option (Snapshot F) :=
  match devices with
  | [] => Some snapshot
  | device_id :: devices =>
      snapshot ← store_samples robot_id device_id index (take index) snapshot;
      read_all robot_id take (Datatypes.S index) devices snapshot
  end.
End Read.

Definition update_axis (s : Published Cia402SensorEvent) (old : AxisFeedback) : AxisFeedback :=
  let h := pb_header s in
  let e := pb_event s in
  mkAxisFeedback (hd_sequence_number h) (hd_source_timestamp_ns h) (ec_position e) (ec_velocity e)
    (ec_torque e) (ec_status_word e) (hd_flags h) (u32 (ec_mode_display e)).

(** The other members of the servo's feedback keep their values. *)
Definition update_servo (s : Published St3215SensorEvent) (old : St3215ServoFeedback)
    : St3215ServoFeedback :=
  let h := pb_header s in
  let e := pb_event s in
  mkServoFeedback (hd_sequence_number h) (sf_command_sequence old) (hd_source_timestamp_ns h)
    (et_position_radians e) (et_position_units e) (hd_flags h) (sf_transport_health old)
    (et_error_flags e) (sf_timeout_count old) (sf_io_error_count old).

Definition update_motor (s : Published DamiaoSensorEvent) (old : DamiaoFeedback) : DamiaoFeedback :=
  let e := pb_event s in
  mkDamiaoFeedback (ed_motor_id e) (ed_error_code e) (ed_position e) (ed_velocity e) (ed_torque e)
    (wrap_signed 8 (ed_mos_temperature_c e)) (wrap_signed 8 (ed_rotor_temperature_c e)).

Definition with_feedback (o : DdsRuntimeRobotIo) (a : Snapshot AxisFeedback)
    (s : Snapshot St3215ServoFeedback) (d : Snapshot DamiaoFeedback) : DdsRuntimeRobotIo :=
  mkRobotIo (io_robot_id o) (io_axis_count o) (io_servo_count o) (io_damiao_count o) a s d
    (io_cia402_readers o) (io_st3215_readers o) (io_damiao_readers o) (io_cia402_writers o)
    (io_st3215_writers o) (io_damiao_writers o) (io_commit_writers o).

Definition read_feedback (o : DdsRuntimeRobotIo)
    (take : nat -> list (sample (Published Cia402SensorEvent)))
    : option (DdsRuntimeRobotIo * Result (Snapshot AxisFeedback)) :=
  a ← read_all pb_header update_axis (io_robot_id o) take 0 (io_cia402_readers o) (io_axis_feedback o);
  Some (with_feedback o a (io_servo_feedback o) (io_damiao_feedback o), success a).

Definition read_servo_feedback (o : DdsRuntimeRobotIo)
    (take : nat -> list (sample (Published St3215SensorEvent)))
    : option (DdsRuntimeRobotIo * Result (Snapshot St3215ServoFeedback)) :=
  s ← read_all pb_header update_servo (io_robot_id o) take 0 (io_st3215_readers o) (io_servo_feedback o);
  Some (with_feedback o (io_axis_feedback o) s (io_damiao_feedback o), success s).

Definition read_damiao_feedback (o : DdsRuntimeRobotIo)
    (take : nat -> list (sample (Published DamiaoSensorEvent)))
    : option (DdsRuntimeRobotIo * Result (Snapshot DamiaoFeedback)) :=
  d ← read_all pb_header update_motor (io_robot_id o) take 0 (io_damiao_readers o) (io_damiao_feedback o);
  Some (with_feedback o (io_axis_feedback o) (io_servo_feedback o) d, success d).

(** ** Commands *)

(** A write, with the index of its writer. *)
Inductive written :=
  | w_cia402 (channel : nat) (command : Cia402ActuatorCommand)
  | w_commit (channel : nat) (commit : EthercatCommandCommit)
  | w_st3215 (channel : nat) (command : St3215ActuatorCommand)
  | w_damiao (channel : nat) (command : DamiaoActuatorCommand).

Definition fill_header (o : DdsRuntimeRobotIo) (device_id : string) (sequence timestamp_ns : Z)
    : MessageHeader :=
  mkHeader DDS_SCHEMA_VERSION (io_robot_id o) device_id session_id sequence timestamp_ns 0 0.

Definition cia402_message (o : DdsRuntimeRobotIo) (sequence timestamp_ns : Z) (channel : WriterChannel)
    (c : AxisCommand) : Cia402ActuatorCommand :=
  mkCia402Command (fill_header o (wc_device_id channel) sequence timestamp_ns) (ac_target c) 0
    (ac_flags c) sequence.

Definition commit_message (o : DdsRuntimeRobotIo) (sequence timestamp_ns : Z) (channel : WriterChannel)
    : EthercatCommandCommit :=
  mkCommit (fill_header o (wc_device_id channel) sequence timestamp_ns) (wc_execution_group channel)
    sequence.

Definition st3215_message (o : DdsRuntimeRobotIo) (sequence timestamp_ns : Z) (channel : WriterChannel)
    (c : St3215ServoCommand) : St3215ActuatorCommand :=
  mkSt3215Command (fill_header o (wc_device_id channel) sequence timestamp_ns)
    (sc_target_position_rad c) (sc_enabled c) (sc_emergency_stop c).

Definition damiao_message (o : DdsRuntimeRobotIo) (sequence timestamp_ns : Z) (channel : WriterChannel)
    (c : DamiaoMitCommand) (enabled : bool) : DamiaoActuatorCommand :=
  mkDamiaoCommand (fill_header o (wc_device_id channel) sequence timestamp_ns) enabled false
    (dm_position c) (dm_velocity c) (dm_kp c) (dm_kd c) (dm_torque c).

(** The messages of a publication, channel by channel. *)
Definition cia402_messages (o : DdsRuntimeRobotIo) (axes : list AxisCommand) (sequence timestamp_ns : Z)
    : list Cia402ActuatorCommand :=
  zip_with (cia402_message o sequence timestamp_ns) (io_cia402_writers o) axes.

Definition commit_messages (o : DdsRuntimeRobotIo) (sequence timestamp_ns : Z)
    : list EthercatCommandCommit :=
  map (commit_message o sequence timestamp_ns) (io_commit_writers o).

Definition st3215_messages (o : DdsRuntimeRobotIo) (servos : list St3215ServoCommand)
    (sequence timestamp_ns : Z) : list St3215ActuatorCommand :=
  zip_with (st3215_message o sequence timestamp_ns) (io_st3215_writers o) servos.

Definition damiao_messages (o : DdsRuntimeRobotIo) (motors : list DamiaoMitCommand)
    (enabled : list bool) (sequence timestamp_ns : Z) : list DamiaoActuatorCommand :=
  zip_with (fun channel c => damiao_message o sequence timestamp_ns channel c.1 c.2)
    (io_damiao_writers o) (zip motors enabled).

(** The writes that happen when the write number [throws] throws, and the result. *)
Definition perform_writes (writes : list written) (throws : option nat) (message : string)
    : list written * Result unit :=
  match throws with
  | Some k => if (k <? length writes)%nat then (take k writes, fail io message) else (writes, success tt)
  | None => (writes, success tt)
  end.

Definition publish_commands (o : DdsRuntimeRobotIo) (axes : list AxisCommand)
    (servos : list St3215ServoCommand) (sequence timestamp_ns : Z) (throws : option nat) (what : string)
    : list written * Result unit :=
  if negb (Nat.eqb (length axes) (length (io_cia402_writers o))) ||
     negb (Nat.eqb (length servos) (length (io_st3215_writers o)))
  then ([], fail invalid_argument "DDS command count mismatch")
  else
    perform_writes
      (imap w_cia402 (cia402_messages o axes sequence timestamp_ns) ++
       imap w_commit (commit_messages o sequence timestamp_ns) ++
       imap w_st3215 (st3215_messages o servos sequence timestamp_ns)) throws
      ("DDS command publish failed: " ++ what).

Definition publish_damiao_commands (o : DdsRuntimeRobotIo) (motors : list DamiaoMitCommand)
    (enabled : list bool) (sequence timestamp_ns : Z) (throws : option nat) (what : string)
    : list written * Result unit :=
  if negb (Nat.eqb (length motors) (length (io_damiao_writers o))) ||
     negb (Nat.eqb (length enabled) (length motors))
  then ([], fail invalid_argument "DDS Damiao command count mismatch")
  else
    perform_writes (imap w_damiao (damiao_messages o motors enabled sequence timestamp_ns)) throws
      ("DDS Damiao publish failed: " ++ what).

(** ** On the other side of the topics *)

(** The samples of the writes, for each reader of the daemon: one per write of its topic, in the
    order of the writes.  When the readers get them is another matter (DdsDelivery.v). *)
Definition samples_of (ws : list written) : DdsDaemonEndpoint.inputs :=
  DdsDaemonEndpoint.mkInputs
    (fun k => omap (fun w => match w with
       | w_cia402 j c => if Nat.eqb j k then Some (mkSample true c) else None | _ => None end) ws)
    (fun k => omap (fun w => match w with
       | w_commit j c => if Nat.eqb j k then Some (mkSample true c) else None | _ => None end) ws)
    (fun k => omap (fun w => match w with
       | w_damiao j c => if Nat.eqb j k then Some (mkSample true c) else None | _ => None end) ws)
    (fun k => omap (fun w => match w with
       | w_st3215 j c => if Nat.eqb j k then Some (mkSample true c) else None | _ => None end) ws).

Import DdsDaemonEndpoint (EthercatGroup, eg_name, eg_epoch, eg_commands, eg_staged, Impl, im_groups,
  im_robot_id, im_cia402_commands, im_commits, im_damiao_commands, im_st3215_commands, cia402_value,
  out_epoch, out_damiao, out_st3215, perform, perform_all, static, shape, members_of,
  cia402_commands_of, built, bu_index, bu_group, bu_covered, bu_length, bu_channel).

(** The value of an axis command as the daemon's callback gets it. *)
Definition axis_value (sequence timestamp_ns : Z) (c : AxisCommand) : Cia402CommandValue :=
  mkCia402Value (ac_target c) 0 (ac_flags c) sequence timestamp_ns.

(** The values of the axes whose writer is in an execution group. *)
Definition group_values (o : DdsRuntimeRobotIo) (axes : list AxisCommand) (sequence timestamp_ns : Z)
    (group : string) : list Cia402CommandValue :=
  omap (fun p : WriterChannel * AxisCommand =>
    if String.eqb (wc_execution_group p.1) group then Some (axis_value sequence timestamp_ns p.2) else None)
    (zip (io_cia402_writers o) axes).

Definition servo_value (sequence timestamp_ns : Z) (c : St3215ServoCommand) : St3215CommandValue :=
  mkSt3215Value (sc_target_position_rad c) (sc_enabled c) (sc_emergency_stop c) sequence timestamp_ns.

Definition motor_value (sequence timestamp_ns : Z) (c : DamiaoMitCommand * bool) : DamiaoCommandValue :=
  mkDamiaoValue c.2 false (dm_position c.1) (dm_velocity c.1) (dm_kp c.1) (dm_kd c.1) (dm_torque c.1)
    sequence timestamp_ns.

(** *** What a reader gets *)

Lemma omap_imap_at {A B} (f : nat -> A -> written) (g : written -> option B) (h : A -> B)
    (l : list A) k :
  (forall j a, g (f j a) = if Nat.eqb j k then Some (h a) else None) ->
  omap g (imap f l) = match l !! k with Some a => [h a] | None => [] end.
Proof.
  intros Hg. assert (forall l n, omap g (imap (fun i => f (n + i)%nat) l) =
    if (k <? n)%nat then [] else match l !! (k - n)%nat with Some a => [h a] | None => [] end) as Hgen.
  { clear l. induction l as [|a l IH]; intros n; [by destruct (k <? n)%nat|].
    rewrite imap_cons. change (omap g (?x :: ?r)) with (match g x with Some b => b :: omap g r | None => omap g r end).
    rewrite Nat.add_0_r, Hg.
    rewrite (imap_ext _ (fun i => f (S n + i)%nat)) by (intros; cbn; f_equal; lia). rewrite IH.
    destruct (Nat.eqb_spec n k) as [->|Hne].
    - rewrite Nat.ltb_irrefl, Nat.sub_diag. by destruct (Nat.ltb_spec k (S k)); [|lia].
    - destruct (Nat.ltb_spec k n), (Nat.ltb_spec k (S n)); try lia; [done|].
      destruct (k - n)%nat as [|m] eqn:E; [lia|]. replace (k - S n)%nat with m by lia. done. }
  rewrite <- (imap_ext (fun i => f (0 + i)%nat)) by done. rewrite Hgen. cbn. by rewrite Nat.sub_0_r.
Qed.

Lemma omap_imap_none {A B} (f : nat -> A -> written) (g : written -> option B) (l : list A) :
  (forall j a, g (f j a) = None) -> omap g (imap f l) = [].
Proof.
  intros Hg. apply elem_of_nil_inv. intros b (w & Hw & Hb)%list_elem_of_omap.
  apply list_elem_of_lookup in Hw as [k Hk]. apply list_lookup_imap_Some in Hk as (a & _ & ->). congruence.
Qed.

(** The samples of a channel. *)
Definition samples_at {A} (l : list A) (k : nat) : list (sample A) :=
  match l !! k with Some a => [mkSample true a] | None => [] end.

Lemma samples_written ms cs ss ds :
  let n := samples_of ((imap w_cia402 ms ++ imap w_commit cs ++ imap w_st3215 ss) ++ imap w_damiao ds) in
  forall k, DdsDaemonEndpoint.tk_cia402 n k = samples_at ms k /\
    DdsDaemonEndpoint.tk_commit n k = samples_at cs k /\
    DdsDaemonEndpoint.tk_damiao n k = samples_at ds k /\
    DdsDaemonEndpoint.tk_st3215 n k = samples_at ss k.
Proof.
  intros n k. unfold n, samples_of, samples_at. cbn [DdsDaemonEndpoint.tk_cia402 DdsDaemonEndpoint.tk_commit
    DdsDaemonEndpoint.tk_damiao DdsDaemonEndpoint.tk_st3215]. rewrite !omap_app.
  split_and!;
    repeat match goal with
    | |- context [omap ?g (imap ?f ?l)] => rewrite (omap_imap_none f g l) by done
    end; rewrite ?app_nil_r; cbn [app]; by apply omap_imap_at.
Qed.

(** *** The axes *)

(** The messages of the first channels that are for an execution group. *)
Definition for_group {A} (group : string) (ds : list DdsTopicDescriptor) (ms : list A) : list A :=
  omap (fun p : DdsTopicDescriptor * A =>
    if decide (td_execution_group p.1 = group) then Some p.2 else None) (zip ds ms).

Lemma for_group_length {A} group ds (ms : list A) :
  length ds = length ms -> length (for_group group ds ms) = length (members_of group ds).
Proof.
  revert ms. unfold for_group, members_of.
  induction ds as [|d ds IH]; intros [|m ms] Hl; try done. injection Hl as Hl. specialize (IH ms Hl).
  rewrite filter_cons. cbn. by case_decide; cbn; rewrite IH.
Qed.

(** The groups of an object that has the channels of the construction. *)
Record channels_of (cs : list DdsTopicDescriptor) (i : Impl) : Prop := {
  co_names gi gj g h : im_groups i !! gi = Some g -> im_groups i !! gj = Some h ->
    eg_name g = eg_name h -> gi = gj;
  co_lengths gi g : im_groups i !! gi = Some g ->
    length (eg_commands g) = length (members_of (eg_name g) cs) /\
    length (eg_staged g) = length (eg_commands g);
  co_channel k d : cs !! k = Some d -> exists gi g,
    im_cia402_commands i !! k =
      Some (DdsDaemonEndpoint.mkCia402Channel gi (length (members_of (td_execution_group d) (take k cs)))
              (td_device_id d)) /\
    im_groups i !! gi = Some g /\ eg_name g = td_execution_group d }.

(** The messages that the daemon accepts. *)
Definition admissible_message (robot_id : string) (sequence : Z) (d : DdsTopicDescriptor)
    (c : Cia402ActuatorCommand) : Prop :=
  hd_schema_version (kc_header c) = DDS_SCHEMA_VERSION /\ hd_robot_id (kc_header c) = robot_id /\
  hd_device_id (kc_header c) = td_device_id d /\ kc_command_epoch c = sequence /\
  isfinite (kc_target c) = true.

Definition admissible_motor (robot_id : string) (channel : DdsDaemonEndpoint.CommandChannel)
    (m : DamiaoActuatorCommand) : Prop :=
  hd_schema_version (kd_header m) = DDS_SCHEMA_VERSION /\ hd_robot_id (kd_header m) = robot_id /\
  hd_device_id (kd_header m) = DdsDaemonEndpoint.ch_device_id channel /\
  isfinite (kd_position m) = true /\ isfinite (kd_velocity m) = true /\ isfinite (kd_kp m) = true /\
  isfinite (kd_kd m) = true /\ isfinite (kd_torque m) = true.

Definition admissible_servo (robot_id : string) (channel : DdsDaemonEndpoint.CommandChannel)
    (m : St3215ActuatorCommand) : Prop :=
  hd_schema_version (ks_header m) = DDS_SCHEMA_VERSION /\ hd_robot_id (ks_header m) = robot_id /\
  hd_device_id (ks_header m) = DdsDaemonEndpoint.ch_device_id channel /\ isfinite (ks_target_radians m) = true.

Definition admissible_commit (robot_id : string) (sequence : Z) (name : string) (c : EthercatCommandCommit)
    : Prop :=
  hd_schema_version (kk_header c) = DDS_SCHEMA_VERSION /\ hd_robot_id (kk_header c) = robot_id /\
  kk_execution_group c = name /\ kk_command_epoch c = sequence.

(** *** The servos and the motors *)

Lemma concat_singletons {A B} (f : nat -> A -> B) (l : list A) :
  concat (map (fun k => match l !! k with Some a => [f k a] | None => [] end) (seq 0 (length l))) = imap f l.
Proof.
  assert (forall l n, concat (map (fun k => match l !! (k - n)%nat with Some a => [f k a] | None => [] end)
    (seq n (length l))) = imap (fun k => f (n + k)%nat) l) as Hgen.
  { clear l. induction l as [|a l IH]; intros n; [done|]. cbn [length seq map concat].
    rewrite Nat.sub_diag. cbn [lookup list_lookup app]. rewrite imap_cons, Nat.add_0_r. cbn [app]. f_equal.
    rewrite (imap_ext _ (fun k => f (S n + k)%nat)) by (intros; cbn; f_equal; lia). rewrite <- IH.
    f_equal. apply map_ext_in. intros k [Hk _]%in_seq. replace (k - n)%nat with (S (k - S n)) by lia. done. }
  rewrite <- (imap_ext (fun k => f (0 + k)%nat)) by done. rewrite <- (Hgen l 0%nat). f_equal. apply map_ext.
  intros k. by rewrite Nat.sub_0_r.
Qed.

(** *** The registry on both sides *)

Definition commit_names (ds : list DdsTopicDescriptor) : list string :=
  map td_execution_group (filter (fun d => td_kind d = commit) ds).

Lemma group_entry_normal a b g h x :
  group_entry a = Some (g, x) -> group_entry b = Some (h, x) -> g = h.
Proof.
  unfold group_entry, ethercat_group_for. intros Ha Hb.
  destruct (device_kind_for a) as [[]|], (device_kind_for b) as [[]|]; try done.
  destruct (dev_arg a "safety_group"), (dev_arg b "safety_group"); cbn in *; simplify_eq; try done.
  all: repeat case_match; simplify_eq/=; congruence.
Qed.

Lemma commit_names_spec profile robot_id ds :
  build_dds_topic_registry profile robot_id = success ds ->
  NoDup (commit_names ds) /\
  forall name, name ∈ commit_names ds -> members_of name (cia402_commands_of ds) <> [].
Proof.
  intros Hb. pose proof Hb as (robot & S & C & groups & _ & HS & HC & [Hnd Hg]%count_groups_entries & Hds & _)%build_spec.
  assert (commit_names ds = groups.*2) as Hnames.
  { unfold commit_names. rewrite Hds, !filter_app.
    assert (forall l kind direction suffix devices, kind <> commit ->
      Forall2 (fun d t => describe robot_id robot kind direction suffix d = success t) devices l ->
      filter (fun d => td_kind d = commit) l = []) as Hnone.
    { intros l kind direction suffix devices Hk. induction 1 as [|d t devices l Hd _ IH]; [done|].
      apply DdsDaemonEndpoint.describe_describes in Hd as (k & _ & _ & Ht & _).
      rewrite filter_cons, decide_False; [done|congruence]. }
    rewrite (Hnone S state "sensor" "state" (rp_sensors profile)),
      (Hnone C command "actuator" "command" (rp_actuators profile)) by done.
    cbn [app]. rewrite filter_cons, decide_False by done. rewrite app_nil_r.
    clear. induction groups as [|g groups IH]; [done|]. cbn [map fmap list_fmap].
    rewrite filter_cons, decide_True by done. cbn. by f_equal. }
  rewrite Hnames. split.
  - assert (forall e e', e ∈ groups -> e' ∈ groups -> e.2 = e'.2 -> e.1 = e'.1) as Hinj.
    { intros [g x] [h y] He He' Hxy. cbn in *. subst y.
      apply Hg, list_elem_of_omap in He as (a & _ & Ha). apply Hg, list_elem_of_omap in He' as (b & _ & Hb').
      by eapply group_entry_normal. }
    clear - Hnd Hinj. induction groups as [|e groups IH]; [constructor|]. cbn in *.
    apply NoDup_cons in Hnd as [Hn Hnd]. apply NoDup_cons. split.
    + intros Hin. apply list_elem_of_fmap in Hin as (e' & Heq & Hin). apply Hn.
      apply list_elem_of_fmap. exists e'. split; [|done]. apply Hinj; [left|by right|done].
    + apply IH; [done|]. intros a b Ha Hb. apply Hinj; by right.
  - intros name Hin. apply list_elem_of_fmap in Hin as ([g x] & -> & Hin).
    apply Hg, list_elem_of_omap in Hin as (a & Ha & Hent).
    pose proof (DdsDaemonEndpoint.filter_registry command cia402 profile robot_id ds (or_introl eq_refl)
      (or_intror eq_refl) Hb) as HF. cbn in HF.
    unfold group_entry in Hent. destruct (device_kind_for a) as [[]|] eqn:Ek; try done.
    assert (a ∈ DdsDaemonEndpoint.devices_of cia402 (rp_actuators profile)) as Hdev.
    { apply list_elem_of_filter. split; [|done]. unfold device_kind_for in Ek. cbn.
      destruct (String.eqb_spec (dev_type a) "cia402"); [done|]. by repeat case_match. }
    apply list_elem_of_lookup in Hdev as [k Hk].
    destruct (Forall2_lookup_l _ _ _ _ _ HF Hk) as (t & Ht & _ & _ & _ & Hgrp).
    destruct (ethercat_group_for a); [|done]. injection Hent as -> <-. specialize (Hgrp eq_refl).
    cbn. intros E. apply list_elem_of_lookup_2 in Ht.
    assert (t ∈ members_of (default "" (dev_arg a "safety_group")) (cia402_commands_of ds)) as Hmem
      by (apply list_elem_of_filter; by split).
    rewrite E in Hmem. by apply elem_of_nil in Hmem.
Qed.

(** The daemon's endpoint at any moment of its life. *)
Record endpoint_of (robot_id : string) (ds : list DdsTopicDescriptor) (i : Impl) : Prop := {
  eo_channels : channels_of (cia402_commands_of ds) i;
  eo_robot : im_robot_id i = robot_id;
  eo_count : length (im_cia402_commands i) = length (cia402_commands_of ds);
  eo_damiao : im_damiao_commands i = DdsDaemonEndpoint.command_channels damiao ds;
  eo_st3215 : im_st3215_commands i = DdsDaemonEndpoint.command_channels st3215 ds;
  eo_commits : Forall2 (fun gi name => exists g, im_groups i !! gi = Some g /\ eg_name g = name)
    (im_commits i) (commit_names ds);
  eo_distinct : NoDup (im_commits i) }.

Lemma commit_channels_groups cs indices groups channels ds :
  built cs indices groups channels ->
  (forall name, name ∈ commit_names ds -> members_of name cs <> []) ->
  Forall2 (fun gi name => exists g, groups !! gi = Some g /\ eg_name g = name)
    (DdsDaemonEndpoint.commit_channels indices ds) (commit_names ds).
Proof.
  intros Hb. unfold commit_names, DdsDaemonEndpoint.commit_channels.
  induction ds as [|d ds IH]; intros Hne; [constructor|]. rewrite filter_cons in *.
  change (omap ?f (?x :: ?r)) with (match f x with Some b => b :: omap f r | None => omap f r end). cbv beta.
  case_decide as Hd; [|by apply IH]. cbn [map] in *.
  destruct (members_of (td_execution_group d) cs) as [|e es] eqn:Em; [destruct (Hne (td_execution_group d)); [left|done]|].
  assert (e ∈ members_of (td_execution_group d) cs) as [He Hin]%list_elem_of_filter by (rewrite Em; left).
  destruct (bu_covered _ _ _ _ Hb e Hin) as [gi Hgi]. rewrite He in Hgi. rewrite Hgi.
  constructor; [by apply (bu_index _ _ _ _ Hb)|]. apply IH. intros name Hn. apply Hne. by right.
Qed.

Lemma endpoint_reached capacity profile robot_id ds past :
  build_dds_topic_registry profile robot_id = success ds ->
  endpoint_of robot_id ds
    (DdsDaemonEndpoint.calls_run (DdsDaemonEndpoint.construct capacity robot_id ds) past).1.
Proof.
  intros Hreg. set (i0 := DdsDaemonEndpoint.construct capacity robot_id ds).
  destruct (DdsDaemonEndpoint.construct_fields capacity robot_id ds)
    as (indices & Hb & Hcm & Hr & _ & _ & _ & Hd & Hs). fold i0 in Hb, Hcm, Hr, Hd, Hs.
  assert (DdsDaemonEndpoint.groups_ok [] i0) as H0.
  { intros gi g Hg. destruct (bu_group _ _ _ _ Hb gi g Hg) as (_ & _ & Hst).
    rewrite Hst, length_replicate. split; [done|]. by intros m [? _]%lookup_replicate. }
  destruct (DdsDaemonEndpoint.calls_run_ok past [] i0 H0) as (Hok & Hst & _).
  destruct (DdsDaemonEndpoint.calls_run i0 past) as [i out]. cbn [fst] in *.
  injection Hst as Sr Sc Sm Sd Ss Ssh.
  assert (forall gi g, im_groups i !! gi = Some g -> exists g0, im_groups i0 !! gi = Some g0 /\
    eg_name g0 = eg_name g /\ length (eg_commands g0) = length (eg_commands g)) as Hback.
  { intros gi g Hg. assert (shape i !! gi = Some (eg_name g, length (eg_commands g))) as Hsh.
    { unfold shape. change (map ?f) with (fmap (M:=list) f). by rewrite list_lookup_fmap, Hg. }
    rewrite Ssh in Hsh. unfold shape in Hsh. change (map ?f) with (fmap (M:=list) f) in Hsh.
    rewrite list_lookup_fmap in Hsh. apply fmap_Some in Hsh as (g0 & Hg0 & [= -> ->]). eauto. }
  assert (forall gi g0, im_groups i0 !! gi = Some g0 -> exists g, im_groups i !! gi = Some g /\
    eg_name g = eg_name g0) as Hforth.
  { intros gi g0 Hg0. assert (shape i0 !! gi = Some (eg_name g0, length (eg_commands g0))) as Hsh.
    { unfold shape. change (map ?f) with (fmap (M:=list) f). by rewrite list_lookup_fmap, Hg0. }
    rewrite <- Ssh in Hsh. unfold shape in Hsh. change (map ?f) with (fmap (M:=list) f) in Hsh.
    rewrite list_lookup_fmap in Hsh. apply fmap_Some in Hsh as (g & Hg & [= -> _]). eauto. }
  destruct (commit_names_spec _ _ _ Hreg) as [Hnd Hne].
  pose proof (commit_channels_groups _ _ _ _ ds Hb Hne) as Hcc. rewrite <- Hcm in Hcc.
  split.
  - split.
    + intros gi gj g h Hg Hh Hn. destruct (Hback _ _ Hg) as (g0 & Hg0 & N1 & _), (Hback _ _ Hh) as (h0 & Hh0 & N2 & _).
      assert (map_find indices (eg_name g) = Some gi /\ map_find indices (eg_name g) = Some gj) as [E1 E2].
      { split; apply (bu_index _ _ _ _ Hb); eexists; split; [exact Hg0|done|exact Hh0|congruence]. }
      congruence.
    + intros gi g Hg. destruct (Hback _ _ Hg) as (g0 & Hg0 & N1 & L1).
      destruct (bu_group _ _ _ _ Hb gi g0 Hg0) as (_ & Hl & _), (Hok gi g Hg) as [Hls _].
      split; [by rewrite <- L1, Hl, N1|done].
    + intros k d Hk. destruct (bu_channel _ _ _ _ Hb k d Hk) as (gi & Hc & Hgi).
      apply (bu_index _ _ _ _ Hb) in Hgi as (g0 & Hg0 & Hn). destruct (Hforth _ _ Hg0) as (g & Hg & Hgn).
      exists gi, g. rewrite Sc, Hc. split; [done|]. split; [done|]. congruence.
  - congruence.
  - rewrite Sc. apply (bu_length _ _ _ _ Hb).
  - congruence.
  - congruence.
  - rewrite Sm. eapply Forall2_impl; [exact Hcc|]. intros gi name (g0 & Hg0 & <-).
    by apply Hforth.
  - rewrite Sm. apply NoDup_alt. intros j k gi Hj Hk.
    destruct (Forall2_lookup_l _ _ _ _ _ Hcc Hj) as (n1 & Hn1 & g1 & Hg1 & <-).
    destruct (Forall2_lookup_l _ _ _ _ _ Hcc Hk) as (n2 & Hn2 & g2 & Hg2 & <-).
    assert (g1 = g2) as -> by congruence. by eapply NoDup_lookup.
Qed.

(** *** The messages of a publication *)

(** The outputs that go to the callbacks. *)
Definition for_callback (o : DdsDaemonEndpoint.output) : bool :=
  match o with out_epoch _ _ _ | out_damiao _ _ | out_st3215 _ _ => true | _ => false end.

Lemma group_values_spec o cs axes sequence timestamp_ns name :
  io_cia402_writers o = map writer cs -> length axes = length cs ->
  map cia402_value (for_group name cs (cia402_messages o axes sequence timestamp_ns)) =
  group_values o axes sequence timestamp_ns name.
Proof.
  unfold cia402_messages, group_values, for_group. intros -> Hl. revert axes Hl.
  induction cs as [|d cs IH]; intros [|c axes] Hl; try done. injection Hl as Hl. specialize (IH axes Hl).
  cbn [map zip_with].
  change (omap ?f (?x :: ?r)) with (match f x with Some b => b :: omap f r | None => omap f r end). cbv beta.
  cbn [fst snd writer wc_execution_group]. rewrite <- IH.
  destruct (String.eqb_spec (td_execution_group d) name), (decide (td_execution_group d = name)); done.
Qed.

Lemma axis_messages_admissible profile ds axes sequence timestamp_ns :
  let o := construct profile ds in
  length axes = length (cia402_commands_of ds) -> Forall (fun c => isfinite (ac_target c) = true) axes ->
  Forall2 (admissible_message (dds_robot_id (rp_dds profile)) sequence) (cia402_commands_of ds)
    (cia402_messages o axes sequence timestamp_ns).
Proof.
  intros o. unfold cia402_messages, cia402_commands_of, o, construct, writers. cbn [io_cia402_writers].
  set (o' := mkRobotIo _ _ _ _ _ _ _ _ _ _ _ _ _ _). assert (io_robot_id o' = dds_robot_id (rp_dds profile)) as Hr by done.
  clearbody o'. set (cs := filter _ ds). clearbody cs. revert axes.
  induction cs as [|d cs IH]; intros [|c axes] Hl Hf; try done. injection Hl as Hl.
  apply Forall_cons in Hf as [Hc Hf]. constructor; [|by apply IH]. by split_and!.
Qed.

(** The messages of a kind of writer against the command channels of the daemon. *)
Lemma messages_channels {A M} kind ds (message : WriterChannel -> A -> M) (Q : DdsDaemonEndpoint.CommandChannel -> M -> Prop)
    (values : list A) :
  length values = length (writers kind ds) ->
  (forall d k a, a ∈ values -> Q (DdsDaemonEndpoint.mkCommandChannel k (td_device_id d)) (message (writer d) a)) ->
  Forall2 Q (DdsDaemonEndpoint.command_channels kind ds) (zip_with message (writers kind ds) values).
Proof.
  unfold writers, DdsDaemonEndpoint.command_channels. set (cs := filter _ ds). clearbody cs.
  assert (forall n, length values = length (map writer cs) ->
    (forall d k a, a ∈ values -> Q (DdsDaemonEndpoint.mkCommandChannel k (td_device_id d)) (message (writer d) a)) ->
    Forall2 Q (imap (fun i d => DdsDaemonEndpoint.mkCommandChannel (n + i)%nat (td_device_id d)) cs)
      (zip_with message (map writer cs) values)) as Hgen.
  { revert values. induction cs as [|d cs IH]; intros [|a values] n Hl HQ; try done.
    injection Hl as Hl. rewrite imap_cons. cbn [map zip_with]. constructor; [apply HQ; left|].
    rewrite (imap_ext _ (fun i d => DdsDaemonEndpoint.mkCommandChannel (S n + i)%nat (td_device_id d)))
      by (intros; cbn; f_equal; lia).
    apply IH; [done|]. intros; apply HQ; by right. }
  by apply (Hgen 0%nat).
Qed.

Lemma channels_index kind ds k channel :
  DdsDaemonEndpoint.command_channels kind ds !! k = Some channel ->
  DdsDaemonEndpoint.ch_actuator_index channel = k.
Proof.
  unfold DdsDaemonEndpoint.command_channels. intros (d & _ & ->)%list_lookup_imap_Some. done.
Qed.

Lemma commit_messages_admissible profile ds sequence timestamp_ns :
  Forall2 (admissible_commit (dds_robot_id (rp_dds profile)) sequence) (commit_names ds)
    (commit_messages (construct profile ds) sequence timestamp_ns).
Proof.
  unfold commit_messages, commit_names, construct, commit_writers. cbn [io_commit_writers].
  set (o := mkRobotIo _ _ _ _ _ _ _ _ _ _ _ _ _ _).
  assert (io_robot_id o = dds_robot_id (rp_dds profile)) as Hr by done. clearbody o.
  induction (filter (fun d => td_kind d = commit) ds) as [|d l IH]; [constructor|].
  cbn [map]. constructor; [by split_and!|done].
Qed.

(** The values of messages that were made from [values]. *)
Lemma imap_zip_messages {A M V} (out : nat -> V -> DdsDaemonEndpoint.output) (value : M -> V) (make : A -> V)
    (message : WriterChannel -> A -> M) ws (values : list A) :
  length values = length ws -> (forall w a, value (message w a) = make a) ->
  imap (fun k m => out k (value m)) (zip_with message ws values) = imap (fun k a => out k (make a)) values.
Proof.
  revert out values. induction ws as [|w ws IH]; intros out [|a values] Hl Hm; try done.
  injection Hl as Hl. cbn [zip_with]. rewrite !imap_cons, Hm. f_equal.
  by rewrite <- (IH (fun k => out (S k))).
Qed.

Lemma perform_writes_success writes throws text ws :
  perform_writes writes throws text = (ws, success tt) -> ws = writes.
Proof. unfold perform_writes. destruct throws as [k|]; [destruct (_ <? _)%nat|]; by intros [= <-]. Qed.

(** *** What the host reads back *)

Section ReadFacts.
Context {S F : Type} (header : S -> MessageHeader) (update : S -> F -> F).

(** The samples that count for a device. *)
Definition counted (robot_id device_id : string) (samples : list (sample S)) : list S :=
  map sp_data (List.filter (readable header robot_id device_id) samples).

Definition latest (field : MessageHeader -> Z) (l : list S) (z : Z) : Z :=
  fold_left (fun z s => Z.max z (field (header s))) l z.

(** One reader has been served. *)
Definition read_into (robot_id device_id : string) (index : nat) (samples : list (sample S))
    (sn : Snapshot F) : Snapshot F :=
  let l := counted robot_id device_id samples in
  mkSnapshot (latest hd_sequence_number l (sn_sequence sn))
    (latest hd_source_timestamp_ns l (sn_timestamp_ns sn)) (sn_axis_count sn)
    (alter (fun f => fold_left (fun f s => update s f) l f) index (sn_axes sn)).

Lemma store_samples_spec robot_id device_id index samples : forall sn,
  Z.of_nat index < sn_axis_count sn -> (index < length (sn_axes sn))%nat ->
  store_samples header update robot_id device_id index samples sn =
    Some (read_into robot_id device_id index samples sn).
Proof.
  induction samples as [|s samples IH]; intros sn Hc Hl.
  { destruct sn as [q t c l]. unfold read_into. cbn. by rewrite list_alter_id. }
  cbn [store_samples]. unfold store_sample, read_into, counted. cbn [List.filter].
  destruct (readable header robot_id device_id s) eqn:Hr; unfold readable in Hr;
    destruct (sp_valid s); cbn [negb orb andb] in *; try done; rewrite ?(proj2 (Z.leb_gt _ _)) by lia;
    try rewrite Hr; cbn [negb mbind option_bind]; try (by apply IH).
  destruct (lookup_lt_is_Some_2 _ _ Hl) as [old Hold]. rewrite Hold. cbn [mbind option_bind].
  rewrite IH by (cbn; rewrite ?length_insert; done). unfold read_into, counted, latest. cbn. do 2 f_equal.
  apply list_eq. intros j. destruct (decide (j = index)) as [->|Hne].
  - by rewrite !list_lookup_alter_eq, list_lookup_insert_eq, Hold by done.
  - by rewrite !list_lookup_alter_ne, list_lookup_insert_ne by done.
Qed.

(** A reader beyond the devices of the profile changes nothing. *)
Lemma store_samples_beyond robot_id device_id index samples : forall sn,
  sn_axis_count sn <= Z.of_nat index ->
  store_samples header update robot_id device_id index samples sn = Some sn.
Proof.
  induction samples as [|s samples IH]; intros sn Hc; [done|]. cbn. unfold store_sample.
  rewrite (proj2 (Z.leb_le _ _)), orb_true_r by done. by apply IH.
Qed.
Lemma latest_grows field l z : z <= latest field l z.
Proof.
  revert z. induction l as [|s l IH]; intros z; cbn; [done|]. specialize (IH (Z.max z (field (header s)))). unfold latest in *. lia.
Qed.

(** All the readers are served, each into its own entry. *)
Lemma read_all_spec robot_id (take : nat -> list (sample S)) devices : forall index sn,
  sn_axis_count sn <= Z.of_nat (length (sn_axes sn)) ->
  exists sn', read_all header update robot_id take index devices sn = Some sn' /\
    sn_axis_count sn' = sn_axis_count sn /\ length (sn_axes sn') = length (sn_axes sn) /\
    sn_sequence sn <= sn_sequence sn' /\ sn_timestamp_ns sn <= sn_timestamp_ns sn' /\
    forall j, sn_axes sn' !! j =
      match (if decide (index <= j)%nat then devices !! (j - index)%nat else None) with
      | Some d =>
          if Z.of_nat j <? sn_axis_count sn
          then (fun f => fold_left (fun f s => update s f) (counted robot_id d (take j)) f) <$> sn_axes sn !! j
          else sn_axes sn !! j
      | None => sn_axes sn !! j
      end.
Proof.
  induction devices as [|d devices IH]; intros index sn Hc.
  { exists sn. split_and!; try done. intros j. by case_decide. }
  cbn [read_all].
  assert (exists sn1, store_samples header update robot_id d index (take index) sn = Some sn1 /\
    sn_axis_count sn1 = sn_axis_count sn /\ length (sn_axes sn1) = length (sn_axes sn) /\
    sn_sequence sn <= sn_sequence sn1 /\ sn_timestamp_ns sn <= sn_timestamp_ns sn1 /\
    (forall j, j <> index -> sn_axes sn1 !! j = sn_axes sn !! j) /\
    sn_axes sn1 !! index = if Z.of_nat index <? sn_axis_count sn
      then (fun f => fold_left (fun f s => update s f) (counted robot_id d (take index)) f) <$> sn_axes sn !! index
      else sn_axes sn !! index) as (sn1 & -> & H1 & H2 & H3 & H4 & H5 & H6).
  { destruct (Z.ltb_spec (Z.of_nat index) (sn_axis_count sn)).
    - eexists. split; [apply store_samples_spec; lia|]. cbn. rewrite length_alter.
      split_and!; try done; try apply latest_grows; intros; [by apply list_lookup_alter_ne|by apply list_lookup_alter_eq].
    - exists sn. split; [by apply store_samples_beyond|]. done. }
  cbn [mbind option_bind]. destruct (IH (Datatypes.S index) sn1) as (sn' & -> & K1 & K2 & K3 & K4 & K5); [lia|].
  exists sn'. split_and!; [done|lia..|]. intros j. rewrite K5, H1.
  destruct (decide (j = index)) as [->|Hne].
  - rewrite decide_False, decide_True, Nat.sub_diag by lia. exact H6.
  - rewrite H5 by done. destruct (decide (index <= j)%nat).
    + rewrite decide_True by lia. by replace (j - index)%nat with (Datatypes.S (j - Datatypes.S index)) by lia.
    + by rewrite decide_False by lia.
Qed.
End ReadFacts.

Lemma fold_left_last {A B} (f : A -> B) (l : list A) (b : B) :
  fold_left (fun _ a => f a) l b = match last l with Some a => f a | None => b end.
Proof.
  revert b. induction l as [|x [|y l] IH]; intros b; try done.
  etrans; [exact (IH (f x))|]. change (last (x :: y :: l)) with (last (y :: l)).
  destruct (last (y :: l)) eqn:E; [done|]. by apply last_None in E.
Qed.

(** What the host reads of its axes.  Reading always succeeds and stays inside the arrays;
    the entry of an axis becomes its last sample that is valid and carries the schema, the robot
    and the device of its reader, and keeps its value when there is none; nothing else changes,
    and the sequence number and the time of the snapshot never go back. *)
Theorem host_feedback_read o take :
  sn_axis_count (io_axis_feedback o) <= Z.of_nat (length (sn_axes (io_axis_feedback o))) ->
  exists a,
    read_feedback o take =
      Some (with_feedback o a (io_servo_feedback o) (io_damiao_feedback o), success a) /\
    sn_axis_count a = sn_axis_count (io_axis_feedback o) /\
    length (sn_axes a) = length (sn_axes (io_axis_feedback o)) /\
    sn_sequence (io_axis_feedback o) <= sn_sequence a /\
    sn_timestamp_ns (io_axis_feedback o) <= sn_timestamp_ns a /\
    forall k, (k < length (sn_axes a))%nat ->
      sn_axes a !! k =
        match io_cia402_readers o !! k with
        | Some d =>
            match last (List.filter (readable pb_header (io_robot_id o) d) (take k)) with
            | Some s => if Z.of_nat k <? sn_axis_count a
                        then Some (update_axis (sp_data s) AxisFeedback_zero)
                        else sn_axes (io_axis_feedback o) !! k
            | None => sn_axes (io_axis_feedback o) !! k
            end
        | None => sn_axes (io_axis_feedback o) !! k
        end.
Proof.
  intros Hc. destruct (read_all_spec pb_header update_axis (io_robot_id o) take (io_cia402_readers o) 0 _ Hc)
    as (a & Hr & H1 & H2 & H3 & H4 & H5).
  exists a. unfold read_feedback. rewrite Hr. split_and!; try done. intros k Hk. rewrite H5, decide_True, Nat.sub_0_r by lia.
  destruct (io_cia402_readers o !! k) as [d|]; [|done].
  destruct (lookup_lt_is_Some_2 (sn_axes (io_axis_feedback o)) k ltac:(lia)) as [f Hf]. rewrite Hf, H1. cbn [fmap option_fmap option_map].
  rewrite (fold_left_last (fun s => update_axis s AxisFeedback_zero)). unfold counted. change (map ?f) with (fmap (M:=list) f).
  rewrite fmap_last. destruct (last _) as [s|]; cbn; by destruct (_ <? _).
Qed.

End DdsRobotIo.

(** ** Examples *)

Module DdsRobotIoExamples.
Import DdsTypes Topics DdsRobotIo.
Open Scope list_scope.
Open Scope Z_scope.

Definition robot : RobotProfile := DdsEndpointExamples.robot.
Definition host : DdsRuntimeRobotIo := construct robot DdsEndpointExamples.descriptors.
Lemma host_feedback_read_witness :
  exists a, read_feedback host (fun _ => []) =
    Some (with_feedback host a (io_servo_feedback host) (io_damiao_feedback host), success a) /\
    length (sn_axes a) = 12%nat.
Proof.
  destruct (host_feedback_read host (fun _ => []) ltac:(vm_compute; done)) as (a & H & _ & Hl & _).
  exists a. split; [exact H | rewrite Hl; vm_compute; reflexivity].
Defined.
End DdsRobotIoExamples.
