(* ===== verification/DdsDelivery.v ===== *)
(** * Delivery of a publication

    What the host of the runtime writes (DdsRobotIo.v) and what the callbacks of the daemon get
    (DdsEndpoint.v).  The samples of a publication may be taken over any number of turns of the
    worker, topic by topic; what is asked of DDS is that every sample is taken once, and that the
    commit of a group is taken after the commands of its axes. *)
From S2P Require Export DdsRobotIo.

Module DdsDelivery.
Import DdsTypes Topics DdsRobotIo.
Import DdsDaemonEndpoint (EthercatGroup, eg_name, eg_epoch, eg_commands, eg_staged, Impl, im_groups,
  im_robot_id, im_cia402_commands, im_commits, im_damiao_commands, im_st3215_commands, cia402_value,
  out_epoch, out_damiao, out_st3215, members_of, cia402_commands_of, call, c_access, take_cia402_commands,
  take_commits, take_damiao_commands, take_st3215_commands, call_step, calls_run).
Open Scope list_scope.
Open Scope Z_scope.

(** ** What the worker takes *)

(** The access of a call to one of the readers of a kind, with the samples it takes. *)
Definition cia402_key (c : call) : option (nat * list (sample Cia402ActuatorCommand)) :=
  match c with c_access (take_cia402_commands k samples) => Some (k, samples) | _ => None end.
Definition commit_key (c : call) : option (nat * list (sample EthercatCommandCommit)) :=
  match c with c_access (take_commits k samples) => Some (k, samples) | _ => None end.
Definition damiao_key (c : call) : option (nat * list (sample DamiaoActuatorCommand)) :=
  match c with c_access (take_damiao_commands k samples) => Some (k, samples) | _ => None end.
Definition st3215_key (c : call) : option (nat * list (sample St3215ActuatorCommand)) :=
  match c with c_access (take_st3215_commands k samples) => Some (k, samples) | _ => None end.

(** All that the calls take at the reader [k], in order. *)
Definition taken {S} (key : call -> option (nat * list (sample S))) (calls : list call) (k : nat) : list (sample S) :=
  flat_map (fun c => match key c with
    | Some (j, samples) => if Nat.eqb j k then samples else []
    | None => []
    end) calls.

(** DDS is reliable: during the calls every reader of the daemon takes the sample of every write of
    its topic once, and nothing else. *)
Record delivered (ws : list written) (calls : list call) : Prop := {
  dl_cia402 : forall k, taken cia402_key calls k = DdsDaemonEndpoint.tk_cia402 (samples_of ws) k;
  dl_commit : forall k, taken commit_key calls k = DdsDaemonEndpoint.tk_commit (samples_of ws) k;
  dl_damiao : forall k, taken damiao_key calls k = DdsDaemonEndpoint.tk_damiao (samples_of ws) k;
  dl_st3215 : forall k, taken st3215_key calls k = DdsDaemonEndpoint.tk_st3215 (samples_of ws) k }.

(** The writer [j] of the axes and the commit writer [k] are for one execution group. *)
Definition same_group (o : DdsRuntimeRobotIo) (j k : nat) : bool :=
  match io_cia402_writers o !! j, io_commit_writers o !! k with
  | Some a, Some c => String.eqb (wc_execution_group a) (wc_execution_group c)
  | _, _ => false
  end.

Definition none_left {A} (l : list A) : bool := match l with [] => true | _ => false end.

(** When a commit is taken, no command of its group is left for later. *)
Fixpoint commits_last (o : DdsRuntimeRobotIo) (calls : list call) : bool :=
  match calls with
  | [] => true
  | c :: calls =>
      match commit_key c with
      | Some (k, _ :: _) =>
          forallb (fun j => negb (same_group o j k) || none_left (taken cia402_key calls j))
            (seq 0 (length (io_cia402_writers o)))
      | _ => true
      end && commits_last o calls
  end.

(** ** Columns *)

Lemma taken_cons {S} (key : call -> option (nat * list (sample S))) c calls k :
  taken key (c :: calls) k =
  match key c with Some (j, samples) => if Nat.eqb j k then samples else [] | None => [] end ++ taken key calls k.
Proof. done. Qed.

Lemma taken_other {S} (key : call -> option (nat * list (sample S))) c calls k :
  key c = None -> taken key (c :: calls) k = taken key calls k.
Proof. intros Hk. by rewrite taken_cons, Hk. Qed.

(** What is still to be taken of a publication: at each reader its sample, or nothing. *)
Definition pending {S} (key : call -> option (nat * list (sample S))) (l : list S) (calls : list call) : Prop :=
  forall k, taken key calls k = [] \/ taken key calls k = samples_at l k.

Lemma pending_step {S} (key : call -> option (nat * list (sample S))) l c calls :
  pending key l (c :: calls) ->
  pending key l calls /\
  forall k samples, key c = Some (k, samples) ->
    samples = [] \/ exists a, l !! k = Some a /\ samples = [mkSample true a] /\ taken key calls k = [].
Proof.
  intros Hp.
  assert (forall (x y : list (sample S)) k, x ++ y = [] \/ x ++ y = samples_at l k ->
    x = [] /\ (y = [] \/ y = samples_at l k) \/ exists a, l !! k = Some a /\ x = [mkSample true a] /\ y = []) as Hsplit.
  { intros [|s x] y k; cbn; [by left|]. unfold samples_at. intros [|H]; [done|]. right.
    destruct (l !! k) as [a|]; [|done]. injection H as -> [-> ->]%app_nil. by exists a. }
  split.
  - intros k. specialize (Hp k). rewrite taken_cons in Hp. apply Hsplit in Hp as [[_ H]|(a & _ & _ & H)]; auto.
  - intros k samples Hk. specialize (Hp k). rewrite taken_cons, Hk, Nat.eqb_refl in Hp.
    apply Hsplit in Hp as [[H _]|H]; auto.
Qed.

(** What a family of outputs, one for each reader, gives over all the calls. *)
Lemma columns_outputs {S B} (key : call -> option (nat * list (sample S))) (f : nat -> sample S -> B) n calls :
  (forall k, (n <= k)%nat -> taken key calls k = []) ->
  flat_map (fun c => match key c with Some (k, samples) => map (f k) samples | None => [] end) calls ≡ₚ
  flat_map (fun k => map (f k) (taken key calls k)) (seq 0 n).
Proof.
  induction calls as [|c calls IH]; intros Hn.
  { cbn. induction (seq 0 n); [done|]. by cbn. }
  assert (forall k, (n <= k)%nat -> taken key calls k = []) as Hn'.
  { intros k Hk. specialize (Hn k Hk). rewrite taken_cons in Hn. by apply app_nil in Hn as [_ ?]. }
  cbn [flat_map]. rewrite IH by done. destruct (key c) as [[j samples]|] eqn:Ek.
  2: { cbn [app]. rewrite (flat_map_ext (fun k => map (f k) (taken key (c :: calls) k)) (fun k => map (f k) (taken key calls k))); [done|].
       intros k. by rewrite taken_other. }
  destruct (decide (n <= j)%nat) as [Hj|Hj].
  { specialize (Hn j Hj). rewrite taken_cons, Ek, Nat.eqb_refl in Hn. apply app_nil in Hn as [-> _]. cbn [map app].
    rewrite (flat_map_ext (fun k => map (f k) (taken key (c :: calls) k)) (fun k => map (f k) (taken key calls k))); [done|].
    intros k. rewrite taken_cons, Ek. by destruct (Nat.eqb j k). }
  replace n with (j + Datatypes.S (n - Datatypes.S j))%nat by lia. rewrite seq_app. cbn [seq Nat.add].
  rewrite !flat_map_app. cbn [flat_map]. rewrite (taken_cons key c calls j), Ek, Nat.eqb_refl, map_app.
  assert (forall l, j ∉ l -> flat_map (fun k => map (f k) (taken key (c :: calls) k)) l =
    flat_map (fun k => map (f k) (taken key calls k)) l) as Hrest.
  { intros l Hl. induction l as [|k l IHl]; [done|]. apply not_elem_of_cons in Hl as [Hk Hl]. cbn [flat_map].
    rewrite IHl, taken_cons, Ek by done. by rewrite (proj2 (Nat.eqb_neq j k) Hk). }
  rewrite !Hrest by (rewrite elem_of_seq; lia). solve_Permutation.
Qed.

(** The calls of four kinds. *)
Lemma outputs_by_kind {A B} (f g h e : A -> list B) l :
  flat_map (fun c => f c ++ g c ++ h c ++ e c) l ≡ₚ flat_map f l ++ flat_map g l ++ flat_map h l ++ flat_map e l.
Proof. induction l as [|c l IH]; [done|]. cbn. rewrite IH. solve_Permutation. Qed.

Lemma column_outputs {A B} (f : nat -> A -> B) (l : list A) :
  flat_map (fun k => map (fun s => f k (sp_data s)) (samples_at l k)) (seq 0 (length l)) = imap f l.
Proof.
  rewrite <- concat_singletons, flat_map_concat_map. f_equal. apply map_ext. intros k. unfold samples_at.
  by destruct (l !! k).
Qed.

(** ** The members of a group *)

Lemma member_of_group {A} name (cs : list DdsTopicDescriptor) (ms : list A) : forall m,
  length cs = length ms -> (m < length (members_of name cs))%nat ->
  exists j d c, cs !! j = Some d /\ td_execution_group d = name /\
    length (members_of name (take j cs)) = m /\ ms !! j = Some c /\ for_group name cs ms !! m = Some c.
Proof.
  revert ms. induction cs as [|d cs IH]; intros [|c ms] m Hl Hm; try done; [cbn in Hm; lia|]. injection Hl as Hl.
  unfold members_of in Hm. rewrite filter_cons in Hm. unfold for_group. cbn [zip zip_with].
  change (omap ?f (?x :: ?r)) with (match f x with Some b => b :: omap f r | None => omap f r end). cbv beta.
  cbn [fst snd]. case_decide as Hd.
  - destruct m as [|m]; [exists 0%nat, d, c; by split_and!|]. cbn [length] in Hm.
    destruct (IH ms m Hl ltac:(unfold members_of; lia)) as (j & d' & c' & H1 & H2 & H3 & H4 & H5).
    exists (S j), d', c'. split_and!; try done. cbn [take]. unfold members_of in *. rewrite filter_cons, decide_True by done.
    cbn. by rewrite H3.
  - destruct (IH ms m Hl ltac:(done)) as (j & d' & c' & H1 & H2 & H3 & H4 & H5).
    exists (S j), d', c'. split_and!; try done. cbn [take]. unfold members_of in *. by rewrite filter_cons, decide_False.
Qed.

Lemma members_before name (cs : list DdsTopicDescriptor) j k d :
  cs !! j = Some d -> td_execution_group d = name -> (j < k)%nat ->
  (length (members_of name (take j cs)) < length (members_of name (take k cs)))%nat.
Proof.
  intros Hj Hd Hk. replace k with (S j + (k - S j))%nat by lia.
  rewrite <- (take_drop (S j) (take (S j + (k - S j)) cs)), take_take, Nat.min_l by lia. rewrite (take_S_r _ _ d Hj). unfold members_of.
  rewrite !filter_app, !length_app. rewrite filter_cons, decide_True by done. cbn. lia.
Qed.

Lemma members_apart name (cs : list DdsTopicDescriptor) j k d e :
  cs !! j = Some d -> cs !! k = Some e -> td_execution_group d = name -> td_execution_group e = name -> j <> k ->
  length (members_of name (take j cs)) <> length (members_of name (take k cs)).
Proof.
  intros Hj Hk Hd He Hne. destruct (decide (j < k)%nat).
  - pose proof (members_before name cs j k d Hj Hd ltac:(done)). lia.
  - pose proof (members_before name cs k j e Hk He ltac:(lia)). lia.
Qed.

Lemma members_within name (cs : list DdsTopicDescriptor) j d :
  cs !! j = Some d -> td_execution_group d = name ->
  (length (members_of name (take j cs)) < length (members_of name cs))%nat.
Proof.
  intros Hj Hd. rewrite <- (take_ge cs (length cs)) at 2 by done.
  apply (members_before name cs j (length cs) d Hj Hd). by eapply lookup_lt_Some.
Qed.

(** ** A publication on its way *)

Section Delivery.
Context (capacity : Z) (profile : RobotProfile) (robot_id : string) (ds : list DdsTopicDescriptor).
Hypothesis registry : build_dds_topic_registry profile robot_id = success ds.

(** The messages of the publication, one for each writer, which the daemon accepts. *)
Context (sequence : Z) (ms : list Cia402ActuatorCommand) (cms : list EthercatCommandCommit)
  (dms : list DamiaoActuatorCommand) (ss : list St3215ActuatorCommand).
Hypothesis numbered : sequence <> 0.
Hypothesis axes_accepted : Forall2 (admissible_message robot_id sequence) (cia402_commands_of ds) ms.
Hypothesis commits_accepted : Forall2 (admissible_commit robot_id sequence) (commit_names ds) cms.
Hypothesis motors_accepted : Forall2 (admissible_motor robot_id) (DdsDaemonEndpoint.command_channels damiao ds) dms.
Hypothesis servos_accepted : Forall2 (admissible_servo robot_id) (DdsDaemonEndpoint.command_channels st3215 ds) ss.

#[local] Notation cs := (cia402_commands_of ds).

(** The endpoint after some calls. *)
Definition reached (past : list call) : Impl :=
  (calls_run (DdsDaemonEndpoint.construct capacity robot_id ds) past).1.

Lemma reached_endpoint past : endpoint_of robot_id ds (reached past).
Proof. apply (endpoint_reached capacity profile), registry. Qed.

(** The epoch of a group. *)
Definition epoch_of (name : string) : DdsDaemonEndpoint.output :=
  out_epoch name sequence (map cia402_value (for_group name cs ms)).

(** What a call hands to the callbacks. *)
Definition epochs (c : call) : list DdsDaemonEndpoint.output :=
  match commit_key c with
  | Some (k, samples) => map (fun _ => epoch_of (default ""%string (commit_names ds !! k))) samples
  | None => []
  end.
Definition motors (c : call) : list DdsDaemonEndpoint.output :=
  match damiao_key c with
  | Some (k, samples) => map (fun s => out_damiao k (DdsDaemonEndpoint.damiao_value (sp_data s))) samples
  | None => []
  end.
Definition servos (c : call) : list DdsDaemonEndpoint.output :=
  match st3215_key c with
  | Some (k, samples) => map (fun s => out_st3215 k (DdsDaemonEndpoint.st3215_value (sp_data s))) samples
  | None => []
  end.

Definition under_way (calls : list call) : Prop :=
  pending cia402_key ms calls /\ pending commit_key cms calls /\ pending damiao_key dms calls /\
  pending st3215_key ss calls.

(** The place of a channel in its group. *)
Definition place (j : nat) (d : DdsTopicDescriptor) : nat :=
  length (members_of (td_execution_group d) (take j cs)).

(** While the commit of a group is still to come, the commands of its axes that have been taken are
    staged. *)
Definition staged_so_far (calls : list call) (i : Impl) : Prop := forall gi g j d c k,
  im_groups i !! gi = Some g -> cs !! j = Some d -> ms !! j = Some c -> td_execution_group d = eg_name g ->
  taken cia402_key calls j = [] -> commit_names ds !! k = Some (eg_name g) -> taken commit_key calls k <> [] ->
  eg_commands g !! place j d = Some (cia402_value c) /\ eg_staged g !! place j d = Some true /\
  eg_epoch g = sequence.

(** When all of them have been taken the group is complete. *)
Lemma group_complete calls i gi g k :
  endpoint_of robot_id ds i -> staged_so_far calls i -> im_groups i !! gi = Some g ->
  commit_names ds !! k = Some (eg_name g) -> taken commit_key calls k <> [] ->
  (forall j d, cs !! j = Some d -> td_execution_group d = eg_name g -> taken cia402_key calls j = []) ->
  eg_epoch g = sequence /\ eg_commands g = map cia402_value (for_group (eg_name g) cs ms) /\
  forallb id (eg_staged g) = true.
Proof.
  intros He Hs Hg Hk Hc Hall. pose proof (Forall2_length _ _ _ axes_accepted) as Hl.
  destruct (co_lengths _ _ (eo_channels _ _ _ He) gi g Hg) as [L1 L2].
  assert (forall m, (m < length (members_of (eg_name g) cs))%nat -> exists c,
    for_group (eg_name g) cs ms !! m = Some c /\ eg_commands g !! m = Some (cia402_value c) /\
    eg_staged g !! m = Some true /\ eg_epoch g = sequence) as Hm.
  { intros m Hm. destruct (member_of_group (eg_name g) cs ms m Hl Hm) as (j & d & c & H1 & H2 & H3 & H4 & H5).
    exists c. split; [done|]. rewrite <- H3, <- H2. by apply (Hs gi g j d c k); [..|by apply (Hall j d)| |]. }
  split_and!.
  - destruct (commit_names_spec _ _ _ registry) as [_ Hne].
    specialize (Hne (eg_name g) ltac:(by eapply list_elem_of_lookup_2)).
    destruct (Hm 0%nat) as (? & _ & _ & _ & ?); [|done]. by destruct (members_of _ _); [|cbn; lia].
  - apply list_eq_same_length with (length (eg_commands g)); [|done|].
    + by rewrite length_map, for_group_length, L1.
    + intros m x y Hlt Hx Hy. destruct (Hm m ltac:(lia)) as (c & H1 & H2 & _).
      change (map ?f) with (fmap (M:=list) f) in Hy. rewrite list_lookup_fmap, H1 in Hy. cbn in Hy. congruence.
  - apply forallb_forall. intros b [m Hb]%list_elem_of_In%list_elem_of_lookup.
    destruct (Hm m) as (_ & _ & _ & ? & _); [|by simplify_eq]. apply lookup_lt_Some in Hb. lia.
Qed.

(** A command of an axis is staged. *)
Lemma axis_taken calls i j d c gi g0 :
  endpoint_of robot_id ds i -> cs !! j = Some d -> ms !! j = Some c ->
  im_groups i !! gi = Some g0 -> eg_name g0 = td_execution_group d -> taken cia402_key calls j = [] ->
  staged_so_far (c_access (take_cia402_commands j [mkSample true c]) :: calls) i ->
  staged_so_far calls (DdsDaemonEndpoint.with_groups i
    (alter (DdsDaemonEndpoint.stage_member (Z.of_nat (place j d)) sequence (cia402_value c)) gi (im_groups i))).
Proof.
  intros He Hd Hc Hg0 Hn0 Hj Hs gj g j' d' c' k Hg Hd' Hc' Hn Hj' Hk Hck. cbn in Hg.
  assert (j' <> j -> taken cia402_key (c_access (take_cia402_commands j [mkSample true c]) :: calls) j' = []) as Hother.
  { intros Hne. rewrite taken_cons. cbn. by rewrite (proj2 (Nat.eqb_neq j j') ltac:(done)). }
  destruct (decide (gj = gi)) as [->|Hne].
  2: { rewrite list_lookup_alter_ne in Hg by done. apply (Hs gj g j' d' c' k); try done. apply Hother.
       intros ->. apply Hne. apply (co_names _ _ (eo_channels _ _ _ He) gj gi g g0); congruence. }
  rewrite list_lookup_alter_eq, Hg0 in Hg. injection Hg as <-. cbn in Hn, Hk. cbn.
  destruct (co_lengths _ _ (eo_channels _ _ _ He) gi g0 Hg0) as [L1 L2].
  pose proof (members_within (td_execution_group d) cs j d Hd eq_refl) as Hlt. fold (place j d) in Hlt.
  rewrite Hn0 in L1. rewrite Nat2Z.id.
  destruct (decide (j' = j)) as [->|Hne].
  - simplify_eq. rewrite !list_lookup_insert_eq; [done| |lia]. destruct (_ =? _); rewrite ?length_replicate; lia.
  - assert (place j' d' <> place j d) as Hp.
    { unfold place. rewrite Hn, Hn0. by apply (members_apart (td_execution_group d) cs j' j d' d); [..|congruence| |]. }
    destruct (Hs gi g0 j' d' c' k) as (S1 & S2 & S3); try done; [by apply Hother|].
    rewrite !list_lookup_insert_ne by done. by rewrite S3, Z.eqb_refl.
Qed.

Lemma kept_groups calls c i i' :
  cia402_key c = None -> commit_key c = None -> im_groups i' = im_groups i ->
  staged_so_far (c :: calls) i -> staged_so_far calls i'.
Proof.
  intros H1 H2 Hg Hs gi g j d c' k. rewrite Hg, <- (taken_other cia402_key c), <- (taken_other commit_key c) by done.
  apply Hs.
Qed.

Lemma commits_last_order o c calls k :
  commits_last o (c :: calls) = true -> commits_last o calls = true /\
  forall s samples j, commit_key c = Some (k, s :: samples) -> same_group o j k = true ->
    taken cia402_key calls j = [].
Proof.
  cbn [commits_last]. rewrite andb_true_iff. intros [Hc Ho]. split; [done|]. intros s samples j Hk Hj. rewrite Hk in Hc.
  rewrite forallb_forall in Hc. specialize (Hc j). rewrite in_seq in Hc.
  assert (j < length (io_cia402_writers o))%nat as Hl.
  { unfold same_group in Hj. destruct (io_cia402_writers o !! j) eqn:E; [|done]. by eapply lookup_lt_Some. }
  specialize (Hc ltac:(lia)). rewrite Hj in Hc. cbn in Hc. by destruct (taken cia402_key calls j).
Qed.

(** The writers of the host and the channels of the daemon. *)
Lemma writers_same_group o j d k name :
  io_cia402_writers o = map writer cs -> io_commit_writers o = commit_writers ds ->
  cs !! j = Some d -> commit_names ds !! k = Some name ->
  same_group o j k = String.eqb (td_execution_group d) name.
Proof.
  unfold same_group, commit_writers, commit_names. intros -> -> Hd Hk.
  change (map ?f) with (fmap (M:=list) f) in *. rewrite !list_lookup_fmap, Hd in *. cbn.
  destruct (filter _ ds !! k) as [e|]; cbn in *; [|done]. by injection Hk as <-.
Qed.

Lemma calls_run_snoc past c :
  reached (past ++ [c]) = (call_step (reached past) c).1.
Proof.
  unfold reached. generalize (DdsDaemonEndpoint.construct capacity robot_id ds).
  induction past as [|x past IH]; intros i; cbn [app calls_run].
  - cbn. by destruct (call_step i c).
  - specialize (IH (call_step i x).1). destruct (call_step i x) as [i1 o1]. cbn [fst] in IH.
    destruct (calls_run i1 (past ++ [c])) as [i2 o2]. by destruct (calls_run i1 past) as [i3 o3].
Qed.

(** A call that takes no command. *)
Lemma undelivered_call i c :
  cia402_key c = None -> commit_key c = None -> damiao_key c = None -> st3215_key c = None ->
  im_groups (call_step i c).1 = im_groups i /\ List.filter for_callback (call_step i c).2 = [].
Proof.
  intros H1 H2 H3 H4. destruct c as [a| | | | |]; cbn [call_step]; [destruct a; try done; cbn|cbn..].
  1-3: destruct (DdsDaemonEndpoint.pop_channel _ _) as [channels [[d e]|]]; done.
  - destruct (DdsDaemonEndpoint.pop _) as [q [e|]]; [|done]. by destruct (DdsDaemonEndpoint.im_health_channel i).
  - by destruct (DdsDaemonEndpoint.push_channel _ _ _).
  - by destruct (DdsDaemonEndpoint.push_channel _ _ _).
  - by destruct (DdsDaemonEndpoint.push_channel _ _ _).
  - by destruct (DdsDaemonEndpoint.push_realtime (DdsDaemonEndpoint.im_health_queue i) e).
  - done.
Qed.

(** The answers of the daemon to one sample of each kind. *)
Lemma motor_taken i k m :
  endpoint_of robot_id ds i -> dms !! k = Some m ->
  (call_step i (c_access (take_damiao_commands k [mkSample true m]))) =
    (i, [out_damiao k (DdsDaemonEndpoint.damiao_value m)]).
Proof.
  intros He Hm. destruct (Forall2_lookup_r _ _ _ _ _ motors_accepted Hm) as (channel & Hc & H1 & H2 & H3 & H4 & H5 & H6 & H7 & H8).
  cbn. rewrite (eo_damiao _ _ _ He), Hc. cbn [List.filter].
  assert (DdsDaemonEndpoint.damiao_admissible i channel (mkSample true m) = true) as ->.
  { unfold DdsDaemonEndpoint.damiao_admissible, DdsDaemonEndpoint.header_matches. cbn.
    by rewrite H1, H2, H3, H4, H5, H6, H7, H8, (eo_robot _ _ _ He), !String.eqb_refl. }
  cbn. by rewrite (channels_index _ _ _ _ Hc).
Qed.

Lemma servo_taken i k m :
  endpoint_of robot_id ds i -> ss !! k = Some m ->
  (call_step i (c_access (take_st3215_commands k [mkSample true m]))) =
    (i, [out_st3215 k (DdsDaemonEndpoint.st3215_value m)]).
Proof.
  intros He Hm. destruct (Forall2_lookup_r _ _ _ _ _ servos_accepted Hm) as (channel & Hc & H1 & H2 & H3 & H4).
  cbn. rewrite (eo_st3215 _ _ _ He), Hc. cbn [List.filter].
  assert (DdsDaemonEndpoint.st3215_admissible i channel (mkSample true m) = true) as ->.
  { unfold DdsDaemonEndpoint.st3215_admissible, DdsDaemonEndpoint.header_matches. cbn.
    by rewrite H1, H2, H3, H4, (eo_robot _ _ _ He), !String.eqb_refl. }
  cbn. by rewrite (channels_index _ _ _ _ Hc).
Qed.

(** No sample: nothing happens. *)
Lemma nothing_taken i c :
  match c with
  | c_access (take_cia402_commands _ []) | c_access (take_commits _ []) | c_access (take_damiao_commands _ [])
  | c_access (take_st3215_commands _ []) => True
  | _ => False
  end -> call_step i c = (i, []).
Proof. destruct c as [[k []|k []|k []|k []| | | |]| | | | |]; try done; intros _; cbn; by case_match. Qed.

Lemma still_staged c calls i :
  (forall k, taken cia402_key (c :: calls) k = taken cia402_key calls k) ->
  (forall k, taken commit_key (c :: calls) k = taken commit_key calls k) ->
  staged_so_far (c :: calls) i -> staged_so_far calls i.
Proof. intros H1 H2 Hs gi g j d c' k. rewrite <- H1, <- H2. apply Hs. Qed.

Lemma taken_nothing {S} (key : call -> option (nat * list (sample S))) c calls k j :
  key c = Some (j, []) -> taken key (c :: calls) k = taken key calls k.
Proof. intros Hk. rewrite taken_cons, Hk. by destruct (Nat.eqb j k). Qed.

(** One call on the way of a publication. *)
Lemma delivery_step o c calls i :
  io_cia402_writers o = map writer cs -> io_commit_writers o = commit_writers ds ->
  endpoint_of robot_id ds i -> under_way (c :: calls) -> commits_last o (c :: calls) = true ->
  staged_so_far (c :: calls) i ->
  List.filter for_callback (call_step i c).2 = [] ++ epochs c ++ motors c ++ servos c /\
  staged_so_far calls (call_step i c).1.
Proof.
  intros Hw Hk He (P1 & P2 & P3 & P4) Hlast Hs.
  apply pending_step in P1 as [_ P1]. apply pending_step in P2 as [_ P2].
  apply pending_step in P3 as [_ P3]. apply pending_step in P4 as [_ P4].
  unfold epochs, motors, servos.
  destruct c as [[j samples|k samples|k samples|k samples| | | |]| | | | |];
    try (match goal with |- context [call_step i ?c] =>
      destruct (undelivered_call i c) as [Q1 Q2]; [done..|]; split; [exact Q2|eapply kept_groups; [| |exact Q1|exact Hs]; done] end).
  - destruct (P1 j samples eq_refl) as [->|(a & Ha & -> & Hj)].
    { rewrite nothing_taken by done. split; [done|]. eapply still_staged; [| |exact Hs]; intros k; [by eapply taken_nothing|done]. }
    destruct (Forall2_lookup_r _ _ _ _ _ axes_accepted Ha) as (d & Hd & H1 & H2 & H3 & H4 & H5).
    destruct (co_channel _ _ (eo_channels _ _ _ He) j d Hd) as (gi & g & Hch & Hg & Hgn).
    cbn. rewrite Hch. cbn.
    assert (DdsDaemonEndpoint.cia402_admissible i (DdsDaemonEndpoint.mkCia402Channel gi (place j d) (td_device_id d))
      (mkSample true a) = true) as Hadm.
    { unfold DdsDaemonEndpoint.cia402_admissible, DdsDaemonEndpoint.header_matches. cbn.
      rewrite H1, H2, H3, H4, H5, (eo_robot _ _ _ He), !String.eqb_refl. cbn. by rewrite (proj2 (Z.eqb_neq _ _) numbered). }
    fold (place j d). rewrite Hadm. split; [done|]. rewrite H4. by eapply axis_taken.
  - destruct (P2 k samples eq_refl) as [->|(a & Ha & -> & Hj)].
    { rewrite nothing_taken by done. split; [done|]. eapply still_staged; [| |exact Hs]; intros j; [done|by eapply taken_nothing]. }
    destruct (Forall2_lookup_r _ _ _ _ _ commits_accepted Ha) as (name & Hn & H1 & H2 & H3 & H4).
    destruct (Forall2_lookup_r _ _ _ _ _ (eo_commits _ _ _ He) Hn) as (gi & Hgi & g & Hg & Hgn).
    destruct (commits_last_order o _ calls k Hlast) as [_ Horder].
    assert (taken commit_key (c_access (take_commits k [mkSample true a]) :: calls) k <> []) as Hck
      by (rewrite taken_cons; cbn; by rewrite Nat.eqb_refl).
    destruct (group_complete _ i gi g k He Hs Hg ltac:(by rewrite Hn, Hgn) Hck) as (C1 & C2 & C3).
    { intros j d Hd Hdn. rewrite taken_other by done. apply (Horder (mkSample true a) [] j); [done|].
      rewrite (writers_same_group o j d k name) by done. rewrite Hdn, Hgn. apply String.eqb_refl. }
    cbn. rewrite Hgi. cbn. rewrite Hg.
    assert (DdsDaemonEndpoint.commit_admissible i g (mkSample true a) = true) as ->.
    { unfold DdsDaemonEndpoint.commit_admissible. cbn.
      rewrite H1, H2, H3, H4, Hgn, C1, C3, (eo_robot _ _ _ He), !String.eqb_refl. cbn.
      by rewrite (proj2 (Z.eqb_neq _ _) numbered), Z.eqb_refl. }
    split; [cbn; rewrite Hn, C1, C2, Hgn; done|].
    intros gj h j d c k' Hh Hd Hc Hdn Hj' Hk' Hck'. cbn in Hh. destruct (decide (gj = gi)) as [->|Hne].
    + rewrite list_lookup_alter_eq, Hg in Hh. injection Hh as <-. cbn in Hk'. exfalso. apply Hck'.
      destruct (commit_names_spec _ _ _ registry) as [Hnd _].
      replace k' with k; [done|]. eapply NoDup_lookup; [done| |exact Hk']. by rewrite Hn, Hgn.
    + rewrite list_lookup_alter_ne in Hh by done. apply (Hs gj h j d c k'); try done.
      rewrite taken_cons. by intros [_ ?]%app_nil.
  - destruct (P3 k samples eq_refl) as [->|(a & Ha & -> & Hj)].
    { rewrite nothing_taken by done. split; [done|]. eapply still_staged; [| |exact Hs]; done. }
    rewrite motor_taken by done. split; [done|]. eapply still_staged; [| |exact Hs]; done.
  - destruct (P4 k samples eq_refl) as [->|(a & Ha & -> & Hj)].
    { rewrite nothing_taken by done. split; [done|]. eapply still_staged; [| |exact Hs]; done. }
    rewrite servo_taken by done. split; [done|]. eapply still_staged; [| |exact Hs]; done.
Qed.

(** All the calls. *)
Lemma delivery_run o calls : forall past,
  io_cia402_writers o = map writer cs -> io_commit_writers o = commit_writers ds ->
  under_way calls -> commits_last o calls = true -> staged_so_far calls (reached past) ->
  List.filter for_callback (calls_run (reached past) calls).2 =
  flat_map (fun c => [] ++ epochs c ++ motors c ++ servos c) calls.
Proof.
  induction calls as [|c calls IH]; intros past Hw Hk Hu Ho Hs; [done|].
  destruct (delivery_step o c calls (reached past) Hw Hk (reached_endpoint past) Hu Ho Hs) as [D1 D2].
  rewrite <- calls_run_snoc in D2. destruct Hu as (P1 & P2 & P3 & P4).
  apply pending_step in P1 as [P1 _]. apply pending_step in P2 as [P2 _].
  apply pending_step in P3 as [P3 _]. apply pending_step in P4 as [P4 _].
  cbn [commits_last] in Ho. apply andb_true_iff in Ho as [_ Ho].
  specialize (IH (past ++ [c]) Hw Hk ltac:(by split_and!) Ho D2). rewrite calls_run_snoc in IH.
  cbn [calls_run flat_map]. destruct (call_step (reached past) c) as [i1 o1]. cbn [fst snd] in *.
  destruct (calls_run i1 calls) as [i2 o2]. cbn [snd] in *. by rewrite List.filter_app, D1, IH.
Qed.

(** The whole publication, once each. *)
Lemma publication_delivered o past calls ws :
  io_cia402_writers o = map writer cs -> io_commit_writers o = commit_writers ds ->
  ws = (imap w_cia402 ms ++ imap w_commit cms ++ imap w_st3215 ss) ++ imap w_damiao dms ->
  delivered ws calls -> commits_last o calls = true ->
  List.filter for_callback (calls_run (reached past) calls).2 ≡ₚ
    map epoch_of (commit_names ds) ++
    imap (fun k m => out_damiao k (DdsDaemonEndpoint.damiao_value m)) dms ++
    imap (fun k m => out_st3215 k (DdsDaemonEndpoint.st3215_value m)) ss.
Proof.
  intros Hw Hk -> [D1 D2 D3 D4] Ho. pose proof (samples_written ms cms ss dms) as Hin. cbv zeta in Hin.
  set (n := samples_of _) in *. clearbody n.
  assert (forall k, taken cia402_key calls k = samples_at ms k /\ taken commit_key calls k = samples_at cms k /\
    taken damiao_key calls k = samples_at dms k /\ taken st3215_key calls k = samples_at ss k) as Ht.
  { intros k. destruct (Hin k) as (? & ? & ? & ?). rewrite D1, D2, D3, D4. by split_and!. }
  rewrite (delivery_run o calls past Hw Hk); [| |done|].
  2: { split_and!; intros k; right; apply Ht. }
  2: { intros gi g j d c k _ _ Hc _ Hj. exfalso. destruct (Ht j) as (H1 & _). rewrite H1 in Hj.
       unfold samples_at in Hj. by rewrite Hc in Hj. }
  rewrite (outputs_by_kind (fun _ => []) epochs motors servos).
  assert (flat_map (fun _ : call => @nil DdsDaemonEndpoint.output) calls = []) as -> by (clear; by induction calls).
  cbn [app]. assert (forall {A} (l : list A) k, (length l <= k)%nat -> samples_at l k = []) as Hge.
  { intros A l k Hl. unfold samples_at. by rewrite lookup_ge_None_2. }
  unfold epochs, motors, servos.
  rewrite (columns_outputs commit_key _ (length cms)) by (intros k ?; destruct (Ht k) as (_ & -> & _); by apply Hge).
  rewrite (columns_outputs damiao_key _ (length dms)) by (intros k ?; destruct (Ht k) as (_ & _ & -> & _); by apply Hge).
  rewrite (columns_outputs st3215_key _ (length ss)) by (intros k ?; destruct (Ht k) as (_ & _ & _ & ->); by apply Hge).
  rewrite (flat_map_ext _ (fun k => map (fun _ => epoch_of (default ""%string (commit_names ds !! k))) (samples_at cms k)))
    by (intros k; by destruct (Ht k) as (_ & -> & _)).
  rewrite (flat_map_ext (fun k => map _ (taken damiao_key calls k))
    (fun k => map (fun s => out_damiao k (DdsDaemonEndpoint.damiao_value (sp_data s))) (samples_at dms k)))
    by (intros k; by destruct (Ht k) as (_ & _ & -> & _)).
  rewrite (flat_map_ext (fun k => map _ (taken st3215_key calls k))
    (fun k => map (fun s => out_st3215 k (DdsDaemonEndpoint.st3215_value (sp_data s))) (samples_at ss k)))
    by (intros k; by destruct (Ht k) as (_ & _ & _ & ->)).
  rewrite (column_outputs (fun k _ => epoch_of (default ""%string (commit_names ds !! k)))).
  rewrite (column_outputs (fun k m => out_damiao k (DdsDaemonEndpoint.damiao_value m))).
  rewrite (column_outputs (fun k m => out_st3215 k (DdsDaemonEndpoint.st3215_value m))).
  f_equiv. apply reflexive_eq, list_eq. intros k. change (map ?f) with (fmap (M:=list) f).
  rewrite list_lookup_imap, list_lookup_fmap.
  pose proof (Forall2_length _ _ _ commits_accepted) as Hl.
  destruct (cms !! k) eqn:E, (commit_names ds !! k) eqn:E'; cbn; try done;
    [apply lookup_lt_Some in E; apply lookup_ge_None in E'; lia | apply lookup_lt_Some in E'; apply lookup_ge_None in E; lia].
Qed.

End Delivery.

(** A publication of the host arrives whole.  Host and daemon build their channels from the same
    profile; whatever the daemon's endpoint has gone through before, when the host publishes finite
    commands with a non-zero sequence number and the samples are taken, over any calls, with the
    commit of each group after the commands of its axes, the callbacks of the daemon get exactly this:
    for every execution group one epoch, numbered by the sequence, with the commands of the axes of
    the group in their order, and the command of every motor and of every servo, under its own index. *)
Lemma commands_delivered capacity profile ds past calls axes servos motors enabled sequence
    timestamp_ns throws throws' what what' ws ws' :
  build_dds_topic_registry profile (dds_robot_id (rp_dds profile)) = success ds ->
  let o := construct profile ds in
  sequence <> 0 ->
  Forall (fun c => isfinite (ac_target c) = true) axes ->
  Forall (fun c => isfinite (sc_target_position_rad c) = true) servos ->
  Forall (fun c => isfinite (dm_position c) && isfinite (dm_velocity c) && isfinite (dm_kp c) &&
    isfinite (dm_kd c) && isfinite (dm_torque c) = true) motors ->
  publish_commands o axes servos sequence timestamp_ns throws what = (ws, success tt) ->
  publish_damiao_commands o motors enabled sequence timestamp_ns throws' what' = (ws', success tt) ->
  delivered (ws ++ ws') calls -> commits_last o calls = true ->
  List.filter for_callback
    (calls_run (reached capacity (dds_robot_id (rp_dds profile)) ds past) calls).2 ≡ₚ
    map (fun name => out_epoch name sequence (group_values o axes sequence timestamp_ns name))
      (commit_names ds) ++
    imap (fun k c => out_damiao k (motor_value sequence timestamp_ns c)) (zip motors enabled) ++
    imap (fun k c => out_st3215 k (servo_value sequence timestamp_ns c)) servos.
Proof.
  intros Hreg o Hz Haxes Hservos Hmotors Hp Hp' Hd Hlast.
  unfold publish_commands in Hp. destruct (_ || _) eqn:Hn; [done|]. apply perform_writes_success in Hp as ->.
  apply orb_false_iff in Hn as [Hna Hns]. apply negb_false_iff, Nat.eqb_eq in Hna, Hns.
  unfold publish_damiao_commands in Hp'. destruct (_ || _) eqn:Hn; [done|]. apply perform_writes_success in Hp' as ->.
  apply orb_false_iff in Hn as [Hnm Hne]. apply negb_false_iff, Nat.eqb_eq in Hnm, Hne.
  assert (length axes = length (cia402_commands_of ds)) as Hla
    by (rewrite Hna; unfold o, construct, writers; cbn [io_cia402_writers]; by rewrite length_map).
  rewrite (publication_delivered capacity profile (dds_robot_id (rp_dds profile)) ds Hreg sequence
    (cia402_messages o axes sequence timestamp_ns) (commit_messages o sequence timestamp_ns)
    (damiao_messages o motors enabled sequence timestamp_ns) (st3215_messages o servos sequence timestamp_ns)
    Hz) with (o := o) (calls := calls); [| | | | |done|done|reflexivity|exact Hd|exact Hlast].
  - apply eq_subrelation; [typeclasses eauto|]. f_equal; [|f_equal].
    + apply map_ext. intros name. unfold epoch_of. f_equal. by apply group_values_spec.
    + unfold damiao_messages. apply imap_zip_messages; [|done]. rewrite length_zip_with, Hne. lia.
    + by apply imap_zip_messages.
  - by apply axis_messages_admissible.
  - apply commit_messages_admissible.
  - apply messages_channels.
    + rewrite length_zip_with, Hne. unfold o in Hnm. cbn in Hnm. lia.
    + intros d k [c e] Hc. apply elem_of_zip_l in Hc. rewrite Forall_forall in Hmotors.
      specialize (Hmotors c Hc). rewrite !andb_true_iff in Hmotors. destruct Hmotors as [[[[? ?] ?] ?] ?]. by split_and!.
  - apply messages_channels; [exact Hns|].
    intros d k c Hc. rewrite Forall_forall in Hservos. by specialize (Hservos c Hc).
Qed.

(** The turns of the worker are such calls. *)
Lemma perform_all_calls accesses : forall i,
  (DdsDaemonEndpoint.perform_all i accesses).1 = calls_run i (map c_access accesses).
Proof.
  induction accesses as [|a accesses IH]; intros i; [done|]. cbn [DdsDaemonEndpoint.perform_all map calls_run call_step].
  destruct (DdsDaemonEndpoint.perform i a) as [[i1 o1] c1]. cbn [fst]. specialize (IH i1).
  destruct (DdsDaemonEndpoint.perform_all i1 accesses) as [[i2 o2] c2]. cbn [fst] in *. by rewrite <- IH.
Qed.

Lemma turn_calls i n :
  DdsDaemonEndpoint.im_worker i = true ->
  (DdsDaemonEndpoint.turn i n None).1 = calls_run i (map c_access (DdsDaemonEndpoint.turn_accesses i n)).
Proof. intros Hw. unfold DdsDaemonEndpoint.turn. rewrite Hw. apply perform_all_calls. Qed.

End DdsDelivery.

(** ** Examples *)

Module DdsDeliveryExamples.
Import DdsTypes Topics DdsRobotIo DdsDelivery DdsRobotIoExamples.
Open Scope list_scope.
Open Scope Z_scope.

Definition host_axes : list AxisCommand := [mkAxisCommand 7 99 fone 1 0; mkAxisCommand 7 99 fone 3 0].
Definition host_servos : list St3215ServoCommand :=
  [mkServoCommand 7 99 fone true false []; mkServoCommand 7 99 fone true true []].

Definition endpoint : DdsDaemonEndpoint.Impl :=
  reached 64 "lab" DdsEndpointExamples.descriptors [DdsDaemonEndpoint.c_life true false true].

Definition publication : list written :=
  (publish_commands host host_axes host_servos 7 99 None "").1 ++
  (publish_damiao_commands host [] [] 7 99 None "").1.

(** What a turn finds: of the publication, the axes, the commits and the servos that are chosen. *)
Definition turn_with (axes commits servos : nat -> bool) : list DdsDaemonEndpoint.call :=
  map DdsDaemonEndpoint.c_access (DdsDaemonEndpoint.turn_accesses endpoint
    (DdsDaemonEndpoint.mkInputs
      (fun k => if axes k then DdsDaemonEndpoint.tk_cia402 (samples_of publication) k else [])
      (fun k => if commits k then DdsDaemonEndpoint.tk_commit (samples_of publication) k else [])
      (fun k => [])
      (fun k => if servos k then DdsDaemonEndpoint.tk_st3215 (samples_of publication) k else []))).

Definition all (k : nat) : bool := true.
Definition no (k : nat) : bool := false.

(** Over two turns: a servo and the second axis; then the first axis, the commit and the other servo. *)
Definition two_turns : list DdsDaemonEndpoint.call :=
  turn_with (Nat.eqb 1) no (Nat.eqb 0) ++ turn_with (Nat.eqb 0) all (Nat.eqb 1).

Lemma two_turns_delivered : delivered publication two_turns /\ commits_last host two_turns = true.
Proof.
  split; [|vm_compute; reflexivity].
  split; intros [|[|k]]; try (vm_compute; reflexivity); by destruct k.
Qed.

Example delivered_to_daemon :
  List.filter for_callback (DdsDaemonEndpoint.calls_run endpoint two_turns).2 =
    [DdsDaemonEndpoint.out_st3215 0 (mkSt3215Value fone true false 7 99);
     DdsDaemonEndpoint.out_epoch "leg" 7 [mkCia402Value fone 0 1 7 99; mkCia402Value fone 0 3 7 99];
     DdsDaemonEndpoint.out_st3215 1 (mkSt3215Value fone true true 7 99)].
Proof. vm_compute. reflexivity. Qed.

(** The worker looks at the readers of the axes before those of the commits.  A publication that is
    written in between is found in the wrong order: its commit is dropped, as its group holds no
    command yet, and the commands of the next turn wait for a commit that does not come. *)
Lemma epoch_lost :
  let calls := turn_with no all no ++ turn_with all no all in
  (forall k, taken commit_key calls k = DdsDaemonEndpoint.tk_commit (samples_of publication) k) /\
  commits_last host calls = false /\
  List.filter for_callback (DdsDaemonEndpoint.calls_run endpoint calls).2 =
    [DdsDaemonEndpoint.out_st3215 0 (mkSt3215Value fone true false 7 99);
     DdsDaemonEndpoint.out_st3215 1 (mkSt3215Value fone true true 7 99)].
Proof. cbv zeta. split_and!; [intros [|k]; by vm_compute|by vm_compute..]. Qed.

End DdsDeliveryExamples.
