(* ===== verification/Daemon.v ===== *)
(** * The robot I/O daemon: state, configuration, commands

    [robot_io/daemon/daemon.cpp]: the members of [RobotIoDaemon], [configure], [attach_dds] with
    the callbacks it installs, the receive callback of the CAN runtimes and the accessors.  The
    cycle is in DaemonCycle.v and the life cycle in DaemonLife.v.

    The answers of the operating system (sockets, DDS) are arguments.  Objects the daemon owns
    through pointers keep their addresses: the transport runtimes live in the heap of
    TransportRuntime.v. *)
From S2P Require Export Prelude Messages Cia402 Safety St3215Servo Damiao Scheduler RtLoop Pdo.
From S2P Require Export Profile Topology CanBus TransportRuntime CommandIngress DdsEndpoint.

Module Daemon.
Import DdsTypes CommandIngress Topology.
Open Scope list_scope.
Open Scope Z_scope.

(** ** The members *)

Record DaemonAxisSnapshot := mkAxisSnapshot {
  da_cycle_sequence : Z;
  da_timestamp_ns : Z;
  da_axis_count : nat;
  da_requests : list AxisRequest;
  da_feedback : list AxisFeedback }.

(** What [configure] sets up once. *)
Record Setup := mkSetup {
  su_axis_configurations : list AxisConfig;
  su_bindings : list (option DeviceBinding);          (* actuator_bindings_ *)
  su_sensors : list DamiaoConfig;                     (* damiao_sensors_ *)
  su_runtimes : list nat;                             (* transport_runtimes_, by address *)
  su_members : list (list nat);                       (* captured by their receive callbacks *)
  su_stop_masks : list Z;                             (* serial_axis_stop_masks_ *)
  su_sensor_indices : list (option nat) }.            (* st3215_dds_sensor_indices_ *)

(** The atomics that [health] reads. *)
Record Status := mkStatus {
  st_working_counter : Z;
  st_expected_working_counter : Z;
  st_consecutive_wkc_failures : Z;
  st_safety_flags : Z;
  st_process_data_valid : bool;
  st_dc_deviation_ns : Z;
  st_feedback_timestamp_ns : Z;
  st_serial_servo_count : Z;
  st_serial_fault_count : Z;
  st_serial_safety_flags : Z;
  st_timing_fault : bool;
  st_sleep_error : Z;
  st_realtime_guarantee : bool }.

Definition Status_zero : Status := mkStatus 0 0 0 0 false 0 0 0 0 0 false 0 false.

Section Daemon.
Context {L : Type} `{SerialLink L}.

Record RobotIoDaemon := mkDaemon {
  dm_setup : Setup;
  dm_configured : bool;
  dm_running : bool;
  dm_stop_requested : bool;
  dm_shutdown_complete : bool;
  dm_ingress : ingress;
  dm_serial : Registry.St3215DeviceRegistry (L := L);
  dm_actuators : list DamiaoDevice.DamiaoActuator;
  dm_axes : list Axis.Axis;
  dm_pdos : list Cia402PdoView;                       (* standalone_pdos_ *)
  dm_feedback : list AxisFeedback;                    (* cycle_feedback_ *)
  dm_heap : TransportRuntime.heap unit;
  dm_dds : option DdsDaemonEndpoint.Impl;
  dm_scheduler : TransportScheduler.assignments;
  dm_loop : RealtimeLoop.loop;
  dm_cycle_sequence : Z;
  dm_status : Status;
  dm_publication : option DaemonAxisSnapshot }.       (* axis_publication_ *)

Definition Setup_zero : Setup :=
  mkSetup [] (replicate (Z.to_nat kRobotIoMaximumServos) None) [] [] []
    (replicate kMaximumSt3215Servos 0) (replicate kMaximumSt3215Servos (Some 0%nat)).

Definition axis_count (d : RobotIoDaemon) : nat := length (su_axis_configurations (dm_setup d)).

(** The constructor. *)
Definition create (safety_options : SafetyOptions) (loop_config : RealtimeLoop.RealtimeLoopConfig)
    : RobotIoDaemon :=
  mkDaemon Setup_zero false false false false (CommandIngress.create safety_options)
    Registry.create [] [] (replicate max_axes Cia402PdoView_zero)
    (replicate max_axes AxisFeedback_zero) (TransportRuntime.no_runtime ∅) None ∅
    (RealtimeLoop.create loop_config) 0 Status_zero None.

(** Updates of one member. *)
Definition with_flags (d : RobotIoDaemon) (running stop_requested shutdown_complete : bool)
    : RobotIoDaemon :=
  mkDaemon (dm_setup d) (dm_configured d) running stop_requested shutdown_complete (dm_ingress d)
    (dm_serial d) (dm_actuators d) (dm_axes d) (dm_pdos d) (dm_feedback d) (dm_heap d) (dm_dds d)
    (dm_scheduler d) (dm_loop d) (dm_cycle_sequence d) (dm_status d) (dm_publication d).

Definition with_ingress (d : RobotIoDaemon) (i : ingress) : RobotIoDaemon :=
  mkDaemon (dm_setup d) (dm_configured d) (dm_running d) (dm_stop_requested d)
    (dm_shutdown_complete d) i (dm_serial d) (dm_actuators d) (dm_axes d) (dm_pdos d)
    (dm_feedback d) (dm_heap d) (dm_dds d) (dm_scheduler d) (dm_loop d) (dm_cycle_sequence d)
    (dm_status d) (dm_publication d).

Definition with_serial (d : RobotIoDaemon) (g : Registry.St3215DeviceRegistry (L := L))
    (m : TransportScheduler.assignments) : RobotIoDaemon :=
  mkDaemon (dm_setup d) (dm_configured d) (dm_running d) (dm_stop_requested d)
    (dm_shutdown_complete d) (dm_ingress d) g (dm_actuators d) (dm_axes d) (dm_pdos d)
    (dm_feedback d) (dm_heap d) (dm_dds d) m (dm_loop d) (dm_cycle_sequence d)
    (dm_status d) (dm_publication d).

Definition with_damiao (d : RobotIoDaemon) (actuators : list DamiaoDevice.DamiaoActuator)
    (h : TransportRuntime.heap unit) : RobotIoDaemon :=
  mkDaemon (dm_setup d) (dm_configured d) (dm_running d) (dm_stop_requested d)
    (dm_shutdown_complete d) (dm_ingress d) (dm_serial d) actuators (dm_axes d) (dm_pdos d)
    (dm_feedback d) h (dm_dds d) (dm_scheduler d) (dm_loop d) (dm_cycle_sequence d)
    (dm_status d) (dm_publication d).

Definition with_pdos (d : RobotIoDaemon) (pdos : list Cia402PdoView) : RobotIoDaemon :=
  mkDaemon (dm_setup d) (dm_configured d) (dm_running d) (dm_stop_requested d)
    (dm_shutdown_complete d) (dm_ingress d) (dm_serial d) (dm_actuators d) (dm_axes d) pdos
    (dm_feedback d) (dm_heap d) (dm_dds d) (dm_scheduler d) (dm_loop d) (dm_cycle_sequence d)
    (dm_status d) (dm_publication d).

Definition with_dds (d : RobotIoDaemon) (e : option DdsDaemonEndpoint.Impl) : RobotIoDaemon :=
  mkDaemon (dm_setup d) (dm_configured d) (dm_running d) (dm_stop_requested d)
    (dm_shutdown_complete d) (dm_ingress d) (dm_serial d) (dm_actuators d) (dm_axes d) (dm_pdos d)
    (dm_feedback d) (dm_heap d) e (dm_scheduler d) (dm_loop d) (dm_cycle_sequence d)
    (dm_status d) (dm_publication d).

Definition with_loop (d : RobotIoDaemon) (l : RealtimeLoop.loop) : RobotIoDaemon :=
  mkDaemon (dm_setup d) (dm_configured d) (dm_running d) (dm_stop_requested d)
    (dm_shutdown_complete d) (dm_ingress d) (dm_serial d) (dm_actuators d) (dm_axes d) (dm_pdos d)
    (dm_feedback d) (dm_heap d) (dm_dds d) (dm_scheduler d) l (dm_cycle_sequence d)
    (dm_status d) (dm_publication d).

Definition with_status (d : RobotIoDaemon) (s : Status) : RobotIoDaemon :=
  mkDaemon (dm_setup d) (dm_configured d) (dm_running d) (dm_stop_requested d)
    (dm_shutdown_complete d) (dm_ingress d) (dm_serial d) (dm_actuators d) (dm_axes d) (dm_pdos d)
    (dm_feedback d) (dm_heap d) (dm_dds d) (dm_scheduler d) (dm_loop d) (dm_cycle_sequence d)
    s (dm_publication d).

(** ** [configure] *)

(** [damiao_bus_members]: the indices of the motors by path, in the order of the paths. *)
Fixpoint insert_member (path : string) (index : nat) (members : StringMap (list nat))
    : StringMap (list nat) :=
  match members with
  | [] => [(path, [index])]
  | (p, l) :: members =>
      match String.compare path p with
      | Lt => (path, [index]) :: (p, l) :: members
      | Eq => (p, l ++ [index]) :: members
      | Gt => (p, l) :: insert_member path index members
      end
  end.

Fixpoint bus_members (motors : list DamiaoMotorProfile) (index : nat)
    (members : StringMap (list nat)) : Result (StringMap (list nat)) :=
  match motors with
  | [] => success members
  | motor :: motors =>
      match mp_transport motor with
      | socketcan => bus_members motors (S index) (insert_member (mp_path motor) index members)
      | virtual_serial =>
          fail invalid_argument "Damiao daemon currently supports SocketCAN transport only"
      end
  end.

(** What the kernel answers when a bus is opened. *)
Record SocketOutcome := mkSocketOutcome { so_fd : Z; so_ioctl_ok : bool; so_bind_ok : bool }.

(** [TransportFactory::create_socketcan] with the default 32 slots: the runtime is created in a
    local object (address [local]) and moved to the new one at [p]. *)
Definition create_socketcan (h : TransportRuntime.heap unit) (p local : nat)
    (key : TransportFactory.PhysicalTransportKey) (o : SocketOutcome)
    : TransportRuntime.heap unit * Result unit :=
  match TransportFactory.validate key with
  | failure e => (h, failure e)
  | success _ =>
      match TransportFactory.ptk_kind key with
      | TransportFactory.socketcan =>
          let '(opened, closed) :=
            SocketCan.open_interface (TransportFactory.ptk_path key) (so_fd o) (so_ioctl_ok o)
              (so_bind_ok o) in
          let h := TransportRuntime.add_closed h closed in
          match opened with
          | failure e => (h, failure e)
          | success transport =>
              match TransportRuntime.create_can h local transport true 32 with
              | (failure e, h) => (h, failure e)
              | (success _, h) =>
                  match TransportRuntime.h_runtimes h !! local with
                  | None => (h, fail internal "")
                  | Some r =>
                      let h := TransportRuntime.move_construct h p local r in
                      (TransportRuntime.mkHeap
                         (base.delete local (TransportRuntime.h_runtimes h))
                         (TransportRuntime.h_transports h) (TransportRuntime.h_sent h)
                         (TransportRuntime.h_received h) (TransportRuntime.h_closed h), success tt)
                  end
              end
          end
      | _ => (h, fail invalid_argument "SocketCAN factory requires a socketcan transport key")
      end
  end.

(** The slot and the actuator of a motor: those of the first compiled device that has the motor's
    actuator on the motor's path; otherwise the position on the bus. *)
Definition compiled_route (profile : RobotProfile) (topology : CompiledTopology) (path : string)
    (motor : DamiaoMotorProfile) : option (nat * nat) :=
  head (omap (fun binding =>
    actuator_index ← db_actuator binding;
    actuator ← rp_actuators profile !! actuator_index;
    key ← ct_transports topology !! db_transport binding;
    if String.eqb (dev_name actuator) (mp_actuator_name motor) &&
       String.eqb (TransportFactory.ptk_path key) path
    then Some (db_transmit_slot binding, actuator_index) else None) (ct_devices topology)).

Definition route (profile : RobotProfile) (topology : CompiledTopology) (path : string)
    (transport_index local_index : nat) (motor : DamiaoMotorProfile) : DeviceBinding :=
  match compiled_route profile topology path motor with
  | Some (slot, actuator) => mkBinding None (Some actuator) transport_index 0 slot
  | None => mkBinding None None transport_index 0 local_index
  end.

Fixpoint bind_members (profile : RobotProfile) (topology : CompiledTopology) (path : string)
    (transport_index local_index : nat) (members : list nat)
    (bindings : list (option DeviceBinding)) : list (option DeviceBinding) :=
  match members with
  | [] => bindings
  | index :: members =>
      bind_members profile topology path transport_index (S local_index) members
        (match rp_damiao_motors profile !! index with
         | Some motor =>
             <[index := Some (route profile topology path transport_index local_index motor)]> bindings
         | None => bindings
         end)
  end.

(** The loop over the buses; when one cannot be opened the runtimes created so far are
    destroyed with their vector. *)
Fixpoint create_buses (profile : RobotProfile) (topology : CompiledTopology)
    (sockets : nat -> SocketOutcome) (address : nat -> nat) (local : nat)
    (members : StringMap (list nat)) (h : TransportRuntime.heap unit) (buses : list nat)
    (bindings : list (option DeviceBinding))
    : TransportRuntime.heap unit * list nat * list (option DeviceBinding) * Result unit :=
  match members with
  | [] => (h, buses, bindings, success tt)
  | (path, indices) :: members =>
      let k := length buses in
      match create_socketcan h (address k) local
              (TransportFactory.mkPhysicalTransportKey TransportFactory.socketcan path) (sockets k) with
      | (h, failure e) => (h, buses, bindings, failure e)
      | (h, success _) =>
          create_buses profile topology sockets address local members h (buses ++ [address k])
            (bind_members profile topology path k 0 indices bindings)
      end
  end.

Definition no_transport : TransportRuntime.Transport unit :=
  TransportRuntime.mkTransport unit (fun t => (success tt, t)) id (fun _ _ => id) id id.

(** Destroying runtimes. *)
Definition destroy_buses (h : TransportRuntime.heap unit) (buses : list nat)
    : TransportRuntime.heap unit :=
  fold_left (fun h p =>
    match TransportRuntime.h_runtimes h !! p with
    | Some r => TransportRuntime.delete no_transport h p r
    | None => h
    end) buses h.

Fixpoint create_axes (axes : list AxisConfig) : Result (list Axis.Axis) :=
  match axes with
  | [] => success []
  | a :: axes => x ← Axis.create a; xs ← create_axes axes; success (x :: xs)
  end.

(** The axes whose constructor ran, the throwing one excluded, have set the mode of their
    standalone view. *)
Fixpoint set_modes (axes : list AxisConfig) (pdos : list Cia402PdoView) : list Cia402PdoView :=
  match axes, pdos with
  | a :: axes, pdo :: pdos =>
      match Axis.create a with
      | failure _ => pdo :: pdos
      | success _ =>
          mkPdo (status_word pdo) (mode_value (ax_mode a)) (actual_position pdo)
            (actual_velocity pdo) (actual_torque pdo) (control_word pdo) (target_position pdo)
            (target_velocity pdo) (target_torque pdo) :: set_modes axes pdos
      end
  | _, _ => pdos
  end.

(** The number, among the ST3215 sensors of the profile, of the sensor of each servo: the first
    servo with that sensor name gets it. *)
Fixpoint sensor_indices (sensors : list DeviceConfig) (servos : list St3215ServoProfile)
    (index : nat) (indices : list (option nat)) : list (option nat) :=
  match sensors with
  | [] => indices
  | sensor :: sensors =>
      if String.eqb (dev_type sensor) "st3215" then
        sensor_indices sensors servos (S index)
          (match list_find (fun s => pf_sensor_name s = dev_name sensor) servos with
           | Some (servo, _) => <[servo := Some index]> indices
           | None => indices
           end)
      else sensor_indices sensors servos index indices
  end.

(** The axes that a fault of a servo stops: those of its safety group. *)
Definition stop_mask (axes : list AxisConfig) (servo : St3215ServoProfile) : Z :=
  fold_left Z.lor
    (imap (fun axis a =>
       if String.eqb (pf_safety_group servo) (ax_safety_group a)
       then u16 (Z.shiftl 1 (Z.of_nat axis)) else 0) axes) 0.

(** [serial_axis_stop_masks_[servo] |= ...] *)
Definition or_masks (masks old : list Z) : list Z := zip_with Z.lor old masks ++ drop (length masks) old.

(** [command_ingress_], the supervisor of the intake. *)
Definition set_intake (i : ingress) (v : SafetySupervisor) : ingress :=
  mkIngress (in_accepting i) v (in_safety i) (in_publication i) (in_handoff i) (in_rejected i)
    (in_consumed i) (in_acknowledged i) (in_last_sequence i) (in_last_timestamp i).

(** What [configure] stores once nothing can fail any more. *)
Definition install (d : RobotIoDaemon) (profile : RobotProfile) (i : ingress)
    (g : Registry.St3215DeviceRegistry (L := L)) (axes : list Axis.Axis)
    (h : TransportRuntime.heap unit) (buses : list nat) (members : list (list nat))
    (bindings : list (option DeviceBinding)) : RobotIoDaemon :=
  let configs :=
    map (fun m => mkDamiaoConfig (mp_motor_id m) (mp_limits m)) (rp_damiao_motors profile) in
  let setup :=
    mkSetup (rp_axes profile) bindings configs buses members
      (or_masks (map (stop_mask (rp_axes profile)) (rp_st3215_servos profile))
         (su_stop_masks (dm_setup d)))
      (sensor_indices (rp_sensors profile) (rp_st3215_servos profile) 0
         (replicate kMaximumSt3215Servos None)) in
  mkDaemon setup true (dm_running d) (dm_stop_requested d) (dm_shutdown_complete d) i g
    (map DamiaoDevice.create configs) axes (dm_pdos d) (dm_feedback d) h (dm_dds d)
    (dm_scheduler d) (dm_loop d) (dm_cycle_sequence d) (dm_status d)
    (Some (mkAxisSnapshot 0 0 (length (rp_axes profile)) (replicate max_axes Cia402.disable)
       (replicate max_axes AxisFeedback_zero))).

(** The rest of [configure] once the buses are open; they are destroyed with their vector when
    a part cannot be configured. *)
Definition configure_parts (d : RobotIoDaemon) (profile : RobotProfile) (bus_address : nat -> Z)
    (h : TransportRuntime.heap unit) (buses : list nat) (members : list (list nat))
    (bindings : list (option DeviceBinding)) : RobotIoDaemon * Result unit :=
  let d := with_pdos d (set_modes (rp_axes profile) (dm_pdos d)) in
  let abandon d e := (with_damiao d (dm_actuators d) (destroy_buses h buses), failure e) in
  match create_axes (rp_axes profile) with
  | failure e => abandon d e
  | success axes =>
      let i := dm_ingress d in
      match Supervisor.configure (in_safety i) (rp_axes profile) with
      | (safety, failure e) => abandon (with_ingress d (set_safety i safety)) e
      | (safety, success _) =>
          let i := set_safety i safety in
          match Supervisor.configure (in_ingress i) (rp_axes profile) with
          | (v, failure e) => abandon (with_ingress d (set_intake i v)) e
          | (v, success _) =>
              let i := set_intake i v in
              match Registry.configure bus_address (dm_serial d) (rp_st3215_servos profile) with
              | (g, failure e) => abandon (with_serial (with_ingress d i) g (dm_scheduler d)) e
              | (g, success _) =>
                  (install d profile i g axes h buses members bindings, success tt)
              end
          end
      end
  end.

(** [configure].  The topology and the two preflight checks work on fresh objects. *)
Definition configure (d : RobotIoDaemon) (profile : RobotProfile) (bus_address : nat -> Z)
    (sockets : nat -> SocketOutcome) (address : nat -> nat) (local : nat)
    : RobotIoDaemon * Result unit :=
  if dm_configured d || dm_running d
  then (d, fail invalid_argument "robot I/O daemon is already configured")
  else if (Z.to_nat kRobotIoMaximumAxes <? length (rp_axes profile))%nat
  then (d, fail invalid_argument "robot I/O daemon supports at most 12 axes")
  else
    match (Supervisor.configure (Supervisor.create SafetyOptions_default) (rp_axes profile)).2,
          (Registry.configure bus_address Registry.create (rp_st3215_servos profile)).2,
          compile_physical_topology profile with
    | failure e, _, _ => (d, failure e)
    | _, failure e, _ => (d, failure e)
    | _, _, failure e => (d, failure e)
    | success _, success _, success topology =>
        if (Z.to_nat kRobotIoMaximumServos <? length (rp_damiao_motors profile))%nat
        then (d, fail invalid_argument "robot I/O daemon supports at most 32 Damiao motors")
        else
          match bus_members (rp_damiao_motors profile) 0 [] with
          | failure e => (d, failure e)
          | success members =>
              match create_buses profile topology sockets address local members (dm_heap d) []
                      (replicate (Z.to_nat kRobotIoMaximumServos) None) with
              | (h, buses, _, failure e) =>
                  (with_damiao d (dm_actuators d) (destroy_buses h buses), failure e)
              | (h, buses, bindings, success _) =>
                  configure_parts d profile bus_address h buses (map snd members) bindings
              end
          end
    end.

(** ** Commands *)

(** [stage_commands]: see CommandIngress.v. *)
Definition stage_commands (d : RobotIoDaemon) (snapshot : Snapshot AxisCommand) (now_ns : Z)
    : RobotIoDaemon * CommandAcceptance :=
  let '(i, acceptance) := CommandIngress.stage_commands (dm_ingress d) snapshot now_ns in
  (with_ingress d i, acceptance).

Definition stage_servo_command (d : RobotIoDaemon) (servo_index : nat)
    (command : St3215ServoCommand) (now_ns : Z) : RobotIoDaemon * St3215CommandAcceptance :=
  if negb (in_accepting (dm_ingress d)) then (d, St3215Servo.rejected)
  else
    let '(g, acceptance) := Registry.stage_command (dm_serial d) servo_index command now_ns in
    (with_serial d g (dm_scheduler d), acceptance).

(** *** The callbacks [attach_dds] gives to the endpoint *)

(** [Snapshot<AxisCommand>] of an epoch. *)
Definition epoch_axis (value : Cia402CommandValue) : AxisCommand :=
  mkAxisCommand (vc_sequence value) (vc_source_timestamp_ns value) (vc_target value)
    (vc_flags value) 0.

Definition epoch_snapshot (d : RobotIoDaemon) (epoch : Z) (values : list Cia402CommandValue)
    : Snapshot AxisCommand :=
  mkSnapshot epoch (fold_left Z.max (map vc_source_timestamp_ns values) 0)
    (Z.of_nat (axis_count d))
    (map epoch_axis values ++ replicate (max_axes - length values) AxisCommand_zero).

Definition stage_ethercat_epoch (d : RobotIoDaemon) (epoch : Z) (values : list Cia402CommandValue)
    (now_ns : Z) : RobotIoDaemon :=
  if negb (Nat.eqb (length values) (axis_count d)) then d
  else (stage_commands d (epoch_snapshot d epoch values) now_ns).1.

Definition servo_command (value : St3215CommandValue) : St3215ServoCommand :=
  mkServoCommand (vs_sequence value) (vs_source_timestamp_ns value) (vs_target_radians value)
    (vs_enabled value) (vs_fault_reset value) (replicate 6 0).

Definition stage_st3215_command (d : RobotIoDaemon) (index : nat) (value : St3215CommandValue)
    (now_ns : Z) : RobotIoDaemon :=
  (stage_servo_command d index (servo_command value) now_ns).1.

(** The actuator of a Damiao command, after the call, and the frame for its bus. *)
Definition damiao_frame (actuator : DamiaoDevice.DamiaoActuator) (value : DamiaoCommandValue)
    : DamiaoDevice.DamiaoActuator * Result DeviceFrame :=
  let a := DamiaoDevice.set_enabled actuator (vd_enabled value) in
  let a := DamiaoDevice.set_command a
    (mkMitCommand (vd_position value) (vd_velocity value) (vd_kp value) (vd_kd value)
       (vd_torque value)) in
  let a := if vd_fault_reset value then DamiaoDevice.set_zero_position a true else a in
  (DamiaoDevice.set_zero_position a false, DamiaoDevice.encode_frame a).

Definition with_frame_sequence (frame : DeviceFrame) (sequence : Z) : DeviceFrame :=
  mkDeviceFrame sequence (fr_address frame) (fr_size frame) (fr_bytes frame).

(** [transport_runtimes_[transport_index]->stage(slot, frame)] when there is such a runtime. *)
Definition stage_frame (h : TransportRuntime.heap unit) (runtimes : list nat)
    (transport_index slot : nat) (frame : DeviceFrame) : TransportRuntime.heap unit :=
  match runtimes !! transport_index with
  | None => h
  | Some p =>
      match TransportRuntime.h_runtimes h !! p with
      | None => h
      | Some r => TransportRuntime.put h p (TransportRuntime.stage r slot frame).2
      end
  end.

Definition stage_damiao_command (d : RobotIoDaemon) (index : nat) (value : DamiaoCommandValue)
    : RobotIoDaemon :=
  match mjoin (su_bindings (dm_setup d) !! index), dm_actuators d !! index with
  | Some route, Some actuator =>
      let '(actuator, frame) := damiao_frame actuator value in
      let actuators := <[index := actuator]> (dm_actuators d) in
      match frame with
      | failure _ => with_damiao d actuators (dm_heap d)
      | success frame =>
          with_damiao d actuators
            (stage_frame (dm_heap d) (su_runtimes (dm_setup d)) (db_transport route)
               (db_transmit_slot route) (with_frame_sequence frame (vd_sequence value)))
      end
  | _, _ => d
  end.

(** A value the worker of the endpoint hands to a callback; the published states go to DDS. *)
Definition deliver (now_ns : Z) (d : RobotIoDaemon) (o : DdsDaemonEndpoint.output) : RobotIoDaemon :=
  match o with
  | DdsDaemonEndpoint.out_epoch _ epoch commands => stage_ethercat_epoch d epoch commands now_ns
  | DdsDaemonEndpoint.out_st3215 index command => stage_st3215_command d index command now_ns
  | DdsDaemonEndpoint.out_damiao index command => stage_damiao_command d index command
  | _ => d
  end.

(** One access of the worker of the endpoint, with the callbacks it runs. *)
Definition dds_access (d : RobotIoDaemon) (a : DdsDaemonEndpoint.access) (now_ns : Z) : RobotIoDaemon :=
  match dm_dds d with
  | None => d
  | Some i =>
      let '(i, outputs, _) := DdsDaemonEndpoint.perform i a in
      fold_left (deliver now_ns) outputs (with_dds d (Some i))
  end.

(** [attach_dds]; the other arguments are those of [DdsDaemonEndpoint::create]. *)
Definition attach_dds (d : RobotIoDaemon) (profile : RobotProfile)
    (exists_in : list string -> bool) (exists_absolute : bool) (content : string)
    (current_path : list string) (domain : DdsDaemonEndpoint.domain_outcome) (participant : bool)
    : RobotIoDaemon * Result unit :=
  if negb (dm_configured d) || dm_running d || bool_decide (is_Some (dm_dds d))
  then (d, fail invalid_argument "DDS endpoint requires a configured inactive daemon")
  else
    match (DdsDaemonEndpoint.create exists_in exists_absolute content profile current_path domain
             participant).1 with
    | failure e => (d, failure e)
    | success endpoint => (with_dds d (Some endpoint), success tt)
    end.

(** ** The receive callback of a bus *)

Definition damiao_event (feedback : DamiaoFeedback) (sequence now_ns : Z) : DamiaoSensorEvent :=
  mkDamiaoEvent (mkStamp sequence now_ns sequence 0) (df_position feedback)
    (df_velocity feedback) (df_torque feedback) (df_motor_id feedback) (df_error_code feedback)
    (df_mos_temperature_c feedback) (df_rotor_temperature_c feedback).

(** The first of the members whose sensor accepts the frame. *)
Definition receiver (sensors : list DamiaoConfig) (members : list nat) (frame : DeviceFrame)
    : option (nat * DamiaoConfig) :=
  head (omap (fun candidate =>
    sensor ← sensors !! candidate;
    if DamiaoDevice.accepts sensor frame then Some (candidate, sensor) else None) members).

Definition receive_callback (d : RobotIoDaemon) (members : list nat) (frame : DeviceFrame)
    (sequence now_ns : Z) : RobotIoDaemon :=
  match dm_dds d with
  | None => d
  | Some i =>
      match receiver (su_sensors (dm_setup d)) members frame with
      | None => d
      | Some (global_index, sensor) =>
          match DamiaoDevice.decode sensor frame with
          | failure _ => d
          | success feedback =>
              with_dds d
                (DdsDaemonEndpoint.enqueue_damiao_sensor_realtime (Some i) global_index
                   (damiao_event feedback sequence now_ns)).1
          end
      end
  end.

(** The call of a callback that the runtime at [p] made. *)
Definition run_callback (now_ns : Z) (d : RobotIoDaemon) (call : nat * DeviceFrame * Z)
    : RobotIoDaemon :=
  let '(p, frame, sequence) := call in
  match list_find (eq p) (su_runtimes (dm_setup d)) with
  | Some (k, _) =>
      receive_callback d (default [] (su_members (dm_setup d) !! k)) frame sequence now_ns
  | None => d
  end.

(** A turn of the receive worker of the bus [k], with the callback it runs, and a turn of its
    sending worker.  Where there is no bus [k] there is no worker, and nothing happens. *)
Definition can_receive (d : RobotIoDaemon) (k : nat) (o : SocketCan.read_outcome) (now_ns : Z)
    : option RobotIoDaemon :=
  match su_runtimes (dm_setup d) !! k with
  | None => Some d
  | Some p =>
      h ← TransportRuntime.receive_turn no_transport (dm_heap d) p o;
      Some (fold_left (run_callback now_ns)
        (drop (length (TransportRuntime.h_received (dm_heap d))) (TransportRuntime.h_received h))
        (with_damiao d (dm_actuators d) h))
  end.

Definition can_send (d : RobotIoDaemon) (k : nat) (writes : nat -> Z) : option RobotIoDaemon :=
  match su_runtimes (dm_setup d) !! k with
  | None => Some d
  | Some p =>
      h ← TransportRuntime.cycle_turn no_transport (dm_heap d) p writes;
      Some (with_damiao d (dm_actuators d) h)
  end.

(** ** The accessors *)

Definition axis_snapshot (d : RobotIoDaemon) : DaemonAxisSnapshot :=
  match dm_publication d with
  | Some snapshot => snapshot
  | None =>
      mkAxisSnapshot 0 0 (axis_count d) (replicate max_axes Cia402.disable)
        (replicate max_axes AxisFeedback_zero)
  end.

Definition axis_request (d : RobotIoDaemon) (axis_index : nat) : AxisRequest :=
  let s := axis_snapshot d in
  if (axis_index <? da_axis_count s)%nat
  then default Cia402.disable (da_requests s !! axis_index) else Cia402.disable.

Definition feedback (d : RobotIoDaemon) (axis_index : nat) : AxisFeedback :=
  let s := axis_snapshot d in
  if (axis_index <? da_axis_count s)%nat
  then default AxisFeedback_zero (da_feedback s !! axis_index) else AxisFeedback_zero.

Definition servo_feedback (d : RobotIoDaemon) (servo_index : nat) (now_ns : Z)
    : St3215ServoFeedback :=
  Registry.feedback (dm_serial d) servo_index now_ns.

Definition serial_safety_snapshot (d : RobotIoDaemon) (now_ns : Z)
    : Registry.St3215RegistrySafetySnapshot :=
  Registry.safety_snapshot (dm_serial d) now_ns.

(** [health]. *)
Record DaemonHealth := mkDaemonHealth {
  dh_configured : bool;
  dh_running : bool;
  dh_accepting_commands : bool;
  dh_shutdown_requested : bool;
  dh_shutdown_complete : bool;
  dh_axis_count : nat;
  dh_cycle_sequence : Z;
  dh_last_command_sequence : Z;
  dh_last_command_timestamp_ns : Z;
  dh_metrics : RealtimeLoop.RealtimeLoopMetrics;
  dh_status : Status }.

Definition health (d : RobotIoDaemon) : DaemonHealth :=
  mkDaemonHealth (dm_configured d) (dm_running d) (in_accepting (dm_ingress d))
    (dm_stop_requested d) (dm_shutdown_complete d) (axis_count d) (dm_cycle_sequence d)
    (in_last_sequence (dm_ingress d)) (in_last_timestamp (dm_ingress d))
    (RealtimeLoop.rl_metrics (dm_loop d)) (dm_status d).

End Daemon.
Arguments RobotIoDaemon : clear implicits.
End Daemon.
