(* ===== verification/DaemonCycle.v ===== *)
(** * The cycle of the robot I/O daemon

    [robot_io/daemon/daemon.cpp]: [process_device_cycle_owned], the EtherCAT cycle handler,
    [cycle_owned], [cycle], [refresh_commands] and the guard of the cycle owner.

    The state that the cycle works on is the daemon, the word that names the thread that owns the
    cycle, the thread that runs and the readings of the clock still to come.  The reading a call
    site does not make because of a branch is skipped.  The EtherCAT master is next to the daemon:
    the daemon is the context of the handler it installs. *)
From S2P Require Export Daemon EthercatMaster.

Module DaemonCycle.
Import DdsTypes CommandIngress Daemon.
Open Scope list_scope.
Open Scope Z_scope.

Section Cycle.
Context {L : Type} `{SerialLink L}.

(** ** One evaluation of the devices *)

Definition safety_bus_state (domain : DomainHealth) (process_data_valid : bool)
    (external_stop_axes_mask : Z) : SafetyBusState :=
  mkSafetyBusState (dh_working_counter domain) (default 0 (dh_expected_working_counter domain))
    (bool_decide (is_Some (dh_expected_working_counter domain)))
    (dh_working_counter_complete domain) (dh_link_up domain) (dh_all_slaves_operational domain)
    process_data_valid (dh_operational_axes_mask domain) external_stop_axes_mask
    (dh_dc_deviation_ns domain).

(** The axes that the faults of the servos stop. *)
Definition serial_stop_mask (masks : list Z) (serial_safety : Registry.St3215RegistrySafetySnapshot) : Z :=
  fold_left (fun mask servo =>
    if negb (Z.land (Registry.ss_fault_mask serial_safety) (u32 (Z.shiftl 1 (Z.of_nat servo))) =? 0)
    then Z.lor mask (default 0 (masks !! servo)) else mask)
    (seq 0 (Z.to_nat (Registry.ss_servo_count serial_safety))) 0.

(** The state machines of the axes on the decisions of the supervisor, in order; the views are
    updated in place. *)
Fixpoint axis_loop (sequence now_ns : Z) (axes : list Axis.Axis) (commands : list AxisCommand)
    (flags : list Z) (pdos : list Cia402PdoView)
    : list Axis.Axis * list Cia402PdoView * list AxisFeedback :=
  match axes, commands, flags, pdos with
  | axis :: axes, command :: commands, extra :: flags, pdo :: pdos =>
      let '(axis, pdo, value) := Axis.cycle axis command pdo in
      let value :=
        mkAxisFeedback sequence now_ns (af_position value) (af_velocity value) (af_effort value)
          (af_status_word value) (Z.lor (af_flags value) extra) (af_mode_display value) in
      let '(axes, pdos, values) := axis_loop sequence now_ns axes commands flags pdos in
      (axis :: axes, pdo :: pdos, value :: values)
  | _, _, _, _ => (axes, pdos, [])
  end.

Definition cia402_event (sequence now_ns : Z) (value : AxisFeedback) : Cia402SensorEvent :=
  mkCia402Event (mkStamp sequence now_ns sequence (af_flags value)) (af_position value)
    (af_velocity value) (af_effort value) (u16 (af_status_word value)) (af_mode_display value).

(** The sensor states of the axes. *)
Definition publish_axes (sequence now_ns : Z) (values : list AxisFeedback)
    (e : option DdsDaemonEndpoint.Impl) : option DdsDaemonEndpoint.Impl :=
  fold_left (fun e iv =>
    match e with
    | None => None
    | Some _ =>
        (DdsDaemonEndpoint.enqueue_cia402_sensor_realtime e iv.1
           (cia402_event sequence now_ns iv.2)).1
    end) (imap pair values) e.

(** [request_shutdown] when a stop was requested, which also ends the intake of commands. *)
Definition apply_stop (d : RobotIoDaemon L) (now_ns : Z) : RobotIoDaemon L :=
  if dm_stop_requested d
  then
    with_ingress d (set_accepting
      (set_safety (dm_ingress d) (Supervisor.request_shutdown (in_safety (dm_ingress d)) now_ns)) false)
  else d.

(** The atomics written after the evaluation. *)
Definition evaluated_status (s : Status) (domain : DomainHealth) (process_data_valid : bool)
    (serial_safety : Registry.St3215RegistrySafetySnapshot) (wkc_failures safety_flags now_ns : Z)
    : Status :=
  mkStatus (dh_working_counter domain) (default 0 (dh_expected_working_counter domain))
    wkc_failures safety_flags process_data_valid (dh_dc_deviation_ns domain) now_ns
    (Registry.ss_servo_count serial_safety) (Registry.ss_fault_count serial_safety)
    (Registry.ss_aggregate_flags serial_safety) (st_timing_fault s) (st_sleep_error s)
    (st_realtime_guarantee s).

Definition with_process_data (s : Status) (valid : bool) : Status :=
  mkStatus (st_working_counter s) (st_expected_working_counter s) (st_consecutive_wkc_failures s)
    (st_safety_flags s) valid (st_dc_deviation_ns s) (st_feedback_timestamp_ns s)
    (st_serial_servo_count s) (st_serial_fault_count s) (st_serial_safety_flags s)
    (st_timing_fault s) (st_sleep_error s) (st_realtime_guarantee s).

(** [bus_state]: what the supervisor is told of the domain and of the servos. *)
Definition bus_state (d : RobotIoDaemon L) (domain : DomainHealth) (process_data_valid : bool)
    (now_ns : Z) : SafetyBusState :=
  safety_bus_state domain process_data_valid
    (serial_stop_mask (su_stop_masks (dm_setup d)) (Registry.safety_snapshot (dm_serial d) now_ns)).

(** The part of a cycle after the commands have been consumed. *)
Definition evaluate_devices (d : RobotIoDaemon L) (pdos : list Cia402PdoView)
    (domain : DomainHealth) (process_data_valid : bool) (now_ns : Z)
    : RobotIoDaemon L * list Cia402PdoView :=
  let n := axis_count d in
  let d := apply_stop d now_ns in
  let serial_safety := Registry.safety_snapshot (dm_serial d) now_ns in
  let '(safety, decisions) :=
    Supervisor.evaluate (in_safety (dm_ingress d)) (bus_state d domain process_data_valid now_ns)
      pdos now_ns in
  let '(axes, pdos, values) :=
    axis_loop (sv_last_command_sequence safety) now_ns (dm_axes d)
      (se_commands decisions) (se_feedback_flags decisions) pdos in
  let sequence := u64 (dm_cycle_sequence d + 1) in
  let safety_flags := fold_left Z.lor (take n (se_feedback_flags decisions)) 0 in
  let feedback := values ++ drop (length values) (dm_feedback d) in
  let dds := if process_data_valid then publish_axes sequence now_ns values (dm_dds d) else dm_dds d in
  let publication :=
    mkAxisSnapshot sequence now_ns n
      (take n (se_requests decisions) ++ replicate (max_axes - n) Cia402.disable)
      (take n feedback ++ replicate (max_axes - n) AxisFeedback_zero) in
  (mkDaemon (dm_setup d) (dm_configured d) (dm_running d) (dm_stop_requested d)
     (se_shutdown_complete decisions) (set_safety (dm_ingress d) safety) (dm_serial d)
     (dm_actuators d) axes (dm_pdos d) feedback (dm_heap d) dds (dm_scheduler d) (dm_loop d)
     sequence
     (evaluated_status (dm_status d) domain process_data_valid serial_safety
        (sv_consecutive_wkc_failures safety) safety_flags now_ns)
     (Some publication), pdos).

(** [consumed_ns] is the clock when the command is given to the supervisor. *)
Definition process_device_cycle_owned (d : RobotIoDaemon L) (pdos : list Cia402PdoView)
    (domain : DomainHealth) (process_data_valid : bool) (consumed_ns now_ns : Z)
    : RobotIoDaemon L * list Cia402PdoView :=
  if negb (dm_running d) || negb (Nat.eqb (length pdos) (axis_count d))
  then (with_status d (with_process_data (dm_status d) false), pdos)
  else
    evaluate_devices
      (with_ingress d (consume_staged_commands (dm_ingress d) consumed_ns).1)
      pdos domain process_data_valid now_ns.

(** ** The owner of the cycle *)

Record machine := mkMachine {
  mc_daemon : RobotIoDaemon L;
  mc_owner : Z;                       (* cycle_owner_token_; 0: free *)
  mc_thread : Z;                      (* gettid *)
  mc_clock : nat -> Z;                (* the readings of the clock *)
  mc_ticks : nat }.                   (* the readings already made *)

Definition with_daemon (m : machine) (d : RobotIoDaemon L) (ticks : nat) : machine :=
  mkMachine d (mc_owner m) (mc_thread m) (mc_clock m) (mc_ticks m + ticks).

Definition set_owner (m : machine) (owner : Z) : machine :=
  mkMachine (mc_daemon m) owner (mc_thread m) (mc_clock m) (mc_ticks m).

(** The reading of the clock at the site [k] from here. *)
Definition clock_at (m : machine) (k : nat) : Z := mc_clock m (mc_ticks m + k).

Definition owns_cycle (m : machine) : bool := mc_owner m =? mc_thread m.

(** [CycleOwnerGuard]: the body runs when the exchange of the free word succeeds, and the word
    is freed after it. *)
Definition guarded {A} (m : machine) (body : machine -> machine * A) (otherwise : A) : machine * A :=
  if mc_owner m =? 0
  then let '(m', a) := body (set_owner m (mc_thread m)) in (set_owner m' 0, a)
  else (m, otherwise).

Definition refresh_commands_owned (m : machine) : machine * CommandAcceptance :=
  let d := mc_daemon m in
  let '(i, acceptance) := CommandIngress.refresh_commands_owned (dm_ingress d) (clock_at m 0) in
  (with_daemon m (with_ingress d i) 1, acceptance).

Definition refresh_commands (m : machine) : machine * CommandAcceptance :=
  guarded m refresh_commands_owned Safety.rejected.

(** [process_device_cycle_owned] with the readings of the clock it makes. *)
Definition process_owned (m : machine) (pdos : list Cia402PdoView) (domain : DomainHealth)
    (process_data_valid : bool) : machine * list Cia402PdoView :=
  let '(d, pdos) :=
    process_device_cycle_owned (mc_daemon m) pdos domain process_data_valid (clock_at m 0)
      (clock_at m 1) in
  (with_daemon m d 2, pdos).

Definition process_device_cycle (m : machine) (pdos : list Cia402PdoView) (domain : DomainHealth)
    (process_data_valid : bool) : machine * list Cia402PdoView :=
  guarded m (fun m => process_owned m pdos domain process_data_valid) pdos.

(** The handler installed in the master; [context] is the daemon. *)
Definition ethercat_cycle_handler (context : Z) (m : machine) (pdos : list Cia402PdoView)
    (domain : DomainHealth) (process_data_valid : bool) : machine * list Cia402PdoView :=
  if owns_cycle m then process_owned m pdos domain process_data_valid else (m, pdos).

(** ** The cycle *)

(** The state of the servos for DDS, one channel per exposed sensor. *)
Definition st3215_event (feedback : St3215ServoFeedback) (bus_cycle : Z) : St3215SensorEvent :=
  mkSt3215Event
    (mkStamp (sf_feedback_sequence feedback) (sf_timestamp_ns feedback) bus_cycle (sf_flags feedback))
    (sf_position_rad feedback) (u16 (sf_raw_position feedback)) (u16 (sf_status_error feedback)).

Definition publishable (feedback : St3215ServoFeedback) : bool :=
  has_flag (sf_flags feedback) kSt3215FeedbackValid &&
  negb (has_flag (sf_flags feedback) kSt3215FeedbackStale).

Definition publish_servo (d : RobotIoDaemon L) (bus_cycle now_ns : Z)
    (e : DdsDaemonEndpoint.Impl) (servo : nat) : DdsDaemonEndpoint.Impl :=
  match mjoin (su_sensor_indices (dm_setup d) !! servo) with
  | None => e
  | Some dds_index =>
      let feedback := Registry.feedback (dm_serial d) servo now_ns in
      if publishable feedback
      then
        default e (DdsDaemonEndpoint.enqueue_st3215_sensor_realtime (Some e) dds_index
          (st3215_event feedback bus_cycle)).1
      else e
  end.

Definition publish_servos (d : RobotIoDaemon L) (bus_cycle now_ns : Z) : RobotIoDaemon L :=
  match dm_dds d with
  | None => d
  | Some e =>
      with_dds d (Some (fold_left (publish_servo d bus_cycle now_ns)
        (seq 0 (Registry.servo_count (dm_serial d))) e))
  end.

(** Without a master the axes are simulated: the domain is a complete one. *)
Definition standalone_domain (n : nat) : DomainHealth :=
  mkDomainHealth 1 (Some 1) true true true 0
    (if Nat.eqb n 0 then 0 else u16 (Z.shiftl 1 (Z.of_nat n) - 1)).

Definition standalone_cycle (m : machine) : machine :=
  let d := mc_daemon m in
  let n := axis_count d in
  let '(m, pdos) := process_owned m (take n (dm_pdos d)) (standalone_domain n) true in
  with_daemon m (with_pdos (mc_daemon m) (pdos ++ drop n (dm_pdos d))) 0.

Section Master.
Context {B : Type} `{EthercatBackend B}.

Abbreviation EthercatMaster := (Master.EthercatMaster B machine).

(** The serial buses, the DDS state of the servos, then the master or the simulated axes. *)
Definition before_exchange (m : machine) (ctx : RealtimeLoop.CycleContext) : machine :=
  let '(m, _) := refresh_commands_owned m in
  let d := mc_daemon m in
  let m :=
    with_daemon m (with_serial d (Registry.cycle (dm_serial d) (clock_at m)) (dm_scheduler d))
      (length (Registry.rg_buses (dm_serial d))) in
  with_daemon m
    (publish_servos (mc_daemon m) (RealtimeLoop.cx_sequence ctx) (clock_at m 0)) 1.

Definition finish_cycle (m : machine) : machine :=
  let d := mc_daemon m in
  with_daemon m (with_loop d (RealtimeLoop.observe_finish (dm_loop d) (clock_at m 0))) 1.

Definition cycle_owned (m : machine) (master : option EthercatMaster)
    (ctx : RealtimeLoop.CycleContext) : machine * option EthercatMaster :=
  let m := before_exchange m ctx in
  let '(m, master) :=
    match master with
    | Some ec => let '(m, ec) := Master.cycle m ec in (m, Some ec)
    | None => (standalone_cycle m, None)
    end in
  (finish_cycle m, master).

Definition cycle_context (m : machine) (now_ns : Z) : RealtimeLoop.CycleContext :=
  RealtimeLoop.mkContext (u64 (dm_cycle_sequence (mc_daemon m) + 1)) now_ns
    (RealtimeLoop.lc_period_ns (RealtimeLoop.rl_config (dm_loop (mc_daemon m)))).

Definition cycle (m : machine) (master : option EthercatMaster) : machine * option EthercatMaster :=
  guarded m (fun m =>
    let now_ns := clock_at m 0 in
    cycle_owned (with_daemon m (mc_daemon m) 1) master (cycle_context m now_ns)) master.

End Master.
End Cycle.
Arguments machine : clear implicits.

(** ** The daemon is configured from a profile *)

Lemma has_flag_bit flags n : has_flag flags (Z.shiftl 1 (Z.of_nat n)) = Z.testbit flags (Z.of_nat n).
Proof.
  unfold has_flag. replace (Z.shiftl 1 (Z.of_nat n)) with (Z.setbit 0 (Z.of_nat n))
    by (by rewrite Z.setbit_spec', Z.lor_0_l, Z.shiftl_1_l).
  destruct (Z.testbit flags (Z.of_nat n)) eqn:E.
  - apply negb_true_iff, Z.eqb_neq. intros H.
    assert (Z.testbit (Z.land flags (Z.setbit 0 (Z.of_nat n))) (Z.of_nat n) = true) as Hb.
    { rewrite Z.land_spec, E, Z.setbit_eq by lia. done. }
    rewrite H, Z.bits_0 in Hb. done.
  - apply negb_false_iff, Z.eqb_eq. apply Z.bits_inj'. intros k Hk.
    rewrite Z.land_spec, Z.bits_0. destruct (decide (k = Z.of_nat n)) as [->|Hn].
    + by rewrite E.
    + rewrite Z.setbit_neq, Z.bits_0 by lia. apply andb_false_r.
Qed.

Section Servos.
Context {L : Type} `{SerialLink L}.
Import Bus Registry.

Lemma latch_length s i servo r flags now_ns :
  length (s_servos (latch (L := L) s i servo r flags now_ns)) = length (s_servos s).
Proof. unfold latch. destruct (failed_feedback _ _ _ _ _). cbn. apply length_insert. Qed.

Lemma poll_response_length s i now_ns :
  length (s_servos (poll_response (L := L) s i now_ns)) = length (s_servos s).
Proof.
  unfold poll_response. destruct (_ !! i) as [r|]; [|done]. destruct (_ !! _) as [servo|]; [|done].
  cbv zeta. destruct (consume_response _ _ _ _) as [[l r'] [value|e]].
  - cbn. apply length_insert.
  - repeat case_match; rewrite ?latch_length; done.
Qed.

Lemma dispatch_length s i now_ns :
  length (s_servos (dispatch (L := L) s i now_ns)) = length (s_servos s).
Proof.
  unfold dispatch. destruct (_ !! i) as [r|]; [|done]. destruct (_ !! _) as [servo|]; [|done].
  cbv zeta. destruct (send_request _ _ _) as [[l r'] [value|e]]; [done|]. by rewrite latch_length.
Qed.

Lemma bus_cycle_length s now_ns :
  length (s_servos (Bus.cycle (L := L) s now_ns)) = length (s_servos s).
Proof.
  unfold Bus.cycle. destruct (_ || _); [done|]. cbv zeta. cbn [with_bus s_bus].
  destruct (bs_fault_latched _).
  - unfold report_latched. destruct (_ !! _) as [r|]; [|done]. destruct (_ !! _) as [servo|]; [|done].
    by rewrite latch_length.
  - match goal with |- length (s_servos (if _ then ?s1 else _)) = _ =>
      assert (length (s_servos s1) = length (s_servos s)) as Hl by
        (destruct (bs_dispatched _); [by rewrite poll_response_length|done]) end.
    destruct (bs_fault_latched _); [exact Hl|]. cbn [with_bus s_servos].
    rewrite dispatch_length. exact Hl.
Qed.

Lemma cycle_loop_length buses : forall servos clock,
  length (cycle_loop (L := L) buses servos clock).2 = length servos.
Proof.
  induction buses as [|entry buses IH]; intros servos clock; [done|]. cbn.
  destruct (cycle_loop buses _ _) as [buses' servos'] eqn:E. cbn.
  replace servos' with (cycle_loop buses (s_servos (Bus.cycle (mkState (be_bus entry) servos) (clock 0%nat)))
    (fun i => clock (S i))).2 by by rewrite E.
  rewrite IH, bus_cycle_length. done.
Qed.

Lemma registry_cycle_length g clock :
  length (rg_servos (Registry.cycle (L := L) g clock)) = length (rg_servos g).
Proof.
  unfold Registry.cycle. destruct (rg_running g); [|done]. cbn.
  pose proof (cycle_loop_length (rg_buses g) (rg_servos g) clock) as Hl.
  by destruct (cycle_loop _ _ _).
Qed.

Lemma registry_stage_length g index command now_ns :
  length (rg_servos (Registry.stage_command (L := L) g index command now_ns).1) = length (rg_servos g).
Proof.
  unfold Registry.stage_command. destruct (_ !! _) as [servo|]; [|done].
  destruct (Servo.stage_command _ _ _). cbn. apply length_insert.
Qed.

(** The axes of a faulty servo are in the mask. *)
Lemma serial_stop_mask_bit g masks now_ns axis servo :
  (length (rg_servos g) <= kMaximumSt3215Servos)%nat ->
  Z.testbit (serial_stop_mask masks (safety_snapshot (L := L) g now_ns)) (Z.of_nat axis) = false ->
  (servo < length (rg_servos g))%nat ->
  Z.testbit (default 0 (masks !! servo)) (Z.of_nat axis) = true ->
  has_flag (sf_flags (Registry.feedback g servo now_ns)) kFaultFlags = false.
Proof.
  intros Hmax Hbit Hs Hm. unfold serial_stop_mask in Hbit.
  pose proof (RegistryFacts.safety_loop_spec now_ns (rg_servos g) 0
    (mkSafetySnapshot (u32 (Z.of_nat (length (rg_servos g)))) 0 0 0 (replicate kMaximumSt3215Servos 0))
    Hmax eq_refl ltac:(cbn; lia)) as (_ & _ & H3 & _ & H5). cbv zeta in H3, H5.
  fold (safety_snapshot g now_ns) in H3, H5. set (snapshot := safety_snapshot g now_ns) in *.
  assert (ss_servo_count snapshot = Z.of_nat (length (rg_servos g))) as Hn.
  { rewrite H5. cbn. apply wrap_small. unfold is_word, kMaximumSt3215Servos in *. lia. }
  rewrite Hn, Nat2Z.id in Hbit.
  destruct (lookup_lt_is_Some_2 _ _ Hs) as [sv Hsv].
  unfold Registry.feedback. rewrite Hsv.
  specialize (H3 servo). rewrite Nat.sub_0_r, Hsv in H3. cbn [ss_fault_mask] in H3.
  rewrite Z.bits_0 in H3. cbn [orb andb Nat.leb] in H3. unfold RegistryFacts.faulty in H3.
  rewrite <- H3. apply not_true_is_false. intros Hf. revert Hbit. apply not_false_iff_true.
  assert (forall l acc, Z.testbit acc (Z.of_nat axis) = true \/ servo ∈ l ->
    Z.testbit (fold_left (fun mask servo =>
      if negb (Z.land (ss_fault_mask snapshot) (u32 (Z.shiftl 1 (Z.of_nat servo))) =? 0)
      then Z.lor mask (default 0 (masks !! servo)) else mask) l acc) (Z.of_nat axis) = true) as Hfold.
  { induction l as [|k l IH]; intros acc Ho; [by destruct Ho as [|Hin%elem_of_nil]|]. cbn.
    apply IH. destruct Ho as [Ha|[->|Hin]%elem_of_cons].
    - left. destruct (negb _); [by rewrite Z.lor_spec, Ha|done].
    - left. assert (u32 (Z.shiftl 1 (Z.of_nat k)) = Z.shiftl 1 (Z.of_nat k)) as ->.
      { apply wrap_small. unfold is_word. rewrite Z.shiftl_1_l. split; [lia|].
        apply Z.pow_lt_mono_r; unfold kMaximumSt3215Servos in *; lia. }
      pose proof (has_flag_bit (ss_fault_mask snapshot) k) as Hh. unfold has_flag in Hh.
      rewrite Hh, Hf, Z.lor_spec, Hm. apply orb_true_r.
    - by right. }
  apply Hfold. right. apply elem_of_seq. lia.
Qed.
End Servos.

(** *** What the operations keep *)

Section Facts.
Context {L : Type} `{SerialLink L}.

(** The members that [configure] fixes. *)
Record keeps_setup (d d' : RobotIoDaemon L) : Prop := {
  ks_setup_same : dm_setup d' = dm_setup d;
  ks_configured : dm_configured d' = dm_configured d;
  ks_axes : map Axis.config (dm_axes d') = map Axis.config (dm_axes d);
  ks_servos : length (Registry.rg_servos (dm_serial d')) = length (Registry.rg_servos (dm_serial d));
  ks_limits : sv_configs (in_safety (dm_ingress d')) = sv_configs (in_safety (dm_ingress d));
  ks_count : sv_axis_count (in_safety (dm_ingress d')) = sv_axis_count (in_safety (dm_ingress d));
  ks_ready : sv_configured (in_safety (dm_ingress d')) = sv_configured (in_safety (dm_ingress d));
  ks_options : sv_options (in_safety (dm_ingress d')) = sv_options (in_safety (dm_ingress d)) }.

#[export] Instance keeps_setup_preorder : PreOrder keeps_setup.
Proof.
  split.
  - intros d. by split.
  - intros d1 d2 d3 [] []. split; congruence.
Qed.

(** The daemon is the one [configure] makes of the axes and servos of the profile. *)
Record daemon_for (profile : RobotProfile) (d : RobotIoDaemon L) : Prop := {
  df_configured : dm_configured d = true;
  df_axis_configurations : su_axis_configurations (dm_setup d) = rp_axes profile;
  df_axes : map Axis.config (dm_axes d) = rp_axes profile;
  df_small : (length (rp_axes profile) <= max_axes)%nat;
  df_ready : sv_configured (in_safety (dm_ingress d)) = true;
  df_options : Supervisor.valid_options (sv_options (in_safety (dm_ingress d))) = true;
  df_count : sv_axis_count (in_safety (dm_ingress d)) = length (rp_axes profile);
  df_limits : forall i a, rp_axes profile !! i = Some a ->
    Supervisor.config_at (in_safety (dm_ingress d)) i =
    Supervisor.safety_config a (Supervisor.group_at (in_safety (dm_ingress d)) i);
  df_groups : forall i j a b, rp_axes profile !! i = Some a -> rp_axes profile !! j = Some b ->
    Supervisor.group_at (in_safety (dm_ingress d)) i = Supervisor.group_at (in_safety (dm_ingress d)) j <->
    i = j \/ (ax_safety_group a = ax_safety_group b /\ ax_safety_group a <> EmptyString);
  df_servos : length (Registry.rg_servos (dm_serial d)) = length (rp_st3215_servos profile);
  df_servos_small : (length (rp_st3215_servos profile) <= kMaximumSt3215Servos)%nat;
  df_masks : forall k servo i a,
    rp_st3215_servos profile !! k = Some servo -> rp_axes profile !! i = Some a ->
    Z.testbit (default 0 (su_stop_masks (dm_setup d) !! k)) (Z.of_nat i) =
    String.eqb (pf_safety_group servo) (ax_safety_group a) }.

Lemma daemon_for_keeps profile d d' : keeps_setup d d' -> daemon_for profile d -> daemon_for profile d'.
Proof.
  intros [Hs Hc Ha Hv Hl Hn Hr Ho] [H1 H2 H3 H4 H5 H6 H7 H8 H9 H10 H11 H12].
  assert (forall i, Supervisor.config_at (in_safety (dm_ingress d')) i =
    Supervisor.config_at (in_safety (dm_ingress d)) i) as Hcfg.
  { intros i. unfold Supervisor.config_at. by rewrite Hl. }
  split; try congruence; unfold Supervisor.group_at in *; intros *; rewrite ?Hcfg, ?Hs; auto.
Qed.

Lemma axis_cycle_config a command pdo : Axis.config (Axis.cycle a command pdo).1.1 = Axis.config a.
Proof. unfold Axis.cycle. destruct (Axis.decide_cycle _ _ _) as [[[? ?] ?] ?]. by destruct (StateMachine.update _ _ _) as [? []]. Qed.

Lemma axis_loop_config sequence now_ns axes : forall commands flags pdos,
  map Axis.config (axis_loop sequence now_ns axes commands flags pdos).1.1 = map Axis.config axes.
Proof.
  induction axes as [|a axes IH]; intros [|c commands] [|f flags] [|p pdos]; try done. cbn.
  pose proof (axis_cycle_config a c p) as Ha. destruct (Axis.cycle a c p) as [[a' p'] v].
  specialize (IH commands flags pdos). destruct (axis_loop _ _ _ _ _ _) as [[? ?] ?].
  cbn in *. by f_equal.
Qed.

Lemma axis_loop_lookup sequence now_ns axes : forall commands flags pdos i a c f p,
  axes !! i = Some a -> commands !! i = Some c -> flags !! i = Some f -> pdos !! i = Some p ->
  (axis_loop sequence now_ns axes commands flags pdos).1.2 !! i = Some (Axis.pdo_of (Axis.cycle a c p)) /\
  (axis_loop sequence now_ns axes commands flags pdos).1.1 !! i = Some (Axis.axis_of (Axis.cycle a c p)).
Proof.
  induction axes as [|a0 axes IH]; intros [|c0 commands] [|f0 flags] [|p0 pdos] i a c f p; try done.
  intros Ha Hc Hf Hp. cbn. destruct (Axis.cycle a0 c0 p0) as [[a' p'] v] eqn:E.
  destruct (axis_loop _ _ axes commands flags pdos) as [[axes' pdos'] values] eqn:El. destruct i as [|i]; cbn in *.
  - simplify_eq. by rewrite E.
  - destruct (IH commands flags pdos i a c f p Ha Hc Hf Hp) as [H1 H2]. rewrite El in H1, H2. done.
Qed.

Lemma consume_frame i now_ns :
  let v := in_safety i in let v' := in_safety (consume_staged_commands i now_ns).1 in
  sv_configs v' = sv_configs v /\ sv_axis_count v' = sv_axis_count v /\
  sv_configured v' = sv_configured v /\ sv_states v' = sv_states v /\
  sv_options v' = sv_options v /\ sv_shutdown_requested v' = sv_shutdown_requested v.
Proof.
  unfold consume_staged_commands, finish_consume. cbv zeta.
  destruct (negb _).
  - pose proof (Supervisor.accept_frame (in_safety i) invalid_snapshot now_ns) as Hf.
    destruct (Supervisor.accept_commands _ _ _) as [v a]. cbn in *. tauto.
  - destruct (in_handoff i) as [[n snapshot]|]; [|done]. destruct (_ || _); [done|].
    pose proof (Supervisor.accept_frame (in_safety i) snapshot now_ns) as Hf.
    destruct (Supervisor.accept_commands _ _ _) as [v a]. cbn in *. tauto.
Qed.

Lemma stage_safety i snapshot now_ns :
  in_safety (CommandIngress.stage_commands i snapshot now_ns).1 = in_safety i.
Proof. unfold CommandIngress.stage_commands. destruct (negb _); [done|]. by destruct (Supervisor.accept_commands _ _ _) as [v []]. Qed.

Lemma stage_commands_keeps d snapshot now_ns : keeps_setup d (Daemon.stage_commands d snapshot now_ns).1.
Proof.
  unfold Daemon.stage_commands. pose proof (stage_safety (dm_ingress d) snapshot now_ns) as Hs.
  destruct (CommandIngress.stage_commands _ _ _) as [i a]. cbn in *.
  split; cbn; rewrite ?Hs; done.
Qed.

Lemma stage_servo_keeps d index command now_ns :
  keeps_setup d (Daemon.stage_servo_command d index command now_ns).1.
Proof.
  unfold Daemon.stage_servo_command. destruct (negb _); [reflexivity|].
  pose proof (registry_stage_length (dm_serial d) index command now_ns) as Hl.
  destruct (Registry.stage_command _ _ _ _). by split.
Qed.

Lemma deliver_keeps now_ns d o : keeps_setup d (deliver now_ns d o).
Proof.
  destruct o; cbn; try reflexivity.
  - unfold stage_ethercat_epoch. destruct (negb _); [reflexivity|]. apply stage_commands_keeps.
  - unfold stage_damiao_command. repeat case_match; by split.
  - apply stage_servo_keeps.
Qed.

Lemma fold_keeps {A} (f : RobotIoDaemon L -> A -> RobotIoDaemon L) (l : list A) :
  (forall d a, keeps_setup d (f d a)) -> forall d, keeps_setup d (fold_left f l d).
Proof. intros Hf. induction l as [|a l IH]; intros d; [reflexivity|]. cbn. etransitivity; [apply Hf|apply IH]. Qed.

Lemma dds_access_keeps d a now_ns : keeps_setup d (dds_access d a now_ns).
Proof.
  unfold dds_access. destruct (dm_dds d); [|reflexivity].
  destruct (DdsDaemonEndpoint.perform _ _) as [[i' outputs] ?].
  transitivity (with_dds d (Some i')); [by split|]. apply fold_keeps. intros. apply deliver_keeps.
Qed.

Lemma can_receive_keeps d k o now_ns d' : can_receive d k o now_ns = Some d' -> keeps_setup d d'.
Proof.
  unfold can_receive. intros H'. destruct (_ !! k) as [p|]; [|injection H' as <-; reflexivity].
  apply bind_Some in H' as (h & _ & [= <-]).
  etransitivity; [|apply fold_keeps]; [by split|].
  intros d0 [[q frame] sequence]. unfold run_callback. destruct (list_find _ _) as [[? ?]|]; [|reflexivity].
  unfold receive_callback. repeat case_match; by split.
Qed.

Lemma can_send_keeps d k writes d' : can_send d k writes = Some d' -> keeps_setup d d'.
Proof.
  unfold can_send. intros H'. destruct (_ !! k) as [p|]; [|injection H' as <-; reflexivity].
  apply bind_Some in H' as (h & _ & [= <-]).
  by split.
Qed.

Lemma process_keeps d pdos domain valid consumed_ns now_ns :
  keeps_setup d (process_device_cycle_owned d pdos domain valid consumed_ns now_ns).1.
Proof.
  unfold process_device_cycle_owned. destruct (_ || _); [by split|].
  set (d1 := with_ingress d _).
  transitivity d1.
  { pose proof (consume_frame (dm_ingress d) consumed_ns) as Hf. cbv zeta in Hf. split; cbn; tauto. }
  unfold evaluate_devices. cbv zeta.
  assert (keeps_setup d1 (apply_stop d1 now_ns)) as Hk.
  { unfold apply_stop. destruct (dm_stop_requested d1); [|reflexivity].
    unfold Supervisor.request_shutdown.
    by destruct (sv_shutdown_requested (in_safety (dm_ingress d1))); split. }
  etransitivity; [exact Hk|]. set (d2 := apply_stop d1 now_ns).
  pose proof (Supervisor.evaluate_frame (in_safety (dm_ingress d2)) (bus_state d2 domain valid now_ns)
    pdos now_ns) as Hf.
  destruct (Supervisor.evaluate _ _ _ _) as [safety decisions]. cbn in Hf.
  pose proof (axis_loop_config (sv_last_command_sequence safety) now_ns (dm_axes d2)
    (se_commands decisions) (se_feedback_flags decisions) pdos) as Ha.
  destruct (axis_loop _ _ _ _ _ _) as [[axes pdos'] values]. cbn in Ha |- *.
  split; cbn; try done; tauto.
Qed.

Lemma servos_keeps d ctx_sequence now_ns : keeps_setup d (publish_servos d ctx_sequence now_ns).
Proof. unfold publish_servos. destruct (dm_dds d); by split. Qed.

Lemma serial_cycle_keeps d clock :
  keeps_setup d (with_serial d (Registry.cycle (dm_serial d) clock) (dm_scheduler d)).
Proof. pose proof (registry_cycle_length (dm_serial d) clock). by split. Qed.

Lemma before_exchange_keeps m ctx : keeps_setup (mc_daemon m) (mc_daemon (before_exchange m ctx)).
Proof.
  unfold before_exchange, refresh_commands_owned.
  pose proof (consume_frame (dm_ingress (mc_daemon m)) (clock_at m 0)) as Hf. cbv zeta in Hf.
  unfold CommandIngress.refresh_commands_owned.
  destruct (consume_staged_commands _ _) as [i acceptance]. cbn in Hf |- *.
  transitivity (with_ingress (mc_daemon m) i); [split; cbn; tauto|].
  etransitivity; [|apply servos_keeps]. exact (serial_cycle_keeps (with_ingress (mc_daemon m) i) _).
Qed.

Lemma process_owned_keeps m pdos domain valid :
  keeps_setup (mc_daemon m) (mc_daemon (process_owned m pdos domain valid).1).
Proof.
  unfold process_owned.
  pose proof (process_keeps (mc_daemon m) pdos domain valid (clock_at m 0) (clock_at m 1)) as Hk.
  by destruct (process_device_cycle_owned _ _ _ _ _ _).
Qed.

Lemma standalone_keeps m : keeps_setup (mc_daemon m) (mc_daemon (standalone_cycle m)).
Proof.
  unfold standalone_cycle. cbv zeta.
  match goal with |- context [process_owned m ?p ?dom true] =>
    pose proof (process_owned_keeps m p dom true) as Hk; destruct (process_owned m p dom true) as [m' pdos] end.
  cbn in Hk |- *. etransitivity; [exact Hk|]. by split.
Qed.


(** ** What an enabled drive means *)

Lemma array_of_length {A} (zero : A) xs : (max_axes <= length (Supervisor.array_of zero xs))%nat.
Proof. unfold Supervisor.array_of. rewrite length_app, length_replicate. lia. Qed.

Lemma array_of_lookup_inv {A} (zero : A) xs i x :
  Supervisor.array_of zero xs !! i = Some x -> xs !! i = Some x \/ x = zero.
Proof.
  unfold Supervisor.array_of. intros [Hx|[_ Hx]]%lookup_app_Some; [by left|].
  right. by apply lookup_replicate in Hx as [-> _].
Qed.

Lemma evaluate_lengths s bus pdos now_ns :
  (max_axes <= length (se_commands (Supervisor.evaluate s bus pdos now_ns).2))%nat /\
  (max_axes <= length (se_feedback_flags (Supervisor.evaluate s bus pdos now_ns).2))%nat.
Proof. unfold Supervisor.evaluate. destruct (_ || _); split; apply array_of_length. Qed.

(** A command for an axis that says enable comes from a decision to enable, with the target of the
    command in force. *)
Lemma evaluate_command_enable s bus pdos now_ns i c :
  se_commands (Supervisor.evaluate s bus pdos now_ns).2 !! i = Some c ->
  ac_flags c = kAxisCommandEnable ->
  se_requests (Supervisor.evaluate s bus pdos now_ns).2 !! i = Some Cia402.enable /\
  ac_target c = ac_target (Supervisor.command_at s i).
Proof.
  intros Hc He. unfold Supervisor.evaluate in *. destruct (_ || _).
  - exfalso. cbn in Hc. apply array_of_lookup_inv in Hc as [Hc| ->]; [|done].
    by apply lookup_replicate in Hc as [-> _].
  - cbn in Hc |- *. apply array_of_lookup_inv in Hc as [Hc| ->]; [|done].
    change (map Supervisor.oc_command) with (fmap (M:=list) Supervisor.oc_command) in Hc.
    apply list_lookup_fmap_Some in Hc as (o & -> & Ho).
    assert (Supervisor.oc_decision o = Cia402.enable /\
      ac_target (Supervisor.oc_command o) = ac_target (Supervisor.command_at s i)) as [Hd Ht].
    { apply Supervisor.outcomes_lookup in Ho as (_ & m & _ & ->). unfold Supervisor.outcome in *.
      destruct (Supervisor.settle _ _ _ _ _ _) as [st d]. cbn in *. by destruct d. }
    split; [|exact Ht]. apply Supervisor.array_of_lookup.
    + rewrite length_map. by eapply lookup_lt_Some.
    + change (map Supervisor.oc_decision) with (fmap (M:=list) Supervisor.oc_decision).
      by rewrite list_lookup_fmap, Ho, <- Hd.
Qed.

(** The flags of a command are those of a request. *)
Lemma evaluate_command_flags s bus pdos now_ns i c :
  se_commands (Supervisor.evaluate s bus pdos now_ns).2 !! i = Some c -> 0 <= ac_flags c.
Proof.
  unfold Supervisor.evaluate. destruct (_ || _); cbn; intros [Hc| ->]%array_of_lookup_inv; try done.
  - apply lookup_replicate in Hc as [-> _]. done.
  - change (map Supervisor.oc_command) with (fmap (M:=list) Supervisor.oc_command) in Hc.
    apply list_lookup_fmap_Some in Hc as (o & -> & Ho).
    apply Supervisor.outcomes_lookup in Ho as (_ & m & _ & ->). unfold Supervisor.outcome.
    destruct (Supervisor.settle _ _ _ _ _ _) as [st rq]. by destruct rq.
Qed.

(** The axes of a safety group. *)
Definition same_group (a b : AxisConfig) : Prop :=
  ax_safety_group a = ax_safety_group b /\ ax_safety_group a <> EmptyString.

(** What is clear of a stop when an axis is enabled: the supervisor's conditions, and every servo
    of the safety group of the axis has fresh feedback without a fault. *)
Record axis_released (profile : RobotProfile) (d : RobotIoDaemon L) (domain : DomainHealth)
    (valid : bool) (pdos : list Cia402PdoView) (now_ns : Z) (j : nat) (b : AxisConfig) : Prop := {
  ar_not_stopped : Supervisor.requested_at (in_safety (dm_ingress d)) j <> quick_stop;
  ar_clear :
    let bus := bus_state d domain valid now_ns in
    Supervisor.axis_clear (in_safety (dm_ingress d)) bus pdos now_ns
      (Supervisor.next_wkc_failures (in_safety (dm_ingress d)) bus) j;
  ar_link : dh_link_up domain = true;
  ar_mode : mode_display (Supervisor.pdo_at pdos j) = mode_value (ax_mode b);
  ar_no_fault :
    Supervisor.drive_fault (StateMachine.decode (status_word (Supervisor.pdo_at pdos j))) = false;
  ar_servos : forall k servo, rp_st3215_servos profile !! k = Some servo ->
    pf_safety_group servo = ax_safety_group b ->
    has_flag (sf_flags (servo_feedback d k now_ns)) Registry.kFaultFlags = false }.

(** The view of an axis after an evaluation. *)
Lemma evaluate_devices_output profile d pdos domain valid now_ns i a q :
  daemon_for profile d -> length pdos = length (rp_axes profile) -> rp_axes profile !! i = Some a ->
  (evaluate_devices d pdos domain valid now_ns).2 !! i = Some q ->
  exists ax c, dm_axes d !! i = Some ax /\ Axis.config ax = a /\
    se_commands (Supervisor.evaluate (in_safety (dm_ingress (apply_stop d now_ns)))
      (bus_state (apply_stop d now_ns) domain valid now_ns) pdos now_ns).2 !! i = Some c /\
    q = Axis.pdo_of (Axis.cycle ax c (Supervisor.pdo_at pdos i)).
Proof.
  intros Hf Hl Ha Hq. unfold evaluate_devices in Hq. cbv zeta in Hq.
  set (d1 := apply_stop d now_ns) in *.
  pose proof (evaluate_lengths (in_safety (dm_ingress d1)) (bus_state d1 domain valid now_ns) pdos now_ns)
    as [Hlc Hlf].
  destruct (Supervisor.evaluate _ _ pdos now_ns) as [safety decisions]. cbn [fst snd] in *.
  assert (dm_axes d1 = dm_axes d) as Hax by (unfold d1, apply_stop; by destruct (dm_stop_requested d)).
  pose proof (lookup_lt_Some _ _ _ Ha) as Hi. pose proof (df_small _ _ Hf) as Hsmall.
  assert (exists ax, dm_axes d !! i = Some ax /\ Axis.config ax = a) as (ax & Hlax & Hcfg).
  { pose proof (df_axes _ _ Hf) as Hm. rewrite <- Hm in Ha.
    change (map Axis.config) with (fmap (M:=list) Axis.config) in Ha.
    apply list_lookup_fmap_Some in Ha as (ax & -> & Hax'). eauto. }
  destruct (lookup_lt_is_Some_2 pdos i ltac:(lia)) as [p Hp].
  destruct (lookup_lt_is_Some_2 (se_commands decisions) i ltac:(lia)) as [c Hc].
  destruct (lookup_lt_is_Some_2 (se_feedback_flags decisions) i ltac:(lia)) as [fl Hfl].
  destruct (axis_loop_lookup (sv_last_command_sequence safety) now_ns (dm_axes d1) _ _ pdos i ax c fl p
    ltac:(by rewrite Hax) Hc Hfl Hp) as [Hpdo _].
  destruct (axis_loop _ _ _ _ _ _) as [[axes pdos'] values]. cbn in Hpdo, Hq.
  rewrite Hpdo in Hq. exists ax, c. unfold Supervisor.pdo_at. rewrite Hp. naive_solver.
Qed.

(** A decision to enable. *)
Lemma decision_released profile d pdos domain valid now_ns i a :
  daemon_for profile d -> rp_axes profile !! i = Some a ->
  se_requests (Supervisor.evaluate (in_safety (dm_ingress (apply_stop d now_ns)))
    (bus_state (apply_stop d now_ns) domain valid now_ns) pdos now_ns).2 !! i = Some Cia402.enable ->
  dm_stop_requested d = false /\
  Supervisor.requested_at (in_safety (dm_ingress d)) i = Cia402.enable /\
  forall j b, rp_axes profile !! j = Some b -> j = i \/ same_group a b ->
    axis_released profile d domain valid pdos now_ns j b.
Proof.
  intros Hf Ha He. apply Supervisor.evaluate_enable in He as (Hi & Hr & Hg).
  destruct (dm_stop_requested d) eqn:Hstop.
  { exfalso. destruct (Hg i Hi eq_refl) as (_ & Hc & _). apply Supervisor.clear_shutdown in Hc.
    unfold apply_stop in Hc. rewrite Hstop in Hc. cbn in Hc. unfold Supervisor.request_shutdown in Hc.
    destruct (sv_shutdown_requested (in_safety (dm_ingress d))) eqn:E; cbn in Hc; congruence. }
  unfold apply_stop in *. rewrite Hstop in *. split; [done|]. split; [done|]. intros j b Hb Hsame.
  assert (j < sv_axis_count (in_safety (dm_ingress d)))%nat as Hj.
  { rewrite (df_count _ _ Hf). by eapply lookup_lt_Some. }
  destruct (Hg j Hj) as (Hq & Hc & Hd).
  { apply (df_groups _ _ Hf j i b a Hb Ha). destruct Hsame as [->|[Heq Hne]]; [by left|right].
    split; congruence. }
  split; [exact Hq|exact Hc|exact (Supervisor.clear_link _ _ _ _ _ _ Hc)| |exact Hd|].
  - rewrite (Supervisor.clear_mode _ _ _ _ _ _ Hc), (df_limits _ _ Hf j b Hb). done.
  - intros k servo Hk Heq. pose proof (df_servos_small _ _ Hf) as Hsmall.
    apply (serial_stop_mask_bit _ (su_stop_masks (dm_setup d)) now_ns j k).
    + by rewrite (df_servos _ _ Hf).
    + pose proof (Supervisor.clear_external _ _ _ _ _ _ Hc) as Hx.
      by rewrite has_flag_bit in Hx.
    + rewrite (df_servos _ _ Hf). by eapply lookup_lt_Some.
    + rewrite (df_masks _ _ Hf k servo j b Hk Hb), Heq. apply String.eqb_refl.
Qed.

(** C1. A cycle enables a drive only when every condition of the chain holds.  If the control word
    that a device cycle leaves in the process data of an axis is one that enables the drive (shutdown,
    switch on, enable operation), then no stop has been requested; the command in force, as the supervisor consumed it
    in this cycle, asks for enable; the axis and every other axis of its safety group are released:
    none has a quick stop, a stale or invalid command, a broken link, lost frames beyond the
    limit, a wrong mode, a following error or a drive fault, and no ST3215 servo of the group is
    faulty or stale; and the target written is the commanded one, clamped to the limits of the
    axis and to its slew limit. *)
Theorem daemon_enable_sound profile d pdos domain valid consumed_ns now_ns i a q :
  daemon_for profile d -> dm_running d = true -> length pdos = length (rp_axes profile) ->
  rp_axes profile !! i = Some a ->
  (process_device_cycle_owned d pdos domain valid consumed_ns now_ns).2 !! i = Some q ->
  StateMachine.enabling (control_word q) ->
  let d' := with_ingress d (consume_staged_commands (dm_ingress d) consumed_ns).1 in
  dm_stop_requested d = false /\
  Supervisor.requested_at (in_safety (dm_ingress d')) i = Cia402.enable /\
  (forall j b, rp_axes profile !! j = Some b -> j = i \/ same_group a b ->
     axis_released profile d' domain valid pdos now_ns j b) /\
  exists ax p, dm_axes d !! i = Some ax /\
    let target := ac_target (Supervisor.command_at (in_safety (dm_ingress d')) i) in
    let actual := default fzero (Axis.actual_setpoint a (Supervisor.pdo_at pdos i)) in
    let last := if Axis.has_last_target ax then Axis.last_target ax else actual in
    Axis.enable_inputs_invalid a target = false /\
    Axis.stage_setpoint a (Axis.slew_target a last (Axis.clamped_target a target))
      (Supervisor.pdo_at pdos i) = (p, true) /\
    target_position q = target_position p /\ target_velocity q = target_velocity p /\
    target_torque q = target_torque p.
Proof.
  intros Hf Hrun Hl Ha Hq Hen d'. unfold process_device_cycle_owned in Hq.
  unfold axis_count in Hq. rewrite Hrun, (df_axis_configurations _ _ Hf), Hl, Nat.eqb_refl in Hq.
  cbn in Hq. fold d' in Hq.
  assert (daemon_for profile d') as Hf'.
  { eapply daemon_for_keeps; [|exact Hf]. pose proof (consume_frame (dm_ingress d) consumed_ns) as Hk.
    cbv zeta in Hk. split; cbn; tauto. }
  apply (evaluate_devices_output profile d' pdos domain valid now_ns i a q Hf' Hl Ha)
    in Hq as (ax & c & Hax & Hcfg & Hc & ->).
  pose proof Hen as Hfl. apply Axis.cycle_enabling in Hfl.
  2:{ apply (evaluate_command_flags _ _ _ _ _ _ Hc). }
  rewrite Hcfg in Hfl. cbv zeta in Hfl. destruct Hfl as (Hflags & _ & _ & _ & _ & Hin & _ & (p & Hst & Ht) & _).
  apply evaluate_command_enable in Hc as [Hreq Htarget]; [|exact Hflags].
  destruct (decision_released profile d' pdos domain valid now_ns i a Hf' Ha Hreq) as (Hs & Hr & Hg).
  rewrite Htarget in Hin, Hst. change (dm_stop_requested d') with (dm_stop_requested d) in Hs.
  unfold apply_stop in Hin, Hst. change (dm_stop_requested d') with (dm_stop_requested d) in Hin, Hst.
  rewrite Hs in Hin, Hst. split_and!; [exact Hs|exact Hr|exact Hg|].
  exists ax, p. by split_and!.
Qed.
End Facts.
End DaemonCycle.
