(* ===== verification/DaemonConfigure.v ===== *)
(** * Configuring the daemon

    [RobotIoDaemon::configure]: what a success establishes, and what a failure leaves. *)
From S2P Require Export DaemonCycle.
From Stdlib Require Import OrdersEx Sorting.Sorted.

Module DaemonConfigure.
Import DdsTypes CommandIngress Topology Daemon DaemonCycle.
Open Scope list_scope.
Open Scope Z_scope.

(** ** The buses of the motors *)

(** The motors on a path, in their order. *)
Definition motors_on (motors : list DamiaoMotorProfile) (path : string) : list nat :=
  filter (fun i => mp_path <$> (motors !! i) = Some path) (seq 0 (length motors)).

Lemma motors_on_snoc motors motor path :
  motors_on (motors ++ [motor]) path =
  motors_on motors path ++ (if decide (mp_path motor = path) then [length motors] else []).
Proof.
  unfold motors_on. rewrite length_app, Nat.add_1_r, seq_S, filter_app. f_equal.
  - assert (forall l, Forall (fun i => (i < length motors)%nat) l ->
      filter (fun i => mp_path <$> ((motors ++ [motor]) !! i) = Some path) l =
      filter (fun i => mp_path <$> (motors !! i) = Some path) l) as Hl.
    { induction 1 as [|i l Hi _ IH]; [done|]. rewrite !filter_cons, IH, lookup_app_l by done. done. }
    apply Hl, Forall_seq. lia.
  - cbn [filter list_filter]. rewrite Nat.add_0_l, lookup_app_r, Nat.sub_diag by lia. cbn.
    repeat case_decide; congruence.
Qed.

Lemma motors_on_elem motors path i :
  i ∈ motors_on motors path <-> exists m, motors !! i = Some m /\ mp_path m = path.
Proof.
  unfold motors_on. rewrite list_elem_of_filter, elem_of_seq. rewrite fmap_Some. split.
  - intros [(m & ? & ?) _]. eauto.
  - intros (m & Hm & <-). split; [eauto|]. apply lookup_lt_Some in Hm. lia.
Qed.

Lemma motors_on_nodup motors path : NoDup (motors_on motors path).
Proof. apply NoDup_filter, NoDup_seq. Qed.

(** One bus for each path of the motors, in the order of the paths, with the motors on it. *)
Record bus_map (motors : list DamiaoMotorProfile) (members : StringMap (list nat)) : Prop := {
  bm_sorted : StronglySorted (fun a b => String.compare a.1 b.1 = Lt) members;
  bm_member : forall path indices, (path, indices) ∈ members <->
    indices = motors_on motors path /\ indices <> [] }.

Lemma compare_trans a b c : String.compare a b = Lt -> String.compare b c = Lt -> String.compare a c = Lt.
Proof. apply (StrictOrder_Transitive (R := String_as_OT.lt)). Qed.

Lemma compare_irrefl a : String.compare a a <> Lt.
Proof. apply (StrictOrder_Irreflexive (R := String_as_OT.lt)). Qed.

Lemma insert_member_elem path index members p l :
  StronglySorted (fun a b => String.compare a.1 b.1 = Lt) members ->
  (p, l) ∈ insert_member path index members <->
  (p <> path /\ (p, l) ∈ members) \/
  (p = path /\ ((exists l0, (path, l0) ∈ members /\ l = l0 ++ [index]) \/
     ((forall l0, (path, l0) ∉ members) /\ l = [index]))).
Proof.
  induction members as [|[q k] members IH]; intros Hs; cbn [insert_member].
  { rewrite list_elem_of_singleton. set_solver. }
  apply StronglySorted_inv in Hs as [Hs Hq]. specialize (IH Hs). rewrite Forall_forall in Hq.
  assert (forall x l0, (x, l0) ∈ members -> String.compare q x = Lt) as Hlt.
  { intros x l0 Hx. by apply (Hq (x, l0)). }
  destruct (String.compare path q) eqn:E.
  - apply String.compare_eq_iff in E as ->.
    assert (forall l0, (q, l0) ∉ members) as Hn by (intros l0 Hx; by apply (compare_irrefl q), (Hlt q l0)).
    rewrite !elem_of_cons. split.
    + intros [[= -> ->]|Hx]; [right; split; [done|left; exists k; split; [by left|done]]|].
      left. split; [|by right]. intros ->. by eapply Hn.
    + intros [[Hne [[= -> ->]|Hx]]|[-> [(l0 & Hx & ->)|[Hno _]]]]; [done|by right| |].
      * apply elem_of_cons in Hx as [[= ->]|Hx]; [by left|]. by destruct (Hn _ Hx).
      * exfalso. apply (Hno k). by left.
  - assert (forall l0, (path, l0) ∉ (q, k) :: members) as Hn.
    { intros l0 [[= -> _]|Hx]%elem_of_cons; [by apply compare_irrefl in E|].
      apply (compare_irrefl path). eapply compare_trans; [exact E|by eapply Hlt]. }
    rewrite (elem_of_cons _ (p, l)). split.
    + intros [[= -> ->]|Hx]; [right; split; [done|by right]|]. left. split; [|done].
      intros ->. by eapply Hn.
    + intros [[Hne Hx]|[-> [(l0 & Hx & _)|[_ ->]]]]; [by right|by destruct (Hn _ Hx)|by left].
  - assert (path <> q) as Hpq by (intros ->; rewrite (String.compare_antisym q q) in E;
      destruct (String.compare q q) eqn:E2; try done; by apply compare_irrefl in E2).
    rewrite elem_of_cons, IH. split.
    + intros [[= -> ->]|[[Hne Hx]|[-> [(l0 & Hx & ->)|[Hno ->]]]]].
      * left. split; [done|by left].
      * left. split; [done|by right].
      * right. split; [done|left]. exists l0. split; [by right|done].
      * right. split; [done|right]. split; [|done]. intros l0 [[= ? _]|Hx]%elem_of_cons; [done|by eapply Hno].
    + intros [[Hne [[= -> ->]|Hx]%elem_of_cons]|[-> [(l0 & Hx & ->)|[Hno ->]]]].
      * by left.
      * right. by left.
      * right. right. split; [done|left]. exists l0. split; [|done].
        by apply elem_of_cons in Hx as [[= ? _]|Hx].
      * right. right. split; [done|right]. split; [|done]. intros l0 Hx. apply (Hno l0). by right.
Qed.

Lemma insert_member_sorted path index members :
  StronglySorted (fun a b => String.compare a.1 b.1 = Lt) members ->
  StronglySorted (fun a b => String.compare a.1 b.1 = Lt) (insert_member path index members).
Proof.
  induction members as [|[q k] members IH]; intros Hs; cbn [insert_member]; [by repeat constructor|].
  pose proof Hs as [Hs' Hq]%StronglySorted_inv.
  destruct (String.compare path q) eqn:E.
  - apply String.compare_eq_iff in E as ->. by constructor.
  - constructor; [done|]. constructor; [done|]. eapply Forall_impl; [exact Hq|]. intros [x l] Hx.
    by eapply compare_trans.
  - constructor; [by apply IH|]. rewrite Forall_forall in *. intros [p l] Hx.
    apply insert_member_elem in Hx; [|done]. destruct Hx as [[_ Hx]|[-> _]]; [by apply (Hq (p, l))|].
    cbn. rewrite String.compare_antisym, E. done.
Qed.

Lemma bus_members_map rest : forall before members members',
  bus_map before members -> bus_members rest (length before) members = success members' ->
  bus_map (before ++ rest) members' /\ Forall (fun m => mp_transport m = socketcan) rest.
Proof.
  induction rest as [|motor rest IH]; intros before members members' Hm; cbn [bus_members].
  { intros [= <-]. by rewrite app_nil_r. }
  destruct (mp_transport motor) eqn:Et; [|done]. intros Hr.
  replace (S (length before)) with (length (before ++ [motor])) in Hr by (rewrite length_app; cbn; lia).
  apply IH in Hr as [Hr Hall]; [rewrite <- app_assoc in Hr; split; [done|by constructor]|].
  destruct Hm as [Hs Hmem]. split; [by apply insert_member_sorted|]. intros path indices.
  rewrite insert_member_elem by done. rewrite motors_on_snoc. case_decide as Hp.
  - subst path. split.
    + intros [[Hne _]|[_ [(l0 & [-> _]%Hmem & ->)|[Hno ->]]]]; [done|by split; [|intros []%app_nil]|].
      split; [|done]. destruct (motors_on before (mp_path motor)) eqn:E; [done|].
      exfalso. apply (Hno (motors_on before (mp_path motor))), Hmem. by rewrite E.
    + intros [-> _]. right. split; [done|].
      destruct (motors_on before (mp_path motor)) as [|i l] eqn:E.
      * right. split; [|done]. intros l0 [-> Hn]%Hmem. done.
      * left. exists (i :: l). split; [|done]. apply Hmem. by rewrite E.
  - rewrite app_nil_r. rewrite Hmem. naive_solver.
Qed.

Lemma bus_map_empty : bus_map [] [].
Proof. split; [constructor|]. intros path indices. split; [by intros ?%elem_of_nil|by intros [-> []]]. Qed.

(** The runtimes and the routes that [configure] makes for the motors: the [k]-th path has the
    runtime at the [k]-th address, and the [l]-th motor on it is routed there. *)
Definition buses_as (profile : RobotProfile) (topology : CompiledTopology) (address : nat -> nat)
    (buses : list nat) (indices : list (list nat)) (bindings : list (option DeviceBinding)) : Prop :=
  exists members, bus_map (rp_damiao_motors profile) members /\
    buses = map address (seq 0 (length members)) /\ indices = map snd members /\
    forall k path on_bus l i motor, members !! k = Some (path, on_bus) -> on_bus !! l = Some i ->
      rp_damiao_motors profile !! i = Some motor ->
      bindings !! i = Some (Some (route profile topology path k l motor)).

Lemma bind_members_spec profile topology path k indices : forall j bindings,
  NoDup indices -> Forall (fun i => (i < length bindings)%nat) indices ->
  let bindings' := bind_members profile topology path k j indices bindings in
  length bindings' = length bindings /\
  (forall i, i ∉ indices -> bindings' !! i = bindings !! i) /\
  (forall l i motor, indices !! l = Some i -> rp_damiao_motors profile !! i = Some motor ->
     bindings' !! i = Some (Some (route profile topology path k (j + l) motor))).
Proof.
  induction indices as [|x indices IH]; intros j bindings Hnd Hlt; cbn [bind_members]; [done|].
  apply NoDup_cons in Hnd as [Hx Hnd]. apply Forall_cons in Hlt as [Hlx Hlt].
  set (b1 := match rp_damiao_motors profile !! x with Some _ => _ | None => _ end).
  assert (length b1 = length bindings) as Hlen.
  { unfold b1. destruct (_ !! x); [by rewrite length_insert|done]. }
  assert (forall i, i <> x -> b1 !! i = bindings !! i) as Hother.
  { intros i Hne. unfold b1. destruct (_ !! x); [by rewrite list_lookup_insert_ne by done|done]. }
  destruct (IH (S j) b1 Hnd) as (I1 & I2 & I3); [by rewrite Hlen|]. split_and!; [congruence| |].
  - intros i Hi. apply not_elem_of_cons in Hi as [Hne Hi]. by rewrite I2, Hother.
  - intros [|l] i motor Hl Hm; cbn in Hl.
    + injection Hl as ->. rewrite I2 by done. unfold b1. rewrite Hm, Nat.add_0_r.
      by rewrite list_lookup_insert_eq.
    + replace (j + S l)%nat with (S j + l)%nat by lia. by eapply I3.
Qed.

(** ** The runtimes of the buses *)

(** A CAN runtime whose workers do not run. *)
Definition stopped (h : TransportRuntime.heap unit) (p : nat) : Prop :=
  exists r, TransportRuntime.h_runtimes h !! p = Some r /\ TransportRuntime.mode_ r = TransportRuntime.can /\
    TransportRuntime.running_ r = false /\ TransportRuntime.worker_ r = None /\
    TransportRuntime.receive_worker_ r = None.

(** A CAN runtime at [p] whose parts are its own: the handler of its transport and its workers are
    those of the object at [p], and the frames in its slots fit a CAN frame. *)
Record runtime_sound (p : nat) (r : TransportRuntime.TransportRuntime) : Prop := {
  rs_mode : TransportRuntime.mode_ r = TransportRuntime.can;
  rs_transport : exists t, TransportRuntime.can_transport_ r = Some t /\
    SocketCan.receive_handler_ t = Some p;
  rs_worker : forall w, TransportRuntime.worker_ r = Some w -> TransportRuntime.wk_self w = p;
  rs_receive : forall w, TransportRuntime.receive_worker_ r = Some w -> TransportRuntime.wk_self w = p;
  rs_frames : forall slot frame, slot ∈ TransportRuntime.slots_ r ->
    TransportRuntime.mailbox slot = Some frame -> TransportRuntime.can_of frame <> None }.

Definition sound (h : TransportRuntime.heap unit) (p : nat) : Prop :=
  exists r, TransportRuntime.h_runtimes h !! p = Some r /\ runtime_sound p r.

Lemma create_socketcan_runtimes h p local key o h' r :
  TransportRuntime.h_runtimes h !! local = None -> local <> p ->
  create_socketcan h p local key o = (h', r) ->
  match r with
  | success _ => exists runtime,
      TransportRuntime.h_runtimes h' = <[p := runtime]> (TransportRuntime.h_runtimes h) /\
      stopped h' p /\ sound h' p
  | failure _ => TransportRuntime.h_runtimes h' = TransportRuntime.h_runtimes h
  end.
Proof.
  intros Hl Hp. unfold create_socketcan. destruct (TransportFactory.validate key); [|by intros [= <- <-]].
  destruct (TransportFactory.ptk_kind key); try by intros [= <- <-].
  destruct (SocketCan.open_interface _ _ _ _) as [opened closed].
  destruct opened as [transport|e]; [|by intros [= <- <-]].
  destruct (TransportRuntime.create_can _ local transport true 32) as [c h1] eqn:E.
  unfold TransportRuntime.create_can in E. destruct (_ || _ || _); injection E as <- <-; [by intros [= <- <-]|].
  unfold TransportRuntime.put at 1. cbn [TransportRuntime.h_runtimes]. rewrite lookup_insert_eq.
  intros [= <- <-].
  unfold TransportRuntime.move_construct, TransportRuntime.put, TransportRuntime.add_closed.
  cbn [TransportRuntime.h_runtimes].
  rewrite delete_insert_eq, delete_insert_ne by congruence. rewrite delete_insert_eq, delete_id by done.
  eexists. split; [reflexivity|].
  split; (eexists; split; [apply lookup_insert_eq|]); [by split_and!|].
  split; try done; [by eexists|]. intros slot frame Hslot Hf.
  change (slot ∈ replicate 32 (TransportRuntime.mkSlot None 0)) in Hslot.
  apply elem_of_replicate in Hslot as [-> _]. done.
Qed.

Lemma destroy_buses_runtimes buses : forall h p,
  TransportRuntime.h_runtimes (destroy_buses h buses) !! p =
  if decide (p ∈ buses) then None else TransportRuntime.h_runtimes h !! p.
Proof.
  induction buses as [|q buses IH]; intros h p; [done|]. unfold destroy_buses in *. cbn. rewrite IH.
  assert (forall h', TransportRuntime.h_runtimes
    (match TransportRuntime.h_runtimes h' !! q with
     | Some r => TransportRuntime.delete no_transport h' q r | None => h' end) !! p =
    if decide (p = q) then None else TransportRuntime.h_runtimes h' !! p) as Hd.
  { intros h'. destruct (_ !! q) as [r|] eqn:Eq.
    - unfold TransportRuntime.delete. cbn. rewrite TransportRuntime.stop_runtimes.
      destruct (decide (p = q)) as [->|Hn]; [by rewrite lookup_delete_eq|].
      by rewrite lookup_delete_ne, lookup_insert_ne.
    - by destruct (decide (p = q)) as [->|]. }
  rewrite Hd. clear. repeat case_decide; set_solver.
Qed.

Lemma create_buses_runtimes profile topology sockets address local members :
  forall h buses bindings h' buses' bindings' r,
  TransportRuntime.h_runtimes h !! local = None -> (forall k, address k <> local) ->
  create_buses profile topology sockets address local members h buses bindings =
    (h', buses', bindings', r) ->
  exists n, let more := map address (seq (length buses) n) in
    buses' = buses ++ more /\ (r = success tt -> n = length members) /\
    (forall p, p ∉ more -> TransportRuntime.h_runtimes h' !! p = TransportRuntime.h_runtimes h !! p) /\
    (NoDup more -> forall p, p ∈ more -> stopped h' p /\ sound h' p).
Proof.
  induction members as [|[path indices] members IH]; intros h buses bindings h' buses' bindings' r Hl Ha.
  { cbn. intros [= <- <- <- <-]. exists 0%nat. cbn. rewrite app_nil_r. set_solver. }
  cbn [create_buses]. cbv zeta.
  destruct (create_socketcan _ _ _ _ _) as [h1 [[]|e]] eqn:E.
  - apply create_socketcan_runtimes in E as (runtime & E & Hs & Hsound); [|done|by apply not_eq_sym].
    intros Hr. apply IH in Hr as (n & -> & Hn & Hp & Hst); [|by rewrite E, lookup_insert_ne|done].
    exists (S n). rewrite length_app in *. cbn [length] in *. rewrite Nat.add_1_r in *. cbn [seq map].
    rewrite <- app_assoc. split; [done|]. split; [intros Hr; by rewrite Hn|]. split.
    + intros p Hnot. rewrite Hp, E by set_solver. apply lookup_insert_ne. set_solver.
    + intros [Hnot Hnd]%NoDup_cons p [->|Hin]%elem_of_cons; [|by apply Hst].
      unfold stopped, sound in *. by rewrite Hp.
  - intros [= <- <- <- <-]. exists 0%nat. cbn. rewrite app_nil_r. split; [done|]. split; [done|].
    split; [|set_solver].
    intros p _. apply create_socketcan_runtimes in E; [|done|by apply not_eq_sym]. by rewrite E.
Qed.

Lemma create_buses_bindings profile topology sockets address local members :
  forall h buses bindings h' buses' bindings',
  NoDup (concat (map snd members)) ->
  Forall (fun i => (i < length bindings)%nat) (concat (map snd members)) ->
  create_buses profile topology sockets address local members h buses bindings =
    (h', buses', bindings', success tt) ->
  (forall i, i ∉ concat (map snd members) -> bindings' !! i = bindings !! i) /\
  forall k path on_bus l i motor, members !! k = Some (path, on_bus) -> on_bus !! l = Some i ->
    rp_damiao_motors profile !! i = Some motor ->
    bindings' !! i = Some (Some (route profile topology path (length buses + k) l motor)).
Proof.
  induction members as [|[path indices] members IH]; intros h buses bindings h' buses' bindings' Hnd Hlt.
  { cbn. by intros [= <- <- <-]. }
  cbn [map snd concat] in *. cbn [create_buses]. cbv zeta.
  apply NoDup_app in Hnd as (Hnd1 & Hdisj & Hnd2). apply Forall_app in Hlt as [Hlt1 Hlt2].
  destruct (create_socketcan _ _ _ _ _) as [h1 [[]|e]]; [|done].
  destruct (bind_members_spec profile topology path (length buses) indices 0 bindings Hnd1 Hlt1) as (B1 & B2 & B3).
  intros Hr. apply IH in Hr as [I1 I2]; [|done|by rewrite B1].
  rewrite length_app in I2. cbn [length] in I2. split.
  - intros i Hi. apply not_elem_of_app in Hi as [Hi1 Hi2]. by rewrite I1, B2.
  - intros [|k] p on_bus l i motor Hk Hl Hm; cbn in Hk.
    + injection Hk as -> ->. rewrite I1, Nat.add_0_r; [by apply (B3 l)|].
      apply Hdisj. by eapply list_elem_of_lookup_2.
    + rewrite (I2 k p on_bus l i motor Hk Hl Hm). do 3 f_equal. lia.
Qed.

Lemma elem_of_concat {A} (ls : list (list A)) x : x ∈ concat ls <-> exists l, l ∈ ls /\ x ∈ l.
Proof. rewrite list_elem_of_In, in_concat. by setoid_rewrite list_elem_of_In. Qed.

Lemma bus_map_nodup motors members : bus_map motors members -> NoDup (concat (map snd members)).
Proof.
  intros [Hs Hmem]. assert (forall x, x ∈ members -> x.2 = motors_on motors x.1) as Hall.
  { intros [p l] Hx. by apply Hmem. }
  clear Hmem. induction Hs as [|[p l] members Hs IH Hp]; cbn; [constructor|].
  pose proof (Hall (p, l) ltac:(by left)) as Hl. cbn in Hl. subst l.
  apply NoDup_app. split; [apply motors_on_nodup|]. split; [|apply IH; intros; apply Hall; by right].
  intros i Hi Hin. apply elem_of_concat in Hin as (l & Hl & Hil).
  apply list_elem_of_fmap in Hl as ([q l'] & -> & Hq). cbn in Hil.
  pose proof (Hall (q, l') ltac:(by right)) as Hl'. cbn in Hl'. subst l'.
  apply motors_on_elem in Hi as (m & Hm & Hmp), Hil as (m' & Hm' & Hmq).
  rewrite Forall_forall in Hp. specialize (Hp _ Hq). cbn in Hp.
  apply (compare_irrefl p). congruence.
Qed.

Lemma bus_map_bound motors members n :
  bus_map motors members -> (length motors <= n)%nat ->
  Forall (fun i => (i < n)%nat) (concat (map snd members)).
Proof.
  intros [_ Hmem] Hn. apply Forall_forall. intros i Hi. apply elem_of_concat in Hi as (l & Hl & Hil).
  apply list_elem_of_fmap in Hl as ([q l'] & -> & Hq). cbn in Hil.
  apply Hmem in Hq as [-> _]. apply motors_on_elem in Hil as (m & Hm & _). apply lookup_lt_Some in Hm. lia.
Qed.

Lemma addresses_distinct (address : nat -> nat) start n :
  (forall j k, address j = address k -> j = k) -> NoDup (map address (seq start n)).
Proof. intros Hinj. assert (Inj eq eq address) by exact Hinj. apply (NoDup_fmap_2 address), NoDup_seq. Qed.

(** ** The parts of the daemon *)

Section Configure.
Context {L : Type} `{SerialLink L}.

Lemma registry_loop_length bus_address profiles : forall buses servos groups buses' servos' groups',
  Registry.configure_loop (L := L) bus_address profiles buses servos groups =
    success (buses', servos', groups') ->
  length servos' = (length servos + length profiles)%nat.
Proof.
  induction profiles as [|profile profiles IH]; intros buses servos groups buses' servos' groups'.
  { cbn. intros [= <- <- <-]. lia. }
  cbn [Registry.configure_loop]. destruct (Registry.bus_for _ _ _) as [[i buses1]|e]; [|done].
  destruct (buses1 !! i) as [entry|]; [|done].
  destruct (Bus.add_servo _ _ _) as [bus [[]|e]]; [|done].
  intros Hr%IH. rewrite Hr, length_app. cbn. lia.
Qed.

Lemma registry_configure_servos bus_address g profiles g' :
  Registry.configure (L := L) bus_address g profiles = (g', success tt) ->
  length (Registry.rg_servos g') = length profiles /\ (length profiles <= kMaximumSt3215Servos)%nat.
Proof.
  unfold Registry.configure. destruct (_ || _ || _) eqn:E; [discriminate|].
  apply orb_false_iff in E as [_ E]. apply Nat.ltb_ge in E.
  destruct (Registry.configure_loop _ _ _ _ _) as [[[buses servos] groups]|e] eqn:El; [|discriminate].
  intros [= <-]. apply registry_loop_length in El. by split.
Qed.

(** A registry whose buses do not run. *)
Definition serial_idle (g : Registry.St3215DeviceRegistry (L := L)) : Prop :=
  Registry.rg_scheduler g = None /\ Registry.rg_running g = false /\
  Forall RegistryFacts.idle_bus (Registry.rg_buses g).

Lemma registry_loop_idle bus_address profiles : forall buses servos groups buses' servos' groups',
  Forall (RegistryFacts.idle_bus (L := L)) buses ->
  Registry.configure_loop bus_address profiles buses servos groups = success (buses', servos', groups') ->
  Forall RegistryFacts.idle_bus buses'.
Proof.
  induction profiles as [|profile profiles IH]; intros buses servos groups buses' servos' groups' Hb.
  { cbn. by intros [= <- <- <-]. }
  cbn [Registry.configure_loop]. destruct (Registry.bus_for _ _ _) as [[i buses1]|e] eqn:Ef; [|done].
  assert (Forall RegistryFacts.idle_bus buses1) as Hb1.
  { unfold Registry.bus_for in Ef. destruct (Registry.find_bus _ _) as [k|].
    - destruct (buses !! k) as [entry|]; [|done]. by destruct (Registry.consistent_port _ _); simplify_eq.
    - destruct (TransportFactory.create_serial _) as [config|e]; [|done]. injection Ef as <- <-.
      apply Forall_app. split; [done|]. by repeat constructor. }
  destruct (buses1 !! i) as [entry|] eqn:Ei; [|done].
  destruct (Bus.add_servo _ _ _) as [bus [[]|e]] eqn:Ea; [|done].
  intros Hr. eapply IH; [|exact Hr]. apply Forall_insert; [done|].
  rewrite Forall_lookup in Hb1. destruct (Hb1 _ _ Ei) as [Hrun Hs].
  unfold Bus.add_servo in Ea.
  destruct ((servos ++ _) !! _) as [s|]; [|done].
  destruct (_ || _); [done|]. destruct (existsb _ _); [done|]. injection Ea as <-. by split.
Qed.

Lemma registry_configure_idle bus_address profiles g' :
  Registry.configure (L := L) bus_address Registry.create profiles = (g', success tt) -> serial_idle g'.
Proof.
  unfold Registry.configure. destruct (_ || _ || _); [discriminate|].
  destruct (Registry.configure_loop _ _ _ _ _) as [[[buses servos] groups]|e] eqn:El; [|discriminate].
  intros [= <-]. split; [done|]. split; [done|]. by eapply registry_loop_idle.
Qed.

Lemma registry_configure_failure bus_address g profiles g' e :
  Registry.configure (L := L) bus_address g profiles = (g', failure e) -> g' = g.
Proof.
  unfold Registry.configure. destruct (_ || _ || _); [by intros [= <- <-]|].
  destruct (Registry.configure_loop _ _ _ _ _) as [[[? ?] ?]|?]; [discriminate|by intros [= <- <-]].
Qed.

(** After a preflight on a fresh supervisor, the configuration of another fresh one only fails on
    its options, before it writes anything. *)
Lemma supervisor_preflight options options' axes e s' :
  has_value (Supervisor.configure (Supervisor.create options) axes).2 = true ->
  Supervisor.configure (Supervisor.create options') axes = (s', failure e) ->
  s' = Supervisor.create options'.
Proof.
  unfold Supervisor.configure. cbn [Supervisor.create sv_configured sv_options sv_configs sv_last_requests].
  destruct (max_axes <? length axes)%nat; cbn [orb]; [discriminate|].
  destruct (negb (Supervisor.valid_options options)); [discriminate|].
  destruct (Supervisor.configure_loop _ _ _ _ _ _) as [[configs requests] r].
  destruct (negb (Supervisor.valid_options options')); [by intros _ [= <- _]|].
  intros Hr [= _ ->]. discriminate.
Qed.

Lemma stop_mask_bit axes servo i a :
  (length axes <= max_axes)%nat -> axes !! i = Some a ->
  Z.testbit (stop_mask axes servo) (Z.of_nat i) =
  String.eqb (pf_safety_group servo) (ax_safety_group a).
Proof.
  intros Hl Ha. unfold stop_mask.
  set (f := fun axis (a : AxisConfig) => if String.eqb (pf_safety_group servo) (ax_safety_group a)
    then u16 (Z.shiftl 1 (Z.of_nat axis)) else 0).
  assert (forall l acc, Z.testbit (fold_left Z.lor l acc) (Z.of_nat i) =
    Z.testbit acc (Z.of_nat i) || existsb (fun m => Z.testbit m (Z.of_nat i)) l) as Hfold.
  { induction l as [|m l IH]; intros acc; cbn; [by rewrite orb_false_r|].
    rewrite IH, Z.lor_spec, orb_assoc. done. }
  rewrite Hfold, Z.bits_0. cbn [orb]. apply eq_true_iff_eq. rewrite existsb_exists.
  assert (forall k b, axes !! k = Some b ->
    Z.testbit (f k b) (Z.of_nat i) = (bool_decide (k = i) && String.eqb (pf_safety_group servo) (ax_safety_group b)))
    as Hbit.
  { intros k b Hk. unfold f. destruct (String.eqb _ _); [|by rewrite Z.bits_0, andb_false_r].
    apply lookup_lt_Some in Hk. replace (u16 (Z.shiftl 1 (Z.of_nat k))) with (2 ^ Z.of_nat k).
    - rewrite Z.pow2_bits_eqb by lia. rewrite andb_true_r. case_bool_decide; [subst; apply Z.eqb_refl|].
      apply Z.eqb_neq. lia.
    - symmetry. rewrite Z.shiftl_1_l. apply wrap_small. unfold is_word. split; [lia|].
      change max_axes with 12%nat in Hl. apply Z.pow_lt_mono_r; lia. }
  split.
  - intros (m & Hm & Hb). apply list_elem_of_In, list_elem_of_lookup in Hm as [k Hk].
    apply list_lookup_imap_Some in Hk as (b & Hk & ->). rewrite Hbit in Hb by done.
    apply andb_true_iff in Hb as [Hki Hb]. apply bool_decide_eq_true_1 in Hki as ->. by simplify_eq.
  - intros Heq. exists (f i a). split.
    + apply list_elem_of_In, list_elem_of_lookup. exists i. apply list_lookup_imap_Some. eauto.
    + rewrite Hbit by done. by rewrite bool_decide_eq_true_2.
Qed.

Lemma or_masks_lookup masks n k m :
  masks !! k = Some m -> (length masks <= n)%nat ->
  default 0 (or_masks masks (replicate n 0) !! k) = m.
Proof.
  intros Hm Hl. unfold or_masks. pose proof (lookup_lt_Some _ _ _ Hm) as Hk.
  rewrite lookup_app_l by (rewrite length_zip_with, length_replicate; lia).
  rewrite lookup_zip_with, Hm. cbn. rewrite lookup_replicate_2 by lia. cbn. done.
Qed.

Lemma create_axes_config axes xs : create_axes axes = success xs -> map Axis.config xs = axes.
Proof.
  revert xs. induction axes as [|a axes IH]; intros xs; cbn; [by intros [= <-]|].
  intros Hr. apply result_bind_success in Hr as (x & Hx & Hr).
  apply result_bind_success in Hr as (ys & Hys & [= <-]). cbn. rewrite (IH _ Hys). f_equal.
  unfold Axis.create in Hx. destruct (_ : bool); by simplify_eq.
Qed.

(** A configured supervisor is in the phases it was created with. *)
Lemma supervisor_configure_phases options axes s i :
  Supervisor.configure (Supervisor.create options) axes = (s, success tt) ->
  Supervisor.phase_at s i = ss_phase AxisSafetyState_zero.
Proof.
  intros Hs. assert (sv_states s = replicate max_axes AxisSafetyState_zero) as Hst.
  { unfold Supervisor.configure in Hs. destruct (sv_configured _); [done|]. destruct (_ || _); [done|].
    destruct (Supervisor.configure_loop _ _ _ _ _ _) as [[? ?] r]. by injection Hs as <- _. }
  unfold Supervisor.phase_at, Supervisor.state_at. rewrite Hst.
  destruct (replicate _ _ !! i) as [st|] eqn:E; [|done]. by apply lookup_replicate in E as [-> _].
Qed.

(** ** [configure] *)

(** A daemon before its configuration. *)
Record unconfigured (options : SafetyOptions) (d : RobotIoDaemon L) : Prop := {
  uc_configured : dm_configured d = false;
  uc_running : dm_running d = false;
  uc_setup : dm_setup d = Setup_zero;
  uc_ingress : dm_ingress d = CommandIngress.create options;
  uc_serial : dm_serial d = Registry.create }.

Lemma create_unconfigured options loop_config : unconfigured options (create options loop_config).
Proof. by split. Qed.

(** What a successful [configure] makes of the daemon [d]. *)
Record configured_as (profile : RobotProfile) (address : nat -> nat) (d d' : RobotIoDaemon L) : Prop := {
  ca_profile : daemon_for profile d';
  ca_sockets : Forall (fun m => mp_transport m = socketcan) (rp_damiao_motors profile);
  ca_buses : exists topology, compile_physical_topology profile = success topology /\
    buses_as profile topology address (su_runtimes (dm_setup d')) (su_members (dm_setup d'))
      (su_bindings (dm_setup d'));
  ca_stopped : forall p, p ∈ su_runtimes (dm_setup d') -> stopped (dm_heap d') p;
  ca_sound : forall p, p ∈ su_runtimes (dm_setup d') -> sound (dm_heap d') p;
  ca_serial : serial_idle (dm_serial d');
  ca_running : dm_running d' = false;
  ca_dds : dm_dds d' = dm_dds d;
  ca_loop : dm_loop d' = dm_loop d;
  ca_scheduler : dm_scheduler d' = dm_scheduler d;
  ca_stop : dm_stop_requested d' = dm_stop_requested d;
  ca_complete : dm_shutdown_complete d' = dm_shutdown_complete d;
  ca_phases : forall i, Supervisor.phase_at (in_safety (dm_ingress d')) i = ss_phase AxisSafetyState_zero }.

(** What a failed one leaves: the standalone views may have their modes, the sockets that were
    opened are closed; the rest is as it was. *)
Definition left_alone (d d' : RobotIoDaemon L) : Prop :=
  exists pdos h, d' = with_pdos (with_damiao d (dm_actuators d) h) pdos /\
    TransportRuntime.h_runtimes h = TransportRuntime.h_runtimes (dm_heap d).

Definition configure_outcome (profile : RobotProfile) (address : nat -> nat) (d d' : RobotIoDaemon L)
    (r : Result unit) : Prop :=
  match r with success _ => configured_as profile address d d' | failure _ => left_alone d d' end.

Lemma left_alone_refl d : left_alone d d.
Proof. exists (dm_pdos d), (dm_heap d). split; [|done]. by destruct d. Qed.

Lemma left_alone_heap d h :
  TransportRuntime.h_runtimes h = TransportRuntime.h_runtimes (dm_heap d) ->
  left_alone d (with_damiao d (dm_actuators d) h).
Proof. exists (dm_pdos d), h. split; [|done]. by destruct d. Qed.

Lemma left_alone_unconfigured options d d' : left_alone d d' -> unconfigured options d -> unconfigured options d'.
Proof. by intros (pdos & h & -> & _) []. Qed.

(** The outcomes of the second half. *)
Lemma configure_parts_cases options d profile topology bus_address address h buses members bindings d' r :
  unconfigured options d -> (length (rp_axes profile) <= max_axes)%nat ->
  has_value (Supervisor.configure (Supervisor.create SafetyOptions_default) (rp_axes profile)).2 = true ->
  has_value (Registry.configure (L := L) bus_address Registry.create (rp_st3215_servos profile)).2 = true ->
  compile_physical_topology profile = success topology ->
  Forall (fun m => mp_transport m = socketcan) (rp_damiao_motors profile) ->
  buses_as profile topology address buses members bindings ->
  (forall p, p ∈ buses -> stopped h p /\ sound h p) ->
  TransportRuntime.h_runtimes (destroy_buses h buses) = TransportRuntime.h_runtimes (dm_heap d) ->
  configure_parts d profile bus_address h buses members bindings = (d', r) ->
  configure_outcome profile address d d' r.
Proof.
  intros [Hc Hrun Hsetup Hing Hser] Hax Hpre Hreg Htop Hsock Hb Hst Hd. unfold configure_parts.
  destruct (create_axes (rp_axes profile)) as [axes|e] eqn:Ha; [|by intros [= <- <-]; do 2 eexists].
  cbn [with_pdos dm_ingress dm_serial dm_scheduler]. rewrite Hing, Hser.
  change (in_safety (CommandIngress.create options)) with (Supervisor.create options).
  destruct (Supervisor.configure (Supervisor.create options) _) as [safety [[]|e]] eqn:Es.
  2:{ apply (supervisor_preflight _ _ _ _ _ Hpre) in Es as ->. intros [= <- <-].
      exists (set_modes (rp_axes profile) (dm_pdos d)), (destroy_buses h buses). split; [|done].
      revert Hing. clear. intros Hi. destruct d. cbn in Hi. by subst. }
  change (in_ingress (set_safety (CommandIngress.create options) safety)) with (Supervisor.create options).
  rewrite Es. destruct (Registry.configure _ _ _) as [g [[]|e]] eqn:Eg; [|done]. intros [= <- <-].
  split; try done; [|by eexists|by intros p Hp; apply Hst|by intros p Hp; apply Hst|
    by eapply registry_configure_idle|by intros i; eapply supervisor_configure_phases].
  destruct (Supervisor.configure_groups (Supervisor.create options) _ _ eq_refl Es) as (Hn & Hlim & Hgrp).
  apply registry_configure_servos in Eg as [Hg Hsmall].
  split; cbn; try done.
  - by apply create_axes_config.
  - unfold Supervisor.configure in Es. destruct (sv_configured _); [done|]. destruct (_ || _); [done|].
    destruct (Supervisor.configure_loop _ _ _ _ _ _) as [[? ?] r0]. injection Es as <- ->. done.
  - unfold Supervisor.configure in Es. destruct (sv_configured _); [done|].
    destruct (_ || _) eqn:Eo; [done|]. apply orb_false_iff in Eo as [_ Eo]. apply negb_false_iff in Eo.
    destruct (Supervisor.configure_loop _ _ _ _ _ _) as [[? ?] r0]. injection Es as <- ->. exact Eo.
  - intros k a Hk. by apply Hlim.
  - intros k servo i a Hk Hi. rewrite <- (stop_mask_bit _ servo i a Hax Hi). f_equal.
    rewrite Hsetup. apply or_masks_lookup.
    + change (map (stop_mask (rp_axes profile))) with (fmap (M:=list) (stop_mask (rp_axes profile))).
      by rewrite list_lookup_fmap, Hk.
    + rewrite length_map. done.
Qed.

(** The outcomes of [configure] on an unconfigured daemon. *)
Lemma configure_cases options d profile bus_address sockets address local d' r :
  unconfigured options d ->
  TransportRuntime.h_runtimes (dm_heap d) !! local = None -> (forall k, address k <> local) ->
  (forall k, TransportRuntime.h_runtimes (dm_heap d) !! address k = None) ->
  (forall j k, address j = address k -> j = k) ->
  configure d profile bus_address sockets address local = (d', r) ->
  configure_outcome profile address d d' r.
Proof.
  intros Hu Hlocal Hne Hfresh Hinj. pose proof Hu as [Hc Hrun Hsetup Hing Hser].
  assert (forall e, (d, failure e) = (d', r) -> configure_outcome profile address d d' r) as Hsame.
  { intros e [= <- <-]. apply left_alone_refl. }
  unfold configure. rewrite Hc, Hrun. cbn [orb].
  destruct (_ <? _)%nat eqn:Hax; [apply Hsame|]. apply Nat.ltb_ge in Hax.
  destruct (Supervisor.configure (Supervisor.create SafetyOptions_default) _).2 as [[]|e] eqn:Hpre;
    [|apply Hsame].
  destruct (Registry.configure _ Registry.create _).2 as [[]|e] eqn:Hreg; [|apply Hsame].
  destruct (compile_physical_topology profile) as [topology|e] eqn:Htop; [|apply Hsame].
  destruct (_ <? _)%nat eqn:Hmot; [apply Hsame|]. apply Nat.ltb_ge in Hmot.
  destruct (bus_members _ _ _) as [members|e] eqn:Hmem; [|apply Hsame]. cbv zeta.
  apply (bus_members_map _ [] [] members bus_map_empty) in Hmem as [Hmem Hsock]. cbn [app] in Hmem.
  destruct (create_buses _ _ _ _ _ _ _ _ _) as [[[h buses] bindings] rb] eqn:Hbuses.
  pose proof Hbuses as Hbind.
  apply create_buses_runtimes in Hbuses as (n & -> & Hn & Hp & Hst); [|done..]. cbn [app length] in *.
  assert (TransportRuntime.h_runtimes (destroy_buses h (map address (seq 0 n))) =
    TransportRuntime.h_runtimes (dm_heap d)) as Hd.
  { apply map_eq. intros p. rewrite destroy_buses_runtimes. case_decide as Hm; [|by apply Hp].
    symmetry. apply list_elem_of_fmap in Hm as (k & -> & _). apply Hfresh. }
  destruct rb as [[]|e].
  - eapply configure_parts_cases;
      [exact Hu|exact Hax|by rewrite Hpre|by rewrite Hreg|exact Htop|exact Hsock| | |exact Hd].
    + exists members. rewrite (Hn eq_refl). do 3 (split; [done|]).
      apply create_buses_bindings in Hbind as [_ Hbind]; [exact Hbind|by eapply bus_map_nodup|].
      rewrite length_replicate. by eapply bus_map_bound.
    + apply Hst, addresses_distinct, Hinj.
  - intros [= <- <-]. by apply left_alone_heap.
Qed.

Lemma configured_distinct profile address d d' :
  (forall j k, address j = address k -> j = k) -> configured_as profile address d d' ->
  NoDup (su_runtimes (dm_setup d')).
Proof. intros Ha [_ _ (topology & _ & members & _ & -> & _)]. by apply addresses_distinct. Qed.


End Configure.
End DaemonConfigure.
