(* ===== verification/DaemonLife.v ===== *)
(** * The life of the robot I/O daemon

    [robot_io/daemon/daemon.cpp]: [attach_ethercat], [start], [run], [request_stop],
    [stop_transports], [DaemonSignalLatch] and the master that [start] makes
    ([robot_io/daemon/transport_factory.cpp]). *)
From S2P Require Export DaemonConfigure.

(** ** The latch of SIGTERM *)

Module DaemonSignalLatch.

(** The two flags of the file and the disposition of the signal; [None] is the handler of the
    latch, [Some k] one of the process. *)
Record signals := mkSignals {
  signal_stop_requested : bool;
  signal_latch_installed : bool;
  disposition : option Z }.

Record latch := mkLatch { previous_ : option Z; installed_ : bool }.

Definition no_latch : latch := mkLatch (Some 0) false.

(** The delivery of SIGTERM; another handler is not ours to model. *)
Definition deliver (s : signals) : signals :=
  match disposition s with
  | None => mkSignals true (signal_latch_installed s) (disposition s)
  | Some _ => s
  end.

Definition install (s : signals) (l : latch) (sigaction_ok : bool) : signals * latch * Result unit :=
  if installed_ l || signal_latch_installed s
  then (s, l, fail invalid_argument "SIGTERM latch is already installed")
  else if sigaction_ok
  then (mkSignals false true None, mkLatch (disposition s) true, success tt)
  else (mkSignals false (signal_latch_installed s) (disposition s), l, fail io "sigaction(SIGTERM)").

Definition destroy (s : signals) (l : latch) : signals :=
  if installed_ l then mkSignals false false (previous_ l) else s.

Definition stop_requested (s : signals) : bool := signal_stop_requested s.

End DaemonSignalLatch.

Module DaemonLife.
Import DdsTypes CommandIngress Daemon DaemonCycle.
Open Scope list_scope.
Open Scope Z_scope.

(** ** [TransportFactory::create_ethercat]

    [created]: the constructor of the master does not throw. *)
Definition create_ethercat {B} `{EthercatBackend B} {W} (backend : option B)
    (configurations : list Binding.EthercatAxisConfiguration) (created : bool)
    : Result (Master.EthercatMaster B W) :=
  match backend with
  | None => fail invalid_argument "EtherCAT factory requires a backend"
  | Some b =>
      if created then success (Master.construct (Some b) configurations)
      else fail internal "failed to create EtherCAT transport: "
  end.

Section Life.
Context {L : Type} `{SerialLink L} {B : Type} `{EthercatBackend B}.

Abbreviation EthercatMaster := (Master.EthercatMaster B (machine L)).

(** The daemon with the master it drives, the thread of [run] and the state of the system that
    the thread changes. *)
Record system := mkSystem {
  sy_machine : machine L;
  sy_master : option EthercatMaster;
  sy_registered : bool;                 (* master_registered_ *)
  sy_bound : bool;                      (* master_handler_bound_ *)
  sy_signals : DaemonSignalLatch.signals;
  sy_realtime : RealtimeSystem.LinuxRealtimeSystem;
  sy_thread : RealtimeSystem.thread }.

Definition sy_daemon (s : system) : RobotIoDaemon L := mc_daemon (sy_machine s).

Definition set_daemon (s : system) (d : RobotIoDaemon L) : system :=
  mkSystem (with_daemon (sy_machine s) d 0) (sy_master s) (sy_registered s) (sy_bound s)
    (sy_signals s) (sy_realtime s) (sy_thread s).

Definition set_machine (s : system) (m : machine L) (master : option EthercatMaster) : system :=
  mkSystem m master (sy_registered s) (sy_bound s) (sy_signals s) (sy_realtime s) (sy_thread s).

Definition set_master (s : system) (master : option EthercatMaster) (registered bound : bool) : system :=
  mkSystem (sy_machine s) master registered bound (sy_signals s) (sy_realtime s) (sy_thread s).

Definition with_scheduler (d : RobotIoDaemon L) (m : TransportScheduler.assignments) : RobotIoDaemon L :=
  with_serial d (dm_serial d) m.

(** The addresses of the objects: the daemon is the context of its handler, the master is what
    the scheduler knows. *)
Context (this scheduler_address master_address : Z).

(** ** [attach_ethercat] *)

Definition attach_ethercat (s : system) (master : EthercatMaster) : system * Result unit :=
  let d := sy_daemon s in
  if negb (dm_configured d) || dm_running d || Master.is_some (sy_master s) ||
     negb (Nat.eqb (length (Master.em_pdo_views master)) (axis_count d))
  then (s, fail invalid_argument "EtherCAT master must match the configured inactive daemon")
  else (set_master s (Some master) (sy_registered s) (sy_bound s), success tt).

(** ** [start] *)

(** What the system answers: the atomics are lock-free, the thread of the DDS worker starts, the
    backend of a new master ([None]: its construction throws), its master is made, and the two
    threads of each bus start. *)
Record StartOutcome := mkStartOutcome {
  so_lock_free : bool;
  so_dds_thread : bool;
  so_backend : option B;
  so_master : bool;
  so_serial_now_ns : Z;
  so_bus_threads : nat -> bool * bool }.

(** A call returns, lets an exception through, or follows a dangling pointer. *)
Inductive outcome := returned (r : Result unit) | thrown | undefined.

Definition failed_with (c : ErrorCode) (message : string) : outcome := returned (fail c message).

(** The master of a daemon that has axes and was given none. *)
Definition make_master (s : system) (o : StartOutcome) : system * Result unit :=
  let d := sy_daemon s in
  if Master.is_some (sy_master s) || Nat.eqb (axis_count d) 0 then (s, success tt)
  else
    match so_backend o with
    | None => (s, fail internal "failed to prepare EtherCAT transport: ")
    | Some b =>
        match create_ethercat (Some b)
                (map (fun axis => Binding.mkAxisConfiguration axis []) (su_axis_configurations (dm_setup d)))
                (so_master o) with
        | failure e => (s, failure e)
        | success master => (set_master s (Some master) (sy_registered s) (sy_bound s), success tt)
        end
    end.

(** [scheduler_.remove( *ethercat_master_)]. *)
Definition unregister (s : system) : system :=
  set_master
    (set_daemon s (with_scheduler (sy_daemon s)
       (TransportScheduler.remove (dm_scheduler (sy_daemon s)) master_address).1))
    (sy_master s) false (sy_bound s).

Definition unbind (s : system) : system :=
  match sy_master s with
  | Some master =>
      set_master s (Some (Master.clear_supervised_cycle_handler master this).1) (sy_registered s) false
  | None => s
  end.

(** The two steps that take the master down. *)
Definition close_master (s : system) : system :=
  match sy_master s with
  | Some master =>
      if sy_bound s
      then unbind (set_master s (Some (Master.close master)) (sy_registered s) true) else s
  | None => s
  end.

Definition forget_master (s : system) : system :=
  match sy_master s with
  | Some _ => if sy_registered s then unregister s else s
  | None => s
  end.

(** Registration, handler and opening, each undone when a later one fails. *)
Definition open_master (s : system) : system * Result unit :=
  match sy_master s with
  | None => (s, success tt)
  | Some master =>
      match TransportScheduler.add (dm_scheduler (sy_daemon s)) master_address Master.scheduling_class with
      | (_, failure e) => (s, failure e)
      | (assigned, success _) =>
          let s := set_master (set_daemon s (with_scheduler (sy_daemon s) assigned)) (Some master) true
                     (sy_bound s) in
          match Master.set_supervised_cycle_handler master (Some ethercat_cycle_handler) this with
          | (_, failure e) => (unregister s, failure e)
          | (master, success _) =>
              match Master.open master with
              | (master, failure e) =>
                  (unregister (unbind (set_master s (Some master) true true)), failure e)
              | (master, success _) => (set_master s (Some master) true true, success tt)
              end
          end
      end
  end.

(** The serial buses; when they cannot start, the master is closed again. *)
Definition start_serial (s : system) (o : StartOutcome) : system * Result unit :=
  let d := sy_daemon s in
  match Registry.start (so_lock_free o) scheduler_address (so_serial_now_ns o) (dm_serial d) (dm_scheduler d) with
  | (g, assigned, success _) => (set_daemon s (with_serial d g assigned), success tt)
  | (g, assigned, failure e) =>
      (forget_master (close_master (set_daemon s (with_serial d g assigned))), failure e)
  end.

(** [bus->start()] for the CAN runtimes, in order, until one fails. *)
Fixpoint start_buses (threads : nat -> bool * bool) (k : nat) (buses : list nat)
    (h : TransportRuntime.heap unit) : TransportRuntime.heap unit * outcome :=
  match buses with
  | [] => (h, returned (success tt))
  | p :: buses =>
      match TransportRuntime.h_runtimes h !! p with
      | None => (h, undefined)
      | Some r =>
          match TransportRuntime.start no_transport h p r (threads k).1 (threads k).2 with
          | None => (h, undefined)
          | Some (failure e, h) => (h, returned (failure e))
          | Some (success _, h) => start_buses threads (S k) buses h
          end
      end
  end.

Definition accept_and_run (d : RobotIoDaemon L) : RobotIoDaemon L :=
  with_flags (with_ingress d (set_accepting (dm_ingress d) true)) true (dm_stop_requested d)
    (dm_shutdown_complete d).

(** The transports, once the worker of the DDS endpoint runs. *)
Definition start_transports (s : system) (o : StartOutcome) : system * outcome :=
  match make_master s o with
  | (s, failure e) => (s, returned (failure e))
  | (s, success _) =>
      match open_master s with
      | (s, failure e) => (s, returned (failure e))
      | (s, success _) =>
          match start_serial s o with
          | (s, failure e) => (s, returned (failure e))
          | (s, success _) =>
              let d := sy_daemon s in
              let '(h, r) := start_buses (so_bus_threads o) 0 (su_runtimes (dm_setup d)) (dm_heap d) in
              let s := set_daemon s (with_damiao d (dm_actuators d) h) in
              match r with
              | returned (success _) => (set_daemon s (accept_and_run (sy_daemon s)), r)
              | _ => (s, r)
              end
          end
      end
  end.

Definition start (s : system) (o : StartOutcome) : system * outcome :=
  let d := sy_daemon s in
  if negb (dm_configured d) || dm_running d || dm_stop_requested d || dm_shutdown_complete d
  then (s, failed_with invalid_argument "robot I/O daemon is not startable")
  else if negb (so_lock_free o && Registry.atomics_are_lock_free (so_lock_free o) (dm_serial d))
  then (s, failed_with unavailable "daemon health atomics are not lock-free")
  else
    match RealtimeLoop.validate_config (dm_loop d) with
    | failure e => (s, returned (failure e))
    | success _ =>
        match dm_dds d with
        | None => start_transports s o
        | Some e =>
            let '(e, r) := DdsDaemonEndpoint.start (Some e) (so_dds_thread o) in
            let s := set_daemon s (with_dds d e) in
            match r with
            | None => (s, thrown)
            | Some (failure err) => (s, returned (failure err))
            | Some (success _) => start_transports s o
            end
        end
    end.

(** ** [stop_transports] *)

(** [bus->stop()] for every CAN runtime. *)
Definition stop_buses (buses : list nat) (h : TransportRuntime.heap unit) : TransportRuntime.heap unit :=
  fold_left (fun h p =>
    match TransportRuntime.h_runtimes h !! p with
    | Some r => TransportRuntime.stop no_transport h p r
    | None => h
    end) buses h.

Definition stop_transports (s : system) : system :=
  let d := with_dds (sy_daemon s) (DdsDaemonEndpoint.stop (dm_dds (sy_daemon s))) in
  let '(g, assigned) := Registry.stop_with scheduler_address (dm_serial d) (dm_scheduler d) in
  let d := with_serial d g assigned in
  let d := with_damiao d (dm_actuators d) (stop_buses (su_runtimes (dm_setup d)) (dm_heap d)) in
  let s := forget_master (close_master (set_daemon s d)) in
  let d := sy_daemon s in
  set_daemon s (with_flags d false (dm_stop_requested d) (dm_shutdown_complete d)).

(** ** [request_stop] *)

Definition stop_now (d : RobotIoDaemon L) : RobotIoDaemon L :=
  with_flags (with_ingress d (set_accepting (dm_ingress d) false)) (dm_running d) true
    (dm_shutdown_complete d).

Definition request_stop (d : RobotIoDaemon L) : RobotIoDaemon L * Result unit :=
  if negb (dm_configured d)
  then (d, fail invalid_argument "robot I/O daemon is not configured")
  else (stop_now d, success tt).

(** ** [run] *)

(** What the threads of the clients, of DDS and of the CAN buses do. *)
Inductive client_op :=
  | client_commands (snapshot : Snapshot AxisCommand) (now_ns : Z)
  | client_servo (index : nat) (command : St3215ServoCommand) (now_ns : Z)
  | client_dds (a : DdsDaemonEndpoint.access) (now_ns : Z)
  | client_can_receive (k : nat) (o : SocketCan.read_outcome) (now_ns : Z)
  | client_can_send (k : nat) (writes : nat -> Z)
  | client_stop.

Definition client_step (d : RobotIoDaemon L) (o : client_op) : option (RobotIoDaemon L) :=
  match o with
  | client_commands snapshot now_ns => Some (Daemon.stage_commands d snapshot now_ns).1
  | client_servo index command now_ns => Some (Daemon.stage_servo_command d index command now_ns).1
  | client_dds a now_ns => Some (dds_access d a now_ns)
  | client_can_receive k o now_ns => can_receive d k o now_ns
  | client_can_send k writes => can_send d k writes
  | client_stop => Some (request_stop d).1
  end.

Fixpoint client_steps (d : RobotIoDaemon L) (os : list client_op) : option (RobotIoDaemon L) :=
  match os with
  | [] => Some d
  | o :: os => d ← client_step d o; client_steps d os
  end.

(** A turn of the loop: what the other threads did since the last one, whether SIGTERM arrived,
    and what [wait_next] reads and gets from the sleep. *)
Record wakeup := mkWakeup {
  wu_clients : list client_op;
  wu_signal : bool;
  wu_now_ns : Z;
  wu_sleep_error : Z;
  wu_started_ns : Z }.

Definition set_timing (d : RobotIoDaemon L) (timing_fault : bool) (sleep_error : Z)
    (realtime_guarantee : bool) : RobotIoDaemon L :=
  let t := dm_status d in
  with_status d
    (mkStatus (st_working_counter t) (st_expected_working_counter t) (st_consecutive_wkc_failures t)
       (st_safety_flags t) (st_process_data_valid t) (st_dc_deviation_ns t)
       (st_feedback_timestamp_ns t) (st_serial_servo_count t) (st_serial_fault_count t)
       (st_serial_safety_flags t) timing_fault sleep_error realtime_guarantee).

Definition cycle_system (s : system) (m : machine L) (ctx : RealtimeLoop.CycleContext) : system :=
  let '(m, master) := cycle_owned m (sy_master s) ctx in set_machine s m master.

(** The cycle of the loop that no sleep paces: the context is the one of [cycle]. *)
Definition unpaced_cycle (s : system) : system :=
  let m := sy_machine s in
  let now_ns := clock_at m 0 in
  cycle_system s (with_daemon m (mc_daemon m) 1) (cycle_context m now_ns).

(** The failure of the sleep. *)
Definition on_sleep_error (d : RobotIoDaemon L) (error : Z) : RobotIoDaemon L :=
  stop_now (set_timing d true error false).

(** The signal, as the loop sees it. *)
Definition observe_signal (s : system) (signal : bool) : system :=
  let signals := if signal then DaemonSignalLatch.deliver (sy_signals s) else sy_signals s in
  let s :=
    mkSystem (sy_machine s) (sy_master s) (sy_registered s) (sy_bound s) signals (sy_realtime s)
      (sy_thread s) in
  if DaemonSignalLatch.stop_requested signals then set_daemon s (stop_now (sy_daemon s)) else s.

(** One turn; the second component is [sleep_failed]. *)
Definition turn (s : system) (sleep_failed : bool) (w : wakeup) : system * bool :=
  let s := observe_signal s (wu_signal w) in
  if negb sleep_failed then
    let d := sy_daemon s in
    let '(l, (ctx, error)) :=
      RealtimeLoop.wait_next (dm_loop d) (wu_now_ns w) (wu_sleep_error w) (wu_started_ns w) in
    let s := set_daemon s (with_loop d l) in
    if error =? 0 then (cycle_system s (sy_machine s) ctx, false)
    else (unpaced_cycle (set_daemon s (on_sleep_error (sy_daemon s) error)), true)
  else (unpaced_cycle s, true).

(** The loop: it ended, it needs more wakeups, or a client used an object that is gone. *)
Inductive progress := ended (s : system) | going (s : system) | broken.

Fixpoint run_loop (s : system) (sleep_failed : bool) (ws : list wakeup) : progress :=
  if negb (dm_running (sy_daemon s)) || dm_shutdown_complete (sy_daemon s) then ended s
  else
    match ws with
    | [] => going s
    | w :: ws =>
        match client_steps (sy_daemon s) (wu_clients w) with
        | None => broken
        | Some d =>
            let '(s, sleep_failed) := turn (set_daemon s d) sleep_failed w in
            run_loop s sleep_failed ws
        end
    end.

(** [prepare], whose failure requests a stop. *)
Definition prepare_loop (s : system) (o : RealtimeLoop.Outcomes) : system * bool :=
  let d := sy_daemon s in
  let '(l, rt, t, r) := RealtimeLoop.prepare o (dm_loop d) (sy_realtime s) (sy_thread s) in
  let d := with_loop d l in
  let d :=
    match r with
    | failure _ => stop_now (set_timing d true (st_sleep_error (dm_status d)) false)
    | success status =>
        set_timing d (st_timing_fault (dm_status d)) (st_sleep_error (dm_status d))
          (RealtimeLoop.rs_realtime_guarantee status)
    end in
  let s := set_daemon s d in
  (mkSystem (sy_machine s) (sy_master s) (sy_registered s) (sy_bound s) (sy_signals s) rt t,
   negb (has_value r)).

Definition release_loop (s : system) (o : RealtimeLoop.Outcomes) : system :=
  let d := sy_daemon s in
  let '(l, rt, t) := RealtimeLoop.release o (dm_loop d) (sy_realtime s) (sy_thread s) in
  let s := set_daemon s (with_loop d l) in
  mkSystem (sy_machine s) (sy_master s) (sy_registered s) (sy_bound s) (sy_signals s) rt t.

(** After the loop. *)
Definition wind_down (s : system) (o : RealtimeLoop.Outcomes) : system :=
  let s := stop_transports (release_loop s o) in
  set_machine s (set_owner (sy_machine s) 0) (sy_master s).

(** [run]; it always returns success. *)
Definition run (s : system) (o : RealtimeLoop.Outcomes) (ws : list wakeup) : progress :=
  let m := sy_machine s in
  if negb (dm_running (sy_daemon s)) || negb (mc_owner m =? 0) then ended s
  else
    let s := set_machine s (set_owner m (mc_thread m)) (sy_master s) in
    let '(s, sleep_failed) := prepare_loop s o in
    match run_loop s sleep_failed ws with
    | ended s => ended (wind_down s o)
    | r => r
    end.

End Life.
Arguments system : clear implicits.
End DaemonLife.
