(* ===== verification/LifeFacts.v ===== *)
(** * Starting and stopping the daemon

    What [start] builds and what [stop_transports] takes down: a daemon that is quiet either
    becomes live or, when a stage fails, keeps a state from which [stop_transports] takes
    everything down. *)
From S2P Require Export DaemonLife.

Module LifeFacts.
Import DdsTypes CommandIngress Daemon DaemonCycle DaemonConfigure DaemonLife.
Open Scope list_scope.
Open Scope Z_scope.

(** ** The parts *)

(** *** CAN runtimes *)

Definition can_ok (h : TransportRuntime.heap unit) (buses : list nat) : Prop :=
  forall p, p ∈ buses -> exists r, TransportRuntime.h_runtimes h !! p = Some r /\
    TransportRuntime.mode_ r = TransportRuntime.can.

Definition active (h : TransportRuntime.heap unit) (p : nat) : Prop :=
  exists r, TransportRuntime.h_runtimes h !! p = Some r /\ TransportRuntime.mode_ r = TransportRuntime.can /\
    TransportRuntime.running_ r = true /\ TransportRuntime.worker_ r = Some (TransportRuntime.spawn p) /\
    TransportRuntime.receive_worker_ r = Some (TransportRuntime.spawn p).

Lemma can_ok_put h buses p r :
  can_ok h buses -> TransportRuntime.mode_ r = TransportRuntime.can ->
  can_ok (TransportRuntime.put h p r) buses.
Proof.
  intros Hok Hr q Hq. cbn. destruct (decide (q = p)) as [->|Hn].
  - rewrite lookup_insert_eq. eauto.
  - rewrite lookup_insert_ne by done. by apply Hok.
Qed.

Lemma stop_can h p r :
  TransportRuntime.mode_ r = TransportRuntime.can ->
  TransportRuntime.stop no_transport h p r =
  TransportRuntime.put h p
    (TransportRuntime.with_workers (TransportRuntime.with_running r false) None None).
Proof. intros Hm. unfold TransportRuntime.stop. rewrite Hm. by destruct (TransportRuntime.asynchronous_transport_ r). Qed.

(** [start] of a CAN runtime: it always returns, and only touches its own object. *)
Lemma start_can h p r s1 s2 :
  TransportRuntime.mode_ r = TransportRuntime.can -> TransportRuntime.h_runtimes h !! p = Some r ->
  exists x h', TransportRuntime.start no_transport h p r s1 s2 = Some (x, h') /\
    (forall q, q <> p -> TransportRuntime.h_runtimes h' !! q = TransportRuntime.h_runtimes h !! q) /\
    (exists r', TransportRuntime.h_runtimes h' !! p = Some r' /\
       TransportRuntime.mode_ r' = TransportRuntime.can) /\
    (x = success tt -> active h' p).
Proof.
  intros Hm Hp. unfold TransportRuntime.start. destruct (TransportRuntime.running_ r).
  { do 2 eexists. split; [reflexivity|]. split; [done|]. split; [eauto|done]. }
  cbn [TransportRuntime.mode_ TransportRuntime.with_running]. rewrite Hm.
  assert (forall r', TransportRuntime.mode_ r' = TransportRuntime.can ->
    (forall q, q <> p -> TransportRuntime.h_runtimes (TransportRuntime.put h p r') !! q =
      TransportRuntime.h_runtimes h !! q) /\
    (exists r'', TransportRuntime.h_runtimes (TransportRuntime.put h p r') !! p = Some r'' /\
      TransportRuntime.mode_ r'' = TransportRuntime.can)) as Hput.
  { intros r' Hr. split; [intros q Hq; by apply lookup_insert_ne|]. eexists. split; [apply lookup_insert_eq|done]. }
  destruct s1; [destruct s2|]; cbn [negb]; do 2 eexists; (split; [reflexivity|]); rewrite ?stop_can by done;
    (split; [apply Hput; done|]); (split; [apply Hput; done|]); try done.
  intros _. eexists. split; [apply lookup_insert_eq|]. by split_and!.
Qed.

Section Life.
Context {L : Type} `{SerialLink L} {B : Type} `{EthercatBackend B}.

Lemma start_buses_ok threads buses : forall k h all,
  can_ok h all -> buses ⊆ all -> NoDup buses ->
  let '(h', r) := start_buses threads k buses h in
  can_ok h' all /\ (forall q, q ∉ buses -> TransportRuntime.h_runtimes h' !! q = TransportRuntime.h_runtimes h !! q) /\
  match r with
  | returned (success _) => forall p, p ∈ buses -> active h' p
  | returned (failure _) => True
  | _ => False
  end.
Proof.
  induction buses as [|p buses IH]; intros k h all Hok Hsub Hnd; cbn [start_buses].
  { split; [done|]. split; [done|]. intros p Hp. set_solver. }
  apply NoDup_cons in Hnd as [Hn Hnd].
  destruct (Hok p ltac:(set_solver)) as (r & Hr & Hm). rewrite Hr.
  destruct (start_can h p r (threads k).1 (threads k).2 Hm Hr) as (x & h1 & -> & Hother & (r' & Hr' & Hm') & Hact).
  assert (can_ok h1 all) as Hok1.
  { intros q Hq. destruct (decide (q = p)) as [->|Hne]; [eauto|]. rewrite Hother by done. by apply Hok. }
  destruct x as [[]|e].
  - specialize (IH (S k) h1 all Hok1 ltac:(set_solver) Hnd).
    destruct (start_buses threads (S k) buses h1) as [h2 r2]. destruct IH as (Hok2 & Hrest & Hres).
    split; [done|]. split.
    { intros q Hq. rewrite Hrest by set_solver. apply Hother. set_solver. }
    destruct r2 as [[]| |]; try done. intros q [->|Hq]%elem_of_cons; [|by apply Hres].
    destruct (Hact eq_refl) as (ra & Ha & Hrest'). exists ra. by rewrite Hrest.
  - split; [done|]. split; [|done]. intros q Hq. apply Hother. set_solver.
Qed.

Lemma stop_buses_ok buses : forall h all,
  can_ok h all -> buses ⊆ all ->
  can_ok (stop_buses buses h) all /\ (forall p, p ∈ buses -> stopped (stop_buses buses h) p) /\
  (forall p, stopped h p -> stopped (stop_buses buses h) p).
Proof.
  induction buses as [|p buses IH]; intros h all Hok Hsub; cbn.
  { split; [done|]. split; [set_solver|done]. }
  destruct (Hok p ltac:(set_solver)) as (r & Hr & Hm). rewrite Hr, stop_can by done.
  set (r' := TransportRuntime.with_workers _ _ _).
  destruct (IH (TransportRuntime.put h p r') all) as (H1 & H2 & H3); [by apply can_ok_put|set_solver|].
  assert (stopped (TransportRuntime.put h p r') p) as Hs.
  { exists r'. split; [apply lookup_insert_eq|]. by split_and!. }
  split; [done|]. split.
  - intros q [->|Hq]%elem_of_cons; [by apply H3|by apply H2].
  - intros q (rq & Hq & Hrest). apply H3. destruct (decide (q = p)) as [->|Hn]; [done|].
    exists rq. cbn. by rewrite lookup_insert_ne.
Qed.

(** *** The serial registry *)

Context (this scheduler_address master_address : Z).

(** Either it has no scheduler and its buses are idle, or the daemon started it. *)
Definition serial_ok (g : Registry.St3215DeviceRegistry (L := L)) : Prop :=
  (Registry.rg_scheduler g = None /\ Registry.rg_running g = false /\
   Forall RegistryFacts.idle_bus (Registry.rg_buses g)) \/
  (Registry.rg_scheduler g = Some scheduler_address /\
   Forall (RegistryFacts.live_bus scheduler_address) (Registry.rg_buses g)).

Lemma bus_stop_idle entry m :
  RegistryFacts.idle_bus (L := L) entry -> Bus.stop (Registry.be_bus entry) m = (Registry.be_bus entry, m).
Proof. intros [Hr Hs]. unfold Bus.stop. by rewrite Hr, Hs. Qed.

Lemma stop_all_idle buses m :
  Forall (RegistryFacts.idle_bus (L := L)) buses ->
  Forall RegistryFacts.idle_bus (Registry.stop_all None buses m).1.
Proof.
  induction 1 as [|entry buses He Hb IH]; cbn; [constructor|].
  destruct (Registry.stop_all None buses m) as [buses' m']. rewrite bus_stop_idle by done.
  constructor; [exact He|done].
Qed.

Lemma stop_all_live buses m :
  Forall (RegistryFacts.live_bus (L := L) scheduler_address) buses ->
  Forall RegistryFacts.idle_bus (Registry.stop_all (Some scheduler_address) buses m).1.
Proof.
  induction 1 as [|entry buses He Hb IH]; cbn; [constructor|].
  destruct (Registry.stop_all _ buses m) as [buses' m'].
  pose proof (RegistryFacts.bus_stop_effect scheduler_address entry m' He) as Hs.
  destruct (Bus.stop_with _ _ _). constructor; [apply Hs|done].
Qed.

Lemma serial_stop g m : serial_ok g -> serial_idle (Registry.stop_with scheduler_address g m).1.
Proof.
  intros [(Hs & _ & Hb)|(Hs & Hb)]; unfold Registry.stop_with, Registry.stop; rewrite Hs, ?Z.eqb_refl.
  - pose proof (stop_all_idle _ m Hb). by destruct (Registry.stop_all _ _ _).
  - pose proof (stop_all_live _ m Hb). by destruct (Registry.stop_all _ _ _).
Qed.

Lemma serial_start lock_free now_ns g m :
  serial_idle g ->
  let '(g', m', r) := Registry.start (L := L) lock_free scheduler_address now_ns g m in
  serial_ok g' /\ length (Registry.rg_servos g') = length (Registry.rg_servos g) /\
  match r with
  | success _ => Registry.rg_running g' = true /\
      Forall (RegistryFacts.live_bus scheduler_address) (Registry.rg_buses g')
  | failure _ => True
  end.
Proof.
  intros (Hs & Hr & Hb).
  assert (forall g0 : Registry.St3215DeviceRegistry, g0 = g -> serial_ok g0) as Hg by (intros ? ->; left; done).
  unfold Registry.start. destruct (negb (Registry.rg_configured g) || Registry.rg_running g || _).
  { split; [by apply Hg|done]. }
  pose proof (RegistryFacts.start_loop_spec lock_free scheduler_address now_ns m (Registry.rg_buses g) [] m Hb
    ltac:(split; [constructor|split; [done|constructor]])) as Hl.
  destruct (Registry.start_loop _ _ _ _ _ _) as [[buses m'] [[]|e]]; cbn.
  - destruct Hl as [Hl _]. split; [right; done|]. done.
  - destruct Hl as [_ Hl]. split; [left; cbn; by rewrite Hs|done].
Qed.

(** *** The master *)

Abbreviation EthercatMaster := (Master.EthercatMaster B (machine L)).

(** The gate is shut. *)
Definition master_closed (m : EthercatMaster) : Prop := Master.admission_is_open m = false.

(** The handler of the daemon is the only one that runs on the daemon. *)
Definition drives (m : EthercatMaster) : Prop :=
  Master.hd_cycle (Master.em_handlers m) = None /\
  Master.hd_supervised (Master.em_handlers m) = Some (ethercat_cycle_handler (L := L)) /\
  Master.hd_context (Master.em_handlers m) = this.

Lemma closed_gate a : Master.gate_open (Z.land a Master.kCycleCountMask) = false.
Proof.
  unfold Master.gate_open. rewrite <- Z.land_assoc.
  replace (Z.land Master.kCycleCountMask Master.kCycleOpenBit) with 0 by reflexivity.
  by rewrite Z.land_0_r.
Qed.

Lemma close_closed (m : EthercatMaster) :
  master_closed (Master.close m) /\ Master.em_handlers (Master.close m) = Master.em_handlers m.
Proof.
  unfold master_closed, Master.admission_is_open, Master.close.
  destruct (negb _); [split; [apply closed_gate|done]|]. cbn.
  destruct (Master.em_backend m); cbn; (split; [apply closed_gate|done]).
Qed.

Lemma open_effect (m m' : EthercatMaster) r :
  Master.open m = (m', r) ->
  Master.em_handlers m' = Master.em_handlers m /\ 
  match r with
  | success _ => Master.em_admission m' = Master.kCycleOpenBit /\ is_Some (Master.em_backend m') /\
      length (Master.em_pdo_views m') = length (Master.em_pdo_views m)
  | failure _ => Master.em_admission m' = Master.em_admission m
  end.
Proof.
  unfold Master.open. destruct (Master.admission_is_open m); [by intros [= <- <-]|].
  destruct (Master.em_backend m) as [b|]; [|destruct (Master.validate_configuration m); by intros [= <- <-]].
  destruct (Master.validate_configuration m); [|by intros [= <- <-]].
  destruct (be_initialize b) as [b1 [[]|e]]; [|by intros [= <- <-]].
  destruct (Master.configure_axes b1 _) as [b2 [handles|e]]; [|by intros [= <- <-]].
  destruct (Master.bind_fields b2 _) as [[b3 fields] [[]|e]]; [|by intros [= <- <-]].
  destruct (be_activate b3) as [b4 [[]|e]]; [|by intros [= <- <-]].
  destruct (Master.take_generation _) as [generation next].
  destruct (Master.open_mailboxes _ _) as [[mailboxes opened] [[]|e]]; [|by intros [= <- <-]].
  intros [= <- <-]. cbn. rewrite length_map. split_and!; eauto.
Qed.

(** ** The states of the daemon *)

(** Nothing runs. *)
Record quiet (s : system L B) : Prop := {
  qu_running : dm_running (sy_daemon s) = false;
  qu_dds : forall i, dm_dds (sy_daemon s) = Some i ->
    DdsDaemonEndpoint.im_running i = false /\ DdsDaemonEndpoint.im_worker i = false;
  qu_serial : serial_idle (dm_serial (sy_daemon s));
  qu_can : forall p, p ∈ su_runtimes (dm_setup (sy_daemon s)) -> stopped (dm_heap (sy_daemon s)) p;
  qu_registered : sy_registered s = false;
  qu_bound : sy_bound s = false;
  qu_master : forall m, sy_master s = Some m -> master_closed m }.

(** Everything runs. *)
Record live (s : system L B) : Prop := {
  li_running : dm_running (sy_daemon s) = true;
  li_accepting : in_accepting (dm_ingress (sy_daemon s)) = true;
  li_dds : forall i, dm_dds (sy_daemon s) = Some i ->
    DdsDaemonEndpoint.im_running i = true /\ DdsDaemonEndpoint.im_worker i = true;
  li_serial : Registry.rg_running (dm_serial (sy_daemon s)) = true /\
    Forall (RegistryFacts.live_bus scheduler_address) (Registry.rg_buses (dm_serial (sy_daemon s)));
  li_can : forall p, p ∈ su_runtimes (dm_setup (sy_daemon s)) -> active (dm_heap (sy_daemon s)) p;
  li_master : forall m, sy_master s = Some m ->
    drives m /\ Master.em_admission m = Master.kCycleOpenBit /\ is_Some (Master.em_backend m);
  li_axes : axis_count (sy_daemon s) <> 0%nat -> is_Some (sy_master s) }.

(** What the daemon has started is recorded as started: enough for [stop_transports]. *)
Record owned (s : system L B) : Prop := {
  ow_serial : serial_ok (dm_serial (sy_daemon s));
  ow_can : can_ok (dm_heap (sy_daemon s)) (su_runtimes (dm_setup (sy_daemon s)));
  ow_unbound : sy_bound s = false -> forall m, sy_master s = Some m -> master_closed m;
  ow_masterless : sy_master s = None -> sy_registered s = false /\ sy_bound s = false }.

Lemma quiet_owned s : quiet s -> owned s.
Proof.
  intros []. split.
  - by left.
  - intros p Hp. destruct (qu_can0 p Hp) as (r & ? & ? & _). eauto.
  - intros _. done.
  - done.
Qed.

(** Taking the master down only touches the master and the scheduler. *)
Lemma close_master_spec s :
  owned s ->
  let s' := close_master this s in
  sy_daemon s' = sy_daemon s /\ sy_registered s' = sy_registered s /\
  (sy_master s = None <-> sy_master s' = None) /\
  sy_bound s' = false /\ forall m, sy_master s' = Some m -> master_closed m.
Proof.
  intros [_ _ Hun Hnone]. unfold close_master. destruct (sy_master s) as [master|] eqn:Em.
  - destruct (sy_bound s) eqn:Eb; [|rewrite Em, Eb; by split_and!; [..|apply Hun]].
    cbn. split_and!; try done. intros m [= <-]. destruct (close_closed master) as [Hclosed _].
    unfold Master.clear_supervised_cycle_handler. by destruct (_ || _ || _).
  - destruct (Hnone eq_refl) as [_ Hb]. rewrite Em, Hb. by split_and!.
Qed.

Lemma forget_master_spec (s : system L B) :
  (sy_master s = None -> sy_registered s = false) ->
  let s' := forget_master master_address s in
  (exists m, sy_daemon s' = with_scheduler (sy_daemon s) m) /\ sy_registered s' = false /\
  sy_master s' = sy_master s /\ sy_bound s' = sy_bound s.
Proof.
  intros Hnone. unfold forget_master.
  assert (exists m, sy_daemon s = with_scheduler (sy_daemon s) m) as Hsame.
  { exists (dm_scheduler (sy_daemon s)). by destruct (sy_daemon s). }
  destruct (sy_master s) as [master|] eqn:Em.
  - destruct (sy_registered s) eqn:Er; [|by split_and!]. split_and!; [|by cbn..].
    by eexists.
  - specialize (Hnone eq_refl). by split_and!.
Qed.

(** [stop_transports] takes everything down. *)
Lemma stop_transports_quiet s : owned s -> quiet (stop_transports this scheduler_address master_address s).
Proof.
  intros Hown. unfold stop_transports.
  set (d0 := with_dds _ _). pose proof Hown as [Hser Hcan Hun Hnone].
  pose proof (serial_stop (dm_serial d0) (dm_scheduler d0) Hser) as Hidle.
  destruct (Registry.stop_with _ _ _) as [g assigned]. cbn [fst] in Hidle. cbv zeta.
  set (d1 := with_serial d0 g assigned).
  destruct (stop_buses_ok (su_runtimes (dm_setup d1)) (dm_heap d1) (su_runtimes (dm_setup d1)) Hcan
    ltac:(done)) as (Hcan' & Hstopped & _).
  set (d2 := with_damiao d1 _ _).
  assert (forall i, dm_dds d2 = Some i ->
    DdsDaemonEndpoint.im_running i = false /\ DdsDaemonEndpoint.im_worker i = false) as Hdds.
  { intros i Hi. cbn in Hi. unfold DdsDaemonEndpoint.stop in Hi. apply fmap_Some in Hi as (i0 & _ & ->). done. }
  destruct (close_master_spec (set_daemon s d2)) as (Hd3 & Hr3 & Hm3 & Hb3 & Hc3).
  { split; [by left|exact Hcan'|exact Hun|exact Hnone]. }
  set (s3 := close_master this (set_daemon s d2)) in *.
  destruct (forget_master_spec s3) as ((m4 & Hd4) & Hr4 & Hm4 & Hb4).
  { intros Hn. rewrite Hr3. by apply Hnone, Hm3. }
  set (s4 := forget_master master_address s3) in *. rewrite Hd3 in Hd4.
  rewrite Hd4. split; cbn; [done|exact Hdds|exact Hidle|exact Hstopped|exact Hr4|congruence|].
  rewrite Hm4. exact Hc3.
Qed.

(** *** The stages of [start] *)

(** Before the master: it is not ours yet. *)
Record before_master (s : system L B) : Prop := {
  bm_owned : owned s;
  bm_running : dm_running (sy_daemon s) = false;
  bm_serial : serial_idle (dm_serial (sy_daemon s));
  bm_registered : sy_registered s = false;
  bm_bound : sy_bound s = false }.

(** The master, when there is one, is open and drives the daemon. *)
Definition master_live (s : system L B) : Prop :=
  (forall m, sy_master s = Some m ->
    drives m /\ Master.em_admission m = Master.kCycleOpenBit /\ is_Some (Master.em_backend m)) /\
  (axis_count (sy_daemon s) <> 0%nat -> is_Some (sy_master s)).

Record before_serial (s : system L B) : Prop := {
  bs_owned : owned s;
  bs_running : dm_running (sy_daemon s) = false;
  bs_serial : serial_idle (dm_serial (sy_daemon s));
  bs_master : master_live s }.

Definition down (s : system L B) : Prop := owned s /\ dm_running (sy_daemon s) = false.

Lemma construct_closed backend axes : master_closed (Master.construct backend axes).
Proof. reflexivity. Qed.

Lemma make_master_ok s o :
  before_master s ->
  let '(s', r) := make_master s o in
  before_master s' /\ sy_daemon s' = sy_daemon s /\
  (r = success tt -> axis_count (sy_daemon s') <> 0%nat -> is_Some (sy_master s')).
Proof.
  intros Hb. unfold make_master. destruct (sy_master s) as [m|] eqn:Em; cbn [Master.is_some orb].
  { split; [done|]. split; [done|]. rewrite Em. eauto. }
  destruct (Nat.eqb _ 0) eqn:En; [apply Nat.eqb_eq in En; by split_and!|].
  destruct (so_backend o) as [b|]; [|by split_and!].
  unfold create_ethercat. destruct (so_master o); [|by split_and!].
  destruct Hb as [[H1 H2 H3 H4] H5 H6 H7 H8]. split; [|split; [done|eauto]].
  split; try done. split; try done.
  intros _ m [= <-]. apply construct_closed.
Qed.

Lemma set_handler_effect (m m' : EthercatMaster) :
  Master.set_supervised_cycle_handler m (Some (ethercat_cycle_handler (L := L))) this = (m', success tt) ->
  master_closed m /\ drives m' /\ Master.em_admission m' = Master.em_admission m.
Proof.
  unfold Master.set_supervised_cycle_handler, master_closed. destruct (_ || _) eqn:E; [done|].
  intros [= <-]. apply orb_false_iff in E as [E _]. apply orb_false_iff in E as [E Hc].
  apply orb_false_iff in E as [E _]. split; [done|]. split; [|done]. split_and!; try done. cbn.
  by destruct (Master.hd_cycle _).
Qed.

Lemma unregister_unbind_down (s : system L B) :
  owned s -> dm_running (sy_daemon s) = false -> sy_master s <> None ->
  (forall m, sy_master s = Some m -> master_closed m) ->
  down (unregister master_address (unbind this s)).
Proof.
  intros [H1 H2 _ H4] Hr Hn Hc. unfold unbind. destruct (sy_master s) as [master|] eqn:Em; [|done].
  split; [|exact Hr]. split; try done. intros _ m [= <-].
  unfold Master.clear_supervised_cycle_handler. specialize (Hc master eq_refl). by destruct (_ || _ || _).
Qed.

Lemma open_master_ok s :
  before_master s -> (axis_count (sy_daemon s) <> 0%nat -> is_Some (sy_master s)) ->
  let '(s', r) := open_master this master_address s in
  match r with success _ => before_serial s' | failure _ => down s' end.
Proof.
  intros [Hown Hrun Hser Hreg Hbound] Haxes. pose proof Hown as [H1 H2 H3 H4]. unfold open_master.
  destruct (sy_master s) as [master|] eqn:Em.
  2:{ split; try done. split; [by rewrite Em|]. by rewrite Em. }
  destruct (TransportScheduler.add _ _ _) as [assigned [[]|e]]; [|by split].
  set (s1 := set_master _ (Some master) true _).
  destruct (Master.set_supervised_cycle_handler _ _ _) as [m1 [[]|e]] eqn:Eh.
  2:{ split; [|exact Hrun]. by split. }
  apply set_handler_effect in Eh as (Hc & Hd & Ha).
  destruct (Master.open m1) as [m2 [[]|e]] eqn:Eo; apply open_effect in Eo as (Hh & Ho).
  - destruct Ho as (Hadm & Hbk & _).
    split; [by split|done|done|]. split; [|by eexists]. intros m [= <-]. split; [|done].
    unfold drives. by rewrite Hh.
  - apply unregister_unbind_down; try done. cbn. intros m [= <-].
    unfold master_closed, Master.admission_is_open. rewrite Ho, Ha. exact Hc.
Qed.

Lemma start_serial_ok s o :
  before_serial s ->
  let '(s', r) := start_serial this scheduler_address master_address s o in
  match r with
  | success _ => owned s' /\ dm_running (sy_daemon s') = false /\ master_live s' /\
      Registry.rg_running (dm_serial (sy_daemon s')) = true /\
      Forall (RegistryFacts.live_bus scheduler_address) (Registry.rg_buses (dm_serial (sy_daemon s')))
  | failure _ => down s'
  end.
Proof.
  intros [Hown Hrun Hser Hm]. pose proof Hown as [H1 H2 H3 H4]. unfold start_serial.
  pose proof (serial_start (so_lock_free o) (so_serial_now_ns o) _ (dm_scheduler (sy_daemon s)) Hser) as Hs.
  destruct (Registry.start _ _ _ _ _) as [[g assigned] [[]|e]]; destruct Hs as (Hok & _ & Hlive).
  - destruct Hlive as [Hlr Hlb]. split_and!; [by split|exact Hrun|exact Hm|exact Hlr|exact Hlb].
  - set (s1 := set_daemon s _). assert (owned s1) as Ho1 by by split.
    destruct (close_master_spec s1 Ho1) as (Hd2 & Hr2 & Hm2 & Hb2 & Hc2).
    set (s2 := close_master this s1) in *.
    assert (owned s2) as Ho2.
    { destruct Ho1 as [G1 G2 G3 G4]. split; rewrite ?Hd2; try done.
      intros Hn%Hm2. rewrite Hr2, Hb2. split; [by apply G4|done]. }
    destruct (forget_master_spec s2) as ((m3 & Hd3) & Hr3 & Hm3 & Hb3); [intros Hn; by apply Ho2|].
    split; [|by rewrite Hd3, Hd2]. destruct Ho2 as [G1 G2 G3 G4].
    by split; rewrite ?Hd3, ?Hm3, ?Hb3, ?Hr3.
Qed.

(** The stages only touch their own members of the daemon. *)
Lemma open_master_daemon (s : system L B) :
  exists a, sy_daemon (open_master this master_address s).1 = with_scheduler (sy_daemon s) a.
Proof.
  assert (exists a, sy_daemon s = with_scheduler (sy_daemon s) a) as Hsame.
  { exists (dm_scheduler (sy_daemon s)). by destruct (sy_daemon s). }
  unfold open_master. destruct (sy_master s) as [master|]; [|done].
  destruct (TransportScheduler.add _ _ _) as [assigned [[]|e]]; [|done].
  destruct (Master.set_supervised_cycle_handler _ _ _) as [m1 [[]|e]]; [|by eexists].
  destruct (Master.open m1) as [m2 [[]|e]]; by eexists.
Qed.

Lemma start_serial_daemon (s : system L B) o :
  exists g a, (start_serial this scheduler_address master_address s o).2 = success tt ->
    sy_daemon (start_serial this scheduler_address master_address s o).1 = with_serial (sy_daemon s) g a.
Proof.
  unfold start_serial. destruct (Registry.start _ _ _ _ _) as [[g a] [[]|e]]; exists g, a; [done|discriminate].
Qed.

Lemma start_transports_ok s o :
  before_master s -> NoDup (su_runtimes (dm_setup (sy_daemon s))) ->
  (forall i, dm_dds (sy_daemon s) = Some i ->
    DdsDaemonEndpoint.im_running i = true /\ DdsDaemonEndpoint.im_worker i = true) ->
  let '(s', r) := start_transports this scheduler_address master_address s o in
  match r with returned (success _) => owned s' /\ live s' | _ => down s' end.
Proof.
  intros Hb Hnd Hdds. unfold start_transports.
  pose proof (make_master_ok s o Hb) as Hmk.
  destruct (make_master s o) as [s1 [[]|e]]; destruct Hmk as (Hb1 & Hd1 & Haxes);
    [|by split; [apply Hb1|rewrite Hd1; apply Hb]].
  pose proof (open_master_ok s1 Hb1 (Haxes eq_refl)) as Hop.
  pose proof (open_master_daemon s1) as (a1 & Ho1).
  destruct (open_master this master_address s1) as [s2 [[]|e]]; [|done]. cbn [fst] in Ho1.
  pose proof (start_serial_ok s2 o Hop) as Hse. pose proof (start_serial_daemon s2 o) as (g & a2 & Hs2).
  destruct (start_serial this scheduler_address master_address s2 o) as [s3 [[]|e]]; [|done].
  specialize (Hs2 eq_refl). cbn [fst] in Hs2.
  destruct Hse as ([K1 K2 K3 K4] & Hrun & Hml & Hsr & Hsb).
  assert (dm_setup (sy_daemon s3) = dm_setup (sy_daemon s) /\ dm_dds (sy_daemon s3) = dm_dds (sy_daemon s))
    as [Hsetup Hd3] by (rewrite Hs2, Ho1, Hd1; done).
  rewrite <- Hsetup in Hnd. rewrite <- Hd3 in Hdds.
  pose proof (start_buses_ok (so_bus_threads o) _ 0 (dm_heap (sy_daemon s3)) _ K2 ltac:(reflexivity) Hnd) as Hbuses.
  destruct (start_buses _ _ _ _) as [h r]. destruct Hbuses as (Hcan & _ & Hact).
  destruct r as [[[]|e]| |]; try (by split; [split|]).
  split; [by split|]. split; try done. all: by apply Hml.
Qed.

(** [start] of a daemon that is down: when it succeeds everything runs, and otherwise the daemon
    does not run and [stop_transports] still knows what to take down. *)
Lemma daemon_start_ok s o :
  quiet s -> NoDup (su_runtimes (dm_setup (sy_daemon s))) ->
  let '(s', r) := start this scheduler_address master_address s o in
  match r with returned (success _) => owned s' /\ live s' | _ => down s' end.
Proof.
  intros Hq Hnd. pose proof (quiet_owned s Hq) as Hown. pose proof Hq as [Q1 Q2 Q3 Q4 Q5 Q6 Q7].
  assert (down s) as Hdown by by split.
  unfold start. destruct (_ || _ || _ || _); [exact Hdown|]. destruct (negb _); [exact Hdown|].
  destruct (RealtimeLoop.validate_config _); [|exact Hdown].
  destruct (dm_dds (sy_daemon s)) as [i|] eqn:Ed.
  - unfold DdsDaemonEndpoint.start. destruct (DdsDaemonEndpoint.im_running i) eqn:Er.
    { split; [|exact Q1]. by destruct Hown. }
    destruct (so_dds_thread o).
    + apply start_transports_ok; [|exact Hnd|].
      * destruct Hown. by split.
      * cbn. by intros ? [= <-].
    + split; [|exact Q1]. by destruct Hown.
  - apply start_transports_ok; [by split|done|by rewrite Ed].
Qed.

(** A start that fails once the worker of DDS runs leaves it running, and the endpoint refuses to be
    started twice: every later [start] fails too, until [stop_transports]. *)
Lemma running_endpoint_refuses (s : system L B) i o :
  dm_dds (sy_daemon s) = Some i -> DdsDaemonEndpoint.im_running i = true ->
  (start this scheduler_address master_address s o).2 <> returned (success tt).
Proof.
  intros Hd Hr. unfold start. destruct (_ || _ || _ || _); [done|]. destruct (negb _); [done|].
  destruct (RealtimeLoop.validate_config _); [|done].
  rewrite Hd. unfold DdsDaemonEndpoint.start. by rewrite Hr.
Qed.

Lemma failed_start_is_final s i o o' :
  quiet s -> dm_dds (sy_daemon s) = Some i -> so_dds_thread o = true ->
  sy_master s = None -> axis_count (sy_daemon s) <> 0%nat -> so_backend o = None ->
  (start this scheduler_address master_address s o).2 =
    failed_with internal "failed to prepare EtherCAT transport: " ->
  (start this scheduler_address master_address
     (start this scheduler_address master_address s o).1 o').2 <> returned (success tt).
Proof.
  intros Hq Hd Ht Hm Hn Hb Hf. destruct (qu_dds _ Hq i Hd) as [Hr _].
  assert (exists i', dm_dds (sy_daemon (start this scheduler_address master_address s o).1) = Some i' /\
    DdsDaemonEndpoint.im_running i' = true) as (i' & Hi & Hr').
  { revert Hf. unfold start. destruct (_ || _ || _ || _); [done|]. destruct (negb _); [done|].
    destruct (RealtimeLoop.validate_config _) as [[]|e] eqn:E3.
    2:{ intros [= ->]. revert E3. unfold RealtimeLoop.validate_config. by case_all. }
    rewrite Hd. unfold DdsDaemonEndpoint.start. rewrite Hr, Ht. intros _.
    unfold start_transports, make_master.
    change (sy_master (set_daemon s _)) with (sy_master s). rewrite Hm. cbn [Master.is_some orb].
    change (axis_count (sy_daemon (set_daemon s _))) with (axis_count (sy_daemon s)).
    rewrite (proj2 (Nat.eqb_neq _ _) Hn), Hb. by eexists. }
  by eapply running_endpoint_refuses.
Qed.

(** C11. Starting and stopping.  A daemon of which nothing runs, whose buses have different
    runtimes, is started: on success everything runs (the DDS worker, the serial buses under the
    scheduler, both workers of every CAN bus, the master, open and bound to the daemon when there
    are axes) and commands are accepted; on any other outcome [running] is not set.  Whatever the
    outcome, [stop_transports] then leaves nothing running: every stage that [start] completed before
    it failed is taken down. *)
Theorem daemon_start_stop s o :
  quiet s -> NoDup (su_runtimes (dm_setup (sy_daemon s))) ->
  let '(s', r) := start this scheduler_address master_address s o in
  match r with
  | returned (success _) => live s'
  | _ => dm_running (sy_daemon s') = false
  end /\ quiet (stop_transports this scheduler_address master_address s').
Proof.
  intros Hq Hnd. pose proof (daemon_start_ok s o Hq Hnd) as Hs.
  destruct (start _ _ _ s o) as [s' r].
  assert (owned s') as Hown by (destruct r as [[[]|e]| |]; apply Hs).
  split; [|by apply stop_transports_quiet]. destruct r as [[[]|e]| |]; apply Hs.
Qed.

End Life.
End LifeFacts.
