(* ===== verification/DaemonRun.v ===== *)
(** * The run of the daemon

    The clients and the cycle keep what [start] has built, the stop conditions only move forward,
    and so [run] ends once a stop is requested, with nothing left running. *)
From S2P Require Export LifeFacts.

Module DaemonRun.
Import DdsTypes CommandIngress Daemon DaemonCycle DaemonConfigure DaemonLife LifeFacts.
Open Scope list_scope.
Open Scope Z_scope.

Section Life.
Context {L : Type} `{SerialLink L} {B : Type} `{EthercatBackend B}.
Context (this scheduler_address master_address : Z).

Abbreviation EthercatMaster := (Master.EthercatMaster B (machine L)).
#[local] Notation serial_ok g := (LifeFacts.serial_ok scheduler_address g).
#[local] Notation drives m := (LifeFacts.drives this m).
#[local] Notation owned s := (LifeFacts.owned scheduler_address s).

(** ** What the clients and the cycle keep *)

(** The transports stay as they were started; the stop conditions only move forward. *)
Definition buses_sound (d : RobotIoDaemon L) : Prop :=
  forall p, p ∈ su_runtimes (dm_setup d) -> sound (dm_heap d) p.

Record keeps_life (d d' : RobotIoDaemon L) : Prop := {
  kl_setup : keeps_setup d d';
  kl_serial : serial_ok (dm_serial d) -> serial_ok (dm_serial d');
  kl_buses : length (Registry.rg_buses (dm_serial d')) = length (Registry.rg_buses (dm_serial d));
  kl_can : can_ok (dm_heap d) (su_runtimes (dm_setup d)) -> can_ok (dm_heap d') (su_runtimes (dm_setup d));
  kl_running : dm_running d' = dm_running d;
  kl_sound : buses_sound d -> buses_sound d' }.

#[export] Instance keeps_life_preorder : PreOrder keeps_life.
Proof.
  split.
  - intros d. by split.
  - intros d1 d2 d3 [K1 K2 K3 K4 K5 K6] [J1 J2 J3 J4 J5 J6].
    split; [by etransitivity|auto|congruence| |congruence|auto].
    rewrite (ks_setup_same _ _ K1) in J4. auto.
Qed.

(** The clients and the parts of a cycle before the devices: the phases of the stop are not
    touched, and a requested stop stays requested. *)
Record keeps_stop (d d' : RobotIoDaemon L) : Prop := {
  kt_states : sv_states (in_safety (dm_ingress d')) = sv_states (in_safety (dm_ingress d));
  kt_stop : dm_stop_requested d = true -> dm_stop_requested d' = true;
  kt_complete : dm_shutdown_complete d' = dm_shutdown_complete d;
  kt_publication : dm_publication d' = dm_publication d }.

#[export] Instance keeps_stop_preorder : PreOrder keeps_stop.
Proof. split; [by split|]. intros d1 d2 d3 [] []. split; [congruence|auto|congruence|congruence]. Qed.

Lemma serial_servos (g : Registry.St3215DeviceRegistry (L := L)) servos : serial_ok g -> serial_ok (Registry.set_servos g servos).
Proof. by intros [H1|H1]; [left|right]. Qed.

Lemma registry_stage_effect (g : Registry.St3215DeviceRegistry (L := L)) index command now_ns :
  serial_ok g -> serial_ok (Registry.stage_command g index command now_ns).1 /\
  length (Registry.rg_buses (Registry.stage_command g index command now_ns).1) =
    length (Registry.rg_buses g).
Proof.
  intros Hg. unfold Registry.stage_command. destruct (_ !! index); [|done].
  destruct (Servo.stage_command _ _ _). split; [by apply serial_servos|done].
Qed.

(** A step of a bus does not change whether it runs. *)
Lemma bus_cycle_life s now_ns :
  Bus.bs_running (Bus.s_bus (Bus.cycle (L := L) s now_ns)) = Bus.bs_running (Bus.s_bus s) /\
  Bus.bs_scheduler (Bus.s_bus (Bus.cycle s now_ns)) = Bus.bs_scheduler (Bus.s_bus s).
Proof.
  set (life (s : Bus.state (L := L)) := (Bus.bs_running (Bus.s_bus s), Bus.bs_scheduler (Bus.s_bus s))).
  assert (life (Bus.cycle s now_ns) = life s) as Hl; [|by injection Hl].
  assert (forall s i servo r flags, life (Bus.latch s i servo r flags now_ns) = life s) as Hlatch.
  { intros s0 i servo r flags. unfold Bus.latch. by destruct (Bus.failed_feedback _ _ _ _ _). }
  assert (forall s i, life (Bus.poll_response s i now_ns) = life s) as Hpoll.
  { intros s0 i. unfold Bus.poll_response. destruct (_ !! i); [|done]. destruct (_ !! _); [|done]. cbv zeta.
    destruct (Bus.consume_response _ _ _ _) as [[l r'] [value|e]]; [done|].
    repeat case_match; rewrite ?Hlatch; done. }
  assert (forall s i, life (Bus.dispatch s i now_ns) = life s) as Hdis.
  { intros s0 i. unfold Bus.dispatch. destruct (_ !! i); [|done]. destruct (_ !! _); [|done]. cbv zeta.
    destruct (Bus.send_request _ _ _) as [[l r'] [value|e]]; [done|]. by rewrite Hlatch. }
  unfold Bus.cycle. destruct (_ || _); [done|]. cbv zeta. cbn [Bus.with_bus Bus.s_bus].
  destruct (Bus.bs_fault_latched _).
  { unfold Bus.report_latched. destruct (_ !! _); [|done]. destruct (_ !! _); [|done]. by rewrite Hlatch. }
  match goal with |- life (if _ then ?s1 else _) = _ => assert (life s1 = life s) as Hs1 by
    (destruct (Bus.bs_dispatched _); [by rewrite Hpoll|done]) end.
  destruct (Bus.bs_fault_latched _); [exact Hs1|].
  match goal with |- life (Bus.with_bus ?s2 (Bus.with_pending _ _ _)) = _ =>
    change (life s2 = life s) end.
  rewrite Hdis. exact Hs1.
Qed.

Lemma cycle_loop_life (P : Registry.BusEntry (L := L) -> Prop) buses :
  (forall entry bus, Bus.bs_running bus = Bus.bs_running (Registry.be_bus entry) ->
     Bus.bs_scheduler bus = Bus.bs_scheduler (Registry.be_bus entry) -> P entry -> P (Registry.set_bus entry bus)) ->
  forall servos clock, 
  length (Registry.cycle_loop buses servos clock).1 = length buses /\
  (Forall P buses -> Forall P (Registry.cycle_loop buses servos clock).1).
Proof.
  intros HP. induction buses as [|entry buses IH]; intros servos clock; [done|]. cbn.
  pose proof (bus_cycle_life (Bus.mkState (Registry.be_bus entry) servos) (clock 0%nat)) as [Hr Hs].
  specialize (IH (Bus.s_servos (Bus.cycle (Bus.mkState (Registry.be_bus entry) servos) (clock 0%nat)))
    (fun i => clock (S i))).
  destruct (Registry.cycle_loop _ _ _) as [buses' servos']. cbn in IH |- *. destruct IH as [IH1 IH2].
  split; [by rewrite IH1|]. intros [He Hb]%Forall_cons. constructor; [by apply HP|by apply IH2].
Qed.

Lemma registry_cycle_effect g clock :
  (serial_ok g -> serial_ok (Registry.cycle g clock)) /\
  length (Registry.rg_buses (Registry.cycle g clock)) = length (Registry.rg_buses g).
Proof.
  unfold Registry.cycle. destruct (Registry.rg_running g) eqn:Er; [|done]. cbn.
  pose proof (cycle_loop_life (RegistryFacts.live_bus scheduler_address) (Registry.rg_buses g)) as Hlive.
  pose proof (cycle_loop_life RegistryFacts.idle_bus (Registry.rg_buses g)) as Hidle.
  destruct (Hlive ltac:(intros entry bus Hr Hs []; split; cbn; congruence) (Registry.rg_servos g) clock) as [Hn Hl].
  destruct (Hidle ltac:(intros entry bus Hr Hs []; split; cbn; congruence) (Registry.rg_servos g) clock) as [_ Hi].
  destruct (Registry.cycle_loop _ _ _) as [buses servos]. cbn in *. split; [|done].
  intros [(H1 & H2 & H3)|(H1 & H2)]; [congruence|right]; cbn; auto.
Qed.

(** The objects of a heap stay, with their modes, and sound ones stay sound. *)
Definition modes_kept (h h' : TransportRuntime.heap unit) : Prop :=
  forall q r, TransportRuntime.h_runtimes h !! q = Some r ->
    exists r', TransportRuntime.h_runtimes h' !! q = Some r' /\
      TransportRuntime.mode_ r' = TransportRuntime.mode_ r /\
      (runtime_sound q r -> runtime_sound q r').

Lemma can_ok_modes h h' buses : modes_kept h h' -> can_ok h buses -> can_ok h' buses.
Proof.
  intros Hm Hok p Hp. destruct (Hok p Hp) as (r & Hr & Hc). destruct (Hm p r Hr) as (r' & Hr' & Hc' & _).
  exists r'. split; [done|congruence].
Qed.

Lemma sound_modes h h' p : modes_kept h h' -> sound h p -> sound h' p.
Proof.
  intros Hm (r & Hr & Hs). destruct (Hm p r Hr) as (r' & Hr' & _ & Hs'). exists r'. auto.
Qed.

Lemma modes_same h h' : TransportRuntime.h_runtimes h' = TransportRuntime.h_runtimes h -> modes_kept h h'.
Proof. intros Hh q r Hq. rewrite Hh. eauto. Qed.

Lemma modes_put h h' p r0 r1 :
  TransportRuntime.h_runtimes h !! p = Some r0 -> TransportRuntime.mode_ r1 = TransportRuntime.mode_ r0 ->
  (runtime_sound p r0 -> runtime_sound p r1) ->
  TransportRuntime.h_runtimes h' = TransportRuntime.h_runtimes (TransportRuntime.put h p r1) -> modes_kept h h'.
Proof.
  intros Hp Hm Hs Hh q r Hq. rewrite Hh. cbn. destruct (decide (q = p)) as [->|Hn].
  - rewrite lookup_insert_eq. replace r with r0 by congruence. eauto.
  - rewrite lookup_insert_ne by done. eauto.
Qed.

Lemma set_worker_modes h p w w0 r :
  TransportRuntime.h_runtimes h !! p = Some r -> TransportRuntime.worker_ r = Some w0 ->
  TransportRuntime.wk_self w = TransportRuntime.wk_self w0 -> modes_kept h (TransportRuntime.set_worker h p w).
Proof.
  intros Hr Hw Hself. unfold TransportRuntime.set_worker. rewrite Hr.
  eapply modes_put; [exact Hr| | |reflexivity]; [done|].
  intros [S1 S2 S3 S4 S5]. split; try done. intros ? [= <-]. rewrite Hself. by apply S3.
Qed.

Lemma set_receive_worker_modes h p w w0 r :
  TransportRuntime.h_runtimes h !! p = Some r -> TransportRuntime.receive_worker_ r = Some w0 ->
  TransportRuntime.wk_self w = TransportRuntime.wk_self w0 ->
  modes_kept h (TransportRuntime.set_receive_worker h p w).
Proof.
  intros Hr Hw Hself. unfold TransportRuntime.set_receive_worker. rewrite Hr.
  eapply modes_put; [exact Hr| | |reflexivity]; [done|].
  intros [S1 S2 S3 S4 S5]. split; try done. intros ? [= <-]. rewrite Hself. by apply S4.
Qed.

(** The worker keeps the frames it sends in their slots. *)
Lemma send_slots_frames (t : SocketCan.SocketCanTransport nat) slots writes slots' sent :
  TransportRuntime.send_slots t 0 slots writes = Some (slots', sent) ->
  forall slot, slot ∈ slots' -> exists slot0, slot0 ∈ slots /\
    TransportRuntime.mailbox slot = TransportRuntime.mailbox slot0.
Proof.
  intros Hs slot Hin. apply TransportRuntime.send_slots_spec in Hs as (Hlen & _ & Hj).
  apply list_elem_of_lookup in Hin as [j Hj'].
  destruct (lookup_lt_is_Some_2 slots j) as [s0 Hs0]; [rewrite <- Hlen; by eapply lookup_lt_Some|].
  destruct (Hj j s0 Hs0) as (s1 & Hs1 & E). replace s1 with slot in * by congruence.
  exists s0. split; [by eapply list_elem_of_lookup_2|].
  by apply TransportRuntime.send_slot_spec in E as [(_ & -> & _)|(f & c & _ & _ & _ & -> & _)].
Qed.

Lemma cycle_turn_modes h p writes h' :
  TransportRuntime.cycle_turn no_transport h p writes = Some h' -> modes_kept h h'.
Proof.
  unfold TransportRuntime.cycle_turn. intros Hc. apply bind_Some in Hc as (r & Hr & Hc).
  destruct (TransportRuntime.worker_ r) as [w|] eqn:Ew; [|injection Hc as <-; by apply modes_same].
  destruct (TransportRuntime.wk_done w); [injection Hc as <-; by apply modes_same|].
  apply bind_Some in Hc as (self & Hs & Hc).
  destruct (negb _); [injection Hc as <-; by eapply set_worker_modes|].
  destruct (TransportRuntime.mode_ self) eqn:Em.
  - apply bind_Some in Hc as (q & _ & Hc). apply bind_Some in Hc as (t & _ & Hc). injection Hc as <-.
    by eapply (set_worker_modes (TransportRuntime.with_transport h q _)).
  - apply bind_Some in Hc as (t & _ & Hc). apply bind_Some in Hc as ([slots sent] & Hsl & Hc).
    injection Hc as <-. eapply modes_put; [exact Hs| | |reflexivity]; [done|].
    intros [S1 S2 S3 S4 S5]. split; try done. intros slot frame Hin Hf.
    destruct (send_slots_frames _ _ _ _ _ Hsl slot Hin) as (s0 & Hs0 & Hm).
    apply (S5 s0); [done|congruence].
Qed.

Lemma receive_turn_modes h p o h' :
  TransportRuntime.receive_turn no_transport h p o = Some h' -> modes_kept h h'.
Proof.
  unfold TransportRuntime.receive_turn. intros Hc. apply bind_Some in Hc as (r & Hr & Hc).
  destruct (TransportRuntime.receive_worker_ r) as [w|] eqn:Ew; [|injection Hc as <-; by apply modes_same].
  destruct (TransportRuntime.wk_done w); [injection Hc as <-; by apply modes_same|].
  apply bind_Some in Hc as (self & Hs & Hc).
  destruct (negb _); [injection Hc as <-; by eapply set_receive_worker_modes|].
  destruct (TransportRuntime.mode_ self) eqn:Em.
  - destruct (TransportRuntime.asynchronous_transport_ self); [|done].
    apply bind_Some in Hc as (q & _ & Hc). apply bind_Some in Hc as (t & _ & Hc). injection Hc as <-.
    by apply modes_same.
  - apply bind_Some in Hc as (t & _ & Hc).
    destruct (SocketCan.receive_once t o) as [[handler frame]|]; [|injection Hc as <-; by apply modes_same].
    unfold TransportRuntime.on_frame in Hc. apply bind_Some in Hc as (target & Ht & Hc).
    injection Hc as <-. eapply modes_put; [exact Ht| | |by destruct (TransportRuntime.callback_ target)]; [done|].
    intros [S1 S2 S3 S4 S5]. by split.
Qed.

Lemma stage_frame_modes h runtimes k slot frame :
  TransportRuntime.can_of frame <> None -> modes_kept h (stage_frame h runtimes k slot frame).
Proof.
  intros Hf. unfold stage_frame. destruct (runtimes !! k) as [p|]; [|by apply modes_same].
  destruct (_ !! p) as [r|] eqn:E; [|by apply modes_same].
  assert (TransportRuntime.mode_ (TransportRuntime.stage r slot frame).2 = TransportRuntime.mode_ r /\
    (runtime_sound p r -> runtime_sound p (TransportRuntime.stage r slot frame).2)) as [Hm Hs].
  { unfold TransportRuntime.stage. destruct (TransportRuntime.mode_ r) eqn:Em; [done|].
    destruct (_ !! slot) as [s|] eqn:Es; [|done]. destruct (_ <? _); [done|]. split; [exact Em|].
    intros [S1 S2 S3 S4 S5]. split; try done. cbn. intros s' f Hin.
    apply list_elem_of_lookup in Hin as [j Hj]. apply list_lookup_insert_Some in Hj as [(_ & <- & _)|[_ Hj]].
    - cbn. unfold CommandMailbox.publish. congruence.
    - apply S5. by eapply list_elem_of_lookup_2. }
  eapply modes_put; [exact E|exact Hm|exact Hs|reflexivity].
Qed.

(** A Damiao frame has eight bytes. *)
Lemma damiao_frame_size actuator value actuator' frame :
  damiao_frame actuator value = (actuator', success frame) -> fr_size frame = 8.
Proof.
  unfold damiao_frame, DamiaoDevice.encode_frame. intros [= _ Hf]. revert Hf.
  repeat case_match; by intros [= <-].
Qed.

Lemma sized_frame frame sequence :
  fr_size frame = 8 -> TransportRuntime.can_of (with_frame_sequence frame sequence) <> None.
Proof. intros Hs. unfold TransportRuntime.can_of. cbn. by rewrite Hs. Qed.

(** *** The clients *)

(** A step outside the cycle keeps everything. *)
Definition keeps (d d' : RobotIoDaemon L) : Prop := keeps_life d d' /\ keeps_stop d d'.

#[export] Instance keeps_preorder : PreOrder keeps.
Proof. split; [by split|]. intros d1 d2 d3 [] []. split; by etransitivity. Qed.

(** Only DDS members, counters or the Damiao actuators change. *)
Lemma daemon_keeps_same d d' :
  keeps_setup d d' -> dm_serial d' = dm_serial d -> modes_kept (dm_heap d) (dm_heap d') ->
  dm_running d' = dm_running d -> dm_stop_requested d' = dm_stop_requested d ->
  dm_shutdown_complete d' = dm_shutdown_complete d ->
  dm_publication d' = dm_publication d ->
  sv_states (in_safety (dm_ingress d')) = sv_states (in_safety (dm_ingress d)) -> keeps d d'.
Proof.
  intros H1 H2 H3 H4 H5 H6 H7 H8. split; split; try done; try congruence.
  - by apply can_ok_modes.
  - intros Hs p. rewrite (ks_setup_same _ _ H1). intros Hp. eapply sound_modes; [exact H3|]. by apply Hs.
Qed.

Ltac same := apply daemon_keeps_same; cbn; try done; try by apply modes_same.

Lemma stage_commands_kept d snapshot now_ns : keeps d (Daemon.stage_commands d snapshot now_ns).1.
Proof.
  pose proof (stage_commands_keeps d snapshot now_ns) as Hk. unfold Daemon.stage_commands in *.
  pose proof (stage_safety (dm_ingress d) snapshot now_ns) as Hs.
  destruct (CommandIngress.stage_commands _ _ _) as [i a]. cbn in *. same. by rewrite Hs.
Qed.

Lemma stage_servo_kept d index command now_ns :
  keeps d (Daemon.stage_servo_command d index command now_ns).1.
Proof.
  pose proof (stage_servo_keeps d index command now_ns) as Hk. unfold Daemon.stage_servo_command in *.
  destruct (negb _); [reflexivity|].
  pose proof (registry_stage_effect (dm_serial d) index command now_ns) as Hs.
  assert (length (Registry.rg_buses (Registry.stage_command (dm_serial d) index command now_ns).1) =
    length (Registry.rg_buses (dm_serial d))) as Hn.
  { unfold Registry.stage_command. destruct (_ !! index); [|done]. by destruct (Servo.stage_command _ _ _). }
  destruct (Registry.stage_command _ _ _ _) as [g a]. cbn in *. split; split; try done. intros Hg. by apply Hs.
Qed.

Lemma deliver_kept now_ns d o : keeps d (Daemon.deliver now_ns d o).
Proof.
  destruct o; cbn; try reflexivity.
  - unfold stage_ethercat_epoch. destruct (negb _); [reflexivity|]. apply stage_commands_kept.
  - pose proof (deliver_keeps now_ns d (DdsDaemonEndpoint.out_damiao actuator_index command)) as Hk.
    cbn in Hk. unfold stage_damiao_command in *.
    destruct (mjoin _) as [r|]; [|reflexivity]. destruct (_ !! _) as [a|]; [|reflexivity].
    destruct (damiao_frame _ _) as [a' [frame|e]] eqn:Ef; same.
    apply stage_frame_modes, sized_frame. by eapply damiao_frame_size.
  - apply stage_servo_kept.
Qed.

Lemma fold_kept {A} (f : RobotIoDaemon L -> A -> RobotIoDaemon L) (l : list A) :
  (forall d a, keeps d (f d a)) -> forall d, keeps d (fold_left f l d).
Proof. intros Hf. induction l as [|a l IH]; intros d; [reflexivity|]. cbn. etransitivity; [apply Hf|apply IH]. Qed.

Lemma client_step_kept d o d' : client_step d o = Some d' -> keeps d d'.
Proof.
  destruct o; cbn.
  - intros [= <-]. apply stage_commands_kept.
  - intros [= <-]. apply stage_servo_kept.
  - intros [= <-]. unfold dds_access. destruct (dm_dds d) as [i|]; [|reflexivity].
    destruct (DdsDaemonEndpoint.perform _ _) as [[i' outputs] ?].
    transitivity (with_dds d (Some i')); [same|]. apply fold_kept. intros. apply deliver_kept.
  - unfold can_receive. intros Hc. destruct (_ !! k) as [p|]; [|injection Hc as <-; reflexivity].
    apply bind_Some in Hc as (h & Hh & [= <-]).
    etransitivity; [|apply fold_kept]; [same; by eapply receive_turn_modes|].
    intros d0 [[q frame] sequence]. unfold run_callback. destruct (list_find _ _) as [[? ?]|]; [|reflexivity].
    unfold receive_callback. destruct (dm_dds d0); [|reflexivity].
    destruct (receiver _ _ _) as [[? ?]|]; [|reflexivity]. destruct (DamiaoDevice.decode _ _); [|reflexivity].
    same.
  - unfold can_send. intros Hc. destruct (_ !! k) as [p|]; [|injection Hc as <-; reflexivity].
    apply bind_Some in Hc as (h & Hh & [= <-]). same; by eapply cycle_turn_modes.
  - intros [= <-]. unfold request_stop. destruct (negb _); [reflexivity|]. by split; split.
Qed.

Lemma client_steps_kept os : forall d d', client_steps d os = Some d' -> keeps d d'.
Proof.
  induction os as [|o os IH]; intros d d'; cbn; [by intros [= <-]|].
  intros Hc. apply bind_Some in Hc as (d1 & H1 & Hc). etransitivity; [by eapply client_step_kept|by apply IH].
Qed.

(** The workers of sound buses stay within the behaviour of C++. *)
Lemma client_step_defined (d : RobotIoDaemon L) o : buses_sound d -> exists d', client_step d o = Some d'.
Proof.
  intros Hd. destruct o; cbn; try by eexists.
  - unfold can_receive. destruct (_ !! k) as [p|] eqn:Ep; [|by eexists].
    apply list_elem_of_lookup_2 in Ep. destruct (Hd p Ep) as (r & Hr & [S1 (t & S2 & S2') S3 S4 S5]).
    unfold TransportRuntime.receive_turn. rewrite Hr. cbn [mbind option_bind].
    destruct (TransportRuntime.receive_worker_ r) as [w|] eqn:Ew; [|by eexists].
    destruct (TransportRuntime.wk_done w); [by eexists|]. rewrite (S4 _ eq_refl), Hr. cbn [mbind option_bind].
    destruct (negb _); [by eexists|]. rewrite S1, S2. cbn [mbind option_bind].
    unfold SocketCan.receive_once. rewrite S2'.
    destruct (SocketCan.receive_frame t o) as [[frame|]|e]; [|by eexists..].
    unfold TransportRuntime.on_frame. rewrite Hr. by eexists.
  - unfold can_send. destruct (_ !! k) as [p|] eqn:Ep; [|by eexists].
    apply list_elem_of_lookup_2 in Ep. destruct (Hd p Ep) as (r & Hr & [S1 (t & S2 & S2') S3 S4 S5]).
    unfold TransportRuntime.cycle_turn. rewrite Hr. cbn [mbind option_bind].
    destruct (TransportRuntime.worker_ r) as [w|] eqn:Ew; [|by eexists].
    destruct (TransportRuntime.wk_done w); [by eexists|]. rewrite (S3 _ eq_refl), Hr. cbn [mbind option_bind].
    destruct (negb _); [by eexists|]. rewrite S1, S2. cbn [mbind option_bind].
    destruct (TransportRuntime.send_slots_defined t 0 (TransportRuntime.slots_ r) writes S5) as [[slots sent] ->].
    by eexists.
Qed.

Lemma client_steps_defined os : forall d : RobotIoDaemon L,
  buses_sound d -> exists d', client_steps d os = Some d'.
Proof.
  induction os as [|o os IH]; intros d Hd; cbn; [by eexists|].
  destruct (client_step_defined d o Hd) as [d1 H1]. rewrite H1. cbn. apply IH.
  apply client_step_kept in H1 as [Hk _]. by apply (kl_sound _ _ Hk).
Qed.

(** *** The cycle *)

Lemma before_exchange_kept m ctx :
  let m' := before_exchange m ctx in
  keeps (mc_daemon m) (mc_daemon m') /\ mc_owner m' = mc_owner m /\ mc_thread m' = mc_thread m /\
  mc_clock m' = mc_clock m /\
  mc_ticks m' = (mc_ticks m + 1 + length (Registry.rg_buses (dm_serial (mc_daemon m))) + 1)%nat.
Proof.
  cbv zeta. pose proof (before_exchange_keeps m ctx) as Hk.
  unfold before_exchange, refresh_commands_owned, CommandIngress.refresh_commands_owned in *.
  pose proof (consume_frame (dm_ingress (mc_daemon m)) (clock_at m 0)) as Hf. cbv zeta in Hf.
  destruct (consume_staged_commands _ _) as [i acceptance]. cbn in Hf, Hk |- *. split; [|done].
  destruct (registry_cycle_effect (dm_serial (mc_daemon m))
    (clock_at (with_daemon m (with_ingress (mc_daemon m) i) 1))) as [Hs Hn].
  unfold publish_servos in *. cbn in *. destruct (dm_dds (mc_daemon m)); split; split; cbn; try done; tauto.
Qed.

Lemma process_life d pdos domain valid consumed_ns now_ns :
  keeps_life d (process_device_cycle_owned d pdos domain valid consumed_ns now_ns).1.
Proof.
  pose proof (process_keeps d pdos domain valid consumed_ns now_ns) as Hk.
  unfold process_device_cycle_owned in *. destruct (_ || _); [by split|].
  unfold evaluate_devices in *. cbv zeta in *.
  assert (forall d0 : RobotIoDaemon L, dm_serial (apply_stop d0 now_ns) = dm_serial d0 /\
    dm_heap (apply_stop d0 now_ns) = dm_heap d0 /\ dm_running (apply_stop d0 now_ns) = dm_running d0 /\
    dm_setup (apply_stop d0 now_ns) = dm_setup d0) as Ha.
  { intros d0. unfold apply_stop. by destruct (dm_stop_requested d0). }
  destruct (Ha (with_ingress d (consume_staged_commands (dm_ingress d) consumed_ns).1)) as (H1 & H2 & H3 & H4).
  destruct (Supervisor.evaluate _ _ _ _) as [safety decisions].
  destruct (axis_loop _ _ _ _ _ _) as [[axes pdos'] values]. cbn in *.
  split; [exact Hk|..]; unfold buses_sound; cbn; rewrite ?H1, ?H2, ?H3, ?H4; try done; by intros.
Qed.

Lemma axis_loop_length sequence now_ns axes : forall commands flags pdos,
  length (axis_loop sequence now_ns axes commands flags pdos).1.2 = length pdos.
Proof.
  induction axes as [|a axes IH]; intros [|c commands] [|f flags] [|p pdos]; try done. cbn.
  destruct (Axis.cycle a c p) as [[a' p'] v]. specialize (IH commands flags pdos).
  destruct (axis_loop _ _ _ _ _ _) as [[? ?] ?]. cbn in *. by f_equal.
Qed.

Lemma process_length d pdos domain valid consumed_ns now_ns :
  length (process_device_cycle_owned (L := L) d pdos domain valid consumed_ns now_ns).2 = length pdos.
Proof.
  unfold process_device_cycle_owned. destruct (_ || _); [done|]. unfold evaluate_devices. cbv zeta.
  destruct (Supervisor.evaluate _ _ _ _) as [safety decisions].
  match goal with |- context [axis_loop ?a ?b ?c ?d ?e ?f] => pose proof (axis_loop_length a b c d e f) as Hl;
    destruct (axis_loop a b c d e f) as [[axes pdos'] values] end. exact Hl.
Qed.

(** *** The stop *)

(** Every axis is disabled, or stopping since [since] at the latest. *)
Definition stopping (since : Z) (d : RobotIoDaemon L) : Prop :=
  forall i, (i < axis_count d)%nat ->
    Supervisor.phase_at (in_safety (dm_ingress d)) i = disabled \/
    (Supervisor.phase_at (in_safety (dm_ingress d)) i = quick_stopping /\
     ss_stop_started_ns (Supervisor.state_at (in_safety (dm_ingress d)) i) <= since).

(** No stop started after [now_ns]. *)
Definition past_stops (now_ns : Z) (d : RobotIoDaemon L) : Prop :=
  forall i, (i < axis_count d)%nat ->
    Supervisor.phase_at (in_safety (dm_ingress d)) i = quick_stopping ->
    ss_stop_started_ns (Supervisor.state_at (in_safety (dm_ingress d)) i) <= now_ns.

Definition stop_timeout (d : RobotIoDaemon L) : Z :=
  so_safe_stop_timeout (sv_options (in_safety (dm_ingress d))).

Lemma keeps_stopping since d d' : keeps d d' -> stopping since d -> stopping since d'.
Proof.
  intros [[Hk _ _ _ _] [Hs _ _]] Hst i Hi. unfold axis_count in *. rewrite (ks_setup_same _ _ Hk) in Hi.
  specialize (Hst i Hi). unfold Supervisor.phase_at, Supervisor.state_at in *. by rewrite Hs.
Qed.

Lemma keeps_past now_ns d d' : keeps d d' -> past_stops now_ns d -> past_stops now_ns d'.
Proof.
  intros [[Hk _ _ _ _] [Hs _ _]] Hst i Hi. unfold axis_count in *. rewrite (ks_setup_same _ _ Hk) in Hi.
  specialize (Hst i Hi). unfold Supervisor.phase_at, Supervisor.state_at in *. by rewrite Hs.
Qed.

Lemma shutdown_frame v now_ns :
  let v' := Supervisor.request_shutdown v now_ns in
  sv_shutdown_requested v' = true /\ sv_states v' = sv_states v /\ sv_options v' = sv_options v /\
  sv_axis_count v' = sv_axis_count v /\ sv_configured v' = sv_configured v.
Proof. unfold Supervisor.request_shutdown. by destruct (sv_shutdown_requested v) eqn:E. Qed.

(** A device cycle of a daemon that stops: the stop starts, or goes on, and after its time limit it
    is complete. *)
Lemma process_stopping profile d pdos domain valid consumed_ns now_ns :
  daemon_for profile d -> dm_running d = true -> dm_stop_requested d = true ->
  length pdos = axis_count d ->
  let d' := (process_device_cycle_owned d pdos domain valid consumed_ns now_ns).1 in
  dm_stop_requested d' = true /\
  (past_stops now_ns d -> stopping now_ns d') /\
  forall since, stopping since d ->
    stopping since d' /\ (since + stop_timeout d <= now_ns -> dm_shutdown_complete d' = true).
Proof.
  intros Hf Hrun Hstop Hl. unfold process_device_cycle_owned. rewrite Hrun, Hl, Nat.eqb_refl. cbn [negb orb].
  set (d1 := with_ingress d _).
  pose proof (consume_frame (dm_ingress d) consumed_ns) as Hc. cbv zeta in Hc.
  destruct Hc as (_ & Hcn & Hcr & Hcs & Hco & _).
  unfold evaluate_devices, apply_stop. change (dm_stop_requested d1) with (dm_stop_requested d).
  rewrite Hstop. cbv zeta. cbn [with_ingress dm_ingress set_accepting set_safety in_safety].
  set (s := Supervisor.request_shutdown _ _).
  assert (sv_shutdown_requested s = true /\ sv_states s = sv_states (in_safety (dm_ingress d)) /\
    sv_options s = sv_options (in_safety (dm_ingress d)) /\ sv_axis_count s = axis_count d /\
    Supervisor.evaluable s pdos = true) as (Hreq & Hst & Hopt & Hn & Hev).
  { destruct (shutdown_frame (in_safety (consume_staged_commands (dm_ingress d) consumed_ns).1) now_ns)
      as (F1 & F2 & F3 & F4 & F5). change (Supervisor.request_shutdown _ now_ns) with s in F1, F2, F3, F4, F5.
    assert (axis_count d = length (rp_axes profile)) as Hcount
      by (unfold axis_count; by rewrite (df_axis_configurations _ _ Hf)).
    assert (sv_axis_count s = axis_count d) as Hn by (rewrite F4, Hcn, Hcount; apply (df_count _ _ Hf)).
    split_and!; [done|congruence|congruence|done|].
    unfold Supervisor.evaluable. rewrite F5, Hcr, (df_ready _ _ Hf), Hl, Hn. apply Nat.eqb_refl. }
  match goal with |- context [Supervisor.evaluate s ?b pdos now_ns] =>
    pose proof (fun i Hi => Supervisor.evaluate_shutdown s b pdos now_ns i Hreq Hev Hi) as Hsh;
    pose proof (Supervisor.evaluate_complete s b pdos now_ns Hreq Hev) as Hco';
    destruct (Supervisor.evaluate s b pdos now_ns) as [safety decisions] end.
  destruct (axis_loop _ _ _ _ _ _) as [[axes pdos'] values]. cbn in Hsh, Hco'.
  assert (forall i, Supervisor.phase_at s i = Supervisor.phase_at (in_safety (dm_ingress d)) i /\
    Supervisor.state_at s i = Supervisor.state_at (in_safety (dm_ingress d)) i) as Hsame.
  { intros i. unfold Supervisor.phase_at, Supervisor.state_at. by rewrite Hst. }
  split; [exact Hstop|]. split.
  - intros Hpast i Hi. change (axis_count _) with (axis_count d) in Hi. cbn.
    destruct (Hsh i ltac:(lia)) as [[Hd _]|(Hp & _ & [[_ Hs]|(Hq & Hs & _)])]; [by left|right; split; [done|lia]|].
    right. split; [done|]. rewrite Hs. destruct (Hsame i) as [H1 H2]. rewrite H2. apply Hpast; [done|by rewrite <- H1].
  - intros since Hsince. split.
    + intros i Hi. change (axis_count _) with (axis_count d) in Hi. cbn. destruct (Hsame i) as [H1 H2].
      destruct (Hsh i ltac:(lia)) as [[Hd _]|(Hp & _ & [[Hr _]|(Hq & Hs & _)])]; [by left|..].
      * exfalso. destruct (Hsince i Hi) as [Hx|[Hx _]]; congruence.
      * right. split; [done|]. rewrite Hs, H2. destruct (Hsince i Hi) as [Hx|[_ Hx]]; [congruence|done].
    + intros Ht. cbn. apply Hco'. intros i Hi. destruct (Hsame i) as [H1 H2].
      destruct (Hsh i Hi) as [[_ Hd]|(Hp & _ & [[Hr _]|(Hq & Hs & Hlate)])]; [done|..]; exfalso.
      * destruct (Hsince i ltac:(lia)) as [Hx|[Hx _]]; congruence.
      * destruct (Hsince i ltac:(lia)) as [Hx|[_ Hx]]; [congruence|].
        unfold stop_timeout in Ht. rewrite H2, Hopt in Hlate.
        pose proof (df_options _ _ Hf) as Ho. unfold Supervisor.valid_options in Ho. b2p. lia.
Qed.

(** A complete shutdown: every axis is disabled, and disable is what the last cycle asked of it. *)
Definition halted (d : RobotIoDaemon L) : Prop :=
  dm_shutdown_complete d = true ->
  forall i, (i < axis_count d)%nat ->
    Supervisor.phase_at (in_safety (dm_ingress d)) i = disabled /\
    Daemon.axis_request d i = Cia402.disable.

Lemma keeps_halted d d' : keeps d d' -> halted d -> halted d'.
Proof.
  intros [[Hk _ _ _ _] [Hs _ Hc Hp]] Hh Hd i Hi. rewrite Hc in Hd.
  unfold axis_count in *. rewrite (ks_setup_same _ _ Hk) in Hi.
  destruct (Hh Hd i Hi) as [H1 H2]. split.
  - unfold Supervisor.phase_at, Supervisor.state_at in *. by rewrite Hs.
  - unfold Daemon.axis_request, Daemon.axis_snapshot, axis_count in *.
    by rewrite Hp, (ks_setup_same _ _ Hk).
Qed.

Lemma process_halted profile d pdos domain valid consumed_ns now_ns :
  daemon_for profile d -> halted d ->
  halted (process_device_cycle_owned (L := L) d pdos domain valid consumed_ns now_ns).1.
Proof.
  intros Hf Hh. unfold process_device_cycle_owned. destruct (_ || _); [exact Hh|]. clear Hh.
  set (d1 := with_ingress d _).
  pose proof (consume_frame (dm_ingress d) consumed_ns) as Hc. cbv zeta in Hc.
  destruct Hc as (_ & Hcn & _).
  assert (axis_count d = length (rp_axes profile)) as Hcount
    by (unfold axis_count; by rewrite (df_axis_configurations _ _ Hf)).
  assert (sv_axis_count (in_safety (dm_ingress (apply_stop d1 now_ns))) = axis_count d /\
    dm_setup (apply_stop d1 now_ns) = dm_setup d) as [Hn Hsetup].
  { unfold apply_stop. change (dm_stop_requested d1) with (dm_stop_requested d).
    destruct (dm_stop_requested d); cbn; [|by rewrite Hcn, Hcount, (df_count _ _ Hf)].
    destruct (shutdown_frame (in_safety (consume_staged_commands (dm_ingress d) consumed_ns).1) now_ns)
      as (_ & _ & _ & F4 & _). by rewrite F4, Hcn, Hcount, (df_count _ _ Hf). }
  unfold evaluate_devices. cbv zeta.
  match goal with |- context [Supervisor.evaluate ?s ?b pdos now_ns] =>
    pose proof (Supervisor.evaluate_completed s b pdos now_ns) as He;
    destruct (Supervisor.evaluate s b pdos now_ns) as [safety decisions] end.
  destruct (axis_loop _ _ _ _ _ _) as [[axes pdos'] values]. cbn in He.
  intros Hd i Hi. unfold axis_count in *. cbn in Hd, Hi |- *. rewrite Hsetup in Hi.
  destruct (He Hd) as [_ Hall]. destruct (Hall i ltac:(lia)) as [Hp Hr]. split; [exact Hp|].
  change (axis_count d1) with (axis_count d). unfold axis_count.
  unfold Daemon.axis_request, Daemon.axis_snapshot. cbn -[Nat.ltb].
  rewrite (proj2 (Nat.ltb_lt _ _) Hi), lookup_app_l.
  - by rewrite lookup_take_lt, Hr.
  - rewrite length_take. apply lookup_lt_Some in Hr. lia.
Qed.

(** *** The cycle of the master *)

(** An open master that drives the daemon; the handler of its process image, if any, is not about
    the daemon. *)
Record master_ready (n : nat) (m : EthercatMaster) : Prop := {
  mr_drives : drives m;
  mr_open : Master.em_admission m = Master.kCycleOpenBit;
  mr_backend : is_Some (Master.em_backend m);
  mr_image : forall f, Master.hd_process_image (Master.em_handlers m) = Some f ->
    forall c (w : machine L) image domain valid, (f c w image domain valid).1 = w;
  mr_views : length (Master.em_pdo_views m) = n }.

Lemma read_all_length handles : forall image views,
  length (Master.read_all handles image views).1 = length views.
Proof.
  induction handles as [|h handles IH]; intros image [|v views]; try done. cbn.
  destruct (Binding.read_inputs h image v) as [v' r]. specialize (IH image views).
  destruct (Master.read_all handles image views). cbn in *. by f_equal.
Qed.

(** The mailboxes do not touch the rest of the master. *)
Lemma service_frame fuel : forall offset (b : B) (m : EthercatMaster),
  let m' := (Master.service_mailboxes fuel offset b m).2 in
  Master.em_handlers m' = Master.em_handlers m /\ Master.em_admission m' = Master.em_admission m /\
  Master.em_pdo_views m' = Master.em_pdo_views m.
Proof.
  induction fuel as [|fuel IH]; intros offset b m; [done|]. cbn.
  destruct (_ !! _) as [mailbox|]; [|done].
  destruct (SdoMailbox.owner_step _ _ _ _) as [[b' mailbox'] stepped]. destruct stepped; [done|].
  specialize (IH (S offset) b' (Master.with_mailboxes m
    (<[((Master.em_mailbox_cursor m + offset) mod length (Master.em_mailboxes m))%nat := mailbox']>
       (Master.em_mailboxes m)))).
  cbn in IH. exact IH.
Qed.

Lemma handler_length context (w : machine L) views domain valid :
  length (ethercat_cycle_handler context w views domain valid).2 = length views.
Proof.
  unfold ethercat_cycle_handler. destruct (owns_cycle w); [|done]. unfold process_owned.
  pose proof (process_length (mc_daemon w) views domain valid (clock_at w 0) (clock_at w 1)) as Hl.
  by destruct (process_device_cycle_owned _ _ _ _ _ _).
Qed.

Lemma master_cycle_runs n (w : machine L) m :
  master_ready n m ->
  exists views domain valid, length views = n /\
    (Master.cycle w m).1 = (ethercat_cycle_handler this w views domain valid).1 /\
    master_ready n (Master.cycle w m).2.
Proof.
  intros [(Hc & Hs & Hctx) Ho [b Hb] Hi Hv]. unfold Master.cycle, Master.try_enter_cycle.
  rewrite Ho. change (Master.admission_successor Master.kCycleOpenBit) with (Some (Master.kCycleOpenBit + 1)).
  cbn [Master.em_backend Master.with_admission]. rewrite Hb. unfold Master.exchange.
  cbn [Master.em_handlers Master.with_admission Master.em_pdo_handles Master.em_pdo_views].
  set (b1 := be_process_domain (be_receive b)). set (domain := be_domain_health b1).
  pose proof (read_all_length (Master.em_pdo_handles m) (be_process_image b1) (Master.em_pdo_views m)) as Hr.
  set (r := if Master.input_available (Master.em_handlers m) domain
            then Master.read_all _ _ _ else (Master.em_pdo_views m, false)).
  assert (length r.1 = n) as Hrl by (unfold r; destruct (Master.input_available _ _); [by rewrite Hr|done]).
  destruct r as [views valid]. cbn [fst] in Hrl. unfold Master.run_handlers. rewrite Hc, Hs, Hctx.
  set (im := match Master.hd_process_image (Master.em_handlers m) with Some f => _ | None => _ end).
  assert (im.1 = w) as Hw by (unfold im; destruct (Master.hd_process_image _) as [f|] eqn:E; [by eapply Hi|done]).
  destruct im as [w1 image]. cbn [fst] in Hw. subst w1.
  pose proof (handler_length this w views domain valid) as Hh.
  destruct (ethercat_cycle_handler this w views domain valid) as [w2 views2] eqn:Eh.
  destruct (Master.write_all _ _ _ _ _) as [image2 written].
  match goal with |- context [Master.service_mailboxes ?k 0 ?b2 ?m2] =>
    pose proof (service_frame k 0 b2 m2) as Hf; destruct (Master.service_mailboxes k 0 b2 m2) as [b3 m3] end.
  cbn in Hf. destruct Hf as (Hf1 & Hf2 & Hf3).
  exists views, domain, valid. rewrite Eh. split; [done|]. split; [done|]. cbn in Hh.
  split; cbn; unfold LifeFacts.drives; cbn; rewrite ?Hf1, ?Hf2, ?Hf3; [by split_and!|reflexivity|by eexists|exact Hi|congruence].
Qed.

(** *** One turn of the loop *)

(** The state in which the loop works. *)
Record looping (profile : RobotProfile) (s : system L B) : Prop := {
  lp_profile : daemon_for profile (sy_daemon s);
  lp_owned : owned s;
  lp_owner : mc_owner (sy_machine s) = mc_thread (sy_machine s);
  lp_master : forall m, sy_master s = Some m -> master_ready (axis_count (sy_daemon s)) m;
  lp_axes : sy_master s = None -> axis_count (sy_daemon s) = 0%nat;
  lp_sound : buses_sound (sy_daemon s) }.

(** Between two turns: a daemon that keeps its transports, with the same master. *)
Lemma looping_daemon profile s d :
  looping profile s -> keeps_life (sy_daemon s) d -> looping profile (set_daemon s d).
Proof.
  intros [H1 [O1 O2 O3 O4] H3 H4 H5 H6] [Hk Hs _ Hc _ Hso].
  assert (axis_count d = axis_count (sy_daemon s)) as Hn by (unfold axis_count; by rewrite (ks_setup_same _ _ Hk)).
  split; cbn; rewrite ?Hn; try done; [by eapply daemon_for_keeps| |by apply Hso].
  split; cbn; try done; [by apply Hs|]. rewrite (ks_setup_same _ _ Hk). by apply Hc.
Qed.

(** [process_device_cycle_owned] as a turn runs it. *)
Definition evaluated (d d' : RobotIoDaemon L) (clock : nat -> Z) (j : nat) : Prop :=
  exists pdos domain valid, length pdos = axis_count d /\
    d' = (process_device_cycle_owned d pdos domain valid (clock j) (clock (S j))).1.

Lemma loop_kept d l : keeps d (with_loop d l).
Proof. same. Qed.

Lemma pdos_kept d pdos : keeps d (with_pdos d pdos).
Proof. same. Qed.

Lemma process_owned_runs m pdos domain valid :
  length pdos = axis_count (mc_daemon m) ->
  let m' := (process_owned (L := L) m pdos domain valid).1 in
  keeps_life (mc_daemon m) (mc_daemon m') /\
  evaluated (mc_daemon m) (mc_daemon m') (mc_clock m) (mc_ticks m) /\
  mc_owner m' = mc_owner m /\ mc_thread m' = mc_thread m /\ mc_clock m' = mc_clock m /\
  mc_ticks m' = (mc_ticks m + 2)%nat.
Proof.
  intros Hl. unfold process_owned, clock_at. rewrite Nat.add_0_r, Nat.add_1_r.
  pose proof (process_life (mc_daemon m) pdos domain valid (mc_clock m (mc_ticks m)) (mc_clock m (S (mc_ticks m)))) as Hk.
  assert (evaluated (mc_daemon m) (process_device_cycle_owned (mc_daemon m) pdos domain valid
    (mc_clock m (mc_ticks m)) (mc_clock m (S (mc_ticks m)))).1 (mc_clock m) (mc_ticks m)) as He
    by (exists pdos, domain, valid; done).
  by destruct (process_device_cycle_owned _ _ _ _ _ _).
Qed.

(** The loop goes on with a machine whose daemon keeps its transports. *)
Lemma looping_machine profile s m master :
  looping profile s -> keeps_life (sy_daemon s) (mc_daemon m) ->
  mc_owner m = mc_owner (sy_machine s) -> mc_thread m = mc_thread (sy_machine s) ->
  (forall x, master = Some x -> master_ready (axis_count (sy_daemon s)) x) ->
  (sy_bound s = false -> forall x, master = Some x -> master_closed x) ->
  (master = None <-> sy_master s = None) ->
  looping profile (set_machine s m master).
Proof.
  intros [H1 [O1 O2 O3 O4] H3 H4 H5 H6] [Hk Hs _ Hc _ Hso] Ho Ht Hm Hcl Hn.
  assert (axis_count (mc_daemon m) = axis_count (sy_daemon s)) as Hax
    by (unfold axis_count; by rewrite (ks_setup_same _ _ Hk)).
  split; unfold sy_daemon; cbn; rewrite ?Hax.
  - by eapply daemon_for_keeps.
  - split; unfold sy_daemon; cbn; [by apply Hs| |done|by intros ?%Hn; apply O4].
    rewrite (ks_setup_same _ _ Hk). by apply Hc.
  - congruence.
  - done.
  - intros ?%Hn. by apply H5.
  - by apply Hso.
Qed.

(** A cycle evaluates the devices once, at a time after its start. *)
Lemma cycle_system_runs profile s m ctx :
  looping profile s -> keeps_life (sy_daemon s) (mc_daemon m) ->
  mc_owner m = mc_owner (sy_machine s) -> mc_thread m = mc_thread (sy_machine s) ->
  let s' := cycle_system s m ctx in
  looping profile s' /\ mc_clock (sy_machine s') = mc_clock m /\
  exists d1 d2 j, keeps (mc_daemon m) d1 /\ evaluated d1 d2 (mc_clock m) j /\ keeps d2 (sy_daemon s') /\
    keeps_life d1 d2 /\
    (mc_ticks m <= j)%nat /\ (j <= mc_ticks m + 2 + length (Registry.rg_buses (dm_serial (mc_daemon m))))%nat /\
    (mc_ticks m < mc_ticks (sy_machine s'))%nat /\ (j + 2 <= mc_ticks (sy_machine s'))%nat.
Proof.
  intros Hlp Hk Hown Hthr. pose proof Hlp as [H1 [O1 O2 O3 O4] H3 H4 H5 _].
  unfold cycle_system, cycle_owned.
  destruct (before_exchange_kept m ctx) as (Hb & Ho & Ht & Hc & Hn). cbv zeta in *.
  set (m1 := before_exchange m ctx) in *.
  assert (keeps_life (sy_daemon s) (mc_daemon m1)) as Hk1 by (etransitivity; [exact Hk|apply Hb]).
  assert (axis_count (mc_daemon m1) = axis_count (sy_daemon s)) as Haxes
    by (unfold axis_count; by rewrite (ks_setup_same _ _ (kl_setup _ _ Hk1))).
  assert (owns_cycle m1 = true) as Howns
    by (unfold owns_cycle; rewrite Ho, Ht, Hown, Hthr, H3; apply Z.eqb_refl).
  destruct (sy_master s) as [master|] eqn:Em.
  - destruct (master_cycle_runs (axis_count (sy_daemon s)) m1 master (H4 _ eq_refl))
      as (views & domain & valid & Hl & Hw & Hr).
    unfold ethercat_cycle_handler in Hw. rewrite Howns in Hw.
    destruct (process_owned_runs m1 views domain valid ltac:(congruence)) as (P1 & P2 & P3 & P4 & P5 & P6).
    destruct (Master.cycle m1 master) as [m2 master2]. cbn [fst snd] in Hw, Hr. subst m2.
    set (m2 := (process_owned m1 views domain valid).1) in *.
    pose proof (looping_machine profile s (finish_cycle m2) (Some master2) Hlp) as Hloop.
    split.
    { apply Hloop; cbn; [etransitivity; [exact Hk1|]; etransitivity; [exact P1|apply loop_kept]|congruence|congruence|
        by intros ? [= <-]| |by rewrite Em].
      intros Hbound. exfalso. pose proof (O3 Hbound _ eq_refl) as Hclosed.
      unfold master_closed, Master.admission_is_open in Hclosed. by rewrite (mr_open _ _ (H4 _ eq_refl)) in Hclosed. }
    split; [cbn; congruence|].
    exists (mc_daemon m1), (mc_daemon m2), (mc_ticks m1). rewrite Hc in P2.
    split_and!; [apply Hb|exact P2|apply loop_kept|exact P1|lia|lia|cbn; lia|cbn; lia].
  - unfold standalone_cycle. pose proof (H5 eq_refl) as Hz. rewrite Haxes, Hz.
    destruct (process_owned_runs m1 (take 0 (dm_pdos (mc_daemon m1))) (standalone_domain 0) true ltac:(by rewrite Haxes, Hz))
      as (P1 & P2 & P3 & P4 & P5 & P6).
    destruct (process_owned m1 (take 0 (dm_pdos (mc_daemon m1))) (standalone_domain 0) true) as [m2 pdos2]. cbn [fst] in *.
    set (m3 := with_daemon m2 (with_pdos (mc_daemon m2) (pdos2 ++ drop 0 (dm_pdos (mc_daemon m1)))) 0).
    pose proof (looping_machine profile s (finish_cycle m3) None Hlp) as Hloop.
    split.
    { apply Hloop; cbn; [|congruence|congruence|done|done|by rewrite Em].
      etransitivity; [exact Hk1|]. etransitivity; [exact P1|]. etransitivity; [apply pdos_kept|apply loop_kept]. }
    split; [cbn; congruence|].
    exists (mc_daemon m1), (mc_daemon m2), (mc_ticks m1). rewrite Hc in P2.
    split_and!; [apply Hb|exact P2| |exact P1|lia|lia|cbn; lia|cbn; lia].
    etransitivity; [apply pdos_kept|apply loop_kept].
Qed.

(** What a turn does to the daemon, from [ticks] readings of the clock on; [seen] is the system once
    it has looked at the signal. *)
Definition turned (s seen s' : system L B) : Prop :=
  sy_signals s' = sy_signals seen /\
  mc_clock (sy_machine s') = mc_clock (sy_machine s) /\
  (mc_ticks (sy_machine s) < mc_ticks (sy_machine s'))%nat /\
  keeps_life (sy_daemon s) (sy_daemon s') /\
  exists d1 d2 j, keeps (sy_daemon s) d1 /\ keeps (sy_daemon seen) d1 /\
    evaluated d1 d2 (mc_clock (sy_machine s)) j /\
    keeps d2 (sy_daemon s') /\ (mc_ticks (sy_machine s) <= j)%nat /\
    (j <= mc_ticks (sy_machine s) + 3 + length (Registry.rg_buses (dm_serial (sy_daemon s))))%nat /\
    (j + 2 <= mc_ticks (sy_machine s'))%nat.

(** A cycle of the system [s0], which is [s] with a daemon that kept its parts and at most one more
    reading of the clock. *)
Lemma cycle_turned profile s seen s0 m ctx :
  looping profile s0 -> keeps (sy_daemon s) (sy_daemon seen) ->
  keeps (sy_daemon seen) (sy_daemon s0) -> sy_signals s0 = sy_signals seen -> mc_daemon m = sy_daemon s0 ->
  mc_owner m = mc_owner (sy_machine s0) -> mc_thread m = mc_thread (sy_machine s0) ->
  mc_clock m = mc_clock (sy_machine s) ->
  (mc_ticks (sy_machine s) <= mc_ticks m <= mc_ticks (sy_machine s) + 1)%nat ->
  looping profile (cycle_system s0 m ctx) /\ turned s seen (cycle_system s0 m ctx).
Proof.
  intros Hl Hks Hk0 Hsig Hd Ho Ht Hc Hn.
  assert (keeps (sy_daemon s) (sy_daemon s0)) as Hk by by etransitivity.
  destruct (cycle_system_runs profile s0 m ctx Hl ltac:(by rewrite Hd) Ho Ht)
    as (Hl' & Hc' & d1 & d2 & j & K1 & K2 & K3 & K4 & J1 & J2 & J3 & J4). rewrite Hd in K1, J2.
  split; [exact Hl'|]. split.
  { unfold cycle_system. by destruct (cycle_owned _ _ _). }
  split; [congruence|]. split; [lia|].
  pose proof (kl_buses _ _ (proj1 Hk)) as Hbuses. split.
  - etransitivity; [apply Hk|]. etransitivity; [apply K1|]. etransitivity; [exact K4|apply K3].
  - exists d1, d2, j. rewrite <- Hc. split_and!; [by etransitivity|by etransitivity|exact K2|exact K3|lia|lia|lia].
Qed.

Lemma stop_now_kept d : keeps d (stop_now d).
Proof. by split; split. Qed.

Lemma set_timing_kept d f e g : keeps d (set_timing d f e g).
Proof. same. Qed.

Lemma turn_runs profile s sleep_failed w :
  looping profile s ->
  looping profile (turn s sleep_failed w).1 /\
  turned s (observe_signal s (wu_signal w)) (turn s sleep_failed w).1.
Proof.
  intros Hl. unfold turn.
  set (s1 := observe_signal s (wu_signal w)).
  assert (looping profile s1 /\ keeps (sy_daemon s) (sy_daemon s1) /\
    mc_clock (sy_machine s1) = mc_clock (sy_machine s) /\ mc_ticks (sy_machine s1) = mc_ticks (sy_machine s))
    as (Hl1 & Hk1 & Hc1 & Hn1).
  { unfold s1, observe_signal. set (signals := if wu_signal w then _ else _).
    set (s0 := mkSystem _ _ _ _ _ _ _).
    assert (looping profile s0) as Hl0 by (destruct Hl as [G1 [O1 O2 O3 O4] G3 G4 G5 G6]; split; try done; by split).
    destruct (DaemonSignalLatch.stop_requested signals); [|by split_and!].
    split; [apply looping_daemon; [exact Hl0|apply stop_now_kept]|]. split; [apply stop_now_kept|].
    cbn. by rewrite Nat.add_0_r. }
  clearbody s1. destruct sleep_failed; cbn [negb].
  - unfold unpaced_cycle. apply cycle_turned; try done; cbn; lia.
  - destruct (RealtimeLoop.wait_next _ _ _ _) as [l [ctx error]]. cbv zeta.
    set (s2 := set_daemon s1 (with_loop (sy_daemon s1) l)).
    assert (keeps (sy_daemon s1) (sy_daemon s2)) as Hk2 by apply loop_kept.
    assert (looping profile s2) as Hl2 by (apply looping_daemon; [exact Hl1|apply loop_kept]).
    destruct (error =? 0); cbn [fst].
    + apply cycle_turned; try done; cbn; lia.
    + set (s3 := set_daemon s2 (on_sleep_error (sy_daemon s2) error)).
      assert (keeps (sy_daemon s2) (sy_daemon s3)) as Hk3
        by (etransitivity; [apply set_timing_kept|apply stop_now_kept]).
      apply cycle_turned; try done; [apply looping_daemon; [exact Hl2|apply Hk3]|cbn; lia].
Qed.

(** *** The loop ends *)

Lemma keeps_timeout d d' : keeps_life d d' -> stop_timeout d' = stop_timeout d.
Proof. intros [[] _ _ _ _]. unfold stop_timeout. congruence. Qed.

(** The daemon is out of the loop: the shutdown is complete, and its transports still recorded. *)
Definition done_looping (profile : RobotProfile) (s : system L B) : Prop :=
  looping profile s /\ dm_shutdown_complete (sy_daemon s) = true /\ halted (sy_daemon s).

(** A turn keeps the daemon running, and a complete shutdown means that every axis is disabled. *)
Lemma turn_halted profile s sleep_failed w :
  looping profile s -> halted (sy_daemon s) ->
  let s1 := (turn s sleep_failed w).1 in
  halted (sy_daemon s1) /\ dm_running (sy_daemon s1) = dm_running (sy_daemon s).
Proof.
  intros Hl Hh. destruct (turn_runs profile s sleep_failed w Hl)
    as [_ (_ & _ & _ & Hlife & d1 & d2 & j & K1 & _ & (pdos & domain & valid & _ & ->) & K3 & _)].
  split; [|apply (kl_running _ _ Hlife)]. eapply keeps_halted; [exact K3|].
  apply (process_halted profile); [|by eapply keeps_halted].
  eapply daemon_for_keeps; [apply (proj1 K1)|apply Hl].
Qed.

Lemma turn_client profile s sleep_failed w d :
  looping profile s -> halted (sy_daemon s) -> client_steps (sy_daemon s) (wu_clients w) = Some d ->
  let s1 := (turn (set_daemon s d) sleep_failed w).1 in
  halted (sy_daemon s1) /\ dm_running (sy_daemon s1) = dm_running (sy_daemon s).
Proof.
  intros Hl Hh Hk%client_steps_kept. rewrite <- (kl_running _ _ (proj1 Hk)).
  apply (turn_halted profile (set_daemon s d)); [by apply looping_daemon; [|apply Hk]|].
  by eapply keeps_halted.
Qed.

(** A turn of a daemon that stops. *)
Lemma turn_stop profile s sleep_failed w d :
  looping profile s -> dm_running (sy_daemon s) = true -> dm_stop_requested (sy_daemon s) = true ->
  client_steps (sy_daemon s) (wu_clients w) = Some d ->
  let s1 := (turn (set_daemon s d) sleep_failed w).1 in
  let clock := mc_clock (sy_machine s) in
  looping profile s1 /\ dm_stop_requested (sy_daemon s1) = true /\ mc_clock (sy_machine s1) = clock /\
  (mc_ticks (sy_machine s) < mc_ticks (sy_machine s1))%nat /\
  stop_timeout (sy_daemon s1) = stop_timeout (sy_daemon s) /\
  exists j, (mc_ticks (sy_machine s) <= j)%nat /\
    (j <= mc_ticks (sy_machine s) + 3 + length (Registry.rg_buses (dm_serial (sy_daemon s))))%nat /\
    (past_stops (clock (S j)) (sy_daemon s) -> stopping (clock (S j)) (sy_daemon s1)) /\
    forall since, stopping since (sy_daemon s) ->
      stopping since (sy_daemon s1) /\
      (since + stop_timeout (sy_daemon s) <= clock (S j) -> dm_shutdown_complete (sy_daemon s1) = true).
Proof.
  intros Hl Hrun Hstop Hc s1 clock. apply client_steps_kept in Hc as Hk.
  assert (looping profile (set_daemon s d)) as Hl0 by (apply looping_daemon; [done|apply Hk]).
  destruct (turn_runs profile (set_daemon s d) sleep_failed w Hl0)
    as [Hl1 (_ & Hc1 & Hn1 & Hlife & d1 & d2 & j & K1 & _ & K2 & K3 & J1 & J2 & _)].
  fold s1 in Hl1, Hc1, Hn1, Hlife, K3.
  change (sy_daemon (set_daemon s d)) with d in K1, Hlife, J2.
  change (mc_clock (sy_machine (set_daemon s d))) with clock in *.
  assert (mc_ticks (sy_machine (set_daemon s d)) = mc_ticks (sy_machine s)) as Ht0 by (cbn; lia).
  rewrite Ht0, ?(kl_buses _ _ (proj1 Hk)) in *.
  assert (keeps (sy_daemon s) d1) as Hk1 by (etransitivity; [exact Hk|exact K1]).
  destruct K2 as (pdos & domain & valid & Hlen & Hd2).
  destruct (process_stopping profile d1 pdos domain valid (clock j) (clock (S j))
    ltac:(eapply daemon_for_keeps; [apply (proj1 Hk1)|apply Hl])
    ltac:(rewrite (kl_running _ _ (proj1 Hk1)); exact Hrun) (kt_stop _ _ (proj2 Hk1) Hstop) Hlen) as (P1 & P2 & P3).
  rewrite <- Hd2 in P1, P2, P3.
  split_and!; [done|by apply (kt_stop _ _ (proj2 K3))|done|lia| |].
  { rewrite (keeps_timeout _ _ Hlife). apply (keeps_timeout _ _ (proj1 Hk)). }
  exists j. split_and!; [lia|lia| |].
  - intros Hp. eapply keeps_stopping; [exact K3|]. apply P2. by eapply keeps_past.
  - intros since Hst. destruct (P3 since (keeps_stopping _ _ _ Hk1 Hst)) as [P4 P5].
    split; [by eapply keeps_stopping|]. intros Ht. rewrite (kt_complete _ _ (proj2 K3)). apply P5.
    by rewrite (keeps_timeout _ _ (proj1 Hk1)).
Qed.

Lemma run_loop_complete s sleep_failed ws :
  dm_shutdown_complete (sy_daemon s) = true -> run_loop s sleep_failed ws = ended s.
Proof. intros Hd. destruct ws; cbn [run_loop]; by rewrite Hd, orb_true_r. Qed.

(** Enough wakeups for a stop that goes on since [since]: those until the reading [limit] of the
    clock. *)
Lemma run_loop_stopping profile since limit ws : forall s sleep_failed,
  looping profile s -> dm_running (sy_daemon s) = true -> halted (sy_daemon s) ->
  dm_stop_requested (sy_daemon s) = true -> stopping since (sy_daemon s) ->
  (forall j, (limit <= j)%nat -> since + stop_timeout (sy_daemon s) <= mc_clock (sy_machine s) j) ->
  (limit - mc_ticks (sy_machine s) < length ws)%nat ->
  match run_loop s sleep_failed ws with
  | ended s' => done_looping profile s'
  | going _ | broken => False
  end.
Proof.
  induction ws as [|w ws IH]; intros s sleep_failed Hl Erun Hh Hstop Hst Hlim Hn; [cbn in Hn; lia|].
  cbn [run_loop]. rewrite Erun. cbn [negb orb].
  destruct (dm_shutdown_complete (sy_daemon s)) eqn:Eend; [done|].
  destruct (client_steps_defined (wu_clients w) (sy_daemon s) (lp_sound _ _ Hl)) as [d Ec]. rewrite Ec.
  destruct (turn_client profile s sleep_failed w d Hl Hh Ec) as [Hh1 Hr1]. rewrite Erun in Hr1.
  destruct (turn_stop profile s sleep_failed w d Hl Erun Hstop Ec)
    as (Hl1 & Hs1 & Hc1 & Hn1 & Ht1 & j & J1 & _ & _ & J3). cbv zeta in *.
  destruct (turn (set_daemon s d) sleep_failed w) as [s1 sf1]. cbn [fst] in *.
  destruct (J3 since Hst) as [Hst1 Hdone].
  destruct (decide (limit <= mc_ticks (sy_machine s))%nat) as [Hreach|Hreach].
  - assert (dm_shutdown_complete (sy_daemon s1) = true) as Hd by (apply Hdone, Hlim; lia).
    rewrite run_loop_complete by done. by split_and!.
  - apply IH; [done..| |cbn [length] in Hn; lia]. intros k Hk. rewrite Ht1, Hc1. by apply Hlim.
Qed.

(** *** What is left after the loop *)

(** Nothing runs, the shutdown is complete, and every axis is disabled. *)
Record shut_down (s : system L B) : Prop := {
  sh_quiet : quiet s;
  sh_complete : dm_shutdown_complete (sy_daemon s) = true;
  sh_halted : forall i, (i < axis_count (sy_daemon s))%nat ->
    Supervisor.phase_at (in_safety (dm_ingress (sy_daemon s))) i = disabled /\
    Daemon.axis_request (sy_daemon s) i = Cia402.disable }.

(** What taking the transports down leaves alone. *)
Lemma stop_transports_same (s : system L B) :
  let d := sy_daemon s in
  let d' := sy_daemon (stop_transports this scheduler_address master_address s) in
  dm_ingress d' = dm_ingress d /\ dm_publication d' = dm_publication d /\
  dm_shutdown_complete d' = dm_shutdown_complete d /\ dm_setup d' = dm_setup d.
Proof.
  cbv zeta. unfold stop_transports. destruct (Registry.stop_with _ _ _) as [g assigned].
  match goal with |- context [close_master this ?x] => set (s1 := x) end.
  assert (sy_daemon (close_master this s1) = sy_daemon s1) as Hc.
  { unfold close_master, unbind. destruct (sy_master s1); [|done]. by destruct (sy_bound s1). }
  assert (exists a, sy_daemon (forget_master master_address (close_master this s1)) =
    with_scheduler (sy_daemon s1) a) as [a Ha].
  { rewrite <- Hc. unfold forget_master, unregister. set (s2 := close_master this s1).
    destruct (sy_master s2); [destruct (sy_registered s2)|]; [by eexists| |];
      exists (dm_scheduler (sy_daemon s2)); by destruct (sy_daemon s2). }
  cbn. by rewrite Ha.
Qed.

Lemma stop_transports_shut_down s :
  owned s -> shut_down s -> shut_down (stop_transports this scheduler_address master_address s).
Proof.
  intros Ho [_ Hc Hh]. destruct (stop_transports_same s) as (S1 & S2 & S3 & S4).
  split; [by apply stop_transports_quiet|congruence|].
  unfold Daemon.axis_request, Daemon.axis_snapshot, axis_count in *. by rewrite S1, S2, S4.
Qed.

Lemma wind_down_shut profile s o :
  done_looping profile s -> shut_down (wind_down this scheduler_address master_address s o).
Proof.
  intros [[_ Hown _ _ _ _] [Hc Hh]]. unfold wind_down.
  assert (owned (release_loop s o) /\ dm_ingress (sy_daemon (release_loop s o)) = dm_ingress (sy_daemon s) /\
    dm_publication (sy_daemon (release_loop s o)) = dm_publication (sy_daemon s) /\
    dm_shutdown_complete (sy_daemon (release_loop s o)) = dm_shutdown_complete (sy_daemon s) /\
    dm_setup (sy_daemon (release_loop s o)) = dm_setup (sy_daemon s)) as (Hr & R1 & R2 & R3 & R4).
  { unfold release_loop. destruct (RealtimeLoop.release _ _ _ _) as [[l rt] t].
    destruct Hown as [H1 H2 H3 H4]. by split; [split|]. }
  destruct (stop_transports_same (release_loop s o)) as (S1 & S2 & S3 & S4).
  destruct (stop_transports_quiet this scheduler_address master_address _ Hr) as [Q1 Q2 Q3 Q4 Q5 Q6 Q7].
  split; [by split|unfold sy_daemon in *; cbn; congruence|].
  unfold Daemon.axis_request, Daemon.axis_snapshot, axis_count in *. unfold sy_daemon in *. cbn.
  rewrite S1, S2, S4, R1, R2, R4. by apply Hh.
Qed.

(** The loop of a daemon from which a stop has been requested ends after finitely many wakeups,
    whatever the other threads do between the turns. *)
Lemma run_loop_ends profile s sleep_failed o :
  looping profile s -> dm_running (sy_daemon s) = true -> halted (sy_daemon s) ->
  dm_stop_requested (sy_daemon s) = true ->
  (forall i j, (i <= j)%nat -> mc_clock (sy_machine s) i <= mc_clock (sy_machine s) j) ->
  (forall bound, exists k, bound <= mc_clock (sy_machine s) k) ->
  past_stops (mc_clock (sy_machine s) (mc_ticks (sy_machine s))) (sy_daemon s) ->
  exists n, forall ws, (n <= length ws)%nat ->
    match run_loop s sleep_failed ws with
    | ended s' => shut_down (wind_down this scheduler_address master_address s' o)
    | going _ | broken => False
    end.
Proof.
  intros Hl Erun Hh Hstop Hmono Hbound Hpast.
  set (clock := mc_clock (sy_machine s)) in *. set (ticks := mc_ticks (sy_machine s)) in *.
  set (since := clock (ticks + 4 + length (Registry.rg_buses (dm_serial (sy_daemon s))))%nat).
  destruct (Hbound (since + stop_timeout (sy_daemon s))) as [limit Hlimit].
  exists (limit + 2)%nat. intros ws Hn.
  destruct ws as [|w ws]; [cbn in Hn; lia|]. cbn [run_loop]. rewrite Erun. cbn [negb orb].
  destruct (dm_shutdown_complete (sy_daemon s)) eqn:Eend; [by eapply wind_down_shut|].
  destruct (client_steps_defined (wu_clients w) (sy_daemon s) (lp_sound _ _ Hl)) as [d Ec]. rewrite Ec.
  destruct (turn_client profile s sleep_failed w d Hl Hh Ec) as [Hh1 Hr1]. rewrite Erun in Hr1.
  destruct (turn_stop profile s sleep_failed w d Hl Erun Hstop Ec)
    as (Hl1 & Hs1 & Hc1 & Hn1 & Ht1 & j & J1 & J2 & J3 & _). cbv zeta in *.
  fold clock in J3, Hc1. fold ticks in J1, J2, Hn1.
  destruct (turn (set_daemon s d) sleep_failed w) as [s1 sf1]. cbn [fst] in *.
  assert (stopping since (sy_daemon s1)) as Hst.
  { assert (clock (S j) <= since) as Hle by (apply Hmono; lia).
    assert (past_stops (clock (S j)) (sy_daemon s)) as Hp.
    { intros i Hi Hq. specialize (Hpast i Hi Hq). specialize (Hmono ticks (S j) ltac:(lia)). lia. }
    intros i Hi. destruct (J3 Hp i Hi) as [Hd|[Hd Hs]]; [by left|right; split; [done|lia]]. }
  pose proof (run_loop_stopping profile since limit ws s1 sf1 Hl1 Hr1 Hh1 Hs1 Hst) as Hloop.
  assert (forall k, (limit <= k)%nat ->
    since + stop_timeout (sy_daemon s1) <= mc_clock (sy_machine s1) k) as Hlim.
  { intros k Hk. rewrite Ht1, Hc1. etransitivity; [exact Hlimit|]. by apply Hmono. }
  specialize (Hloop Hlim ltac:(cbn [length] in Hn; lia)).
  destruct (run_loop s1 sf1 ws); try done. by eapply wind_down_shut.
Qed.

End Life.
End DaemonRun.
