(* ===== verification/DaemonSession.v ===== *)
(** * A session of the daemon

    [start], [run] and the stop put together: a started daemon works in its loop until a client or
    SIGTERM asks it to stop, and then [run] ends with nothing left running. *)
From S2P Require Export DaemonRun.

Module DaemonSession.
Import DdsTypes CommandIngress Daemon DaemonCycle DaemonConfigure DaemonLife LifeFacts DaemonRun.
Open Scope list_scope.
Open Scope Z_scope.

Section Session.
Context {L : Type} `{SerialLink L} {B : Type} `{EthercatBackend B}.
Context (this scheduler_address master_address : Z).

Abbreviation EthercatMaster := (Master.EthercatMaster B (machine L)).
#[local] Notation owned s := (LifeFacts.owned scheduler_address s).
#[local] Notation live s := (LifeFacts.live this scheduler_address s).
#[local] Notation looping profile s := (DaemonRun.looping this scheduler_address profile s).
#[local] Notation keeps_life d d' := (DaemonRun.keeps_life scheduler_address d d').
#[local] Notation keeps d d' := (DaemonRun.keeps scheduler_address d d').
#[local] Notation master_ready n m := (DaemonRun.master_ready this n m).

(** ** The master that [start] opens *)

(** It has a view per axis, and the handler of its process image, if any, is not about the daemon. *)
Definition fits (n : nat) (m : EthercatMaster) : Prop :=
  length (Master.em_pdo_views m) = n /\
  forall f, Master.hd_process_image (Master.em_handlers m) = Some f ->
    forall c (w : machine L) image domain valid, (f c w image domain valid).1 = w.

Definition master_fits (s : system L B) : Prop :=
  forall m, sy_master s = Some m -> fits (axis_count (sy_daemon s)) m.

(** ** What [start] keeps *)

(** The stages of [start] keep the configuration, the phases, the clock and the signals, and a
    master that fits. *)
Record begun (s s' : system L B) : Prop := {
  bg_setup : keeps_setup (sy_daemon s) (sy_daemon s');
  bg_states : sv_states (in_safety (dm_ingress (sy_daemon s'))) =
    sv_states (in_safety (dm_ingress (sy_daemon s)));
  bg_fits : master_fits s -> master_fits s';
  bg_owner : mc_owner (sy_machine s') = mc_owner (sy_machine s);
  bg_thread : mc_thread (sy_machine s') = mc_thread (sy_machine s);
  bg_clock : mc_clock (sy_machine s') = mc_clock (sy_machine s);
  bg_ticks : mc_ticks (sy_machine s') = mc_ticks (sy_machine s);
  bg_signals : sy_signals s' = sy_signals s;
  bg_sound : buses_sound (sy_daemon s) -> buses_sound (sy_daemon s');
  bg_complete : dm_shutdown_complete (sy_daemon s') = dm_shutdown_complete (sy_daemon s) }.

#[export] Instance begun_preorder : PreOrder begun.
Proof.
  split; [by split|]. intros s1 s2 s3 [] []. split; try congruence; [by etransitivity|auto..].
Qed.

(** A stage that only changes the daemon, not its CAN buses. *)
Lemma begun_daemon s d :
  keeps_setup (sy_daemon s) d -> dm_heap d = dm_heap (sy_daemon s) ->
  dm_shutdown_complete d = dm_shutdown_complete (sy_daemon s) ->
  sv_states (in_safety (dm_ingress d)) = sv_states (in_safety (dm_ingress (sy_daemon s))) ->
  begun s (set_daemon s d).
Proof.
  intros Hk Hh Hc Hs. split; cbn; try done.
  - intros Hf m Hm. specialize (Hf m Hm). unfold axis_count in *. cbn. by rewrite (ks_setup_same _ _ Hk).
  - unfold buses_sound. by rewrite (ks_setup_same _ _ Hk), Hh.
Qed.

(** The workers that [start] gives a bus are its own. *)
Lemma start_bus_sound h p r s1 s2 h' :
  TransportRuntime.h_runtimes h !! p = Some r -> runtime_sound p r ->
  TransportRuntime.start no_transport h p r s1 s2 = Some (success tt, h') -> modes_kept h h'.
Proof.
  intros Hr [S1 S2 S3 S4 S5]. unfold TransportRuntime.start. destruct (TransportRuntime.running_ r); [done|].
  cbn [TransportRuntime.mode_ TransportRuntime.with_running]. rewrite S1.
  destruct s1; [destruct s2|]; cbn [negb]; intros [= <-].
  eapply (modes_put h _ p r); [exact Hr| | |reflexivity]; [done|].
  intros _. split; try done; by intros w [= <-].
Qed.

Lemma start_buses_sound threads buses : forall k h h' all,
  (forall p, p ∈ all -> sound h p) -> buses ⊆ all ->
  start_buses threads k buses h = (h', returned (success tt)) -> forall p, p ∈ all -> sound h' p.
Proof.
  induction buses as [|q buses IH]; intros k h h' all Hs Hsub; cbn [start_buses]; [by intros [= <-]|].
  destruct (Hs q ltac:(set_solver)) as (r & Hr & Hq). rewrite Hr.
  destruct (TransportRuntime.start _ _ _ _ _ _) as [[[[]|e] h1]|] eqn:E; [|done..].
  apply start_bus_sound in E as Hm; [|done|done]. apply IH; [|set_solver].
  intros p Hp. eapply sound_modes; [exact Hm|]. by apply Hs.
Qed.

Lemma begun_master s m r b :
  (master_fits s -> fits (axis_count (sy_daemon s)) m) -> begun s (set_master s (Some m) r b).
Proof. intros Hf. split; try done. intros Hs m' [= <-]. by apply Hf. Qed.

Lemma make_master_begun s o : begun s (make_master s o).1.
Proof.
  unfold make_master. destruct (_ || _); [done|]. destruct (so_backend o) as [b|]; [|done].
  unfold create_ethercat. destruct (so_master o); [|done]. apply begun_master. intros _. split; [|done].
  cbn. by rewrite !length_map.
Qed.

Lemma handler_fits n m m' :
  Master.set_supervised_cycle_handler m (Some (ethercat_cycle_handler (L := L))) this = (m', success tt) ->
  fits n m -> fits n m'.
Proof.
  unfold Master.set_supervised_cycle_handler. destruct (_ || _); [done|]. by intros [= <-] [].
Qed.

Lemma open_fits n m m' : Master.open m = (m', success tt) -> fits n m -> fits n m'.
Proof.
  intros Ho [Hl Hi]. apply open_effect in Ho as (Hh & _ & _ & Hv). split; [congruence|by rewrite Hh].
Qed.

Lemma scheduler_begun s a : begun s (set_daemon s (with_scheduler (sy_daemon s) a)).
Proof. by apply begun_daemon. Qed.

Lemma open_master_begun s s' :
  open_master this master_address s = (s', success tt) -> begun s s'.
Proof.
  unfold open_master. destruct (sy_master s) as [master|] eqn:Em; [|by intros [= <-]].
  destruct (TransportScheduler.add _ _ _) as [assigned [[]|e]]; [|done].
  destruct (Master.set_supervised_cycle_handler _ _ _) as [m1 [[]|e]] eqn:Eh; [|done].
  destruct (Master.open m1) as [m2 [[]|e]] eqn:Eo; [|done]. intros [= <-].
  etransitivity; [apply (scheduler_begun s assigned)|].
  apply (begun_master (set_daemon s (with_scheduler (sy_daemon s) assigned)) m2 true true). intros Hf.
  eapply open_fits; [done|]. eapply handler_fits; [done|]. apply Hf. exact Em.
Qed.

Lemma registry_start_servos lock_free now_ns (g g' : Registry.St3215DeviceRegistry (L := L)) m m' r :
  Registry.start lock_free scheduler_address now_ns g m = (g', m', r) ->
  Registry.rg_servos g' = Registry.rg_servos g.
Proof.
  unfold Registry.start. destruct (_ || _); [by intros [= <- _ _]|].
  destruct (Registry.start_loop _ _ _ _ _ _) as [[buses m1] [[]|e]]; by intros [= <- _ _].
Qed.

Lemma start_serial_begun s o s' :
  start_serial this scheduler_address master_address s o = (s', success tt) -> begun s s'.
Proof.
  unfold start_serial. destruct (Registry.start _ _ _ _ _) as [[g a] [[]|e]] eqn:Es; [|done]. intros [= <-].
  apply registry_start_servos in Es. apply begun_daemon; [|done..]. split; try done. cbn. by rewrite Es.
Qed.

Lemma start_transports_begun s o s' :
  start_transports this scheduler_address master_address s o = (s', returned (success tt)) -> begun s s'.
Proof.
  unfold start_transports. pose proof (make_master_begun s o) as H1.
  destruct (make_master s o) as [s1 [[]|e]]; [|done]. cbn [fst] in H1.
  destruct (open_master this master_address s1) as [s2 [[]|e]] eqn:E2; [|done].
  destruct (start_serial this scheduler_address master_address s2 o) as [s3 [[]|e]] eqn:E3; [|done].
  destruct (start_buses _ _ _ _) as [h [[[]|e]| |]] eqn:E4; try done. intros [= <-].
  etransitivity; [exact H1|]. etransitivity; [by apply open_master_begun|].
  etransitivity; [by eapply start_serial_begun|].
  etransitivity; [|by apply begun_daemon]. split; try done.
  intros Hso. exact (start_buses_sound _ _ _ _ _ _ Hso ltac:(reflexivity) E4).
Qed.

Lemma start_begun s o s' :
  start this scheduler_address master_address s o = (s', returned (success tt)) -> begun s s'.
Proof.
  unfold start. destruct (_ || _ || _ || _); [done|]. destruct (negb _); [done|].
  destruct (RealtimeLoop.validate_config _); [|done].
  destruct (dm_dds (sy_daemon s)) as [i|]; [|by apply start_transports_begun].
  destruct (DdsDaemonEndpoint.start _ _) as [e [[[]|err]|]]; try done. intros Hs%start_transports_begun.
  etransitivity; [|exact Hs]. by apply begun_daemon.
Qed.

(** [start] follows no dangling pointer, and lets an exception through only when the thread of the
    DDS worker cannot be made. *)
Lemma start_buses_returns threads buses : forall k h,
  (forall p, p ∈ buses -> sound h p) -> exists r, (start_buses threads k buses h).2 = returned r.
Proof.
  induction buses as [|q buses IH]; intros k h Hs; cbn [start_buses]; [by eexists|].
  destruct (Hs q ltac:(set_solver)) as (r & Hr & Hq). rewrite Hr.
  destruct (start_can h q r (threads k).1 (threads k).2 (rs_mode _ _ Hq) Hr) as (x & h1 & E & _). rewrite E.
  destruct x as [[]|e]; [|by eexists]. apply IH. intros p Hp.
  eapply sound_modes; [by eapply start_bus_sound|]. apply Hs. set_solver.
Qed.

Lemma start_transports_returns s o :
  buses_sound (sy_daemon s) ->
  exists r, (start_transports this scheduler_address master_address s o).2 = returned r.
Proof.
  intros Hs. unfold start_transports. pose proof (make_master_begun s o) as H1.
  destruct (make_master s o) as [s1 [[]|e]]; [|by eexists]. cbn [fst] in H1.
  destruct (open_master this master_address s1) as [s2 [[]|e]] eqn:E2; [|by eexists].
  destruct (start_serial this scheduler_address master_address s2 o) as [s3 [[]|e]] eqn:E3; [|by eexists].
  apply open_master_begun in E2. apply start_serial_begun in E3.
  destruct (start_buses_returns (so_bus_threads o) (su_runtimes (dm_setup (sy_daemon s3))) 0 (dm_heap (sy_daemon s3)))
    as [r Hr]; [by apply (bg_sound _ _ E3), (bg_sound _ _ E2), (bg_sound _ _ H1)|].
  destruct (start_buses _ _ _ _) as [h [[[]|e]| |]]; try done; by eexists.
Qed.

Lemma start_returns s o :
  buses_sound (sy_daemon s) ->
  match (start this scheduler_address master_address s o).2 with
  | returned _ => True
  | thrown => so_dds_thread o = false
  | undefined => False
  end.
Proof.
  intros Hs. unfold start. destruct (_ || _ || _ || _); [done|]. destruct (negb _); [done|].
  destruct (RealtimeLoop.validate_config _); [|done].
  destruct (dm_dds (sy_daemon s)) as [i|]; [|by destruct (start_transports_returns s o Hs) as [r ->]].
  unfold DdsDaemonEndpoint.start. destruct (DdsDaemonEndpoint.im_running i); [done|].
  destruct (so_dds_thread o); [|done].
  match goal with |- context [start_transports _ _ _ ?x o] => destruct (start_transports_returns x o Hs) as [r ->] end.
  done.
Qed.

(** ** From [start] to the loop *)

(** A daemon that [start] has started, before [run]. *)
Record started (profile : RobotProfile) (s : system L B) : Prop := {
  sd_profile : daemon_for profile (sy_daemon s);
  sd_owned : owned s;
  sd_live : live s;
  sd_fits : master_fits s;
  sd_sound : buses_sound (sy_daemon s);
  sd_fresh : dm_shutdown_complete (sy_daemon s) = false }.

(** [start] refuses a daemon whose shutdown is complete. *)
Lemma start_fresh s o s' :
  start this scheduler_address master_address s o = (s', returned (success tt)) ->
  dm_shutdown_complete (sy_daemon s) = false.
Proof.
  unfold start. destruct (dm_shutdown_complete (sy_daemon s)); [|done]. by rewrite orb_true_r.
Qed.

Lemma start_started profile s o s' :
  quiet s -> NoDup (su_runtimes (dm_setup (sy_daemon s))) -> daemon_for profile (sy_daemon s) ->
  buses_sound (sy_daemon s) -> master_fits s ->
  start this scheduler_address master_address s o = (s', returned (success tt)) ->
  started profile s' /\ begun s s'.
Proof.
  intros Hq Hnd Hp Hso Hf Hs. pose proof (daemon_start_ok this scheduler_address master_address s o Hq Hnd) as Hok.
  rewrite Hs in Hok. destruct Hok as [Hown Hlive]. apply start_begun in Hs as Hb. split; [|exact Hb].
  split; [|done|done|by apply (bg_fits _ _ Hb)|by apply (bg_sound _ _ Hb)|].
  - eapply daemon_for_keeps; [apply Hb|exact Hp].
  - rewrite (bg_complete _ _ Hb). by eapply start_fresh.
Qed.

Lemma started_looping profile s (d : RobotIoDaemon L) :
  started profile s -> keeps_life (sy_daemon s) d ->
  looping profile (set_daemon (set_machine s (set_owner (sy_machine s) (mc_thread (sy_machine s)))
    (sy_master s)) d).
Proof.
  intros [Hp Hown Hl Hf Hso _] Hk. apply looping_daemon; [|exact Hk]. destruct Hown as [O1 O2 O3 O4].
  split; cbn; try done.
  - intros m Hm. destruct (li_master _ _ _ Hl m Hm) as (Hd & Ha & Hb).
    destruct (Hf m Hm) as [Hv Hi]. by split.
  - intros Hn. destruct (decide (axis_count (sy_daemon s) = 0%nat)) as [|Hne]; [done|].
    destruct (li_axes _ _ _ Hl Hne) as [m Hm]. unfold sy_daemon in Hm. congruence.
Qed.

(** ** The loop before the stop *)

Lemma past_later now_ns now_ns' (d : RobotIoDaemon L) : now_ns <= now_ns' -> past_stops now_ns d -> past_stops now_ns' d.
Proof. intros Hle Hp i Hi Hq. specialize (Hp i Hi Hq). lia. Qed.

(** A device cycle starts stops now, and does not forget a stop request. *)
Lemma process_past profile d pdos domain valid consumed_ns now_ns :
  daemon_for profile d -> past_stops now_ns d ->
  let d' := (process_device_cycle_owned (L := L) d pdos domain valid consumed_ns now_ns).1 in
  past_stops now_ns d' /\ dm_stop_requested d' = dm_stop_requested d.
Proof.
  intros Hf Hp. unfold process_device_cycle_owned. destruct (_ || _); [by split|].
  set (d1 := with_ingress d _).
  pose proof (consume_frame (dm_ingress d) consumed_ns) as Hc. cbv zeta in Hc.
  destruct Hc as (_ & Hcn & _ & Hcs & _).
  assert (sv_states (in_safety (dm_ingress (apply_stop d1 now_ns))) = sv_states (in_safety (dm_ingress d)) /\
    sv_axis_count (in_safety (dm_ingress (apply_stop d1 now_ns))) = axis_count d /\
    dm_stop_requested (apply_stop d1 now_ns) = dm_stop_requested d) as (Hst & Hn & Hr).
  { assert (axis_count d = sv_axis_count (in_safety (dm_ingress d))) as Hcount
      by (unfold axis_count; by rewrite (df_axis_configurations _ _ Hf), (df_count _ _ Hf)).
    unfold apply_stop. change (dm_stop_requested d1) with (dm_stop_requested d).
    destruct (dm_stop_requested d) eqn:Er; cbn; [|by rewrite Hcs, Hcn, Hcount].
    destruct (shutdown_frame (in_safety (consume_staged_commands (dm_ingress d) consumed_ns).1) now_ns)
      as (_ & F2 & _ & F4 & _). by rewrite F2, F4, Hcs, Hcn, Hcount. }
  unfold evaluate_devices. cbv zeta.
  match goal with |- context [Supervisor.evaluate ?s ?b pdos now_ns] =>
    pose proof (fun i => Supervisor.evaluate_started s b pdos now_ns i) as He;
    destruct (Supervisor.evaluate s b pdos now_ns) as [safety decisions] end.
  destruct (axis_loop _ _ _ _ _ _) as [[axes pdos'] values]. cbn [fst dm_stop_requested].
  split; [|exact Hr]. intros i Hi Hq. unfold axis_count in *. cbn in Hi, Hq, He |- *.
  assert (dm_setup (apply_stop d1 now_ns) = dm_setup d) as Hsetup
    by (unfold apply_stop; by destruct (dm_stop_requested d1)).
  rewrite Hsetup in Hi. destruct (He i ltac:(by rewrite Hn) Hq) as [->|[Hq' ->]]; [done|].
  unfold Supervisor.phase_at, Supervisor.state_at in *. rewrite Hst in *. by apply Hp.
Qed.

Lemma observe_signal_spec (s : system L B) signal :
  let s' := observe_signal s signal in
  (dm_stop_requested (sy_daemon s) = true -> dm_stop_requested (sy_daemon s') = true) /\
  (signal = true -> DaemonSignalLatch.disposition (sy_signals s) = None ->
     dm_stop_requested (sy_daemon s') = true) /\
  DaemonSignalLatch.disposition (sy_signals s') = DaemonSignalLatch.disposition (sy_signals s).
Proof.
  unfold observe_signal, DaemonSignalLatch.deliver, DaemonSignalLatch.stop_requested. cbv zeta.
  destruct s as [m master r b [stop installed disp] rt th]. cbn.
  destruct signal, disp, stop; cbn; by split_and!.
Qed.

(** A turn keeps the signals' disposition, a stop requested before it or by the signal, and the
    bound on the stops. *)
Lemma turn_spec profile s sleep_failed w :
  looping profile s -> 
  (forall i j, (i <= j)%nat -> mc_clock (sy_machine s) i <= mc_clock (sy_machine s) j) ->
  past_stops (mc_clock (sy_machine s) (mc_ticks (sy_machine s))) (sy_daemon s) ->
  let s' := (turn s sleep_failed w).1 in
  looping profile s' /\ mc_clock (sy_machine s') = mc_clock (sy_machine s) /\
  past_stops (mc_clock (sy_machine s) (mc_ticks (sy_machine s'))) (sy_daemon s') /\
  DaemonSignalLatch.disposition (sy_signals s') = DaemonSignalLatch.disposition (sy_signals s) /\
  (dm_stop_requested (sy_daemon s) = true \/
   (wu_signal w = true /\ DaemonSignalLatch.disposition (sy_signals s) = None) ->
   dm_stop_requested (sy_daemon s') = true).
Proof.
  intros Hl Hmono Hpast s'.
  destruct (turn_runs this scheduler_address profile s sleep_failed w Hl)
    as [Hl' (Hsig & Hc & Hn & Hlife & d1 & d2 & j & K1 & K1' & (pdos & domain & valid & Hlen & Hd2) & K3 & J1 & J2 & J3)].
  fold s' in Hsig, Hl', Hc, Hn, Hlife, K3, J3.
  destruct (observe_signal_spec s (wu_signal w)) as (S1 & S2 & S3). cbv zeta in *.
  destruct (process_past profile d1 pdos domain valid (mc_clock (sy_machine s) j) (mc_clock (sy_machine s) (S j)))
    as [P1 P2].
  { eapply daemon_for_keeps; [apply (proj1 K1)|apply Hl]. }
  { eapply keeps_past; [exact K1|]. eapply past_later; [|exact Hpast]. apply Hmono. lia. }
  rewrite <- Hd2 in P1, P2. split_and!; [done|done| |congruence|].
  - eapply keeps_past; [exact K3|]. eapply past_later; [|exact P1]. apply Hmono. lia.
  - intros Hstop. apply (kt_stop _ _ (proj2 K3)). rewrite P2. apply (kt_stop _ _ (proj2 K1')).
    destruct Hstop as [Hs|[Hw Hd]]; [by apply S1|by apply S2].
Qed.

(** ** The run *)

(** The wakeup in which the stop is asked for: by a client, or by SIGTERM with the latch in place. *)
Definition asks_stop (s : system L B) (w : wakeup) : Prop :=
  client_stop ∈ wu_clients w \/
  (wu_signal w = true /\ DaemonSignalLatch.disposition (sy_signals s) = None).

Lemma client_stop_requests profile os : forall d d' : RobotIoDaemon L,
  daemon_for profile d -> client_stop ∈ os -> client_steps d os = Some d' -> dm_stop_requested d' = true.
Proof.
  induction os as [|x os IH]; intros d d' Hf Hin Hs; [by apply not_elem_of_nil in Hin|]. cbn in Hs.
  apply bind_Some in Hs as (d1 & H1 & Hs). apply elem_of_cons in Hin as [<-|Hin].
  - apply client_steps_kept with (scheduler_address := scheduler_address) in Hs as [_ Hk].
    apply (kt_stop _ _ Hk). cbn in H1. injection H1 as <-. unfold request_stop.
    by rewrite (df_configured _ _ Hf).
  - eapply IH; [|done|exact Hs].
    apply client_step_kept with (scheduler_address := scheduler_address) in H1 as [Hk _].
    eapply daemon_for_keeps; [apply Hk|exact Hf].
Qed.

(** How the loop ends. *)
Definition ends_shut (o : RealtimeLoop.Outcomes) (p : progress (L := L) (B := B)) : Prop :=
  match p with
  | ended s' => shut_down (wind_down this scheduler_address master_address s' o)
  | going _ | broken => False
  end.

(** Between two turns of [run]: the daemon runs, and a complete shutdown has disabled every axis. *)
Record on_course (profile : RobotProfile) (s : system L B) : Prop := {
  oc_looping : looping profile s;
  oc_runs : dm_running (sy_daemon s) = true;
  oc_halted : halted (sy_daemon s);
  oc_past : past_stops (mc_clock (sy_machine s) (mc_ticks (sy_machine s))) (sy_daemon s) }.

Definition clock_runs (clock : nat -> Z) : Prop :=
  (forall i j, (i <= j)%nat -> clock i <= clock j) /\ (forall bound, exists k, bound <= clock k).

(** One wakeup: the loop is over, or goes on, with the stop requested if that wakeup asked for it. *)
Lemma run_loop_step profile o x s sleep_failed :
  on_course profile s -> (forall i j, (i <= j)%nat -> mc_clock (sy_machine s) i <= mc_clock (sy_machine s) j) ->
  (forall ws', ends_shut o (run_loop s sleep_failed (x :: ws'))) \/
  exists s1 sleep_failed1, (forall ws', run_loop s sleep_failed (x :: ws') = run_loop s1 sleep_failed1 ws') /\
    on_course profile s1 /\ mc_clock (sy_machine s1) = mc_clock (sy_machine s) /\
    (forall w', asks_stop s w' -> asks_stop s1 w') /\
    (asks_stop s x -> dm_stop_requested (sy_daemon s1) = true).
Proof.
  intros [Hl Hrun Hh Hpast] Hmono. cbn [run_loop]. rewrite Hrun. cbn [negb orb].
  destruct (dm_shutdown_complete (sy_daemon s)) eqn:Eend; [left; intros _; by eapply wind_down_shut|right].
  destruct (client_steps_defined scheduler_address (wu_clients x) (sy_daemon s) (lp_sound _ _ _ _ Hl)) as [d Ec]. rewrite Ec.
  apply client_steps_kept with (scheduler_address := scheduler_address) in Ec as Hk.
  assert (looping profile (set_daemon s d)) as Hl0 by (apply looping_daemon; [done|apply Hk]).
  destruct (turn_spec profile (set_daemon s d) sleep_failed x Hl0 Hmono) as (T1 & T2 & T3 & T4 & T5).
  { cbn. rewrite Nat.add_0_r. by eapply keeps_past. }
  destruct (turn_client this scheduler_address profile s sleep_failed x d Hl Hh Ec) as [T6 T7]. cbv zeta in *.
  destruct (turn (set_daemon s d) sleep_failed x) as [s1 sf1]. cbn [fst] in *.
  change (mc_clock (sy_machine (set_daemon s d))) with (mc_clock (sy_machine s)) in *.
  change (sy_signals (set_daemon s d)) with (sy_signals s) in *.
  exists s1, sf1. split_and!; try done.
  - split; [done|congruence|done|by rewrite T2].
  - intros w' [?|[? Hd]]; [by left|right; split; [done|]]. by rewrite T4.
  - intros [Hc|Hs]; apply T5; [left|by right]. cbn. eapply client_stop_requests; [apply Hl|exact Hc|exact Ec].
Qed.

(** The loop, from the wakeups before the request to the ones that the stop needs. *)
Lemma run_loop_session profile o w ws : forall s sleep_failed,
  on_course profile s -> clock_runs (mc_clock (sy_machine s)) -> asks_stop s w ->
  exists n, forall ws', (n <= length ws')%nat -> ends_shut o (run_loop s sleep_failed (ws ++ w :: ws')).
Proof.
  induction ws as [|x ws IH]; intros s sleep_failed Hl Hclock Hask; cbn [app].
  - destruct (run_loop_step profile o w s sleep_failed Hl (proj1 Hclock))
      as [He|(s1 & sf1 & Hr & [Hl1 Hr1 Hh1 Hp1] & Hc1 & _ & Hstop)]; [by exists 0%nat|].
    destruct (run_loop_ends this scheduler_address master_address profile s1 sf1 o Hl1 Hr1 Hh1 (Hstop Hask)
      ltac:(rewrite Hc1; apply Hclock) ltac:(rewrite Hc1; apply Hclock) Hp1) as [n Hn].
    exists n. intros ws' Hw. rewrite Hr. specialize (Hn ws' Hw). by destruct (run_loop s1 sf1 ws').
  - destruct (run_loop_step profile o x s sleep_failed Hl (proj1 Hclock))
      as [He|(s1 & sf1 & Hr & Hl1 & Hc1 & Ha & _)]; [exists 0%nat; intros ws' _; apply He|].
    destruct (IH s1 sf1 Hl1 ltac:(by rewrite Hc1) (Ha w Hask)) as [n Hn].
    exists n. intros ws' Hw. rewrite Hr. by apply Hn.
Qed.

(** [run] before the loop. *)
Lemma run_enters profile s o :
  started profile s -> mc_owner (sy_machine s) = 0 ->
  let s1 := (prepare_loop (set_machine s (set_owner (sy_machine s) (mc_thread (sy_machine s))) (sy_master s)) o).1 in
  let sleep_failed :=
    (prepare_loop (set_machine s (set_owner (sy_machine s) (mc_thread (sy_machine s))) (sy_master s)) o).2 in
  (forall ws, run this scheduler_address master_address s o ws =
    match run_loop s1 sleep_failed ws with
    | ended s' => ended (wind_down this scheduler_address master_address s' o)
    | r => r
    end) /\
  looping profile s1 /\ keeps (sy_daemon s) (sy_daemon s1) /\
  mc_clock (sy_machine s1) = mc_clock (sy_machine s) /\ mc_ticks (sy_machine s1) = mc_ticks (sy_machine s) /\
  sy_signals s1 = sy_signals s /\ dm_running (sy_daemon s1) = true /\
  dm_shutdown_complete (sy_daemon s1) = false.
Proof.
  intros Hs Hown. pose proof (li_running _ _ _ (sd_live _ _ Hs)) as Hrun. unfold run.
  rewrite Hown, Hrun. cbn [negb Z.eqb orb]. unfold prepare_loop.
  destruct (RealtimeLoop.prepare _ _ _ _) as [[[l rt] t] r]. cbv zeta. cbn [fst snd].
  split; [done|].
  match goal with |- context [set_daemon ?s0 ?d] => assert (keeps (sy_daemon s) d) as Hk;
    [|pose proof (started_looping profile s d Hs (proj1 Hk)) as [G1 [O1 O2 O3 O4] G3 G4 G5 G6]] end.
  { etransitivity; [apply loop_kept|]. destruct r; [apply set_timing_kept|].
    etransitivity; [apply set_timing_kept|apply stop_now_kept]. }
  split; [split; try done; by split|]. split; [done|]. split; [done|]. split; [cbn; lia|]. split; [done|].
  split; [etransitivity; [exact (kl_running _ _ _ (proj1 Hk))|exact Hrun]|].
  etransitivity; [exact (kt_complete _ _ (proj2 Hk))|apply Hs].
Qed.

(** The loop of a started daemon, whenever it ends, leaves a daemon that shuts down. *)
Lemma run_loop_shut profile o ws : forall s sleep_failed,
  on_course profile s -> (forall i j, (i <= j)%nat -> mc_clock (sy_machine s) i <= mc_clock (sy_machine s) j) ->
  match run_loop s sleep_failed ws with
  | ended s' => shut_down (wind_down this scheduler_address master_address s' o)
  | going _ => True
  | broken => False
  end.
Proof.
  induction ws as [|x ws IH]; intros s sleep_failed Hl Hmono.
  - cbn [run_loop]. destruct (_ || _) eqn:Eend; [|done]. destruct Hl as [Hl Hrun Hh _].
    rewrite Hrun in Eend. by eapply wind_down_shut.
  - destruct (run_loop_step profile o x s sleep_failed Hl Hmono) as [He|(s1 & sf1 & -> & Hl1 & Hc1 & _)].
    + specialize (He ws). by destruct (run_loop s sleep_failed (x :: ws)).
    + apply IH; [done|by rewrite Hc1].
Qed.

(** A daemon before its session: configured and quiet, with its own CAN buses, a master that fits if
    it has one, and nobody in its cycle. *)
Record at_start (profile : RobotProfile) (s : system L B) : Prop := {
  as_quiet : quiet s;
  as_distinct : NoDup (su_runtimes (dm_setup (sy_daemon s)));
  as_profile : daemon_for profile (sy_daemon s);
  as_sound : buses_sound (sy_daemon s);
  as_fits : master_fits s;
  as_owner : mc_owner (sy_machine s) = 0;
  as_clock : clock_runs (mc_clock (sy_machine s));
  as_past : past_stops (mc_clock (sy_machine s) (mc_ticks (sy_machine s))) (sy_daemon s) }.

(** What [configure] makes is ready to start. *)
Lemma configured_at_start profile address d s :
  (forall j k, address j = address k -> j = k) -> configured_as profile address d (sy_daemon s) ->
  dm_dds d = None -> sy_master s = None -> sy_registered s = false -> sy_bound s = false ->
  mc_owner (sy_machine s) = 0 -> clock_runs (mc_clock (sy_machine s)) -> at_start profile s.
Proof.
  intros Ha Hc Hdds Hm Hr Hb Ho Hclock. pose proof (configured_distinct _ _ _ _ Ha Hc) as Hnd.
  pose proof Hc as []. split; try done.
  - split; try done; [intros i; congruence|intros m; congruence].
  - intros m. congruence.
  - intros i _. by rewrite (ca_phases _ _ _ _ Hc).
Qed.

(** The loop of a session starts on its course. *)
Lemma session_loop profile s0 so s o :
  at_start profile s0 ->
  start this scheduler_address master_address s0 so = (s, returned (success tt)) ->
  exists s1 sleep_failed,
    (forall ws, run this scheduler_address master_address s o ws =
      match run_loop s1 sleep_failed ws with
      | ended s' => ended (wind_down this scheduler_address master_address s' o)
      | r => r
      end) /\
    on_course profile s1 /\ mc_clock (sy_machine s1) = mc_clock (sy_machine s0) /\
    sy_signals s1 = sy_signals s0.
Proof.
  intros [Hq Hnd Hp Hso Hf Hown _ Hpast] Hstart.
  destruct (start_started profile s0 so s Hq Hnd Hp Hso Hf Hstart) as [Hs [B1 B2 B3 B4 B5 B6 B7 B8 _ _]].
  destruct (run_enters profile s o Hs ltac:(congruence)) as (Hrun & Hl & Hk & Hc & Hn & Hsig & Hr & Hd). cbv zeta in *.
  destruct (prepare_loop _ o) as [s1 sleep_failed]. cbn [fst snd] in *. exists s1, sleep_failed.
  split_and!; [exact Hrun| |congruence|congruence].
  split; [exact Hl|exact Hr|by intros Hd'; rewrite Hd in Hd'|].
  rewrite Hc, Hn, B6, B7. eapply keeps_past; [exact Hk|]. intros i Hi Hph.
  unfold Supervisor.phase_at, Supervisor.state_at in *. rewrite B2 in *.
  apply Hpast; [|exact Hph]. unfold axis_count in *. by rewrite (ks_setup_same _ _ B1) in Hi.
Qed.

(** Whenever it ends, a session has shut the daemon down. *)
Lemma session_shut profile s0 so s o ws :
  at_start profile s0 ->
  start this scheduler_address master_address s0 so = (s, returned (success tt)) ->
  match run this scheduler_address master_address s o ws with
  | ended s' => shut_down s'
  | going _ => True
  | broken => False
  end.
Proof.
  intros Hs0 Hstart. destruct (session_loop profile s0 so s o Hs0 Hstart) as (s1 & sf & Hrun & Hl & Hc & _).
  rewrite Hrun. pose proof (run_loop_shut profile o ws s1 sf Hl ltac:(rewrite Hc; apply Hs0)) as Hq1.
  by destruct (run_loop s1 sf ws).
Qed.

Lemma session_ends profile s0 so s o w ws :
  at_start profile s0 ->
  start this scheduler_address master_address s0 so = (s, returned (success tt)) ->
  asks_stop s0 w ->
  exists n, forall ws', (n <= length ws')%nat ->
    match run this scheduler_address master_address s o (ws ++ w :: ws') with
    | ended s' => shut_down s' /\ mc_owner (sy_machine s') = 0
    | going _ | broken => False
    end.
Proof.
  intros Hs0 Hstart Hask.
  destruct (session_loop profile s0 so s o Hs0 Hstart) as (s1 & sf & Hrun & Hl & Hc & Hsig).
  destruct (run_loop_session profile o w ws s1 sf Hl ltac:(rewrite Hc; apply Hs0)
    ltac:(unfold asks_stop; by rewrite Hsig)) as [n Hend].
  exists n. intros ws' Hw. rewrite Hrun. specialize (Hend ws' Hw). by destruct (run_loop _ _ _).
Qed.

(** C4. A session of the daemon ends with every axis stopped and nothing running.  A daemon that is
    configured for a profile and quiet, with a master that fits its axes if it was given one, is
    started with success and [run] drives it.  Whatever the clients, DDS, CAN and the kernel do at
    each turn, once a client or SIGTERM asks it to stop (in the wakeup [w], after any others), and on
    a clock that does not go back and passes every bound, [run] returns after finitely many more
    wakeups.  When it has returned, the shutdown is complete: the quick stop of every axis has ended,
    reached or timed out, so that the supervisor holds the axis disabled and disable is the request
    of its last cycle; the DDS worker, the serial buses and both workers of every CAN bus are
    stopped, the master is closed and unregistered, and the cycle has no owner.  On the way [run]
    never touches a CAN runtime that does not exist. *)
Theorem daemon_run_ends profile s0 so s o w ws :
  at_start profile s0 ->
  start this scheduler_address master_address s0 so = (s, returned (success tt)) ->
  asks_stop s0 w ->
  exists n, forall ws', (n <= length ws')%nat ->
    match run this scheduler_address master_address s o (ws ++ w :: ws') with
    | ended s' => shut_down s' /\ mc_owner (sy_machine s') = 0
    | going _ | broken => False
    end.
Proof. apply session_ends. Qed.

End Session.
End DaemonSession.
