(* ===== verification/DaemonExamples.v ===== *)
(** * Concrete daemons

    A robot with an EtherCAT axis, an ST3215 servo and a Damiao motor, configured, started, run and
    stopped: the theorems on the daemon apply to it. *)
From S2P Require Export DaemonSession LoadedProfile.

Module DaemonExamples.
Import DdsTypes CommandIngress Daemon DaemonCycle DaemonConfigure DaemonLife LifeFacts DaemonRun DaemonSession.
Open Scope list_scope.
Open Scope Z_scope.

(** ** The parts *)

#[local] Instance bench_link : SerialLink SerialPortLink.PortLink :=
  SerialPortLink.port_link (fun _ => ServoExamples.late_world []) ServoExamples.host
    (fun _ => ServoExamples.outcome).

#[local] Existing Instance MasterExamples.BenchBackend.

Abbreviation PortLink := SerialPortLink.PortLink.
Abbreviation Bench := MasterExamples.Bench.

Definition robot : RobotProfile := LoadedProfile.LoaderExamples.robot.

Definition fresh : RobotIoDaemon PortLink := create SafetyOptions_default RtLoopExamples.config.

Definition sockets (k : nat) : SocketOutcome := mkSocketOutcome (Z.of_nat k + 3) true true.

Definition configured : RobotIoDaemon PortLink * Result unit :=
  configure fresh robot Z.of_nat sockets S 0.

Example robot_configures : configured.2 = success tt /\ su_runtimes (dm_setup configured.1) = [1%nat].
Proof. by vm_compute. Qed.

Lemma heap_fresh p : TransportRuntime.h_runtimes (dm_heap fresh) !! p = None.
Proof. reflexivity. Qed.


(** The daemon, as the other theorems need it. *)
Lemma robot_configured : configured_as robot S fresh configured.1.
Proof.
  apply (configure_cases SafetyOptions_default fresh robot Z.of_nat sockets S 0 configured.1 (success tt)
    (create_unconfigured _ _) (heap_fresh _) ltac:(lia) (fun k => heap_fresh (S k)) ltac:(lia)).
  by vm_compute.
Qed.

(** ** A session *)

Definition clock (n : nat) : Z := 1000000 * Z.of_nat n.

Definition rest (d : RobotIoDaemon PortLink) : system PortLink Bench :=
  mkSystem (mkMachine d 0 77 clock 0) None false false
    (DaemonSignalLatch.mkSignals false true None) RealtimeSystem.initial RtLoopExamples.thread_before.

Definition at_rest : system PortLink Bench := rest configured.1.

Definition good_start : StartOutcome (B := Bench) :=
  mkStartOutcome true true (Some (MasterExamples.bench MasterExamples.good_domain)) true 1000
    (fun _ => (true, true)).

(** The second worker of the CAN bus does not start. *)
Definition bad_start : StartOutcome (B := Bench) :=
  mkStartOutcome true true (Some (MasterExamples.bench MasterExamples.good_domain)) true 1000
    (fun _ => (true, false)).

Definition start_with (o : StartOutcome) : system PortLink Bench * outcome := start 1 2 3 at_rest o.

Lemma clock_goes : clock_runs clock.
Proof. unfold clock. split; [lia|]. intros bound. exists (Z.to_nat bound). lia. Qed.

Lemma rest_at_start : at_start robot at_rest.
Proof.
  apply (configured_at_start _ S fresh); [lia|exact robot_configured|reflexivity..|exact clock_goes].
Qed.

Lemma rest_quiet : quiet at_rest.
Proof. apply rest_at_start. Qed.

Lemma rest_distinct : NoDup (su_runtimes (dm_setup (sy_daemon at_rest))).
Proof. apply rest_at_start. Qed.

Example good_start_succeeds :
  (start_with good_start).2 = returned (success tt) /\
  (start_with bad_start).2 <> returned (success tt) /\
  sy_registered (start_with bad_start).1 = true.
Proof. vm_compute. done. Qed.

Lemma daemon_start_stop_witness :
  live 1 2 (start_with good_start).1 /\
  quiet (stop_transports 1 2 3 (start_with good_start).1) /\
  quiet (stop_transports 1 2 3 (start_with bad_start).1).
Proof.
  assert ((start_with good_start).2 = returned (success tt)) as Hr by by vm_compute.
  pose proof (daemon_start_stop 1 2 3 at_rest good_start rest_quiet rest_distinct) as Hg.
  pose proof (daemon_start_stop 1 2 3 at_rest bad_start rest_quiet rest_distinct) as Hb.
  change (start 1 2 3 at_rest good_start) with (start_with good_start) in Hg.
  change (start 1 2 3 at_rest bad_start) with (start_with bad_start) in Hb.
  destruct (start_with good_start) as [s r], (start_with bad_start) as [s' r']. cbn [fst snd] in *.
  rewrite Hr in Hg. split; [apply Hg|]. split; [apply Hg|apply Hb].
Defined.

Definition stop_wakeup : wakeup := mkWakeup [client_stop] false 0 0 0.

Lemma daemon_run_ends_witness :
  (start_with good_start).2 = returned (success tt) /\
  exists n, forall ws, (n <= length ws)%nat ->
    match run 1 2 3 (start_with good_start).1 RtLoopExamples.granted ([] ++ stop_wakeup :: ws) with
    | ended s' => shut_down s' /\ mc_owner (sy_machine s') = 0
    | going _ | broken => False
    end.
Proof.
  assert ((start_with good_start).2 = returned (success tt)) as Hr by by vm_compute.
  split; [exact Hr|].
  apply (daemon_run_ends 1 2 3 robot at_rest good_start _ _ stop_wakeup [] rest_at_start).
  - unfold start_with in Hr. change (start 1 2 3 at_rest good_start) with (start_with good_start) in *.
    destruct (start_with good_start) as [s r]. cbn in *. by rewrite Hr.
  - left. constructor.
Defined.

(** The run itself: four wakeups are enough here. *)
Definition idle_wakeup : wakeup := mkWakeup [] false 0 0 0.

Example robot_session :
  match run 1 2 3 (start_with good_start).1 RtLoopExamples.granted
          (stop_wakeup :: replicate 10 idle_wakeup) with
  | ended s => dm_shutdown_complete (sy_daemon s)
  | _ => false
  end = true.
Proof. vm_compute. done. Qed.

(** ** An enabled axis *)

Definition enable_command : AxisCommand := mkAxisCommand 1 2000000 fzero 1 0.
Definition batch : Snapshot AxisCommand :=
  mkSnapshot 1 2000000 1 (enable_command :: replicate 11 AxisCommand_zero).

Definition commanded : RobotIoDaemon PortLink * CommandAcceptance :=
  Daemon.stage_commands (sy_daemon (start_with good_start).1) batch 2500000.

Definition drive (status control : Z) : Cia402PdoView := mkPdo status 8 0 0 0 control 0 0 0.

Lemma robot_commanded : daemon_for robot commanded.1.
Proof.
  assert ((start_with good_start).2 = returned (success tt)) as Hr by by vm_compute.
  unfold commanded. unfold start_with in *. destruct (start 1 2 3 at_rest good_start) as [s r] eqn:Es.
  cbn [fst snd] in *. subst r.
  destruct (start_started 1 2 3 robot at_rest good_start s rest_quiet rest_distinct
    (as_profile _ _ rest_at_start) (as_sound _ _ rest_at_start) (as_fits _ _ rest_at_start) Es) as [Hs _].
  eapply daemon_for_keeps; [|exact (sd_profile _ _ _ _ Hs)].
  apply (stage_commands_kept 2 (sy_daemon s) batch 2500000).
Qed.

Lemma daemon_enable_sound_witness :
  exists a, rp_axes robot !! 0%nat = Some a /\
  dm_stop_requested commanded.1 = false /\
  axis_released robot
    (with_ingress commanded.1 (consume_staged_commands (dm_ingress commanded.1) 3000000).1)
    MasterExamples.good_domain true [drive 0x40 0] 3000001 0 a.
Proof.
  destruct (rp_axes robot !! 0%nat) as [a|] eqn:Ha; [|by vm_compute in Ha].
  exists a. split; [done|].
  destruct (daemon_enable_sound robot commanded.1 [drive 0x40 0] MasterExamples.good_domain true 3000000 3000001
    0 a (drive 0x40 6) robot_commanded) as (Hs & _ & Hg & _).
  - by vm_compute.
  - by vm_compute.
  - exact Ha.
  - by vm_compute.
  - vm_compute. auto.
  - split; [exact Hs|]. apply (Hg 0%nat a Ha). by left.
Defined.
End DaemonExamples.
