(* ===== verification/DaemonMain.v ===== *)
(** * The daemon program

    [apps/robot_io_daemon_main.cpp]: the composition root of the daemon.  What the file system, the
    sockets, DDS, the clock and the other threads answer are arguments. *)
From S2P Require Export DaemonSession RobotLoader.

Module DaemonMain.
Import DdsTypes CommandIngress Daemon DaemonCycle DaemonConfigure DaemonLife LifeFacts DaemonRun DaemonSession.
Open Scope string_scope.
Open Scope list_scope.
Open Scope Z_scope.

Definition newline : string := String (ascii_of_nat 10) "".

Definition kUsage : string := "Usage: robot-io-daemon ROBOT_PROFILE" +:+ newline.

Section Main.
Context {L : Type} `{SerialLink L} {B : Type} `{EthercatBackend B}.
Context (this scheduler_address master_address : Z).

#[local] Notation owned s := (LifeFacts.owned scheduler_address s).

(** [default_clock], the configuration of the loop by default. *)
Definition RealtimeLoopConfig_default : RealtimeLoop.RealtimeLoopConfig := RealtimeLoop.mkLoopConfig 1000000 0 80.

(** What the program meets, stage by stage. *)
Record Surroundings := mkSurroundings {
  sr_dump : Json -> string;
  sr_document : Document;
  sr_signals : DaemonSignalLatch.signals;
  sr_latch : DaemonSignalLatch.latch;                            (* the latch of [main] before [install] *)
  sr_sigaction_ok : bool;
  sr_thread : Z;
  sr_clock : nat -> Z;
  sr_realtime : RealtimeSystem.LinuxRealtimeSystem;
  sr_state : RealtimeSystem.thread;
  sr_bus_address : nat -> Z;
  sr_sockets : nat -> SocketOutcome;
  sr_address : nat -> nat;
  sr_local : nat;
  sr_exists_in : list string -> bool;
  sr_exists_absolute : bool;
  sr_content : string;
  sr_current_path : list string;
  sr_domain : DdsDaemonEndpoint.domain_outcome;
  sr_participant : bool;
  sr_start : StartOutcome (B := B);
  sr_realtime_calls : RealtimeLoop.Outcomes;
  sr_wakeups : list wakeup }.

(** The program has ended, with what it wrote and, when a daemon was made, the system it leaves; it
    still runs; an exception left [main]; or the C++ has no behaviour. *)
Inductive report :=
  | exited (code : Z) (text : string) (left_system : option (system L B))
  | still_running (s : system L B)
  | terminated
  | no_behaviour.

Definition line (text : string) : string := text +:+ newline.

(** The daemon of [main], before [configure]. *)
Definition fresh_system (w : Surroundings) (signals : DaemonSignalLatch.signals) : system L B :=
  mkSystem (mkMachine (create SafetyOptions_default RealtimeLoopConfig_default) 0 (sr_thread w) (sr_clock w) 0)
    None false false signals (sr_realtime w) (sr_state w).

Definition with_signals (s : system L B) (signals : DaemonSignalLatch.signals) : system L B :=
  mkSystem (sy_machine s) (sy_master s) (sy_registered s) (sy_bound s) signals (sy_realtime s) (sy_thread s).

(** The end of [main]: the destructors of the daemon and of the latch. *)
Definition leave (s : system L B) (latch : DaemonSignalLatch.latch) (code : Z) (text : string) : report :=
  let s := stop_transports this scheduler_address master_address s in
  exited code text (Some (with_signals s (DaemonSignalLatch.destroy (sy_signals s) latch))).

(** [configure], [attach_dds]. *)
Definition configured (w : Surroundings) (profile : RobotProfile) (s : system L B) : system L B * Result unit :=
  let '(d, r) := configure (sy_daemon s) profile (sr_bus_address w) (sr_sockets w) (sr_address w) (sr_local w) in
  (set_daemon s d, r).

Definition attached (w : Surroundings) (profile : RobotProfile) (s : system L B) : system L B * Result unit :=
  let '(d, r) := attach_dds (sy_daemon s) profile (sr_exists_in w) (sr_exists_absolute w) (sr_content w)
                   (sr_current_path w) (sr_domain w) (sr_participant w) in
  (set_daemon s d, r).

(** From [start] on. *)
Definition work (w : Surroundings) (latch : DaemonSignalLatch.latch) (s : system L B) : report :=
  match start this scheduler_address master_address s (sr_start w) with
  | (s, returned (failure e)) => leave s latch 1 (line (message e))
  | (_, thrown) => terminated
  | (_, undefined) => no_behaviour
  | (s, returned (success _)) =>
      match run this scheduler_address master_address s (sr_realtime_calls w) (sr_wakeups w) with
      | ended s => leave s latch 0 ""
      | going s => still_running s
      | broken => no_behaviour
      end
  end.

(** The daemon of a profile. *)
Definition operate (w : Surroundings) (profile : RobotProfile) : report :=
  match DaemonSignalLatch.install (sr_signals w) (sr_latch w) (sr_sigaction_ok w) with
  | (_, _, failure e) => exited 1 (line (message e)) None
  | (signals, latch, success _) =>
      match configured w profile (fresh_system w signals) with
      | (s, failure e) => leave s latch 1 (line (message e))
      | (s, success _) =>
          match attached w profile s with
          | (s, failure e) => leave s latch 1 (line (message e))
          | (s, success _) => work w latch s
          end
      end
  end.

(** The arguments after the name of the program. *)
Definition main (arguments : list string) (w : Surroundings) : report :=
  match arguments with
  | [argument] =>
      if String.eqb argument "--help" || String.eqb argument "-h"
      then exited 0 (line "Run the DDS robot I/O daemon." +:+ kUsage) None
      else
        match RobotLoader.load_robot_profile (sr_dump w) argument (sr_document w) with
        | failure e => exited 1 (line (message e)) None
        | success profile =>
            match dds_backend (rp_dds profile) with
            | dds => operate w profile
            | _ => exited 1 (line "robot profile must select the DDS backend") None
            end
        end
  | _ => exited 2 kUsage None
  end.

(** ** What the program leaves *)

(** The surroundings: new objects have new addresses, the clock does not go back and passes every
    bound, and the latch of [main] is not installed. *)
Record admissible (w : Surroundings) : Prop := {
  ad_local : forall k, sr_address w k <> sr_local w;
  ad_address : forall j k, sr_address w j = sr_address w k -> j = k;
  ad_clock : clock_runs (sr_clock w);
  ad_latch : DaemonSignalLatch.installed_ (sr_latch w) = false }.

(** What is there before [start]: a configured daemon, ready to start, under the latch of [main]. *)
Record prepared (profile : RobotProfile) (s : system L B) : Prop := {
  pd_start : at_start profile s;
  pd_latched : DaemonSignalLatch.disposition (sy_signals s) = None }.

Lemma fresh_quiet w signals : quiet (fresh_system w signals).
Proof. split; try done. intros p Hp. by apply elem_of_nil in Hp. Qed.

Lemma create_endpoint_idle w profile i :
  (DdsDaemonEndpoint.create (sr_exists_in w) (sr_exists_absolute w) (sr_content w) profile (sr_current_path w)
    (sr_domain w) (sr_participant w)).1 = success i ->
  DdsDaemonEndpoint.im_running i = false /\ DdsDaemonEndpoint.im_worker i = false.
Proof.
  unfold DdsDaemonEndpoint.create. destruct (dds_backend _); try done;
  (destruct (DdsDaemonEndpoint.load_cyclone_config _ _ _ _ _) as [configuration|]; [|done]);
  (destruct (_ && _); [done|]); (destruct (Topics.build_dds_topic_registry _ _); [|done]);
  (destruct (sr_participant w); [|done]); intros [= <-]; unfold DdsDaemonEndpoint.construct; by destruct (fold_left _ _ _) as [[]].
Qed.

Lemma configured_prepared w profile signals s r :
  admissible w -> DaemonSignalLatch.disposition signals = None ->
  configured w profile (fresh_system w signals) = (s, r) ->
  quiet s /\ (r = success tt -> prepared profile s).
Proof.
  intros [Hlocal Haddress Hclock _] Hlatch. unfold configured.
  destruct (configure _ _ _ _ _ _) as [d r'] eqn:Ec. intros [= <- <-].
  apply (configure_cases SafetyOptions_default) in Ec; [|apply create_unconfigured|done|done|done|done].
  destruct r' as [[]|e]; cbn in Ec.
  - assert (at_start profile (set_daemon (fresh_system w signals) d)) as Hs
      by (by eapply configured_at_start; [exact Haddress|exact Ec|..]).
    by split; [apply Hs|].
  - split; [|done]. destruct Ec as (pdos & h & -> & Hh). split; try done.
    change (sy_daemon (set_daemon ?s ?d)) with d. intros p Hp. by apply elem_of_nil in Hp.
Qed.

Lemma attached_prepared w profile s s' r :
  prepared profile s -> attached w profile s = (s', r) ->
  quiet s' /\ (r = success tt -> prepared profile s').
Proof.
  intros [Hp Hl]. unfold attached, attach_dds.
  assert (set_daemon s (sy_daemon s) = s) as Hsame by (destruct s as [[]]; unfold set_daemon, with_daemon; cbn; by rewrite Nat.add_0_r).
  destruct (negb _ || _ || _); [intros [= <- <-]; rewrite Hsame; by split; [apply Hp|]|].
  destruct (DdsDaemonEndpoint.create _ _ _ _ _ _ _).1 as [i|e] eqn:Ei; intros [= <- <-];
    [|rewrite Hsame; by split; [apply Hp|]]. apply create_endpoint_idle in Ei.
  destruct Hp as [[Q1 Q2 Q3 Q4 Q5 Q6 Q7] H1 H2 H3 H4 H5 H6 H7].
  set (d := with_dds (sy_daemon s) (Some i)).
  assert (quiet (set_daemon s d)) as Hq.
  { split; try done. change (sy_daemon (set_daemon s d)) with d. by intros ? [= <-]. }
  split; [exact Hq|]. intros _. split; [|done]. split; try done.
  - change (sy_daemon (set_daemon s d)) with d. eapply daemon_for_keeps; [|exact H2]. by split.
  - cbn. by rewrite Nat.add_0_r.
Qed.

(** What [main] has left when it returns. *)
Definition left_quiet (w : Surroundings) (s : system L B) : Prop :=
  quiet s /\ sy_signals s = DaemonSignalLatch.mkSignals false false (DaemonSignalLatch.disposition (sr_signals w)).

Lemma leave_quiet w latch code text s :
  owned s -> latch = DaemonSignalLatch.mkLatch (DaemonSignalLatch.disposition (sr_signals w)) true ->
  exists s', leave s latch code text = exited code text (Some s') /\ left_quiet w s'.
Proof.
  intros Ho ->. eexists. split; [done|]. split; [|done].
  destruct (stop_transports_quiet this scheduler_address master_address s Ho) as [Q1 Q2 Q3 Q4 Q5 Q6 Q7]. by split.
Qed.

(** The axes are stopped and nothing runs. *)
Definition left_shut (w : Surroundings) (s : system L B) : Prop := left_quiet w s /\ shut_down s.

(** The end of [operate]: an error and what it leaves, or the run.  An exception leaves [main] only
    when the thread of the DDS worker cannot be made. *)
Definition ends_well (w : Surroundings) (r : report) : Prop :=
  match r with
  | exited code text left_system =>
      code = 0 /\ text = "" /\ (exists s, left_system = Some s /\ left_shut w s) \/
      code = 1 /\ text <> "" /\ (forall s, left_system = Some s -> left_quiet w s)
  | still_running _ => True
  | terminated => so_dds_thread (sr_start w) = false
  | no_behaviour => False
  end.

Lemma line_written text : line text <> "".
Proof. unfold line. by destruct text. Qed.

Lemma leave_ends w latch text s :
  owned s -> latch = DaemonSignalLatch.mkLatch (DaemonSignalLatch.disposition (sr_signals w)) true ->
  ends_well w (leave s latch 1 (line text)).
Proof.
  intros Ho Hl. destruct (leave_quiet w latch 1 (line text) s Ho Hl) as (s' & -> & Hq). right.
  split_and!; [done|apply line_written|]. by intros ? [= <-].
Qed.

(** [main] leaves a daemon that [run] has shut down. *)
Lemma leave_shut w latch s :
  shut_down s -> latch = DaemonSignalLatch.mkLatch (DaemonSignalLatch.disposition (sr_signals w)) true ->
  exists s', leave s latch 0 "" = exited 0 "" (Some s') /\ left_shut w s'.
Proof.
  intros Hs Hl. pose proof (quiet_owned scheduler_address _ (sh_quiet _ Hs)) as Ho.
  destruct (leave_quiet w latch 0 "" s Ho Hl) as (s' & E & Hq). exists s'. split; [done|]. split; [done|].
  unfold leave in E. injection E as <-.
  destruct (stop_transports_shut_down this scheduler_address master_address s Ho Hs) as [_ S2 S3].
  split; [apply Hq|exact S2|exact S3].
Qed.

Lemma work_ends profile w latch s :
  prepared profile s -> latch = DaemonSignalLatch.mkLatch (DaemonSignalLatch.disposition (sr_signals w)) true ->
  ends_well w (work w latch s).
Proof.
  intros [Hp _] Hl. unfold work.
  pose proof (daemon_start_ok this scheduler_address master_address s (sr_start w) (as_quiet _ _ Hp) (as_distinct _ _ Hp)) as Hs.
  pose proof (start_returns this scheduler_address master_address s (sr_start w) (as_sound _ _ Hp)) as Hd.
  destruct (start _ _ _ s (sr_start w)) as [s1 [[[]|e]| |]] eqn:Es; [|by apply leave_ends; [apply Hs|]|done..].
  pose proof (session_shut this scheduler_address master_address profile s (sr_start w) s1 (sr_realtime_calls w)
    (sr_wakeups w) Hp Es) as Hr.
  destruct (run _ _ _ _ _ _) as [s2|s2|]; [|done..].
  destruct (leave_shut w latch s2 Hr Hl) as (s3 & -> & H3). left. eauto.
Qed.

(** The latch that [main] installs. *)
Lemma installed w signals latch :
  admissible w -> DaemonSignalLatch.install (sr_signals w) (sr_latch w) (sr_sigaction_ok w) = (signals, latch, success tt) ->
  latch = DaemonSignalLatch.mkLatch (DaemonSignalLatch.disposition (sr_signals w)) true /\
  DaemonSignalLatch.disposition signals = None.
Proof.
  intros _. unfold DaemonSignalLatch.install. destruct (_ || _); [done|]. destruct (sr_sigaction_ok w); [|done].
  by intros [= <- <-].
Qed.

Lemma operate_ends w profile : admissible w -> ends_well w (operate w profile).
Proof.
  intros Ha. unfold operate. destruct (DaemonSignalLatch.install _ _ _) as [[signals latch] [[]|e]] eqn:Ei.
  2:{ right. split_and!; [done|apply line_written|done]. }
  apply installed in Ei as [Hl Hd]; [|done].
  destruct (configured w profile (fresh_system w signals)) as [s r] eqn:Ec.
  destruct (configured_prepared w profile signals s r Ha Hd Ec) as [Hq Hp].
  destruct r as [[]|e]; [|by apply leave_ends; [apply quiet_owned|]].
  destruct (attached w profile s) as [s1 r1] eqn:Ea.
  destruct (attached_prepared w profile s s1 r1 (Hp eq_refl) Ea) as [Hq1 Hp1].
  destruct r1 as [[]|e]; [|by apply leave_ends; [apply quiet_owned|]].
  by apply (work_ends profile); [apply Hp1|].
Qed.

(** The same surroundings with other wakeups. *)
Definition with_wakeups (w : Surroundings) (ws : list wakeup) : Surroundings :=
  mkSurroundings (sr_dump w) (sr_document w) (sr_signals w) (sr_latch w) (sr_sigaction_ok w) (sr_thread w) (sr_clock w)
    (sr_realtime w) (sr_state w) (sr_bus_address w) (sr_sockets w) (sr_address w) (sr_local w) (sr_exists_in w)
    (sr_exists_absolute w) (sr_content w) (sr_current_path w) (sr_domain w) (sr_participant w) (sr_start w)
    (sr_realtime_calls w) ws.

(** Someone asks for the stop: a client of the daemon, or SIGTERM. *)
Definition asks (x : wakeup) : Prop := client_stop ∈ wu_clients x \/ wu_signal x = true.

(** The program has ended as it should. *)
Definition well_ended (w : Surroundings) (r : report) : Prop :=
  match r with
  | exited code text left_system => code = 0 /\ text = "" /\ exists s, left_system = Some s /\ left_shut w s
  | still_running _ | terminated | no_behaviour => False
  end.

Lemma work_stops profile w latch s s1 ws x :
  prepared profile s -> latch = DaemonSignalLatch.mkLatch (DaemonSignalLatch.disposition (sr_signals w)) true ->
  work (with_wakeups w []) latch s = still_running s1 -> asks x ->
  exists n, forall ws', (n <= length ws')%nat -> well_ended w (work (with_wakeups w (ws ++ x :: ws')) latch s).
Proof.
  intros [Hp Hd] Hl. unfold work. cbn [sr_start sr_realtime_calls sr_wakeups with_wakeups].
  destruct (start _ _ _ s (sr_start w)) as [s2 [[[]|e]| |]] eqn:Es; [|done..]. intros _ Hx.
  assert (asks_stop s x) as Hask by (destruct Hx; [by left | by right]).
  destruct (session_ends this scheduler_address master_address profile s (sr_start w) s2 (sr_realtime_calls w) x ws
    Hp Es Hask) as [n Hn].
  exists n. intros ws' Hw. specialize (Hn ws' Hw). destruct (run _ _ _ _ _ _) as [s3|s3|]; [|done..].
  destruct Hn as [Hs3 _]. destruct (leave_shut w latch s3 Hs3 Hl) as (s4 & -> & H4). cbn. eauto.
Qed.

Lemma operate_stops profile w s1 ws x :
  admissible w -> operate (with_wakeups w []) profile = still_running s1 -> asks x ->
  exists n, forall ws', (n <= length ws')%nat -> well_ended w (operate (with_wakeups w (ws ++ x :: ws')) profile).
Proof.
  intros Ha. unfold operate. cbn [sr_signals sr_latch sr_sigaction_ok with_wakeups].
  destruct (DaemonSignalLatch.install _ _ _) as [[signals latch] [[]|e]] eqn:Ei; [|done].
  apply installed in Ei as [Hl Hd]; [|done].
  assert (forall ws s, configured (with_wakeups w ws) profile s = configured w profile s /\
    attached (with_wakeups w ws) profile s = attached w profile s /\
    fresh_system (with_wakeups w ws) signals = fresh_system w signals) as Hsame by done.
  destruct (Hsame [] (fresh_system w signals)) as (E1 & _ & E3). rewrite E3, E1.
  destruct (configured w profile (fresh_system w signals)) as [s r] eqn:Ec.
  destruct (configured_prepared w profile signals s r Ha Hd Ec) as [_ Hp].
  destruct r as [[]|e]; [|done]. destruct (Hsame [] s) as (_ & -> & _).
  destruct (attached w profile s) as [s2 r2] eqn:Ea.
  destruct (attached_prepared w profile s s2 r2 (Hp eq_refl) Ea) as [_ Hp2].
  destruct r2 as [[]|e]; [|done]. intros Hrun Hx.
  destruct (work_stops profile w latch s2 s1 ws x (Hp2 eq_refl) Hl Hrun Hx) as [n Hn].
  exists n. intros ws' Hw. destruct (Hsame (ws ++ x :: ws') (fresh_system w signals)) as (F1 & _ & F3).
  rewrite F3, F1, Ec. destruct (Hsame (ws ++ x :: ws') s) as (_ & -> & _). rewrite Ea. by apply Hn.
Qed.


End Main.
End DaemonMain.
