(* ===== verification/IghExamples.v ===== *)
(** * Examples for the IgH backend

    A small library with one slave at position 1: handles count up from 1, the states of the
    transfer requests follow a script, and an upload finds three bytes. *)
From S2P Require Export IghBackend.

Module IghExamples.
Import IghBackend.
Open Scope list_scope.
Open Scope Z_scope.

Record Sim := mkSim {
  sim_next : Z;                                    (* the next handle *)
  sim_sizes : list (Z * nat);                      (* the sizes of the requests *)
  sim_states : list ec_request_state;              (* the answers to come *)
  sim_memory : Bytes }.

Definition sim_alloc (s : Sim) : Sim * option Z :=
  (mkSim (sim_next s + 1) (sim_sizes s) (sim_states s) (sim_memory s), Some (sim_next s)).

Definition sim_create (s : Sim) (size : nat) : Sim * option Z :=
  (mkSim (sim_next s + 1) ((sim_next s, size) :: sim_sizes s) (sim_states s) (sim_memory s), Some (sim_next s)).

Definition sim_size (s : Sim) (r : Z) : nat :=
  match find (fun entry => fst entry =? r) (sim_sizes s) with Some entry => entry.2 | None => 0 end.

(** An upload request holds what the last upload found. *)
Definition sim_data_size (s : Sim) (r : Z) : nat := if Nat.eqb (sim_size s r) kMailboxCapacity then 3 else sim_size s r.

Definition sim_state (s : Sim) : Sim * ec_request_state :=
  match sim_states s with
  | [] => (s, EC_REQUEST_BUSY)
  | state :: states => (mkSim (sim_next s) (sim_sizes s) states (sim_memory s), state)
  end.

Definition sim_slave : ec_slave_info := mkSlaveInfo 1 0 ElmoGold.vendor_id ElmoGold.product_code ElmoGold.revision.

#[export] Instance SimLibrary : Ecrt Sim := {|
  ecrt_request_master s _ := sim_alloc s;
  ecrt_release_master s _ := s;
  ecrt_master_create_domain s _ := sim_alloc s;
  ecrt_master s _ := (s, (0, (2, 0)));
  ecrt_master_get_slave s _ position := (s, (if position =? 1 then 0 else -2, sim_slave));
  ecrt_master_slave_config s _ _ _ _ := sim_alloc s;
  ecrt_slave_config_pdos s _ _ := (s, 0);
  ecrt_slave_config_sdo s _ _ _ := (s, 0);
  ecrt_slave_config_dc s _ _ := (s, 0);
  ecrt_master_select_reference_clock s _ _ := (s, 0);
  ecrt_slave_config_create_sdo_request s _ _ size := sim_create s size;
  ecrt_sdo_request_timeout s _ _ := (s, 0);
  ecrt_slave_config_reg_pdo_entry s _ _ _ := (s, (0, 0));
  ecrt_master_activate s _ := (s, 0);
  ecrt_master_deactivate s _ := s;
  ecrt_domain_size s _ := length (sim_memory s);
  ecrt_domain_data s _ := Some 100;
  ecrt_master_receive s _ := s;
  ecrt_domain_process s _ := s;
  ecrt_domain_queue s _ := s;
  ecrt_master_send s _ := s;
  ecrt_domain_state s _ := (3, true);
  ecrt_master_state s _ := true;
  ecrt_slave_config_state s _ := (true, true);
  ecrt_sdo_request_index s _ _ := (s, 0);
  ecrt_sdo_request_data_size := sim_data_size;
  ecrt_sdo_request_data s r := repeat 7 (sim_data_size s r);
  ecrt_sdo_request_set_data s _ _ := s;
  ecrt_sdo_request_write s _ := (s, 0);
  ecrt_sdo_request_read s _ := (s, 0);
  ecrt_sdo_request_state s _ := sim_state s;
  domain_memory s _ := sim_memory s;
  set_domain_memory s _ image := mkSim (sim_next s) (sim_sizes s) (sim_states s) image |}.

#[export] Instance SimMemory : @EcrtMemory Sim SimLibrary.
Proof. split; try done. intros lib r d. cbn. unfold sim_state. by destruct (sim_states lib). Qed.

(** The master over this backend has the laws its theorems ask for. *)
Definition master_laws : Master.EthercatBackendLaws (@Igh Sim) := IghBackendLaws.

Definition address : EthercatSlaveAddress := mkSlave 0 1.
Definition slave : EthercatSlaveConfiguration :=
  mkSlaveConfiguration address (mkIdentity ElmoGold.vendor_id ElmoGold.product_code ElmoGold.revision)
    (ElmoGold.mkPdoDefinition 0x1600 []) [] (mkDc 0x0300 1000000 0)
    [ElmoGold.mkSdo (mkObject 0x6060 0) [8]].
Definition mode : ElmoGold.SdoDownloadRequest := ElmoGold.mkSdo (mkObject 0x6060 0) [9].
Definition name_object : ObjectAddress := mkObject 0x1008 0.

Definition fresh (states : list ec_request_state) : Igh := construct 0 (mkSim 1 [] states (repeat 0 8)).

Definition session : list operation :=
  [op_initialize; op_configure_slave slave; op_bind_pdo_entry address (mkObject 0x6040 0) 16; op_activate;
   op_receive; op_process_domain; op_download address mode; op_queue_domain; op_send;
   op_receive; op_process_domain; op_download address mode; op_upload address name_object [0; 0; 0; 0];
   op_queue_domain; op_send].

Definition running : Igh := foldl perform (fresh [EC_REQUEST_SUCCESS]) session.

(** The session is in order: the mode was downloaded, and the upload request is under way. *)
Example session_in_order :
  verdict_of (ig_calls running) = in_order (mkProtocol (Some 1) (Some 2) true {[3]} {[4; 5; 6; 7; 8]} {[8]}).
Proof. vm_compute. reflexivity. Qed.

(** It asks for nothing after a failed activation, so that the theorem applies. *)
Definition started : Sim := mkSim 1 [] [EC_REQUEST_SUCCESS] (repeat 0 8).

Lemma igh_calls_in_order_witness :
  heeds (construct 0 started) session = true /\
  match verdict_of (ig_calls (foldl perform (construct 0 started) session)) with
  | in_order p => pointers_live p (ig_impl (foldl perform (construct 0 started) session))
  | library_fault => True
  | backend_fault => False
  end.
Proof.
  assert (heeds (construct 0 started) session = true) as Hh by by vm_compute.
  split; [exact Hh | exact (igh_calls_in_order started 0 session Hh)].
Defined.

(** A library whose domain has no process image: the activation fails and removes the
    configuration.  Activating again, or binding an entry, then uses a domain and a slave
    configuration that no longer exist; after [deactivate] all is well. *)
Definition imageless : Igh :=
  foldl perform (construct 0 (mkSim 1 [] [] [])) [op_initialize; op_configure_slave slave; op_activate].

Example failed_activation_dangles :
  (activate_m imageless).2 = fail unavailable "IgH domain process image is unavailable" /\
  removed (ig_calls imageless) = true /\
  verdict_of (ig_calls (perform imageless op_activate)) = backend_fault /\
  verdict_of (ig_calls (perform imageless (op_bind_pdo_entry address (mkObject 0x6040 0) 16))) = backend_fault /\
  verdict_of (ig_calls (foldl perform imageless [op_deactivate; op_initialize; op_configure_slave slave; op_activate])) =
    in_order (idle_protocol (Some 9)).
Proof. by vm_compute. Qed.

(** After the deactivation the library has everything back. *)
Example session_closed :
  verdict_of (ig_calls (perform running op_deactivate)) = in_order (idle_protocol None).
Proof. vm_compute. reflexivity. Qed.

(** A second transfer of the slave is refused while one is under way. *)
Example transfer_conflicts :
  value (progress_download_m address mode) running = Some (sdo_failed protocol conflicting_request).
Proof. vm_compute. reflexivity. Qed.

(** A cancelled transfer is waited for, and then forgotten. *)
Example cancel_waits :
  let cancelled := perform running (op_cancel address) in
  value (progress_cancel_m address) running = Some sdo_pending /\
  value (progress_download_m address mode) cancelled = Some (sdo_failed protocol conflicting_request).
Proof. vm_compute. split; reflexivity. Qed.

Definition ready : Igh := foldl perform (fresh [EC_REQUEST_SUCCESS; EC_REQUEST_SUCCESS]) session.

(** The upload ends with three bytes at the front of the destination. *)
Example igh_upload_completes :
  value (progress_upload_m address name_object [0; 0; 0; 0]) ready = Some (Some [7; 7; 7; 0], sdo_completed 3).
Proof. vm_compute. reflexivity. Qed.

(** The room is the one of the call that scheduled the transfer: a later call with less of it is
    written past its end. *)
Example upload_past_destination :
  value (progress_upload_m address name_object [0; 0]) ready = Some (None, sdo_completed 3).
Proof. vm_compute. reflexivity. Qed.

End IghExamples.
