(* ===== verification/HostCli.v ===== *)
(** * The command line of the host

    [runtime/runtime_host_cli.cpp]: the options, the endpoint, the usage. *)
From S2P Require Export Numbers.

Module HostCli.
Open Scope string_scope.
Open Scope list_scope.
Open Scope Z_scope.

Record RuntimeHostCliOptions := mkCliOptions {
  cli_endpoint : string;
  cli_timeout_ms : Z;
  cli_policy_profile : string;
  cli_robot_profile : option string;
  cli_show_help : bool }.

Definition RuntimeHostCliOptions_default : RuntimeHostCliOptions :=
  mkCliOptions "embodied-policy-runtime" 100 "" None false.

(** [parse_integer<int>]: [std::from_chars] takes a minus sign and digits, and no number that does
    not fit. *)
Definition parse_integer (text : string) : option Z :=
  let '(negative, digits) :=
    match text with
    | String "-" digits => (true, digits)
    | _ => (false, text)
    end in
  match digits with
  | EmptyString => None
  | _ =>
      magnitude ← read_digits false 0 digits;
      let value := if negative then - magnitude else magnitude in
      if (int32_min <=? value) && (value <=? int32_max) then Some value else None
  end.

(** The text before and after the first equals sign. *)
Fixpoint split_equals (text : string) : option (string * string) :=
  match text with
  | EmptyString => None
  | String c rest =>
      if Ascii.eqb c "=" then Some ("", rest)
      else match split_equals rest with
           | Some (flag, value) => Some (String c flag, value)
           | None => None
           end
  end.

Definition set_option (options : RuntimeHostCliOptions) (flag value : string) : Result RuntimeHostCliOptions :=
  if String.eqb flag "--endpoint" then
    success (mkCliOptions value (cli_timeout_ms options) (cli_policy_profile options) (cli_robot_profile options)
      (cli_show_help options))
  else if String.eqb flag "--timeout-ms" then
    match parse_integer value with
    | Some timeout_ms =>
        success (mkCliOptions (cli_endpoint options) timeout_ms (cli_policy_profile options)
          (cli_robot_profile options) (cli_show_help options))
    | None => fail invalid_argument "--timeout-ms requires an integer"
    end
  else if String.eqb flag "--policy-profile" then
    success (mkCliOptions (cli_endpoint options) (cli_timeout_ms options) value (cli_robot_profile options)
      (cli_show_help options))
  else if String.eqb flag "--robot-profile" then
    success (mkCliOptions (cli_endpoint options) (cli_timeout_ms options) (cli_policy_profile options) (Some value)
      (cli_show_help options))
  else fail invalid_argument ("unknown argument: " +:+ flag).

Definition is_help (flag : string) : bool := String.eqb flag "--help" || String.eqb flag "-h".

Definition with_help (options : RuntimeHostCliOptions) : RuntimeHostCliOptions :=
  mkCliOptions (cli_endpoint options) (cli_timeout_ms options) (cli_policy_profile options)
    (cli_robot_profile options) true.

(** The arguments from the second one on. *)
Fixpoint parse_arguments (options : RuntimeHostCliOptions) (arguments : list string) : Result RuntimeHostCliOptions :=
  match arguments with
  | [] =>
      if String.eqb (cli_policy_profile options) "" then fail invalid_argument "--policy-profile is required"
      else success options
  | flag :: arguments =>
      if is_help flag then success (with_help options)
      else
        match split_equals flag with
        | Some (flag, value) => options ← set_option options flag value; parse_arguments options arguments
        | None =>
            match arguments with
            | [] => fail invalid_argument ("argument requires a value: " +:+ flag)
            | value :: arguments => options ← set_option options flag value; parse_arguments options arguments
            end
        end
  end.

Definition parse_runtime_host_cli (arguments : list string) : Result RuntimeHostCliOptions :=
  parse_arguments RuntimeHostCliOptions_default (tail arguments).

(** [std::string_view::find] of a text that is not empty. *)
Fixpoint contains (pattern text : string) : bool :=
  String.prefix pattern text ||
  match text with EmptyString => false | String _ rest => contains pattern rest end.

Definition resolve_policy_endpoint (endpoint : string) : string :=
  if contains "://" endpoint then endpoint else "ipc:///tmp/" +:+ endpoint +:+ ".sock".

Definition runtime_host_usage : string :=
  "usage: policy-runtime-host [--endpoint ENDPOINT] [--timeout-ms TIMEOUT_MS] --policy-profile POLICY_PROFILE [--robot-profile ROBOT_PROFILE]" +:+
  String (ascii_of_nat 10) "".

(** ** Both spellings *)

(** A setting, and the two ways to write it. *)
Inductive setting :=
  | set_endpoint (endpoint : string)
  | set_timeout (text : string) (timeout_ms : Z)
  | set_policy (path : string)
  | set_robot (path : string).

Definition flag_of (s : setting) : string :=
  match s with
  | set_endpoint _ => "--endpoint"
  | set_timeout _ _ => "--timeout-ms"
  | set_policy _ => "--policy-profile"
  | set_robot _ => "--robot-profile"
  end.

Definition value_of (s : setting) : string :=
  match s with
  | set_endpoint value | set_timeout value _ | set_policy value | set_robot value => value
  end.

(** [joined]: one argument with an equals sign. *)
Definition spell (s : setting * bool) : list string :=
  if s.2 then [flag_of s.1 +:+ "=" +:+ value_of s.1] else [flag_of s.1; value_of s.1].

Definition apply_setting (options : RuntimeHostCliOptions) (s : setting) : RuntimeHostCliOptions :=
  match s with
  | set_endpoint value =>
      mkCliOptions value (cli_timeout_ms options) (cli_policy_profile options) (cli_robot_profile options)
        (cli_show_help options)
  | set_timeout _ timeout_ms =>
      mkCliOptions (cli_endpoint options) timeout_ms (cli_policy_profile options) (cli_robot_profile options)
        (cli_show_help options)
  | set_policy value =>
      mkCliOptions (cli_endpoint options) (cli_timeout_ms options) value (cli_robot_profile options)
        (cli_show_help options)
  | set_robot value =>
      mkCliOptions (cli_endpoint options) (cli_timeout_ms options) (cli_policy_profile options) (Some value)
        (cli_show_help options)
  end.

Definition well_written (s : setting) : Prop :=
  match s with set_timeout text timeout_ms => parse_integer text = Some timeout_ms | _ => True end.

Lemma set_option_setting options s :
  well_written s -> set_option options (flag_of s) (value_of s) = success (apply_setting options s).
Proof. destruct s as [v|text t|v|v]; cbn; try done. intros E. unfold set_option. cbn. by rewrite E. Qed.

#[local] Arguments set_option : simpl never.

Lemma flag_spelled s value :
  is_help (flag_of s +:+ "=" +:+ value) = false /\
  split_equals (flag_of s +:+ "=" +:+ value) = Some (flag_of s, value) /\
  is_help (flag_of s) = false /\ split_equals (flag_of s) = None.
Proof. by destruct s. Qed.

Lemma parse_spelled options settings :
  Forall (fun s => well_written s.1) settings ->
  parse_arguments options (concat (map spell settings)) =
  parse_arguments (fold_left apply_setting (map fst settings) options) [].
Proof.
  intros Hw. revert options. induction Hw as [|[s joined] settings Hs _ IH]; intros options; [done|].
  cbn [map concat fold_left fst]. rewrite <- IH. pose proof (set_option_setting options s Hs) as E.
  destruct (flag_spelled s (value_of s)) as (H1 & H2 & H3 & H4).
  unfold spell. destruct joined; cbn [fst snd app parse_arguments].
  - by rewrite H1, H2, E.
  - by rewrite H3, H4, E.
Qed.

(** The options are those of the settings in order, the last one of a kind counting, however each of
    them is written; without a policy profile they are refused. *)
Theorem cli_spellings program settings :
  Forall (fun s => well_written s.1) settings ->
  let options := fold_left apply_setting (map fst settings) RuntimeHostCliOptions_default in
  parse_runtime_host_cli (program :: concat (map spell settings)) =
    if String.eqb (cli_policy_profile options) "" then fail invalid_argument "--policy-profile is required"
    else success options.
Proof. intros Hw options. unfold parse_runtime_host_cli. cbn [tail]. by rewrite parse_spelled. Qed.

Lemma cli_spellings_witness :
  parse_runtime_host_cli ["host"; "--timeout-ms=50"; "--policy-profile"; "p=1.json"; "--timeout-ms"; "-7"] =
  success (mkCliOptions "embodied-policy-runtime" (-7) "p=1.json" None false).
Proof.
  apply (cli_spellings "host" [(set_timeout "50" 50, true); (set_policy "p=1.json", false); (set_timeout "-7" (-7), false)]).
  repeat constructor.
Defined.

(** Numbers are read exactly or refused. *)
Lemma parse_integer_range text value : parse_integer text = Some value -> int32_min <= value <= int32_max.
Proof.
  unfold parse_integer. destruct (match text with String "-" _ => _ | _ => _ end) as [negative digits].
  destruct digits; [done|]. cbn [mbind option_bind]. destruct (read_digits _ _ _) as [m|]; [|done]. cbn.
  destruct (_ && _) eqn:Hb; [|done]. intros [= <-]. lia.
Qed.

Lemma parse_integer_written n :
  (0 <= n <= int32_max -> parse_integer (to_string n) = Some n) /\
  (0 <= n <= - int32_min -> parse_integer ("-" +:+ to_string n) = Some (- n)).
Proof.
  pose proof (to_string_digits n) as Hd. pose proof (to_string_not_empty n) as He.
  split; intros Hn; pose proof (read_to_string n (proj1 Hn)) as Hr; unfold parse_integer, int32_min, int32_max in *;
    destruct (to_string n) as [|c rest]; try done.
  - assert (c <> "-"%char) as Hc by (inversion Hd as [|? ? Hc]; intros ->; discriminate Hc).
    assert (match String c rest with String "-" digits => (true, digits) | _ => (false, String c rest) end =
      (false, String c rest)) as -> by (destruct c as [[] [] [] [] [] [] [] []]; done).
    rewrite Hr. cbn. destruct (_ && _) eqn:Hb; [done|lia].
  - change ("-" +:+ String c rest) with (String "-" (String c rest)). cbv match beta. rewrite Hr. cbn. destruct (_ && _) eqn:Hb; [done|lia].
Qed.

(** A help flag ends the parse, whatever follows. *)
Lemma help_wins options arguments : parse_arguments options ("--help" :: arguments) = success (with_help options).
Proof. done. Qed.

Example host_cli_refusals :
  parse_runtime_host_cli ["host"; "--policy-profile"] =
    fail invalid_argument "argument requires a value: --policy-profile" /\
  parse_runtime_host_cli ["host"; "--timeout-ms=+5"] = fail invalid_argument "--timeout-ms requires an integer" /\
  parse_runtime_host_cli ["host"; "--timeout-ms=2147483648"] = fail invalid_argument "--timeout-ms requires an integer" /\
  parse_runtime_host_cli ["host"; "--help=now"] = fail invalid_argument "unknown argument: --help" /\
  parse_runtime_host_cli [] = fail invalid_argument "--policy-profile is required".
Proof. by vm_compute. Qed.

Example endpoints :
  resolve_policy_endpoint "lab" = "ipc:///tmp/lab.sock" /\ resolve_policy_endpoint "tcp://*:5555" = "tcp://*:5555".
Proof. by vm_compute. Qed.

End HostCli.
