(* ===== verification/RuntimeHost.v ===== *)
(** * The runtime host

    [runtime/runtime_host.cpp]: the host that answers the requests of the RPC clients, reads the
    feedback of the robot, asks the policy for an action and publishes the commands.

    The robot I/O is an interface ([RuntimeRobotIo], the abstract class of [runtime_host.hpp]);
    the readings of the clocks are arguments; the calls a request makes of the robot I/O are
    recorded in order, with their results. *)
From S2P Require Export Prelude Messages Damiao Cia402 Numbers RobotLoader PolicyLoader Rpc Policy.

(** ** The robot I/O *)

Class RuntimeRobotIo (R : Type) := {
  ri_axis_count : R -> Z;
  ri_servo_count : R -> Z;
  ri_damiao_count : R -> Z;
  ri_read_feedback : R -> R * Outcome (Result (Snapshot AxisFeedback));
  ri_read_servo_feedback : R -> R * Outcome (Result (Snapshot St3215ServoFeedback));
  ri_read_damiao_feedback : R -> R * Outcome (Result (Snapshot DamiaoFeedback));
  ri_publish_commands : R -> list AxisCommand -> list St3215ServoCommand -> Z -> Z -> R * Outcome (Result unit);
  ri_publish_damiao_commands : R -> list DamiaoMitCommand -> list bool -> Z -> Z -> R * Outcome (Result unit);
  ri_close : R -> R }.

Module RuntimeHost.
Import PolicyLoader Policy Rpc.
Open Scope string_scope.
Open Scope list_scope.
Open Scope Z_scope.

(** ** Names of the actuators *)

Definition parse_bus_position (text : string) : option Z :=
  let '(hexadecimal, digits) :=
    match text with
    | String zero (String x (String c rest)) =>
        if Ascii.eqb zero "0" && (Ascii.eqb x "x" || Ascii.eqb x "X") then (true, String c rest)
        else (false, text)
    | _ => (false, text)
    end in
  value ← from_chars hexadecimal digits;
  if uint16_max <? value then None else Some value.

Definition matches_axis (device : DeviceConfig) (axis : AxisConfig) (path : string) : bool :=
  String.eqb (dev_type device) "cia402" && String.eqb (dev_path device) path &&
  match dev_arg device "alias", dev_arg device "position" with
  | Some alias, Some position =>
      bool_decide (parse_bus_position alias = Some (ax_alias axis)) &&
      bool_decide (parse_bus_position position = Some (ax_position axis))
  | _, _ => false
  end.

Fixpoint names_of_axes (profile : RobotProfile) (axes : list AxisConfig) : Result (list string) :=
  match axes with
  | [] => success []
  | axis :: axes =>
      match List.find (fun s => String.eqb (dev_type s) "cia402" && String.eqb (dev_name s) (ax_name axis))
              (rp_sensors profile) with
      | None => fail invalid_argument ("cia402 axis has no matching sensor: " +:+ ax_name axis)
      | Some sensor =>
          match List.find (fun a => matches_axis a axis (dev_path sensor)) (rp_actuators profile) with
          | None => fail invalid_argument ("cia402 axis has no matching actuator: " +:+ ax_name axis)
          | Some actuator => names ← names_of_axes profile axes; success (dev_name actuator :: names)
          end
      end
  end.

Definition axis_actuator_names (profile : RobotProfile) : Result (list string) :=
  names_of_axes profile (rp_axes profile).

(** ** Observations and actions in the shape of the protocol *)

Definition as_number (v : Json) : Json := match as_double v with Some d => JFloat d | None => v end.

(** [f] applied to the member [name], when there is one. *)
Definition update_member (entries : Entries) (name : string) (f : Json -> Json) : Entries :=
  match member entries name with Some v => store entries name (f v) | None => entries end.

Definition normalize_joint_state_numbers (value : Json) : Json :=
  match value with
  | JObject entries =>
      JObject (update_member entries "values" (fun values =>
        match values with JArray items => JArray (map as_number items) | _ => values end))
  | _ => value
  end.

Definition normalize_gripper_number (value : Json) : Json :=
  match value with
  | JObject entries => JObject (update_member entries "value" as_number)
  | _ => value
  end.

Definition erase (entries : Entries) (name : string) : Entries :=
  filter (fun e => e.1 <> name) entries.

Definition erase_null (entries : Entries) (name : string) : Entries :=
  match member entries name with Some JNull => erase entries name | _ => entries end.

(** A member that is added when it is missing. *)
Definition with_default (entries : Entries) (name : string) (v : Json) : Entries :=
  match member entries name with Some _ => entries | None => store entries name v end.

Definition normalize_image (value : Json) : Json :=
  match value with
  | JObject entries =>
      JObject (with_default (with_default entries "encoding" (JString "base64")) "mime_type" (JString "image/jpeg"))
  | _ => value
  end.

Definition normalized_observation (input : Entries) : Entries :=
  let observation := fold_left erase_null ["joint_position"; "gripper_width"; "task_text"; "image"] input in
  let observation := with_default observation "meta" (JObject []) in
  let observation := update_member observation "joint_position" normalize_joint_state_numbers in
  let observation := update_member observation "gripper_width" normalize_gripper_number in
  update_member observation "image" normalize_image.

Definition action_defaults : Entries :=
  [("action_chunk", JArray []); ("gripper_command", JNull); ("joint_position_delta", JNull);
   ("meta", JObject [])].

Definition normalized_action (input : Entries) : Entries :=
  let action := fold_left (fun action e => store action e.1 e.2) input action_defaults in
  let action := update_member action "joint_position_delta" normalize_joint_state_numbers in
  update_member action "gripper_command" normalize_gripper_number.

Definition missing_fields_message (fields : list string) : string :=
  "missing required canonical observation fields: [" +:+
  String.concat ", " (map (fun field => "'" +:+ field +:+ "'") fields) +:+ "]".

Definition feedback_value (axis : AxisConfig) (feedback : AxisFeedback) : double :=
  match ax_mode axis with
  | csp => af_position feedback
  | csv => af_velocity feedback
  | cst => af_effort feedback
  end.

Definition target_keys (mode : Cia402Mode) : list string :=
  match mode with
  | csp => ["target_position"; "target_position_rad"; "position"]
  | csv => ["target_velocity"; "velocity"]
  | cst => ["target_effort"; "target_torque"; "effort"; "torque"]
  end ++ ["target"; "value"].

(** The first of the keys that holds a number. *)
Fixpoint first_number (entries : Entries) (keys : list string) : option double :=
  match keys with
  | [] => None
  | key :: keys =>
      match member entries key with
      | Some v => match as_double v with Some d => Some d | None => first_number entries keys end
      | None => first_number entries keys
      end
  end.

Definition action_target (value : Json) (mode : Cia402Mode) : option double :=
  match value with
  | JObject entries => first_number entries (target_keys mode)
  | _ => as_double value
  end.

Definition servo_target (value : Json) : option double :=
  match value with
  | JObject entries => first_number entries ["position_rad"; "target_position_rad"]
  | _ => as_double value
  end.

Definition float_member (entries : Entries) (key : string) : float :=
  default fzero (v ← member entries key; as_float v).

(** A value that is not an object leaves the command at zero and the motor disabled. *)
Definition motor_command (value : option Json) : DamiaoMitCommand * bool :=
  match value with
  | Some (JObject entries) =>
      (mkMitCommand (float_member entries "position") (float_member entries "velocity")
         (float_member entries "kp") (float_member entries "kd") (float_member entries "torque"),
       match member entries "enabled" with Some (JBoolean b) => b | _ => true end)
  | _ => (mkMitCommand fzero fzero fzero fzero fzero, false)
  end.

(** The field of the action that is bound to an actuator. *)
Definition action_field (outputs : list RobotPolicyBinding) (actuator : string) : string :=
  match List.find (fun b => String.eqb (bn_robot_data b) actuator) outputs with
  | Some b => bn_canonical_field b
  | None => actuator
  end.

(** ** The host *)

(** The calls a request makes of the robot I/O. *)
Inductive event :=
  | ev_read_axes
  | ev_read_servos
  | ev_read_motors
  | ev_publish (axes : list AxisCommand) (servos : list St3215ServoCommand) (sequence timestamp_ns : Z)
      (result : Outcome (Result unit))
  | ev_publish_motors (commands : list DamiaoMitCommand) (enabled : list bool) (sequence timestamp_ns : Z)
      (result : Outcome (Result unit)).

(** The readings of the clocks during a request: when the answer is made, when an error is, when
    [handle_text] makes one, and the monotonic clock of the commands. *)
Record Times := mkTimes { at_response : Z; at_error : Z; at_text : Z; at_command : Z }.

Definition clamped (value : Z) : Z := if value <? 0 then 0 else value.

(** The library's exceptions. *)
Class JsonErrors := json_error : string -> Json -> string.

Section Host.
Context {R : Type} `{RuntimeRobotIo R} `{JsonErrors}.

Record Host := mkHost {
  rh_profile : PolicyProfile;
  rh_robot : RobotProfile;
  rh_names : list string;
  rh_policy : Policy;
  rh_preprocess : ProcessorPipeline;
  rh_postprocess : ProcessorPipeline;
  rh_io : option R;
  rh_sessions : gmap string PolicySession;
  rh_command_sequence : Z;
  rh_last_command_timestamp_ns : Z;
  rh_open : bool }.

Definition with_io (h : Host) (r : R) : Host :=
  mkHost (rh_profile h) (rh_robot h) (rh_names h) (rh_policy h) (rh_preprocess h) (rh_postprocess h)
    (Some r) (rh_sessions h) (rh_command_sequence h) (rh_last_command_timestamp_ns h) (rh_open h).

Definition with_sessions (h : Host) (sessions : gmap string PolicySession) : Host :=
  mkHost (rh_profile h) (rh_robot h) (rh_names h) (rh_policy h) (rh_preprocess h) (rh_postprocess h)
    (rh_io h) sessions (rh_command_sequence h) (rh_last_command_timestamp_ns h) (rh_open h).

Definition with_commands (h : Host) (sequence timestamp_ns : Z) : Host :=
  mkHost (rh_profile h) (rh_robot h) (rh_names h) (rh_policy h) (rh_preprocess h) (rh_postprocess h)
    (rh_io h) (rh_sessions h) sequence timestamp_ns (rh_open h).

Definition with_open (h : Host) (open : bool) : Host :=
  mkHost (rh_profile h) (rh_robot h) (rh_names h) (rh_policy h) (rh_preprocess h) (rh_postprocess h)
    (rh_io h) (rh_sessions h) (rh_command_sequence h) (rh_last_command_timestamp_ns h) open.

(** [from_profiles], over what reading the files gave. *)
Definition from_profiles (dump : Json -> string) (policy_profile : string * Document)
    (robot_profile : option (string * Document)) (robot_io : option R) : Result Host :=
  profile ← load_policy_profile policy_profile.1 policy_profile.2;
  policy ← make_policy dump profile;
  preprocess ← create (pp_preprocess profile) "preprocess";
  postprocess ← create (pp_postprocess profile) "postprocess";
  loaded_robot ← match robot_profile with
                 | Some (path, document) => RobotLoader.load_robot_profile dump path document
                 | None => success (mkRobotProfile [] [] [] [] [] DdsConfig_default)
                 end;
  names ← axis_actuator_names loaded_robot;
  success (mkHost profile loaded_robot names policy preprocess postprocess robot_io ∅ 0 0 false).

Definition empty {A} (l : list A) : bool := match l with [] => true | _ => false end.

Definition size {A} (l : list A) : Z := Z.of_nat (length l).

Definition open (h : Host) : Host * Result unit :=
  match rh_io h with
  | None =>
      if negb (empty (rp_axes (rh_robot h))) || negb (empty (rp_st3215_servos (rh_robot h)))
      then (h, fail unavailable "robot profile requires a robot I/O daemon connection")
      else (with_open h true, success tt)
  | Some r =>
      if negb (ri_axis_count r =? size (rp_axes (rh_robot h))) then
        (h, fail invalid_argument "robot I/O axis count does not match robot profile")
      else if negb (ri_servo_count r =? size (rp_st3215_servos (rh_robot h))) then
        (h, fail invalid_argument "robot I/O servo count does not match robot profile")
      else if negb (ri_damiao_count r =? size (rp_damiao_motors (rh_robot h))) then
        (h, fail invalid_argument "robot I/O Damiao count does not match robot profile")
      else (with_open h true, success tt)
  end.

Definition close (h : Host) : Host :=
  let h := with_open h false in
  match rh_io h with Some r => with_io h (ri_close r) | None => h end.

(** ** The steps of a request

    A step changes the host, makes calls, and goes on with a value, or ends the request: with an
    answer, with an exception, or outside the arrays of the program. *)
Inductive Stage (A : Type) :=
  | go (a : A)
  | stop (answer : MessageEnvelope)
  | raise (what : string)
  | broken.
Arguments go {A}.
Arguments stop {A}.
Arguments raise {A}.
Arguments broken {A}.

Definition M (A : Type) : Type := Host -> Host * list event * Stage A.

Definition ret {A} (a : A) : M A := fun h => (h, [], go a).

Definition bind {A B} (m : M A) (f : A -> M B) : M B := fun h =>
  let '(h, events, s) := m h in
  match s with
  | go a => let '(h, events', s') := f a h in (h, events ++ events', s')
  | stop answer => (h, events, stop answer)
  | raise what => (h, events, raise what)
  | broken => (h, events, broken)
  end.

Notation "x <- m ; k" := (bind m (fun x => k)) (at level 20, m at level 100, k at level 200, right associativity).
Notation "' p <- m ; k" := (bind m (fun p => k))
  (at level 20, p pattern, m at level 100, k at level 200, right associativity).

Definition get : M Host := fun h => (h, [], go h).
Definition modify (f : Host -> Host) : M unit := fun h => (f h, [], go tt).
Definition lift {A} (r : Outcome A) : M A := fun h =>
  (h, [], match r with returned a => go a | threw what => raise what | undefined => broken end).

(** A call through the pointer to the robot I/O. *)
Definition call {A} (f : R -> R * Outcome A) (e : Outcome A -> event) : M A := fun h =>
  match rh_io h with
  | Some r =>
      let '(r, result) := f r in
      (with_io h r, [e result],
       match result with returned a => go a | threw what => raise what | undefined => broken end)
  | None => (h, [], broken)
  end.

Definition has_io (h : Host) : bool := match rh_io h with Some _ => true | None => false end.

Definition error_envelope (request : MessageEnvelope) (code message : string) (now_ns : Z) : MessageEnvelope :=
  mkEnvelope kSchemaVersion (en_type request +:+ "_error") (en_request_id request) (en_session_id request)
    (en_step_id request) (clamped now_ns) (JObject []) (Some (mkErrorPayload code message (JObject []))).

Definition or_else (message fallback : string) : string :=
  if String.eqb message "" then fallback else message.

Section Request.
Context (request : MessageEnvelope) (t : Times).

Definition refuse {A} (message : string) : M A := fun h =>
  (h, [], stop (error_envelope request "runtime_error" message (at_error t))).

(** A failed result ends the request with its message. *)
Definition expect {A} (r : Result A) (message_of : string -> string) : M A :=
  match r with success a => ret a | failure e => refuse (message_of (message e)) end.

Definition respond {A} (type : string) (payload : Entries) : M A := fun h =>
  (h, [], stop (mkEnvelope kSchemaVersion type (en_request_id request) (en_session_id request)
                  (en_step_id request) (clamped (at_response t)) (object_of payload) None)).

(** *** The observation *)

(** The entries of the devices, each under its name. *)
Fixpoint add_fields {C V} (name : C -> string) (make : C -> V -> Json) (devices : list C) (values : list V)
    (fields : Entries) : Outcome Entries :=
  match devices, values with
  | [], _ => returned fields
  | device :: devices, v :: values => add_fields name make devices values (store fields (name device) (make device v))
  | _ :: _, [] => undefined
  end.

Definition axis_field (axis : AxisConfig) (v : AxisFeedback) : Json := JFloat (feedback_value axis v).

Definition servo_field (servo : St3215ServoProfile) (v : St3215ServoFeedback) : Json :=
  object_of [("servo_id", JUnsigned (pf_servo_id servo)); ("position_rad", JFloat (sf_position_rad v));
    ("raw_position", JUnsigned (sf_raw_position v)); ("status_error", JUnsigned (sf_status_error v))].

Definition motor_field (motor : DamiaoMotorProfile) (v : DamiaoFeedback) : Json :=
  object_of [("motor_id", JUnsigned (df_motor_id v)); ("position", JFloat (to_double (df_position v)));
    ("velocity", JFloat (to_double (df_velocity v))); ("torque", JFloat (to_double (df_torque v)));
    ("error_code", JUnsigned (df_error_code v))].

Definition read_axes (fields : Entries) : M Entries :=
  h <- get ;
  let axes := rp_axes (rh_robot h) in
  if has_io h && negb (empty axes) then
    feedback <- call ri_read_feedback (fun _ => ev_read_axes) ;
    feedback <- expect feedback (fun m => or_else m "robot feedback is unavailable") ;
    if negb (sn_axis_count feedback =? size axes) then
      refuse "robot feedback axis count does not match robot profile"
    else lift (add_fields ax_name axis_field axes (sn_axes feedback) fields)
  else ret fields.

Definition read_servos (fields : Entries) : M Entries :=
  h <- get ;
  let servos := rp_st3215_servos (rh_robot h) in
  if has_io h && negb (empty servos) then
    feedback <- call ri_read_servo_feedback (fun _ => ev_read_servos) ;
    feedback <- expect feedback (fun m => or_else m "robot servo feedback is unavailable") ;
    if negb (sn_axis_count feedback =? size servos) then
      refuse "robot feedback servo count does not match robot profile"
    else lift (add_fields pf_sensor_name servo_field servos (sn_axes feedback) fields)
  else ret fields.

Definition read_motors (fields : Entries) : M Entries :=
  h <- get ;
  let motors := rp_damiao_motors (rh_robot h) in
  if has_io h && negb (empty motors) then
    feedback <- call ri_read_damiao_feedback (fun _ => ev_read_motors) ;
    feedback <- expect feedback (fun _ => "Damiao feedback is unavailable") ;
    lift (add_fields mp_sensor_name motor_field motors (sn_axes feedback) fields)
  else ret fields.

(** The fields the policy gets: those its profile binds, by robot data or by canonical field. *)
Definition bind_input (fields : Entries) (observation : Entries) (b : RobotPolicyBinding) : Entries :=
  match member fields (bn_robot_data b) with
  | Some v => store observation (bn_canonical_field b) v
  | None =>
      match member fields (bn_canonical_field b) with
      | Some v => store observation (bn_canonical_field b) v
      | None => observation
      end
  end.

Definition bound_observation (inputs : list RobotPolicyBinding) (fields request_observation : Entries) : Entries :=
  match fold_left (bind_input fields) inputs [] with
  | [] => request_observation
  | observation => observation
  end.

Definition missing_fields (schema : list SemanticField) (observation : Entries) : list string :=
  map fd_name (filter (fun f => fd_optional f = false /\ member observation (fd_name f) = None) schema).

(** Up to the call of the policy. *)
Definition observe (request_observation : Entries) : M Json :=
  fields <- read_axes request_observation ;
  fields <- read_servos fields ;
  fields <- read_motors fields ;
  h <- get ;
  let observation := bound_observation (pp_inputs (rh_profile h)) fields request_observation in
  let missing := missing_fields (pp_observation_schema (rh_profile h)) observation in
  if negb (empty missing) then refuse (missing_fields_message missing)
  else expect (run (rh_preprocess h) (JObject observation)) id.

(** *** The action *)

(** The members of the value an iteration goes over; of another value than an object there are
    none the code can name. *)
Definition action_of (processed : Json) : Outcome Entries :=
  match processed with
  | JObject entries => returned (normalized_action entries)
  | JNull | JArray [] => returned (normalized_action [])
  | _ => threw (json_error "object" processed)
  end.

Definition session_of (h : Host) : PolicySession :=
  default (PolicySession_new (en_session_id request)) (rh_sessions h !! en_session_id request).

(** [try_emplace]. *)
Definition open_session (h : Host) : Host :=
  with_sessions h (<[en_session_id request := session_of h]> (rh_sessions h)).

Definition decide_action (observation : Json) : M Entries :=
  _ <- modify open_session ;
  h <- get ;
  action <- lift (infer json_error (rh_policy h) observation (session_of h)) ;
  action <- expect action id ;
  processed <- expect (run (rh_postprocess h) action) id ;
  output <- lift (action_of processed) ;
  _ <- expect (validate_action_payload (JObject output)) id ;
  ret output.

(** *** The commands *)

(** The numeric target of an actuator; [None] for the actuator: it is outside the array of the names. *)
Definition target_of {A} (output : Entries) (actuator : option string) (target : Json -> option double)
    (k : double -> M A) : M A :=
  h <- get ;
  actuator <- lift (match actuator with Some actuator => returned actuator | None => undefined end) ;
  match (v ← member output (action_field (pp_outputs (rh_profile h)) actuator); target v) with
  | Some d => k d
  | None => refuse ("action does not contain a numeric target for robot field: " +:+ actuator)
  end.

(** The loop that fills an array of [maximum] commands, one for each device. *)
Fixpoint fill_commands {C A} (maximum : Z) (output : Entries) (actuator : C -> option string)
    (target : C -> Json -> option double) (make : double -> A) (index : Z) (devices : list C) : M (list A) :=
  match devices with
  | [] => ret []
  | device :: devices =>
      target_of output (actuator device) (target device) (fun d =>
        if maximum <=? index then lift undefined
        else
          commands <- fill_commands maximum output actuator target make (index + 1) devices ;
          ret (make d :: commands))
  end.

Definition axis_command (sequence timestamp_ns : Z) (target : double) : AxisCommand :=
  mkAxisCommand sequence timestamp_ns target kAxisCommandEnable 0.

Definition servo_command (sequence timestamp_ns : Z) (target : double) : St3215ServoCommand :=
  mkServoCommand sequence timestamp_ns target true false (replicate 6 0).

(** The axes with the names of their actuators. *)
Definition named_axes (h : Host) : list (option string * AxisConfig) :=
  imap (fun k axis => (rh_names h !! k, axis)) (rp_axes (rh_robot h)).

Definition motor_commands (h : Host) (output : Entries) : list (DamiaoMitCommand * bool) :=
  map (fun motor => motor_command (member output (action_field (pp_outputs (rh_profile h)) (mp_actuator_name motor))))
    (rp_damiao_motors (rh_robot h)).

(** The time of the commands: after that of the last ones. *)
Definition command_timestamp (h : Host) : Outcome Z :=
  let now := clamped (at_command t) in
  if rh_last_command_timestamp_ns h <? now then returned now
  else if rh_last_command_timestamp_ns h =? int64_max then undefined
  else returned (rh_last_command_timestamp_ns h + 1).

Definition publish (output : Entries) : M unit :=
  h <- get ;
  if has_io h then
    let sequence := u64 (rh_command_sequence h + 1) in
    timestamp_ns <- lift (command_timestamp h) ;
    axes <- fill_commands kRobotIoMaximumAxes output fst (fun p v => action_target v (ax_mode p.2))
              (axis_command sequence timestamp_ns) 0 (named_axes h) ;
    servos <- fill_commands kRobotIoMaximumServos output (fun s => Some (pf_actuator_name s)) (fun _ => servo_target)
                (servo_command sequence timestamp_ns) 0 (rp_st3215_servos (rh_robot h)) ;
    published <- call (fun r => ri_publish_commands r axes servos sequence timestamp_ns)
                   (ev_publish axes servos sequence timestamp_ns) ;
    _ <- expect published (fun m => or_else m "robot command publication failed") ;
    let motors := motor_commands h output in
    if kRobotIoMaximumServos <? size motors then lift undefined
    else
      published <- call (fun r => ri_publish_damiao_commands r (map fst motors) (map snd motors) sequence timestamp_ns)
                     (ev_publish_motors (map fst motors) (map snd motors) sequence timestamp_ns) ;
      _ <- expect published id ;
      modify (fun h => with_commands h sequence timestamp_ns)
  else ret tt.

Definition step_session (h : Host) : Host :=
  let s := session_of h in
  with_sessions h (<[en_session_id request := mkSession (ps_session_id s) (u64 (ps_step_id s + 1)) (ps_metadata s)]>
    (rh_sessions h)).

Definition observation_request {A} : M A :=
  match find_in (en_payload request) "observation" with
  | Some (JObject observation) =>
      observation <- observe (normalized_observation observation) ;
      output <- decide_action observation ;
      _ <- publish output ;
      _ <- modify step_session ;
      respond "action_response" [("ok", JBoolean true); ("action", JObject output)]
  | _ => lift (threw (json_error "observation" (en_payload request)))
  end.

(** *** The request *)

Definition reset_request {A} : M A :=
  hard <- match find_in (en_payload request) "hard" with
          | None => ret false
          | Some (JBoolean b) => ret b
          | Some v => lift (threw (json_error "boolean" v))
          end ;
  _ <- modify (fun h => with_sessions h (<[en_session_id request := PolicySession_new (en_session_id request)]>
                 (rh_sessions h))) ;
  respond "reset_response" [("ok", JBoolean true); ("hard", JBoolean hard)].

Definition serve {A} : M A :=
  let of_type type := String.eqb (en_type request) type in
  _ <- (if of_type "health_request" || of_type "reset_request" || of_type "observation_request"
        then expect (validate_payload (en_type request) (en_payload request)) id else ret tt) ;
  h <- get ;
  if of_type "health_request" then
    respond "health_response" [("ok", JBoolean true); ("policy_id", JString (pp_id (rh_profile h)))]
  else if of_type "server_info_request" then
    respond "server_info_response"
      [("server_name", JString "policy_embodied_runtime"); ("server_version", JString "0.1.0");
       ("supported_schema", JString kSchemaVersion); ("transports", JArray [JString "zmq+json"])]
  else if of_type "reset_request" then reset_request
  else if negb (of_type "observation_request") then refuse ("unknown request type: " +:+ en_type request)
  else observation_request.

(** [None]: outside the arrays of the program. *)
Definition handle (h : Host) : Host * list event * option (Result MessageEnvelope) :=
  if negb (rh_open h) then (h, [], Some (fail unavailable "runtime host is not open"))
  else
    let '(h, events, s) := serve (A := Empty_set) h in
    (h, events,
     match s with
     | go e => match e with end
     | stop answer => Some (success answer)
     | raise what => Some (success (error_envelope request "internal_error" what (at_error t)))
     | broken => None
     end).

End Request.

Definition protocol_request : MessageEnvelope :=
  mkEnvelope kSchemaVersion "protocol" "unknown" "unknown" 0 0 (JObject []) None.

(** The answer [handle_text] makes of the result of [handle]. *)
Definition answer_of (request : MessageEnvelope) (t : Times) (r : Result MessageEnvelope) : MessageEnvelope :=
  match r with
  | success answer => answer
  | failure e => error_envelope request "internal_error" (message e) (at_text t)
  end.

(** An answer as text; the exception of the printer leaves [handle_text]. *)
Definition written {Text} `{JsonText Text} (answer : MessageEnvelope) : Outcome Text :=
  match encode_envelope answer with inr out => returned out | inl what => threw what end.

Definition handle_text {Text} `{JsonText Text} (h : Host) (request : Text) (t : Times)
    : Host * list event * Outcome Text :=
  match decode_envelope_for_dispatch request with
  | failure e => (h, [], written (error_envelope protocol_request "protocol_error" (message e) (at_text t)))
  | success envelope =>
      let '(h, events, r) := handle envelope t h in
      (h, events, match r with Some r => written (answer_of envelope t r) | None => undefined end)
  end.

End Host.

Arguments go {A}.
Arguments stop {A}.
Arguments raise {A}.
Arguments broken {A}.

End RuntimeHost.
