(* ===== verification/HostFacts.v ===== *)
(** * What the runtime host does with a request

    The properties of RuntimeHost.v: what a request reads and publishes, the batches of a run, the
    sessions, the answers on the wire, and that the host stays inside its arrays. *)
From Stdlib Require Export Sorting.Sorted.
From S2P Require Export RuntimeHost.

Module HostFacts.
Import PolicyLoader Policy Rpc RuntimeHost.
Open Scope string_scope.
Open Scope list_scope.
Open Scope Z_scope.

Section Host.
Context {R : Type} `{RuntimeRobotIo R} `{JsonErrors}.

Abbreviation Host := (@Host R).
Abbreviation M := (@M R).

(** ** Reasoning about steps

    [wp m Q h]: running [m] on [h] ends in [Q]. *)
Definition wp {A} (m : M A) (Q : Host -> list event -> Stage A -> Prop) (h : Host) : Prop :=
  let '(h', events, s) := m h in Q h' events s.

Lemma wp_bind {A B} (m : M A) (f : A -> M B) Q h :
  wp m (fun h1 e1 s => match s with
          | go a => wp (f a) (fun h2 e2 s' => Q h2 (e1 ++ e2) s') h1
          | stop answer => Q h1 e1 (stop answer)
          | raise what => Q h1 e1 (raise what)
          | broken => Q h1 e1 broken
          end) h ->
  wp (bind m f) Q h.
Proof.
  unfold wp, bind. destruct (m h) as [[h1 e1] []]; try done. by destruct (f a h1) as [[h2 e2] s'].
Qed.

Lemma wp_mono {A} (m : M A) (Q Q' : Host -> list event -> Stage A -> Prop) h :
  wp m Q h -> (forall h' e s, Q h' e s -> Q' h' e s) -> wp m Q' h.
Proof. unfold wp. destruct (m h) as [[h' e] s]. auto. Qed.

Lemma wp_and {A} (m : M A) (Q Q' : Host -> list event -> Stage A -> Prop) h :
  wp m Q h -> wp m Q' h -> wp m (fun h' e s => Q h' e s /\ Q' h' e s) h.
Proof. unfold wp. destruct (m h) as [[h' e] s]. auto. Qed.

Section Facts.
Context (request : MessageEnvelope) (t : Times).

(** *** Parts that do not publish *)

(** What such a part leaves of the host. *)
Record kept (h h' : Host) : Prop := {
  kp_profile : rh_profile h' = rh_profile h;
  kp_robot : rh_robot h' = rh_robot h;
  kp_names : rh_names h' = rh_names h;
  kp_policy : rh_policy h' = rh_policy h;
  kp_preprocess : rh_preprocess h' = rh_preprocess h;
  kp_postprocess : rh_postprocess h' = rh_postprocess h;
  kp_io : has_io h' = has_io h;
  kp_open : rh_open h' = rh_open h;
  kp_others k : k <> en_session_id request -> rh_sessions h' !! k = rh_sessions h !! k }.

(** Also the commands published so far and the state of the session. *)
Record steady (h h' : Host) : Prop := {
  sd_kept : kept h h';
  sd_sequence : rh_command_sequence h' = rh_command_sequence h;
  sd_timestamp : rh_last_command_timestamp_ns h' = rh_last_command_timestamp_ns h;
  sd_own : session_of request h' = session_of request h }.

#[local] Instance kept_reflexive : Reflexive kept.
Proof. by split. Qed.

#[local] Instance kept_transitive : Transitive kept.
Proof.
  intros h1 h2 h3 [] []. split; try congruence. intros k Hk. transitivity (rh_sessions h2 !! k); auto.
Qed.

#[local] Instance steady_reflexive : Reflexive steady.
Proof. by split. Qed.

#[local] Instance steady_transitive : Transitive steady.
Proof. intros h1 h2 h3 [] []. split; try congruence. by etrans. Qed.

Lemma steady_io h r r' : rh_io h = Some r -> steady h (with_io h r').
Proof. intros E. repeat split; try done. unfold has_io. by rewrite E. Qed.

Lemma steady_open (h : Host) : steady h (open_session request h).
Proof.
  repeat split; try done.
  - intros k Hk. cbn. by rewrite lookup_insert_ne.
  - unfold session_of, open_session. cbn. by rewrite lookup_insert_eq.
Qed.

Definition is_read (e : event) : Prop :=
  match e with ev_read_axes | ev_read_servos | ev_read_motors => True | _ => False end.

Definition is_refusal (answer : MessageEnvelope) : Prop :=
  exists message, answer = error_envelope request "runtime_error" message (at_error t).

(** The outcome of a part that reads at most, and goes on with a value in [Q]. *)
Definition quiet {A} (h0 : Host) (Q : A -> Prop) (h : Host) (events : list event) (s : Stage A) : Prop :=
  steady h0 h /\ Forall is_read events /\
  match s with go a => Q a | stop answer => is_refusal answer | _ => True end.

Lemma quiet_bind {A B} (m : M A) (f : A -> M B) Q Q' h :
  wp m (quiet h Q) h -> (forall a h1, Q a -> steady h h1 -> wp (f a) (quiet h1 Q') h1) ->
  wp (bind m f) (quiet h Q') h.
Proof.
  intros Hm Hf. apply wp_bind. eapply wp_mono; [exact Hm|]. intros h1 e1 [] (Hs & He & Hq); try done.
  eapply wp_mono; [by apply Hf|]. intros h2 e2 s2 (Hs2 & He2 & Hq2).
  split; [by etrans|]. split; [by apply Forall_app|done].
Qed.

Lemma quiet_ret {A} (a : A) (Q : A -> Prop) h : Q a -> wp (ret a) (quiet h Q) h.
Proof. done. Qed.

Lemma quiet_get (Q : Host -> Prop) h : Q h -> wp get (quiet h Q) h.
Proof. done. Qed.

Lemma quiet_lift {A} (r : Outcome A) (Q : A -> Prop) h :
  (forall a, r = returned a -> Q a) -> wp (lift r) (quiet h Q) h.
Proof. intros HQ. repeat split; [done|]. destruct r; [by apply HQ|done|done]. Qed.

Lemma quiet_refuse {A} message (Q : A -> Prop) h : wp (refuse request t message) (quiet h Q) h.
Proof. repeat split; [done|]. by exists message. Qed.

Lemma quiet_expect {A} (r : Result A) f (Q : A -> Prop) h :
  (forall a, r = success a -> Q a) -> wp (expect request t r f) (quiet h Q) h.
Proof. intros HQ. destruct r; [apply quiet_ret; auto|apply quiet_refuse]. Qed.

Lemma quiet_call {A} (f : R -> R * Outcome A) e (Q : A -> Prop) h :
  (forall o, is_read (e o)) -> (forall a, Q a) -> wp (call f e) (quiet h Q) h.
Proof.
  intros He HQ. unfold wp, call. destruct (rh_io h) as [r|] eqn:E; [|done].
  destruct (f r) as [r' o]. split; [by eapply steady_io|]. split; [by repeat constructor|]. by destruct o.
Qed.

Lemma quiet_fields {A C} (has : bool) (m : M A) (k : A -> M C) (fields : C) h :
  wp m (quiet h (fun _ => True)) h -> (forall a h1, wp (k a) (quiet h1 (fun _ => True)) h1) ->
  wp (if has then bind m k else ret fields) (quiet h (fun _ => True)) h.
Proof. intros Hm Hk. destruct has; [|done]. eapply quiet_bind; [exact Hm|auto]. Qed.

Lemma read_axes_quiet fields h : wp (read_axes request t fields) (quiet h (fun _ => True)) h.
Proof.
  eapply quiet_bind; [by apply (quiet_get (fun _ => True))|]. intros h0 h1 _ _.
  apply quiet_fields; [by apply quiet_call|]. intros feedback h2.
  eapply quiet_bind; [by apply (quiet_expect _ _ (fun _ => True))|]. intros sn h3 _ _.
  destruct (negb _); [apply quiet_refuse|by apply quiet_lift].
Qed.

Lemma read_servos_quiet fields h : wp (read_servos request t fields) (quiet h (fun _ => True)) h.
Proof.
  eapply quiet_bind; [by apply (quiet_get (fun _ => True))|]. intros h0 h1 _ _.
  apply quiet_fields; [by apply quiet_call|]. intros feedback h2.
  eapply quiet_bind; [by apply (quiet_expect _ _ (fun _ => True))|]. intros sn h3 _ _.
  destruct (negb _); [apply quiet_refuse|by apply quiet_lift].
Qed.

Lemma read_motors_quiet fields h : wp (read_motors request t fields) (quiet h (fun _ => True)) h.
Proof.
  eapply quiet_bind; [by apply (quiet_get (fun _ => True))|]. intros h0 h1 _ _.
  apply quiet_fields; [by apply quiet_call|]. intros feedback h2.
  eapply quiet_bind; [by apply (quiet_expect _ _ (fun _ => True))|]. intros sn h3 _ _.
  by apply quiet_lift.
Qed.

(** A policy is asked about an observation with every required field. *)
Definition complete_observation (profile : PolicyProfile) (observation : Json) : Prop :=
  exists entries, observation = JObject entries /\
    forall f, f ∈ pp_observation_schema profile -> fd_optional f = false ->
      member entries (fd_name f) <> None.

Lemma missing_none schema observation :
  empty (missing_fields schema observation) = true ->
  forall f, f ∈ schema -> fd_optional f = false -> member observation (fd_name f) <> None.
Proof.
  unfold missing_fields. intros He f Hf Ho Hm.
  assert (f ∈ filter (fun f => fd_optional f = false /\ member observation (fd_name f) = None) schema) as Hin
    by (apply list_elem_of_filter; auto).
  destruct (filter _ schema); [by apply elem_of_nil in Hin|done].
Qed.

Lemma observe_quiet observation h :
  wp (observe request t observation) (quiet h (complete_observation (rh_profile h))) h.
Proof.
  eapply quiet_bind; [apply read_axes_quiet|]. intros f1 h1 _ S1.
  eapply quiet_bind; [apply read_servos_quiet|]. intros f2 h2 _ S2.
  eapply quiet_bind; [apply read_motors_quiet|]. intros f3 h3 _ S3.
  eapply quiet_bind; [by apply (quiet_get (fun h' => rh_profile h' = rh_profile h)), (kp_profile _ _ (sd_kept _ _ (transitivity S1 (transitivity S2 S3))))|].
  intros h4 h5 E4 _. cbv zeta. rewrite E4.
  destruct (empty _) eqn:He; cbn [negb]; [|apply quiet_refuse].
  apply quiet_expect. unfold run. intros a Ha. destruct (Nat.eqb _ _); [done|]. injection Ha as <-.
  eexists. split; [reflexivity|]. by apply missing_none.
Qed.

Lemma decide_action_quiet observation h :
  wp (decide_action request t observation)
    (quiet h (fun output => validate_action_payload (JObject output) = success tt)) h.
Proof.
  eapply quiet_bind with (Q := fun _ => True).
  { repeat split; try apply steady_open. done. }
  intros _ h1 _ _. eapply quiet_bind; [by apply (quiet_get (fun _ => True))|]. intros h2 h3 _ _.
  eapply quiet_bind; [by apply (quiet_lift _ (fun _ => True))|]. intros a h4 _ _.
  eapply quiet_bind; [by apply (quiet_expect _ _ (fun _ => True))|]. intros a' h5 _ _.
  eapply quiet_bind; [by apply (quiet_expect _ _ (fun _ => True))|]. intros a'' h6 _ _.
  eapply quiet_bind; [by apply (quiet_lift _ (fun _ => True))|]. intros output h7 _ _.
  eapply quiet_bind with (Q := fun _ => validate_action_payload (JObject output) = success tt).
  { apply quiet_expect. by intros []. }
  intros _ h8 Hv _. by apply quiet_ret.
Qed.

(** *** Publication *)

(** The commands of the devices have the targets that the action has for their actuators. *)
Definition targets_taken {C A} (outputs : list RobotPolicyBinding) (output : Entries) (actuator : C -> option string)
    (target : C -> Json -> option double) (make : double -> A) (devices : list C) (commands : list A) : Prop :=
  length commands = length devices /\
  forall k device, devices !! k = Some device -> exists a v d,
    actuator device = Some a /\ member output (action_field outputs a) = Some v /\ target device v = Some d /\
    commands !! k = Some (make d).

Lemma fill_commands_quiet {C A} maximum output actuator target (make : double -> A) (devices : list C) :
  forall index h, index <= maximum ->
  wp (fill_commands request t maximum output actuator target make index devices)
    (quiet h (fun commands => index + size devices <= maximum /\
       targets_taken (pp_outputs (rh_profile h)) output actuator target make devices commands)) h.
Proof.
  induction devices as [|device devices IH]; intros index h Hi.
  { apply quiet_ret. split; [unfold size; cbn; lia|]. split; [done|]. intros k device Hk. done. }
  eapply quiet_bind; [by apply (quiet_get (fun h' => h' = h))|]. intros h' h1 -> S1.
  eapply quiet_bind with (Q := fun a => actuator device = Some a).
  { apply quiet_lift. intros a. by destruct (actuator device) as [b|]; [intros [= ->]|]. }
  intros a h2 Ha S2. pose proof (transitivity S1 S2) as S.
  destruct (v ← member output _; target device v) as [d|] eqn:Ev; [|apply quiet_refuse].
  apply bind_Some in Ev as (v & Hv & Hd).
  destruct (Z.leb_spec maximum index); [by apply quiet_lift|].
  eapply quiet_bind; [apply IH; lia|]. intros commands h3 (Hm & Hl & Hc) _. apply quiet_ret.
  rewrite (kp_profile _ _ (sd_kept _ _ S)) in Hc.
  split; [unfold size in *; cbn; lia|]. split; [cbn; lia|].
  intros [|k] device' Hk; [injection Hk as <-; exists a, v, d; done|]. by apply Hc.
Qed.

(** The commands of a publication of the host. *)
Record batch (h : Host) (output : Entries) (axes : list AxisCommand) (servos : list St3215ServoCommand)
    (sequence timestamp_ns : Z) : Prop := {
  ba_sequence : sequence = u64 (rh_command_sequence h + 1);
  ba_later : rh_last_command_timestamp_ns h < timestamp_ns;
  ba_axes : targets_taken (pp_outputs (rh_profile h)) output fst (fun p v => action_target v (ax_mode p.2))
    (axis_command sequence timestamp_ns) (named_axes h) axes;
  ba_servos : targets_taken (pp_outputs (rh_profile h)) output (fun s => Some (pf_actuator_name s))
    (fun _ => servo_target) (servo_command sequence timestamp_ns) (rp_st3215_servos (rh_robot h)) servos }.

(** The calls that publish for an action: none, up to a failure, or all of them. *)
Definition motor_event (h : Host) (output : Entries) (sequence timestamp_ns : Z) (r : Outcome (Result unit)) : event :=
  ev_publish_motors (map fst (motor_commands h output)) (map snd (motor_commands h output)) sequence timestamp_ns r.

Inductive publication (h : Host) (output : Entries) : list event -> option (Z * Z) -> Prop :=
  | pub_nothing : publication h output [] None
  | pub_first axes servos sequence timestamp_ns r :
      batch h output axes servos sequence timestamp_ns ->
      publication h output [ev_publish axes servos sequence timestamp_ns r] None
  | pub_second axes servos sequence timestamp_ns r :
      batch h output axes servos sequence timestamp_ns -> r <> returned (success tt) ->
      publication h output [ev_publish axes servos sequence timestamp_ns (returned (success tt));
        motor_event h output sequence timestamp_ns r] None
  | pub_complete axes servos sequence timestamp_ns :
      batch h output axes servos sequence timestamp_ns ->
      publication h output [ev_publish axes servos sequence timestamp_ns (returned (success tt));
        motor_event h output sequence timestamp_ns (returned (success tt))] (Some (sequence, timestamp_ns)).

Definition published (h0 : Host) (output : Entries) (h : Host) (events : list event) (s : Stage unit) : Prop :=
  kept h0 h /\ session_of request h = session_of request h0 /\
  exists reads pubs done, events = reads ++ pubs /\ Forall is_read reads /\ publication h0 output pubs done /\
    rh_command_sequence h = default (rh_command_sequence h0) (fst <$> done) /\
    rh_last_command_timestamp_ns h = default (rh_last_command_timestamp_ns h0) (snd <$> done) /\
    match s with
    | go _ => is_Some done \/ has_io h0 = false
    | stop answer => is_refusal answer /\ done = None
    | _ => done = None
    end.

Lemma quiet_published {A} (m : M A) (f : A -> M unit) (Q : A -> Prop) h h1 output :
  steady h h1 -> wp m (quiet h1 Q) h1 ->
  (forall a h2, Q a -> steady h h2 -> wp (f a) (fun h3 e3 s => published h output h3 e3 s) h2) ->
  wp (bind m f) (published h output) h1.
Proof.
  intros S Hm Hf. apply wp_bind. eapply wp_mono; [exact Hm|]. intros h2 e2 s2 (Hs & He & Hq).
  pose proof (transitivity S Hs) as S2. destruct s2 as [a|answer|what|].
  { eapply wp_mono; [by apply Hf|]. intros h3 e3 s3 (K & O & reads & pubs & done & -> & Hr & Hrest).
    split; [done|]. split; [done|]. exists (e2 ++ reads), pubs, done. rewrite app_assoc. split; [done|].
    split; [by apply Forall_app|done]. }
  all: split; [apply S2|]; split; [apply S2|]; exists e2, [], None; rewrite app_nil_r;
    destruct S2; split_and!; try done; constructor.
Qed.

(** The end of a publication: nothing was read. *)
Lemma published_end h output h' pubs s done :
  steady h h' -> publication h output pubs done ->
  match s with
  | go _ => is_Some done
  | stop answer => is_refusal answer /\ done = None
  | _ => done = None
  end ->
  published h output (match done with Some (q, n) => with_commands h' q n | None => h' end) pubs s.
Proof.
  intros [K Q T O] Hp Hs. split; [destruct done as [[q n]|], K; by split|].
  split; [by destruct done as [[q n]|]|]. exists [], pubs, done.
  split_and!; [done|constructor|done|by destruct done as [[q n]|]|by destruct done as [[q n]|]|].
  destruct s; auto.
Qed.

Lemma call_events {A} (f : R -> R * Outcome A) e Q h :
  (forall h' o, steady h h' -> Q h' [e o] (match o with returned a => go a | threw what => raise what | undefined => broken end)) ->
  Q h [] broken -> wp (call f e) Q h.
Proof.
  intros Hq Hb. unfold wp, call. destruct (rh_io h) as [r|] eqn:E; [|done].
  destruct (f r) as [r' o]. apply Hq. by eapply steady_io.
Qed.

Definition send_motors (output : Entries) (h : Host) (sequence timestamp_ns : Z) : M unit :=
  let motors := motor_commands h output in
  if kRobotIoMaximumServos <? size motors then lift undefined
  else
    bind (call (fun r => ri_publish_damiao_commands r (map fst motors) (map snd motors) sequence timestamp_ns)
            (ev_publish_motors (map fst motors) (map snd motors) sequence timestamp_ns))
      (fun published => bind (expect request t published id)
        (fun _ => modify (fun h => with_commands h sequence timestamp_ns))).

Lemma send_motors_published output h h1 axes servos sequence timestamp_ns :
  batch h output axes servos sequence timestamp_ns -> steady h h1 ->
  wp (send_motors output h sequence timestamp_ns)
    (fun h2 e s => published h output h2
       (ev_publish axes servos sequence timestamp_ns (returned (success tt)) :: e) s) h1.
Proof.
  intros Hb S. unfold send_motors. destruct (kRobotIoMaximumServos <? _).
  { by apply (published_end h output h1 _ broken None S (pub_first h output axes servos sequence timestamp_ns _ Hb)). }
  apply wp_bind, call_events.
  - intros h2 o S2. pose proof (transitivity S S2) as S'.
    assert (o <> returned (success tt) -> publication h output
      [ev_publish axes servos sequence timestamp_ns (returned (success tt)); motor_event h output sequence timestamp_ns o] None)
      as Hfail by (intros; by constructor).
    destruct o as [[[]|e]|what|].
    + apply (published_end h output h2 _ (go tt) (Some (sequence, timestamp_ns)) S'); [by constructor|by eexists].
    + apply (published_end h output h2 _ (stop _) None S'); [by apply Hfail|]. split; [by eexists|done].
    + apply (published_end h output h2 _ (raise what) None S'); [by apply Hfail|done].
    + apply (published_end h output h2 _ broken None S'); [by apply Hfail|done].
  - by apply (published_end h output h1 _ broken None S (pub_first h output axes servos sequence timestamp_ns _ Hb)).
Qed.

Lemma command_timestamp_later (h : Host) n : command_timestamp t h = returned n -> rh_last_command_timestamp_ns h < n.
Proof.
  unfold command_timestamp. destruct (Z.ltb_spec (rh_last_command_timestamp_ns h) (clamped (at_command t))).
  - by intros [= <-].
  - destruct (_ =? _); [done|]. intros [= <-]. lia.
Qed.

Lemma publish_published output h : wp (publish request t output) (published h output) h.
Proof.
  eapply quiet_published; [done|by apply (quiet_get (fun h' => h' = h))|]. intros h' h1 -> S1.
  destruct (has_io h) eqn:Eio.
  2: { destruct S1 as [K1 Q1 T1 O1]. split; [done|]. split; [done|]. exists [], [], None.
       split_and!; try done; [constructor|by right]. }
  cbv zeta. set (sequence := u64 _).
  eapply quiet_published; [done|by apply (quiet_lift _ (fun n => rh_last_command_timestamp_ns h < n)), command_timestamp_later|].
  intros timestamp_ns h2 Hn S2.
  eapply quiet_published; [done|by apply fill_commands_quiet|]. intros axes h3 [_ Ha] S3.
  eapply quiet_published; [done|by apply fill_commands_quiet|]. intros servos h4 [_ Hs] S4.
  rewrite (kp_profile _ _ (sd_kept _ _ S2)) in Ha. rewrite (kp_profile _ _ (sd_kept _ _ S3)) in Hs.
  assert (batch h output axes servos sequence timestamp_ns) as Hb by by split.
  pose proof (fun r => pub_first h output axes servos sequence timestamp_ns r Hb) as Hfirst.
  apply wp_bind, call_events.
  - intros h5 o S5. pose proof (transitivity S4 S5) as S'. destruct o as [[[]|e]|what|].
    + apply wp_bind. cbn [expect]. by apply (send_motors_published output h h5 axes servos).
    + apply (published_end h output h5 _ (stop _) None S'); [apply Hfirst|]. split; [by eexists|done].
    + by apply (published_end h output h5 _ (raise what) None S').
    + by apply (published_end h output h5 _ broken None S').
  - apply (published_end h output h4 [] broken None S4); [constructor|done].
Qed.

(** *** A whole request *)

Definition response (type : string) (payload : Entries) : MessageEnvelope :=
  mkEnvelope kSchemaVersion type (en_request_id request) (en_session_id request) (en_step_id request)
    (clamped (at_response t)) (object_of payload) None.

(** The request ends without a new batch of commands. *)
Definition idle (h h' : Host) (events : list event) : Prop :=
  steady h h' /\ exists reads pubs output,
    events = reads ++ pubs /\ Forall is_read reads /\ publication h output pubs None /\
    (pubs <> [] -> validate_action_payload (JObject output) = success tt).

(** The request is answered with an action; with a robot it has been published. *)
Definition acted (h h' : Host) (events : list event) (output : Entries) : Prop :=
  kept h h' /\
  session_of request h' = mkSession (ps_session_id (session_of request h))
    (u64 (ps_step_id (session_of request h) + 1)) (ps_metadata (session_of request h)) /\
  validate_action_payload (JObject output) = success tt /\
  exists reads pubs done, events = reads ++ pubs /\ Forall is_read reads /\ publication h output pubs done /\
    rh_command_sequence h' = default (rh_command_sequence h) (fst <$> done) /\
    rh_last_command_timestamp_ns h' = default (rh_last_command_timestamp_ns h) (snd <$> done) /\
    (is_Some done \/ has_io h = false).

Inductive served (h h' : Host) (events : list event) : Stage Empty_set -> Prop :=
  | sv_raise what : idle h h' events -> served h h' events (raise what)
  | sv_broken : idle h h' events -> served h h' events broken
  | sv_refused answer : is_refusal answer -> idle h h' events -> served h h' events (stop answer)
  | sv_action output : en_type request = "observation_request" -> acted h h' events output ->
      served h h' events (stop (response "action_response" [("ok", JBoolean true); ("action", JObject output)]))
  | sv_health : en_type request = "health_request" -> h' = h -> events = [] ->
      served h h' events
        (stop (response "health_response" [("ok", JBoolean true); ("policy_id", JString (pp_id (rh_profile h)))]))
  | sv_info : en_type request = "server_info_request" -> h' = h -> events = [] ->
      served h h' events
        (stop (response "server_info_response"
           [("server_name", JString "policy_embodied_runtime"); ("server_version", JString "0.1.0");
            ("supported_schema", JString kSchemaVersion); ("transports", JArray [JString "zmq+json"])]))
  | sv_reset hard : en_type request = "reset_request" -> events = [] ->
      h' = with_sessions h (<[en_session_id request := PolicySession_new (en_session_id request)]> (rh_sessions h)) ->
      served h h' events (stop (response "reset_response" [("ok", JBoolean true); ("hard", JBoolean hard)])).

Lemma idle_quiet h h' events : steady h h' -> Forall is_read events -> idle h h' events.
Proof. intros S E. split; [done|]. exists events, [], []. rewrite app_nil_r. split_and!; [done|done|constructor|done]. Qed.

Lemma served_quiet {A} (m : M A) (f : A -> M Empty_set) (Q : A -> Prop) h h1 e1 :
  steady h h1 -> Forall is_read e1 -> wp m (quiet h1 Q) h1 ->
  (forall a h2 e2, Q a -> steady h h2 -> Forall is_read e2 -> wp (f a) (fun h3 e3 s => served h h3 (e2 ++ e3) s) h2) ->
  wp (bind m f) (fun h3 e3 s => served h h3 (e1 ++ e3) s) h1.
Proof.
  intros S E Hm Hf. apply wp_bind. eapply wp_mono; [exact Hm|]. intros h2 e2 s2 (Hs & He & Hq).
  pose proof (transitivity S Hs) as S2. assert (Forall is_read (e1 ++ e2)) as E2 by by apply Forall_app.
  destruct s2 as [a|answer|what|].
  - eapply wp_mono; [by apply Hf|]. intros h3 e3 s3. by rewrite app_assoc.
  - by constructor; [|apply idle_quiet].
  - by constructor; apply idle_quiet.
  - by constructor; apply idle_quiet.
Qed.

Lemma step_session_own (h : Host) : session_of request (step_session request h) =
  mkSession (ps_session_id (session_of request h)) (u64 (ps_step_id (session_of request h) + 1))
    (ps_metadata (session_of request h)).
Proof. unfold session_of at 1, step_session. cbn. by rewrite lookup_insert_eq. Qed.

Lemma kept_step (h : Host) : kept h (step_session request h).
Proof. split; try done. intros k Hk. cbn. by rewrite lookup_insert_ne. Qed.

Lemma publication_steady h h1 output pubs done :
  steady h h1 -> publication h1 output pubs done -> publication h output pubs done.
Proof.
  intros [[Ep Er En _ _ _ _ _ _] Q T O].
  assert (forall axes servos q n, batch h1 output axes servos q n -> batch h output axes servos q n) as Hb.
  { intros axes servos q n [B1 B2 B3 B4]. unfold named_axes in *. rewrite Ep, ?Er, ?En in *. split; [congruence|lia|done|done]. }
  assert (forall q n r, motor_event h1 output q n r = motor_event h output q n r) as Hm
    by (intros; unfold motor_event, motor_commands; by rewrite Ep, Er).
  intros Hp. destruct Hp; rewrite ?Hm; constructor; auto.
Qed.

Lemma observation_request_served h :
  en_type request = "observation_request" -> wp (observation_request request t) (served h) h.
Proof.
  intros Ht. unfold observation_request. destruct (find_in _ _) as [[]|];
    try (apply sv_raise, idle_quiet; [done|constructor]).
  apply (served_quiet _ _ (complete_observation (rh_profile h)) h h []); [done|constructor|apply observe_quiet|].
  intros observation h1 e1 _ S1 E1.
  eapply served_quiet; [done|done|apply decide_action_quiet|]. intros output h2 e2 Hv S2 E2.
  apply wp_bind. eapply wp_mono; [apply publish_published|].
  intros h3 e3 s3 (K & O & reads & pubs & done & -> & Hr & Hp & Q & T & Hs).
  destruct S2 as [K2 Q2 T2 O2] eqn:ES. pose proof (publication_steady h h2 output pubs done S2 Hp) as Hp'.
  clear ES. rewrite app_assoc. rewrite Q2 in Q. rewrite T2 in T.
  assert (Forall is_read (e2 ++ reads)) as Hr' by by apply Forall_app.
  assert (done = None -> idle h h3 ((e2 ++ reads) ++ pubs)) as Hidle.
  { intros ->. split; [split; [by etrans|done|done|congruence]|]. exists (e2 ++ reads), pubs, output. done. }
  destruct s3 as [[]|answer|what|].
  - apply wp_bind. cbn. rewrite app_nil_r. constructor; [done|]. split; [by etrans; [|apply kept_step]; etrans|].
    split; [by rewrite step_session_own, O, O2|]. split; [done|].
    exists (e2 ++ reads), pubs, done. rewrite (kp_io _ _ K2) in Hs. split_and!; [by rewrite app_assoc|done..].
  - destruct Hs as [Hs ->]. constructor; auto.
  - subst done. constructor. auto.
  - subst done. constructor. auto.
Qed.

Lemma serve_served h : wp (serve request t) (served h) h.
Proof.
  assert (forall message, served h h [] (stop (error_envelope request "runtime_error" message (at_error t)))) as Hrefuse.
  { intros message. apply sv_refused; [by eexists|]. by apply idle_quiet. }
  unfold serve. cbv zeta. apply wp_bind.
  assert (forall (Q : Host -> list event -> Stage unit -> Prop), Q h [] (go tt) ->
    (forall message, Q h [] (stop (error_envelope request "runtime_error" message (at_error t)))) ->
    wp (if String.eqb (en_type request) "health_request" || String.eqb (en_type request) "reset_request" ||
           String.eqb (en_type request) "observation_request"
        then expect request t (validate_payload (en_type request) (en_payload request)) id else ret tt) Q h) as Hcheck.
  { intros Q Hgo Hstop. destruct (_ || _); [|done]. destruct (validate_payload _ _) as [[]|]; [done|apply Hstop]. }
  apply Hcheck; [|done]. clear Hcheck. apply wp_bind. cbn [app].
  destruct (String.eqb_spec (en_type request) "health_request"); [by apply sv_health|].
  destruct (String.eqb_spec (en_type request) "server_info_request"); [by apply sv_info|].
  destruct (String.eqb_spec (en_type request) "reset_request").
  - unfold reset_request. apply wp_bind. destruct (find_in _ "hard") as [[]|];
      try (apply sv_raise; by apply idle_quiet); by apply sv_reset.
  - destruct (String.eqb_spec (en_type request) "observation_request"); [|apply Hrefuse].
    by apply observation_request_served.
Qed.

Lemma handle_served h h' events r :
  handle request t h = (h', events, r) ->
  (rh_open h = false /\ h' = h /\ events = [] /\ r = Some (fail unavailable "runtime host is not open")) \/
  (rh_open h = true /\ exists s, served h h' events s /\
     r = match s with
         | go e => match e with end
         | stop answer => Some (success answer)
         | raise what => Some (success (error_envelope request "internal_error" what (at_error t)))
         | broken => None
         end).
Proof.
  unfold handle. destruct (rh_open h); cbn [negb]; [|by intros [= <- <- <-]; left].
  pose proof (serve_served h) as Hs. unfold wp in Hs. destruct (serve request t h) as [[h1 e1] s].
  intros [= <- <- <-]. right. split; [done|]. by exists s.
Qed.

(** What a request makes of the robot. *)
Record publications (h h' : Host) (events : list event) (r : option (Result MessageEnvelope)) (output : Entries)
    (done : option (Z * Z)) : Prop := {
  pb_kept : kept h h';
  pb_events : exists reads pubs, events = reads ++ pubs /\ Forall is_read reads /\
    publication h output pubs done /\ (pubs <> [] -> validate_action_payload (JObject output) = success tt);
  pb_sequence : rh_command_sequence h' = default (rh_command_sequence h) (fst <$> done);
  pb_timestamp : rh_last_command_timestamp_ns h' = default (rh_last_command_timestamp_ns h) (snd <$> done);
  pb_answer : is_Some done ->
    r = Some (success (response "action_response" [("ok", JBoolean true); ("action", JObject output)]));
  pb_done answer : r = Some (success answer) -> en_type request = "observation_request" ->
    en_error answer = None -> is_Some done \/ has_io h = false }.

Lemma publications_none h h' events r :
  idle h h' events ->
  (forall answer, r = Some (success answer) -> en_type request = "observation_request" -> en_error answer <> None) ->
  exists output done, publications h h' events r output done.
Proof.
  intros [[K Q T O] (reads & pubs & output & E & Hr & Hp & Hv)] Hn. exists output, None. split; try done.
  - by exists reads, pubs.
  - intros answer Ha Ht He. by destruct (Hn answer Ha Ht).
Qed.

Lemma steady_refl_idle (h : Host) : idle h h [].
Proof. by apply idle_quiet. Qed.

Lemma kept_reset (h : Host) sessions :
  (forall k, k <> en_session_id request -> sessions !! k = rh_sessions h !! k) -> kept h (with_sessions h sessions).
Proof. intros Hs. by split. Qed.

Lemma handle_publications h h' events r :
  handle request t h = (h', events, r) -> exists output done, publications h h' events r output done.
Proof.
  intros [(_ & -> & -> & ->)|(_ & s & Hs & ->)]%handle_served.
  { apply publications_none; [apply steady_refl_idle|done]. }
  destruct Hs as [what Hi|Hi|answer [message ->] Hi|output Ht Ha|Ht -> ->|Ht -> ->|hard Ht -> ->].
  - apply publications_none; [done|]. by intros a [= <-].
  - by apply publications_none.
  - apply publications_none; [done|]. by intros a [= <-].
  - destruct Ha as (K & S & Hv & reads & pubs & done & E & Hr & Hp & Q & T & Hd).
    exists output, done. split; try done. by exists reads, pubs.
  - apply publications_none; [apply steady_refl_idle|]. intros a _. by rewrite Ht.
  - apply publications_none; [apply steady_refl_idle|]. intros a _. by rewrite Ht.
  - exists [], None. split; try done.
    + apply kept_reset. intros k Hk. by rewrite lookup_insert_ne.
    + exists [], []. split_and!; try done. constructor.
    + intros a _. by rewrite Ht.
Qed.

End Facts.

(** *** Runs *)

(** Requests served one after another; a request that leaves the arrays of the program ends the run. *)
Fixpoint serve_all (h : Host) (requests : list (MessageEnvelope * Times)) : Host * list event :=
  match requests with
  | [] => (h, [])
  | (request, t) :: requests =>
      let '(h, events, r) := handle request t h in
      match r with
      | Some _ => let '(h, events') := serve_all h requests in (h, events ++ events')
      | None => (h, events)
      end
  end.

(** The batches that were published as a whole: their numbers and times. *)
Definition complete_batches (events : list event) : list (Z * Z) :=
  omap (fun e => match e with
    | ev_publish_motors _ _ sequence timestamp_ns (returned (success tt)) => Some (sequence, timestamp_ns)
    | _ => None
    end) events.

Lemma complete_batches_reads reads : Forall is_read reads -> complete_batches reads = [].
Proof. induction 1 as [|[] reads]; done. Qed.

Lemma complete_batches_publication h output pubs done :
  publication h output pubs done -> complete_batches pubs = match done with Some p => [p] | None => [] end.
Proof. intros []; try done. cbn. by destruct r as [[[]|]| |]. Qed.

Lemma publication_batch h output pubs q n :
  publication h output pubs (Some (q, n)) -> q = u64 (rh_command_sequence h + 1) /\ rh_last_command_timestamp_ns h < n.
Proof. intros Hp. inversion Hp; subst. match goal with Hb : batch _ _ _ _ _ _ |- _ => by destruct Hb end. Qed.

(** One request adds at most one batch, the next one. *)
Lemma handle_batches request t h h' events r :
  handle request t h = (h', events, r) ->
  complete_batches events = [] /\ rh_command_sequence h' = rh_command_sequence h /\
    rh_last_command_timestamp_ns h' = rh_last_command_timestamp_ns h \/
  exists n, complete_batches events = [(u64 (rh_command_sequence h + 1), n)] /\
    rh_last_command_timestamp_ns h < n /\
    rh_command_sequence h' = u64 (rh_command_sequence h + 1) /\ rh_last_command_timestamp_ns h' = n.
Proof.
  intros (output & done & [_ (reads & pubs & -> & Hr & Hp & _) Q T _ _])%handle_publications.
  assert (complete_batches (reads ++ pubs) = match done with Some p => [p] | None => [] end) as ->.
  { unfold complete_batches. rewrite omap_app. fold (complete_batches reads) (complete_batches pubs).
    by rewrite complete_batches_reads, (complete_batches_publication _ _ _ _ Hp). }
  destruct done as [[q n]|]; [right|by left].
  destruct (publication_batch _ _ _ _ _ Hp) as [-> Hn]. by exists n.
Qed.

(** C21. The batches of a run.  Over any run of requests, whatever the robot and the clock do, the
    batches that are published as a whole carry consecutive sequence numbers, from the host's next
    one, and strictly increasing times. *)
Theorem host_publications_ordered h requests h' events :
  serve_all h requests = (h', events) ->
  0 <= rh_command_sequence h -> rh_command_sequence h + size requests < 2 ^ 64 ->
  exists times,
    complete_batches events = imap (fun k n => (rh_command_sequence h + 1 + Z.of_nat k, n)) times /\
    StronglySorted Z.lt (rh_last_command_timestamp_ns h :: times) /\
    rh_command_sequence h' = rh_command_sequence h + size times.
Proof.
  revert h h' events. induction requests as [|[request t] requests IH]; intros h h' events Hr Hq0 Hb.
  { injection Hr as <- <-. exists []. unfold size. cbn. split_and!; [done|repeat constructor|lia]. }
  cbn in Hr. destruct (handle request t h) as [[h1 e1] r] eqn:Eh. unfold size in *. cbn [length] in Hb.
  apply handle_batches in Eh as [(E & Q & T)|(n & E & Hn & Q & T)].
  - destruct r as [r|].
    + destruct (serve_all h1 requests) as [h2 e2] eqn:E2. injection Hr as <- <-.
      destruct (IH _ _ _ E2) as (times & Ht & Hs & Hq); [lia..|]. exists times.
      unfold complete_batches in *. by rewrite omap_app, E, Ht, <- T, <- Q.
    + injection Hr as <- <-. exists []. cbn. split_and!; [done|repeat constructor|lia].
  - rewrite wrap_small in E, Q by (unfold is_word; lia). destruct r as [r|].
    + destruct (serve_all h1 requests) as [h2 e2] eqn:E2. injection Hr as <- <-.
      destruct (IH _ _ _ E2) as (times & Ht & Hs & Hq); [lia..|]. exists (n :: times).
      rewrite T in Hs. split_and!.
      * unfold complete_batches in *. rewrite omap_app, E, Ht, imap_cons. cbn. f_equal; [f_equal; lia|].
        apply imap_ext. intros; cbn; f_equal; lia.
      * constructor; [done|]. constructor; [done|]. apply StronglySorted_inv in Hs as [_ Hf].
        eapply Forall_impl; [exact Hf|]. intros; lia.
      * cbn [length]. lia.
    + injection Hr as <- <-. exists [n]. cbn. split_and!; [by rewrite E, Z.add_0_r|repeat constructor; lia|lia].
Qed.

(** C29. Sessions do not touch each other.  A request changes no session but its own: a hard or soft
    reset starts it over, an action moves it on by one step (modulo 2^64), and nothing else changes
    what the policy would be told about it. *)
Theorem host_sessions_isolated request t h h' events r :
  handle request t h = (h', events, Some r) ->
  (forall session, session <> en_session_id request -> rh_sessions h' !! session = rh_sessions h !! session) /\
  let s := session_of request h in
  match r with
  | success answer =>
      if bool_decide (en_error answer <> None) then session_of request h' = s
      else if String.eqb (en_type request) "observation_request" then
        session_of request h' = mkSession (ps_session_id s) (u64 (ps_step_id s + 1)) (ps_metadata s)
      else if String.eqb (en_type request) "reset_request" then
        session_of request h' = PolicySession_new (en_session_id request)
      else h' = h
  | failure _ => h' = h
  end.
Proof.
  intros Hh. split.
  { apply handle_publications in Hh as (? & ? & [K _ _ _ _ _]). apply (kp_others _ _ _ K). }
  apply handle_served in Hh as [(_ & -> & -> & [= ->])|(_ & s & Hs & E)]; [done|]. cbv zeta.
  destruct Hs as [what Hi|Hi|answer [message ->] Hi|output Ht Ha|Ht -> ->|Ht -> ->|hard Ht -> ->];
    try done; injection E as ->; try (apply (sd_own _ _ _ (proj1 Hi))); rewrite Ht; try done.
  - apply Ha.
  - unfold session_of. cbn. by rewrite lookup_insert_eq.
Qed.

(** *** The answers *)

Lemma is_blank_app a b : is_blank (a +:+ b) = is_blank a && is_blank b.
Proof.
  induction a as [|c a IH]; [done|]. change (is_blank (String c (a +:+ b)) = is_blank (String c a) && is_blank b).
  cbn [is_blank]. by rewrite IH, andb_assoc.
Qed.

Definition last_char (s : string) : option ascii := last (chars s).

Lemma last_char_app a b : last_char b <> None -> last_char (a +:+ b) = last_char b.
Proof.
  unfold last_char. intros Hb. rewrite list_ascii_app, last_app. by destruct (last (chars b)).
Qed.

(** The type of an error answer is no type whose payload is validated. *)
Lemma error_type_unvalidated type payload :
  is_object payload = true -> validate_payload_for_type (type +:+ "_error") payload = None.
Proof.
  destruct payload; try done. intros _. unfold validate_payload_for_type.
  assert (forall other, last_char other <> Some "r"%char -> String.eqb (type +:+ "_error") other = false) as Hne.
  { intros other Ho. apply String.eqb_neq. intros <-. apply Ho. by rewrite last_char_app. }
  by rewrite !Hne.
Qed.

(** An answer that the clients' decoder accepts. *)
Definition decodable (answer : MessageEnvelope) : Prop :=
  well_formed answer /\ validate_payload_for_type (en_type answer) (en_payload answer) = None.

(** The clocks give 64-bit numbers. *)
Definition clocks_fit (t : Times) : Prop :=
  is_int64 (at_response t) /\ is_int64 (at_error t) /\ is_int64 (at_text t).

Lemma clamped_fits value : is_int64 value -> 0 <= clamped value <= int64_maximum.
Proof. unfold clamped, is_int64, int64_min, int64_max, int64_maximum. destruct (Z.ltb_spec value 0); lia. Qed.

Lemma error_decodable request code message now_ns :
  well_formed request -> is_int64 now_ns -> decodable (error_envelope request code message now_ns).
Proof.
  intros [W1 W2 W3 W4 W5 W6 W7] Hn. split; [split; try done|by apply error_type_unvalidated].
  - change (is_blank (en_type request +:+ "_error") = false). rewrite is_blank_app. apply andb_false_r.
  - by apply clamped_fits.
Qed.

(** The type of the answer to a request that is served. *)
Definition answer_type (type : string) : string :=
  if String.eqb type "observation_request" then "action_response"
  else if String.eqb type "health_request" then "health_response"
  else if String.eqb type "server_info_request" then "server_info_response"
  else "reset_response".

Definition answers (request answer : MessageEnvelope) : Prop :=
  en_request_id answer = en_request_id request /\ en_session_id answer = en_session_id request /\
  en_step_id answer = en_step_id request /\
  match en_error answer with
  | Some _ => en_type answer = en_type request +:+ "_error"
  | None => en_type answer = answer_type (en_type request)
  end.

Lemma response_decodable request t type payload :
  well_formed request -> clocks_fit t -> is_blank type = false ->
  validate_payload_for_type type (object_of payload) = None -> decodable (response request t type payload).
Proof.
  intros [W1 W2 W3 W4 W5 W6 W7] (C1 & _ & _) Ht Hv. split; [|done]. split; try done. cbn. by apply clamped_fits.
Qed.

Lemma served_answer request t h h' events answer :
  well_formed request -> clocks_fit t -> served request t h h' events (stop answer) ->
  decodable answer /\ answers request answer.
Proof.
  intros W C Hs. pose proof C as (C1 & C2 & C3). inversion Hs as [| |? [m ->]|output Ht Ha|Ht|Ht|hard Ht]; subst.
  - split; [by apply error_decodable|by repeat split].
  - split; [|by repeat split; cbn; rewrite Ht]. apply response_decodable; try done.
    destruct Ha as (_ & _ & Hv & _). unfold validate_action_payload, check_result in Hv.
    destruct (validate_action (JObject output)) eqn:E; [done|]. exact E.
  - split; [|by repeat split; cbn; rewrite Ht]. by apply response_decodable.
  - split; [|by repeat split; cbn; rewrite Ht]. by apply response_decodable.
  - split; [|by repeat split; cbn; rewrite Ht]. by apply response_decodable.
Qed.

Lemma handle_answer request t h h' events r :
  well_formed request -> clocks_fit t -> handle request t h = (h', events, Some r) ->
  decodable (answer_of request t r) /\ answers request (answer_of request t r).
Proof.
  intros W C. pose proof C as (C1 & C2 & C3).
  intros [(_ & -> & -> & [= ->])|(_ & s & Hs & E)]%handle_served.
  { split; [by apply error_decodable|by repeat split]. }
  destruct s as [[]|answer|what|]; try done; injection E as ->.
  - by eapply served_answer.
  - split; [by apply error_decodable|by repeat split].
Qed.

Lemma protocol_well_formed : well_formed protocol_request.
Proof. by split. Qed.

(** C17. Every request is answered in the protocol.  Whatever text arrives, in whatever state of the
    host, and with clocks that give 64-bit numbers, the host makes one answer.  For a text that
    decodes it carries the request's identifiers and step, and is either an error whose type is the
    request's with ["_error"], or the answer that belongs to the request's type; a text that does not
    decode is answered as a protocol error, without a call or a change of the host.  When JSON can
    carry the answer ([printable]: UTF-8 strings, finite numbers in their widths, names in order),
    [handle_text] returns its text, and the protocol's decoder accepts that text and gives the answer
    back, its payload included.  Otherwise [handle_text] returns what the printer makes of it, or
    lets the printer's exception through.  (The host may also leave its arrays; C25 says when it does
    not.) *)
Theorem host_answers_in_protocol {Text} `{JsonTextLaws Text} h (text : Text) t h' events o :
  clocks_fit t -> handle_text h text t = (h', events, o) -> o <> undefined ->
  exists answer, o = written answer /\
    (printable (envelope_object answer) = true ->
     exists out, o = returned out /\ decode_envelope out = success (canonical_envelope answer)) /\
    match decode_envelope_for_dispatch text with
    | success request => answers request answer
    | failure e =>
        h' = h /\ events = [] /\
        answer = error_envelope protocol_request "protocol_error" (message e) (at_text t)
    end.
Proof.
  intros C. unfold handle_text. pose proof C as (_ & _ & C3).
  assert (forall answer, decodable answer -> printable (envelope_object answer) = true ->
    exists out : Text, written answer = returned out /\ decode_envelope out = success (canonical_envelope answer)) as Hdecode.
  { intros answer [Hw Hv] Hp. destruct (parse_dump _ Hp) as (out & Hd & Hout). exists out.
    unfold written, encode_envelope, decode_envelope, decode_envelope_impl.
    rewrite Hd, Hout, decode_canonical_object by done. by rewrite Hv. }
  destruct (decode_envelope_for_dispatch text) as [request|e] eqn:Ed.
  - destruct (handle request t h) as [[h1 e1] [r|]] eqn:Eh; [|by intros [= <- <- <-]]. intros [= <- <- <-] _.
    assert (well_formed request) as W.
    { unfold decode_envelope_for_dispatch, decode_envelope_impl in Ed.
      destruct (json_parse text) as [[| | | | | | |entries|]|] eqn:Ep; try done.
      by destruct (decode_message_sound _ _ _ (parse_ranged _ _ Ep) Ed). }
    destruct (handle_answer _ _ _ _ _ _ W C Eh) as [Hd Ha]. eexists. split; [done|]. split; [auto|done].
  - intros [= <- <- <-] _. eexists. split; [done|]. split; [|done].
    apply Hdecode, error_decodable; [apply protocol_well_formed|done].
Qed.

(** ** The calls are what happens to the robot I/O *)

Inductive performs : R -> list event -> R -> Prop :=
  | pf_done r : performs r [] r
  | pf_read_axes r events r' :
      performs (ri_read_feedback r).1 events r' -> performs r (ev_read_axes :: events) r'
  | pf_read_servos r events r' :
      performs (ri_read_servo_feedback r).1 events r' -> performs r (ev_read_servos :: events) r'
  | pf_read_motors r events r' :
      performs (ri_read_damiao_feedback r).1 events r' -> performs r (ev_read_motors :: events) r'
  | pf_publish r axes servos q n events r' :
      performs (ri_publish_commands r axes servos q n).1 events r' ->
      performs r (ev_publish axes servos q n (ri_publish_commands r axes servos q n).2 :: events) r'
  | pf_publish_motors r motors enabled q n events r' :
      performs (ri_publish_damiao_commands r motors enabled q n).1 events r' ->
      performs r (ev_publish_motors motors enabled q n (ri_publish_damiao_commands r motors enabled q n).2 :: events) r'.

Lemma performs_app r e1 r1 e2 r2 : performs r e1 r1 -> performs r1 e2 r2 -> performs r (e1 ++ e2) r2.
Proof. induction 1; intros H2; cbn; [done|constructor; auto..]. Qed.

(** From one host to another by these calls. *)
Definition by_calls (h h' : Host) (events : list event) : Prop :=
  match rh_io h, rh_io h' with
  | Some r, Some r' => performs r events r'
  | None, None => events = []
  | _, _ => False
  end.

Definition real {A} (m : M A) : Prop := forall h, wp m (fun h' events _ => by_calls h h' events) h.

Lemma by_calls_nil (h : Host) : by_calls h h [].
Proof. unfold by_calls. destruct (rh_io h); [constructor|done]. Qed.

Lemma real_bind {A B} (m : M A) (f : A -> M B) : real m -> (forall a, real (f a)) -> real (bind m f).
Proof.
  intros Hm Hf h. apply wp_bind. eapply wp_mono; [apply Hm|]. intros h1 e1 [a|answer|what|] H1; try done.
  eapply wp_mono; [apply Hf|]. intros h2 e2 s H2. unfold by_calls in *.
  destruct (rh_io h), (rh_io h1), (rh_io h2); try done; [by eapply performs_app|by subst].
Qed.

Lemma real_ret {A} (a : A) : real (ret a). Proof. intros h. apply by_calls_nil. Qed.
Lemma real_get : real get. Proof. intros h. apply by_calls_nil. Qed.
Lemma real_lift {A} (r : Outcome A) : real (lift r). Proof. intros h. apply by_calls_nil. Qed.
Lemma real_refuse {A} request t message : real (refuse (A := A) request t message).
Proof. intros h. apply by_calls_nil. Qed.
Lemma real_respond {A} request t type payload : real (respond (A := A) request t type payload).
Proof. intros h. apply by_calls_nil. Qed.

Lemma real_expect {A} request t (r : Result A) f : real (expect request t r f).
Proof. destruct r; [apply real_ret|apply real_refuse]. Qed.

Lemma real_modify f : (forall h, rh_io (f h) = rh_io h) -> real (modify f).
Proof. intros Hf h. unfold wp, modify, by_calls. rewrite Hf. destruct (rh_io h); [constructor|done]. Qed.

Lemma real_call {A} (f : R -> R * Outcome A) e :
  (forall r, performs r [e (f r).2] (f r).1) -> real (call f e).
Proof.
  intros Hp h. unfold wp, call, by_calls. destruct (rh_io h) as [r|] eqn:E; [|by rewrite E].
  specialize (Hp r). destruct (f r) as [r' o]. exact Hp.
Qed.

Lemma real_if {A} (b : bool) (m m' : M A) : real m -> real m' -> real (if b then m else m').
Proof. by destruct b. Qed.

Lemma real_fill {C A} request t maximum output actuator target (make : double -> A) (devices : list C) :
  forall index, real (fill_commands request t maximum output actuator target make index devices).
Proof.
  induction devices as [|device devices IH]; intros index; [apply real_ret|].
  apply real_bind; [apply real_get|]. intros h. apply real_bind; [apply real_lift|]. intros a.
  destruct (_ ≫= _); [|apply real_refuse]. apply real_if; [apply real_lift|].
  apply real_bind; [apply IH|]. intros; apply real_ret.
Qed.

Ltac real_step :=
  cbv zeta;
  first [ apply real_bind; [|intros] | apply real_ret | apply real_get | apply real_lift | apply real_refuse
        | apply real_respond | apply real_expect | apply real_fill | by apply real_modify
        | apply real_call; intros; repeat constructor | apply real_if ].

Lemma real_observe request t observation : real (observe request t observation).
Proof. unfold observe, read_axes, read_servos, read_motors. repeat real_step. Qed.

Lemma real_decide request t observation : real (decide_action request t observation).
Proof. unfold decide_action. repeat real_step. Qed.

Lemma real_publish request t output : real (publish request t output).
Proof. unfold publish. repeat real_step. Qed.

Lemma real_serve request t : real (serve (A := Empty_set) request t).
Proof.
  unfold serve, reset_request, observation_request. repeat real_step.
  - destruct (find_in _ "hard") as [[]|]; repeat real_step.
  - destruct (find_in _ "observation") as [[]|]; repeat real_step;
      first [apply real_observe|apply real_decide|apply real_publish].
Qed.

Lemma handle_real request t h h' events r :
  handle request t h = (h', events, r) -> by_calls h h' events.
Proof.
  unfold handle. destruct (negb (rh_open h)); [intros [= <- <- _]; apply by_calls_nil|].
  pose proof (real_serve request t h) as Hr. unfold wp in Hr.
  destruct (serve request t h) as [[h1 e1] s]. by intros [= <- <- _].
Qed.

(** C10. What is published for a request.  The calls that take the robot I/O from its state before a
    request to its state after it are reads, then at most one
    publication: the commands of the axes and servos, then those of the motors, all with the next
    sequence number and a time after the last ones, every target being the number that an action
    the protocol accepts has for the actuator.  When both calls succeed the numbers are kept and
    the request is answered with that action; when one fails the host's numbers are as before; and
    an observation request is answered without an error only after a whole publication, unless
    there is no robot. *)
Theorem host_publication_sound request t h h' events r :
  handle request t h = (h', events, Some r) ->
  by_calls h h' events /\
  exists reads pubs output done,
    events = reads ++ pubs /\ Forall is_read reads /\ publication h output pubs done /\
    (pubs <> [] -> validate_action_payload (JObject output) = success tt) /\
    rh_command_sequence h' = default (rh_command_sequence h) (fst <$> done) /\
    rh_last_command_timestamp_ns h' = default (rh_last_command_timestamp_ns h) (snd <$> done) /\
    (is_Some done ->
       r = success (response request t "action_response" [("ok", JBoolean true); ("action", JObject output)])) /\
    (forall answer, r = success answer -> en_type request = "observation_request" -> en_error answer = None ->
       is_Some done \/ rh_io h = None).
Proof.
  intros Hh. split; [by eapply handle_real|]. revert Hh.
  intros (output & done & [_ (reads & pubs & E & Hr & Hp & Hv) Q T Ha Hd])%handle_publications.
  exists reads, pubs, output, done. split_and!; try done.
  - intros Hs. by injection (Ha Hs).
  - intros answer -> Ht He. destruct (Hd answer eq_refl Ht He) as [|Hio]; [by left|right].
    unfold has_io in Hio. by destruct (rh_io h).
Qed.

(** ** Inside the arrays

    What is asked of a robot I/O: its snapshots are whole arrays. *)
Definition answered {A} (P : A -> Prop) (o : Outcome (Result A)) : Prop :=
  match o with returned (success a) => P a | undefined => False | _ => True end.

Class RuntimeRobotIoLaws := {
  ri_sound : R -> Prop;
  ri_read_axes_sound r : ri_sound r -> ri_sound (ri_read_feedback r).1 /\
    answered (fun sn => size (sn_axes sn) = kRobotIoMaximumAxes) (ri_read_feedback r).2;
  ri_read_servos_sound r : ri_sound r -> ri_sound (ri_read_servo_feedback r).1 /\
    answered (fun sn => size (sn_axes sn) = kRobotIoMaximumServos) (ri_read_servo_feedback r).2;
  ri_read_motors_sound r : ri_sound r -> ri_sound (ri_read_damiao_feedback r).1 /\
    answered (fun sn => size (sn_axes sn) = kRobotIoMaximumServos) (ri_read_damiao_feedback r).2;
  ri_publish_sound r axes servos q n : ri_sound r -> ri_sound (ri_publish_commands r axes servos q n).1 /\
    answered (fun _ => True) (ri_publish_commands r axes servos q n).2;
  ri_publish_motors_sound r motors enabled q n : ri_sound r ->
    ri_sound (ri_publish_damiao_commands r motors enabled q n).1 /\
    answered (fun _ => True) (ri_publish_damiao_commands r motors enabled q n).2 }.

Section Arrays.
Context `{RuntimeRobotIoLaws}.

(** The host's lists fit the arrays they are copied to. *)
Record in_shape (h : Host) : Prop := {
  is_names : length (rh_names h) = length (rp_axes (rh_robot h));
  is_axes : size (rp_axes (rh_robot h)) <= kRobotIoMaximumAxes;
  is_servos : size (rp_st3215_servos (rh_robot h)) <= kRobotIoMaximumServos;
  is_motors : size (rp_damiao_motors (rh_robot h)) <= kRobotIoMaximumServos;
  is_policy : match rh_policy h with
              | DummyPolicy p => (length (pp_inputs p) <= length (pp_outputs p))%nat
              | _ => True
              end;
  is_io r : rh_io h = Some r -> ri_sound r }.

(** Also, another command can have a later time. *)
Definition fits (h : Host) : Prop := in_shape h /\ rh_last_command_timestamp_ns h < int64_max.

Definition connected (h : Host) : Prop := fits h /\ has_io h = true.

(** A part that keeps [I] and does not leave the arrays. *)
Definition safe {A} (I : Host -> Prop) (Q : A -> Prop) (h : Host) (e : list event) (s : Stage A) : Prop :=
  I h /\ match s with broken => False | go a => Q a | _ => True end.

Lemma safe_bind {A B} (m : M A) (f : A -> M B) I J Q Q' h :
  (forall h, I h -> J h) ->
  wp m (safe I Q) h -> (forall a h1, Q a -> I h1 -> wp (f a) (safe J Q') h1) -> wp (bind m f) (safe J Q') h.
Proof.
  intros HIJ Hm Hf. apply wp_bind. eapply wp_mono; [exact Hm|].
  intros h1 e1 [a|answer|what|] [Hi Hq]; try (by split; [apply HIJ|]).
  eapply wp_mono; [by apply Hf|]. done.
Qed.

Lemma safe_get (I Q : Host -> Prop) h : I h -> Q h -> wp get (safe I Q) h.
Proof. done. Qed.

Lemma safe_lift {A} I (r : Outcome A) (Q : A -> Prop) h :
  I h -> match r with undefined => False | returned a => Q a | _ => True end -> wp (lift r) (safe I Q) h.
Proof. intros Hi. by destruct r. Qed.

Lemma safe_expect {A} request t I (r : Result A) f (Q : A -> Prop) h :
  I h -> (forall a, r = success a -> Q a) -> wp (expect request t r f) (safe I Q) h.
Proof. intros Hi HQ. by destruct r; (split; [|auto]). Qed.

Lemma fits_io h r r' : fits h -> rh_io h = Some r -> ri_sound r' -> fits (with_io h r').
Proof. intros [[] Hl] Hr Hs. split; [|done]. split; try done. by intros ? [= <-]. Qed.

Lemma safe_call {A} (f : R -> R * Outcome (Result A)) e (P : A -> Prop) h :
  connected h ->
  (forall r, ri_sound r -> ri_sound (f r).1 /\ answered P (f r).2) ->
  wp (call f e) (safe connected (fun r => forall a, r = success a -> P a)) h.
Proof.
  intros [Hf Hio] Hs. unfold wp, call. unfold has_io in Hio. destruct (rh_io h) as [r|] eqn:E; [|done].
  destruct (Hs r) as [Hr Ha]; [by apply (is_io _ (proj1 Hf))|]. destruct (f r) as [r' o]. cbn in Hr, Ha.
  split; [split; [by eapply fits_io|done]|]. destruct o as [[a|err]| |]; try done. by intros ? [= <-].
Qed.

Lemma add_fields_defined {C V} (name : C -> string) (make : C -> V -> Json) devices values :
  (length devices <= length values)%nat ->
  forall fields, match add_fields name make devices values fields with undefined => False | _ => True end.
Proof.
  revert values. induction devices as [|d devices IH]; intros [|v values] Hl fields; cbn in *; try done; try lia.
  apply IH. lia.
Qed.

(** The reads of the three kinds of devices. *)
Lemma safe_read {C V} request t (read : R -> R * Outcome (Result (Snapshot V))) e maximum f
    (name : C -> string) (make : C -> V -> Json) (devices : list C) (check : Snapshot V -> bool) message fields h :
  fits h -> has_io h = true ->
  (forall r, ri_sound r -> ri_sound (read r).1 /\ answered (fun sn => size (sn_axes sn) = maximum) (read r).2) ->
  size devices <= maximum ->
  wp (bind (call read e) (fun feedback => bind (expect request t feedback f) (fun sn =>
        if check sn then refuse request t message else lift (add_fields name make devices (sn_axes sn) fields))))
    (safe fits (fun _ => True)) h.
Proof.
  intros Hf Hio Hr Hd. eapply (safe_bind _ _ connected); [by intros ? []|by apply (safe_call _ _ _ _ (conj Hf Hio) Hr)|].
  intros o h1 Ho [F1 _].
  eapply safe_bind; [done|by apply (safe_expect _ _ _ _ _ _ _ F1 Ho)|]. intros sn h2 Hs F2.
  destruct (check sn); [done|]. apply safe_lift; [done|].
  pose proof (add_fields_defined name make devices (sn_axes sn)) as Ha. unfold size in *.
  specialize (Ha ltac:(lia) fields). by destruct (add_fields _ _ _ _ _).
Qed.

Lemma read_axes_safe request t fields h : fits h -> wp (read_axes request t fields) (safe fits (fun _ => True)) h.
Proof.
  intros Hf. apply wp_bind. cbn [wp get]. destruct (has_io h && _) eqn:E; [|done].
  apply andb_true_iff in E as [Hio _]. eapply wp_mono.
  - apply (safe_read request t _ _ kRobotIoMaximumAxes _ ax_name axis_field); [done|done|apply ri_read_axes_sound|].
    apply (is_axes _ (proj1 Hf)).
  - done.
Qed.

Lemma read_servos_safe request t fields h : fits h -> wp (read_servos request t fields) (safe fits (fun _ => True)) h.
Proof.
  intros Hf. apply wp_bind. cbn [wp get]. destruct (has_io h && _) eqn:E; [|done].
  apply andb_true_iff in E as [Hio _]. eapply wp_mono.
  - apply (safe_read request t _ _ kRobotIoMaximumServos _ pf_sensor_name servo_field); [done|done|apply ri_read_servos_sound|].
    apply (is_servos _ (proj1 Hf)).
  - done.
Qed.

Lemma read_motors_safe request t fields h : fits h -> wp (read_motors request t fields) (safe fits (fun _ => True)) h.
Proof.
  intros Hf. apply wp_bind. cbn [wp get]. destruct (has_io h && _) eqn:E; [|done].
  apply andb_true_iff in E as [Hio _]. eapply wp_mono.
  - apply (safe_read request t _ _ kRobotIoMaximumServos _ mp_sensor_name motor_field _ (fun _ => false) "");
      [done|done|apply ri_read_motors_sound|]. apply (is_motors _ (proj1 Hf)).
  - done.
Qed.

Lemma observe_safe request t observation h : fits h -> wp (observe request t observation) (safe fits (fun _ => True)) h.
Proof.
  intros Hf. eapply safe_bind; [done|by apply read_axes_safe|]. intros f1 h1 _ F1.
  eapply safe_bind; [done|by apply read_servos_safe|]. intros f2 h2 _ F2.
  eapply safe_bind; [done|by apply read_motors_safe|]. intros f3 h3 _ F3.
  eapply safe_bind; [done|by apply (safe_get fits (fun _ => True))|]. intros h' h4 _ F4. cbv zeta.
  destruct (negb _); [done|]. by apply safe_expect.
Qed.

Lemma infer_defined p observation session :
  match p with DummyPolicy p => (length (pp_inputs p) <= length (pp_outputs p))%nat | _ => True end ->
  infer json_error p observation session <> undefined.
Proof.
  destruct p as [p|c d q]; cbn [infer].
  - intros Hl. unfold dummy_infer. destruct (pp_inputs p) as [|i inputs]; [done|].
    by destruct (echo_bindings_defined _ _ observation [] Hl) as [action ->].
  - intros _. unfold pi0_infer. destruct (text_value _ _ _ _) eqn:E1; try done; cbn.
    + destruct (gripper_value_of _ _) eqn:E2; try done. unfold gripper_value_of, number_value in E2.
      by repeat case_match.
    + unfold text_value in E1. by repeat case_match.
Qed.

Lemma decide_action_safe request t observation h :
  fits h -> wp (decide_action request t observation) (safe fits (fun _ => True)) h.
Proof.
  intros Hf. eapply (safe_bind _ _ fits fits (fun _ => True)); [done| |].
  { destruct Hf as [[] Hl]. by repeat split. }
  intros _ h1 _ F1. eapply (safe_bind _ _ fits fits fits); [done|by apply safe_get|]. intros h' h2 F' F2.
  eapply (safe_bind _ _ fits fits (fun _ => True)); [done| |].
  { apply safe_lift; [done|]. pose proof (infer_defined (rh_policy h') observation (session_of request h') (is_policy _ (proj1 F'))).
    by destruct (infer _ _ _ _). }
  intros a h3 _ F3. eapply (safe_bind _ _ fits fits (fun _ => True)); [done|by apply safe_expect|].
  intros a' h4 _ F4. eapply (safe_bind _ _ fits fits (fun _ => True)); [done|by apply safe_expect|].
  intros a'' h5 _ F5. eapply (safe_bind _ _ fits fits (fun _ => True)); [done| |].
  { apply safe_lift; [done|]. by destruct a'' as [| | | | | |[]| |]. }
  intros output h6 _ F6. eapply (safe_bind _ _ fits fits (fun _ => True)); [done|by apply safe_expect|]. done.
Qed.

Lemma fill_commands_safe {C A} request t maximum output actuator target (make : double -> A) (devices : list C) h :
  (forall k d, devices !! k = Some d -> is_Some (actuator d)) ->
  forall index, index + size devices <= maximum ->
  wp (fill_commands request t maximum output actuator target make index devices) (safe (eq h) (fun _ => True)) h.
Proof.
  induction devices as [|device devices IH]; intros Hact index Hi; [done|].
  apply wp_bind. cbn [wp get]. destruct (Hact 0%nat device eq_refl) as [a ->].
  apply wp_bind. cbn [wp lift]. destruct (_ ≫= _) as [d|]; [|done].
  unfold size in *. cbn [length] in Hi. destruct (Z.leb_spec maximum index); [lia|].
  eapply (safe_bind _ _ (eq h)); [done| |by intros c h1 _ <-].
  apply IH; [|lia]. intros k d' Hk. by apply (Hact (S k) d').
Qed.

Lemma send_motors_safe request t output h0 h q n :
  connected h -> size (rp_damiao_motors (rh_robot h0)) <= kRobotIoMaximumServos ->
  wp (send_motors request t output h0 q n) (safe in_shape (fun _ => True)) h.
Proof.
  intros Hc Hm. unfold send_motors. cbv zeta.
  assert ((kRobotIoMaximumServos <? size (motor_commands h0 output)) = false) as ->
    by (apply Z.ltb_ge; unfold size, motor_commands in *; by rewrite length_map).
  eapply (safe_bind _ _ connected); [by intros ? [[]]|eapply (safe_call _ _ (fun _ => True)); [done|]|].
  { intros r. apply ri_publish_motors_sound. }
  intros o h1 _ [[F1 _] _]. eapply (safe_bind _ _ in_shape); [done|by apply (safe_expect _ _ _ _ _ (fun _ => True))|].
  intros _ h2 _ []. by repeat split.
Qed.

Lemma publish_safe request t output h : fits h -> wp (publish request t output) (safe in_shape (fun _ => True)) h.
Proof.
  intros Hf. pose proof Hf as [Hs Hl].
  apply wp_bind. cbn [wp get]. destruct (has_io h) eqn:Hio; [|done]. cbv zeta.
  eapply (safe_bind _ _ (eq h) in_shape (fun _ => True)); [by intros ? <-| |].
  { apply safe_lift; [done|]. unfold command_timestamp. destruct (_ <? _); [done|].
    by rewrite (proj2 (Z.eqb_neq _ _)) by lia. }
  intros n h1 _ <-. eapply (safe_bind _ _ (eq h)); [by intros ? <-|apply fill_commands_safe|].
  { unfold named_axes. intros k [a axis] Hk. apply list_lookup_imap_Some in Hk as (axis' & Hk & [= -> ->]).
    apply lookup_lt_is_Some_2. rewrite (is_names _ Hs). by eapply lookup_lt_Some. }
  { unfold size, named_axes. rewrite length_imap. apply (is_axes _ Hs). }
  intros axes h2 _ <-. eapply (safe_bind _ _ (eq h)); [by intros ? <-|apply fill_commands_safe|].
  { intros k d _. by eexists. }
  { apply (is_servos _ Hs). }
  intros servos h3 _ <-.
  eapply (safe_bind _ _ connected); [by intros ? [[]]|eapply (safe_call _ _ (fun _ => True)); [done|]|].
  { intros r. apply ri_publish_sound. }
  intros o h4 _ C4. eapply (safe_bind _ _ connected); [by intros ? [[]]|by apply (safe_expect _ _ _ _ _ (fun _ => True))|].
  intros _ h5 _ C5. apply (send_motors_safe request t output h h5); [done|apply (is_motors _ Hs)].
Qed.

Lemma serve_safe request t h : fits h -> wp (serve (A := Empty_set) request t) (safe in_shape (fun _ => True)) h.
Proof.
  intros Hf. assert (forall h, fits h -> in_shape h) as Hw by by intros ? [].
  unfold serve. cbv zeta. eapply (safe_bind _ _ fits in_shape (fun _ => True)); [done| |].
  { destruct (_ || _); [by apply safe_expect|done]. }
  intros _ h1 _ F1. pose proof F1 as [[] _]. apply wp_bind. cbn [wp get].
  destruct (String.eqb _ "health_request"); [by split; [apply Hw|]|].
  destruct (String.eqb _ "server_info_request"); [by split; [apply Hw|]|].
  destruct (String.eqb _ "reset_request").
  - apply wp_bind. destruct (find_in _ "hard") as [[]|]; try (by split; [apply Hw|]); by repeat split.
  - destruct (negb _); [by split; [apply Hw|]|]. unfold observation_request.
    destruct (find_in _ _) as [[]|]; try by split; [apply Hw|].
    eapply (safe_bind _ _ fits); [done|by apply observe_safe|]. intros observation h2 _ F2.
    eapply (safe_bind _ _ fits); [done|by apply decide_action_safe|]. intros output h3 _ F3.
    eapply (safe_bind _ _ in_shape); [done|by apply publish_safe|]. intros _ h4 _ [].
    apply wp_bind. by repeat split.
Qed.

(** C25. The host stays inside its arrays.  While the lists of the robot profile fit the fixed arrays
    of the snapshots and commands (12 axes, 32 servos, 32 motors), the robot I/O returns whole
    snapshots and the time of the last command is not the last one there is, no request, whatever
    it holds, makes the host read or write outside an array; and the host stays as it was in this
    respect. *)
Theorem host_stays_in_arrays request t h h' events r :
  in_shape h -> rh_last_command_timestamp_ns h < int64_max ->
  handle request t h = (h', events, r) -> r <> None /\ in_shape h'.
Proof.
  intros Hs Hl. unfold handle. destruct (negb (rh_open h)); [by intros [= <- <- <-]|].
  pose proof (serve_safe request t h (conj Hs Hl)) as Hserve. unfold wp in Hserve.
  destruct (serve request t h) as [[h1 e1] s]. destruct Hserve as [Hi Hb]. intros [= <- <- <-].
  by destruct s as [[]|answer|what|].
Qed.

Lemma names_of_axes_length profile axes names :
  names_of_axes profile axes = success names -> length names = length axes.
Proof.
  revert names. induction axes as [|axis axes IH]; intros names H2; cbn in H2; [by injection H2 as <-|].
  destruct (List.find _ _); [|done]. destruct (List.find _ _); [|done].
  apply result_bind_success in H2 as (names' & Hn & [= <-]). cbn. by rewrite (IH _ Hn).
Qed.

(** A host from profiles has this shape, when the devices of the robot fit. *)
Lemma from_profiles_in_shape dump policy_profile robot_profile robot_io h :
  from_profiles dump policy_profile robot_profile robot_io = success h ->
  (forall r, robot_io = Some r -> ri_sound r) ->
  size (rp_axes (rh_robot h)) <= kRobotIoMaximumAxes ->
  size (rp_st3215_servos (rh_robot h)) <= kRobotIoMaximumServos ->
  size (rp_damiao_motors (rh_robot h)) <= kRobotIoMaximumServos ->
  in_shape h /\ rh_last_command_timestamp_ns h = 0 /\ rh_command_sequence h = 0.
Proof.
  unfold from_profiles. intros (p & Hp & Hf)%result_bind_success Hio.
  apply result_bind_success in Hf as (policy & Hpolicy & Hf).
  apply result_bind_success in Hf as (pre & _ & Hf). apply result_bind_success in Hf as (post & _ & Hf).
  apply result_bind_success in Hf as (robot & _ & Hf). apply result_bind_success in Hf as (names & Hn & [= <-]).
  cbn. intros Ha Hv Hm. split; [|done]. split; cbn; try done.
  - by apply names_of_axes_length in Hn.
  - unfold make_policy in Hpolicy. destruct (String.eqb _ "dummy"); [injection Hpolicy as <-|].
    + by rewrite (vo_pairs _ (load_policy_valid _ _ _ Hp)).
    + destruct (String.eqb _ "pi0_like"); [by injection Hpolicy as <-|done].
Qed.

End Arrays.
End Host.
End HostFacts.
