(* ===== verification/RuntimeDds.v ===== *)
(** * The runtime host over DDS

    The DDS endpoint of the host (DdsRobotIo.v) is a robot I/O of the runtime host
    (RuntimeHost.v), and what a request of a client makes the host publish reaches the callbacks
    of the daemon (DdsEndpoint.v) whole, when DDS delivers it (DdsDelivery.v). *)
From S2P Require Export HostFacts DdsDelivery.

Module RuntimeDds.
Import DdsTypes Topics Policy Rpc RuntimeHost HostFacts.
Open Scope string_scope.
Open Scope list_scope.
Open Scope Z_scope.

(** ** The endpoint as a robot I/O

    What the DDS library does at each call: the samples a reader returns, the reader at which
    [take] throws, the write that throws. *)
Record Feed (S : Type) := mkFeed {
  fe_take : nat -> list (sample S);
  fe_throws : option (nat * string) }.
Arguments mkFeed {S}.
Arguments fe_take {S}.
Arguments fe_throws {S}.

Record DdsWorld := mkWorld {
  dw_axes : nat -> Feed (Published Cia402SensorEvent);
  dw_servos : nat -> Feed (Published St3215SensorEvent);
  dw_motors : nat -> Feed (Published DamiaoSensorEvent);
  dw_write_throws : nat -> option nat;
  dw_what : string }.

(** The endpoint, the library, the calls made so far and what has been written. *)
Record Link := mkDdsLink {
  lk_io : DdsRobotIo.DdsRuntimeRobotIo;
  lk_world : DdsWorld;
  lk_calls : nat;
  lk_written : list DdsRobotIo.written }.

Definition with_endpoint (l : Link) (o : DdsRobotIo.DdsRuntimeRobotIo) : Link :=
  mkDdsLink o (lk_world l) (S (lk_calls l)) (lk_written l).

(** A read: an exception of reader [k] comes after the readers before it have been served. *)
Definition link_read {S F} (header : S -> MessageHeader) (update : S -> F -> F) (feed : Feed S)
    (devices : list string) (snapshot : Snapshot F) (put : Snapshot F -> DdsRobotIo.DdsRuntimeRobotIo) (l : Link)
    : Link * Outcome (Result (Snapshot F)) :=
  let read devices := DdsRobotIo.read_all header update (DdsRobotIo.io_robot_id (lk_io l)) (fe_take feed) 0
                        devices snapshot in
  match fe_throws feed with
  | Some (k, what) =>
      if (k <? length devices)%nat then
        match read (take k devices) with
        | Some sn => (with_endpoint l (put sn), threw what)
        | None => (l, undefined)
        end
      else match read devices with
           | Some sn => (with_endpoint l (put sn), returned (success sn))
           | None => (l, undefined)
           end
  | None => match read devices with
            | Some sn => (with_endpoint l (put sn), returned (success sn))
            | None => (l, undefined)
            end
  end.

Definition put_axes (o : DdsRobotIo.DdsRuntimeRobotIo) a :=
  DdsRobotIo.with_feedback o a (DdsRobotIo.io_servo_feedback o) (DdsRobotIo.io_damiao_feedback o).
Definition put_servos (o : DdsRobotIo.DdsRuntimeRobotIo) s :=
  DdsRobotIo.with_feedback o (DdsRobotIo.io_axis_feedback o) s (DdsRobotIo.io_damiao_feedback o).
Definition put_motors (o : DdsRobotIo.DdsRuntimeRobotIo) d :=
  DdsRobotIo.with_feedback o (DdsRobotIo.io_axis_feedback o) (DdsRobotIo.io_servo_feedback o) d.

Definition link_write (l : Link) (r : list DdsRobotIo.written * Result unit) : Link * Outcome (Result unit) :=
  (mkDdsLink (lk_io l) (lk_world l) (S (lk_calls l)) (lk_written l ++ r.1), returned r.2).

#[export] Instance DdsLink : RuntimeRobotIo Link := {|
  ri_axis_count l := DdsRobotIo.io_axis_count (lk_io l);
  ri_servo_count l := DdsRobotIo.io_servo_count (lk_io l);
  ri_damiao_count l := DdsRobotIo.io_damiao_count (lk_io l);
  ri_read_feedback l :=
    link_read pb_header DdsRobotIo.update_axis (dw_axes (lk_world l) (lk_calls l))
      (DdsRobotIo.io_cia402_readers (lk_io l)) (DdsRobotIo.io_axis_feedback (lk_io l)) (put_axes (lk_io l)) l;
  ri_read_servo_feedback l :=
    link_read pb_header DdsRobotIo.update_servo (dw_servos (lk_world l) (lk_calls l))
      (DdsRobotIo.io_st3215_readers (lk_io l)) (DdsRobotIo.io_servo_feedback (lk_io l)) (put_servos (lk_io l)) l;
  ri_read_damiao_feedback l :=
    link_read pb_header DdsRobotIo.update_motor (dw_motors (lk_world l) (lk_calls l))
      (DdsRobotIo.io_damiao_readers (lk_io l)) (DdsRobotIo.io_damiao_feedback (lk_io l)) (put_motors (lk_io l)) l;
  ri_publish_commands l axes servos sequence timestamp_ns :=
    link_write l (DdsRobotIo.publish_commands (lk_io l) axes servos sequence timestamp_ns
      (dw_write_throws (lk_world l) (lk_calls l)) (dw_what (lk_world l)));
  ri_publish_damiao_commands l motors enabled sequence timestamp_ns :=
    link_write l (DdsRobotIo.publish_damiao_commands (lk_io l) motors enabled sequence timestamp_ns
      (dw_write_throws (lk_world l) (lk_calls l)) (dw_what (lk_world l)));
  ri_close l := l |}.

(** ** It returns whole snapshots *)

Definition whole {F} (maximum : Z) (sn : Snapshot F) : Prop :=
  size (sn_axes sn) = maximum /\ sn_axis_count sn <= maximum.

Definition link_sound (l : Link) : Prop :=
  whole kRobotIoMaximumAxes (DdsRobotIo.io_axis_feedback (lk_io l)) /\
  whole kRobotIoMaximumServos (DdsRobotIo.io_servo_feedback (lk_io l)) /\
  whole kRobotIoMaximumServos (DdsRobotIo.io_damiao_feedback (lk_io l)).

Lemma read_all_whole {S F} (header : S -> MessageHeader) (update : S -> F -> F) robot_id take devices sn maximum :
  whole maximum sn ->
  exists sn', DdsRobotIo.read_all header update robot_id take 0 devices sn = Some sn' /\ whole maximum sn'.
Proof.
  intros [Hs Hc]. destruct (DdsRobotIo.read_all_spec header update robot_id take devices 0 sn) as (sn' & Hr & H1 & H2 & _).
  { unfold size in Hs. lia. }
  exists sn'. split; [done|]. unfold whole, size in *. by rewrite H2, H1.
Qed.

Lemma link_read_sound {S F} (header : S -> MessageHeader) (update : S -> F -> F) feed devices snapshot put l maximum :
  whole maximum snapshot -> (forall sn, whole maximum sn -> link_sound (with_endpoint l (put sn))) ->
  link_sound (link_read header update feed devices snapshot put l).1 /\
  answered (fun sn => size (sn_axes sn) = maximum) (link_read header update feed devices snapshot put l).2.
Proof.
  intros Hw Hp. unfold link_read.
  destruct (read_all_whole header update (DdsRobotIo.io_robot_id (lk_io l)) (fe_take feed) devices snapshot maximum Hw)
    as (sn & Hr & Hsn).
  destruct (fe_throws feed) as [[k what]|]; [destruct (k <? _)%nat|].
  - destruct (read_all_whole header update (DdsRobotIo.io_robot_id (lk_io l)) (fe_take feed) (take k devices)
      snapshot maximum Hw) as (sn' & Hr' & Hsn'). rewrite Hr'. split; [by apply Hp|done].
  - rewrite Hr. split; [by apply Hp|apply Hsn].
  - rewrite Hr. split; [by apply Hp|apply Hsn].
Qed.

#[export] Program Instance DdsLinkLaws : RuntimeRobotIoLaws (R := Link) := {| ri_sound := link_sound |}.
Next Obligation. intros l (A & V & D). by apply (link_read_sound _ _ _ _ _ _ _ kRobotIoMaximumAxes). Qed.
Next Obligation. intros l (A & V & D). by apply (link_read_sound _ _ _ _ _ _ _ kRobotIoMaximumServos). Qed.
Next Obligation. intros l (A & V & D). by apply (link_read_sound _ _ _ _ _ _ _ kRobotIoMaximumServos). Qed.
Next Obligation. intros l axes servos q n Hl. split; [done|]. cbn. by destruct (DdsRobotIo.publish_commands _ _ _ _ _ _ _) as [? []]. Qed.
Next Obligation. intros l motors enabled q n Hl. split; [done|]. cbn. by destruct (DdsRobotIo.publish_damiao_commands _ _ _ _ _ _ _) as [? []]. Qed.

Lemma construct_sound profile ds world :
  size (rp_axes profile) <= kRobotIoMaximumAxes -> size (rp_st3215_servos profile) <= kRobotIoMaximumServos ->
  size (rp_damiao_motors profile) <= kRobotIoMaximumServos ->
  link_sound (mkDdsLink (DdsRobotIo.construct profile ds) world 0 []).
Proof.
  unfold size, kRobotIoMaximumAxes, kRobotIoMaximumServos. intros Ha Hs Hm.
  assert (forall n, Z.of_nat n <= 32 -> u32 (Z.of_nat n) = Z.of_nat n) as Hw
    by (intros; apply wrap_small; unfold is_word; lia).
  repeat split; cbn; rewrite ?Hw by lia; done.
Qed.
(** ** From a request to the daemon *)

(** Reading changes only the feedback. *)
Definition same_channels (l l' : Link) : Prop :=
  lk_world l' = lk_world l /\ lk_written l' = lk_written l /\
  exists a s d, lk_io l' = DdsRobotIo.with_feedback (lk_io l) a s d.

Lemma same_channels_refl l : same_channels l l.
Proof. repeat split. destruct l as [[] ? ? ?]. by do 3 eexists. Qed.

Lemma same_channels_trans l1 l2 l3 : same_channels l1 l2 -> same_channels l2 l3 -> same_channels l1 l3.
Proof.
  intros (W1 & L1 & a1 & s1 & d1 & E1) (W2 & L2 & a2 & s2 & d2 & E2).
  split; [congruence|]. split; [congruence|]. exists a2, s2, d2. by rewrite E2, E1.
Qed.

Lemma link_read_channels {S F} (header : S -> MessageHeader) (update : S -> F -> F) feed devices snapshot put l :
  (forall sn, exists a s d, put sn = DdsRobotIo.with_feedback (lk_io l) a s d) ->
  same_channels l (link_read header update feed devices snapshot put l).1.
Proof.
  intros Hp. assert (forall sn, same_channels l (with_endpoint l (put sn))) as Hw.
  { intros sn. repeat split. apply Hp. }
  unfold link_read. repeat case_match; try apply Hw; apply same_channels_refl.
Qed.

Lemma performs_reads (l : Link) events l' : performs l events l' -> Forall is_read events -> same_channels l l'.
Proof.
  induction 1 as [l|l events l' _ IH|l events l' _ IH|l events l' _ IH| |]; intros Hr.
  1: apply same_channels_refl.
  4, 5: by apply Forall_cons in Hr as [[] _].
  all: apply Forall_cons in Hr as [_ Hr]; eapply same_channels_trans; [|by apply IH].
  all: apply link_read_channels; intros sn; by do 3 eexists.
Qed.

Lemma performs_split {R} `{RuntimeRobotIo R} (r : R) e1 e2 r' :
  performs r (e1 ++ e2) r' -> exists r1, performs r e1 r1 /\ performs r1 e2 r'.
Proof.
  revert r. induction e1 as [|e e1 IH]; intros r Hp; [exists r; split; [constructor|done]|].
  inversion Hp; subst; match goal with H : performs _ (e1 ++ e2) _ |- _ => destruct (IH _ H) as (r1 & ? & ?) end;
    exists r1; split; try done; by constructor.
Qed.

(** A whole publication, on the wires. *)
Lemma performs_publication (l l' : Link) axes servos motors enabled q n :
  performs l [ev_publish axes servos q n (returned (success tt));
              ev_publish_motors motors enabled q n (returned (success tt))] l' ->
  exists throws throws' what ws ws',
    DdsRobotIo.publish_commands (lk_io l) axes servos q n throws what = (ws, success tt) /\
    DdsRobotIo.publish_damiao_commands (lk_io l) motors enabled q n throws' what = (ws', success tt) /\
    lk_written l' = lk_written l ++ ws ++ ws'.
Proof.
  inversion 1 as [| | | |r0 a0 s0 q0 n0 e0 r1 Hp E1 E2 E3|]; subst.
  inversion Hp as [| | | | |r2 m0 b0 q2 n2 e2 r3 Hp2 E4 E5 E6]; subst. inversion Hp2; subst.
  match goal with E : (DdsRobotIo.publish_damiao_commands _ _ _ _ _ _ _).2 = _ |- _ => rewrite E end.
  do 3 eexists. exists (DdsRobotIo.publish_commands (lk_io l) axes servos q n
      (dw_write_throws (lk_world l) (lk_calls l)) (dw_what (lk_world l))).1.
  eexists. split_and!; [apply surjective_pairing| |].
  - match goal with E : (DdsRobotIo.publish_damiao_commands _ _ _ _ _ _ _).2 = _ |- _ => rewrite <- E end.
    apply surjective_pairing.
  - cbn. by rewrite app_assoc.
Qed.

Definition finite_commands (axes : list AxisCommand) (servos : list St3215ServoCommand)
    (motors : list (DamiaoMitCommand * bool)) : Prop :=
  Forall (fun c => isfinite (ac_target c) = true) axes /\
  Forall (fun c => isfinite (sc_target_position_rad c) = true) servos /\
  Forall (fun c => isfinite (dm_position c) && isfinite (dm_velocity c) && isfinite (dm_kp c) &&
    isfinite (dm_kd c) && isfinite (dm_torque c) = true) (map fst motors).

(** C7. From a client's request to the drives' callbacks.  The host of a robot that is reached over
    DDS answers an observation request with an action only after writing one batch of commands,
    with the action's targets.  When these are finite and DDS delivers the batch to the daemon, its
    callbacks get exactly that batch, whatever the daemon's endpoint has gone through before: for each
    execution group one epoch with the commands of its axes, and every motor's and every servo's
    command, each once and under its own index.  Delivery is an assumption ([delivered],
    [commits_last]): over any calls of the endpoint, in any number of turns of its worker and mixed
    with other calls, each reader takes the sample of each write of its topic once, and when the
    commit of a group is taken, the commands of its axes have been.  DDS orders no two topics, and
    without the second condition an epoch can be lost. *)
Theorem request_reaches_daemon `{JsonErrors} capacity profile ds past (h : Host) l request t h' events answer :
  build_dds_topic_registry profile (dds_robot_id (rp_dds profile)) = success ds ->
  rh_io h = Some l -> (exists a s d, lk_io l = DdsRobotIo.with_feedback (DdsRobotIo.construct profile ds) a s d) ->
  0 <= rh_command_sequence h -> rh_command_sequence h + 1 < 2 ^ 64 ->
  let o := DdsRobotIo.construct profile ds in
  let i := DdsDelivery.reached capacity (dds_robot_id (rp_dds profile)) ds past in
  handle request t h = (h', events, Some (success answer)) ->
  en_type request = "observation_request" -> en_error answer = None ->
  let q := rh_command_sequence h + 1 in
  exists l' ws output axes servos n,
    answer = response request t "action_response" [("ok", JBoolean true); ("action", JObject output)] /\
    rh_io h' = Some l' /\ lk_written l' = lk_written l ++ ws /\ batch h output axes servos q n /\
    forall calls,
      finite_commands axes servos (motor_commands h output) ->
      DdsDelivery.delivered ws calls -> DdsDelivery.commits_last o calls = true ->
      List.filter DdsRobotIo.for_callback (DdsDaemonEndpoint.calls_run i calls).2 ≡ₚ
        map (fun name => DdsDaemonEndpoint.out_epoch name q (DdsRobotIo.group_values o axes q n name))
          (DdsRobotIo.commit_names ds) ++
        imap (fun k c => DdsDaemonEndpoint.out_damiao k (DdsRobotIo.motor_value q n c)) (motor_commands h output) ++
        imap (fun k c => DdsDaemonEndpoint.out_st3215 k (DdsRobotIo.servo_value q n c)) servos.
Proof.
  intros Hreg Hl (fa & fs & fd & Ho) Hq0 Hq o i Hh Ht He q.
  pose proof (handle_real _ _ _ _ _ _ Hh) as Hreal. unfold by_calls in Hreal. rewrite Hl in Hreal.
  destruct (rh_io h') as [l'|] eqn:Hl'; [|done].
  apply handle_publications in Hh as (output & done & [_ (reads & pubs & -> & Hr & Hp & _) _ _ Ha Hd]).
  destruct (Hd answer eq_refl Ht He) as [[p ->]|Hio]; [|unfold has_io in Hio; by rewrite Hl in Hio].
  specialize (Ha ltac:(by eexists)). injection Ha as ->.
  inversion Hp as [| | |axes servos q' n Hb]; subst. pose proof (ba_sequence _ _ _ _ _ _ Hb) as Eq.
  rewrite wrap_small in Eq by (unfold is_word; lia). subst q'.
  apply performs_split in Hreal as (l1 & Hreads & Hpubs).
  apply performs_reads in Hreads as (_ & Hw1 & a & s & d & Ho1); [|done].
  apply performs_publication in Hpubs as (throws & throws' & what & ws & ws' & Hc & Hm & Hwritten).
  rewrite Ho1, Ho in Hc, Hm. rewrite Hw1 in Hwritten.
  exists l', (ws ++ ws'), output, axes, servos, n. split_and!; try done. intros calls (Fa & Fs & Fm) Hdel Hlast.
  rewrite <- (zip_fst_snd (motor_commands h output)).
  eapply DdsDelivery.commands_delivered; try done. unfold q. lia.
Qed.
End RuntimeDds.
