(* ===== verification/HostExamples.v ===== *)
(** * A host at work

    A robot with two axes, one servo and one motor that is reached over DDS, a policy that echoes
    the positions, and a client: the theorems of the host at concrete requests. *)
From S2P Require Export RuntimeDds.

Module HostExamples.
Import DdsTypes Topics PolicyLoader Policy Rpc RuntimeHost HostFacts RuntimeDds.
Open Scope string_scope.
Open Scope list_scope.
Open Scope Z_scope.

#[local] Instance library_errors : JsonErrors := fun expected _ => "type must be " +:+ expected.

(** ** The robot and the policy *)

Definition drive (name position : string) : DeviceConfig :=
  mkDevice name (mkLink "cia402" "ethercat0") [("alias", "0"); ("position", position); ("safety_group", "leg")].

Definition servo_device (name : string) : DeviceConfig :=
  mkDevice name (mkLink "st3215" "/dev/ttyUSB0") [].

Definition motor_device (name : string) : DeviceConfig :=
  mkDevice name (mkLink "damiao_motor" "can0") [("motor_id", "1")].

Definition axis (name : string) (position : Z) : AxisConfig :=
  mkAxisConfig name 0 position 1 2 3 csp fone fzero fone 20 "leg" fone fone.

Definition servo : St3215ServoProfile :=
  mkServoProfile "grip_s" "grip" (mkSerialPort "/dev/ttyUSB0" 1000000 256%nat 64%nat 5 5 10) 7 7 4095 1000 0 250 "" 250 50.

Definition motor : DamiaoMotorProfile :=
  mkMotorProfile "neck_s" "neck" "can0" socketcan 1 (mkLimits fone fone fone) 100 "".

Definition robot : RobotProfile :=
  mkRobotProfile
    [drive "hip_s" "1"; drive "knee_s" "2"; servo_device "grip_s"; motor_device "neck_s"]
    [drive "hip" "1"; drive "knee" "0x2"; servo_device "grip"; motor_device "neck"]
    [axis "hip_s" 1; axis "knee_s" 2] [servo] [motor]
    (mkDds dds "lab" 0 "" 64 (mkDdsExternal false 0 [])).

Definition registry : list DdsTopicDescriptor :=
  match build_dds_topic_registry robot "lab" with success ds => ds | failure _ => [] end.

Definition binding (name robot_data field : string) : RobotPolicyBinding :=
  mkPolicyBinding name robot_data field None None false (JObject []).

Definition policy_profile : PolicyProfile :=
  mkPolicyProfile "echo" "1" "dummy" (JObject [])
    [binding "i1" "hip_s" "hip_position"; binding "i2" "knee_s" "knee_position"; binding "i3" "grip_s" "grip_state"]
    [binding "o1" "hip" "hip_target"; binding "o2" "knee" "knee_target"; binding "o3" "grip" "grip_target"]
    [] [] TemporalSpec_default [] [] (JObject []).

(** The first drive has reported a position; every other reader returns nothing. *)
Definition report : Published Cia402SensorEvent :=
  {| pb_header := mkHeader 1 "lab" "hip_s" "" 5 1000 0 0;
     pb_event := mkCia402Event (mkStamp 5 1000 0 0) fone fzero fzero 39 8 |}.

Definition silent {S} : nat -> Feed S := fun _ => mkFeed (fun _ => []) None.

(** [write_throws]: the write that fails at each call. *)
Definition world (write_throws : nat -> option nat) : DdsWorld :=
  mkWorld (fun _ => mkFeed (fun k => if Nat.eqb k 0 then [mkSample true report] else []) None)
    silent silent write_throws "DDS error".

Definition link (write_throws : nat -> option nat) : Link :=
  mkDdsLink (DdsRobotIo.construct robot registry) (world write_throws) 0%nat [].

Definition host (write_throws : nat -> option nat) : Host :=
  mkHost policy_profile robot ["hip"; "knee"] (DummyPolicy policy_profile) 1%nat 1%nat
    (Some (link write_throws)) ∅ 0 0 true.

(** The names are those the host derives. *)
Example names_derived : axis_actuator_names robot = success ["hip"; "knee"].
Proof. vm_compute. reflexivity. Qed.

Definition observation (session : string) : MessageEnvelope :=
  mkEnvelope kSchemaVersion "observation_request" "r1" session 3 5 (JObject [("observation", JObject [])]) None.

Definition health : MessageEnvelope :=
  mkEnvelope kSchemaVersion "health_request" "r2" "s1" 4 6 (JObject []) None.

Definition clock (n : Z) : Times := mkTimes 100 101 102 n.

Definition fine : nat -> option nat := fun _ => None.
Definition outcome := handle (observation "s1") (clock 50) (host fine).
Definition after : Host := outcome.1.1.
Definition calls : list event := outcome.1.2.

Definition hip_command : AxisCommand := mkAxisCommand 1 50 fone 1 0.
Definition knee_command : AxisCommand := mkAxisCommand 1 50 fzero 1 0.
Definition grip_command : St3215ServoCommand := mkServoCommand 1 50 fzero true false (replicate 6 0).
Definition neck_command : DamiaoMitCommand := mkMitCommand fzero fzero fzero fzero fzero.

(** The position of the hip comes back as its target. *)
Example echoed :
  calls =
    [ev_read_axes; ev_read_servos; ev_read_motors;
     ev_publish [hip_command; knee_command] [grip_command] 1 50 (returned (success tt));
     ev_publish_motors [neck_command] [false] 1 50 (returned (success tt))].
Proof. vm_compute. reflexivity. Qed.

Definition answer_of_outcome (o : option (Result MessageEnvelope)) : MessageEnvelope :=
  match o with Some (success answer) => answer | _ => protocol_request end.

Lemma triple_eta {A B C} (x : A * B * C) : x = (x.1.1, x.1.2, x.2).
Proof. by destruct x as [[]]. Qed.

Definition reply : MessageEnvelope := answer_of_outcome outcome.2.

Lemma outcome_replied : outcome.2 = Some (success reply).
Proof. vm_compute. reflexivity. Qed.

Lemma outcome_eta : handle (observation "s1") (clock 50) (host fine) = (after, calls, outcome.2).
Proof. unfold after, calls, outcome. apply triple_eta. Qed.

Lemma outcome_is : handle (observation "s1") (clock 50) (host fine) = (after, calls, Some (success reply)).
Proof. rewrite <- outcome_replied. apply outcome_eta. Qed.

Lemma reply_is_action : en_error reply = None.
Proof. vm_compute. reflexivity. Qed.

Lemma host_publication_sound_witness : by_calls (host fine) after calls.
Proof.
  exact (proj1 (host_publication_sound (observation "s1") (clock 50) (host fine) after calls _ outcome_is)).
Defined.

Lemma host_sessions_isolated_witness :
  "s2" <> "s1" /\ rh_sessions after !! "s2" = rh_sessions (host fine) !! "s2".
Proof.
  split; [done|].
  refine (proj1 (host_sessions_isolated (observation "s1") (clock 50) (host fine) after calls _ outcome_is) "s2" _).
  discriminate.
Defined.

Lemma host_in_shape write_throws : in_shape (host write_throws).
Proof.
  split; try (vm_compute; done). intros r [= <-]. apply construct_sound; vm_compute; done.
Qed.

Lemma host_stays_in_arrays_witness : outcome.2 <> None /\ in_shape after.
Proof.
  exact (host_stays_in_arrays (observation "s1") (clock 50) (host fine) after calls outcome.2
    (host_in_shape fine) ltac:(vm_compute; reflexivity) outcome_eta).
Defined.

(** Three requests; the second one does not publish. *)
Definition requests : list (MessageEnvelope * Times) :=
  [(observation "s1", clock 50); (health, clock 60); (observation "s2", clock 40)].
Definition run_result := serve_all (host fine) requests.

Example run_batches : complete_batches run_result.2 = [(1, 50); (2, 51)].
Proof. vm_compute. reflexivity. Qed.

Lemma host_publications_ordered_witness :
  exists times, complete_batches run_result.2 = imap (fun k n => (0 + 1 + Z.of_nat k, n)) times /\
    StronglySorted Z.lt (0 :: times).
Proof.
  destruct (host_publications_ordered (host fine) requests run_result.1 run_result.2
    (surjective_pairing run_result) ltac:(vm_compute; done) ltac:(vm_compute; reflexivity)) as (times & H1 & H2 & _).
  exists times. split; [exact H1|exact H2].
Defined.

(** On the wire: texts are JSON trees. *)
Definition wire := handle_text (host fine) (envelope_object (observation "s1")) (clock 50).

Definition wire_answer : Json := match wire.2 with returned answer => answer | _ => JNull end.

Lemma host_answers_in_protocol_witness :
  exists answer, wire.2 = returned wire_answer /\ answers (observation "s1") answer /\
    (printable (envelope_object answer) = true -> decode_envelope wire_answer = success (canonical_envelope answer)).
Proof.
  assert (wire.2 = returned wire_answer) as Hw by (vm_compute; reflexivity).
  destruct (host_answers_in_protocol (host fine) (envelope_object (observation "s1")) (clock 50)
    wire.1.1 wire.1.2 (returned wire_answer) ltac:(vm_compute; intuition done) ltac:(vm_compute; reflexivity) ltac:(done))
    as (answer & H1 & H2 & H3).
  exists answer. split; [exact Hw|]. split; [exact H3|]. intros Hp. destruct (H2 Hp) as (out & Ho & Hd).
  by rewrite (f_equal (fun o : Outcome Json => match o with returned tree => tree | _ => JNull end) Ho).
Defined.

(** On the daemon's side, when one turn of the worker finds all of it. *)
Definition written_after : list DdsRobotIo.written :=
  match rh_io after with Some l => lk_written l | None => [] end.

Definition daemon : DdsDaemonEndpoint.Impl :=
  DdsDelivery.reached 64 "lab" registry [DdsDaemonEndpoint.c_life true false true].

Definition one_turn : list DdsDaemonEndpoint.call :=
  map DdsDaemonEndpoint.c_access (DdsDaemonEndpoint.turn_accesses daemon (DdsRobotIo.samples_of written_after)).

Lemma one_turn_delivers :
  DdsDelivery.delivered written_after one_turn /\
  DdsDelivery.commits_last (DdsRobotIo.construct robot registry) one_turn = true.
Proof.
  split; [|vm_compute; reflexivity]. split; intros [|[|k]]; try (vm_compute; reflexivity); by destruct k.
Qed.

Lemma request_reaches_daemon_witness :
  exists l' ws output axes servos n, rh_io after = Some l' /\ ws = written_after /\
    batch (host fine) output axes servos 1 n /\
    (finite_commands axes servos (motor_commands (host fine) output) ->
     List.filter DdsRobotIo.for_callback (DdsDaemonEndpoint.calls_run daemon one_turn).2 ≡ₚ
       map (fun name => DdsDaemonEndpoint.out_epoch name 1
              (DdsRobotIo.group_values (DdsRobotIo.construct robot registry) axes 1 n name))
         (DdsRobotIo.commit_names registry) ++
       imap (fun k c => DdsDaemonEndpoint.out_damiao k (DdsRobotIo.motor_value 1 n c))
         (motor_commands (host fine) output) ++
       imap (fun k c => DdsDaemonEndpoint.out_st3215 k (DdsRobotIo.servo_value 1 n c)) servos).
Proof.
  destruct (request_reaches_daemon 64 robot registry [DdsDaemonEndpoint.c_life true false true] (host fine) (link fine)
    (observation "s1") (clock 50) after calls _ ltac:(vm_compute; reflexivity) eq_refl
    ltac:(do 3 eexists; reflexivity) ltac:(vm_compute; done) ltac:(vm_compute; reflexivity)
    outcome_is eq_refl reply_is_action)
    as (l' & ws & output & axes & servos & n & _ & H1 & H2 & H3 & H4).
  assert (ws = written_after) as Hw by (unfold written_after; rewrite H1, H2; reflexivity).
  exists l', ws, output, axes, servos, n. split_and!; [exact H1|exact Hw|exact H3|]. intros Hf.
  destruct one_turn_delivers as [D1 D2]. apply H4; [exact Hf|by rewrite Hw|exact D2].
Defined.

(** What arrives there. *)
Example arrives :
  List.filter DdsRobotIo.for_callback (DdsDaemonEndpoint.calls_run daemon one_turn).2 =
    [DdsDaemonEndpoint.out_epoch "leg" 1 [mkCia402Value fone 0 1 1 50; mkCia402Value fzero 0 1 1 50];
     DdsDaemonEndpoint.out_damiao 0 (mkDamiaoValue false false fzero fzero fzero fzero fzero 1 50);
     DdsDaemonEndpoint.out_st3215 0 (mkSt3215Value fzero true false 1 50)].
Proof. vm_compute. reflexivity. Qed.

(** ** Where the host falls short *)

(** The write of the motors fails, after those of the axes and the servos: the next request
    publishes new commands under the number that the daemon has already seen. *)
Definition motors_fail : nat -> option nat := fun call => if Nat.eqb call 4 then Some 0%nat else None.

Lemma number_published_twice :
  omap (fun e => match e with ev_publish _ _ q n (returned (success tt)) => Some (q, n) | _ => None end)
    (serve_all (host motors_fail) [(observation "s1", clock 50); (observation "s1", clock 60)]).2 =
  [(1, 50); (1, 60)].
Proof. vm_compute. reflexivity. Qed.

(** Thirteen drives: the host opens, and writes past the end of the twelve commands. *)
Definition crowd : list string :=
  ["1"; "2"; "3"; "4"; "5"; "6"; "7"; "8"; "9"; "10"; "11"; "12"; "13"].

Definition crowded_robot : RobotProfile :=
  mkRobotProfile (map (fun p => drive ("s" +:+ p) p) crowd) (map (fun p => drive ("a" +:+ p) p) crowd)
    (imap (fun k p => axis ("s" +:+ p) (Z.of_nat k + 1)) crowd) [] [] (rp_dds robot).

Definition crowded_registry : list DdsTopicDescriptor :=
  match build_dds_topic_registry crowded_robot "lab" with success ds => ds | failure _ => [] end.

Definition crowded_host : Host :=
  mkHost policy_profile crowded_robot (map (fun p => "a" +:+ p) crowd) (DummyPolicy policy_profile) 1%nat 1%nat
    (Some (mkDdsLink (DdsRobotIo.construct crowded_robot crowded_registry)
       (mkWorld silent silent silent fine "DDS error") 0%nat [])) ∅ 0 0 false.

Lemma thirteen_axes_overflow :
  axis_actuator_names crowded_robot = success (rh_names crowded_host) /\
  (open crowded_host).2 = success tt /\
  (handle (observation "s1") (clock 50) (open crowded_host).1).2 = None.
Proof. vm_compute. repeat split. Qed.

(** The profile loader takes a number with blanks around it; the host does not find the drive then. *)
Lemma blank_position_refused :
  parse_unsigned uint16_max " 1" = Some 1 /\ parse_bus_position " 1" = None.
Proof. vm_compute. repeat split. Qed.

End HostExamples.
