(* ===== verification/HostMain.v ===== *)
(** * The host program

    [apps/policy_runtime_host_main.cpp]: the ZeroMQ server and [main].  The answers of the socket
    library, the file system and the signals are arguments: a [visit] is what one turn of the server
    meets.  An exception is what [std::exception] tells of it; running out of memory is not modelled. *)
From S2P Require Export HostCli HostFacts.

Module HostMain.
Import PolicyLoader Policy Rpc RuntimeHost HostCli.
Open Scope string_scope.
Open Scope list_scope.
Open Scope Z_scope.

(** ** The server *)

Definition EINTR : Z := 4.
Definition EAGAIN : Z := 11.

(** The path of an IPC endpoint. *)
Definition ipc_path (endpoint : string) : option string :=
  if String.prefix "ipc://" endpoint then Some (String.substring 6 (String.length endpoint - 6) endpoint) else None.

(** What making the socket met: [directory_failed] is about the directory of an IPC path. *)
Inductive opening := opened | directory_failed (message : string) | socket_failed (num : Z) (what : string).

(** An exception: the library's, or another. *)
Inductive thrown := std_error (what : string) | zmq_error (num : Z) (what : string).

Definition what (t : thrown) : string := match t with std_error what | zmq_error _ what => what end.

Definition reopen (endpoint : string) (o : opening) : option thrown :=
  match o, ipc_path endpoint with
  | directory_failed message, Some _ => Some (std_error ("unable to create ZeroMQ IPC directory: " +:+ message))
  | socket_failed num what, _ => Some (zmq_error num what)
  | _, _ => None
  end.

Inductive recv_outcome (Text : Type) := r_message (request : Text) | r_nothing | r_error (num : Z) (what : string).
Inductive send_outcome := s_sent | s_not_sent | s_error (num : Z) (what : string).
Arguments r_message {Text}.
Arguments r_nothing {Text}.
Arguments r_error {Text}.

Section Main.
Context {R : Type} `{RuntimeRobotIo R} `{JsonErrors} {Text : Type} `{JsonText Text}.
Context (dump : Json -> string) (make_robot_io : RobotProfile -> Result R).

(** [vi_reopen] is met by the reopening after a failed send, [vi_recover] by the one after an error. *)
Record visit := mkVisit {
  vi_recv : recv_outcome Text;
  vi_times : Times;
  vi_send : send_outcome;
  vi_reopen : opening;
  vi_recover : opening }.

(** What the server did, in order. *)
Inductive served := received (request : Text) | worked (events : list event) | answered (answer : Text) | reopened.

(** [gave]: the value of [serve_one]; [lost]: the host left the arrays of the program. *)
Inductive serve_result := gave (any : bool) | threw_out (t : thrown) | lost.

(** The handler of [zmq::error_t]. *)
Definition on_error (endpoint : string) (num : Z) (v : visit) : list served * serve_result :=
  if (num =? EAGAIN) || (num =? EINTR) then ([], gave false)
  else match reopen endpoint (vi_recover v) with
       | None => ([reopened], gave false)
       | Some t => ([], threw_out t)
       end.

Definition send (endpoint : string) (answer : Text) (v : visit) : list served * serve_result :=
  match vi_send v with
  | s_sent => ([answered answer], gave true)
  | s_not_sent =>
      match reopen endpoint (vi_reopen v) with
      | None => ([reopened], gave true)
      | Some (zmq_error num _) => on_error endpoint num v
      | Some t => ([], threw_out t)
      end
  | s_error num _ => on_error endpoint num v
  end.

Definition serve_one (endpoint : string) (h : Host) (v : visit) : Host * list served * serve_result :=
  match vi_recv v with
  | r_nothing => (h, [], gave false)
  | r_error num _ => let '(log, r) := on_error endpoint num v in (h, log, r)
  | r_message request =>
      let '(h, events, answer) := handle_text h request (vi_times v) in
      match answer with
      | undefined => (h, [received request; worked events], lost)
      | threw what => (h, [received request; worked events], threw_out (std_error what))
      | returned answer => let '(log, r) := send endpoint answer v in (h, received request :: worked events :: log, r)
      end
  end.

(** How the loop ends: a signal has come, an exception left it, or it goes on. *)
Inductive loop_end := stopped | failed (t : thrown) | goes_on | left_arrays.

(** The visits, each with the value of [stop_requested] after it. *)
Fixpoint serve_loop (endpoint : string) (h : Host) (halt : bool) (visits : list (visit * bool))
    : Host * list served * loop_end :=
  if halt then (h, [], stopped)
  else
    match visits with
    | [] => (h, [], goes_on)
    | (v, halt) :: visits =>
        let '(h, log, r) := serve_one endpoint h v in
        match r with
        | gave _ => let '(h, log', e) := serve_loop endpoint h halt visits in (h, log ++ log', e)
        | threw_out t => (h, log, failed t)
        | lost => (h, log, left_arrays)
        end
    end.

(** ** [main] *)

(** What the program meets: the files, read twice for the robot, the socket, the signals. *)
Record Surroundings := mkSurroundings {
  sr_robot : Document;
  sr_robot_again : Document;
  sr_policy : Document;
  sr_opening : opening;
  sr_stop : bool;
  sr_visits : list (visit * bool) }.

(** The end of the program: its code, what it wrote and the host; or it still works. *)
Inductive report :=
  | exited (code : Z) (text : string) (host : option (Host (R := R))) (log : list served)
  | working (host : Host (R := R)) (log : list served)
  | undefined_end.

Definition line (text : string) : string := text +:+ String (ascii_of_nat 10) "".

Definition default_robot_profile : string := "policy_embodied_runtime/examples/robot_profiles/default_rpc_robot_profile.json".

(** The robot I/O of a profile: a DDS endpoint, or none. *)
Definition connect (profile : RobotProfile) : Result (option R) :=
  match dds_backend (rp_dds profile) with
  | dds => io ← make_robot_io profile; success (Some io)
  | _ => success None
  end.

(** The host of the profiles, opened. *)
Definition opened_host (options : RuntimeHostCliOptions) (w : Surroundings) : Result Host :=
  let robot_profile := default default_robot_profile (cli_robot_profile options) in
  profile ← RobotLoader.load_robot_profile dump robot_profile (sr_robot w);
  robot_io ← connect profile;
  host ← from_profiles dump (cli_policy_profile options, sr_policy w) (Some (robot_profile, sr_robot_again w)) robot_io;
  let '(host, r) := RuntimeHost.open host in
  _ ← r; success host.

Definition serve_host (endpoint : string) (h : Host) (w : Surroundings) : report :=
  match reopen endpoint (sr_opening w) with
  | Some t => exited 1 (line (what t)) (Some (RuntimeHost.close h)) []
  | None =>
      match serve_loop endpoint h (sr_stop w) (sr_visits w) with
      | (h, log, stopped) => exited 0 "" (Some (RuntimeHost.close h)) log
      | (h, log, failed t) => exited 1 (line (what t)) (Some (RuntimeHost.close h)) log
      | (h, log, goes_on) => working h log
      | (_, _, left_arrays) => undefined_end
      end
  end.

Definition main (arguments : list string) (w : Surroundings) : report :=
  match parse_runtime_host_cli arguments with
  | failure e => exited 2 (line (message e) +:+ runtime_host_usage) None []
  | success options =>
      if cli_show_help options then exited 0 (line "Run the robot runtime host." +:+ runtime_host_usage) None []
      else if cli_timeout_ms options <=? 0 then exited 2 (line "--timeout-ms must be positive") None []
      else
        match opened_host options w with
        | failure e => exited 1 (line (message e)) None []
        | success h => serve_host (resolve_policy_endpoint (cli_endpoint options)) h w
        end
  end.

(** ** What the program does *)

(** [answers h log h']: from [h] to [h'], each answer of the log is the host's answer to the request
    received just before it; a request has at most one answer. *)
Inductive answers : Host (R := R) -> list served -> Host (R := R) -> Prop :=
  | an_none h : answers h [] h
  | an_reopened h log h' : answers h log h' -> answers h (reopened :: log) h'
  | an_request h request t h1 events o log h' :
      handle_text h request t = (h1, events, o) -> o <> undefined -> answers h1 log h' ->
      answers h (received request :: worked events :: log) h'
  | an_answer h request t h1 events answer log h' :
      handle_text h request t = (h1, events, returned answer) -> answers h1 log h' ->
      answers h (received request :: worked events :: answered answer :: log) h'.

(** The requests of a log, and those that visits bring. *)
Definition requests (log : list served) : list Text :=
  omap (fun s => match s with received request => Some request | _ => None end) log.

Definition brought (visits : list (visit * bool)) : list Text :=
  omap (fun v => match vi_recv v.1 with r_message request => Some request | _ => None end) visits.

(** [stop_requested] after [n] visits. *)
Definition flag (halt : bool) (visits : list (visit * bool)) (n : nat) : option bool :=
  match n with O => Some halt | S n => snd <$> visits !! n end.

(** The signal is seen after [n] visits, not before. *)
Definition signalled (halt : bool) (visits : list (visit * bool)) (n : nat) : Prop :=
  flag halt visits n = Some true /\ forall k, (k < n)%nat -> flag halt visits k = Some false.

(** What leaves a visit as an exception: a socket that cannot be made again, or the printer's. *)
Definition escapes (endpoint : string) (v : visit) (t : thrown) (h' : Host) : Prop :=
  reopen endpoint (vi_reopen v) = Some t \/ reopen endpoint (vi_recover v) = Some t \/
  exists h request events w, vi_recv v = r_message request /\
    handle_text h request (vi_times v) = (h', events, threw w) /\ t = std_error w.

(** The exception [t] leaves the visit [n], to which no signal has come. *)
Definition escaped (endpoint : string) (halt : bool) (visits : list (visit * bool)) (n : nat) (t : thrown)
    (h' : Host) : Prop :=
  (forall k, (k <= n)%nat -> flag halt visits k = Some false) /\
  exists v next, visits !! n = Some (v, next) /\ escapes endpoint v t h'.

Lemma answers_app h log1 h1 log2 h2 : answers h log1 h1 -> answers h1 log2 h2 -> answers h (log1 ++ log2) h2.
Proof. induction 1; cbn; eauto using answers. Qed.

(** A log after the answer: reopenings. *)
Lemma reopenings h log : Forall (fun s => s = reopened) log -> answers h log h /\ requests log = [].
Proof. induction 1 as [|s log -> _ [IH1 IH2]]; split; try constructor; done. Qed.

Lemma on_error_log endpoint num v log r :
  on_error endpoint num v = (log, r) ->
  Forall (fun s => s = reopened) log /\ r <> lost /\
  (forall t, r = threw_out t -> reopen endpoint (vi_recover v) = Some t).
Proof.
  unfold on_error. destruct (_ || _); [intros [= <- <-]; split_and!; [constructor|done..]|].
  destruct (reopen _ _); intros [= <- <-]; (split_and!; [repeat constructor|done|]); [by intros t' [= <-]|done].
Qed.

Lemma send_log endpoint answer v log r :
  send endpoint answer v = (log, r) ->
  (log = [answered answer] \/ Forall (fun s => s = reopened) log) /\ r <> lost /\
  (forall t, r = threw_out t -> reopen endpoint (vi_reopen v) = Some t \/ reopen endpoint (vi_recover v) = Some t).
Proof.
  unfold send. destruct (vi_send v) as [| |num w].
  - intros [= <- <-]. by split_and!; [left|..].
  - destruct (reopen _ _) as [[w|num w]|]; [|intros (Hl & Hr & Ht)%on_error_log; auto|];
      intros [= <- <-]; (split_and!; [right; repeat constructor|done|]); [intros t [= <-]; by left|done].
  - intros (Hl & Hr & Ht)%on_error_log; auto.
Qed.

(** A visit: what is logged of it, and how it may end. *)
Lemma serve_one_visit endpoint h v next h' log r :
  serve_one endpoint h v = (h', log, r) -> r <> lost ->
  answers h log h' /\ requests log = brought [(v, next)] /\ (forall t, r = threw_out t -> escapes endpoint v t h').
Proof.
  unfold serve_one, brought, escapes. cbn. destruct (vi_recv v) as [request| |num w].
  - destruct (handle_text h request (vi_times v)) as [[h1 events] [answer|w|]] eqn:Ht; [| |by intros [= <- <- <-]].
    + destruct (send endpoint answer v) as [log1 r1] eqn:Hs. intros [= <- <- <-] _.
      apply send_log in Hs as ([->|Hl] & _ & Hr).
      * split_and!; [by eapply an_answer, an_none|done|]. intros t Ht'. destruct (Hr t Ht'); auto.
      * apply (reopenings h1) in Hl as [Ha Hq]. split_and!; [by eapply an_request|by cbn; f_equal|].
        intros t Ht'. destruct (Hr t Ht'); auto.
    + intros [= <- <- <-] _. split_and!; [by eapply an_request, an_none|done|].
      intros t [= <-]. right; right. by exists h, request, events, w.
  - intros [= <- <- <-] _. by split_and!; [constructor|..].
  - destruct (on_error endpoint num v) as [log1 r1] eqn:He. intros [= <- <- <-] _.
    apply on_error_log in He as (Hl & _ & Hr). apply (reopenings h) in Hl as [Ha Hq]. split_and!; auto.
Qed.

Lemma requests_app log1 log2 : requests (log1 ++ log2) = requests log1 ++ requests log2.
Proof. apply omap_app. Qed.

(** The loop: it serves the visits up to its end, and ends for a signal or an exception. *)
Lemma serve_loop_ends endpoint visits : forall h halt h' log e,
  serve_loop endpoint h halt visits = (h', log, e) -> e <> left_arrays ->
  answers h log h' /\
  match e with
  | stopped => exists n, signalled halt visits n /\ requests log = brought (take n visits)
  | failed t => exists n, escaped endpoint halt visits n t h' /\ requests log = brought (take (S n) visits)
  | goes_on | left_arrays => True
  end.
Proof.
  induction visits as [|[v next] visits IH]; intros h halt h' log e; cbn;
    (destruct halt; [intros [= <- <- <-] _; split; [constructor|]; exists O; split; [split; [done|lia]|done]|]).
  { intros [= <- <- <-] _. split; [constructor|done]. }
  destruct (serve_one endpoint h v) as [[h1 log1] r] eqn:Hv.
  assert (forall n, (forall k, (k < n)%nat -> flag next visits k = Some false) ->
    forall k, (k < S n)%nat -> flag false ((v, next) :: visits) k = Some false) as Hflag.
  { intros n Hn [|[|k]] Hk; [done|apply (Hn O); lia|apply (Hn (S k)); lia]. }
  destruct r as [any|t|].
  - destruct (serve_one_visit _ _ _ next _ _ _ Hv) as (Ha & Hq & _); [done|].
    destruct (serve_loop endpoint h1 next visits) as [[h2 log2] e2] eqn:Hl. intros [= <- <- <-] He.
    destruct (IH _ _ _ _ _ Hl He) as [Ha' Hend]. split; [by eapply answers_app|]. rewrite requests_app, Hq.
    destruct e2 as [|t| |]; [| |done|done].
    + destruct Hend as (n & [Hs Hb] & Hreq). exists (S n). split; [split; [by destruct n|by apply Hflag]|].
      rewrite Hreq. cbn. by destruct (vi_recv v).
    + destruct Hend as (n & [Hb (v' & next' & Hn & Hesc)] & Hreq). exists (S n). split; [split|].
      * intros k Hk. apply (Hflag (S n)); [|lia]. intros k' Hk'. apply Hb. lia.
      * by exists v', next'.
      * rewrite Hreq. cbn. by destruct (vi_recv v).
  - destruct (serve_one_visit _ _ _ next _ _ _ Hv) as (Ha & Hq & Hesc); [done|].
    intros [= <- <- <-] _. split; [done|]. exists O. split; [split|done].
    + intros k Hk. by assert (k = O) as -> by lia.
    + exists v, next. auto.
  - by intros [= <- <- <-].
Qed.

Lemma closed_when_closed (h : Host (R := R)) : rh_open (RuntimeHost.close h) = false.
Proof. unfold RuntimeHost.close. cbn. by destruct (rh_io h). Qed.

Lemma opened_host_open options w h : opened_host options w = success h -> rh_open h = true.
Proof.
  unfold opened_host. cbn. intros (profile & _ & Ho)%result_bind_success.
  apply result_bind_success in Ho as (io & _ & Ho). apply result_bind_success in Ho as (host0 & _ & Ho).
  unfold RuntimeHost.open in Ho.
  destruct (rh_io host0); repeat (destruct (negb _); cbn in Ho; try done); by injection Ho as <-.
Qed.

(** An end before the host is open: its code, its text and why. *)
Definition not_served (arguments : list string) (w : Surroundings) (code : Z) (text : string) : Prop :=
  (code = 2 /\ exists e, parse_runtime_host_cli arguments = failure e /\ text = line (message e) +:+ runtime_host_usage) \/
  exists options, parse_runtime_host_cli arguments = success options /\
    (code = 0 /\ cli_show_help options = true /\ text = line "Run the robot runtime host." +:+ runtime_host_usage \/
     cli_show_help options = false /\
     (code = 2 /\ cli_timeout_ms options <= 0 /\ text = line "--timeout-ms must be positive" \/
      code = 1 /\ 0 < cli_timeout_ms options /\ exists e, opened_host options w = failure e /\ text = line (message e))).

(** An end of the server: its code and its text, why, and the requests it received. *)
Definition server_ended (endpoint : string) (w : Surroundings) (code : Z) (text : string) (log : list served)
    (h : Host) : Prop :=
  (code = 0 /\ text = "" /\ reopen endpoint (sr_opening w) = None /\
   exists n, signalled (sr_stop w) (sr_visits w) n /\ requests log = brought (take n (sr_visits w))) \/
  (code = 1 /\ exists t, text = line (what t) /\
   (reopen endpoint (sr_opening w) = Some t /\ log = [] \/
    reopen endpoint (sr_opening w) = None /\
    exists n, escaped endpoint (sr_stop w) (sr_visits w) n t h /\ requests log = brought (take (S n) (sr_visits w)))).

(** C19. How the host program ends.  Without a host: with code 2 when its arguments are refused or the
    timeout is not positive, with code 0 for help, and with code 1 when the profiles, the robot I/O or
    the opening of the host fail, each with its own text; nothing is served.  Otherwise the arguments
    are accepted, the host was opened, and it is closed at the end: with code 0 after a signal, at
    the first turn of the server that sees it, with code 1 and the exception's text when the socket
    cannot be made, at the start or in a turn no signal came before, or when the printer of an answer
    throws.  The requests received are those of the turns up to there, in their order; each text sent
    back is the answer of the host to the request received just before it, at the state the earlier
    requests left, and each request has at most one answer. *)
Theorem host_main_serves arguments w code text host log :
  main arguments w = exited code text host log ->
  match host with
  | None => log = [] /\ not_served arguments w code text
  | Some h =>
      exists options h0 h1,
        parse_runtime_host_cli arguments = success options /\ cli_show_help options = false /\
        0 < cli_timeout_ms options /\ opened_host options w = success h0 /\ rh_open h0 = true /\
        answers h0 log h1 /\ h = RuntimeHost.close h1 /\ rh_open h = false /\
        server_ended (resolve_policy_endpoint (cli_endpoint options)) w code text log h1
  end.
Proof.
  unfold main, not_served, server_ended.
  destruct (parse_runtime_host_cli arguments) as [options|e]; [|intros [= <- <- <- <-]; eauto 10].
  destruct (cli_show_help options) eqn:Hh; [intros [= <- <- <- <-]; eauto 10|].
  destruct (_ <=? _) eqn:Ht; [apply Z.leb_le in Ht; intros [= <- <- <- <-]; eauto 10|]. apply Z.leb_gt in Ht.
  destruct (opened_host options w) as [h0|e] eqn:Ho; [|intros [= <- <- <- <-]; eauto 15].
  pose proof (opened_host_open _ _ _ Ho) as Hopen. unfold serve_host.
  destruct (reopen _ (sr_opening w)) as [t|] eqn:Hr.
  { intros [= <- <- <- <-]. exists options, h0, h0. split_and!; auto using an_none, closed_when_closed. right. eauto 10. }
  destruct (serve_loop _ _ _ _) as [[h1 served_log] [|t| |]] eqn:Hl; intros [= <- <- <- <-];
    apply serve_loop_ends in Hl as [Ha He]; try done; exists options, h0, h1;
    (split_and!; auto using closed_when_closed).
  right. eauto 10.
Qed.

End Main.
End HostMain.
