(* ===== verification/MainExamples.v ===== *)
(** * The two programs at work *)
From S2P Require Export DaemonExamples DaemonMain HostExamples HostMain.

Module DaemonMainExamples.
Import DdsTypes CommandIngress Daemon DaemonCycle DaemonConfigure DaemonLife LifeFacts DaemonRun DaemonSession DaemonMain.
Open Scope string_scope.
Open Scope list_scope.
Open Scope Z_scope.

#[local] Existing Instance DaemonExamples.bench_link.
#[local] Existing Instance MasterExamples.BenchBackend.

Definition surroundings (ok : bool) (ws : list wakeup) : Surroundings (B := DaemonExamples.Bench) :=
  mkSurroundings LoadedProfile.LoaderExamples.decimal_dump (parsed (JObject (LoadedProfile.LoaderExamples.robot_root "0.01" "12.5")))
    (DaemonSignalLatch.mkSignals false false (Some 7)) DaemonSignalLatch.no_latch true 77 DaemonExamples.clock
    RealtimeSystem.initial RtLoopExamples.thread_before Z.of_nat DaemonExamples.sockets S 0
    (fun _ => true) true "<CycloneDDS/>" ["/"; "opt"] DdsDaemonEndpoint.domain_created true
    (if ok then DaemonExamples.good_start else DaemonExamples.bad_start) RtLoopExamples.granted ws.

Definition outcome ok ws : report (L := DaemonExamples.PortLink) (B := DaemonExamples.Bench) :=
  main 1 2 3 ["robot.json"] (surroundings ok ws).

Definition verdict (r : report (L := DaemonExamples.PortLink) (B := DaemonExamples.Bench)) : Z * string :=
  match r with
  | exited code text _ => (code, text)
  | still_running _ => (-1, "")
  | terminated => (-2, "")
  | no_behaviour => (-3, "")
  end.

(** SIGTERM comes. *)
Definition sigterm : wakeup := mkWakeup [] true 0 0 0.

Example daemon_outcomes :
  verdict (outcome true []) = (-1, "") /\
  verdict (outcome false []) = (1, line "failed to start transport runtime workers") /\
  verdict (outcome true (sigterm :: replicate 10 DaemonExamples.idle_wakeup)) = (0, "").
Proof. by vm_compute. Qed.

Definition has_left (r : report (L := DaemonExamples.PortLink) (B := DaemonExamples.Bench)) : bool :=
  match r with exited _ _ (Some _) => true | _ => false end.

Lemma refused_outcome :
  verdict (outcome false []) = (1, line "failed to start transport runtime workers") /\ has_left (outcome false []) = true.
Proof. split; vm_compute; reflexivity. Qed.

Definition runs (r : report (L := DaemonExamples.PortLink) (B := DaemonExamples.Bench)) : bool :=
  match r with still_running _ => true | _ => false end.

Lemma running_outcome : runs (outcome true []) = true.
Proof. vm_compute. reflexivity. Qed.

Lemma surroundings_admissible ok ws : admissible (surroundings ok ws).
Proof. split; cbn; [lia|lia|apply DaemonExamples.clock_goes|done]. Qed.


End DaemonMainExamples.

Module HostMainExamples.
Import PolicyLoader Policy Rpc RuntimeHost HostCli HostMain RuntimeDds.
Open Scope string_scope.
Open Scope list_scope.
Open Scope Z_scope.

#[local] Existing Instance HostExamples.library_errors.
#[local] Existing Instance TreeText.

(** The endpoint of a profile, over a silent DDS library. *)
Definition endpoint (profile : RobotProfile) : Result Link :=
  o ← DdsRobotIo.make_dds_runtime_robot_io profile true "";
  success (mkDdsLink o (mkWorld HostExamples.silent HostExamples.silent HostExamples.silent (fun _ => None) "") 0 []).

Definition robot_document : Document := parsed (JObject (LoadedProfile.LoaderExamples.robot_root "0.01" "12.5")).

Definition health_request : Json := envelope_object HostExamples.health.

(** A request that is answered, one whose answer cannot be sent, and a socket in the wrong state. *)
Definition visits : list (visit (Text := Json) * bool) :=
  [(mkVisit (r_message health_request) (HostExamples.clock 60) s_sent opened opened, false);
   (mkVisit (r_message (JString "?")) (HostExamples.clock 70) s_not_sent opened opened, false);
   (mkVisit (r_error 156 "Operation cannot be accomplished in current state") (HostExamples.clock 80) s_sent opened opened, true)].

Definition surroundings : Surroundings (Text := Json) :=
  mkSurroundings robot_document robot_document (parsed (PolicyExamples.policy_root "u")) opened false visits.

Definition arguments : list string := ["host"; "--policy-profile"; "p.json"; "--endpoint=lab"].

Definition outcome : report (R := Link) (Text := Json) :=
  main LoadedProfile.LoaderExamples.decimal_dump endpoint arguments surroundings.

(** The code and the length of the log of a program that has served. *)
Definition served_shape (r : report (R := Link) (Text := Json)) : option (Z * nat) :=
  match r with exited code _ (Some _) log => Some (code, length log) | _ => None end.

Lemma outcome_shape : served_shape outcome = Some (0, 7%nat).
Proof. vm_compute. reflexivity. Qed.

Lemma host_main_serves_witness :
  exists text h log h0 h1 n,
    outcome = exited 0 text (Some h) log /\ length log = 7%nat /\
    answers h0 log h1 /\ h = RuntimeHost.close h1 /\ rh_open h = false /\
    signalled false visits n /\ requests log = brought (take n visits).
Proof.
  pose proof outcome_shape as Hs. destruct outcome as [code text [h|] log| |] eqn:Eo;
    [|discriminate Hs|discriminate Hs|discriminate Hs].
  unfold outcome in Eo. pose proof (host_main_serves _ _ _ _ _ _ _ _ Eo) as Hm. cbv beta iota in Hm.
  destruct Hm as (options & h0 & h1 & _ & _ & _ & _ & _ & Ha & Hc & Hr & He).
  injection Hs as -> Hl. destruct He as [(_ & _ & _ & n & Hn & Hq)|[H0 _]]; [|discriminate H0].
  exists text, h, log, h0, h1, n. split_and!; [reflexivity|exact Hl|exact Ha|exact Hc|exact Hr|exact Hn|exact Hq].
Defined.

(** The code and the text of a program that has ended. *)
Definition verdict (r : report (R := Link) (Text := Json)) : option (Z * string) :=
  match r with exited code said _ _ => Some (code, said) | _ => None end.

Definition run (arguments : list string) (o : opening) (visits : list (visit (Text := Json) * bool)) :=
  verdict (main LoadedProfile.LoaderExamples.decimal_dump endpoint arguments
    (mkSurroundings robot_document robot_document (parsed (PolicyExamples.policy_root "u")) o false visits)).

Example ends :
  run ["host"; "--help"] opened [] = Some (0, line "Run the robot runtime host." +:+ runtime_host_usage) /\
  run ["host"; "--policy-profile"; "p.json"; "--timeout-ms=0"] opened [] = Some (2, line "--timeout-ms must be positive") /\
  run arguments (socket_failed 98 "Address already in use") [] = Some (1, line "Address already in use") /\
  run arguments opened [] = None /\
  run arguments opened [(mkVisit (r_error 156 "Operation cannot be accomplished in current state") (HostExamples.clock 60)
    s_sent opened (socket_failed 98 "Address already in use"), false)] = Some (1, line "Address already in use").
Proof. vm_compute. repeat split. Qed.

End HostMainExamples.
